(* ===== verification/_CoqProject ===== *)
-Q . S2P
Prelude.v
Errors.v
GoStrings.v
Ref.v
Provider.v
Decode.v
Base64.v
GoNumbers.v
Fields.v
Resolve.v
Config.v
DerivedVersion.v
Pointer.v
Canonical.v
Poll.v
Status.v
Bootstrap.v
EngineState.v
Engine.v
Loop.v
EngineFacts.v
Invariant.v
Load.v
LoadFacts.v
Demo.v
Watcher.v
Reconciler.v
Pins.v
Blocks.v
Debounce.v
Quiescence.v
Chains.v
Doctor.v
Auth.v
GoPath.v
Server.v
Handlers.v
SSE.v
Client.v
ClientWatch.v
HttpCore.v
Revalidate.v
TokenCache.v
HttpAuth.v
Backends.v
Rereaders.v
Carriers.v
Middleware.v
Builtin.v
FileWatch.v
LongPoll.v
SourceTag.v
PolicyDoc.v
SurfaceDiff.v
Clock.v
Transport.v
Jwt.v
Control.v
Schema.v
Admin.v
Secret.v
PollHealth.v
Consul.v
Bitwarden.v
Sql.v
Nacos.v
GoAst.v
Vet.v
Laundering.v
Explain.v
Live.v
Polled.v
Bulk.v
Stores.v
UniversalAuth.v
