(* ===== verification/Prelude.v ===== *)
(** * A verification development of mamori

    mamori (Go, src/) is a library that fills a configuration struct from
    secret and configuration backends and keeps it up to date: struct tags name
    refs ("vault:db#password"), [Load] resolves them once, and [Watch] starts
    a reconciler that follows the backends and publishes validated snapshots.
    This development models the library's own logic, translates it function by
    function, and proves what a user relies on.  Definitions keep the names of
    the Go functions, are executable, and are evaluated on a concrete watcher
    ([Demo]) by the witnesses.

    ** How the program is put together, and where each part is modelled

    - Errors and kinds (errors.go): [Errors].  An error is a tree of sentinels,
      wrappers and library error types; [errors_Is] walks it, [ErrorKind]
      classifies it.  [res] is Go's pair of a value and an error.
    - Strings (parts of the Go standard library that the source calls):
      [GoStrings]; numbers (strconv, time.ParseDuration, widths): [GoNumbers].
    - Refs (ref.go, refvars.go, [Redacted] of status.go): [Ref].  Parsing,
      rendering, precedence chains, ${VAR} expansion, redaction.
    - Values and providers (value.go, helpers.go, provider.go, registry.go):
      [Provider].  The world outside - backends, clock, observers - is a type
      [W] with the class [Env]; a provider is a function of the world.
    - The ?decode= pipeline (decodeopt.go): [Decode].
    - Key selection in a payload (jsonpointer.go, [SelectKey]): [Pointer].
    - The poll loop behind providers that cannot watch (poll.go, backoff.go):
      [Poll], a function of the answers of the provider and the clock.
    - The struct walk and the field decoder (decode.go): [Fields], over a
      universe [gtype]/[gval] of Go struct types and values, since the source
      works by reflection.
    - The one-shot resolve (resolve.go, resolveref.go): [Resolve].
    - What the reconciler needs of a configuration type, the class [Config], and
      the diff events: [Config]; its instance for [Fields] and the canonical
      encoding behind derived versions (derivedversion.go): [DerivedVersion]; that
      the encoding tells values apart: [Canonical].
    - Reports and health (status.go, report.go): [Status].
    - The bootstrap cache (bootstrap*.go): [Bootstrap].
    - The reconciler (reconciler.go, with preapply.go, history.go, pin.go,
      refresh.go and the engine halves of report.go and bootstrapstore.go):
      [EngineState] (the [engine] struct, with the values its [Watcher]
      publishes, the dispatch queue and the effects; one setter per field),
      [Engine] (one definition per method), [Loop] (the goroutine of [loop]: its
      local variables and one step per case of its select).
    - Loading and starting (reconcile.go, [Watch] and [start]): [Load].
    - The control channel (the delivery half of pin.go, refresh.go and the
      reentrancy mark of preapply.go and reconciler.go): [Control], the callers,
      the loop and its callbacks as steps, and the goroutine number read back from
      a stack trace.
    - The poll loop behind the reconciler, as health sees it: [PollHealth].
    - Clocks (clock.go): [Clock], the fake clock among any of its users.
    - Secret values (secret/): [Secret], headers over shared backing arrays.
    - The report of a probe without a watcher (doctor.go): [Doctor].
    - The admin endpoint (handler.go, adminhttp.go): [Admin], its options, its two
      routes behind the ServeMux, and the server of [Watch].
    - The authentication schemes (auth.go, authschemes.go, authpeercred.go):
      [Auth], on what a scheme reads of a request; the JWT scheme (x/authjwt) over
      the interface of its library, the class [jwt_library]: [Jwt].
    - The config server (server/): [Server] has its construction, its policies
      (with [GoPath], the glob of path.Match) and the snapshots of its bindings,
      [Handlers] the wire bodies and the endpoints (wire.go, handler.go),
      [Transport] the listeners, their socket files and the turns of [Serve] and
      [Close] (transport.go) on a host shared with other processes.
    - Server-sent events (providers/httpcore/sse.go and the frames of wire.go):
      [SSE].
    - The client of the config server (providers/mamori): [Client] (resolve,
      batch, failover) and [ClientWatch] (the watch loop and its freshness
      guard).  [serve] of [Client] puts the handlers of [Handlers] behind an
      HTTP endpoint, so that the two sides meet in one theorem.
    - The core of the backend clients (providers/httpcore): [HttpCore] (paths,
      bounds, classification, one round trip), [Revalidate] (the conditional
      cache), [TokenCache] (the client-credentials token, whose callers are
      goroutines and whose critical sections are steps), [HttpAuth] (the static
      credentials, the construction of the grant, the redaction of URLs in errors),
      [LongPoll] (the loop of held-open rounds).
    - Backend providers: [Consul] (blocking queries), [Nacos] (the listener and its
      digests over [LongPoll]), [Bitwarden] (authenticated ciphertexts, the access
      token, the session over the cache of [TokenCache], its codec in [Base64]), [Sql]
      (postgres, mysql, sqlite: a Module each over one allowlist).
    - Watches over streams: [Backends] has what they share - the client opened on
      the first use and closed once, systems whose items are events and the
      interface of the watches that re-read ([Rereader], [Draining]) -,
      [Rereaders] its instances redis, mongodb and firebase-rtdb, [Carriers] the
      watches whose events carry the value, etcd and k8s.
    - Providers that are polled over the HTTP core: [Polled] has what they share - one
      request for a ref, the interface [HttpProvider] of those that are closed for good -
      and https, doppler, supabase, hcp-vault-secrets and posthog, a Module each;
      [UniversalAuth] the
      one with a login of its own over [TokenCache], infisical; [Bulk] the theory of
      batches by document with heroku, [Stores] its instances cloudflare-kv (chunks of
      keys) and vercel-gc (items held under a digest).
    - The decorators of providers (middleware/): [Middleware].
    - The built-in providers (builtin_env.go, builtin_file.go, builtin_dotenv.go,
      builtin_exec.go) and their parsers: [Builtin]; their watch over fsnotify, and
      the choice between a native watch and polling (watchref.go): [FileWatch].
    - The static commands (cmd/mamori): [SourceTag] (the rules for source tags they
      repeat, the walk of extract.go), [PolicyDoc] (policy.go), [SurfaceDiff]
      (diff.go, diffmodel.go), [Schema] (schema.go).  Struct types are the universe of [Fields], so that
      what they list can be compared with what the library reads.  [GoAst] has the syntax
      trees and types that a source file is read into; over it [Vet] is the analyzer of
      derive hooks and its command (vetcheck, vet.go), [Laundering] what those hooks
      compute and what its silence means; [Explain] is extraction from packages, explain
      and the comparison with a running process (explain.go, compare.go).
    - The live commands (doctor.go, status.go, watch and main of cmd/mamori): [Live], from
      the flags and the credential to the exit code.

    A handler of the source that mutates the engine is a function from engine to
    engine; the goroutines are sequences of [loop_event]s.  The environment
    contributes steps of its own: [LWorld] lets time pass and backends change,
    [LDispatch] is the dispatcher goroutine handing a change to OnChange,
    [LUpdate] is a message of any forwarder, in any order.  [steps] is the
    relation, [run] executes it, and [reachable] (in [LoadFacts]) is every state
    some [Watch] can be driven to.

    ** What the theorems show

    - The watcher ([Watcher]): an abstract state machine - a log of admitted
      configurations, a pin, a bounded queue - and the proof that every execution
      of the reconciler is one of it, with the same replies; versions name one
      configuration for ever.
    - The reconciler ([Reconciler], on the invariant of [Invariant] and the
      facts of [EngineFacts]): everything observable has been through the whole
      pipeline; a refusal is atomic, is reported, and is retried; an applied
      flush publishes exactly its diff, counts one version, keeps the history
      and drops the oldest event of a full queue; flushing again settles.  Two
      theorems record where the code parts from its documentation: values
      without a version, and the snapshot written at the end of a recovery.
    - Pins ([Pins]): a pin freezes Get and the stream of changes, which versions
      can be pinned, and the single change an unpin publishes.
    - Blocks ([Blocks]): onfail:"fail" refuses every flush with a recorded error,
      and a recovery puts back what the block had stranded.
    - Debounce ([Debounce]): a batch always has an armed timer, is flushed within
      the smallest window of its fields, and cannot be starved.
    - Rest ([Quiescence]): left alone the goroutine and the dispatcher stop within
      a bound, having flushed and delivered everything that is due.
    - Chains ([Chains]): the reconciler and the one-shot walk agree on the winner,
      whatever the order in which the sources report.
    - Resolve, refs, decode, fields, bootstrap, health: the policy table of one
      field, the transparency of batching but for a batch that fails as a whole,
      parse/print and seal/restore round
      trips, the meaning of variable expansion, the independence of redacted
      text from secrets, the soundness of the struct walk, the safety of a
      restore and the agreement of Health and Status.
    - Control ([Control]): commands are executed one at a time and answered by
      their own reply; a call from inside a callback that is armed - the gate, a derive
      hook, the error callback, nested as they may be - is refused at once, and none is
      left waiting, whatever closes or returns first.  A theorem records the two
      callbacks that are not armed, a decode hook and the validator: a call from those
      waits until the watcher is closed.
    - Clocks and secrets ([Clock], [Secret]): the fake clock never gets stuck and
      advances additively; a clone is its owner's to wipe, a wiped header takes its
      copies along, and what is printed through the methods tells nothing.
    - Health of a polled field ([PollHealth]): a source that answers without moving
      is never confirmed to the reconciler, so its field goes stale, or keeps the
      error it had, while every poll succeeds.
    - Pointers, polling, derived versions, Doctor: a pointer selects what its path
      addresses and absence is told from a bad request; a polled source is
      current, its failures are counted and its waits are bounded; different values
      of the types made of scalars, bytes, secrets and structs have different encodings;
      a report of Doctor without errors leaves a load the reasons Doctor does not look
      at, and agrees with a load that succeeds on every derived version, while a merely
      healthy one may precede a load that fails.

    - Server and client: a server is closed by default, serves the last known
      good value of each binding, and reveals nothing its caller may not read, but
      that every binding has settled, which the readiness probe tells; a client gets exactly the value or the kind of failure the server has, one by
      one or in a batch; a stream survives its framing wherever it is cut; a watch
      carries the server's updates in order and never goes back in time across
      replicas.  [Close] releases every listener and spares the sockets of a
      successor when no listener failed by itself and [Serve] did not tear down on its
      own, and three theorems of [Transport] record what happens otherwise.
    - Authentication and admin: no token is verified with a key or an algorithm of
      another family; a caller of the admin endpoint who does not authenticate
      learns one bit.
    - Backend clients: a path never leaves its base URL, a value is never
      truncated, conditional polling is transparent, one token exchange is in
      flight at a time and no caller is given a token that is about to expire, a long poll reports every outcome and paces its failures
      (and, as a theorem records, a quiet recovery not at all); a credential sent by
      a client is the one its server expects, and no error shows one - but for two
      forms of a token endpoint.
    - Backend providers: a Consul watch tells the last answer across errors and
      index resets; a Nacos watch has no gap between its read and its listener;
      nothing unauthenticated is decrypted, and what is sealed opens; no ref can put
      anything but an allowlisted name into a statement; a closed provider asks
      nothing.  A watch over a stream has told the value of its backend once
      nothing is on its way, whatever was written, dropped or failed before, and
      reaches such a state by its own turns with bounded waits; an etcd watch tells
      every write in order.  Theorems record what is lost: deletions, keys that are
      patterns, a snapshot overtaken by its own stream.
    - Polled providers and batches: a provider that is closed answers nothing and asks
      nothing, whatever is called; the value of an https endpoint, and of a Global Config
      store whose items are held under a digest, is one the backend had during the
      resolve; a flag is said to be absent only when it was computed; a filter reads
      back as the name it is for.  A batch by document says of each ref what its own
      resolve says, in any order of its groups and whatever the ceiling of a request.
    - Decorators and built-ins: a failover and its batch are lawful, a cached value
      is no older than its time to live, limited calls are spaced; quoting is
      inverted by the command-line and dotenv parsers; a watched file is current.
      A theorem records that prefixes over one cache share its entries.
    - Static commands: for plain source tags they see the fields and refs the
      library reads; the policy grants exactly what is read, under the names the
      backends give it; the gates of diff exit
      2 exactly when the surface, or what is read, changed; the schema describes the
      fields of the struct, and theorems record where it does not.  A hook of which vet is
      silent leaves the same plain fields whatever the secrets contain, as long as it only
      assigns fields whose type is spelled string, []byte or a secret
      ([Laundering]: noninterference, by induction on the statements of the hook);
      theorems record the paths and aliases it does not follow.  A comparison is quiet when
      the code and the process agree, and a theorem records the nested structs it
      reports all the same.
    - Live commands: the exit code of doctor is the health of the watcher behind the
      endpoint, or says that it cannot be told; the credential a command is given is the
      one the endpoint reads, and none is sent in the clear.

    ** Parameters, hypotheses and bounds

    Code that is not part of the repository is a parameter: the providers, the
    caller's hooks (validator, derive hooks, PreApply), JSON, YAML, TOML and
    mapstructure, gzip, AES-GCM, SHA-256, floating point parsing, and the file
    system under the snapshot.  Hypotheses state their documented behaviour
    where a theorem needs it: [stable] (a backend that does not change while it
    is read), [batch_contract] (what ResolveBatch promises), [monotone_clock]
    (readings of the clock do not decrease), the class [Wire] (JSON bodies survive
    the trip when their text is UTF-8 and their dates are in range), the class
    [jwt_library] (what the JWT library verifies before it returns a token), the class [ReportJSON] (a
    report survives its encoding), the documents of a backend that holds still while a
    batch is compared with its refs, digests that are replaced on every edit, the
        inverse laws of the AEAD and of the codec in [Bootstrap] and of the block cipher
    in [Bitwarden], the indexes of a Consul server ([faithful]), what the stream of a backend sends
    for a write and opens with ([Rereaders], [Carriers]), and the distinctness of spec paths, which
    [Fields.fieldSpecs_sound] proves of the struct walk.

    Times and durations are nanoseconds in [Z], with the saturation of
    [Time.Sub]; the zero time is 0.  Versions of snapshots count in [nat], the
    64-bit counter not wrapping in practice.  Fuel appears in the retry loop of
    [enqueue] (a buffered queue needs two turns; [enqueue] gives more than it
    can use) and in [format_hex] (sixteen digits).  An unbuffered queue would
    make the source's loop wait for a receiver, so the theorems about the queue
    assume a positive depth.  A hook is a function: one that panics is outside the
    model; one that does not return, or calls the watcher back, is a step of
    [Control].  Logging is not modelled.

    ** Not modelled, and planned

    The remaining backend providers (one directory of providers/ each) are clients
    of vendor SDKs, with little logic between the call and the value; those that
    poll go through [Poll] and [Revalidate], those that stream (Firestore,
    LaunchDarkly) would be further instances of [Backends], those with batches of
    [Bulk].  The telemetry bridges (x/otel, x/prom, observ.go) call vendor libraries.
    The type checker and the loading of packages are parameters of [GoAst] and
    [Explain]; the layout of tables is kept as far as the columns.  The test helpers
    (mamoritest, providertest) are tools for the tests of users. *)

From stdpp Require Export base gmap sets list strings sorting.
From Stdlib Require Export ZArith Lia Ascii.

Set Default Proof Using "Type".

(** * Automation shared by the development *)

(** The hint database of facts that close the routine side conditions of the
    component files. *)
Create HintDb mamori.
Create Rewrite HintDb mamori.

(** Split the boolean tests of a goal or a hypothesis produced by unfolding a
    handler, and clean up the resulting equations. *)
Ltac bool_cases :=
  repeat match goal with
  | |- context [if ?b then _ else _] => destruct b eqn:?
  | H : context [if ?b then _ else _] |- _ => destruct b eqn:?
  end; simplify_eq/=.

(** Case analysis on every [match] of the goal, then simplification. *)
Ltac match_cases := repeat (case_match; simplify_eq/=).

(** Boolean hypotheses to propositions. *)
Ltac bool_norm :=
  repeat match goal with
  | H : _ && _ = true |- _ => apply andb_true_iff in H as [? ?]
  | H : _ || _ = false |- _ => apply orb_false_iff in H as [? ?]
  | H : negb _ = true |- _ => apply negb_true_iff in H
  | H : negb _ = false |- _ => apply negb_false_iff in H
  | H : bool_decide _ = true |- _ => apply bool_decide_eq_true in H
  | H : bool_decide _ = false |- _ => apply bool_decide_eq_false in H
  end.

(** * Lists *)

Section lists.
Context {A B : Type}.
Implicit Types l : list A.

(** [last_n n l] keeps the last [n] elements: [l[len(l)-n:]] of the source
    when [n <= len(l)]. *)
Definition last_n (n : nat) (l : list A) : list A := drop (length l - n) l.

Lemma last_n_length n l : length (last_n n l) = min n (length l).
Proof. unfold last_n. rewrite length_drop. lia. Qed.

Lemma last_n_suffix n l : last_n n l `suffix_of` l.
Proof. unfold last_n. eexists. symmetry. apply take_drop. Qed.

Lemma last_n_last n l x : 0 < n -> last l = Some x -> last (last_n n l) = Some x.
Proof.
  intros Hn Hl. unfold last_n.
  rewrite last_lookup in Hl |- *. rewrite lookup_drop, length_drop.
  rewrite <- Hl. f_equal. apply lookup_lt_Some in Hl. lia.
Qed.

Lemma forallb_false (f : A -> bool) l : forallb f l = false -> exists x, In x l /\ f x = false.
Proof.
  induction l as [|x l IH]; simpl; [done|]. destruct (f x) eqn:Ex; [|by exists x; auto].
  intros Hl. destruct (IH Hl) as (y & ? & ?). exists y. auto.
Qed.

(** Every element of [l] satisfies [P] also in a sublist. *)
Lemma Forall_last_n (P : A -> Prop) n l : Forall P l -> Forall P (last_n n l).
Proof. intros. unfold last_n. by apply Forall_drop. Qed.
End lists.

(** * Maps as Go reads them *)

(** [m[k]] of a Go map with string values: the zero value of a missing key. *)
Definition go_get `{Countable K} (m : gmap K string) (k : K) : string :=
  default EmptyString (m !! k).

Lemma go_get_insert_eq `{Countable K} (m : gmap K string) k v :
  go_get (<[k:=v]> m) k = v.
Proof. unfold go_get. by rewrite lookup_insert_eq. Qed.

Lemma go_get_insert_ne `{Countable K} (m : gmap K string) k k' v :
  k <> k' -> go_get (<[k:=v]> m) k' = go_get m k'.
Proof. intros. unfold go_get. by rewrite lookup_insert_ne. Qed.

Lemma go_get_empty `{Countable K} (k : K) : go_get (∅ : gmap K string) k = EmptyString.
Proof. unfold go_get. by rewrite lookup_empty. Qed.

#[export] Hint Rewrite @go_get_insert_eq @go_get_empty : mamori.

(** * Pairwise relations *)

Lemma ForallOrdPairs_app {A} (R : A -> A -> Prop) l1 l2 :
  ForallOrdPairs R l1 -> ForallOrdPairs R l2 ->
  (forall x y, x ∈ l1 -> y ∈ l2 -> R x y) -> ForallOrdPairs R (l1 ++ l2).
Proof.
  intros H1 H2 H. induction H1 as [|x l Hx Hl IH]; simpl; [done|].
  constructor.
  - apply List.Forall_app. split; [done|]. apply List.Forall_forall. intros y Hy.
    apply H; [constructor|]. by apply list_elem_of_In.
  - apply IH. intros a b Ha Hb. apply H; [by constructor|done].
Qed.

Lemma ForallOrdPairs_map {A B} (R : B -> B -> Prop) (f : A -> B) l :
  ForallOrdPairs (fun x y => R (f x) (f y)) l -> ForallOrdPairs R (map f l).
Proof.
  induction 1 as [|x l Hx Hl IH]; simpl; constructor; [|done].
  apply List.Forall_map. done.
Qed.

Lemma ForallOrdPairs_impl {A} (R S : A -> A -> Prop) l :
  (forall x y, R x y -> S x y) -> ForallOrdPairs R l -> ForallOrdPairs S l.
Proof.
  intros H. induction 1 as [|x l Hx Hl IH]; constructor; [|done].
  eapply List.Forall_impl; [|exact Hx]. auto.
Qed.

(** A pairwise relation carried along a list of related elements. *)
Lemma ForallOrdPairs_Forall2 {A B} (R : A -> A -> Prop) (S : B -> B -> Prop)
    (P : A -> B -> Prop) l k :
  (forall a a' b b', P a b -> P a' b' -> R a a' -> S b b') ->
  Forall2 P l k -> ForallOrdPairs R l -> ForallOrdPairs S k.
Proof.
  intros H HP. induction HP as [|a b l k Hab HP IH]; intros HR; [constructor|].
  inversion_clear HR as [|?? Ha Hl]. constructor; [|auto]. apply List.Forall_forall.
  intros b' Hb'%list_elem_of_In. apply list_elem_of_lookup in Hb' as [i Hi].
  destruct (Forall2_lookup_r _ _ _ _ _ HP Hi) as (a' & Ha' & Hab').
  eapply H; [exact Hab|exact Hab'|]. rewrite List.Forall_forall in Ha. apply Ha.
  apply list_elem_of_In. by eapply list_elem_of_lookup_2.
Qed.

Lemma ForallOrdPairs_ne_NoDup {A} (l : list A) : ForallOrdPairs (fun x y => x <> y) l -> NoDup l.
Proof.
  induction 1 as [|x l Hx Hl IH]; constructor; [|done].
  intros Hin%list_elem_of_In. rewrite List.Forall_forall in Hx. by apply (Hx x).
Qed.

(** * Filters of lists *)

Section filters.
Context {A : Type} (P : A -> Prop) `{forall x, Decision (P x)}.

Lemma filter_all (l : list A) : (forall x, x ∈ l -> P x) -> filter P l = l.
Proof.
  induction l as [|x l IH]; intros Hl; [done|]. rewrite filter_cons_True by (apply Hl; set_solver).
  f_equal. apply IH. set_solver.
Qed.

Lemma filter_none (l : list A) : (forall x, x ∈ l -> ~ P x) -> filter P l = [].
Proof.
  induction l as [|x l IH]; intros Hl; [done|]. rewrite filter_cons_False by (apply Hl; set_solver).
  apply IH. set_solver.
Qed.

Lemma filter_filter_iff (Q R : A -> Prop) `{forall x, Decision (Q x), forall x, Decision (R x)} (l : list A) :
  (forall x, R x <-> P x /\ Q x) -> filter P (filter Q l) = filter R l.
Proof.
  intros HR. induction l as [|x l IH]; [done|]. rewrite !filter_cons.
  specialize (HR x). repeat case_decide; rewrite ?filter_cons; repeat case_decide; rewrite ?IH; tauto.
Qed.

Lemma filter_map {B} (f : B -> A) (l : list B) : filter P (map f l) = map f (filter (fun x => P (f x)) l).
Proof. induction l as [|x l IH]; [done|]. simpl. rewrite !filter_cons. case_decide; simpl; by rewrite IH. Qed.

Lemma filter_flat_map {B} (f : B -> list A) (l : list B) : filter P (flat_map f l) = flat_map (fun x => filter P (f x)) l.
Proof. induction l as [|x l IH]; [done|]. simpl. by rewrite filter_app, IH. Qed.
End filters.

Lemma length_filter_remove {A} `{EqDecision A} (x : A) (l : list A) :
  NoDup l -> x ∈ l -> length l = S (length (filter (fun y => y <> x) l)).
Proof.
  intros Hnd (l1 & l2 & ->)%list_elem_of_split. apply NoDup_app in Hnd as (_ & H1 & H2).
  inversion H2 as [|? ? Hx _]; subst. rewrite filter_app, filter_cons_False by tauto.
  rewrite !filter_all; [rewrite !length_app; simpl; lia|intros y Hy ->..].
  - done.
  - by apply (H1 x); [|left].
Qed.
