(* ===== verification/Errors.v ===== *)
(** Error values and their classification (src/errors.go, src/resolveref.go,
    src/preapply.go): the sentinels, the wrapping error types of the package,
    [errors.Is] over the chains they build, [ErrorKind] and [SentinelFor].
    A Go pair (value, error) is a [res]. *)

From S2P Require Import Prelude.
Open Scope string_scope.

(** * Sentinels *)

(** The values made by [errors.New] that the package compares errors with,
    and the two context errors of the standard library. *)
Inductive sentinel :=
  | ErrNotFound
  | ErrPermissionDenied
  | ErrUnauthenticated
  | ErrUnavailable
  | ErrRateLimited
  | ErrInvalid
  | ErrNoSuchSnapshot
  | errWatcherClosed
  | ErrReentrantCall
  | errNotWatchable
  | ErrForbidden
  | CtxDeadlineExceeded
  | CtxCanceled.

#[export] Instance sentinel_eq_dec : EqDecision sentinel.
Proof. solve_decision. Defined.

(** An error value. [EOpaque] is an error whose chain ends there: an SDK error,
    or one formatted with [%v]. [EWrap] is [fmt.Errorf] with one or several
    [%w] verbs, or [errors.Join]; the other constructors are the struct types
    the package declares, each with the error its [Unwrap] returns. *)
Inductive error :=
  | ESentinel (s : sentinel)
  | EOpaque (msg : string)
  | EWrap (msg : string) (causes : list error)
  | ProviderError (scheme ref : string) (err : error)
  | ValidationError (err : error)
  | DeriveError (err : error)
  | PreApplyError (err : error)
  | StaleError (ref : string) (err : error)
  | BootstrapStaleError (age maxAge : Z)
  | HealthError (fields : list string)
  | unknownSchemeError (scheme : string).

(** [errors.Is(err, target)] for a comparable sentinel [target]: true when the
    tree obtained by repeatedly unwrapping holds it. *)
Fixpoint errors_Is (err : error) (target : sentinel) : bool :=
  match err with
  | ESentinel s => bool_decide (s = target)
  | EOpaque _ | HealthError _ => false
  | EWrap _ causes => existsb (fun c => errors_Is c target) causes
  | ProviderError _ _ e | ValidationError e | DeriveError e
  | PreApplyError e | StaleError _ e => errors_Is e target
  | BootstrapStaleError _ _ => bool_decide (ErrUnavailable = target)
  | unknownSchemeError _ => bool_decide (ErrInvalid = target)
  end.

(** A Go (value, error) pair: exactly one side is meaningful. *)
Inductive res (A : Type) :=
  | Ok (a : A)
  | Err (e : error).
Arguments Ok {A} a.
Arguments Err {A} e.

#[export] Instance res_ret : MRet res := fun A a => Ok a.
#[export] Instance res_bind : MBind res := fun A B f r =>
  match r with Ok a => f a | Err e => Err e end.
#[export] Instance res_fmap : FMap res := fun A B f r =>
  match r with Ok a => Ok (f a) | Err e => Err e end.

(** [return x, fmt.Errorf("...: %w", err)] on the error side. *)
Definition res_wrap {A} (f : error -> error) (r : res A) : res A :=
  match r with Ok a => Ok a | Err e => Err (f e) end.

Definition is_ok {A} (r : res A) : bool :=
  match r with Ok _ => true | Err _ => false end.

(** * Kinds *)

(** [type Kind string] and its constants. *)
Definition Kind := string.
Definition KindNotFound : Kind := "not_found".
Definition KindPermissionDenied : Kind := "permission_denied".
Definition KindUnauthenticated : Kind := "unauthenticated".
Definition KindUnavailable : Kind := "unavailable".
Definition KindRateLimited : Kind := "rate_limited".
Definition KindInvalid : Kind := "invalid".
Definition KindUnknown : Kind := "unknown".

(** The table [ErrorKind] walks, in its order. *)
Definition kindSentinels : list (Kind * sentinel) :=
  [ (KindNotFound, ErrNotFound);
    (KindPermissionDenied, ErrPermissionDenied);
    (KindUnauthenticated, ErrUnauthenticated);
    (KindUnavailable, ErrUnavailable);
    (KindRateLimited, ErrRateLimited);
    (KindInvalid, ErrInvalid) ].

(** [ErrorKind(err)]; [None] is the nil error. *)
Definition ErrorKind (err : option error) : Kind :=
  match err with
  | None => ""
  | Some e =>
      match find (fun ks => errors_Is e ks.2) kindSentinels with
      | Some ks => ks.1
      | None =>
          if errors_Is e CtxDeadlineExceeded then KindUnavailable else KindUnknown
      end
  end.

(** [SentinelFor(k)]; [None] is the nil error. *)
Definition SentinelFor (k : Kind) : option sentinel :=
  match find (fun ks => bool_decide (ks.1 = k)) kindSentinels with
  | Some ks => Some ks.2
  | None => None
  end.

(** [joinCallbackList(items)] of the message of [ErrReentrantCall]. *)
Fixpoint joinCallbackTail (items : list string) : string :=
  match items with
  | [] => ""
  | [x] => ", or " ++ x
  | x :: rest => ", " ++ x ++ joinCallbackTail rest
  end.

Definition joinCallbackList (items : list string) : string :=
  match items with
  | [] => ""
  | [x] => x
  | [x; y] => x ++ " or " ++ y
  | x :: rest => x ++ joinCallbackTail rest
  end.

(** * Facts used by the other files *)

(** An error is absence exactly when its kind is: the one kind that drives
    [default:] handling is decided by [errors.Is] alone. *)
Lemma ErrorKind_not_found e :
  ErrorKind (Some e) = KindNotFound <-> errors_Is e ErrNotFound = true.
Proof.
  unfold ErrorKind; simpl.
  destruct (errors_Is e ErrNotFound); [done|].
  by repeat (case_match; simplify_eq/=).
Qed.

Lemma errors_Is_sentinel s t : errors_Is (ESentinel s) t = bool_decide (s = t).
Proof. done. Qed.

Lemma errors_Is_provider sch r e t :
  errors_Is (ProviderError sch r e) t = errors_Is e t.
Proof. done. Qed.

#[export] Hint Rewrite errors_Is_provider : mamori.

(** Wrapping under a struct type of the package never changes the class. *)
Lemma ErrorKind_wrapped f e :
  f ∈ [ (fun e => ProviderError "" "" e); ValidationError; DeriveError;
        PreApplyError; (fun e => StaleError "" e) ] ->
  ErrorKind (Some (f e)) = ErrorKind (Some e).
Proof. rewrite !elem_of_cons, elem_of_nil. by intros [->|[->|[->|[->|[->|[]]]]]]. Qed.
