(* ===== verification/GoStrings.v ===== *)
(** The string operations of the Go standard library that the source uses, on
    byte strings: [strings.Cut], [TrimPrefix], [TrimSpace], [IndexByte],
    [Split], the query escaping of [net/url], [url.ParseQuery] and
    [url.Values.Encode]. *)

From S2P Require Import Prelude Errors.
Open Scope string_scope.

(** * Bytes *)

Definition byte_of (n : nat) : ascii := ascii_of_nat n.

Definition in_range (lo hi : nat) (c : ascii) : bool :=
  (lo <=? nat_of_ascii c)%nat && (nat_of_ascii c <=? hi)%nat.

Definition is_digit (c : ascii) : bool := in_range 48 57 c.
Definition is_upper (c : ascii) : bool := in_range 65 90 c.
Definition is_lower (c : ascii) : bool := in_range 97 122 c.
Definition is_letter (c : ascii) : bool := is_upper c || is_lower c.

Definition ascii_eqb (a b : ascii) : bool := bool_decide (a = b).

(** * Searching and cutting *)

(** [strings.Contains(s, c)] for a single byte, and [strings.ContainsRune]. *)
Fixpoint has_byte (c : ascii) (s : string) : bool :=
  match s with
  | EmptyString => false
  | String a s => ascii_eqb a c || has_byte c s
  end.

(** [strings.IndexByte(s, c)]; [None] is -1. *)
Fixpoint IndexByte (s : string) (c : ascii) : option nat :=
  match s with
  | EmptyString => None
  | String a s => if ascii_eqb a c then Some 0%nat else S <$> IndexByte s c
  end.

(** [strings.Cut(s, sep)] for a one-byte separator: the text before and after
    the first separator, [None] when there is none. *)
Fixpoint Cut (s : string) (c : ascii) : option (string * string) :=
  match s with
  | EmptyString => None
  | String a s =>
      if ascii_eqb a c then Some ("", s)
      else match Cut s c with
           | Some (b, r) => Some (String a b, r)
           | None => None
           end
  end.

(** [strings.HasPrefix] and [strings.TrimPrefix]. *)
Fixpoint HasPrefix (s p : string) : bool :=
  match p, s with
  | EmptyString, _ => true
  | String a p, String b s => ascii_eqb a b && HasPrefix s p
  | String _ _, EmptyString => false
  end.

Fixpoint str_drop (n : nat) (s : string) : string :=
  match n, s with
  | O, _ => s
  | S n, String _ s => str_drop n s
  | S _, EmptyString => ""
  end.

Fixpoint str_take (n : nat) (s : string) : string :=
  match n, s with
  | O, _ => ""
  | S n, String a s => String a (str_take n s)
  | S _, EmptyString => ""
  end.

Definition TrimPrefix (s p : string) : string :=
  if HasPrefix s p then str_drop (String.length p) s else s.

(** [strings.Split(s, sep)] for a one-byte separator: one more piece than
    there are separators. *)
Fixpoint Split (s : string) (c : ascii) : list string :=
  match s with
  | EmptyString => [""]
  | String a s =>
      if ascii_eqb a c then "" :: Split s c
      else match Split s c with
           | [] => [String a ""]
           | p :: ps => String a p :: ps
           end
  end.

(** [strings.Join(parts, sep)]. *)
Fixpoint Join (parts : list string) (sep : string) : string :=
  match parts with
  | [] => ""
  | [p] => p
  | p :: ps => p ++ sep ++ Join ps sep
  end.

Fixpoint str_rev_onto (s acc : string) : string :=
  match s with
  | EmptyString => acc
  | String a s => str_rev_onto s (String a acc)
  end.

Definition str_rev (s : string) : string := str_rev_onto s "".

(** [strings.HasSuffix] and [strings.TrimSuffix]. *)
Definition HasSuffix (s p : string) : bool := HasPrefix (str_rev s) (str_rev p).
Definition TrimSuffix (s p : string) : string :=
  if HasSuffix s p then str_take (String.length s - String.length p) s else s.

(** * White space *)

(** The one-byte white space of [unicode.IsSpace]. *)
Definition ascii_space (c : ascii) : bool := in_range 9 13 c || ascii_eqb c " ".

(** The number of bytes of the white space rune that [s] starts with, 0 when
    it starts with none: the White_Space runes of [unicode.IsSpace], in their
    UTF-8 encodings. *)
Definition space_width (s : string) : nat :=
  match s with
  | String a rest =>
      if ascii_space a then 1
      else
        match nat_of_ascii a, rest with
        | 194%nat, String b _ =>
            if ascii_eqb b (byte_of 133) || ascii_eqb b (byte_of 160) then 2 else 0
        | 225%nat, String b (String c _) =>
            if ascii_eqb b (byte_of 154) && ascii_eqb c (byte_of 128) then 3 else 0
        | 226%nat, String b (String c _) =>
            if ascii_eqb b (byte_of 128) &&
               (in_range 128 138 c || in_range 168 169 c || ascii_eqb c (byte_of 175))
            then 3
            else if ascii_eqb b (byte_of 129) && ascii_eqb c (byte_of 159) then 3 else 0
        | 227%nat, String b (String c _) =>
            if ascii_eqb b (byte_of 128) && ascii_eqb c (byte_of 128) then 3 else 0
        | _, _ => 0
        end
  | EmptyString => 0
  end%nat.

(** The same for a reversed string: the width of the white space rune that
    [str_rev s] ends with ([utf8.DecodeLastRuneInString]). *)
Definition rspace_width (s : string) : nat :=
  match s with
  | String a rest =>
      if ascii_space a then 1
      else
        match rest with
        | String b rest' =>
            if ascii_eqb b (byte_of 194) &&
               (ascii_eqb a (byte_of 133) || ascii_eqb a (byte_of 160)) then 2
            else
              match rest' with
              | String c _ =>
                  if (0 <? space_width (String c (String b (String a ""))))%nat &&
                     (225 <=? nat_of_ascii c)%nat then 3 else 0
              | EmptyString => 0
              end
        | EmptyString => 0
        end
  | EmptyString => 0
  end%nat.

(** Drop white space runes from the front; the length of [s] is enough fuel,
    since every step drops at least one byte. *)
Fixpoint trim_front (width : string -> nat) (fuel : nat) (s : string) : string :=
  match fuel with
  | O => s
  | S fuel =>
      match width s with
      | O => s
      | w => trim_front width fuel (str_drop w s)
      end
  end.

(** [strings.TrimSpace]. *)
Definition TrimSpace (s : string) : string :=
  let l := trim_front space_width (String.length s) s in
  str_rev (trim_front rspace_width (String.length l) (str_rev l)).

(** [strings.Fields]: the pieces between runs of white space. A white space rune
    never starts inside another rune, so a byte at a time finds the same ones. *)
Fixpoint Fields_loop (fuel : nat) (cur s : string) : list string :=
  match fuel, s with
  | O, _ | _, EmptyString => if bool_decide (cur = "") then [] else [cur]
  | S fuel, String c rest =>
      match space_width s with
      | O => Fields_loop fuel (cur ++ String c "") rest
      | w => ((if bool_decide (cur = "") then [] else [cur]) ++ Fields_loop fuel "" (str_drop w s))%list
      end
  end.
Definition strings_Fields (s : string) : list string := Fields_loop (String.length s) "" s.

(** * Query escaping (net/url) *)

(** [shouldEscape] in the query component, negated. *)
Definition unreserved (c : ascii) : bool :=
  is_letter c || is_digit c || ascii_eqb c "-" || ascii_eqb c "_" ||
  ascii_eqb c "." || ascii_eqb c "~".

Definition hex_digit (n : nat) : ascii :=
  if (n <? 10)%nat then ascii_of_nat (48 + n) else ascii_of_nat (55 + n).

Definition unhex (c : ascii) : option nat :=
  if is_digit c then Some (nat_of_ascii c - 48)%nat
  else if in_range 65 70 c then Some (nat_of_ascii c - 55)%nat
  else if in_range 97 102 c then Some (nat_of_ascii c - 87)%nat
  else None.

(** [url.QueryEscape]. *)
Fixpoint QueryEscape (s : string) : string :=
  match s with
  | EmptyString => ""
  | String c s =>
      if unreserved c then String c (QueryEscape s)
      else if ascii_eqb c " " then String "+" (QueryEscape s)
      else
        String "%" (String (hex_digit (nat_of_ascii c / 16))
          (String (hex_digit (nat_of_ascii c mod 16)) (QueryEscape s)))
  end.

(** [url.QueryUnescape]; [None] is the error. *)
Fixpoint QueryUnescape (s : string) : option string :=
  match s with
  | EmptyString => Some ""
  | String c rest =>
      if ascii_eqb c "%" then
        match rest with
        | String h (String l rest') =>
            match unhex h, unhex l with
            | Some a, Some b =>
                String (ascii_of_nat (16 * a + b)) <$> QueryUnescape rest'
            | _, _ => None
            end
        | _ => None
        end
      else if ascii_eqb c "+" then String " " <$> QueryUnescape rest
      else String c <$> QueryUnescape rest
  end.

(** [url.Values]. *)
Abbreviation Values := (gmap string (list string)).

(** [v.Get(key)]: the first value, the empty string when there is none. *)
Definition Values_Get (v : Values) (key : string) : string :=
  match v !! key with
  | Some (x :: _) => x
  | _ => ""
  end.

(** [v.Add(key, value)]. *)
Definition Values_Add (v : Values) (key value : string) : Values :=
  <[key := (default [] (v !! key) ++ [value])%list]> v.

(** One [key=value] setting of a query string: skipped when it is empty,
    refused when it holds a semicolon or does not unescape. *)
Definition parse_setting (v : Values) (kv : string) : option Values :=
  if has_byte ";" kv then None
  else if bool_decide (kv = "") then Some v
  else
    let '(key, value) := default (kv, "") (Cut kv "=") in
    match QueryUnescape key, QueryUnescape value with
    | Some key, Some value => Some (Values_Add v key value)
    | _, _ => None
    end.

Fixpoint parse_settings (v : Values) (kvs : list string) : option Values :=
  match kvs with
  | [] => Some v
  | kv :: kvs => parse_setting v kv ≫= fun v => parse_settings v kvs
  end.

(** [url.ParseQuery(query)]; [None] when it returns an error. *)
Definition ParseQuery (query : string) : option Values :=
  parse_settings ∅ (Split query "&").

Definition str_le (a b : string) : Prop := String.leb a b = true.
#[export] Instance str_le_dec : RelDecision str_le.
Proof. unfold str_le. solve_decision. Defined.

Definition encode_key (kvs : string * list string) : list string :=
  map (fun v => QueryEscape kvs.1 ++ "=" ++ QueryEscape v) kvs.2.

#[export] Instance str_le_total : Total str_le.
Proof. intros a b. apply String.leb_total. Qed.

#[export] Instance str_le_antisymm : AntiSymm eq str_le.
Proof. intros a b. apply String.leb_antisym. Qed.

Lemma str_le_cons a s b t :
  str_le (String a s) (String b t) <->
  (N_of_ascii a < N_of_ascii b)%N \/ a = b /\ str_le s t.
Proof.
  unfold str_le, String.leb. simpl. unfold Ascii.compare.
  destruct (N.compare_spec (N_of_ascii a) (N_of_ascii b)) as [E|E|E].
  - apply (f_equal ascii_of_N) in E. rewrite !ascii_N_embedding in E. subst.
    split; [by right|]. intros [?|[_ ?]]; [lia|done].
  - split; [by left|done].
  - split; [done|]. intros [?|[-> _]]; lia.
Qed.

#[export] Instance str_le_trans : Transitive str_le.
Proof.
  intros a. induction a as [|x a IH]; intros [|y b] [|z c]; try done.
  rewrite !str_le_cons. intros [?|[-> ?]] [?|[-> ?]]; [left; lia|by left|by left|right; eauto].
Qed.

(** Sorting forgets the order of the list. *)
Lemma str_sort_perm l1 l2 : l1 ≡ₚ l2 -> merge_sort str_le l1 = merge_sort str_le l2.
Proof.
  intros Hp. apply (Sorted_unique str_le); [apply Sorted_merge_sort; apply _..|].
  by rewrite !merge_sort_Permutation.
Qed.

(** The keys of a map in increasing order. *)
Definition sorted_keys {A} (m : gmap string A) : list string :=
  merge_sort str_le (elements (dom m)).

(** The entries of a [Values] map in the order of the keys. *)
Definition sorted_entries (v : Values) : list (string * list string) :=
  map (fun k => (k, default [] (v !! k))) (sorted_keys v).

(** [v.Encode()]: the settings in the order of the keys. *)
Definition Encode (v : Values) : string :=
  Join (flat_map encode_key (sorted_entries v)) "&".

(** * Facts *)

Lemma ascii_eqb_true a b : ascii_eqb a b = true <-> a = b.
Proof. apply bool_decide_eq_true. Qed.

Lemma ascii_eqb_refl a : ascii_eqb a a = true.
Proof. by apply ascii_eqb_true. Qed.

Lemma ascii_eqb_ne a b : a <> b -> ascii_eqb a b = false.
Proof. intros. by apply bool_decide_eq_false. Qed.

Lemma str_app_cons a s t : String a s ++ t = String a (s ++ t).
Proof. done. Qed.

Lemma str_app_nil_r (s : string) : s ++ "" = s.
Proof. induction s as [|a s IH]; [done|]. by rewrite str_app_cons, IH. Qed.

Lemma str_app_assoc (s t u : string) : s ++ (t ++ u) = (s ++ t) ++ u.
Proof. induction s as [|a s IH]; [done|]. by rewrite !str_app_cons, IH. Qed.

Lemma has_byte_app c s t : has_byte c (s ++ t) = has_byte c s || has_byte c t.
Proof. induction s as [|a s IH]; [done|]. simpl. by rewrite IH, orb_assoc. Qed.

Lemma Cut_None s c : Cut s c = None <-> has_byte c s = false.
Proof.
  induction s as [|a s IH]; simpl; [done|].
  destruct (ascii_eqb a c); [done|]. simpl. rewrite <- IH.
  destruct (Cut s c) as [[??]|]; naive_solver.
Qed.

(** [Cut] inverts the concatenation it looks for. *)
Lemma Cut_app s c t : has_byte c s = false -> Cut (s ++ String c t) c = Some (s, t).
Proof.
  induction s as [|a s IH]; simpl; [by rewrite ascii_eqb_refl|].
  destruct (ascii_eqb a c); [done|]; intros. by rewrite IH.
Qed.

Lemma Cut_Some s c b r : Cut s c = Some (b, r) -> s = b ++ String c r /\ has_byte c b = false.
Proof.
  revert b. induction s as [|a s IH]; simpl; [done|]. intros b H.
  destruct (ascii_eqb a c) eqn:E.
  { apply ascii_eqb_true in E. by simplify_eq. }
  destruct (Cut s c) as [[b' r']|] eqn:Ec; simplify_eq.
  destruct (IH b') as [-> ?]; [done|]. simpl. by rewrite E.
Qed.

Lemma IndexByte_Cut s c :
  IndexByte s c = (fun br => String.length br.1) <$> Cut s c.
Proof.
  induction s as [|a s IH]; simpl; [done|].
  destruct (ascii_eqb a c); [done|]. rewrite IH. by destruct (Cut s c) as [[??]|].
Qed.

Lemma HasPrefix_app p s : HasPrefix (p ++ s) p = true.
Proof. induction p as [|a p IH]; simpl; [by destruct s|]. by rewrite ascii_eqb_refl. Qed.

Lemma str_drop_app p s : str_drop (String.length p) (p ++ s) = s.
Proof. induction p as [|a p IH]; [done|]. apply IH. Qed.

Lemma str_take_app p s : str_take (String.length p) (p ++ s) = p.
Proof. induction p as [|a p IH]; simpl; [by destruct s|]. by rewrite IH. Qed.

Lemma str_take_drop n s : str_take n s ++ str_drop n s = s.
Proof. revert s. induction n as [|n IH]; intros [|c s]; [done..|]. cbn [str_take str_drop]. by rewrite str_app_cons, IH. Qed.

Lemma length_str_take n s : String.length (str_take n s) = Nat.min n (String.length s).
Proof. revert s. induction n as [|n IH]; intros [|c s]; simpl; [done..|]. by rewrite IH. Qed.

Lemma TrimPrefix_app p s : TrimPrefix (p ++ s) p = s.
Proof. unfold TrimPrefix. by rewrite HasPrefix_app, str_drop_app. Qed.

Lemma HasPrefix_true s p : HasPrefix s p = true <-> exists t, s = p ++ t.
Proof.
  split; [|by intros [t ->]; apply HasPrefix_app].
  revert s. induction p as [|a p IH]; simpl; intros s; [by exists s|].
  destruct s as [|b s]; [done|]. intros [->%ascii_eqb_true H]%andb_true_iff.
  destruct (IH s H) as [t ->]. by exists t.
Qed.

Lemma Split_no_sep s c : has_byte c s = false -> Split s c = [s].
Proof.
  induction s as [|a s IH]; simpl; [done|].
  destruct (ascii_eqb a c); [done|]; intros. by rewrite IH.
Qed.

Lemma Split_app s c t : has_byte c s = false -> Split (s ++ String c t) c = s :: Split t c.
Proof.
  induction s as [|a s IH]; simpl; [by rewrite ascii_eqb_refl|].
  destruct (ascii_eqb a c); [done|]; intros. by rewrite IH.
Qed.

Lemma Split_nonempty s c : Split s c <> [].
Proof. destruct s; simpl; [done|]. by repeat case_match. Qed.

(** Splitting a text at one of its separators. *)
Lemma Split_app_sep s c t : Split (s ++ String c t) c = (Split s c ++ Split t c)%list.
Proof.
  induction s as [|a s IH]; simpl; [by rewrite ascii_eqb_refl|].
  rewrite IH. destruct (ascii_eqb a c); [done|].
  pose proof (Split_nonempty s c). by destruct (Split s c).
Qed.

(** [strings.Split] inverts [strings.Join] on pieces free of the separator. *)
Lemma Split_Join ps c :
  ps <> [] -> Forall (fun p => has_byte c p = false) ps ->
  Split (Join ps (String c "")) c = ps.
Proof.
  intros Hne H. induction H as [|p ps Hp Hps IH]; [done|].
  destruct ps as [|q ps]; [by apply Split_no_sep|].
  change (Join (p :: q :: ps) (String c "")) with
    (p ++ String c (Join (q :: ps) (String c ""))).
  by rewrite Split_app, IH.
Qed.

Lemma Split_free s c : Forall (fun p => has_byte c p = false) (Split s c).
Proof.
  induction s as [|a s IH]; simpl; [by repeat constructor|].
  destruct (ascii_eqb a c) eqn:E; [by constructor|].
  destruct IH as [|p ps Hp Hps]; constructor; simpl; try done; by rewrite E.
Qed.

(** [strings.Join] inverts [strings.Split]. *)
Lemma Join_Split s c : Join (Split s c) (String c "") = s.
Proof.
  induction s as [|a s IH]; [done|]. cbn [Split].
  pose proof (Split_nonempty s c). destruct (Split s c) as [|p ps]; [done|].
  destruct (ascii_eqb a c) eqn:E.
  - apply ascii_eqb_true in E as ->. change (Join ("" :: p :: ps) (String c "")) with
      (String c (Join (p :: ps) (String c ""))). by rewrite IH.
  - transitivity (String a (Join (p :: ps) (String c ""))); [by destruct ps|by rewrite IH].
Qed.

(** A decidable property of bytes holds of every byte when it holds of the
    256 of them: the byte-level facts below are decided by evaluation. *)
Definition all_bytes (P : ascii -> bool) : bool :=
  forallb (fun n => P (ascii_of_nat n)) (seq 0 256).

Lemma all_bytes_spec P : all_bytes P = true -> forall c, P c = true.
Proof.
  unfold all_bytes. rewrite forallb_forall. intros H c.
  rewrite <- (ascii_nat_embedding c). apply H, in_seq.
  pose proof (nat_ascii_bounded c). lia.
Qed.

Lemma unreserved_plain c :
  unreserved c = true -> ascii_eqb c "%" = false /\ ascii_eqb c "+" = false.
Proof.
  intros Hu.
  assert (H : implb (unreserved c) (negb (ascii_eqb c "%") && negb (ascii_eqb c "+")) = true).
  { revert c Hu; intros c _. revert c. by apply all_bytes_spec. }
  rewrite Hu in H. simpl in H. by bool_norm.
Qed.

Lemma unhex_hex_digit c :
  unhex (hex_digit (nat_of_ascii c / 16)) = Some (nat_of_ascii c / 16)%nat /\
  unhex (hex_digit (nat_of_ascii c mod 16)) = Some (nat_of_ascii c mod 16)%nat.
Proof.
  cut (bool_decide (unhex (hex_digit (nat_of_ascii c / 16)) = Some (nat_of_ascii c / 16)%nat) &&
       bool_decide (unhex (hex_digit (nat_of_ascii c mod 16)) = Some (nat_of_ascii c mod 16)%nat) = true).
  { intros. by bool_norm. }
  revert c. by apply all_bytes_spec.
Qed.

(** Escaping one byte and unescaping what follows. *)
Lemma QueryUnescape_escape_byte c s r :
  QueryUnescape s = Some r ->
  QueryUnescape (QueryEscape (String c "") ++ s) = Some (String c r).
Proof.
  intros Hs. cbn [QueryEscape]. destruct (unreserved c) eqn:Hu.
  { destruct (unreserved_plain c Hu) as [H1 H2]. change (String c "" ++ s) with (String c s).
    cbn [QueryUnescape]. by rewrite H1, H2, Hs. }
  destruct (ascii_eqb c " ") eqn:Hb.
  { apply ascii_eqb_true in Hb as ->. change (String "+" "" ++ s) with (String "+" s).
    cbn [QueryUnescape]. by rewrite Hs. }
  destruct (unhex_hex_digit c) as [H1 H2]. rewrite !str_app_cons.
  cbn [QueryUnescape]. rewrite ascii_eqb_refl, H1, H2. change ("" ++ s) with s.
  by rewrite Hs, <- Nat.div_mod_eq, ascii_nat_embedding.
Qed.

Lemma QueryEscape_cons c s : QueryEscape (String c s) = QueryEscape (String c "") ++ QueryEscape s.
Proof. simpl. by repeat case_match. Qed.

Lemma QueryUnescape_QueryEscape s : QueryUnescape (QueryEscape s) = Some s.
Proof.
  induction s as [|c s IH]; [done|].
  rewrite QueryEscape_cons. by apply QueryUnescape_escape_byte.
Qed.

(** The bytes an escaped string never holds: the delimiters of the query
    grammar. *)
Definition delimiters : list ascii := ["&"; ";"; "="; "#"; "?"; " "]%char.

Ltac delim := unfold delimiters; rewrite !elem_of_cons; tauto.

Lemma QueryEscape_free d s : d ∈ delimiters -> has_byte d (QueryEscape s) = false.
Proof.
  intros Hd. induction s as [|a s IH]; [done|].
  rewrite QueryEscape_cons, has_byte_app, IH, orb_false_r.
  assert (H : forallb (fun d => negb (has_byte d (QueryEscape (String a "")))) delimiters = true).
  { clear. revert a. by apply all_bytes_spec. }
  rewrite forallb_forall in H. apply negb_true_iff, H, list_elem_of_In, Hd.
Qed.

Lemma parse_settings_app v l1 l2 :
  parse_settings v (l1 ++ l2)%list = parse_settings v l1 ≫= fun v => parse_settings v l2.
Proof.
  revert v. induction l1 as [|x l1 IH]; intros v; simpl; [done|].
  destruct (parse_setting v x); simpl; [apply IH|done].
Qed.

Lemma parse_setting_encode v k x :
  parse_setting v (QueryEscape k ++ "=" ++ QueryEscape x) = Some (Values_Add v k x).
Proof.
  unfold parse_setting.
  assert (Hd : forall d, d ∈ delimiters -> d <> "="%char ->
    has_byte d (QueryEscape k ++ "=" ++ QueryEscape x) = false).
  { intros d Hd Hne. rewrite !has_byte_app, !QueryEscape_free by done. simpl.
    by rewrite ascii_eqb_ne by done. }
  rewrite Hd by (done || delim).
  rewrite bool_decide_eq_false_2 by (by destruct (QueryEscape k)).
  change ("=" ++ QueryEscape x) with (String "=" (QueryEscape x)).
  rewrite Cut_app by (apply QueryEscape_free; delim). simpl.
  by rewrite !QueryUnescape_QueryEscape.
Qed.

Lemma parse_settings_key v k xs :
  xs <> [] -> v !! k = None ->
  parse_settings v (encode_key (k, xs)) = Some (<[k := xs]> v).
Proof.
  intros Hne Hk. unfold encode_key. simpl.
  cut (forall v, parse_settings v
    (map (fun x => QueryEscape k ++ "=" ++ QueryEscape x) xs) =
    Some (match xs with [] => v | _ => <[k := (default [] (v !! k) ++ xs)%list]> v end)).
  { intros ->. rewrite Hk. by destruct xs. }
  clear Hne Hk v. induction xs as [|x xs IH]; intros v; [done|].
  cbn [map parse_settings]. rewrite parse_setting_encode. simpl. rewrite IH. f_equal.
  unfold Values_Add. destruct xs; [done|].
  rewrite lookup_insert_eq, insert_insert_eq. simpl. by rewrite <- app_assoc.
Qed.

Lemma parse_settings_entries l v :
  NoDup l.*1 -> Forall (fun kv => kv.2 <> [] /\ v !! kv.1 = None) l ->
  parse_settings v (flat_map encode_key l) = Some (list_to_map l ∪ v).
Proof.
  revert v. induction l as [|[k xs] l IH]; intros v Hnd Hall.
  { simpl. by rewrite (left_id_L ∅ (∪)). }
  apply NoDup_cons in Hnd as [Hk Hnd]. apply Forall_cons in Hall as [[Hne Hv] Hall].
  simpl in *. rewrite parse_settings_app, parse_settings_key by done. simpl.
  rewrite IH; [| done |].
  - f_equal. rewrite <- insert_union_r, insert_union_l; [done|].
    by apply not_elem_of_list_to_map_1.
  - rewrite Forall_forall in Hall |- *. intros kv Hkv.
    destruct (Hall kv Hkv) as [??]. split; [done|].
    rewrite lookup_insert_ne; [done|]. intros ->. apply Hk.
    by apply list_elem_of_fmap_2.
Qed.

Lemma encode_entries_free v :
  Forall (fun p => has_byte "&" p = false)
    (flat_map encode_key (sorted_entries v)).
Proof.
  apply Forall_forall. intros p [kv [_ Hp]]%list_elem_of_In%in_flat_map.
  apply in_map_iff in Hp as [x [<- _]].
  rewrite !has_byte_app, !QueryEscape_free by delim. done.
Qed.

Lemma sorted_keys_NoDup {A} (m : gmap string A) : NoDup (sorted_keys m).
Proof. unfold sorted_keys. rewrite merge_sort_Permutation. apply NoDup_elements. Qed.

Lemma elem_of_sorted_keys {A} (m : gmap string A) k : k ∈ sorted_keys m <-> k ∈ dom m.
Proof. unfold sorted_keys. by rewrite merge_sort_Permutation, elem_of_elements. Qed.

Lemma sorted_entries_keys v : (sorted_entries v).*1 = sorted_keys v.
Proof. unfold sorted_entries. induction (sorted_keys v); simpl; [done|]. by f_equal. Qed.

Lemma elem_of_sorted_entries v kv : kv ∈ sorted_entries v <-> v !! kv.1 = Some kv.2.
Proof.
  unfold sorted_entries. rewrite list_elem_of_fmap. split.
  - intros (k & -> & [xs Hxs]%elem_of_sorted_keys%elem_of_dom). simpl. by rewrite Hxs.
  - intros H. exists kv.1. split; [rewrite H; by destruct kv|].
    apply elem_of_sorted_keys, elem_of_dom. eauto.
Qed.

Lemma list_to_map_sorted_entries v : list_to_map (sorted_entries v) = v.
Proof.
  apply map_eq. intros k. apply option_eq. intros xs.
  rewrite <- elem_of_list_to_map; [apply (elem_of_sorted_entries v (k, xs))|].
  rewrite sorted_entries_keys. apply sorted_keys_NoDup.
Qed.

(** [url.ParseQuery] inverts [url.Values.Encode] on a map whose keys all have
    a value. *)
Lemma ParseQuery_Encode v :
  map_Forall (fun _ xs => xs <> []) v -> ParseQuery (Encode v) = Some v.
Proof.
  intros Hv. unfold ParseQuery, Encode.
  set (l := sorted_entries v).
  assert (Hres : parse_settings ∅ (flat_map encode_key l) = Some v).
  { rewrite parse_settings_entries.
    - unfold l. by rewrite (right_id_L ∅ (∪)), list_to_map_sorted_entries.
    - unfold l. rewrite sorted_entries_keys. apply sorted_keys_NoDup.
    - apply Forall_forall. intros kv Hkv. split; [|apply lookup_empty].
      apply elem_of_sorted_entries in Hkv. by apply (Hv kv.1). }
  destruct (flat_map encode_key l) as [|p ps] eqn:E; [done|].
  rewrite Split_Join; [by rewrite <- E in Hres |- *| done |].
  rewrite <- E. apply encode_entries_free.
Qed.
