(* ===== verification/Ref.v ===== *)
(** Source references (src/ref.go), variable expansion of source tags
    (src/refvars.go) and the redacted rendering of a ref (src/status.go). *)

From S2P Require Import Prelude Errors GoStrings.
Open Scope string_scope.

(** * Data *)

(** [type Ref struct]. A nil and an empty [Opts] are read alike by every
    method, so both are the empty map. *)
Record Ref := MkRef {
  ref_Scheme : string;
  ref_Path : string;
  ref_Key : string;
  ref_Opts : Values;
  ref_Raw : string;
}.

#[export] Instance Ref_eq_dec : EqDecision Ref.
Proof. solve_decision. Defined.

(** * Rendering *)

(** The canonical form, written when the ref carries no [Raw] tag. *)
Definition ref_render (r : Ref) (query : string) : string :=
  ref_Scheme r ++ "://" ++ ref_Path r ++
  (if bool_decide (ref_Key r = "") then "" else String "#" (ref_Key r)) ++
  (if bool_decide (query = "") then "" else String "?" query).

(** [func (r Ref) String() string]. *)
Definition Ref_String (r : Ref) : string :=
  if bool_decide (ref_Raw r = "") then
    ref_Scheme r ++ "://" ++ ref_Path r ++
    (if bool_decide (ref_Key r = "") then "" else String "#" (ref_Key r)) ++
    (if bool_decide (ref_Opts r = ∅) then "" else String "?" (Encode (ref_Opts r)))
  else ref_Raw r.

(** [func (r Ref) Opt(name string) string]. *)
Definition Ref_Opt (r : Ref) (name : string) : string := Values_Get (ref_Opts r) name.

(** * Parsing *)

(** [func ParseRef(tag string) (Ref, error)]. *)
Definition ParseRef (tag : string) : res Ref :=
  let tag := TrimSpace tag in
  if bool_decide (tag = "") then Err (EOpaque "mamori: empty source ref")
  else
    match Cut tag ":" with
    | None => Err (EOpaque "mamori: source ref missing scheme")
    | Some (scheme, remainder) =>
        if bool_decide (scheme = "") then
          Err (EOpaque "mamori: source ref missing scheme")
        else
          let rest := TrimPrefix remainder "//" in
          match
            match Cut rest "?" with
            | None => Ok (rest, ∅)
            | Some (rest, query) =>
                match ParseQuery query with
                | None => Err (EWrap "mamori: source ref bad query" [EOpaque "url"])
                | Some q => Ok (rest, q)
                end
            end
          with
          | Err e => Err e
          | Ok (rest, opts) =>
              let '(path, key) := default (rest, "") (Cut rest "#") in
              Ok (MkRef scheme path key opts tag)
          end
    end.

(** [\s] of the pattern below. *)
Definition re_space (c : ascii) : bool :=
  in_range 9 10 c || in_range 12 13 c || ascii_eqb c " ".

(** [[a-zA-Z0-9+.\-]]. *)
Definition scheme_char (c : ascii) : bool :=
  is_letter c || is_digit c || ascii_eqb c "+" || ascii_eqb c "." || ascii_eqb c "-".

(** [schemeStart.MatchString(s)], the pattern [^\s*[a-zA-Z][a-zA-Z0-9+.\-]*:].
    No byte belongs to two adjacent parts of the pattern, so the match needs no
    backtracking. *)
Fixpoint scheme_tail (s : string) : bool :=
  match s with
  | EmptyString => false
  | String c s => ascii_eqb c ":" || (scheme_char c && scheme_tail s)
  end.

Fixpoint schemeStart (s : string) : bool :=
  match s with
  | EmptyString => false
  | String c s => if re_space c then schemeStart s else is_letter c && scheme_tail s
  end.

(** [func splitChain(tag string) []string]: the pieces between the commas that
    a scheme follows, byte by byte from the left. *)
Fixpoint splitChain (tag : string) : list string :=
  match tag with
  | EmptyString => [""]
  | String c rest =>
      if ascii_eqb c "," && schemeStart rest then "" :: splitChain rest
      else match splitChain rest with
           | [] => [String c ""]
           | p :: ps => String c p :: ps
           end
  end.

(** The loop of [ParseRefs]: the first piece that does not parse is the
    error. *)
Fixpoint parse_parts (parts : list string) : res (list Ref) :=
  match parts with
  | [] => Ok []
  | p :: ps =>
      match ParseRef p with
      | Err e => Err e
      | Ok r => match parse_parts ps with Err e => Err e | Ok rs => Ok (r :: rs) end
      end
  end.

(** [func ParseRefs(tag string) ([]Ref, error)]. *)
Definition ParseRefs (tag : string) : res (list Ref) :=
  let tag := TrimSpace tag in
  if bool_decide (tag = "") then Err (EOpaque "mamori: empty source ref")
  else parse_parts (splitChain tag).

(** * Variables of source tags *)

(** The body of [WithRefVars(vars)]: merged into the variables set so far. *)
Definition WithRefVars (vars refVars : gmap string string) : gmap string string :=
  vars ∪ refVars.

(** [EnvVars(names...)] over the environment [os.LookupEnv] reads. *)
Fixpoint EnvVars (lookupEnv : string -> option string) (names : list string)
    : gmap string string :=
  match names with
  | [] => ∅
  | n :: names =>
      match lookupEnv n with
      | Some v => <[n := v]> (EnvVars lookupEnv names)
      | None => EnvVars lookupEnv names
      end
  end.

Definition errUnterminated : error :=
  EWrap "mamori: source: unterminated ${" [ESentinel ErrInvalid].
Definition errEmptyVar : error :=
  EWrap "mamori: source: empty variable name in ${}" [ESentinel ErrInvalid].
Definition errUndefinedVar : error :=
  EWrap "mamori: source: undefined ref variable" [ESentinel ErrInvalid].

(** The loop of [expandRefVars] at the suffix [s] of the tag; every iteration
    drops a byte, so the length of the tag is enough fuel. *)
Fixpoint expand_loop (vars : gmap string string) (fuel : nat) (s : string) : res string :=
  match fuel with
  | O => Ok ""
  | S fuel =>
      match s with
      | EmptyString => Ok ""
      | String c rest =>
          if negb (ascii_eqb c "$") then String c <$> expand_loop vars fuel rest
          else
            match rest with
            | String d rest' =>
                if ascii_eqb d "$" then String "$" <$> expand_loop vars fuel rest'
                else if ascii_eqb d "{" then
                  match Cut rest' "}" with
                  | None => Err errUnterminated
                  | Some (name, rest'') =>
                      if bool_decide (name = "") then Err errEmptyVar
                      else
                        match vars !! name with
                        | None => Err errUndefinedVar
                        | Some v => (fun out => v ++ out) <$> expand_loop vars fuel rest''
                        end
                  end
                else String "$" <$> expand_loop vars fuel rest
            | EmptyString => String "$" <$> expand_loop vars fuel rest
            end
      end
  end.

(** [func expandRefVars(tag string, vars map[string]string) (string, error)]. *)
Definition expandRefVars (tag : string) (vars : gmap string string) : res string :=
  if negb (has_byte "$" tag) then Ok tag
  else expand_loop vars (String.length tag) tag.

(** * Redaction *)

(** [sensitiveOptKeys]. *)
Definition sensitiveOptKeys : list string :=
  [ "token"; "password"; "secret"; "key"; "apikey"; "api_key"; "sas"; "credential";
    "client_secret"; "secret_access_key"; "access_key"; "private_key"; "secret_key";
    "pwd"; "passwd" ].

(** [strings.ToLower] as far as a comparison with the lower-case ASCII names
    above can see it: ASCII letters, and the two runes outside ASCII whose lower
    case is an ASCII letter (the Kelvin sign and the dotted capital I). A string
    with any other byte outside ASCII equals none of the names either way. *)
Definition ascii_lower (c : ascii) : ascii :=
  if is_upper c then ascii_of_nat (nat_of_ascii c + 32) else c.

Fixpoint ToLower (s : string) : string :=
  match s with
  | EmptyString => ""
  | String c s1 =>
      match s1 with
      | EmptyString => String (ascii_lower c) ""
      | String d s2 =>
          if ascii_eqb c (byte_of 196) && ascii_eqb d (byte_of 176) then
            String "i" (ToLower s2)
          else
            match s2 with
            | String e s3 =>
                if ascii_eqb c (byte_of 226) && ascii_eqb d (byte_of 132) &&
                   ascii_eqb e (byte_of 170)
                then String "k" (ToLower s3)
                else String (ascii_lower c) (ToLower s1)
            | EmptyString => String (ascii_lower c) (ToLower s1)
            end
      end
  end.

Definition is_sensitive (k : string) : bool := bool_decide (ToLower k ∈ sensitiveOptKeys).

(** [secret.Redacted] (src/secret/secret.go). *)
Definition secret_Redacted : string := "[REDACTED]".

Definition redact_key (kvs : string * list string) : list string :=
  map (fun v => QueryEscape kvs.1 ++ "=" ++
         (if is_sensitive kvs.1 then secret_Redacted else QueryEscape v)) kvs.2.

(** [func (r Ref) Redacted() string]. *)
Definition Redacted (r : Ref) : string :=
  if bool_decide (ref_Opts r = ∅) then
    if bool_decide (ref_Raw r = "") then Ref_String r else ref_Raw r
  else
    ref_render r (Join (flat_map redact_key (sorted_entries (ref_Opts r))) "&").

(** * Facts *)

(** A string [strings.TrimSpace] leaves alone. *)
Definition untrimmed (s : string) : Prop :=
  space_width s = 0%nat /\ rspace_width (str_rev s) = 0%nat.

Lemma str_rev_onto_app s acc : str_rev_onto s acc = str_rev s ++ acc.
Proof.
  unfold str_rev. revert acc. induction s as [|a s IH]; intros acc; [done|].
  simpl. rewrite IH, (IH (String a "")). by rewrite <- str_app_assoc.
Qed.

Lemma str_rev_cons a s : str_rev (String a s) = str_rev s ++ String a "".
Proof. exact (str_rev_onto_app s (String a "")). Qed.

Lemma str_rev_app s t : str_rev (s ++ t) = str_rev t ++ str_rev s.
Proof.
  induction s as [|a s IH]; [by rewrite str_app_nil_r|].
  by rewrite str_app_cons, !str_rev_cons, IH, <- str_app_assoc.
Qed.

Lemma str_rev_involutive s : str_rev (str_rev s) = s.
Proof. induction s as [|a s IH]; [done|]. by rewrite str_rev_cons, str_rev_app, IH. Qed.

Lemma trim_front_0 width n s : width s = 0%nat -> trim_front width n s = s.
Proof. intros H. destruct n; [done|]. simpl. by rewrite H. Qed.

Lemma TrimSpace_untrimmed s : untrimmed s -> TrimSpace s = s.
Proof.
  intros [H1 H2]. unfold TrimSpace.
  rewrite (trim_front_0 space_width), (trim_front_0 rspace_width) by done.
  apply str_rev_involutive.
Qed.

Lemma string_append_nonempty s c t : s ++ String c t <> "".
Proof. by destruct s. Qed.

Lemma Ref_String_render r :
  ref_Raw r = "" -> map_Forall (fun _ xs => xs <> []) (ref_Opts r) ->
  Ref_String r = ref_render r (Encode (ref_Opts r)).
Proof.
  intros Hraw Hv. unfold Ref_String, ref_render. rewrite Hraw. simpl.
  do 4 f_equal.
  replace (bool_decide (ref_Opts r = ∅)) with (bool_decide (Encode (ref_Opts r) = ""));
    [done|].
  apply bool_decide_ext. symmetry. split; [by intros ->|]. intros HE. apply ParseQuery_Encode in Hv. rewrite HE in Hv.
  by injection Hv.
Qed.

(** A ref as the code builds one without a tag: the delimiters of the grammar
    do not occur in the parts they end. *)
Record wf_ref (r : Ref) : Prop := {
  wf_raw : ref_Raw r = "";
  wf_scheme : ref_Scheme r <> "";
  wf_scheme_colon : has_byte ":" (ref_Scheme r) = false;
  wf_path_query : has_byte "?" (ref_Path r) = false;
  wf_path_key : has_byte "#" (ref_Path r) = false;
  wf_key_query : has_byte "?" (ref_Key r) = false;
  wf_opts : map_Forall (fun _ xs => xs <> []) (ref_Opts r);
  wf_trim : untrimmed (Ref_String r);
}.

(** The tag of a ref, as [ParseRef] records it. *)
Definition with_raw (r : Ref) (raw : string) : Ref :=
  MkRef (ref_Scheme r) (ref_Path r) (ref_Key r) (ref_Opts r) raw.

Lemma ParseRef_Ref_String r :
  wf_ref r -> ParseRef (Ref_String r) = Ok (with_raw r (Ref_String r)).
Proof.
  intros [Hraw Hs Hsc Hpq Hpk Hkq Hv Ht].
  unfold ParseRef. rewrite TrimSpace_untrimmed by done.
  assert (HS : Ref_String r = ref_Scheme r ++ String ":" ("//" ++ ref_Path r ++
    (if bool_decide (ref_Key r = "") then "" else String "#" (ref_Key r)) ++
    (if bool_decide (Encode (ref_Opts r) = "") then "" else String "?" (Encode (ref_Opts r))))).
  { by rewrite Ref_String_render. }
  rewrite bool_decide_eq_false_2 by (rewrite HS; apply string_append_nonempty).
  rewrite HS at 1. rewrite Cut_app by done. rewrite bool_decide_eq_false_2 by done.
  rewrite TrimPrefix_app.
  clear HS. set (kp := if bool_decide (ref_Key r = "") then "" else String "#" (ref_Key r)).
  assert (Hcut : default (ref_Path r ++ kp, "") (Cut (ref_Path r ++ kp) "#") =
    (ref_Path r, ref_Key r)).
  { unfold kp. case_bool_decide as Hk.
    - rewrite Hk, str_app_nil_r. by rewrite (proj2 (Cut_None _ _)).
    - by rewrite Cut_app. }
  assert (Hq : has_byte "?" (ref_Path r ++ kp) = false).
  { rewrite has_byte_app, Hpq. unfold kp. by case_bool_decide. }
  clearbody kp. rewrite str_app_assoc. apply ParseQuery_Encode in Hv.
  destruct (bool_decide_reflect (Encode (ref_Opts r) = "")) as [He|He].
  - rewrite str_app_nil_r, (proj2 (Cut_None _ _)) by done.
    rewrite Hcut. rewrite He in Hv. change (Some (∅ : Values) = Some (ref_Opts r)) in Hv.
    injection Hv as Hv. unfold with_raw. by rewrite <- Hv.
  - rewrite Cut_app, Hv by done. by rewrite Hcut.
Qed.

(** ** Chains *)

Lemma scheme_tail_comma s t : scheme_tail (s ++ String "," t) = scheme_tail s.
Proof. induction s as [|c s IH]; [done|]. simpl. by rewrite IH. Qed.

(** What follows a comma never makes the text before it look like a scheme. *)
Lemma schemeStart_comma s t : schemeStart (s ++ String "," t) = schemeStart s.
Proof.
  induction s as [|c s IH]; [done|]. simpl. by rewrite IH, scheme_tail_comma.
Qed.

Lemma splitChain_nonempty s : splitChain s <> [].
Proof. destruct s; simpl; [done|]. by repeat case_match. Qed.

Lemma splitChain_app p q :
  schemeStart q = true -> splitChain (p ++ String "," q) = (splitChain p ++ splitChain q)%list.
Proof.
  intros Hq. induction p as [|c p IH]; [simpl; by rewrite Hq|].
  rewrite str_app_cons. simpl. rewrite schemeStart_comma, IH.
  destruct (ascii_eqb c "," && schemeStart p); [done|].
  pose proof (splitChain_nonempty p). by destruct (splitChain p).
Qed.

Lemma Join_cons p ps sep : ps <> [] -> Join (p :: ps) sep = p ++ sep ++ Join ps sep.
Proof. by destruct ps. Qed.

Lemma Join_String c p ps sep : Join (String c p :: ps) sep = String c (Join (p :: ps) sep).
Proof. by destruct ps. Qed.

(** Splitting loses no text. *)
Lemma Join_splitChain s : Join (splitChain s) "," = s.
Proof.
  induction s as [|c s IH]; [done|]. cbn [splitChain].
  pose proof (splitChain_nonempty s) as Hne.
  destruct (ascii_eqb c "," && schemeStart s) eqn:E.
  - apply andb_true_iff in E as [->%ascii_eqb_true _].
    by rewrite Join_cons, IH.
  - destruct (splitChain s) as [|p ps]; [done|]. by rewrite Join_String, IH.
Qed.

Lemma space_width_app s t : (3 <= String.length s)%nat -> space_width (s ++ t) = space_width s.
Proof. destruct s as [|a [|b [|c s]]]; simpl; intros; lia || done. Qed.

Lemma rspace_width_app s t : (3 <= String.length s)%nat -> rspace_width (s ++ t) = rspace_width s.
Proof. destruct s as [|a [|b [|c s]]]; simpl; intros; lia || done. Qed.

Lemma str_length_app s t : String.length (s ++ t) = (String.length s + String.length t)%nat.
Proof. induction s as [|a s IH]; simpl; [done|]. by rewrite IH. Qed.

Lemma str_length_rev s : String.length (str_rev s) = String.length s.
Proof.
  induction s as [|a s IH]; [done|]. rewrite str_rev_cons, str_length_app, IH. simpl. lia.
Qed.

Lemma untrimmed_app s m t :
  (3 <= String.length s)%nat -> (3 <= String.length t)%nat ->
  untrimmed s -> untrimmed t -> untrimmed (s ++ m ++ t).
Proof.
  intros Hs Ht [H1 _] [_ H2]. split; [by rewrite space_width_app|].
  by rewrite str_app_assoc, str_rev_app, rspace_width_app by (by rewrite str_length_rev).
Qed.

Lemma Ref_String_length r : wf_ref r -> (3 <= String.length (Ref_String r))%nat.
Proof.
  intros Hwf. unfold Ref_String. rewrite (wf_raw r Hwf). simpl.
  rewrite str_length_app. simpl. lia.
Qed.

(** Text that begins another ref of a chain, by the grammar of the documentation: blanks, a
    letter, letters, digits, "+", "." or "-", and a colon. *)
Definition one_of (bytes : string) (c : ascii) : Prop := c ∈ String.list_ascii_of_string bytes.

Definition letters : string := "abcdefghijklmnopqrstuvwxyzABCDEFGHIJKLMNOPQRSTUVWXYZ".
Definition scheme_bytes : string := letters ++ "0123456789+.-".

Definition blank (c : ascii) : Prop := nat_of_ascii c ∈ [9; 10; 12; 13; 32]%nat.

Inductive begins_ref : string -> Prop :=
  | begins_blank c s : blank c -> begins_ref s -> begins_ref (String c s)
  | begins_scheme c body rest :
      one_of letters c -> Forall (one_of scheme_bytes) (String.list_ascii_of_string body) ->
      begins_ref (String c (body ++ String ":" rest)).

#[export] Instance one_of_dec bytes c : Decision (one_of bytes c).
Proof. unfold one_of. apply _. Defined.
#[export] Instance blank_dec c : Decision (blank c).
Proof. unfold blank. apply _. Defined.

Lemma re_space_blank c : re_space c = bool_decide (blank c).
Proof. apply eqb_prop. revert c. apply all_bytes_spec. by vm_compute. Qed.

Lemma is_letter_letters c : is_letter c = bool_decide (one_of letters c).
Proof. apply eqb_prop. revert c. apply all_bytes_spec. by vm_compute. Qed.

Lemma scheme_char_bytes c : scheme_char c = bool_decide (one_of scheme_bytes c).
Proof. apply eqb_prop. revert c. apply all_bytes_spec. by vm_compute. Qed.

Lemma letter_not_space c : negb (is_letter c && re_space c) = true.
Proof. revert c. apply all_bytes_spec. by vm_compute. Qed.

Lemma scheme_tail_spec s :
  scheme_tail s = true <->
  exists body rest, s = body ++ String ":" rest /\ Forall (one_of scheme_bytes) (String.list_ascii_of_string body).
Proof.
  induction s as [|c s IH]; simpl.
  { split; [done|]. by intros ([] & ? & ? & _). }
  rewrite orb_true_iff, andb_true_iff, IH, scheme_char_bytes, bool_decide_eq_true. split.
  - intros [->%ascii_eqb_true|[Hc (body & rest & -> & Hb)]]; [by exists "", s|].
    exists (String c body), rest. split; [done|by constructor].
  - intros ([|c' body] & rest & [= -> ->] & Hb); [by left; rewrite ascii_eqb_refl|].
    right. inversion_clear Hb. eauto.
Qed.

(** The pattern accepts exactly that text. *)
Lemma schemeStart_spec s : schemeStart s = true <-> begins_ref s.
Proof.
  split.
  - induction s as [|c s IH]; simpl; [done|]. destruct (re_space c) eqn:Es.
    + rewrite re_space_blank, bool_decide_eq_true in Es. intros. apply begins_blank; auto.
    + intros [Hl (body & rest & -> & Hb)%scheme_tail_spec]%andb_true_iff. constructor; [|done].
      by rewrite is_letter_letters, bool_decide_eq_true in Hl.
  - induction 1 as [c s Hc _ IH|c body rest Hc Hb]; simpl.
    + by rewrite re_space_blank, bool_decide_eq_true_2.
    + assert (Hl : is_letter c = true) by (by rewrite is_letter_letters, bool_decide_eq_true_2).
      assert (Hs : re_space c = false).
      { pose proof (letter_not_space c) as Hn. rewrite Hl in Hn. by apply negb_true_iff. }
      rewrite Hs, Hl. apply scheme_tail_spec. eauto.
Qed.

(** A ref that can be an element of a chain: its scheme is one of the grammar, and no comma
    of its text comes before something that begins a ref. *)
Record wf_chain_ref (r : Ref) : Prop := {
  chain_ref : wf_ref r;
  chain_scheme : exists c body, ref_Scheme r = String c body /\ one_of letters c /\
                   Forall (one_of scheme_bytes) (String.list_ascii_of_string body);
  chain_commas : forall a b, Ref_String r = a ++ String "," b -> ~ begins_ref b;
}.

Lemma splitChain_single s :
  (forall a b, s = a ++ String "," b -> ~ begins_ref b) -> splitChain s = [s].
Proof.
  induction s as [|c s IH]; intros Hs; [done|]. cbn [splitChain].
  rewrite IH by (intros a b ->; apply (Hs (String c a)); done).
  destruct (ascii_eqb c "," && schemeStart s) eqn:E; [|done].
  apply andb_true_iff in E as [->%ascii_eqb_true Hb%schemeStart_spec]. by destruct (Hs "" s).
Qed.

Lemma chain_scheme_start r : wf_chain_ref r -> schemeStart (Ref_String r) = true.
Proof.
  intros [Hr (c & body & Hs & Hc & Hb) _]. apply schemeStart_spec. unfold Ref_String.
  rewrite (wf_raw r Hr), bool_decide_eq_true_2, Hs by done. by apply begins_scheme.
Qed.

Lemma chain_join rs r :
  Forall wf_chain_ref (r :: rs) ->
  let s := Join (map Ref_String (r :: rs)) "," in
  untrimmed s /\ (3 <= String.length s)%nat /\ schemeStart s = true /\
  splitChain s = map Ref_String (r :: rs).
Proof.
  revert r. induction rs as [|q rs IH]; intros r H; inversion_clear H as [|?? Hw Hrs];
    pose proof (chain_scheme_start r Hw) as Hst; pose proof (splitChain_single _ (chain_commas r Hw)) as Hsp;
    pose proof (chain_ref r Hw) as Hr; clear Hw.
  { simpl. pose proof (Ref_String_length r Hr). by destruct Hr. }
  destruct (IH q Hrs) as (Hu & Hl & Hs & Hp).
  change (Join (map Ref_String (r :: q :: rs)) ",") with
    (Ref_String r ++ "," ++ Join (map Ref_String (q :: rs)) ",").
  set (t := Join (map Ref_String (q :: rs)) ",") in *.
  pose proof (Ref_String_length r Hr). cbv zeta. split_and!.
  - apply untrimmed_app; try done. by destruct Hr.
  - rewrite str_length_app. lia.
  - change ("," ++ t) with (String "," t). by rewrite schemeStart_comma.
  - change ("," ++ t) with (String "," t). rewrite splitChain_app, Hsp, Hp by done. done.
Qed.

Lemma parse_parts_map rs :
  Forall wf_ref rs ->
  parse_parts (map Ref_String rs) = Ok (map (fun r => with_raw r (Ref_String r)) rs).
Proof.
  induction 1 as [|r rs Hr _ IH]; [done|]. cbn [map parse_parts].
  by rewrite ParseRef_Ref_String, IH.
Qed.

(** ** Variable expansion *)

(** What a source tag means under [vars]: a "$$" is a dollar, a "${name}" the
    value of the variable, inserted and not read again, a dollar that starts
    neither is itself. *)
Inductive Expands (vars : gmap string string) : string -> string -> Prop :=
  | Expands_nil : Expands vars "" ""
  | Expands_byte c s out :
      c <> "$"%char -> Expands vars s out -> Expands vars (String c s) (String c out)
  | Expands_escape s out :
      Expands vars s out -> Expands vars (String "$" (String "$" s)) (String "$" out)
  | Expands_bare s out :
      HasPrefix s "$" = false -> HasPrefix s "{" = false ->
      Expands vars s out -> Expands vars (String "$" s) (String "$" out)
  | Expands_var name v s out :
      name <> "" -> has_byte "}" name = false -> vars !! name = Some v ->
      Expands vars s out ->
      Expands vars (String "$" (String "{" (name ++ String "}" s))) (v ++ out).

Lemma res_fmap_Ok {A B} (f : A -> B) r b : f <$> r = Ok b -> exists a, r = Ok a /\ b = f a.
Proof. destruct r; simpl; intros; simplify_eq/=. eauto. Qed.

Lemma expand_loop_sound vars n s out :
  (String.length s <= n)%nat -> expand_loop vars n s = Ok out -> Expands vars s out.
Proof.
  revert s out. induction n as [|n IH]; intros s out Hn.
  { destruct s; simpl in *; [|lia]. intros [= <-]. constructor. }
  destruct s as [|c s]; simpl in *; [intros [= <-]; constructor|].
  destruct (ascii_eqb c "$") eqn:Ec; simpl.
  2:{ intros (o & Ho & ->)%res_fmap_Ok. constructor; [|apply IH; [lia|done]].
      intros ->. by rewrite ascii_eqb_refl in Ec. }
  apply ascii_eqb_true in Ec as ->. destruct s as [|d s]; simpl in *.
  { intros (o & Ho & ->)%res_fmap_Ok. apply Expands_bare; [done..|]. apply IH; [simpl; lia|done]. }
  destruct (ascii_eqb d "$") eqn:Ed.
  { apply ascii_eqb_true in Ed as ->. intros (o & Ho & ->)%res_fmap_Ok.
    apply Expands_escape. apply IH; [lia|done]. }
  destruct (ascii_eqb d "{") eqn:Eb.
  - apply ascii_eqb_true in Eb as ->. destruct (Cut s "}") as [[name rest]|] eqn:Ecut; [|done].
    case_bool_decide as Hne; [done|]. destruct (vars !! name) as [v|] eqn:Ev; [|done].
    apply Cut_Some in Ecut as [-> Hname]. intros (o & Ho & ->)%res_fmap_Ok.
    rewrite str_length_app in Hn. simpl in Hn.
    eapply Expands_var; [done..|]. apply IH; [lia|done].
  - intros (o & Ho & ->)%res_fmap_Ok. apply Expands_bare; simpl.
    + apply andb_false_iff. left. apply ascii_eqb_ne. intros <-. by rewrite ascii_eqb_refl in Ed.
    + apply andb_false_iff. left. apply ascii_eqb_ne. intros <-. by rewrite ascii_eqb_refl in Eb.
    + apply IH; [simpl; lia|done].
Qed.

Lemma expand_loop_complete vars s out :
  Expands vars s out -> forall n, (String.length s <= n)%nat -> expand_loop vars n s = Ok out.
Proof.
  induction 1 as [|c s out Hc _ IH|s out _ IH|s out H1 H2 _ IH|name v s out Hne Hb Hv _ IH];
    intros [|n] Hn; simpl in *; try lia; [done|done| | | |].
  - rewrite ascii_eqb_ne by done. simpl. by rewrite IH by lia.
  - by rewrite IH by lia.
  - destruct s as [|d s]; [by rewrite IH by (simpl; lia)|].
    assert (d <> "$"%char) by (intros ->; by destruct s).
    assert (d <> "{"%char) by (intros ->; by destruct s).
    rewrite (ascii_eqb_ne d "$"), (ascii_eqb_ne d "{") by done. simpl in *. by rewrite IH by lia.
  - rewrite Cut_app by done. rewrite bool_decide_eq_false_2, Hv by done.
    rewrite str_length_app in Hn. simpl in Hn. by rewrite IH by lia.
Qed.

Lemma Expands_plain vars s : has_byte "$" s = false -> Expands vars s s.
Proof.
  induction s as [|c s IH]; simpl; [constructor|].
  intros [Hc Hs]%orb_false_iff. constructor; [|auto].
  intros ->. by rewrite ascii_eqb_refl in Hc.
Qed.

Lemma Expands_plain_inv vars s out : has_byte "$" s = false -> Expands vars s out -> out = s.
Proof. intros Hs. induction 1; simpl in Hs; bool_norm; by f_equal; auto. Qed.

Lemma expandRefVars_Expands vars tag out :
  expandRefVars tag vars = Ok out <-> Expands vars tag out.
Proof.
  unfold expandRefVars. destruct (has_byte "$" tag) eqn:Hd; simpl.
  - split; [by apply expand_loop_sound|]. intros. by eapply expand_loop_complete.
  - split; [intros [= <-]; by apply Expands_plain|].
    intros H. by rewrite (Expands_plain_inv _ _ _ Hd H).
Qed.

Lemma expand_loop_error vars n s e : expand_loop vars n s = Err e -> errors_Is e ErrInvalid = true.
Proof.
  revert s. induction n as [|n IH]; intros s; simpl; [done|].
  assert (Hf : forall (f : string -> string) s, f <$> expand_loop vars n s = Err e -> errors_Is e ErrInvalid = true).
  { intros f s'. destruct (expand_loop vars n s') eqn:E; simpl; [done|]. intros [= <-]. eauto. }
  repeat case_match; try apply Hf; try done; by intros [= <-].
Qed.

(** ** Redaction *)

(** Two option maps with the same options, whose values may differ only under
    sensitive names. *)
Definition same_but_secrets (o1 o2 : Values) : Prop :=
  dom o1 = dom o2 /\
  forall k, if is_sensitive k then length (default [] (o1 !! k)) = length (default [] (o2 !! k))
            else o1 !! k = o2 !! k.

Lemma redact_key_same o1 o2 k :
  same_but_secrets o1 o2 ->
  redact_key (k, default [] (o1 !! k)) = redact_key (k, default [] (o2 !! k)).
Proof.
  intros [_ H]. specialize (H k). unfold redact_key. simpl.
  destruct (is_sensitive k); [|by rewrite H].
  revert H. generalize (default [] (o1 !! k)) (default [] (o2 !! k)).
  intros l1. induction l1 as [|x l1 IH]; intros [|y l2] Hl; simplify_eq/=; [done|].
  by rewrite (IH l2).
Qed.

Lemma redact_entries_same o1 o2 :
  same_but_secrets o1 o2 ->
  flat_map redact_key (sorted_entries o1) = flat_map redact_key (sorted_entries o2).
Proof.
  intros H. unfold sorted_entries, sorted_keys. rewrite (proj1 H).
  induction (merge_sort str_le (elements (dom o2))) as [|k ks IH]; [done|].
  cbn [map flat_map]. by rewrite IH, (redact_key_same o1 o2 k H).
Qed.

(** * Properties *)

(** C24. A chain written by joining the canonical text of its refs with commas
    parses back to exactly those refs, each carrying its own text as [Raw], for
    refs whose parts keep clear of the delimiters that end them, whose scheme is one of the
    grammar, and in which no comma comes before text that reads as the beginning of
    another ref. Commas of any other kind, in a path, a key or an option, do not cut:
    [ParseRefs] cuts between the refs only, and [ParseRef] inverts [String] on
    scheme, path, key and every option. *)
Theorem ParseRefs_chain_roundtrip r rs :
  Forall wf_chain_ref (r :: rs) ->
  ParseRefs (Join (map Ref_String (r :: rs)) ",") =
  Ok (map (fun r => with_raw r (Ref_String r)) (r :: rs)).
Proof.
  intros H. destruct (chain_join rs r H) as (Hu & Hl & _ & Hs).
  unfold ParseRefs. rewrite TrimSpace_untrimmed by done.
  rewrite bool_decide_eq_false_2 by (intros E; rewrite E in Hl; simpl in Hl; lia).
  rewrite Hs. apply parse_parts_map. eapply Forall_impl; [exact H|]. by intros ? [].
Qed.

Definition example_ref : Ref :=
  MkRef "vault" "kv/data/api, v2" "ca.crt" {["decode" := ["base64,gzip"]; "tag" := ["a,b"; "?#&"]]} "".
Definition example_env : Ref := MkRef "env" "PORT" "" ∅ "".

(** The texts after the commas of [s]. *)
Fixpoint after_commas (s : string) : list string :=
  match s with
  | EmptyString => []
  | String c s => if ascii_eqb c "," then s :: after_commas s else after_commas s
  end.

Lemma after_commas_spec a b : b ∈ after_commas (a ++ String "," b).
Proof.
  induction a as [|c a IH]; simpl; [constructor|]. destruct (ascii_eqb c ","); [by constructor|done].
Qed.

Lemma example_refs_wf : Forall wf_chain_ref [example_ref; example_env].
Proof.
  repeat (apply Forall_cons; split); [| |by apply Forall_nil].
  - split.
    + split; try (by vm_compute); try (by apply (bool_decide_unpack _); vm_compute).
    + exists "v"%char, "ault". split; [done|]. by split; apply (bool_decide_unpack _); vm_compute.
    + intros a b Hab Hb%schemeStart_spec. pose proof (after_commas_spec a b) as Hin. rewrite <- Hab in Hin.
      assert (Hno : forallb (fun b => negb (schemeStart b)) (after_commas (Ref_String example_ref)) = true) by (by vm_compute).
      rewrite forallb_forall in Hno. apply list_elem_of_In, Hno in Hin. by rewrite Hb in Hin.
  - split.
    + split; try (by vm_compute); try (by apply (bool_decide_unpack _); vm_compute).
    + exists "e"%char, "nv". split; [done|]. by split; apply (bool_decide_unpack _); vm_compute.
    + intros a b Hab. pose proof (after_commas_spec a b) as Hin. rewrite <- Hab in Hin. by vm_compute in Hin; inversion Hin.
Qed.

Lemma ParseRefs_chain_roundtrip_witness :
  ParseRefs (Join (map Ref_String [example_ref; example_env]) ",") =
  Ok [with_raw example_ref "vault://kv/data/api, v2#ca.crt?decode=base64%2Cgzip&tag=a%2Cb&tag=%3F%23%26";
      with_raw example_env "env://PORT"].
Proof. apply (ParseRefs_chain_roundtrip example_ref [example_env] example_refs_wf). Defined.

(** [expandRefVars] computes the meaning of a tag: it returns [out]
    exactly when the grammar of "$$", "${name}" and bare dollars maps the tag to
    [out] under the variables, so a value is inserted once and never read
    again; any other tag is an [ErrInvalid] error, never a shorter tag. *)
Theorem expandRefVars_spec tag vars :
  match expandRefVars tag vars with
  | Ok out => Expands vars tag out
  | Err e => errors_Is e ErrInvalid = true /\ forall out, ~ Expands vars tag out
  end.
Proof.
  destruct (expandRefVars tag vars) as [out|e] eqn:E; [by apply expandRefVars_Expands|].
  split; [|intros out Ho%expandRefVars_Expands; congruence].
  unfold expandRefVars in E. destruct (negb (has_byte "$" tag)); [done|].
  by apply expand_loop_error in E.
Qed.

(** The redacted text of a ref does not depend on its secrets: changing
    the values of the sensitive options (and the raw tag that holds them)
    changes nothing of what [Redacted] renders. *)
Theorem Redacted_noninterference r1 r2 :
  ref_Scheme r1 = ref_Scheme r2 -> ref_Path r1 = ref_Path r2 -> ref_Key r1 = ref_Key r2 ->
  ref_Opts r1 <> ∅ -> same_but_secrets (ref_Opts r1) (ref_Opts r2) ->
  Redacted r1 = Redacted r2.
Proof.
  intros Hs Hp Hk Hne H. unfold Redacted.
  rewrite bool_decide_eq_false_2, bool_decide_eq_false_2; [| |done].
  - unfold ref_render. by rewrite Hs, Hp, Hk, (redact_entries_same _ _ H).
  - intros E. apply Hne. rewrite E in H. destruct H as [H _].
    rewrite dom_empty_L in H. by apply dom_empty_inv_L in H.
Qed.

Lemma Redacted_noninterference_witness :
  Redacted (MkRef "azkv" "v/s" "" {["token" := ["hunter2"]; "v" := ["3"]]} "azkv://v/s?token=hunter2&v=3")
  = Redacted (MkRef "azkv" "v/s" "" {["token" := ["swordfish"]; "v" := ["3"]]} "").
Proof.
  apply Redacted_noninterference; try done.
  split; [by vm_compute|]. intros k. simpl.
  destruct (decide (k = "token")) as [->|Hk]; [by vm_compute|].
  destruct (is_sensitive k);
    [rewrite !(lookup_insert_ne _ "token") by done; done|].
  by rewrite !(lookup_insert_ne _ "token") by done.
Defined.
