(* ===== verification/Provider.v ===== *)
(** Values (src/value.go, src/helpers.go), the provider interfaces
    (src/provider.go), the process-wide registry (src/registry.go) and the
    environment the library runs in: its clock and its observers. *)

From S2P Require Import Prelude Errors GoStrings Ref.
Open Scope string_scope.
Open Scope Z_scope.

(** * Time *)

(** A [time.Time] is its nanoseconds; 0 is the zero [Time]. A [Duration] is an
    int64 of nanoseconds. *)
Definition max_int64 : Z := 9223372036854775807.
Definition min_int64 : Z := -9223372036854775808.

(** [t.Sub(u)]: saturates at the bounds of [Duration]. *)
Definition Sub (t u : Z) : Z := Z.max min_int64 (Z.min max_int64 (t - u)).

Definition Millisecond : Z := 1000000.
Definition Second : Z := 1000000000.

Definition IsZero (t : Z) : bool := t =? 0.

(** * Values *)

(** [type Value struct]. *)
Record Value := MkValue {
  val_Bytes : string;
  val_Version : string;
  val_Sensitive : bool;
  val_NotAfter : Z;
  val_Metadata : gmap string string;
}.

#[export] Instance Value_eq_dec : EqDecision Value.
Proof. solve_decision. Defined.

(** The zero [Value{}]. *)
Definition zero_Value : Value := MkValue "" "" false 0 ∅.

(** [func (v Value) changed(o Value) bool]. *)
Definition changed (v o : Value) : bool :=
  if negb (bool_decide (val_Version v = "")) || negb (bool_decide (val_Version o = ""))
  then negb (bool_decide (val_Version v = val_Version o))
  else negb (bool_decide (val_Bytes v = val_Bytes o)).

(** [fnv.New64a]: the offset basis, and one byte folded in at 64 bits. *)
Definition fnv_offset64 : Z := 14695981039346656037.
Definition fnv_prime64 : Z := 1099511628211.

Fixpoint fnv64a (h : Z) (b : string) : Z :=
  match b with
  | EmptyString => h
  | String c b =>
      fnv64a ((Z.lxor h (Z.of_nat (nat_of_ascii c)) * fnv_prime64) mod 2 ^ 64) b
  end.

(** [strconv.FormatUint(x, 16)] of a 64-bit word: at most 16 digits. *)
Fixpoint format_hex (fuel : nat) (x : Z) (acc : string) : string :=
  match fuel with
  | O => acc
  | S fuel =>
      let d := Z.to_nat (x mod 16) in
      let acc := String (if (d <? 10)%nat then ascii_of_nat (48 + d)
                         else ascii_of_nat (87 + d)) acc in
      if x / 16 =? 0 then acc else format_hex fuel (x / 16) acc
  end.

(** [func VersionHash(b []byte) string]. *)
Definition VersionHash (b : string) : string := format_hex 16 (fnv64a fnv_offset64 b) "".

(** * The environment *)

(** What a resolve leaves with the observers: the tracer's span of a ref in its
    redacted form and the end of that span, and [meter.RecordResolve] with the
    scheme, the elapsed time and the error. *)
Inductive obs :=
  | ObsSpan (scheme redacted : string)
  | ObsFinish (err : option error)
  | ObsResolve (scheme : string) (elapsed : Z) (err : option error).

(** The world outside the library: backends, clock, observers. [now] is
    [clock.Now()]; [observe] hands an observation to the meter and the tracer,
    which do not move the clock. *)
Class Env (W : Type) := {
  now : W -> Z;
  observe : obs -> W -> W;
  now_observe : forall e w, now (observe e w) = now w;
}.

(** [type Provider interface] with the two optional interfaces. A resolve may
    change the world (and takes time); a batch answers by [Raw] tag. *)
Record Provider (W : Type) := MkProvider {
  prov_Scheme : string;
  prov_Resolve : Ref -> W -> W * res Value;
  prov_ResolveBatch : option (list Ref -> W -> W * res (gmap string Value));
  prov_Watchable : bool;
}.
Arguments MkProvider {W}.
Arguments prov_Scheme {W}.
Arguments prov_Resolve {W}.
Arguments prov_ResolveBatch {W}.
Arguments prov_Watchable {W}.

(** [type Update struct]: a value, or a transient error. *)
Record Update := MkUpdate {
  up_Value : Value;
  up_Err : option error;
}.

(** * The registry *)

Section registry.
Context {W : Type}.

Definition registry : Type := gmap string (Provider W).

(** [func Register(p Provider)]; [None] is a panic. *)
Definition Register (p : option (Provider W)) (reg : registry) : option registry :=
  match p with
  | None => None
  | Some p =>
      if bool_decide (prov_Scheme p = "") then None
      else match reg !! prov_Scheme p with
           | Some _ => None
           | None => Some (<[prov_Scheme p := p]> reg)
           end
  end.

Definition providerFor (reg : registry) (scheme : string) : option (Provider W) :=
  reg !! scheme.

(** [func RegisteredSchemes() []string]. *)
Definition RegisteredSchemes (reg : registry) : list string := sorted_keys reg.

(** [func (o *options) provider(scheme string)]: the providers of the call
    win over the registry. *)
Definition options_provider (explicit reg : registry) (scheme : string)
    : option (Provider W) :=
  match explicit !! scheme with
  | Some p => Some p
  | None => providerFor reg scheme
  end.

(** Every registered provider is found under its own scheme. *)
Definition registry_ok (reg : registry) : Prop :=
  map_Forall (fun s p => prov_Scheme p = s /\ s <> "") reg.

Lemma Register_ok p reg reg' :
  registry_ok reg -> Register p reg = Some reg' ->
  registry_ok reg' /\ reg ⊆ reg' /\
  exists q, p = Some q /\ providerFor reg' (prov_Scheme q) = Some q.
Proof.
  intros Hok H. destruct p as [q|]; simpl in H; [|done].
  case_bool_decide as Hs; [done|]. destruct (reg !! prov_Scheme q) eqn:E; [done|].
  injection H as <-. split_and!.
  - apply map_Forall_insert_2; [by split|exact Hok].
  - by apply insert_subseteq.
  - exists q. split; [done|]. apply lookup_insert_eq.
Qed.
End registry.

(** * Facts *)

Lemma changed_irrefl v : changed v v = false.
Proof. unfold changed. by case_match; rewrite bool_decide_eq_true_2. Qed.

Lemma changed_sym v o : changed v o = changed o v.
Proof.
  unfold changed. rewrite orb_comm.
  destruct (negb (bool_decide (val_Version o = "")) || negb (bool_decide (val_Version v = "")));
    f_equal; by apply bool_decide_ext.
Qed.

Lemma fnv64a_bound h b : 0 <= h < 2 ^ 64 -> 0 <= fnv64a h b < 2 ^ 64.
Proof.
  revert h. induction b as [|c b IH]; intros h Hh; simpl; [done|].
  apply IH. apply Z.mod_pos_bound. lia.
Qed.

Lemma format_hex_length n x acc :
  (String.length (format_hex n x acc) <= n + String.length acc)%nat.
Proof.
  revert x acc. induction n as [|n IH]; intros x acc; simpl; [lia|].
  case_match; simpl; [lia|]. etrans; [apply IH|]. simpl. lia.
Qed.

(** Sixteen digits are enough for a 64-bit word: more fuel changes nothing. *)
Lemma format_hex_fuel n m x acc :
  0 <= x < 16 ^ Z.of_nat n -> (0 < n)%nat -> (n <= m)%nat ->
  format_hex m x acc = format_hex n x acc.
Proof.
  revert m x acc. induction n as [|n IH]; intros m x acc Hx Hn Hm; [lia|].
  destruct m as [|m]; [lia|]. cbn [format_hex].
  destruct (x / 16 =? 0) eqn:E; [done|]. apply Z.eqb_neq in E.
  rewrite Nat2Z.inj_succ, Z.pow_succ_r in Hx by lia.
  assert (0 <= x / 16 < 16 ^ Z.of_nat n).
  { split; [apply Z.div_pos; lia|]. apply Z.div_lt_upper_bound; lia. }
  destruct n as [|n]; [simpl in *; lia|]. apply IH; lia.
Qed.
