(* ===== verification/Decode.v ===== *)
(** The ?decode= pipeline of a ref (src/decodeopt.go): the closed set of
    codings, the parser of the option and its application to a value. The gzip
    reader of the standard library is the one coding left as a parameter; its
    output bound is the source's own and is modelled. *)

From S2P Require Import Prelude Errors GoStrings Ref Provider.
Open Scope string_scope.

(** * Textual codings *)

Definition b64_alphabet : string :=
  "ABCDEFGHIJKLMNOPQRSTUVWXYZabcdefghijklmnopqrstuvwxyz0123456789+/".
Definition b64url_alphabet : string :=
  "ABCDEFGHIJKLMNOPQRSTUVWXYZabcdefghijklmnopqrstuvwxyz0123456789-_".

(** The 6-bit value of a byte of the alphabet. *)
Definition b64_val (alphabet : string) (c : ascii) : option nat := IndexByte alphabet c.

Fixpoint drop_newlines (s : string) : string :=
  match s with
  | EmptyString => ""
  | String c s =>
      if ascii_eqb c "010" || ascii_eqb c "013" then drop_newlines s
      else String c (drop_newlines s)
  end.

(** Quanta of four bytes; only the last may be padded, and nothing follows a
    padded one. *)
Fixpoint b64_quanta (alphabet : string) (s : string) : option string :=
  match s with
  | EmptyString => Some ""
  | String a (String b (String c (String d rest))) =>
      match b64_val alphabet a, b64_val alphabet b with
      | Some a, Some b =>
          let o1 := ascii_of_nat (a * 4 + b / 16) in
          match b64_val alphabet c with
          | Some c =>
              let o2 := ascii_of_nat ((b mod 16) * 16 + c / 4) in
              match b64_val alphabet d with
              | Some d =>
                  let o3 := ascii_of_nat ((c mod 4) * 64 + d) in
                  (fun out => String o1 (String o2 (String o3 out))) <$> b64_quanta alphabet rest
              | None =>
                  if ascii_eqb d "=" && bool_decide (rest = "")
                  then Some (String o1 (String o2 "")) else None
              end
          | None =>
              if ascii_eqb c "=" && ascii_eqb d "=" && bool_decide (rest = "")
              then Some (String o1 "") else None
          end
      | _, _ => None
      end
  | _ => None
  end.

(** [base64.StdEncoding.DecodeString] and [base64.URLEncoding.DecodeString]. *)
Definition base64_DecodeString (alphabet : string) (s : string) : option string :=
  b64_quanta alphabet (drop_newlines s).

(** [hex.DecodeString]. *)
Fixpoint hex_DecodeString (s : string) : option string :=
  match s with
  | EmptyString => Some ""
  | String h (String l rest) =>
      match unhex h, unhex l with
      | Some a, Some b => String (ascii_of_nat (16 * a + b)) <$> hex_DecodeString rest
      | _, _ => None
      end
  | _ => None
  end.

Definition stdlib_error (name : string) (o : option string) : res string :=
  match o with Some s => Ok s | None => Err (EOpaque name) end.

(** * The pipeline *)

Definition maxGzipDecoded : Z := Z.shiftl 16 20.

Section decode.
(** The gzip reader: [None] when [gzip.NewReader] refuses the header, else the
    bytes the stream yields and whether it then ends cleanly. Its errors are
    values of the standard library, opaque to the package. *)
Context (gzip_stream : string -> option (string * bool)).

(** [func gunzip(b []byte) ([]byte, error)]: [io.LimitReader] reports end of
    file one byte past the cap, so an error of the stream is seen only when
    fewer bytes came before it. *)
Definition gunzip (b : string) : res string :=
  match gzip_stream b with
  | None => Err (EOpaque "gzip")
  | Some (out, clean) =>
      if (maxGzipDecoded + 1 <=? Z.of_nat (String.length out))%Z
      then Err (EWrap "payload expands past the gzip decompression limit" [ESentinel ErrInvalid])
      else if clean then Ok out else Err (EOpaque "gzip")
  end.

(** [decodeCodings]: the codings and their functions. *)
Definition decodeCodings (name : string) : option (string -> res string) :=
  if bool_decide (name = "base64") then
    Some (fun b => stdlib_error name (base64_DecodeString b64_alphabet (TrimSpace b)))
  else if bool_decide (name = "base64url") then
    Some (fun b => stdlib_error name (base64_DecodeString b64url_alphabet (TrimSpace b)))
  else if bool_decide (name = "hex") then
    Some (fun b => stdlib_error name (hex_DecodeString (TrimSpace b)))
  else if bool_decide (name = "gzip") then Some gunzip
  else if bool_decide (name = "trim") then Some (fun b => Ok (TrimSpace b))
  else None.

(** [type decodeStep struct]. *)
Definition decodeStep : Type := string * (string -> res string).

Definition errUnknownCoding (name : string) : error :=
  EWrap ("mamori: unknown decode coding " ++ name) [ESentinel ErrInvalid].

(** The loop of [parseDecodePipeline] over the names. *)
Fixpoint parse_codings (parts : list string) : res (list decodeStep) :=
  match parts with
  | [] => Ok []
  | p :: ps =>
      let name := TrimSpace p in
      match decodeCodings name with
      | None => Err (errUnknownCoding name)
      | Some fn => (fun steps => (name, fn) :: steps) <$> parse_codings ps
      end
  end.

(** [func parseDecodePipeline(spec string) ([]decodeStep, error)]. *)
Definition parseDecodePipeline (spec : string) : res (list decodeStep) :=
  if bool_decide (spec = "") then Ok [] else parse_codings (Split spec ",").

(** How a failing step is reported: a classified failure keeps its class, any
    other becomes [ErrInvalid]. *)
Definition decode_error (name : string) (err : error) : error :=
  if errors_Is err ErrInvalid then EWrap (name ++ " decode failed") [err]
  else EWrap (name ++ " decode failed") [ESentinel ErrInvalid; err].

Fixpoint run_steps (steps : list decodeStep) (b : string) : res string :=
  match steps with
  | [] => Ok b
  | (name, fn) :: steps =>
      match fn b with
      | Err e => Err (decode_error name e)
      | Ok b => run_steps steps b
      end
  end.

Definition with_Bytes (v : Value) (b : string) : Value :=
  MkValue b (val_Version v) (val_Sensitive v) (val_NotAfter v) (val_Metadata v).

(** [func applyDecode(ref Ref, v Value) (Value, error)]. *)
Definition applyDecode (ref : Ref) (v : Value) : res Value :=
  match parseDecodePipeline (Ref_Opt ref "decode") with
  | Err e => Err (EWrap ("mamori: ref " ++ Redacted ref) [e])
  | Ok [] => Ok v
  | Ok steps => with_Bytes v <$> run_steps steps (val_Bytes v)
  end.

(** * Facts *)

Lemma parse_codings_error parts e : parse_codings parts = Err e -> errors_Is e ErrInvalid = true.
Proof.
  induction parts as [|p ps IH]; simpl; [done|]. case_match; [|by intros [= <-]].
  destruct (parse_codings ps); simpl; [done|]. intros [= <-]. auto.
Qed.

Lemma parseDecodePipeline_error spec e :
  parseDecodePipeline spec = Err e -> errors_Is e ErrInvalid = true.
Proof. unfold parseDecodePipeline. case_bool_decide; [done|]. apply parse_codings_error. Qed.

Lemma decode_error_invalid name e : errors_Is (decode_error name e) ErrInvalid = true.
Proof. unfold decode_error. destruct (errors_Is e ErrInvalid) eqn:E; simpl; by rewrite ?E. Qed.

Lemma run_steps_error steps b e : run_steps steps b = Err e -> errors_Is e ErrInvalid = true.
Proof.
  revert b. induction steps as [|[n f] steps IH]; intros b; simpl; [done|].
  destruct (f b); [apply IH|]. intros [= <-]. apply decode_error_invalid.
Qed.

(** A decode failure is never taken for an absence. *)
Lemma decodeCodings_absent name fn b e :
  decodeCodings name = Some fn -> fn b = Err e -> errors_Is e ErrNotFound = false.
Proof.
  unfold decodeCodings, stdlib_error, gunzip.
  repeat case_bool_decide; intros [= <-]; repeat case_match; by intros [= <-].
Qed.

Lemma parse_codings_absent parts :
  match parse_codings parts with
  | Err e => errors_Is e ErrNotFound = false
  | Ok steps => Forall (fun st => forall b e, st.2 b = Err e -> errors_Is e ErrNotFound = false) steps
  end.
Proof.
  induction parts as [|p ps IH]; simpl; [constructor|].
  destruct (decodeCodings (TrimSpace p)) as [fn|] eqn:E; [|done].
  destruct (parse_codings ps); simpl; [|done]. constructor; [|done].
  intros b e. by apply (decodeCodings_absent (TrimSpace p)).
Qed.

Lemma run_steps_absent steps b e :
  Forall (fun st => forall b e, st.2 b = Err e -> errors_Is e ErrNotFound = false) steps ->
  run_steps steps b = Err e -> errors_Is e ErrNotFound = false.
Proof.
  intros H. revert b. induction H as [|[n f] steps Hf _ IH]; intros b; simpl; [done|].
  destruct (f b) as [b'|e'] eqn:E; [apply IH|]. intros [= <-]. unfold decode_error.
  apply Hf in E. by case_match; simpl; rewrite E.
Qed.

Lemma applyDecode_absent ref v e :
  applyDecode ref v = Err e -> errors_Is e ErrNotFound = false.
Proof.
  unfold applyDecode, parseDecodePipeline. case_bool_decide; [done|].
  pose proof (parse_codings_absent (Split (Ref_Opt ref "decode") ",")) as Hp.
  destruct (parse_codings _) as [[|s steps]|e'].
  - done.
  - destruct (run_steps (s :: steps) (val_Bytes v)) as [b|e'] eqn:E; simpl; [done|].
    intros [= <-]. by eapply run_steps_absent.
  - intros [= <-]. simpl. by rewrite Hp.
Qed.

Lemma run_steps_app s1 s2 b : run_steps (s1 ++ s2)%list b = run_steps s1 b ≫= run_steps s2.
Proof.
  revert b. induction s1 as [|[n f] s1 IH]; intros b; simpl; [done|].
  destruct (f b); [apply IH|done].
Qed.

Lemma parse_codings_app p1 p2 :
  parse_codings (p1 ++ p2)%list =
  parse_codings p1 ≫= fun s1 => (fun s2 => s1 ++ s2)%list <$> parse_codings p2.
Proof.
  induction p1 as [|p p1 IH]; simpl; [by destruct (parse_codings p2)|].
  case_match; [|done]. rewrite IH. destruct (parse_codings p1); simpl; [|done].
  by destruct (parse_codings p2).
Qed.
End decode.

(** A ref whose decode option is [spec]. *)
Definition with_decode (r : Ref) (spec : string) : Ref :=
  MkRef (ref_Scheme r) (ref_Path r) (ref_Key r) (<["decode" := [spec]]> (ref_Opts r)) (ref_Raw r).

Lemma applyDecode_with_decode gz r spec v :
  spec <> "" ->
  applyDecode gz (with_decode r spec) v =
  match parse_codings gz (Split spec ",") with
  | Err e => Err (EWrap ("mamori: ref " ++ Redacted (with_decode r spec)) [e])
  | Ok steps => with_Bytes v <$> run_steps steps (val_Bytes v)
  end.
Proof.
  intros Hne. unfold applyDecode, Ref_Opt, Values_Get. simpl. rewrite lookup_insert_eq.
  unfold parseDecodePipeline. rewrite bool_decide_eq_false_2 by done.
  destruct (parse_codings gz (Split spec ",")) as [[|s steps]|]; [|done|done].
  by destruct v.
Qed.

(** * Properties *)

(** A decode option is applied from left to right: the pipeline "a,b"
    succeeds with [w] exactly when decoding with "a" and then with "b" does.
    Whatever the option, a success changes the bytes of the value and nothing
    else, and a failure is always classified [ErrInvalid]. *)
Theorem applyDecode_left_to_right gz r v a b w :
  a <> "" -> b <> "" ->
  (applyDecode gz (with_decode r (a ++ "," ++ b)) v = Ok w <->
   exists u, applyDecode gz (with_decode r a) v = Ok u /\
             applyDecode gz (with_decode r b) u = Ok w) /\
  match applyDecode gz r v with
  | Ok u => u = with_Bytes v (val_Bytes u)
  | Err e => errors_Is e ErrInvalid = true
  end.
Proof.
  intros Ha Hb. split.
  - assert (Hab : a ++ "," ++ b <> "") by (by destruct a).
    rewrite applyDecode_with_decode by done.
    change ("," ++ b) with (String "," b). rewrite Split_app_sep, parse_codings_app.
    setoid_rewrite applyDecode_with_decode; [|done..].
    destruct (parse_codings gz (Split a ",")) as [sa|]; simpl; [|naive_solver].
    destruct (parse_codings gz (Split b ",")) as [sb|]; simpl; [|naive_solver].
    rewrite run_steps_app.
    destruct (run_steps sa (val_Bytes v)) as [x|]; simpl; [|naive_solver].
    split; [by exists (with_Bytes v x)|]. by intros (u & [= <-] & H).
  - unfold applyDecode.
    destruct (parseDecodePipeline gz (Ref_Opt r "decode")) as [[|s steps]|e] eqn:E.
    + by destruct v.
    + destruct (run_steps (s :: steps) (val_Bytes v)) eqn:Er; simpl; [done|].
      by apply run_steps_error in Er.
    + simpl. by rewrite (parseDecodePipeline_error _ _ _ E).
Qed.

Lemma applyDecode_left_to_right_witness :
  (applyDecode (fun s => Some (s, true))
     (with_decode (MkRef "file" "/k" "" ∅ "") ("base64" ++ "," ++ "hex"))
     (MkValue "NDE0Mg==" "v1" true 7 ∅) = Ok (MkValue "AB" "v1" true 7 ∅)).
Proof.
  apply (applyDecode_left_to_right (fun s => Some (s, true)) (MkRef "file" "/k" "" ∅ "")
    (MkValue "NDE0Mg==" "v1" true 7 ∅) "base64" "hex"); [done|done|].
  exists (MkValue "4142" "v1" true 7 ∅). split; vm_compute; reflexivity.
Defined.
