(* ===== verification/Base64.v ===== *)
(** The encoder of base64, whose decoder is in [Decode]: what is encoded decodes to
    itself, and holds only bytes of the alphabet. *)

From Stdlib Require Import ZifyNat.
From S2P Require Import Prelude GoStrings Decode.
Open Scope string_scope.

(** [base64.StdEncoding.EncodeToString]. *)
Definition enc6 (n : nat) : ascii := match String.get n b64_alphabet with Some c => c | None => "A"%char end.
Fixpoint base64_Encode (s : string) : string :=
  match s with
  | EmptyString => ""
  | String a EmptyString => let a := nat_of_ascii a in String (enc6 (a / 4)) (String (enc6 (a mod 4 * 16)) "==")
  | String a (String b EmptyString) =>
      let a := nat_of_ascii a in let b := nat_of_ascii b in
      String (enc6 (a / 4)) (String (enc6 (a mod 4 * 16 + b / 16)) (String (enc6 (b mod 16 * 4)) "="))
  | String a (String b (String c rest)) =>
      let a := nat_of_ascii a in let b := nat_of_ascii b in let c := nat_of_ascii c in
      String (enc6 (a / 4)) (String (enc6 (a mod 4 * 16 + b / 16)) (String (enc6 (b mod 16 * 4 + c / 64)) (String (enc6 (c mod 64)) (base64_Encode rest))))
  end%nat.

(** * Facts *)

Lemma enc6_ok n : (n < 64)%nat ->
  b64_val b64_alphabet (enc6 n) = Some n /\ ascii_eqb (enc6 n) "010" || ascii_eqb (enc6 n) "013" = false
  /\ ascii_eqb (enc6 n) "|" = false.
Proof.
  intros Hn.
  assert (Hall : forallb (fun n => bool_decide (b64_val b64_alphabet (enc6 n) = Some n)
    && negb (ascii_eqb (enc6 n) "010" || ascii_eqb (enc6 n) "013") && negb (ascii_eqb (enc6 n) "|")) (seq 0 64) = true)
    by (vm_compute; reflexivity).
  rewrite forallb_forall in Hall. specialize (Hall n). rewrite !andb_true_iff, !negb_true_iff, bool_decide_eq_true in Hall.
  destruct Hall as [[? ?] ?]; [apply in_seq; lia|done].
Qed.

Lemma enc6_val n : (n < 64)%nat -> b64_val b64_alphabet (enc6 n) = Some n.
Proof. intros Hn. by apply enc6_ok. Qed.
Lemma enc6_newline n s : (n < 64)%nat -> drop_newlines (String (enc6 n) s) = String (enc6 n) (drop_newlines s).
Proof. intros Hn. cbn [drop_newlines]. by rewrite (proj1 (proj2 (enc6_ok n Hn))). Qed.
Lemma enc6_bar n s : (n < 64)%nat -> has_byte "|" (String (enc6 n) s) = has_byte "|" s.
Proof. intros Hn. cbn [has_byte]. by rewrite (proj2 (proj2 (enc6_ok n Hn))). Qed.

Lemma base64_Encode_ind (P : string -> Prop) :
  P "" -> (forall a, P (String a "")) -> (forall a b, P (String a (String b ""))) ->
  (forall a b c s, P s -> P (String a (String b (String c s)))) -> forall s, P s.
Proof.
  intros H0 H1 H2 H3. fix IH 1. intros [|a [|b [|c s]]]; [done|apply H1|apply H2|]. apply H3, IH.
Qed.

#[local] Ltac Zify.zify_post_hook ::= Z.to_euclidean_division_equations.

(** The bytes of the goal as numbers below 256. *)
Ltac byte_bounds :=
  repeat match goal with x : ascii |- _ => lazymatch goal with _ : (nat_of_ascii x < 256)%nat |- _ => fail
    | _ => pose proof (nat_ascii_bounded x) end end.

Lemma base64_Encode_clean s : drop_newlines (base64_Encode s) = base64_Encode s /\ has_byte "|" (base64_Encode s) = false.
Proof.
  induction s as [|a|a b|a b c s [IH1 IH2]] using base64_Encode_ind; [done|..]; byte_bounds;
    cbn [base64_Encode]; cbv zeta; rewrite !enc6_newline, !enc6_bar by lia; [done|done|by rewrite IH1, IH2].
Qed.

Lemma ascii_of_nat_eq n c : n = nat_of_ascii c -> ascii_of_nat n = c.
Proof. intros ->. apply ascii_nat_embedding. Qed.

Lemma base64_decode_encode s : base64_DecodeString b64_alphabet (base64_Encode s) = Some s.
Proof.
  unfold base64_DecodeString. rewrite (proj1 (base64_Encode_clean s)).
  induction s as [|a|a b|a b c s IH] using base64_Encode_ind; [done|..]; byte_bounds;
    cbn [base64_Encode b64_quanta]; rewrite !enc6_val by lia.
  - change (b64_val b64_alphabet "=") with (@None nat). change (ascii_eqb "=" "=") with true. cbn [andb].
    rewrite bool_decide_eq_true_2 by done. do 2 f_equal. apply ascii_of_nat_eq. lia.
  - change (b64_val b64_alphabet "=") with (@None nat). change (ascii_eqb "=" "=") with true. cbn [andb].
    rewrite bool_decide_eq_true_2 by done. f_equal. f_equal; [|f_equal]; apply ascii_of_nat_eq; lia.
  - rewrite IH. cbn [fmap option_fmap option_map]. f_equal. f_equal; [|f_equal; [|f_equal]]; apply ascii_of_nat_eq; lia.
Qed.
