(* ===== verification/GoNumbers.v ===== *)
(** The number syntax of the Go standard library the source reads values with:
    [strconv.ParseBool], [ParseInt], [ParseUint] in base 10, and
    [time.ParseDuration]. Machine integers are [Z] with their bounds written
    out; [wrap_int] and [wrap_uint] are the conversions to a width. *)

From S2P Require Import Prelude Errors GoStrings Provider.
Open Scope string_scope.
Open Scope Z_scope.

(** * Widths *)

Definition wrap_uint (w n : Z) : Z := n mod 2 ^ w.

Definition wrap_int (w n : Z) : Z :=
  let m := n mod 2 ^ w in if m <? 2 ^ (w - 1) then m else m - 2 ^ w.

Definition fits_int (w n : Z) : bool := (- 2 ^ (w - 1) <=? n) && (n <? 2 ^ (w - 1)).
Definition fits_uint (w n : Z) : bool := (0 <=? n) && (n <? 2 ^ w).

(** * Booleans and integers *)

(** [strconv.ParseBool]. *)
Definition ParseBool (s : string) : option bool :=
  if bool_decide (s ∈ ["1"; "t"; "T"; "TRUE"; "true"; "True"]) then Some true
  else if bool_decide (s ∈ ["0"; "f"; "F"; "FALSE"; "false"; "False"]) then Some false
  else None.

Definition digit_val (c : ascii) : Z := Z.of_nat (nat_of_ascii c) - 48.

(** The value of a string of decimal digits; [None] on any other byte. *)
Fixpoint digits (acc : Z) (s : string) : option Z :=
  match s with
  | EmptyString => Some acc
  | String c s => if is_digit c then digits (acc * 10 + digit_val c) s else None
  end.

(** [strconv.ParseUint(s, 10, 64)]: no sign, out of range is an error. *)
Definition ParseUint (s : string) : option Z :=
  match s with
  | EmptyString => None
  | _ =>
      match digits 0 s with
      | Some n => if n <? 2 ^ 64 then Some n else None
      | None => None
      end
  end.

(** [strconv.ParseInt(s, 10, 64)]: an optional sign. *)
Definition ParseInt (s : string) : option Z :=
  let '(neg, t) :=
    match s with
    | String c t =>
        if ascii_eqb c "-" then (true, t)
        else if ascii_eqb c "+" then (false, t) else (false, s)
    | EmptyString => (false, s)
    end in
  match ParseUint t with
  | None => None
  | Some n =>
      if neg then if n <=? 2 ^ 63 then Some (- n) else None
      else if n <? 2 ^ 63 then Some n else None
  end.

(** [strconv.AppendUint(nil, n, 10)] and [AppendInt]; twenty digits are enough
    for a 64-bit word. *)
Fixpoint format_digits (fuel : nat) (n : Z) (acc : string) : string :=
  match fuel with
  | O => acc
  | S fuel =>
      let acc := String (ascii_of_nat (48 + Z.to_nat (n mod 10))) acc in
      if n / 10 =? 0 then acc else format_digits fuel (n / 10) acc
  end.

Definition FormatUint (n : Z) : string := format_digits 20 n "".
Definition FormatInt (n : Z) : string :=
  if n <? 0 then String "-" (FormatUint (- n)) else FormatUint n.

(** * Durations *)

(** [unitMap]; the micro sign is spelled U+00B5 or U+03BC. *)
Definition unitMap (u : string) : option Z :=
  let mu1 := String (byte_of 194) (String (byte_of 181) "s") in
  let mu2 := String (byte_of 206) (String (byte_of 188) "s") in
  if bool_decide (u = "ns") then Some 1
  else if bool_decide (u = "us") then Some 1000
  else if bool_decide (u = mu1) then Some 1000
  else if bool_decide (u = mu2) then Some 1000
  else if bool_decide (u = "ms") then Some 1000000
  else if bool_decide (u = "s") then Some 1000000000
  else if bool_decide (u = "m") then Some 60000000000
  else if bool_decide (u = "h") then Some 3600000000000
  else None.

(** [leadingInt]: the digits in front and the rest; overflow past 1<<63 is an
    error. *)
Fixpoint leadingInt (x : Z) (s : string) : option (Z * string) :=
  match s with
  | EmptyString => Some (x, s)
  | String c s' =>
      if negb (is_digit c) then Some (x, s)
      else if 2 ^ 63 / 10 <? x then None
      else
        let x := x * 10 + digit_val c in
        if 2 ^ 63 <? x then None else leadingInt x s'
  end.

(** [leadingFraction]: the digits, as an integer and the power of ten under
    it, stopping to accumulate once they overflow. *)
Fixpoint leadingFraction (overflow : bool) (x scale : Z) (s : string) : Z * Z * string :=
  match s with
  | EmptyString => (x, scale, s)
  | String c s' =>
      if negb (is_digit c) then (x, scale, s)
      else if overflow then leadingFraction true x scale s'
      else if (2 ^ 63 - 1) / 10 <? x then leadingFraction true x scale s'
      else
        let y := x * 10 + digit_val c in
        if 2 ^ 63 <? y then leadingFraction true x scale s'
        else leadingFraction false y (scale * 10) s'
  end.

(** The unit: everything up to the next dot or digit. *)
Fixpoint leadingUnit (s : string) : string * string :=
  match s with
  | EmptyString => ("", "")
  | String c s' =>
      if ascii_eqb c "." || is_digit c then ("", s)
      else let '(u, r) := leadingUnit s' in (String c u, r)
  end.

Section duration.
(** [uint64(float64(f) * (float64(unit) / scale))]: the float64 arithmetic of
    a fractional part. *)
Context (fraction : Z -> Z -> Z -> Z).

(** The loop of [time.ParseDuration]; every turn consumes a unit, so the
    length of the string is enough fuel. *)
Fixpoint duration_loop (fuel : nat) (d : Z) (s : string) : option Z :=
  match s with
  | EmptyString => Some d
  | String c _ =>
      match fuel with
      | O => None
      | S fuel =>
          if negb (ascii_eqb c "." || is_digit c) then None
          else
            match leadingInt 0 s with
            | None => None
            | Some (v, s1) =>
                let pre := negb (bool_decide (s1 = s)) in
                let '(f, scale, post, s2) :=
                  match s1 with
                  | String c1 r1 =>
                      if ascii_eqb c1 "." then
                        let '(f, scale, r2) := leadingFraction false 0 1 r1 in
                        (f, scale, negb (bool_decide (r2 = r1)), r2)
                      else (0, 1, false, s1)
                  | EmptyString => (0, 1, false, s1)
                  end in
                if negb pre && negb post then None
                else
                  let '(u, s3) := leadingUnit s2 in
                  if bool_decide (u = "") then None
                  else
                    match unitMap u with
                    | None => None
                    | Some unit =>
                        if 2 ^ 63 / unit <? v then None
                        else
                          let v := v * unit in
                          let v := if 0 <? f then wrap_uint 64 (v + fraction f scale unit) else v in
                          if 2 ^ 63 <? v then None
                          else
                            let d := wrap_uint 64 (d + v) in
                            if 2 ^ 63 <? d then None else duration_loop fuel d s3
                    end
            end
      end
  end.

(** [time.ParseDuration(s)]. *)
Definition ParseDuration (s : string) : option Z :=
  let '(neg, t) :=
    match s with
    | String c t =>
        if ascii_eqb c "-" then (true, t)
        else if ascii_eqb c "+" then (false, t) else (false, s)
    | EmptyString => (false, s)
    end in
  if bool_decide (t = "0") then Some 0
  else if bool_decide (t = "") then None
  else
    match duration_loop (String.length t) 0 t with
    | None => None
    | Some d =>
        if neg then Some (- d)
        else if 2 ^ 63 - 1 <? d then None else Some d
    end.
End duration.

(** * Facts *)

Lemma digits_nonneg acc s n : 0 <= acc -> digits acc s = Some n -> acc <= n.
Proof.
  revert acc. induction s as [|c s IH]; intros acc Hacc; simpl; [intros [= <-]; lia|].
  destruct (is_digit c) eqn:Ed; [|done]. intros H.
  unfold is_digit, in_range in Ed. apply andb_true_iff in Ed as [E1%Nat.leb_le _].
  apply IH in H; unfold digit_val in *; lia.
Qed.

Lemma ParseUint_range s n : ParseUint s = Some n -> 0 <= n < 2 ^ 64.
Proof.
  unfold ParseUint. destruct s as [|c s]; [done|].
  destruct (digits 0 (String c s)) as [m|] eqn:E; [|done].
  apply digits_nonneg in E; [|lia]. destruct (m <? 2 ^ 64) eqn:Eb; [|done].
  intros [= <-]. apply Z.ltb_lt in Eb. lia.
Qed.

Lemma ParseInt_range s n : ParseInt s = Some n -> - 2 ^ 63 <= n < 2 ^ 63.
Proof.
  unfold ParseInt.
  destruct (match s with String c t => _ | EmptyString => _ end) as [neg t].
  destruct (ParseUint t) as [m|] eqn:E; [|done]. apply ParseUint_range in E.
  destruct neg.
  - destruct (m <=? 2 ^ 63) eqn:Eb; [|done]. apply Z.leb_le in Eb. intros [= <-]. lia.
  - destruct (m <? 2 ^ 63) eqn:Eb; [|done]. apply Z.ltb_lt in Eb. intros [= <-]. lia.
Qed.

Lemma wrap_int_fits w n : 0 < w -> fits_int w n = true -> wrap_int w n = n.
Proof.
  intros Hw [H1%Z.leb_le H2%Z.ltb_lt]%andb_true_iff. unfold wrap_int.
  assert (Hp : 2 ^ w = 2 * 2 ^ (w - 1)).
  { rewrite <- Z.pow_succ_r by lia. f_equal. lia. }
  destruct (Z_lt_dec n 0).
  - rewrite <- (Z.mod_unique n (2 ^ w) (-1) (n + 2 ^ w)) by lia.
    destruct (Z.ltb_spec (n + 2 ^ w) (2 ^ (w - 1))); lia.
  - rewrite Z.mod_small by lia. destruct (Z.ltb_spec n (2 ^ (w - 1))); lia.
Qed.

Lemma wrap_uint_fits w n : fits_uint w n = true -> wrap_uint w n = n.
Proof.
  intros [H1%Z.leb_le H2%Z.ltb_lt]%andb_true_iff. unfold wrap_uint. by rewrite Z.mod_small.
Qed.

Lemma wrap_int_range w n : 0 < w -> fits_int w (wrap_int w n) = true.
Proof.
  intros Hw. unfold fits_int, wrap_int.
  assert (Hp : 2 ^ w = 2 * 2 ^ (w - 1)).
  { rewrite <- Z.pow_succ_r by lia. f_equal. lia. }
  pose proof (Z.mod_pos_bound n (2 ^ w) ltac:(apply Z.pow_pos_nonneg; lia)).
  apply andb_true_iff. rewrite Z.leb_le, Z.ltb_lt.
  destruct (Z.ltb_spec (n mod 2 ^ w) (2 ^ (w - 1))); lia.
Qed.

(** * Decimal numbers *)

Lemma is_digit_val n : 0 <= n < 10 ->
  is_digit (ascii_of_nat (48 + Z.to_nat n)) = true /\ digit_val (ascii_of_nat (48 + Z.to_nat n)) = n.
Proof.
intros Hn. assert (H : exists k, (k < 10)%nat /\ n = Z.of_nat k) by (exists (Z.to_nat n); lia).
destruct H as (k & Hk & ->). rewrite Nat2Z.id.
do 10 (destruct k as [|k]; [by vm_compute|]). lia.
Qed.

Lemma digits_cons acc c s :
  digits acc (String c s) = if is_digit c then digits (acc * 10 + digit_val c) s else None.
Proof. done. Qed.

(** A formatted number is a run of digits that reads back as the number. *)
Lemma format_digits_spec fuel n s :
  0 <= n < 10 ^ Z.of_nat fuel -> (0 < fuel)%nat ->
  exists ds k, format_digits fuel n s = ds ++ s /\ ds <> "" /\
    (forall c, is_digit c = false -> has_byte c ds = false) /\
    (forall t, ds = String "0" t -> n = 0 /\ t = "") /\
    0 < k /\ forall acc t, digits acc (ds ++ t) = digits (acc * k + n) t.
Proof.
revert n s. induction fuel as [|fuel IH]; intros n s Hn Hf; [lia|]. cbn [format_digits].
set (c := ascii_of_nat (48 + Z.to_nat (n mod 10))).
assert (Hm : 0 <= n mod 10 < 10) by (apply Z.mod_pos_bound; lia).
destruct (is_digit_val (n mod 10) Hm) as [Hc Hv]. fold c in Hc, Hv. clearbody c.
assert (Hfree : forall d, is_digit d = false -> ascii_eqb c d = false).
{ intros d Hd. destruct (ascii_eqb c d) eqn:E; [|done]. apply ascii_eqb_true in E. congruence. }
destruct (Z.eqb_spec (n / 10) 0) as [E|E].
- exists (String c ""), 10. split_and!; [done|done| | |lia|].
  + intros d Hd. cbn [has_byte]. by rewrite Hfree.
  + intros t [= -> <-]. split; [|done]. change (digit_val "0") with 0 in Hv.
    pose proof (Z.div_mod n 10 ltac:(lia)). lia.
  + intros acc t. rewrite ?str_app_cons, digits_cons, Hc, Hv. f_equal.
    pose proof (Z.div_mod n 10 ltac:(lia)). lia.
- assert (Hq : 0 <= n / 10 < 10 ^ Z.of_nat fuel).
  { split; [apply Z.div_pos; lia|]. apply Z.div_lt_upper_bound; [lia|].
    replace (10 * 10 ^ Z.of_nat fuel) with (10 ^ Z.of_nat (S fuel)); [lia|].
    rewrite Nat2Z.inj_succ, Z.pow_succ_r by lia. done. }
  destruct fuel as [|fuel]; [simpl in Hq; lia|].
  destruct (IH (n / 10) (String c s) Hq ltac:(lia)) as (ds & k & -> & Hne & Hd & Hz & Hk & Hacc).
  exists (ds ++ String c ""), (k * 10). split_and!.
  + by rewrite <- str_app_assoc.
  + by destruct ds.
  + intros d Hd'. rewrite has_byte_app, Hd by done. cbn [has_byte]. by rewrite Hfree.
  + intros t E0. destruct ds as [|c0 ds]; [done|]. injection E0 as -> E0.
    destruct (Hz ds eq_refl). lia.
  + lia.
  + intros acc t. rewrite <- str_app_assoc. rewrite Hacc. rewrite ?str_app_cons, digits_cons, Hc, Hv. f_equal.
    pose proof (Z.div_mod n 10 ltac:(lia)). lia.
Qed.

Lemma FormatUint_spec n :
  0 <= n < 10 ^ 20 ->
  digits 0 (FormatUint n) = Some n /\
  forall c, is_digit c = false -> has_byte c (FormatUint n) = false.
Proof.
intros Hn. destruct (format_digits_spec 20 n "" Hn ltac:(lia)) as (ds & k & Hf & _ & Hd & _ & _ & Hacc).
unfold FormatUint. rewrite Hf, str_app_nil_r. split; [|done].
specialize (Hacc 0 ""). by rewrite str_app_nil_r in Hacc.
Qed.

Lemma FormatUint_inj n m :
  0 <= n < 10 ^ 20 -> 0 <= m < 10 ^ 20 -> FormatUint n = FormatUint m -> n = m.
Proof.
intros Hn Hm E. destruct (FormatUint_spec n Hn) as [Dn _]. destruct (FormatUint_spec m Hm) as [Dm _].
rewrite E in Dn. congruence.
Qed.

Lemma FormatInt_free n c :
  - 10 ^ 20 < n < 10 ^ 20 -> is_digit c = false -> c <> "-"%char -> has_byte c (FormatInt n) = false.
Proof.
intros Hn Hc Hm. unfold FormatInt. destruct (Z.ltb_spec n 0).
- cbn [has_byte]. rewrite ascii_eqb_ne by done. apply FormatUint_spec; [lia|done].
- apply FormatUint_spec; [lia|done].
Qed.

Lemma FormatInt_inj n m :
  - 10 ^ 20 < n < 10 ^ 20 -> - 10 ^ 20 < m < 10 ^ 20 -> FormatInt n = FormatInt m -> n = m.
Proof.
assert (Hneg : forall x y t, 0 <= y < 10 ^ 20 -> String "-" t = FormatUint y -> x = y).
{ intros x y t Hy E. destruct (FormatUint_spec y Hy) as [_ Hf].
  specialize (Hf "-"%char eq_refl). rewrite <- E in Hf. done. }
intros Hn Hm. unfold FormatInt. destruct (Z.ltb_spec n 0), (Z.ltb_spec m 0); intros E.
- injection E as E. apply FormatUint_inj in E; lia.
- eapply Hneg; [|exact E]. lia.
- symmetry. eapply Hneg; [|symmetry; exact E]. lia.
- apply FormatUint_inj in E; lia.
Qed.

(** The text of a number is the only digit string without a leading zero that
    reads as it. *)
Lemma digits_value acc s n :
  digits acc s = Some n -> exists v, n = acc * 10 ^ Z.of_nat (String.length s) + v /\
    0 <= v < 10 ^ Z.of_nat (String.length s) /\ forall a, digits a s = Some (a * 10 ^ Z.of_nat (String.length s) + v).
Proof.
revert acc n. induction s as [|c s IH]; intros acc n; cbn [digits String.length].
{ intros [= <-]. exists 0. split_and!; [lia|lia|lia|]. intros a. f_equal. lia. }
destruct (is_digit c) eqn:Ec; [|done]. intros Hd.
assert (Hv : 0 <= digit_val c < 10).
{ unfold is_digit, in_range in Ec. apply andb_true_iff in Ec as [E1%Nat.leb_le E2%Nat.leb_le]. unfold digit_val. lia. }
apply IH in Hd as (v & -> & Hr & Ha). rewrite Nat2Z.inj_succ, Z.pow_succ_r by lia.
exists (digit_val c * 10 ^ Z.of_nat (String.length s) + v). split_and!; [lia|nia|nia|].
intros a. rewrite Ha. f_equal. lia.
Qed.

Lemma digits_same_length s t acc n :
  String.length s = String.length t -> digits acc s = Some n -> digits acc t = Some n -> s = t.
Proof.
revert t acc n. induction s as [|c s IH]; intros [|d t] acc n Hl; simpl in Hl; try done.
injection Hl as Hl. cbn [digits]. destruct (is_digit c) eqn:Ec; [|done]. destruct (is_digit d) eqn:Ed; [|done].
intros Hs Ht. assert (c = d) as ->; [|f_equal; by eapply IH].
apply digits_value in Hs as (v & -> & Hv & _). apply digits_value in Ht as (u & E & Hu & _).
rewrite Hl in *. set (k := 10 ^ Z.of_nat (String.length t)) in *.
assert (digit_val c = digit_val d) by nia. unfold digit_val in *.
rewrite <- (ascii_nat_embedding c), <- (ascii_nat_embedding d). f_equal. lia.
Qed.

Definition no_leading_zero (s : string) : Prop := forall t, s = String "0" t -> t = "".

Lemma digits_length s n :
  s <> "" -> no_leading_zero s -> digits 0 s = Some n ->
  n < 10 ^ Z.of_nat (String.length s) /\ (1 < Z.of_nat (String.length s) -> 10 ^ (Z.of_nat (String.length s) - 1) <= n).
Proof.
intros Hne Hz Hd. pose proof (digits_value 0 s n Hd) as (v & -> & Hv & _). split; [lia|].
destruct s as [|c s]; [done|]. intros Hl. cbn [digits] in Hd. destruct (is_digit c) eqn:Ec; [|done].
assert (Hc : 1 <= digit_val c).
{ unfold is_digit, in_range in Ec. apply andb_true_iff in Ec as [E1%Nat.leb_le _].
  unfold digit_val. destruct (Nat.eq_dec (nat_of_ascii c) 48) as [E|E]; [|lia].
  assert (c = "0"%char) as -> by (rewrite <- (ascii_nat_embedding c), E; done).
  rewrite (Hz s eq_refl) in Hl. simpl in Hl. lia. }
apply digits_value in Hd as (u & E & Hu & _). simpl String.length in *.
replace (Z.of_nat (S (String.length s)) - 1) with (Z.of_nat (String.length s)) by lia. nia.
Qed.

Lemma digits_canonical s t n :
  s <> "" -> t <> "" -> no_leading_zero s -> no_leading_zero t ->
  digits 0 s = Some n -> digits 0 t = Some n -> s = t.
Proof.
intros Hs Ht Zs Zt Ds Dt. apply (digits_same_length s t 0 n); [|done|done].
destruct (digits_length s n Hs Zs Ds) as [U1 L1]. destruct (digits_length t n Ht Zt Dt) as [U2 L2].
assert (Hpos : forall x : string, x <> "" -> (0 < String.length x)%nat) by (intros [|]; simpl; [done|lia]).
pose proof (Hpos s Hs). pose proof (Hpos t Ht).
set (a := Z.of_nat (String.length s)) in *. set (b := Z.of_nat (String.length t)) in *.
destruct (Z.lt_trichotomy a b) as [Hlt|[E|Hlt]]; [|lia|].
- assert (10 ^ a <= 10 ^ (b - 1)) by (apply Z.pow_le_mono_r; lia). lia.
- assert (10 ^ b <= 10 ^ (a - 1)) by (apply Z.pow_le_mono_r; lia). lia.
Qed.

Lemma FormatUint_canonical n :
  0 <= n < 10 ^ 20 -> FormatUint n <> "" /\ no_leading_zero (FormatUint n) /\ digits 0 (FormatUint n) = Some n.
Proof.
intros Hn. destruct (format_digits_spec 20 n "" Hn ltac:(lia)) as (ds & k & Hf & Hne & _ & Hz & _ & Hacc).
unfold FormatUint. rewrite Hf, str_app_nil_r. split_and!; [done| |].
- intros t E. by destruct (Hz t E).
- specialize (Hacc 0 ""). by rewrite str_app_nil_r in Hacc.
Qed.
