(* ===== verification/Fields.v ===== *)
(** The configuration struct (src/decode.go): the walk over a struct type that
    finds its sourced fields, the decoding of raw bytes into a field, and the
    reader of a field by its dotted path. Struct types and values are the
    universe [gtype] / [gval]; the payload formats of the flatten tag (json,
    yaml, toml) and mapstructure are parameters. *)

From S2P Require Import Prelude Errors GoStrings Ref Provider Decode GoNumbers.
Open Scope string_scope.
Open Scope Z_scope.

(** * Types and values *)

(** The tags of a field, as [reflect.StructTag] reads them. *)
Definition tags := list (string * string).

Fixpoint tag_Lookup (t : tags) (key : string) : option string :=
  match t with
  | [] => None
  | (k, v) :: t => if bool_decide (k = key) then Some v else tag_Lookup t key
  end.

Definition tag_Get (t : tags) (key : string) : string := default "" (tag_Lookup t key).

(** The kinds of a field the code distinguishes; [TOther] is any other type
    (slices, maps, pointers, interfaces). *)
#[universes(template=no)]
Inductive gtype :=
  | TString
  | TBool
  | TInt (width : Z)
  | TUint (width : Z)
  | TFloat (width : Z)
  | TDuration
  | TSecretString
  | TSecretBytes
  | TByteSlice
  | TStruct (fields : list (string * bool * tags * gtype))
  | TOther (name : string).

(** A field of a struct type: name, exported, tags, type. *)
Abbreviation gfield := (string * bool * tags * gtype)%type.

(** Values; a byte slice (also the one inside a secret) is [None] when it is
    nil, a float is its bits, [VOther] a value of a type the decoder never
    writes. *)
#[universes(template=no)]
Inductive gval :=
  | VString (s : string)
  | VBool (b : bool)
  | VInt (n : Z)
  | VUint (n : Z)
  | VFloat (bits : Z)
  | VSecretString (s : option string)
  | VSecretBytes (s : option string)
  | VBytes (s : option string)
  | VStruct (fields : list (string * bool * gval))
  | VOther (s : string).

(** The zero value of a type. *)
Fixpoint zero_of (t : gtype) : gval :=
  match t with
  | TString => VString ""
  | TBool => VBool false
  | TInt _ | TDuration => VInt 0
  | TUint _ => VUint 0
  | TFloat _ => VFloat 0
  | TSecretString => VSecretString None
  | TSecretBytes => VSecretBytes None
  | TByteSlice => VBytes None
  | TStruct fs => VStruct (map (fun f => (f.1.1.1, f.1.1.2, zero_of f.2)) fs)
  | TOther _ => VOther ""
  end.

(** [type onFailPolicy int]. *)
Inductive onFailPolicy := onFailKeepLast | onFailUseDefault | onFailFail.
#[export] Instance onFailPolicy_eq_dec : EqDecision onFailPolicy.
Proof. solve_decision. Defined.

(** [type fieldSpec struct]. *)
Record fieldSpec := MkSpec {
  spec_Path : string;
  spec_Refs : list Ref;
  spec_Default : string;
  spec_HasDefault : bool;
  spec_Flatten : string;
  spec_Optional : bool;
  spec_Index : list nat;
  spec_Type : gtype;
  spec_Sensitive : bool;
  spec_OnFail : onFailPolicy;
}.

Definition is_secret (t : gtype) : bool :=
  match t with TSecretString | TSecretBytes => true | _ => false end.

Definition is_leaf_struct (t : gtype) : bool :=
  match t with TStruct _ => true | _ => false end.

Definition dotted (prefix name : string) : string :=
  if bool_decide (prefix = "") then name else prefix ++ "." ++ name.

Definition field_error (path msg : string) (causes : list error) : error :=
  EWrap ("mamori: field " ++ path ++ ": " ++ msg) causes.

(** [fmt.Errorf("mamori: field %s: ...: %w", path, err)]. *)
Definition wrapped {A} (path what : string) (r : res A) : res A :=
  res_wrap (fun e => field_error path what [e]) r.

(** * The walk *)

Section walk.
Context (gzip_stream : string -> option (string * bool)).
Context (vars : gmap string string).

(** Every ref of the chain has a well-formed ?decode= option. *)
Fixpoint check_pipelines (path : string) (refs : list Ref) : res unit :=
  match refs with
  | [] => Ok tt
  | r :: refs =>
      match parseDecodePipeline gzip_stream (Ref_Opt r "decode") with
      | Err e => Err (field_error path "" [e])
      | Ok _ => check_pipelines path refs
      end
  end.

(** The onfail tag. *)
Definition parse_onfail (path : string) (tag : option string) (hasDefault : bool)
    : res onFailPolicy :=
  match tag with
  | None => Ok onFailKeepLast
  | Some t =>
      if bool_decide (t = "keeplast") then Ok onFailKeepLast
      else if bool_decide (t = "default") then
        if hasDefault then Ok onFailUseDefault
        else Err (field_error path "onfail:default requires a default: tag" [])
      else if bool_decide (t = "fail") then Ok onFailFail
      else Err (field_error path "unknown onfail" [])
  end.

(** One sourced field of the walk, in the order of the code's checks. *)
Definition walk_leaf (path : string) (index : list nat) (t : tags) (ty : gtype)
    (source : string) : res fieldSpec :=
  match expandRefVars source vars with
  | Err e => Err (field_error path "" [e])
  | Ok source =>
      match ParseRefs source with
      | Err e => Err (field_error path "" [e])
      | Ok refs =>
          match check_pipelines path refs with
          | Err e => Err e
          | Ok _ =>
              let def := tag_Lookup t "default" in
              match parse_onfail path (tag_Lookup t "onfail") (bool_decide (is_Some def)) with
              | Err e => Err e
              | Ok onFail =>
                  let flatten := tag_Get t "flatten" in
                  if is_leaf_struct ty && bool_decide (flatten = "") then
                    Err (field_error path "struct with a source but no flatten tag" [])
                  else
                    Ok (MkSpec path refs (default "" def) (bool_decide (is_Some def)) flatten
                          (bool_decide (tag_Get t "optional" = "true")) index ty
                          (is_secret ty) onFail)
              end
          end
      end
  end.

(** The loop of [walkSpecs] over the fields of a struct, from index [i] on,
    with the recursive call it makes for a container (a struct field without a
    source). *)
Section fields.
Context (walk : gtype -> string -> list nat -> res (list fieldSpec)).
Context (prefix : string) (index : list nat).

Definition walk_field (i : nat) (f : gfield) : res (list fieldSpec) :=
  let '(name, exported, t, fty) := f in
  let path := dotted prefix name in
  let idx := (index ++ [i])%list in
  if negb exported then Ok []
  else
    match tag_Lookup t "source" with
    | None => if is_leaf_struct fty then walk fty path idx else Ok []
    | Some source => (fun s => [s]) <$> walk_leaf path idx t fty source
    end.

Fixpoint walk_fields (fs : list gfield) (i : nat) : res (list fieldSpec) :=
  match fs with
  | [] => Ok []
  | f :: fs =>
      match walk_field i f with
      | Err e => Err e
      | Ok specs => (fun rest => (specs ++ rest)%list) <$> walk_fields fs (S i)
      end
  end.
End fields.

(** [func walkSpecs(t, prefix, index, vars)]. *)
Fixpoint walk_type (ty : gtype) (prefix : string) (index : list nat) : res (list fieldSpec) :=
  match ty with
  | TStruct fs => walk_fields walk_type prefix index fs 0
  | _ => Err (EOpaque "mamori: config type is not a struct")
  end.

(** [func fieldSpecs(t reflect.Type, vars)]. *)
Definition fieldSpecs (ty : gtype) : res (list fieldSpec) := walk_type ty "" [].
End walk.

(** * Decoding *)

(** The value of the field a path of indices leads to. *)
Fixpoint field_get (idx : list nat) (v : gval) : option gval :=
  match idx with
  | [] => Some v
  | i :: idx =>
      match v with
      | VStruct fs => fs !! i ≫= fun f => field_get idx f.2
      | _ => None
      end
  end.

(** The struct with the field a path of indices leads to replaced. *)
Fixpoint field_set (idx : list nat) (x v : gval) : option gval :=
  match idx with
  | [] => Some x
  | i :: idx =>
      match v with
      | VStruct fs =>
          match fs !! i with
          | None => None
          | Some f => (fun y => VStruct (<[i := (f.1, y)]> fs)) <$> field_set idx x f.2
          end
      | _ => None
      end
  end.

Section decode_field.
(** Floating point: [strconv.ParseFloat(s, 64)], the rounding of a float64 to
    a width, and the fractional part of a duration. *)
Context (ParseFloat : string -> option Z) (round_float : Z -> Z -> Z).
Context (fraction : Z -> Z -> Z -> Z).

(** The payload formats and mapstructure, with the decode hooks of the call
    composed in: a document as a map of [Any], and the decoding of such a map
    into a field that holds [old]. *)
Context {Any : Type} (any_string : string -> Any).
Context (json_Unmarshal yaml_Unmarshal toml_Unmarshal : string -> res (gmap string Any)).
Context (mapstructure_Decode : gtype -> gval -> gmap string Any -> res gval).

Definition parse_or {A} (spec : fieldSpec) (what : string) (o : option A) (f : A -> gval) : res gval :=
  match o with
  | Some a => Ok (f a)
  | None => Err (field_error (spec_Path spec) ("invalid " ++ what) [EOpaque "strconv"])
  end.

(** [append([]byte(nil), raw...)]: nil for no bytes. *)
Definition clone_bytes (raw : string) : option string :=
  if bool_decide (raw = "") then None else Some raw.

(** [func decodeScalar]: [SetInt], [SetUint] and [SetFloat] store at the width
    of the field. *)
Definition decodeScalar (spec : fieldSpec) (raw : string) : res gval :=
  let s := TrimSpace raw in
  match spec_Type spec with
  | TSecretString => Ok (VSecretString (clone_bytes raw))
  | TSecretBytes => Ok (VSecretBytes (clone_bytes raw))
  | TByteSlice => Ok (VBytes (clone_bytes raw))
  | TDuration => parse_or spec "duration" (ParseDuration fraction s) VInt
  | TString => Ok (VString raw)
  | TBool => parse_or spec "bool" (ParseBool s) VBool
  | TInt w => parse_or spec "int" (ParseInt s) (fun n => VInt (wrap_int w n))
  | TUint w => parse_or spec "uint" (ParseUint s) (fun n => VUint (wrap_uint w n))
  | TFloat w => parse_or spec "float" (ParseFloat s) (fun x => VFloat (round_float w x))
  | TStruct _ | TOther _ => Err (field_error (spec_Path spec) "unsupported type" [])
  end.

(** The lines of [parseEnvPayload]: the last setting of a key wins. *)
Fixpoint env_lines (lines : list string) (m : gmap string Any) : gmap string Any :=
  match lines with
  | [] => m
  | line :: lines =>
      let line := TrimSpace line in
      if bool_decide (line = "") || HasPrefix line "#" then env_lines lines m
      else
        match Cut line "=" with
        | None => env_lines lines m
        | Some (k, v) => env_lines lines (<[TrimSpace k := any_string (TrimSpace v)]> m)
        end
  end.

Definition parseEnvPayload (raw : string) : gmap string Any :=
  env_lines (Split raw "010") ∅.

(** [func decodeFlatten]. *)
Definition decodeFlatten (spec : fieldSpec) (old : gval) (raw : string) : res gval :=
  let path := spec_Path spec in
  let m :=
    if bool_decide (spec_Flatten spec = "json") then wrapped path "json flatten" (json_Unmarshal raw)
    else if bool_decide (spec_Flatten spec = "yaml") then wrapped path "yaml flatten" (yaml_Unmarshal raw)
    else if bool_decide (spec_Flatten spec = "toml") then wrapped path "toml flatten" (toml_Unmarshal raw)
    else if bool_decide (spec_Flatten spec = "env") then Ok (parseEnvPayload raw)
    else Err (field_error path "unknown flatten" []) in
  match m with
  | Err e => Err e
  | Ok m => wrapped path "flatten decode" (mapstructure_Decode (spec_Type spec) old m)
  end.

(** [func setField(root, spec, raw, hooks)]. *)
Definition setField (spec : fieldSpec) (raw : string) (root : gval) : res gval :=
  match field_get (spec_Index spec) root with
  | None => Err (field_error (spec_Path spec) "is not settable" [])
  | Some old =>
      let dec :=
        if negb (bool_decide (spec_Flatten spec = "")) then decodeFlatten spec old raw
        else decodeScalar spec raw in
      match dec with
      | Err e => Err e
      | Ok x =>
          match field_set (spec_Index spec) x root with
          | Some root => Ok root
          | None => Err (field_error (spec_Path spec) "is not settable" [])
          end
      end
  end.
End decode_field.

(** * Reading by path *)

Fixpoint field_named (name : string) (fs : list (string * bool * gval)) : option (bool * gval) :=
  match fs with
  | [] => None
  | (n, exported, v) :: fs =>
      if bool_decide (n = name) then Some (exported, v) else field_named name fs
  end.

(** The walk of [fieldByPath] over the segments; the flag says whether every
    field on the way was exported ([CanInterface]). *)
Fixpoint field_walk (parts : list string) (readable : bool) (v : gval) : option (bool * gval) :=
  match parts with
  | [] => Some (readable, v)
  | p :: parts =>
      match v with
      | VStruct fs =>
          match field_named p fs with
          | Some (exported, x) => field_walk parts (readable && exported) x
          | None => None
          end
      | _ => None
      end
  end.

(** [func fieldByPath(root, path)]. *)
Definition fieldByPath (root : gval) (path : string) : option (bool * gval) :=
  field_walk (Split path ".") true root.

(** * Facts *)

(** Writing a field and reading it back. *)
Lemma field_get_set idx x v v' : field_set idx x v = Some v' -> field_get idx v' = Some x.
Proof.
  revert v v'. induction idx as [|i idx IH]; intros v v'; simpl; [by intros [= ->]|].
  destruct v; try done. destruct (fields !! i) as [f|] eqn:Ef; [|done].
  destruct (field_set idx x f.2) as [y|] eqn:Es; simpl; [|done]. intros [= <-]. simpl.
  rewrite list_lookup_insert_eq by (by eapply lookup_lt_Some). simpl. eauto.
Qed.

Lemma field_set_Some idx x v old : field_get idx v = Some old -> is_Some (field_set idx x v).
Proof.
  revert v. induction idx as [|i idx IH]; intros v; simpl; [by eexists|].
  destruct v; try done. destruct (fields !! i) as [f|] eqn:Ef; simpl; [|done].
  intros H. destruct (IH _ H) as [y ->]. by eexists.
Qed.

(** Two fields of which neither contains the other do not disturb each other. *)
Lemma field_get_set_ne idx idx' x v v' :
  field_set idx x v = Some v' -> ~ idx `prefix_of` idx' -> ~ idx' `prefix_of` idx ->
  field_get idx' v' = field_get idx' v.
Proof.
  revert idx' v v'. induction idx as [|i idx IH]; intros idx' v v' Hs Hp Hp'.
  { exfalso. apply Hp, prefix_nil. }
  destruct idx' as [|j idx']; [exfalso; apply Hp', prefix_nil|].
  simpl in *. destruct v; try done. destruct (fields !! i) as [f|] eqn:Ef; [|done].
  destruct (field_set idx x f.2) as [y|] eqn:Es; simpl in Hs; [|done]. injection Hs as <-.
  destruct (decide (i = j)) as [->|Hne].
  - rewrite list_lookup_insert_eq by (by eapply lookup_lt_Some). rewrite Ef. simpl.
    eapply IH; [done|..]; intros H; [apply Hp|apply Hp']; by apply prefix_cons.
  - by rewrite list_lookup_insert_ne.
Qed.

(** ** What the walk returns *)

(** Induction over struct types. *)
Lemma gtype_ind' (P : gtype -> Prop) :
  (forall fs, Forall (fun f => P f.2) fs -> P (TStruct fs)) ->
  (forall t, is_leaf_struct t = false -> P t) ->
  forall t, P t.
Proof.
  intros Hs Ho. fix IH 1. intros t. destruct t; try (by apply Ho).
  apply Hs. induction fields as [|f fs IHf]; constructor; [apply IH|exact IHf].
Qed.

(** A Go field name: not empty, no dot. *)
Definition plain_name (n : string) : Prop := n <> "" /\ has_byte "." n = false.

(** A struct type of Go: the names of its fields are distinct. *)
Fixpoint wf_type (t : gtype) : Prop :=
  match t with
  | TStruct fs =>
      NoDup (map (fun f => f.1.1.1) fs) /\
      (fix all (fs : list gfield) : Prop :=
         match fs with
         | [] => True
         | f :: fs => plain_name f.1.1.1 /\ wf_type f.2 /\ all fs
         end) fs
  | _ => True
  end.

(** What [walkSpecs] establishes of a spec on its own. *)
Record leaf_ok (gz : string -> option (string * bool)) (s : fieldSpec) : Prop := {
  leaf_refs : spec_Refs s <> [];
  leaf_onfail : spec_OnFail s = onFailUseDefault -> spec_HasDefault s = true;
  leaf_sensitive : spec_Sensitive s = is_secret (spec_Type s);
  leaf_pipelines :
    Forall (fun r => is_ok (parseDecodePipeline gz (Ref_Opt r "decode")) = true) (spec_Refs s);
}.

Lemma parse_parts_nonempty ps rs : ps <> [] -> parse_parts ps = Ok rs -> rs <> [].
Proof.
  destruct ps as [|p ps]; [done|]. simpl.
  destruct (ParseRef p); [|done]. destruct (parse_parts ps); [|done]. by intros _ [= <-].
Qed.

Lemma ParseRefs_nonempty s rs : ParseRefs s = Ok rs -> rs <> [].
Proof.
  unfold ParseRefs. case_bool_decide; [done|]. apply parse_parts_nonempty, splitChain_nonempty.
Qed.

Lemma check_pipelines_ok gz path refs :
  check_pipelines gz path refs = Ok tt ->
  Forall (fun r => is_ok (parseDecodePipeline gz (Ref_Opt r "decode")) = true) refs.
Proof.
  induction refs as [|r refs IH]; simpl; [constructor|].
  destruct (parseDecodePipeline gz (Ref_Opt r "decode")) eqn:E; [|done].
  intros. constructor; [by rewrite E|auto].
Qed.

Lemma walk_leaf_ok gz vars path idx t ty source s :
  walk_leaf gz vars path idx t ty source = Ok s ->
  leaf_ok gz s /\ spec_Path s = path /\ spec_Index s = idx /\ spec_Type s = ty.
Proof.
  unfold walk_leaf. destruct (expandRefVars source vars) as [src|]; [|done].
  destruct (ParseRefs src) as [refs|] eqn:Er; [|done].
  destruct (check_pipelines gz path refs) as [[]|] eqn:Ec; [|done].
  destruct (parse_onfail path _ _) as [onf|] eqn:Eo; [|done].
  case_match; [done|]. intros [= <-]. split_and!; try done. split; simpl; try done.
  - by eapply ParseRefs_nonempty.
  - intros ->. unfold parse_onfail in Eo. repeat case_match; congruence.
  - by eapply check_pipelines_ok.
Qed.

(** A spec found below a type, at the field names [ns] and field numbers
    [sub]. *)
Record found (gz : string -> option (string * bool)) (ty : gtype) (pre : list string)
    (idx : list nat) (ns : list string) (sub : list nat) (s : fieldSpec) : Prop := {
  found_leaf : leaf_ok gz s;
  found_names : ns <> [] /\ Forall plain_name ns;
  found_path : spec_Path s = Join (pre ++ ns)%list ".";
  found_index : spec_Index s = (idx ++ sub)%list;
  found_get : field_get sub (zero_of ty) = Some (zero_of (spec_Type s));
  found_walk : field_walk ns true (zero_of ty) = Some (true, zero_of (spec_Type s));
}.

(** Two specs at different places. *)
Definition apart (x y : list string * list nat) : Prop :=
  x.1 <> y.1 /\ ~ x.2 `prefix_of` y.2 /\ ~ y.2 `prefix_of` x.2.

Lemma dotted_Join pre n :
  Forall plain_name pre -> dotted (Join pre ".") n = Join (pre ++ [n])%list ".".
Proof.
  intros Hpre. unfold dotted. destruct pre as [|p pre]; [done|].
  rewrite bool_decide_eq_false_2.
  2:{ apply Forall_cons in Hpre as [[Hp _] _]. destruct pre; simpl; [done|]. by destruct p. }
  clear Hpre. revert p. induction pre as [|q pre IH]; intros p; [done|].
  rewrite (Join_cons p) by done. rewrite <- !str_app_assoc, (str_app_assoc "." _), str_app_assoc.
  change ((p :: q :: pre) ++ [n])%list with (p :: (q :: pre) ++ [n])%list.
  rewrite (Join_cons p ((q :: pre) ++ [n])%list) by done.
  rewrite <- (IH q). by rewrite <- !str_app_assoc.
Qed.

Definition zero_field (f : gfield) : string * bool * gval := (f.1.1.1, f.1.1.2, zero_of f.2).

Lemma field_named_zero (fs : list gfield) i f :
  NoDup (map (fun f => f.1.1.1) fs) -> fs !! i = Some f ->
  field_named f.1.1.1 (map zero_field fs) = Some (f.1.1.2, zero_of f.2).
Proof.
  revert i. induction fs as [|g fs IH]; intros i Hnd Hi; [done|].
  apply NoDup_cons in Hnd as [Hg Hnd]. destruct i as [|i]; simpl in *.
  - injection Hi as ->. by rewrite bool_decide_eq_true_2.
  - rewrite bool_decide_eq_false_2; [by apply (IH i)|].
    intros E. apply Hg. rewrite E. apply list_elem_of_In, in_map_iff.
    exists f. split; [done|]. apply list_elem_of_In. by eapply list_elem_of_lookup_2.
Qed.

(** A spec found below field [i] is a spec of the whole struct. *)
Lemma found_field gz (fs : list gfield) i f pre idx ns sub s :
  NoDup (map (fun f => f.1.1.1) fs) -> fs !! i = Some f ->
  f.1.1.2 = true -> plain_name f.1.1.1 ->
  leaf_ok gz s -> Forall plain_name ns ->
  spec_Path s = Join (pre ++ f.1.1.1 :: ns)%list "." -> spec_Index s = (idx ++ i :: sub)%list ->
  field_get sub (zero_of f.2) = Some (zero_of (spec_Type s)) ->
  field_walk ns true (zero_of f.2) = Some (true, zero_of (spec_Type s)) ->
  found gz (TStruct fs) pre idx (f.1.1.1 :: ns) (i :: sub) s.
Proof.
  intros Hnd Hi Hexp Hplain Hl Hns Hp Hx Hg Hw. split; try done.
  - split; [done|]. by constructor.
  - simpl. rewrite list_lookup_fmap, Hi. simpl. done.
  - change (zero_of (TStruct fs)) with (VStruct (map zero_field fs)). simpl.
    rewrite (field_named_zero fs i f), Hexp by done. done.
Qed.

Definition at_field (fs : list gfield) (i : nat) (p : list string * list nat) : Prop :=
  exists j f ns sub, fs !! j = Some f /\ p = (f.1.1.1 :: ns, (i + j)%nat :: sub).

Lemma at_field_apart (f : gfield) fs i ns sub q :
  NoDup (map (fun f => f.1.1.1) (f :: fs)) -> at_field fs (S i) q ->
  apart (f.1.1.1 :: ns, i :: sub) q.
Proof.
  intros [Hf _]%NoDup_cons (j & g & ns' & sub' & Hj & ->). split_and!; simpl.
  - intros [= E _]. apply Hf. rewrite E. apply list_elem_of_In, in_map_iff. exists g.
    split; [done|]. apply list_elem_of_In. by eapply list_elem_of_lookup_2.
  - intros Hp%prefix_cons_inv_1. lia.
  - intros Hp%prefix_cons_inv_1. lia.
Qed.

Lemma at_field_S (f : gfield) fs i p : at_field fs (S i) p -> at_field (f :: fs) i p.
Proof.
  intros (j & g & ns & sub & Hj & ->). exists (S j), g, ns, sub.
  split; [done|]. do 2 f_equal. lia.
Qed.

(** One field of the walk. *)
Lemma walk_field_found gz vars (fs : list gfield) i name exported t fty pre idx specs :
  (forall pre idx specs, Forall plain_name pre -> wf_type fty ->
     walk_type gz vars fty (Join pre ".") idx = Ok specs ->
     exists ps, Forall2 (fun p s => found gz fty pre idx p.1 p.2 s) ps specs /\
                ForallOrdPairs apart ps) ->
  NoDup (map (fun f => f.1.1.1) fs) -> fs !! i = Some (name, exported, t, fty) ->
  plain_name name -> wf_type fty -> Forall plain_name pre ->
  walk_field gz vars (walk_type gz vars) (Join pre ".") idx i (name, exported, t, fty) = Ok specs ->
  exists ps : list (list string * list nat),
    Forall2 (fun p s => found gz (TStruct fs) pre idx p.1 p.2 s) ps specs /\
    ForallOrdPairs apart ps /\
    Forall (fun p => exists ns sub, p = (name :: ns, i :: sub)) ps.
Proof.
  intros IH Hnd Hi Hplain Hwf Hpre. unfold walk_field. destruct exported; simpl.
  2:{ intros [= <-]. exists []. split_and!; constructor. }
  rewrite dotted_Join by done.
  destruct (tag_Lookup t "source") as [source|].
  - destruct (walk_leaf gz vars _ _ _ _ _) as [s|] eqn:El; simpl; [|done]. intros [= <-].
    apply walk_leaf_ok in El as (Hl & Hp & Hx & Ht).
    exists [([name], [i])].
    split_and!; [constructor; [|constructor] | repeat constructor | constructor; [eauto|constructor]].
    apply (found_field gz fs i (name, true, t, fty)); simpl; try done; by rewrite Ht.
  - destruct (is_leaf_struct fty).
    2:{ intros [= <-]. exists []. split_and!; constructor. }
    intros Hw.
    assert (Hpre' : Forall plain_name (pre ++ [name])%list).
    { apply Forall_app. split; [done|]. by constructor. }
    destruct (IH _ _ _ Hpre' Hwf Hw) as (ps & Hps & Hap).
    exists (map (fun p => (name :: p.1, i :: p.2)) ps). split_and!.
    + apply Forall2_fmap_l. eapply Forall2_impl; [exact Hps|].
      intros [ns sub] s [Hl [Hne Hns] Hp Hx Hg Hwk]; simpl in *.
      apply (found_field gz fs i (name, true, t, fty)); simpl; try done.
      * by rewrite Hp, <- app_assoc.
      * by rewrite Hx, <- app_assoc.
    + apply ForallOrdPairs_map. eapply ForallOrdPairs_impl; [|exact Hap].
      intros [n1 s1] [n2 s2] (H1 & H2 & H3); simpl in *. split_and!; simpl.
      * by intros [= ->].
      * by intros ?%prefix_cons_inv_2.
      * by intros ?%prefix_cons_inv_2.
    + apply Forall_forall. intros p [q [-> _]]%list_elem_of_fmap. eauto.
Qed.

Lemma walk_type_found gz vars ty :
  forall pre idx specs, Forall plain_name pre -> wf_type ty ->
  walk_type gz vars ty (Join pre ".") idx = Ok specs ->
  exists ps, Forall2 (fun p s => found gz ty pre idx p.1 p.2 s) ps specs /\ ForallOrdPairs apart ps.
Proof.
  induction ty as [all IH|ty Hty] using gtype_ind'.
  2:{ intros pre idx specs _ _. destruct ty; done. }
  intros pre idx specs Hpre [Hnd Hwf]. simpl.
  cut (forall fs i specs, fs = drop i all ->
    walk_fields gz vars (walk_type gz vars) (Join pre ".") idx fs i = Ok specs ->
    exists ps, Forall2 (fun p s => found gz (TStruct all) pre idx p.1 p.2 s) ps specs /\
      ForallOrdPairs apart ps /\ Forall (at_field fs i) ps).
  { intros H Hw. destruct (H all 0%nat specs eq_refl Hw) as (ps & ? & ? & _). eauto. }
  assert (Hall : forall i f, all !! i = Some f -> plain_name f.1.1.1 /\ wf_type f.2).
  { clear -Hwf. induction all as [|g all IHall]; intros i f; [done|].
    destruct Hwf as (? & ? & Hwf). destruct i as [|i]; simpl; [by intros [= ->]|].
    intros Hi. by apply (IHall Hwf i). }
  clear Hwf specs. intros fs. induction fs as [|f fs IHfs]; intros i specs Hd.
  { simpl. intros [= <-]. exists []. split_and!; constructor. }
  assert (Hi : all !! i = Some f) by (by rewrite <- (Nat.add_0_r i), <- lookup_drop, <- Hd).
  assert (Hd' : fs = drop (S i) all).
  { rewrite <- Nat.add_1_r, <- drop_drop, <- Hd. done. }
  assert (Hndf : NoDup (map (fun f => f.1.1.1) (f :: fs))).
  { rewrite Hd. eapply sublist_NoDup; [exact Hnd|]. apply (fmap_sublist _ (drop i all) all), sublist_drop. }
  simpl. destruct (walk_field gz vars (walk_type gz vars) (Join pre ".") idx i f) as [here|] eqn:Eh; [|done].
  destruct (walk_fields gz vars (walk_type gz vars) (Join pre ".") idx fs (S i)) as [rest|] eqn:Er; [|done].
  simpl. intros [= <-].
  destruct (IHfs (S i) rest Hd' Er) as (ps2 & H2 & A2 & F2).
  destruct (Hall i f Hi) as [Hplain Hwf]. rewrite Forall_lookup in IH.
  destruct f as [[[name exported] t] fty].
  destruct (walk_field_found gz vars all i name exported t fty pre idx here (IH i _ Hi))
    as (ps1 & H1 & A1 & F1); try done.
  exists (ps1 ++ ps2)%list. split_and!.
  - by apply Forall2_app.
  - apply ForallOrdPairs_app; [done..|]. intros x y Hx Hy.
    rewrite Forall_forall in F1, F2. destruct (F1 x Hx) as (ns & sub & ->).
    apply (at_field_apart (name, exported, t, fty) fs); auto.
  - apply Forall_app. split.
    + eapply Forall_impl; [exact F1|]. intros p (ns & sub & ->).
      exists 0%nat, (name, exported, t, fty), ns, sub. split; [done|].
      do 2 f_equal. lia.
    + eapply Forall_impl; [exact F2|]. intros p. apply at_field_S.
Qed.

(** * Properties *)

(** C23. The walk over a config struct returns a well-formed plan: every spec
    has at least one ref and a parsable decode option on each, an onfail of
    "default" only with a default, distinct dotted paths that lead (by name and
    by index) to the field of the spec's type, and no two specs whose fields
    overlap. *)
Theorem fieldSpecs_sound gz vars ty specs :
  wf_type ty -> fieldSpecs gz vars ty = Ok specs ->
  Forall (leaf_ok gz) specs /\
  NoDup (map spec_Path specs) /\
  Forall (fun s => fieldByPath (zero_of ty) (spec_Path s) = Some (true, zero_of (spec_Type s)) /\
                   field_get (spec_Index s) (zero_of ty) = Some (zero_of (spec_Type s))) specs /\
  ForallOrdPairs (fun s s' => ~ spec_Index s `prefix_of` spec_Index s' /\
                              ~ spec_Index s' `prefix_of` spec_Index s) specs.
Proof.
  intros Hwf Hs. unfold fieldSpecs in Hs.
  apply (walk_type_found gz vars ty []) in Hs as (ps & Hps & Hap); [|constructor|done].
  assert (HF : Forall (fun s => exists ns sub, found gz ty [] [] ns sub s) specs).
  { eapply Forall2_Forall_r; [exact Hps|]. apply Forall_true. eauto. }
  split_and!.
  - eapply Forall_impl; [exact HF|]. by intros s (ns & sub & []).
  - apply ForallOrdPairs_ne_NoDup, ForallOrdPairs_map.
    eapply (ForallOrdPairs_Forall2 apart); [|exact Hps|exact Hap].
    intros p q s s' [_ [Hn Hn1] Hp _ _ _] [_ [Hn' Hn1'] Hp' _ _ _] (Hne & _) E. apply Hne.
    rewrite Hp, Hp' in E. simpl in E.
    rewrite <- (Split_Join p.1 "."), <- (Split_Join q.1 "."), E; try done.
    + eapply Forall_impl; [exact Hn1'|]. by intros ? [].
    + eapply Forall_impl; [exact Hn1|]. by intros ? [].
  - eapply Forall_impl; [exact HF|]. intros s (ns & sub & [_ [Hn Hn1] Hp Hi Hg Hw]). split.
    + unfold fieldByPath. rewrite Hp. simpl. rewrite Split_Join; [done|done|].
      eapply Forall_impl; [exact Hn1|]. by intros ? [].
    + by rewrite Hi.
  - eapply (ForallOrdPairs_Forall2 apart); [|exact Hps|exact Hap].
    intros p q s s' [_ _ _ Hi _ _] [_ _ _ Hi' _ _] (_ & H1 & H2). by rewrite Hi, Hi'.
Qed.

Definition example_type : gtype :=
  TStruct [ ("Port", true, [("source", "env:PORT, aws-ps://svc/port"); ("default", "80"); ("onfail", "default")], TInt 64);
            ("secret", false, [], TString);
            ("DB", true, [], TStruct [("Pass", true, [("source", "vault://kv/${ENV}#pw?decode=base64")], TSecretString);
                                      ("Pool", true, [("source", "env:POOL"); ("optional", "true")], TInt 8)]) ].

Lemma fieldSpecs_sound_witness :
  exists specs, fieldSpecs (fun s => Some (s, true)) {["ENV" := "prod"]} example_type = Ok specs /\
    map spec_Path specs = ["Port"; "DB.Pass"; "DB.Pool"] /\ NoDup (map spec_Path specs).
Proof.
  eexists. split; [vm_compute; reflexivity|]. split; [reflexivity|].
  apply (fieldSpecs_sound (fun s => Some (s, true)) {["ENV" := "prod"]} example_type).
  - simpl. repeat (split || constructor || set_solver || done).
  - vm_compute. reflexivity.
Defined.

(** Scalars are stored at the width of their field with no range check:
    an integer that fits is stored as it is written, and one that does not fit
    is silently replaced by another number (the low bits), with no error. *)
Theorem decodeScalar_int_width pf rf fr spec w raw n :
  spec_Type spec = TInt w -> 0 < w -> ParseInt (TrimSpace raw) = Some n ->
  decodeScalar pf rf fr spec raw = Ok (VInt (wrap_int w n)) /\
  (fits_int w n = true <-> wrap_int w n = n).
Proof.
  intros Ht Hw Hp. unfold decodeScalar. rewrite Ht, Hp. split; [done|].
  split; [by apply wrap_int_fits|]. intros H. rewrite <- H. by apply wrap_int_range.
Qed.

Lemma decodeScalar_int_width_witness :
  decodeScalar (fun _ => None) (fun _ x => x) (fun _ _ _ => 0)
    (MkSpec "Pool" [] "" false "" false [] (TInt 8) false onFailKeepLast) " 300 " = Ok (VInt 44).
Proof.
  apply (decodeScalar_int_width (fun _ => None) (fun _ x => x) (fun _ _ _ => 0)
    (MkSpec "Pool" [] "" false "" false [] (TInt 8) false onFailKeepLast) 8 " 300 " 300);
    [reflexivity | lia | vm_compute; reflexivity].
Defined.
