(* ===== verification/Resolve.v ===== *)
(** Resolving refs, chains and whole structs once (src/resolve.go), the
    one-shot [Resolve] (src/resolveref.go) and the decoding of the resolved
    values into the config struct ([buildInto], src/reconcile.go). *)

From S2P Require Import Prelude Errors GoStrings Ref Provider Decode Fields.
Open Scope string_scope.

(** [defaultValueVersion]. *)
Definition defaultValueVersion : string := "default".

(** [type resolved struct]. *)
Record resolved := MkResolved {
  r_spec : fieldSpec;
  r_value : Value;
  r_found : bool;
  r_set : bool;
}.

Definition unresolved (s : fieldSpec) : resolved := MkResolved s zero_Value false false.

(** [resolved] values of a default and of a found value. *)
Definition default_value (s : fieldSpec) : Value :=
  MkValue (spec_Default s) defaultValueVersion (spec_Sensitive s) 0 ∅.

Definition mark_sensitive (sensitive : bool) (v : Value) : Value :=
  if sensitive then MkValue (val_Bytes v) (val_Version v) true (val_NotAfter v) (val_Metadata v)
  else v.

(** [func setResolved(r *resolved, val Value)]. *)
Definition setResolved (r : resolved) (val : Value) : resolved :=
  MkResolved (r_spec r) (mark_sensitive (spec_Sensitive (r_spec r)) val) true true.

Definition head_ref (s : fieldSpec) : Ref := default (MkRef "" "" "" ∅ "") (head (spec_Refs s)).

Definition ref_error (r : Ref) (e : error) : error := ProviderError (ref_Scheme r) (Redacted r) e.

Definition not_found_error (s : fieldSpec) : error := ref_error (head_ref s) (ESentinel ErrNotFound).

(** [func applyDefault(r *resolved) error]. *)
Definition applyDefault (r : resolved) : res resolved :=
  let s := r_spec r in
  if spec_HasDefault s then Ok (MkResolved s (default_value s) false true)
  else if spec_Optional s then Ok (MkResolved s (r_value r) false false)
  else Err (not_found_error s).

(** [func applyOnFail(r *resolved, terminal error) error]. *)
Definition applyOnFail (r : resolved) (terminal : error) : res resolved :=
  let s := r_spec r in
  if bool_decide (spec_OnFail s = onFailUseDefault) then
    Ok (MkResolved s (default_value s) false true)
  else Err terminal.

Definition err_of {A} (r : res A) : option error :=
  match r with Ok _ => None | Err e => Some e end.

Section resolve.
Context {W : Type} `{Env W}.
Context (gzip_stream : string -> option (string * bool)).
(** [o.provider(scheme)]. *)
Context (provider : string -> option (Provider W)).

(** [func resolveRef(ctx, ref, o) (Value, error)]. *)
Definition resolveRef (ref : Ref) (w : W) : W * res Value :=
  match provider (ref_Scheme ref) with
  | None => (w, Err (ref_error ref (ESentinel ErrInvalid)))
  | Some p =>
      let start := now w in
      let w := observe (ObsSpan (ref_Scheme ref) (Redacted ref)) w in
      let '(w, got) := prov_Resolve p ref w in
      let w := observe (ObsFinish (err_of got)) w in
      let w := observe (ObsResolve (ref_Scheme ref) (Sub (now w) start) (err_of got)) w in
      match got with
      | Err e => (w, Err (ref_error ref e))
      | Ok val => (w, res_wrap (ref_error ref) (applyDecode gzip_stream ref val))
      end
  end.

(** The loop of [resolveChain] from position [i] on. *)
Fixpoint chain_loop (i : nat) (refs : list Ref) (w : W) : W * res (option (Value * nat)) :=
  match refs with
  | [] => (w, Ok None)
  | ref :: refs =>
      let '(w, r) := resolveRef ref w in
      match r with
      | Ok val => (w, Ok (Some (val, i)))
      | Err e => if errors_Is e ErrNotFound then chain_loop (S i) refs w else (w, Err e)
      end
  end.

(** [func resolveChain(ctx, refs, o) (Value, int, error)]; the index of the
    winner is returned with the value. *)
Definition resolveChain (refs : list Ref) (w : W) : W * res (Value * nat) :=
  let '(w, r) := chain_loop 0 refs w in
  match r with
  | Err e => (w, Err e)
  | Ok (Some vi) => (w, Ok vi)
  | Ok None =>
      let first := default (MkRef "" "" "" ∅ "") (head refs) in
      (w, Err (ref_error first (ESentinel ErrNotFound)))
  end.

(** What [resolveOne] makes of the terminal outcome of a chain. *)
Definition settle (r : resolved) (out : res (Value * nat)) : res resolved :=
  match out with
  | Ok (val, _) => Ok (setResolved r val)
  | Err e => if errors_Is e ErrNotFound then applyDefault r else applyOnFail r e
  end.

(** [func resolveOne(ctx, r, o) error]. *)
Definition resolveOne (r : resolved) (w : W) : W * res resolved :=
  let '(w, out) := resolveChain (spec_Refs (r_spec r)) w in (w, settle r out).

(** What [resolveBatchScheme] makes of one entry of the answer. *)
Definition settle_batch (got : gmap string Value) (r : resolved) : res resolved :=
  let ref := head_ref (r_spec r) in
  match got !! ref_Raw ref with
  | None => applyDefault r
  | Some val =>
      match applyDecode gzip_stream ref val with
      | Err e => applyOnFail r (ref_error ref e)
      | Ok dec => Ok (setResolved r dec)
      end
  end.

(** The loop over the indices of a batch, updating [out] in place. *)
Fixpoint batch_loop (got : gmap string Value) (idxs : list nat) (out : list resolved)
    : res (list resolved) :=
  match idxs with
  | [] => Ok out
  | i :: idxs =>
      match out !! i with
      | None => Ok out
      | Some r =>
          match settle_batch got r with
          | Err e => Err e
          | Ok r => batch_loop got idxs (<[i := r]> out)
          end
      end
  end.

Definition batch_refs (idxs : list nat) (out : list resolved) : list Ref :=
  omap (fun i => (fun r => head_ref (r_spec r)) <$> out !! i) idxs.

(** [func resolveBatchScheme(ctx, bp, scheme, idxs, out, o) error]. *)
Definition resolveBatchScheme (resolveBatch : list Ref -> W -> W * res (gmap string Value))
    (scheme : string) (idxs : list nat) (out : list resolved) (w : W)
    : W * res (list resolved) :=
  let start := now w in
  let '(w, got) := resolveBatch (batch_refs idxs out) w in
  let w := observe (ObsResolve scheme (Sub (now w) start) (err_of got)) w in
  match got with
  | Err e => (w, Err (ProviderError scheme "batch" e))
  | Ok got => (w, batch_loop got idxs out)
  end.

(** [resolveOne] on each index in turn. *)
Fixpoint each_loop (idxs : list nat) (out : list resolved) (w : W) : W * res (list resolved) :=
  match idxs with
  | [] => (w, Ok out)
  | i :: idxs =>
      match out !! i with
      | None => (w, Ok out)
      | Some r =>
          let '(w, one) := resolveOne r w in
          match one with
          | Err e => (w, Err e)
          | Ok r => each_loop idxs (<[i := r]> out) w
          end
      end
  end.

Definition is_single (s : fieldSpec) : bool := bool_decide (length (spec_Refs s) = 1%nat).

(** [byScheme[scheme]] and [chained]: the indices of the specs, in order. *)
Definition indices (P : fieldSpec -> bool) (specs : list fieldSpec) : list nat :=
  omap (fun si : nat * fieldSpec => if P si.2 then Some si.1 else None) (imap pair specs).

Definition in_group (scheme : string) (s : fieldSpec) : bool :=
  is_single s && bool_decide (ref_Scheme (head_ref s) = scheme).

Definition group (scheme : string) (specs : list fieldSpec) : list nat :=
  indices (in_group scheme) specs.

Definition chained (specs : list fieldSpec) : list nat :=
  indices (fun s => negb (is_single s)) specs.

(** The keys of [byScheme]. *)
Definition group_schemes (specs : list fieldSpec) : list string :=
  remove_dups (map (fun s => ref_Scheme (head_ref s)) (List.filter is_single specs)).

Definition errNoProvider (scheme : string) : error :=
  EOpaque ("mamori: no provider registered for scheme " ++ scheme).

(** The loop over the groups, in the order Go's map iteration gives. *)
Fixpoint groups_loop (order : list string) (specs : list fieldSpec) (out : list resolved) (w : W)
    : W * res (list resolved) :=
  match order with
  | [] => (w, Ok out)
  | scheme :: order =>
      match provider scheme with
      | None => (w, Err (errNoProvider scheme))
      | Some p =>
          let '(w, r) :=
            match prov_ResolveBatch p with
            | Some batch => resolveBatchScheme batch scheme (group scheme specs) out w
            | None => each_loop (group scheme specs) out w
            end in
          match r with
          | Err e => (w, Err e)
          | Ok out => groups_loop order specs out w
          end
      end
  end.

(** [func resolveAll(ctx, specs, o) ([]resolved, error)]; [order] is the order
    in which the map of groups is iterated. *)
Definition resolveAll (order : list string) (specs : list fieldSpec) (w : W)
    : W * res (list resolved) :=
  let '(w, r) := groups_loop order specs (map unresolved specs) w in
  match r with
  | Err e => (w, Err e)
  | Ok out => each_loop (chained specs) out w
  end.

(** The loop of [Resolve] over the refs. *)
Fixpoint resolve_refs (first : Ref) (refs : list Ref) (w : W) : W * res Value :=
  match refs with
  | [] => (w, Err (ref_error first (ESentinel ErrNotFound)))
  | r :: refs =>
      match provider (ref_Scheme r) with
      | None => (w, Err (unknownSchemeError (ref_Scheme r)))
      | Some _ =>
          let '(w, got) := resolveRef r w in
          match got with
          | Ok val => (w, Ok val)
          | Err e => if errors_Is e ErrNotFound then resolve_refs first refs w else (w, Err e)
          end
      end
  end.

(** [func Resolve(ctx, ref, opts...) (Value, error)]; [ctx_err] is [ctx.Err()]. *)
Definition Resolve (ctx_err : option error) (refVars : gmap string string) (ref : string) (w : W)
    : W * res Value :=
  match ctx_err with
  | Some e => (w, Err e)
  | None =>
      match expandRefVars ref refVars ≫= ParseRefs with
      | Err e => (w, Err e)
      | Ok refs => resolve_refs (default (MkRef "" "" "" ∅ "") (head refs)) refs w
      end
  end.
End resolve.

(** * Precedence *)

Section precedence.
Context {W : Type} `{Env W}.
Context (gz : string -> option (string * bool)).
Context (provider : string -> option (Provider W)).

(** [absent w refs w']: resolving [refs] in order from [w] finds each of them
    absent and leaves the world at [w']. *)
Inductive absent : W -> list Ref -> W -> Prop :=
  | absent_nil w : absent w [] w
  | absent_cons w r w1 e rs w2 :
      resolveRef gz provider r w = (w1, Err e) -> errors_Is e ErrNotFound = true ->
      absent w1 rs w2 -> absent w (r :: rs) w2.

(** The walk stopped at position [i], every earlier ref being absent. *)
Definition stops_at (refs : list Ref) (w : W) (i : nat) (out : W * res Value) : Prop :=
  exists r w1, refs !! i = Some r /\ absent w (take i refs) w1 /\
               resolveRef gz provider r w1 = out.

Lemma chain_loop_spec i refs w :
  match chain_loop gz provider i refs w with
  | (w', Ok (Some (v, j))) => exists k, j = (i + k)%nat /\ stops_at refs w k (w', Ok v)
  | (w', Ok None) => absent w refs w'
  | (w', Err e) => errors_Is e ErrNotFound = false /\ exists k, stops_at refs w k (w', Err e)
  end.
Proof.
  revert i w. induction refs as [|r refs IH]; intros i w; simpl; [constructor|].
  destruct (resolveRef gz provider r w) as [w1 [v|e]] eqn:Er.
  { exists 0%nat. split; [lia|]. exists r, w. split_and!; [done|constructor|done]. }
  destruct (errors_Is e ErrNotFound) eqn:En.
  - specialize (IH (S i) w1). destruct (chain_loop gz provider (S i) refs w1) as [w' [[[v j]|]|e']].
    + destruct IH as (k & -> & r' & w2 & ? & ? & ?). exists (S k). split; [lia|].
      exists r', w2. split_and!; [done| |done]. by econstructor.
    + by econstructor.
    + destruct IH as [? (k & r' & w2 & ? & ? & ?)]. split; [done|]. exists (S k), r', w2.
      split_and!; [done| |done]. by econstructor.
  - split; [done|]. exists 0%nat, r, w. split_and!; [done|constructor|done].
Qed.
End precedence.

(** * Whole structs *)

(** Providers whose answers do not depend on the moment they are asked: [raw]
    is what each backend holds. *)
Section stable.
Context {W : Type} `{Env W}.
Context (gz : string -> option (string * bool)).
Context (raw : Ref -> res Value).

Definition stable (provider : string -> option (Provider W)) : Prop :=
  forall r p w, provider (ref_Scheme r) = Some p -> (prov_Resolve p r w).2 = raw r.

(** The contract of [BatchProvider.ResolveBatch] (src/provider.go): an answer
    holds the value of every ref of the batch under its [Raw] tag, and omits
    the ones that are not found. *)
Definition batch_contract (provider : string -> option (Provider W)) : Prop :=
  forall scheme p batch refs w got,
    provider scheme = Some p -> prov_ResolveBatch p = Some batch ->
    (batch refs w).2 = Ok got ->
    forall r, r ∈ refs ->
    match raw r with
    | Ok v => got !! ref_Raw r = Some v
    | Err e => errors_Is e ErrNotFound = true /\ got !! ref_Raw r = None
    end.

(** What one ref, one chain and one spec come to under such providers. *)
Definition ans (known : string -> bool) (r : Ref) : res Value :=
  if known (ref_Scheme r) then
    match raw r with
    | Err e => Err (ref_error r e)
    | Ok v => res_wrap (ref_error r) (applyDecode gz r v)
    end
  else Err (ref_error r (ESentinel ErrInvalid)).

Fixpoint chain_ans_loop (known : string -> bool) (i : nat) (refs : list Ref)
    : res (option (Value * nat)) :=
  match refs with
  | [] => Ok None
  | r :: refs =>
      match ans known r with
      | Ok v => Ok (Some (v, i))
      | Err e => if errors_Is e ErrNotFound then chain_ans_loop known (S i) refs else Err e
      end
  end.

Definition chain_ans (known : string -> bool) (refs : list Ref) : res (Value * nat) :=
  match chain_ans_loop known 0 refs with
  | Err e => Err e
  | Ok (Some vi) => Ok vi
  | Ok None =>
      Err (ref_error (default (MkRef "" "" "" ∅ "") (head refs)) (ESentinel ErrNotFound))
  end.

Definition spec_ans (known : string -> bool) (s : fieldSpec) : res resolved :=
  settle (unresolved s) (chain_ans known (spec_Refs s)).

Context (provider : string -> option (Provider W)).
Hypothesis Hstable : stable provider.

Abbreviation known := (fun scheme => bool_decide (is_Some (provider scheme))).

Lemma resolveRef_ans r w : (resolveRef gz provider r w).2 = ans known r.
Proof using Hstable.
  unfold resolveRef, ans. destruct (provider (ref_Scheme r)) as [p|] eqn:Ep.
  - rewrite bool_decide_eq_true_2 by done. specialize (Hstable r p).
    set (w1 := observe (ObsSpan (ref_Scheme r) (Redacted r)) w).
    specialize (Hstable w1 Ep). destruct (prov_Resolve p r w1) as [w2 got].
    simpl in Hstable. subst got. by destruct (raw r).
  - rewrite bool_decide_eq_false_2; [done|]. by intros [? ?].
Qed.

Lemma chain_loop_ans i refs w : (chain_loop gz provider i refs w).2 = chain_ans_loop known i refs.
Proof using Hstable.
  revert i w. induction refs as [|r refs IH]; intros i w; simpl; [done|].
  pose proof (resolveRef_ans r w) as Hr.
  destruct (resolveRef gz provider r w) as [w1 [v|e]]; simpl in Hr; rewrite <- Hr; [done|].
  destruct (errors_Is e ErrNotFound); [apply IH|done].
Qed.

Lemma resolveOne_ans s w : (resolveOne gz provider (unresolved s) w).2 = spec_ans known s.
Proof using Hstable.
  unfold resolveOne, resolveChain, spec_ans, chain_ans. simpl.
  pose proof (chain_loop_ans 0 (spec_Refs s) w) as Hc.
  destruct (chain_loop gz provider 0 (spec_Refs s) w) as [w1 out]. simpl in Hc. subst out.
  by destruct (chain_ans_loop known 0 (spec_Refs s)) as [[vi|]|].
Qed.

(** A batch entry settles like the single ref it stands for. *)
Lemma settle_batch_ans got s r :
  spec_Refs s = [r] -> is_Some (provider (ref_Scheme r)) ->
  match raw r with
  | Ok v => got !! ref_Raw r = Some v
  | Err e => errors_Is e ErrNotFound = true /\ got !! ref_Raw r = None
  end ->
  settle_batch gz got (unresolved s) = spec_ans known s.
Proof.
  intros Hs Hp Hgot. unfold settle_batch, spec_ans, chain_ans, head_ref. simpl. rewrite Hs. simpl.
  unfold ans. rewrite bool_decide_eq_true_2 by done. destruct (raw r) as [v|e].
  - rewrite Hgot. destruct (applyDecode gz r v) as [d|e] eqn:Ed; simpl; [done|].
    rewrite (applyDecode_absent _ _ _ _ Ed). simpl.
    by rewrite (applyDecode_absent _ _ _ _ Ed).
  - destruct Hgot as [He ->]. simpl. rewrite He. done.
Qed.
End stable.

(** ** The loops of [resolveAll] *)

Section all.
Context {W : Type} `{Env W}.
Context (gz : string -> option (string * bool)) (raw : Ref -> res Value).
Context (specs : list fieldSpec).

(** The specs of [done] hold their final outcome under [pure], the others are
    untouched. *)
Definition progress (pure : fieldSpec -> res resolved) (done : list nat) (out : list resolved) : Prop :=
  length out = length specs /\
  forall i s, specs !! i = Some s ->
    (i ∈ done -> exists r, out !! i = Some r /\ pure s = Ok r) /\
    (i ∉ done -> out !! i = Some (unresolved s)).

Lemma progress_start pure : progress pure [] (map unresolved specs).
Proof.
  split; [by rewrite length_map|]. intros i s Hi.
  split; [by intros ?%not_elem_of_nil|]. intros _. by rewrite list_lookup_fmap, Hi.
Qed.

Lemma progress_step pure dn out i s r :
  progress pure dn out -> specs !! i = Some s -> i ∉ dn -> pure s = Ok r ->
  progress pure (i :: dn) (<[i := r]> out).
Proof.
  intros [Hl Hp] Hi Hn Hr. split; [by rewrite length_insert|]. intros j s' Hj.
  assert (i < length out)%nat by (rewrite Hl; by eapply lookup_lt_Some).
  destruct (decide (i = j)) as [->|Hne].
  - rewrite list_lookup_insert_eq by done. rewrite Hi in Hj. injection Hj as <-.
    split; [eauto|]. intros Hn'. exfalso. apply Hn'. constructor.
  - rewrite list_lookup_insert_ne by done. destruct (Hp j s' Hj) as [H1 H2].
    rewrite elem_of_cons. split; [intros [->|?]; [done|auto]|]. intros. apply H2. tauto.
Qed.

Lemma progress_proper pure d1 d2 out :
  (forall i, i ∈ d1 <-> i ∈ d2) -> progress pure d1 out -> progress pure d2 out.
Proof.
  intros Hd [Hl Hp]. split; [done|]. intros i s Hi. rewrite <- Hd. by apply Hp.
Qed.

Lemma progress_done pure dn out :
  progress pure dn out -> (forall i, (i < length specs)%nat -> i ∈ dn) ->
  Forall2 (fun s r => pure s = Ok r) specs out.
Proof.
  intros [Hl Hp] Hd. apply Forall2_same_length_lookup. split; [done|].
  intros i s r Hi Hr. destruct (Hp i s Hi) as [H1 _].
  destruct H1 as (r' & Hr' & ?); [apply Hd; by eapply lookup_lt_Some|]. congruence.
Qed.

(** A loop over fresh indices that settles each spec as [pure] says. *)
Definition settles (pure : fieldSpec -> res resolved) (dn idxs : list nat)
    (r : res (list resolved)) : Prop :=
  match r with
  | Ok out => progress pure (idxs ++ dn) out
  | Err _ => exists i s, i ∈ idxs /\ specs !! i = Some s /\ is_ok (pure s) = false
  end.

Section provider.
Context (provider : string -> option (Provider W)).
Hypothesis Hstable : stable raw provider.

Abbreviation pure := (spec_ans gz raw (fun scheme => bool_decide (is_Some (provider scheme)))).

Lemma each_loop_settles idxs dn out w :
  progress pure dn out -> NoDup idxs ->
  (forall i, i ∈ idxs -> i ∉ dn /\ (i < length specs)%nat) ->
  settles pure dn idxs (each_loop gz provider idxs out w).2.
Proof using Hstable.
  revert dn out w. induction idxs as [|i idxs IH]; intros dn out w Hp Hnd Hfresh; [done|].
  apply NoDup_cons in Hnd as [Hni Hnd].
  destruct (Hfresh i) as [Hn Hlt]; [constructor|].
  destruct (lookup_lt_is_Some_2 specs i Hlt) as [s Hs].
  simpl. rewrite (proj2 (proj2 Hp i s Hs) Hn).
  pose proof (resolveOne_ans gz raw provider Hstable s w) as Ho.
  destruct (resolveOne gz provider (unresolved s) w) as [w1 one]. simpl in Ho. subst one.
  destruct (pure s) as [r|e] eqn:Er.
  - assert (Hs' : settles pure (i :: dn) idxs (each_loop gz provider idxs (<[i:=r]> out) w1).2).
    { apply IH; [by eapply progress_step|done|]. intros j Hj.
      destruct (Hfresh j) as [? ?]; [by constructor|]. rewrite elem_of_cons.
      split; [intros [->|?]; done|done]. }
    destruct (each_loop gz provider idxs (<[i:=r]> out) w1) as [w2 [out'|e]]; simpl in *.
    + eapply progress_proper; [|exact Hs']. intros j.
      rewrite elem_of_app, !elem_of_cons, elem_of_app. tauto.
    + destruct Hs' as (j & s' & Hj & ?). exists j, s'. split; [by constructor|done].
  - simpl. exists i, s. split; [constructor|]. by rewrite Er.
Qed.

Lemma batch_loop_settles got idxs dn out :
  progress pure dn out -> NoDup idxs ->
  (forall i, i ∈ idxs -> i ∉ dn /\ (i < length specs)%nat) ->
  (forall i s, i ∈ idxs -> specs !! i = Some s -> settle_batch gz got (unresolved s) = pure s) ->
  settles pure dn idxs (batch_loop gz got idxs out).
Proof.
  revert dn out. induction idxs as [|i idxs IH]; intros dn out Hp Hnd Hfresh Hgot; [done|].
  apply NoDup_cons in Hnd as [Hni Hnd].
  destruct (Hfresh i) as [Hn Hlt]; [constructor|].
  destruct (lookup_lt_is_Some_2 specs i Hlt) as [s Hs].
  simpl. rewrite (proj2 (proj2 Hp i s Hs) Hn), (Hgot i s) by (done || constructor).
  destruct (pure s) as [r|e] eqn:Er.
  - assert (Hs' : settles pure (i :: dn) idxs (batch_loop gz got idxs (<[i:=r]> out))).
    { apply IH; [by eapply progress_step|done| |].
      - intros j Hj. destruct (Hfresh j) as [? ?]; [by constructor|]. rewrite elem_of_cons.
        split; [intros [->|?]; done|done].
      - intros j s' Hj. apply Hgot. by constructor. }
    destruct (batch_loop gz got idxs (<[i:=r]> out)) as [out'|e]; simpl in *.
    + eapply progress_proper; [|exact Hs']. intros j.
      rewrite elem_of_app, !elem_of_cons, elem_of_app. tauto.
    + destruct Hs' as (j & s' & Hj & ?). exists j, s'. split; [by constructor|done].
  - simpl. exists i, s. split; [constructor|]. by rewrite Er.
Qed.
End provider.

(** *** The groups *)

Lemma elem_of_indices P i : i ∈ indices P specs <-> exists s, specs !! i = Some s /\ P s = true.
Proof.
  unfold indices. rewrite list_elem_of_omap. split.
  - intros ([j s] & Hj & Hi). apply elem_of_lookup_imap in Hj as (k & s' & [= -> ->] & Hk).
    simpl in Hi. destruct (P s') eqn:E; [|done]. injection Hi as ->. eauto.
  - intros (s & Hs & HP). exists (i, s). simpl. rewrite HP. split; [|done].
    apply elem_of_lookup_imap. eauto.
Qed.

Lemma indices_NoDup P : NoDup (indices P specs).
Proof.
  unfold indices. cut (forall k l, NoDup (omap (fun si : nat * fieldSpec =>
    if P si.2 then Some si.1 else None) (imap (fun i s => (k + i, s)%nat) l)) /\
    Forall (fun i => k <= i)%nat (omap (fun si : nat * fieldSpec =>
    if P si.2 then Some si.1 else None) (imap (fun i s => (k + i, s)%nat) l))).
  { intros Hc. apply (Hc 0%nat specs). }
  intros k l. revert k. induction l as [|s l IH]; intros k; [split; constructor|].
  cbn [imap omap list_omap]. destruct (IH (S k)) as [Hnd Hle].
  replace (imap ((fun i s0 => ((k + i)%nat, s0)) ∘ S) l)
    with (imap (fun i s0 => ((S k + i)%nat, s0)) l)
    by (apply imap_ext; intros; simpl; f_equal; lia).
  assert (Hle' : Forall (fun i => k <= i)%nat
    (omap (fun si : nat * fieldSpec => if P si.2 then Some si.1 else None)
       (imap (fun i s0 => ((S k + i)%nat, s0)) l))).
  { eapply Forall_impl; [exact Hle|]. simpl. lia. }
  simpl. rewrite Nat.add_0_r. destruct (P s); [|done]. split; [|by constructor].
  constructor; [|done]. intros Hin. rewrite Forall_forall in Hle. specialize (Hle k Hin). lia.
Qed.

Lemma elem_of_group scheme i :
  i ∈ group scheme specs <->
  exists s r, specs !! i = Some s /\ spec_Refs s = [r] /\ ref_Scheme r = scheme.
Proof.
  unfold group. rewrite elem_of_indices. unfold in_group, is_single, head_ref. split.
  - intros (s & Hs & HP). bool_norm. destruct (spec_Refs s) as [|r [|]] eqn:E; try done. eauto.
  - intros (s & r & Hs & Hr & <-). exists s. split; [done|]. rewrite Hr. simpl.
    by rewrite bool_decide_eq_true_2.
Qed.

Lemma group_fresh scheme dn i :
  (forall s, s ∈ dn -> s <> scheme) -> i ∈ group scheme specs ->
  i ∉ flat_map (fun s => group s specs) dn /\ (i < length specs)%nat.
Proof.
  intros Hdn Hi. apply elem_of_group in Hi as (s & r & Hs & Hr & Hsch). split.
  - intros [s' [Hs' Hi']]%list_elem_of_In%in_flat_map.
    apply list_elem_of_In, elem_of_group in Hi' as (s2 & r2 & Hs2 & Hr2 & E).
    apply (Hdn s'); [by apply list_elem_of_In|]. congruence.
  - by eapply lookup_lt_Some.
Qed.

Lemma batch_refs_group pure dn out scheme r :
  progress pure dn out -> (forall i, i ∈ group scheme specs -> i ∉ dn) ->
  r ∈ batch_refs (group scheme specs) out ->
  exists i s, i ∈ group scheme specs /\ specs !! i = Some s /\ spec_Refs s = [r].
Proof.
  intros [Hl Hp] Hfresh Hr. unfold batch_refs in Hr.
  apply list_elem_of_omap in Hr as (i & Hi & Hr).
  pose proof Hi as (s & r' & Hs & Hr' & _)%elem_of_group.
  destruct (Hp i s Hs) as [_ Ho]. rewrite Ho in Hr by auto.
  simpl in Hr. injection Hr as <-. exists i, s. split_and!; [done..|].
  unfold head_ref. by rewrite Hr'.
Qed.

Section groups.
Context (provider : string -> option (Provider W)).
Hypothesis Hstable : stable raw provider.
Hypothesis Hbatch : batch_contract raw provider.

Abbreviation pure := (spec_ans gz raw (fun scheme => bool_decide (is_Some (provider scheme)))).
Abbreviation groups_of l := (flat_map (fun s => group s specs) l).

(** The error of a resolve that a batch failed: the one its provider answered. *)
Definition batch_failed (e : error) : Prop :=
  exists scheme p batch refs v eb, provider scheme = Some p /\ prov_ResolveBatch p = Some batch /\
    (batch refs v).2 = Err eb /\ e = ProviderError scheme "batch" eb.

Lemma batch_scheme_settles scheme p batch dn out w :
  provider scheme = Some p -> prov_ResolveBatch p = Some batch ->
  progress pure dn out -> (forall i, i ∈ group scheme specs -> i ∉ dn) ->
  match (resolveBatchScheme gz batch scheme (group scheme specs) out w).2 with
  | Ok out => progress pure (group scheme specs ++ dn) out
  | Err e => batch_failed e \/ exists i s, specs !! i = Some s /\ is_ok (pure s) = false
  end.
Proof using Hbatch.
  intros Hp Hb Hpr Hfresh. unfold resolveBatchScheme.
  pose proof (Hbatch scheme p batch (batch_refs (group scheme specs) out) w) as Hc.
  destruct (batch (batch_refs (group scheme specs) out) w) as [w1 [got|e]] eqn:Eb; simpl.
  2:{ left. exists scheme, p, batch, (batch_refs (group scheme specs) out), w, e. by rewrite Eb. }
  specialize (Hc got Hp Hb eq_refl).
  assert (Hs : settles pure dn (group scheme specs) (batch_loop gz got (group scheme specs) out)).
  { apply batch_loop_settles; [done|apply indices_NoDup| |].
    - intros i Hi. split; [auto|]. apply elem_of_group in Hi as (s & ? & Hs & _).
      by eapply lookup_lt_Some.
    - intros i s Hi Hs. pose proof Hi as (s' & r & Hs' & Hr & Hsch)%elem_of_group.
      simplify_eq. apply settle_batch_ans with (r := r); [done|by rewrite Hp|].
      apply Hc. unfold batch_refs. apply list_elem_of_omap. exists i. split; [done|].
      destruct Hpr as [_ Hpr]. destruct (Hpr i s Hs) as [_ ->]; [|by auto].
      simpl. unfold head_ref. by rewrite Hr. }
  destruct (batch_loop gz got (group scheme specs) out); [done|]. right. destruct Hs as (i & s & _ & ?). eauto.
Qed.

(** One group of the loop. *)
Definition group_step (p : Provider W) (scheme : string) (out : list resolved) (w : W)
    : W * res (list resolved) :=
  match prov_ResolveBatch p with
  | Some batch => resolveBatchScheme gz batch scheme (group scheme specs) out w
  | None => each_loop gz provider (group scheme specs) out w
  end.

(** What a loop leaves behind: progress, or an error, which is that of a batch or
    comes from a spec. *)
Definition loop_result (dn order : list string) (r : res (list resolved)) : Prop :=
  match r with
  | Ok out => progress pure (groups_of (order ++ dn)%list) out /\
              Forall (fun s => is_Some (provider s)) order
  | Err e =>
      Forall (fun s => is_Some (provider s)) order ->
      batch_failed e \/ exists i s, specs !! i = Some s /\ is_ok (pure s) = false
  end.

Lemma group_step_settles scheme p dn out w :
  provider scheme = Some p -> (forall s, s ∈ dn -> s <> scheme) ->
  progress pure (groups_of dn) out ->
  loop_result dn [scheme] (group_step p scheme out w).2.
Proof using Hstable Hbatch.
  intros Ep Hne Hpr. assert (Hfresh := fun i => group_fresh scheme dn i Hne).
  unfold group_step, loop_result. simpl.
  destruct (prov_ResolveBatch p) as [batch|] eqn:Eb.
  - pose proof (batch_scheme_settles scheme p batch (groups_of dn) out w Ep Eb Hpr) as Hb.
    destruct (resolveBatchScheme _ _ _ _ _ _) as [w1 [out1|e]]; simpl in *.
    + split; [|by repeat econstructor]. apply Hb. intros i Hi. by apply Hfresh.
    + intros _. apply Hb. intros i Hi. by apply Hfresh.
  - pose proof (each_loop_settles provider Hstable (group scheme specs) (groups_of dn) out w
      Hpr (indices_NoDup _) Hfresh) as He.
    destruct (each_loop _ _ _ _ _) as [w1 [out1|e]]; simpl in *.
    + split; [done|]. by repeat econstructor.
    + intros _. right. destruct He as (i & s & _ & ?). eauto.
Qed.

Lemma groups_loop_settles order dn out w :
  NoDup (order ++ dn)%list -> progress pure (groups_of dn) out ->
  loop_result dn order (groups_loop gz provider order specs out w).2.
Proof using Hstable Hbatch.
  revert dn out w. induction order as [|scheme order IH]; intros dn out w Hnd Hpr; [by split|].
  simpl in Hnd. apply NoDup_cons in Hnd as [Hn Hnd]. simpl groups_loop.
  destruct (provider scheme) as [p|] eqn:Ep.
  2:{ simpl. intros [[? Hx] _]%Forall_cons. congruence. }
  assert (Hne : forall s, s ∈ dn -> s <> scheme).
  { intros s Hs ->. apply Hn, elem_of_app. by right. }
  pose proof (group_step_settles scheme p dn out w Ep Hne Hpr) as Hstep.
  unfold group_step in Hstep.
  destruct (match prov_ResolveBatch p with Some b => _ | None => _ end) as [w1 [out1|e]].
  2:{ simpl in *. intros _. apply Hstep. by repeat econstructor. }
  destruct Hstep as [Hstep _].
  assert (Hperm : (order ++ scheme :: dn)%list ≡ₚ (scheme :: order ++ dn)%list)
    by (by rewrite Permutation_middle).
  assert (Hr := IH (scheme :: dn) out1 w1). rewrite Hperm in Hr.
  specialize (Hr ltac:(by constructor) Hstep).
  destruct (groups_loop gz provider order specs out1 w1) as [w2 [out2|e]]; simpl in *.
  - destruct Hr as [Hr Hall]. split; [|by constructor; [eexists|]].
    eapply progress_proper; [|exact Hr]. intros i.
    change (group scheme specs ++ groups_of (order ++ dn))%list
      with (groups_of (scheme :: order ++ dn)%list).
    by rewrite !list_elem_of_In, !in_flat_map; setoid_rewrite <- list_elem_of_In;
      setoid_rewrite Hperm.
  - intros [_ Hall]%Forall_cons. by apply Hr.
Qed.
End groups.
End all.

Lemma chain_ans_loop_ext gz raw k1 k2 i refs :
  (forall s, k1 s = k2 s) -> chain_ans_loop gz raw k1 i refs = chain_ans_loop gz raw k2 i refs.
Proof.
  intros Hk. revert i. induction refs as [|r refs IH]; intros i; simpl; [done|].
  assert (Ha : ans gz raw k1 r = ans gz raw k2 r) by (unfold ans; by rewrite Hk).
  rewrite Ha. destruct (ans gz raw k2 r) as [v|e]; [done|]. by destruct (errors_Is e ErrNotFound).
Qed.

Lemma spec_ans_ext gz raw k1 k2 s :
  (forall s, k1 s = k2 s) -> spec_ans gz raw k1 s = spec_ans gz raw k2 s.
Proof. intros Hk. unfold spec_ans, chain_ans. by rewrite (chain_ans_loop_ext gz raw k1 k2). Qed.

Lemma elem_of_group_schemes specs i s r :
  specs !! i = Some s -> spec_Refs s = [r] -> ref_Scheme r ∈ group_schemes specs.
Proof.
  intros Hs Hr. unfold group_schemes. rewrite elem_of_remove_dups.
  apply list_elem_of_In, in_map_iff. exists s. unfold head_ref. rewrite Hr. split; [done|].
  apply filter_In. split; [apply list_elem_of_In; by eapply list_elem_of_lookup_2|].
  unfold is_single. by rewrite Hr.
Qed.

(** The chained specs are in no group, and every spec is in one or chained. *)
Lemma chained_fresh specs order i :
  i ∈ chained specs ->
  i ∉ flat_map (fun s => group s specs) order /\ (i < length specs)%nat.
Proof.
  intros Hi. apply elem_of_indices in Hi as (s & Hs & Hn).
  split; [|by eapply lookup_lt_Some].
  intros [s' [_ Hi']]%list_elem_of_In%in_flat_map.
  apply list_elem_of_In, elem_of_group in Hi' as (s2 & r2 & Hs2 & Hr2 & _).
  simplify_eq. unfold is_single in Hn. by rewrite Hr2 in Hn.
Qed.

Lemma indices_cover specs order i :
  order ≡ₚ group_schemes specs -> (i < length specs)%nat ->
  i ∈ (chained specs ++ flat_map (fun s => group s specs) order)%list.
Proof.
  intros Hord Hi. destruct (lookup_lt_is_Some_2 specs i Hi) as [s Hs]. apply elem_of_app.
  destruct (is_single s) eqn:E.
  - right. unfold is_single in E. bool_norm. destruct (spec_Refs s) as [|r [|]] eqn:Er; try done.
    apply list_elem_of_In, in_flat_map. exists (ref_Scheme r). split.
    + apply list_elem_of_In. rewrite Hord. by eapply elem_of_group_schemes.
    + apply list_elem_of_In, elem_of_group. eauto.
  - left. apply elem_of_indices. exists s. by rewrite E.
Qed.

Lemma resolveAll_settles {W} `{Env W} gz raw specs (provider : string -> option (Provider W)) order w :
  stable raw provider -> batch_contract raw provider -> order ≡ₚ group_schemes specs ->
  let pure := spec_ans gz raw (fun scheme => bool_decide (is_Some (provider scheme))) in
  match (resolveAll gz provider order specs w).2 with
  | Ok out => Forall2 (fun s r => pure s = Ok r) specs out /\
              Forall (fun s => is_Some (provider s)) order
  | Err e =>
      Forall (fun s => is_Some (provider s)) order ->
      batch_failed provider e \/ exists i s, specs !! i = Some s /\ is_ok (pure s) = false
  end.
Proof.
  intros Hst Hb Hord pure. unfold resolveAll.
  assert (Hnd : NoDup (order ++ [])%list).
  { rewrite app_nil_r, Hord. apply NoDup_remove_dups. }
  pose proof (groups_loop_settles gz raw specs provider Hst Hb order [] (map unresolved specs) w
    Hnd (progress_start specs pure)) as Hg.
  destruct (groups_loop gz provider order specs (map unresolved specs) w) as [w1 [out|e]];
    [|exact Hg].
  destruct Hg as [Hg Hall]. rewrite app_nil_r in Hg.
  pose proof (each_loop_settles gz raw specs provider Hst (chained specs)
    (flat_map (fun s => group s specs) order) out w1 Hg (indices_NoDup _ _)
    (chained_fresh specs order)) as He.
  destruct (each_loop gz provider (chained specs) out w1) as [w2 [out2|e]]; simpl in *.
  - split; [|done]. eapply progress_done; [exact He|]. intros i Hi. by apply indices_cover.
  - intros _. right. destruct He as (i & s & _ & ?). eauto.
Qed.

Lemma Forall2_functional {A B} (f : A -> res B) l k k' :
  Forall2 (fun a b => f a = Ok b) l k -> Forall2 (fun a b => f a = Ok b) l k' -> k = k'.
Proof.
  intros H. revert k'. induction H as [|a b l k Hab _ IH]; intros k' H'.
  - by inversion H'.
  - inversion H' as [|? b' ? k2 Hab' Hk2]; subst. f_equal; [congruence|auto].
Qed.

(** * Properties *)

Lemma batch_failed_batches {W} `{Env W} (provider : string -> option (Provider W)) e :
  (forall s p, provider s = Some p -> prov_ResolveBatch p = None) -> ~ batch_failed provider e.
Proof. intros Hnb (scheme & p & batch & refs & v & eb & Hp & Hb & _). by rewrite (Hnb _ _ Hp) in Hb. Qed.

(** A resolve that succeeds determines every other resolve of the struct, but for the
    error of a batch. *)
Lemma resolveAll_determined {W W'} `{Env W} `{Env W'} gz raw specs
    (provider : string -> option (Provider W)) (provider' : string -> option (Provider W'))
    order order' w w' out :
  stable raw provider -> batch_contract raw provider -> stable raw provider' -> batch_contract raw provider' ->
  (forall s, is_Some (provider s) <-> is_Some (provider' s)) ->
  order ≡ₚ group_schemes specs -> order' ≡ₚ group_schemes specs ->
  (resolveAll gz provider order specs w).2 = Ok out ->
  match (resolveAll gz provider' order' specs w').2 with
  | Ok out' => out' = out
  | Err e => batch_failed provider' e
  end.
Proof.
  intros Hst Hb Hst' Hb' Hknown Ho Ho' Hok.
  pose proof (resolveAll_settles gz raw specs provider order w Hst Hb Ho) as H1.
  pose proof (resolveAll_settles gz raw specs provider' order' w' Hst' Hb' Ho') as H2.
  rewrite Hok in H1. destruct H1 as [H1 Hall]. simpl in H1, H2.
  assert (Hext : forall s, spec_ans gz raw (fun s => bool_decide (is_Some (provider' s))) s =
                      spec_ans gz raw (fun s => bool_decide (is_Some (provider s))) s).
  { intros s. apply spec_ans_ext. intros t. apply bool_decide_ext. by rewrite Hknown. }
  destruct (resolveAll gz provider' order' specs w').2 as [out'|e].
  - destruct H2 as [H2 _]. eapply Forall2_functional; [|exact H1].
    eapply Forall2_impl; [exact H2|]. intros s r Hp. rewrite <- Hext. exact Hp.
  - destruct H2 as [?|(i & s & Hs & Hbad)]; [|done|].
    + rewrite Ho', <- Ho. eapply Forall_impl; [exact Hall|]. intros s. by rewrite Hknown.
    + destruct (Forall2_lookup_l _ _ _ _ _ H1 Hs) as (r & _ & Hr).
      by rewrite Hext, Hr in Hbad.
Qed.

(** C20. Batching and the iteration order of Go's maps do not show, unless a batch itself
    fails. Resolve a struct with batching providers, and with providers over the same
    backends that only implement [Resolve], at any moments and in any orders of the
    schemes. When the batching resolve succeeds the other succeeds with exactly the same
    values, found and set marks for every field; when the other succeeds the batching
    one gives the same too, or it fails with the error that a [ResolveBatch] answered,
    whatever the onfail policy of the fields it is for; and nothing else tells them
    apart. *)
Theorem resolveAll_batch_transparent {W W'} `{Env W} `{Env W'} gz raw specs
    (provider : string -> option (Provider W)) (provider' : string -> option (Provider W'))
    order order' w w' :
  stable raw provider -> batch_contract raw provider -> stable raw provider' ->
  (forall s p, provider' s = Some p -> prov_ResolveBatch p = None) ->
  (forall s, is_Some (provider s) <-> is_Some (provider' s)) ->
  order ≡ₚ group_schemes specs -> order' ≡ₚ group_schemes specs ->
  match (resolveAll gz provider order specs w).2, (resolveAll gz provider' order' specs w').2 with
  | Ok out, Ok out' => out = out'
  | Ok _, Err _ => False
  | Err e, Ok _ => exists scheme p batch refs v eb, provider scheme = Some p /\ prov_ResolveBatch p = Some batch /\
      (batch refs v).2 = Err eb /\ e = ProviderError scheme "batch" eb
  | Err _, Err _ => True
  end.
Proof.
  intros Hst Hb Hst' Hnb Hknown Ho Ho'.
  assert (Hb' : batch_contract raw provider').
  { intros scheme p batch refs v got Hp. by rewrite (Hnb _ _ Hp). }
  destruct (resolveAll gz provider order specs w).2 as [out|e] eqn:E1.
  - pose proof (resolveAll_determined gz raw specs provider provider' order order' w w' out Hst Hb Hst' Hb' Hknown Ho Ho' E1) as H2.
    destruct (resolveAll gz provider' order' specs w').2; [done|]. by eapply batch_failed_batches.
  - destruct (resolveAll gz provider' order' specs w').2 as [out'|e'] eqn:E2; [|done].
    assert (Hknown' : forall s, is_Some (provider' s) <-> is_Some (provider s)) by (intros s; by rewrite Hknown).
    pose proof (resolveAll_determined gz raw specs provider' provider order' order w' w out' Hst' Hb' Hst Hb Hknown' Ho' Ho E2) as H2.
    rewrite E1 in H2. exact H2.
Qed.

(** A world that is a counter, read by nobody: the smallest environment. *)
#[export] Instance unit_env : Env unit.
Proof. refine {| now _ := 0%Z; observe _ w := w |}. done. Defined.

Definition demo_raw (r : Ref) : res Value :=
  if bool_decide (ref_Raw r = "env:missing") then Err (ESentinel ErrNotFound)
  else Ok (MkValue ("v:" ++ ref_Raw r) "1" false 0 ∅).

Definition demo_single (scheme : string) : Provider unit :=
  MkProvider scheme (fun r w => (w, demo_raw r)) None false.

Definition demo_batch (scheme : string) : Provider unit :=
  MkProvider scheme (fun r w => (w, demo_raw r))
    (Some (fun refs w => (w, Ok (list_to_map (omap (fun r =>
       match demo_raw r with Ok v => Some (ref_Raw r, v) | Err _ => None end) refs))))) false.

Definition demo_spec (path : string) (refs : list Ref) (def : option string) : fieldSpec :=
  MkSpec path refs (default "" def) (bool_decide (is_Some def)) "" false [] TString false onFailKeepLast.

Definition demo_ref (scheme path : string) : Ref := MkRef scheme path "" ∅ (scheme ++ ":" ++ path).

Definition demo_specs : list fieldSpec :=
  [ demo_spec "A" [demo_ref "sm" "a"] None;
    demo_spec "B" [demo_ref "env" "missing"] (Some "dflt");
    demo_spec "C" [demo_ref "env" "missing"; demo_ref "sm" "c"] None;
    demo_spec "D" [demo_ref "sm" "d"] None ].

Definition demo_known (scheme : string) : bool := bool_decide (scheme ∈ ["sm"; "env"]).

Definition demo_providers (mk : string -> Provider unit) (scheme : string) : option (Provider unit) :=
  if demo_known scheme then Some (mk scheme) else None.

Lemma demo_batch_lookup refs r :
  r ∈ refs ->
  match demo_raw r with
  | Ok v => (list_to_map (omap (fun r => match demo_raw r with
                Ok v => Some (ref_Raw r, v) | Err _ => None end) refs) : gmap string Value)
              !! ref_Raw r = Some v
  | Err e => errors_Is e ErrNotFound = true /\
      (list_to_map (omap (fun r => match demo_raw r with
                Ok v => Some (ref_Raw r, v) | Err _ => None end) refs) : gmap string Value)
              !! ref_Raw r = None
  end.
Proof.
  induction refs as [|q refs IH]; [by intros ?%not_elem_of_nil|].
  assert (Hq : ref_Raw q = ref_Raw r -> demo_raw q = demo_raw r) by (unfold demo_raw; by intros ->).
  intros Hr. cbn [omap list_omap].
  destruct (decide (ref_Raw q = ref_Raw r)) as [E|E].
  - rewrite (Hq E). destruct (demo_raw r) as [v|e] eqn:Er.
    + simpl. by rewrite E, lookup_insert_eq.
    + assert (Ev : ref_Raw r = "env:missing" /\ e = ESentinel ErrNotFound).
      { unfold demo_raw in Er. case_bool_decide; by simplify_eq. }
      destruct Ev as [Ev ->]. split; [done|]. apply not_elem_of_list_to_map_1.
      intros (kv & Hkv & (r' & _ & Hr')%list_elem_of_omap)%list_elem_of_fmap.
      revert Hr'. unfold demo_raw. case_bool_decide; [done|]. intros [= <-]. simpl in Hkv. congruence.
  - apply elem_of_cons in Hr as [->|Hr]; [done|]. specialize (IH Hr).
    destruct (demo_raw q) as [v|e]; simpl; [|done]. by rewrite lookup_insert_ne.
Qed.

(** The same struct, batched and not. *)
Lemma resolveAll_batch_transparent_witness :
  (resolveAll (fun s => Some (s, true)) (demo_providers demo_batch) ["sm"; "env"] demo_specs tt).2 =
    (resolveAll (fun s => Some (s, true)) (demo_providers demo_single) ["env"; "sm"] demo_specs tt).2 /\
  (fun got => map (fun r => (val_Bytes (r_value r), r_found r)) got) <$>
    (resolveAll (fun s => Some (s, true)) (demo_providers demo_single) ["env"; "sm"] demo_specs tt).2 =
      Ok [("v:sm:a", true); ("dflt", false); ("v:sm:c", true); ("v:sm:d", true)].
Proof.
  split; [|vm_compute; reflexivity].
  assert (Hok : is_ok (resolveAll (fun s => Some (s, true)) (demo_providers demo_batch) ["sm"; "env"] demo_specs tt).2 = true) by (vm_compute; reflexivity).
  pose proof (resolveAll_batch_transparent (fun s => Some (s, true)) demo_raw demo_specs
    (demo_providers demo_batch) (demo_providers demo_single) ["sm"; "env"] ["env"; "sm"] tt tt) as Ht.
  destruct (resolveAll _ (demo_providers demo_batch) _ _ _).2 as [out|]; [|discriminate].
  destruct (resolveAll _ (demo_providers demo_single) _ _ _).2 as [out'|].
  - f_equal. apply Ht.
    + intros r p w. unfold demo_providers. case_match; [|done]. by intros [= <-].
    + intros scheme p batch refs w got. unfold demo_providers. case_match; [|done].
      intros [= <-] [= <-] [= <-] r Hr. by apply demo_batch_lookup.
    + intros r p w. unfold demo_providers. case_match; [|done]. by intros [= <-].
    + intros s p. unfold demo_providers. case_match; [|done]. by intros [= <-].
    + intros s. unfold demo_providers. case_match; (split; intros [? ?]; [by eexists|by eexists] || done).
    + vm_compute. apply perm_swap.
    + by vm_compute.
  - exfalso. apply Ht.
    + intros r p w. unfold demo_providers. case_match; [|done]. by intros [= <-].
    + intros scheme p batch refs w got. unfold demo_providers. case_match; [|done].
      intros [= <-] [= <-] [= <-] r Hr. by apply demo_batch_lookup.
    + intros r p w. unfold demo_providers. case_match; [|done]. by intros [= <-].
    + intros s p. unfold demo_providers. case_match; [|done]. by intros [= <-].
    + intros s. unfold demo_providers. case_match; (split; intros [? ?]; [by eexists|by eexists] || done).
    + vm_compute. apply perm_swap.
    + by vm_compute.
Defined.

(** C19. A chain expresses precedence and its policy is applied to what the walk
    proved. A field is set from position [i] exactly after every earlier
    position answered not-found and without asking any later one; its default
    or its optional mark applies when every position is absent; an error other
    than absence stops the walk where it occurs and fails the field, unless the
    field opted in with onfail:"default". *)
Theorem resolveOne_policy {W} `{Env W} gz (provider : string -> option (Provider W)) s w :
  let stops := stops_at gz provider (spec_Refs s) w in
  match resolveOne gz provider (unresolved s) w with
  | (w', Ok r) =>
      (exists i v, stops i (w', Ok v) /\ r = setResolved (unresolved s) v) \/
      (absent gz provider w (spec_Refs s) w' /\
         (spec_HasDefault s = true /\ r = MkResolved s (default_value s) false true \/
          spec_HasDefault s = false /\ spec_Optional s = true /\ r = unresolved s)) \/
      (exists i e, stops i (w', Err e) /\ errors_Is e ErrNotFound = false /\
         spec_OnFail s = onFailUseDefault /\ r = MkResolved s (default_value s) false true)
  | (w', Err e) =>
      (absent gz provider w (spec_Refs s) w' /\ spec_HasDefault s = false /\
         spec_Optional s = false /\ errors_Is e ErrNotFound = true) \/
      (exists i, stops i (w', Err e) /\ errors_Is e ErrNotFound = false /\
         spec_OnFail s <> onFailUseDefault)
  end.
Proof.
  intros stops. unfold resolveOne, resolveChain. simpl.
  pose proof (chain_loop_spec gz provider 0 (spec_Refs s) w) as Hc.
  destruct (chain_loop gz provider 0 (spec_Refs s) w) as [w' [[[v j]|]|e]].
  - destruct Hc as (k & -> & Hk). left. eauto.
  - unfold settle. simpl. unfold applyDefault. simpl.
    destruct (spec_HasDefault s) eqn:Ed; [right; left; eauto|].
    destruct (spec_Optional s) eqn:Eo; [right; left; eauto 6|]. left. eauto.
  - destruct Hc as [Hn [k Hk]]. unfold settle, applyOnFail. rewrite Hn. simpl.
    case_bool_decide; [right; right; eauto 6|right; eauto].
Qed.

Definition unsettling (e : error) (scheme : string) : Provider unit :=
  MkProvider scheme (fun r w => (w, Err e)) None false.

Definition unsettling_batch (e : error) (scheme : string) : Provider unit :=
  MkProvider scheme (fun r w => (w, Err e)) (Some (fun refs w => (w, Err e))) false.

(** A backend failure of a batching provider is not put past the field's
    onfail policy: for a field that opted in with onfail:"default", the same
    failing backend makes the resolve succeed with the default when the provider
    implements [Resolve] only, and fail when it also implements
    [ResolveBatch]. *)
Theorem batch_failure_ignores_onfail gz s r e :
  spec_Refs s = [r] -> spec_OnFail s = onFailUseDefault -> errors_Is e ErrNotFound = false ->
  (resolveAll gz (fun scheme => Some (unsettling e scheme)) [ref_Scheme r] [s] tt).2 =
    Ok [MkResolved s (default_value s) false true] /\
  (resolveAll gz (fun scheme => Some (unsettling_batch e scheme)) [ref_Scheme r] [s] tt).2 =
    Err (ProviderError (ref_Scheme r) "batch" e).
Proof.
  intros Hs Hf He.
  assert (Hg : group (ref_Scheme r) [s] = [0%nat]).
  { unfold group, indices, in_group, is_single, head_ref. simpl. rewrite Hs. simpl.
    by rewrite !bool_decide_eq_true_2. }
  assert (Hc : chained [s] = []).
  { unfold chained, indices, is_single. simpl. by rewrite Hs. }
  unfold resolveAll. simpl groups_loop. rewrite Hg, Hc. split.
  - simpl. unfold resolveOne, resolveChain. simpl. rewrite Hs. simpl.
    unfold resolveRef. simpl. rewrite He. unfold settle, applyOnFail. simpl.
    by rewrite He, Hf.
  - unfold resolveBatchScheme. done.
Qed.

Lemma batch_failure_ignores_onfail_witness :
  (resolveAll (fun _ => None) (fun scheme => Some (unsettling_batch (ESentinel ErrUnavailable) scheme)) ["sm"]
     [MkSpec "A" [demo_ref "sm" "a"] "fallback" true "" false [] TString false onFailUseDefault] tt).2 =
    Err (ProviderError "sm" "batch" (ESentinel ErrUnavailable)).
Proof.
  apply (batch_failure_ignores_onfail (fun _ => None)
    (MkSpec "A" [demo_ref "sm" "a"] "fallback" true "" false [] TString false onFailUseDefault)
    (demo_ref "sm" "a") (ESentinel ErrUnavailable)); reflexivity.
Defined.

(** A ref whose scheme has no provider is classified "invalid" by
    [Resolve], and "unknown" by the struct resolve that [Load] runs, for the
    same ref. *)
Theorem unknown_scheme_kinds {W} `{Env W} gz (provider : string -> option (Provider W)) s r w :
  spec_Refs s = [r] -> provider (ref_Scheme r) = None ->
  (exists e, (resolve_refs gz provider r [r] w).2 = Err e /\ ErrorKind (Some e) = KindInvalid) /\
  (exists e, (resolveAll gz provider [ref_Scheme r] [s] w).2 = Err e /\ ErrorKind (Some e) = KindUnknown).
Proof.
  intros Hs Hp. split.
  - simpl. rewrite Hp. eexists. split; [done|]. reflexivity.
  - unfold resolveAll. simpl. rewrite Hp. eexists. split; reflexivity.
Qed.

Lemma unknown_scheme_kinds_witness :
  exists e, (resolveAll (fun _ => None) (fun _ => None : option (Provider unit)) ["vualt"]
    [demo_spec "A" [demo_ref "vualt" "kv/a"] None] tt).2 = Err e /\ ErrorKind (Some e) = KindUnknown.
Proof.
  apply (unknown_scheme_kinds (fun _ => None) (fun _ => None)
    (demo_spec "A" [demo_ref "vualt" "kv/a"] None) (demo_ref "vualt" "kv/a") tt); reflexivity.
Defined.
