(* ===== verification/Config.v ===== *)
(** What the reconciler needs of the configuration type: the interface
    [Config], the diff events it publishes (src/reconciler.go [FieldChange],
    [Change]) with the diff of the derived fields, and the instance for the
    struct universe of [Fields] with the canonical encoding behind the version
    of a derived field (src/derivedversion.go). *)

From S2P Require Import Prelude Errors GoStrings Ref Provider Decode GoNumbers Fields.
Open Scope string_scope.

(** * The interface *)

(** A configuration type [T]; [View] is the value of one readable field.
    [cfg_view] is [fieldByPath] followed by [CanInterface] and [Interface]. *)
Class Config (T View : Type) := {
  cfg_zero : T;
  cfg_setField : fieldSpec -> string -> T -> res T;
  cfg_view : T -> string -> option View;
  DeepEqual : View -> View -> bool;
  derivedVersion : View -> string;
  view_secret : View -> bool;
}.

(** [type FieldChange struct] and [type Change[T] struct]. *)
Record FieldChange := MkFieldChange {
  fc_Path : string;
  fc_OldVersion : string;
  fc_NewVersion : string;
}.

#[export] Instance FieldChange_eq_dec : EqDecision FieldChange.
Proof. solve_decision. Defined.

Record Change (T : Type) := MkChange {
  ch_Old : T;
  ch_New : T;
  ch_Fields : list FieldChange;
}.
Arguments MkChange {T}.
Arguments ch_Old {T}.
Arguments ch_New {T}.
Arguments ch_Fields {T}.

(** [func (c Change[T]) Changed(path string) bool]. *)
Definition Changed {T} (c : Change T) (path : string) : bool :=
  existsb (fun f => bool_decide (fc_Path f = path)) (ch_Fields c).

(** [type typedDerive[T] struct]: a hook rewrites the candidate or fails. *)
Record typedDerive (T : Type) := MkDerive {
  derive_fn : T -> res T;
  derive_writes : list string;
}.
Arguments MkDerive {T}.
Arguments derive_fn {T}.
Arguments derive_writes {T}.

(** [func hasSpecPath(specs []fieldSpec, path string) bool]. *)
Definition hasSpecPath (specs : list fieldSpec) (path : string) : bool :=
  existsb (fun s => bool_decide (spec_Path s = path)) specs.

(** The declared write paths in the order of their first declaration: the outer
    loops of [derivedFieldChanges] and of the derived part of a report, with the
    [seen] map and the [hasSpecPath] gate. *)
Fixpoint fresh_paths (seen : gset string) (specs : list fieldSpec) (paths : list string) : list string :=
  match paths with
  | [] => []
  | p :: paths =>
      if bool_decide (p ∈ seen) then fresh_paths seen specs paths
      else if hasSpecPath specs p then fresh_paths ({[p]} ∪ seen) specs paths
      else p :: fresh_paths ({[p]} ∪ seen) specs paths
  end.

Definition derived_paths {T} (derives : list (typedDerive T)) (specs : list fieldSpec) : list string :=
  fresh_paths ∅ specs (flat_map derive_writes derives).

Section derived.
Context {T View : Type} `{Config T View}.

(** The comparison of one declared path. *)
Definition derived_change (oldCfg newCfg : T) (p : string) : option FieldChange :=
  match cfg_view oldCfg p, cfg_view newCfg p with
  | Some o, Some n =>
      if DeepEqual o n then None
      else Some (MkFieldChange p (derivedVersion o) (derivedVersion n))
  | _, _ => None
  end.

(** [func derivedFieldChanges(oldCfg, newCfg, derives, specs) []FieldChange]. *)
Definition derivedFieldChanges (oldCfg newCfg : T) (derives : list (typedDerive T))
    (specs : list fieldSpec) : list FieldChange :=
  omap (derived_change oldCfg newCfg) (derived_paths derives specs).

(** [func typedDerives]: the shape check on the declared paths. *)
Definition typedDerives (derives : list (typedDerive T)) : res (list (typedDerive T)) :=
  if forallb (fun d => forallb (fun w => negb (bool_decide (TrimSpace w = ""))) (derive_writes d)) derives
  then Ok derives
  else Err (EWrap "mamori: WithDerive hook declares an empty or whitespace-only write path"
              [ESentinel ErrInvalid]).

(** The derive loop: each hook sees what the previous ones wrote. *)
Fixpoint run_derives (derives : list (typedDerive T)) (cfg : T) : res T :=
  match derives with
  | [] => Ok cfg
  | d :: derives =>
      match derive_fn d cfg with
      | Err e => Err (DeriveError e)
      | Ok cfg => run_derives derives cfg
      end
  end.
End derived.

(** * Facts *)

Lemma typedDerives_id {T} (derives : list (typedDerive T)) ds : typedDerives derives = Ok ds -> ds = derives.
Proof. unfold typedDerives. by case_match; intros; simplify_eq. Qed.

Lemma hasSpecPath_true specs p : hasSpecPath specs p = true <-> exists s, s ∈ specs /\ spec_Path s = p.
Proof.
  unfold hasSpecPath. rewrite existsb_exists. split.
  - intros (s & Hs & Hp). bool_norm. exists s. by rewrite list_elem_of_In.
  - intros (s & Hs & Hp). exists s. rewrite <- list_elem_of_In. by rewrite bool_decide_eq_true_2.
Qed.

Lemma fresh_paths_spec seen specs paths :
  NoDup (fresh_paths seen specs paths) /\
  forall p, p ∈ fresh_paths seen specs paths <->
            p ∈ paths /\ p ∉ seen /\ hasSpecPath specs p = false.
Proof.
  revert seen. induction paths as [|q paths IH]; intros seen; simpl.
  { split; [constructor|]. intros p. rewrite elem_of_nil. tauto. }
  case_bool_decide as Hq.
  - destruct (IH seen) as [Hnd Hin]. split; [done|]. intros p. rewrite Hin, elem_of_cons.
    split; [tauto|]. by intros ([->|?] & ? & ?).
  - destruct (IH ({[q]} ∪ seen)) as [Hnd Hin].
    destruct (hasSpecPath specs q) eqn:Hs.
    + split; [done|]. intros p.
      rewrite Hin, elem_of_cons, not_elem_of_union, not_elem_of_singleton.
      split; [tauto|]. intros ([->|?] & ? & Hp); [congruence|]. split_and!; try done. congruence.
    + split.
      * constructor; [|done]. rewrite Hin, not_elem_of_union, not_elem_of_singleton. tauto.
      * intros p. rewrite elem_of_cons, Hin, elem_of_cons, not_elem_of_union, not_elem_of_singleton.
        destruct (decide (p = q)) as [->|]; tauto.
Qed.

(** The paths of derived changes name no spec, and none twice. *)
Lemma derivedFieldChanges_paths {T View} `{Config T View} (old new : T) derives specs f :
  f ∈ derivedFieldChanges old new derives specs ->
  hasSpecPath specs (fc_Path f) = false /\ fc_Path f ∈ flat_map derive_writes derives.
Proof.
  unfold derivedFieldChanges, derived_paths. intros (p & Hp & Hf)%list_elem_of_omap.
  apply fresh_paths_spec in Hp as (Hw & _ & Hn). unfold derived_change in Hf.
  by repeat case_match; simplify_eq/=.
Qed.
