(* ===== verification/DerivedVersion.v ===== *)
(** The canonical encoding behind the version of a derived field
    (src/derivedversion.go), and the [Config] instance of the struct universe:
    [setField], [fieldByPath] and the derived version over [gval]. *)

From S2P Require Import Prelude Errors GoStrings Ref Provider Decode GoNumbers Fields Config.
Open Scope string_scope.

(** [derivedVersionMaxDepth]. *)
Definition derivedVersionMaxDepth : nat := 32.

(** [appendLenBytes(nil, b)]. *)
Definition len_bytes (b : string) : string :=
  FormatInt (Z.of_nat (String.length b)) ++ String ":" b.

Definition nil_or {A} (o : option A) (f : A -> string) : string :=
  match o with None => "nil" | Some a => f a end.

Section canonical.
(** [strconv.AppendFloat(nil, x, 'g', -1, 64)], the encoding of a value of a
    kind outside the universe, and the comparison of floats and of such
    values that [reflect.DeepEqual] makes. *)
Context (AppendFloat : Z -> string) (other_canonical : string -> string).
Context (float_eqb : Z -> Z -> bool) (other_eqb : string -> string -> bool).

(** A secret: its bytes when it can be revealed; one held in an unexported
    field is walked as the struct it is, one level down. *)
Definition canonical_secret (readable : bool) (depth : nat) (b : option string) : string :=
  if readable then String "s" (len_bytes (default "" b))
  else
    "{b=" ++
    (if (derivedVersionMaxDepth <? S depth)%nat then "trunc"
     else nil_or b (fun b => String "b" (len_bytes b))) ++ ";}".

(** [func appendCanonical(dst, v, depth)]: what it appends. *)
Fixpoint appendCanonical (readable : bool) (depth : nat) (v : gval) : string :=
  if (derivedVersionMaxDepth <? depth)%nat then "trunc"
  else
    match v with
    | VSecretString b | VSecretBytes b => canonical_secret readable depth b
    | VStruct fs =>
        "{" ++ Join (map (fun f => f.1.1 ++ "=" ++
                 appendCanonical (readable && f.1.2) (S depth) f.2 ++ ";") fs) "" ++ "}"
    | VBytes b => nil_or b (fun b => String "b" (len_bytes b))
    | VString s => String "s" (len_bytes s)
    | VBool b => if b then "true" else "false"
    | VInt n => FormatInt n
    | VUint n => FormatUint n
    | VFloat x => AppendFloat x
    | VOther s => other_canonical s
    end.

(** [func canonicalBytes(v)]: a secret, a string or a byte slice alone is its
    own bytes. *)
Definition canonicalBytes (v : gval) : string :=
  match v with
  | VSecretString b | VSecretBytes b => default "" b
  | VString s => s
  | VBytes (Some b) => b
  | _ => appendCanonical true 0 v
  end.

(** [func derivedVersion(v)] of a readable value. *)
Definition derived_version (v : gval) : string := VersionHash (canonicalBytes v).

(** [reflect.DeepEqual] on two values of the universe. *)
Fixpoint deep_equal (v w : gval) : bool :=
  match v, w with
  | VString s, VString t => bool_decide (s = t)
  | VBool b, VBool c => Bool.eqb b c
  | VInt n, VInt m | VUint n, VUint m => (n =? m)%Z
  | VFloat x, VFloat y => float_eqb x y
  | VSecretString s, VSecretString t | VSecretBytes s, VSecretBytes t
  | VBytes s, VBytes t => bool_decide (s = t)
  | VOther s, VOther t => other_eqb s t
  | VStruct fs, VStruct gs =>
      (fix all (fs gs : list (string * bool * gval)) : bool :=
         match fs, gs with
         | [], [] => true
         | f :: fs, g :: gs => bool_decide (f.1 = g.1) && deep_equal f.2 g.2 && all fs gs
         | _, _ => false
         end) fs gs
  | _, _ => false
  end.

Definition is_secret_value (v : gval) : bool :=
  match v with VSecretString _ | VSecretBytes _ => true | _ => false end.

(** A field read by its path, when it can be read. *)
Definition readable_field (root : gval) (path : string) : option gval :=
  match fieldByPath root path with
  | Some (true, v) => Some v
  | _ => None
  end.

(** The configuration type of a struct type [ty]. *)
Definition struct_config (ty : gtype) (set : fieldSpec -> string -> gval -> res gval)
    : Config gval gval :=
  {| cfg_zero := zero_of ty;
     cfg_setField := set;
     cfg_view := readable_field;
     DeepEqual := deep_equal;
     derivedVersion := derived_version;
     view_secret := is_secret_value |}.
End canonical.
