(* ===== verification/Pointer.v ===== *)
(** Selecting one value of a structured payload (src/jsonpointer.go,
    [SelectKey] of src/helpers.go): RFC 6901 pointers and literal keys, against
    the reference semantics of a pointer as a path of object keys and array
    indices. [encoding/json] is a parameter. *)

From S2P Require Import Prelude Errors GoStrings Ref Provider GoNumbers.
Open Scope string_scope.
Open Scope Z_scope.

(** [encoding/json] as this code calls it: [json.Unmarshal] into a
    map and a slice of [json.RawMessage] and into a string, [None] when it
    returns an error. *)
Class JSON := {
  Unmarshal_object : string -> option (gmap string string);
  Unmarshal_array : string -> option (list string);
  Unmarshal_string : string -> option string;
}.

(** * Tokens *)

(** [func containerKind(raw json.RawMessage) byte]. *)
Fixpoint containerKind (raw : string) : ascii :=
  match raw with
  | EmptyString => byte_of 0
  | String c raw =>
      if ascii_eqb c " " || ascii_eqb c (byte_of 9) || ascii_eqb c (byte_of 10) || ascii_eqb c (byte_of 13)
      then containerKind raw
      else c
  end.

Definition errBadEscape : error := EWrap "token: bad escape" [ESentinel ErrInvalid].

(** The loop of [unescapeToken]. *)
Fixpoint unescape_loop (tok : string) : res string :=
  match tok with
  | EmptyString => Ok ""
  | String c rest =>
      if negb (ascii_eqb c "~") then String c <$> unescape_loop rest
      else
        match rest with
        | EmptyString => Err errBadEscape
        | String d rest =>
            if ascii_eqb d "0" then String "~" <$> unescape_loop rest
            else if ascii_eqb d "1" then String "/" <$> unescape_loop rest
            else Err errBadEscape
        end
  end.

(** [func unescapeToken(tok string) (string, error)]. *)
Definition unescapeToken (tok : string) : res string :=
  if negb (has_byte "~" tok) then Ok tok else unescape_loop tok.

Definition errBadIndex : error := EWrap "array index" [ESentinel ErrInvalid].

(** Every byte of [tok] is an ASCII digit. *)
Fixpoint all_digits (tok : string) : bool :=
  match tok with
  | EmptyString => true
  | String c tok => is_digit c && all_digits tok
  end.

(** [strconv.Atoi]: [ParseInt] at the width of an int, 64 bits. *)
Definition Atoi (s : string) : option Z := ParseInt s.

(** [func arrayIndex(tok string) (int, error)]. *)
Definition arrayIndex (tok : string) : res Z :=
  if bool_decide (tok = "-") then Err errBadIndex
  else if bool_decide (tok = "") then Err errBadIndex
  else if negb (all_digits tok) then Err errBadIndex
  else if (1 <? String.length tok)%nat && HasPrefix tok "0" then Err errBadIndex
  else match Atoi tok with
       | None => Err errBadIndex
       | Some i => Ok i
       end.

Section pointer.
Context `{JSON}.

(** [func unquoteJSON(raw json.RawMessage) []byte]. *)
Definition unquoteJSON (raw : string) : string :=
  match Unmarshal_string raw with
  | Some s => s
  | None => raw
  end.

Definition errMalformed (what : string) : error :=
  EWrap what [ESentinel ErrInvalid; EOpaque "json"].
Definition errKeyAbsent : error := EWrap "key not present" [ESentinel ErrNotFound].
Definition errIndexRange : error := EWrap "index out of range" [ESentinel ErrNotFound].
Definition errNotContainer : error :=
  EWrap "cannot descend into a non-container value" [ESentinel ErrInvalid].

(** [func descend(node json.RawMessage, tok, ptr string) (json.RawMessage, error)]. *)
Definition descend (node tok : string) : res string :=
  if ascii_eqb (containerKind node) "{" then
    match Unmarshal_object node with
    | None => Err (errMalformed "malformed object")
    | Some obj =>
        match obj !! tok with
        | None => Err errKeyAbsent
        | Some v => Ok v
        end
    end
  else if ascii_eqb (containerKind node) "[" then
    match Unmarshal_array node with
    | None => Err (errMalformed "malformed array")
    | Some arr =>
        match arrayIndex tok with
        | Err e => Err (EWrap "pointer" [e])
        | Ok i =>
            if Z.of_nat (length arr) <=? i then Err errIndexRange
            else match arr !! Z.to_nat i with
                 | Some v => Ok v
                 | None => Err errIndexRange
                 end
        end
    end
  else Err errNotContainer.

(** The loop of [selectPointer] over the raw tokens. *)
Fixpoint pointer_loop (cur : string) (raws : list string) : res string :=
  match raws with
  | [] => Ok (unquoteJSON cur)
  | raw :: raws =>
      match unescapeToken raw with
      | Err e => Err (EWrap "pointer" [e])
      | Ok tok =>
          match descend cur tok with
          | Err e => Err e
          | Ok next => pointer_loop next raws
          end
      end
  end.

(** [func selectPointer(data []byte, ptr string) ([]byte, error)]. *)
Definition selectPointer (data ptr : string) : res string :=
  pointer_loop data (tail (Split ptr "/")).

(** [func SelectKey(data []byte, key string) ([]byte, error)]. *)
Definition SelectKey (data key : string) : res string :=
  if bool_decide (key = "") then Ok data
  else if HasPrefix key "/" then selectPointer data key
  else
    match Unmarshal_object data with
    | None => Err (errMalformed "payload is not a JSON object")
    | Some obj =>
        match obj !! key with
        | None => Err errKeyAbsent
        | Some raw => Ok (unquoteJSON raw)
        end
    end.

(** * The reference semantics *)

(** One step of a path: a key of an object, or the decimal text of the index
    of an element. *)
Inductive child (node tok next : string) : Prop :=
  | child_key obj :
      containerKind node = "{"%char -> Unmarshal_object node = Some obj ->
      obj !! tok = Some next -> child node tok next
  | child_index arr i :
      containerKind node = "["%char -> Unmarshal_array node = Some arr ->
      tok = FormatUint (Z.of_nat i) -> Z.of_nat i < 2 ^ 63 -> arr !! i = Some next ->
      child node tok next.

Inductive addresses : string -> list string -> string -> Prop :=
  | addresses_nil node : addresses node [] node
  | addresses_cons node tok next toks target :
      child node tok next -> addresses next toks target ->
      addresses node (tok :: toks) target.

(** The token names nothing in a container of the right shape. *)
Inductive absent (node tok : string) : Prop :=
  | absent_key obj :
      containerKind node = "{"%char -> Unmarshal_object node = Some obj ->
      obj !! tok = None -> absent node tok
  | absent_index arr i :
      containerKind node = "["%char -> Unmarshal_array node = Some arr ->
      tok = FormatUint i -> Z.of_nat (length arr) <= i < 2 ^ 63 -> absent node tok.
End pointer.

(** RFC 6901 escaping, and the text of a path. *)
Fixpoint escapeToken (tok : string) : string :=
  match tok with
  | EmptyString => ""
  | String c tok =>
      if ascii_eqb c "~" then String "~" (String "0" (escapeToken tok))
      else if ascii_eqb c "/" then String "~" (String "1" (escapeToken tok))
      else String c (escapeToken tok)
  end.

Definition pointer_of (toks : list string) : string :=
  Join ("" :: map escapeToken toks) "/".

(** * Escaping *)

Lemma escapeToken_no_slash tok : has_byte "/" (escapeToken tok) = false.
Proof.
  induction tok as [|c tok IH]; [done|]. cbn [escapeToken].
  destruct (ascii_eqb c "~") eqn:E1; [by simpl|].
  destruct (ascii_eqb c "/") eqn:E2; [by simpl|]. cbn [has_byte]. by rewrite E2, IH.
Qed.

Lemma unescape_loop_escape tok : unescape_loop (escapeToken tok) = Ok tok.
Proof.
  induction tok as [|c tok IH]; [done|]. cbn [escapeToken].
  destruct (ascii_eqb c "~") eqn:E1.
  { apply ascii_eqb_true in E1 as ->. simpl. by rewrite IH. }
  destruct (ascii_eqb c "/") eqn:E2.
  { apply ascii_eqb_true in E2 as ->. simpl. by rewrite IH. }
  cbn [unescape_loop]. by rewrite E1, IH.
Qed.

Lemma unescape_loop_plain tok : has_byte "~" tok = false -> unescape_loop tok = Ok tok.
Proof.
  induction tok as [|c tok IH]; [done|]. cbn [has_byte unescape_loop].
  intros [-> Hf]%orb_false_iff. simpl. by rewrite IH.
Qed.

(** The shortcut for a token without a tilde is one. *)
Lemma unescapeToken_loop tok : unescapeToken tok = unescape_loop tok.
Proof.
  unfold unescapeToken. destruct (has_byte "~" tok) eqn:E; [done|]. simpl.
  by rewrite unescape_loop_plain.
Qed.

#[export] Instance escapeToken_inj : Inj eq eq escapeToken.
Proof.
  intros a b E. pose proof (unescape_loop_escape a) as U. rewrite E, unescape_loop_escape in U. congruence.
Qed.

(** On text without a slash, unescaping is inverted by escaping: the two are a
    bijection between tokens and the well-formed texts of tokens. *)
Lemma escape_unescape_loop n raw tok :
  (String.length raw <= n)%nat -> has_byte "/" raw = false ->
  unescape_loop raw = Ok tok -> escapeToken tok = raw.
Proof.
  revert raw tok. induction n as [|n IH]; intros [|c raw] tok Hn Hs; simpl in Hn; try lia.
  1-2: by intros [= <-].
  cbn [has_byte] in Hs. apply orb_false_iff in Hs as [Hc Hs]. cbn [unescape_loop].
  destruct (ascii_eqb c "~") eqn:E; simpl.
  - apply ascii_eqb_true in E as ->. destruct raw as [|d raw]; [done|].
    cbn [has_byte] in Hs. apply orb_false_iff in Hs as [_ Hs]. simpl in Hn.
    destruct (ascii_eqb d "0") eqn:E0; [|destruct (ascii_eqb d "1") eqn:E1; [|done]].
    + apply ascii_eqb_true in E0 as ->. intros (t & Ht & ->)%res_fmap_Ok. simpl.
      by rewrite (IH raw t) by (done || lia).
    + apply ascii_eqb_true in E1 as ->. intros (t & Ht & ->)%res_fmap_Ok. simpl.
      by rewrite (IH raw t) by (done || lia).
  - intros (t & Ht & ->)%res_fmap_Ok. cbn [escapeToken]. rewrite E, Hc.
    by rewrite (IH raw t) by (done || lia).
Qed.

Lemma unescapeToken_spec raw tok :
  has_byte "/" raw = false -> unescapeToken raw = Ok tok <-> raw = escapeToken tok.
Proof.
  intros Hs. rewrite unescapeToken_loop. split.
  - intros Hu. symmetry. by eapply escape_unescape_loop.
  - intros ->. apply unescape_loop_escape.
Qed.

Lemma unescapeToken_error raw e : unescapeToken raw = Err e -> e = errBadEscape.
Proof.
  rewrite unescapeToken_loop. cut (forall n, (String.length raw <= n)%nat ->
    unescape_loop raw = Err e -> e = errBadEscape); [naive_solver|].
  intros n. revert raw. induction n as [|n IH]; intros [|c raw]; simpl; try done; [lia|].
  intros Hn. destruct (negb _).
  { destruct (unescape_loop raw) eqn:E; simpl; [done|]. intros [= ->]. apply (IH raw); [lia|done]. }
  destruct raw as [|d raw]; [by intros [= <-]|]. simpl in Hn.
  destruct (ascii_eqb d "0"); [|destruct (ascii_eqb d "1"); [|by intros [= <-]]].
  all: destruct (unescape_loop raw) eqn:E; simpl; [done|]; intros [= ->]; apply (IH raw); [lia|done].
Qed.

(** * Indices *)

Lemma all_digits_digits acc tok : all_digits tok = true -> exists n, digits acc tok = Some n.
Proof.
  revert acc. induction tok as [|c tok IH]; intros acc; cbn [all_digits digits]; [eauto|].
  intros [-> Ht]%andb_true_iff. by apply IH.
Qed.

Lemma digits_all_digits acc tok n : digits acc tok = Some n -> all_digits tok = true.
Proof.
  revert acc. induction tok as [|c tok IH]; intros acc; cbn [all_digits digits]; [done|].
  destruct (is_digit c); [apply IH|done].
Qed.

(** On digits alone [strconv.Atoi] reads the number, and refuses what an int
    does not hold. *)
Lemma Atoi_digits tok n :
  tok <> "" -> all_digits tok = true -> digits 0 tok = Some n ->
  Atoi tok = if n <? 2 ^ 63 then Some n else None.
Proof.
  intros Hne Ha Hd. unfold Atoi, ParseInt. destruct tok as [|c tok]; [done|].
  cbn [all_digits] in Ha. apply andb_true_iff in Ha as [Hc _].
  rewrite !ascii_eqb_ne by (intros ->; done). unfold ParseUint. rewrite Hd.
  destruct (Z.ltb_spec n (2 ^ 64)), (Z.ltb_spec n (2 ^ 63)); simpl; try done; lia.
Qed.

Lemma no_leading_zero_test tok :
  (1 <? String.length tok)%nat && HasPrefix tok "0" = false <-> no_leading_zero tok.
Proof.
  unfold no_leading_zero. split.
  - intros Hf t ->. destruct t; [done|]. simpl in Hf. done.
  - intros Hz. destruct tok as [|c [|d t]]; [done|done|]. simpl.
    destruct (ascii_eqb "0" c) eqn:E; simpl; [|done].
    apply ascii_eqb_true in E as <-. by specialize (Hz _ eq_refl).
Qed.

(** [arrayIndex] accepts the decimal text of an int and nothing else: no sign,
    no leading zero, no number an int does not hold. *)
Lemma arrayIndex_spec tok i :
  arrayIndex tok = Ok i <-> 0 <= i < 2 ^ 63 /\ tok = FormatUint i.
Proof.
  unfold arrayIndex. split.
  - case_bool_decide as Hm; [done|]. case_bool_decide as He; [done|].
    destruct (all_digits tok) eqn:Ha; simpl; [|done].
    destruct ((1 <? String.length tok)%nat && HasPrefix tok "0") eqn:Hz; [done|].
    apply no_leading_zero_test in Hz. destruct (all_digits_digits 0 tok Ha) as [n Hd].
    rewrite (Atoi_digits tok n) by done. pose proof (digits_nonneg 0 tok n ltac:(lia) Hd).
    destruct (Z.ltb_spec n (2 ^ 63)); [|done]. intros [= ->]. split; [done|].
    destruct (FormatUint_canonical i ltac:(lia)) as (Hn & Hc & Hf).
    by apply (digits_canonical _ _ i).
  - intros [Hi ->]. destruct (FormatUint_canonical i ltac:(lia)) as (Hn & Hc & Hf).
    pose proof (digits_all_digits _ _ _ Hf) as Ha. apply no_leading_zero_test in Hc.
    rewrite bool_decide_eq_false_2.
    + rewrite bool_decide_eq_false_2 by done. rewrite Ha, Hc. simpl.
      rewrite (Atoi_digits _ i) by done. destruct (Z.ltb_spec i (2 ^ 63)); [done|lia].
    + intros E. by rewrite E in Ha.
Qed.

Lemma arrayIndex_error tok e : arrayIndex tok = Err e -> e = errBadIndex.
Proof. unfold arrayIndex. repeat case_match; congruence. Qed.

Section spec.
Context `{JSON}.

(** * One step *)

Lemma descend_spec node tok next : descend node tok = Ok next <-> child node tok next.
Proof.
  unfold descend. split.
  - destruct (ascii_eqb (containerKind node) "{") eqn:Eo.
    { apply ascii_eqb_true in Eo. destruct (Unmarshal_object node) as [obj|] eqn:Hu; [|done].
      destruct (obj !! tok) eqn:Hl; [|done]. intros [= ->]. by eapply child_key. }
    destruct (ascii_eqb (containerKind node) "[") eqn:Ea; [|done]. apply ascii_eqb_true in Ea.
    destruct (Unmarshal_array node) as [arr|] eqn:Hu; [|done].
    destruct (arrayIndex tok) as [i|] eqn:Hi; [|done]. apply arrayIndex_spec in Hi as [Hi ->].
    destruct (Z.leb_spec (Z.of_nat (length arr)) i); [done|].
    destruct (arr !! Z.to_nat i) eqn:Hl; [|done]. intros [= ->].
    eapply (child_index _ _ _ arr (Z.to_nat i)); [done|done| |lia|done]. by rewrite Z2Nat.id by lia.
  - intros [obj Hk Hu Hl|arr i Hk Hu -> Hi Hl]; rewrite Hk, Hu; simpl.
    { by rewrite Hl. }
    rewrite (proj2 (arrayIndex_spec (FormatUint (Z.of_nat i)) (Z.of_nat i))) by (split; [lia|done]).
    pose proof (lookup_lt_Some _ _ _ Hl). destruct (Z.leb_spec (Z.of_nat (length arr)) (Z.of_nat i)); [lia|].
    by rewrite Nat2Z.id, Hl.
Qed.

Lemma child_not_absent node tok next : child node tok next -> absent node tok -> False.
Proof.
  intros [obj Hk Hu Hl|arr i Hk Hu -> Hi Hl] [obj' Hk' Hu' Hl'|arr' i' Hk' Hu' E Hi']; try congruence.
  apply FormatUint_inj in E; [|lia|lia]. apply lookup_lt_Some in Hl. simplify_eq. lia.
Qed.

(** A step fails with absence exactly when the token names nothing, and with
    an invalid request otherwise. *)
Lemma descend_error node tok e :
  descend node tok = Err e ->
  (errors_Is e ErrNotFound = true /\ absent node tok) \/
  (errors_Is e ErrNotFound = false /\ errors_Is e ErrInvalid = true /\ ~ absent node tok).
Proof.
  unfold descend. destruct (ascii_eqb (containerKind node) "{") eqn:Eo.
  { apply ascii_eqb_true in Eo. destruct (Unmarshal_object node) as [obj|] eqn:Hu.
    - destruct (obj !! tok) eqn:Hl; [done|]. intros [= <-]. left. split; [done|]. by eapply absent_key.
    - intros [= <-]. right. split_and!; [done|done|].
      intros [? ? ? ?|? ? ? ? ? ?]; [congruence|]. rewrite Eo in *. done. }
  destruct (ascii_eqb (containerKind node) "[") eqn:Ea.
  2: { intros [= <-]. right. split_and!; [done|done|].
       intros [? Hk|? ? Hk]; rewrite Hk in *; done. }
  apply ascii_eqb_true in Ea.
  destruct (Unmarshal_array node) as [arr|] eqn:Hu.
  2: { intros [= <-]. right. split_and!; [done|done|]. intros [|]; rewrite ?Ea in *; congruence. }
  destruct (arrayIndex tok) as [i|] eqn:Hi.
  - apply arrayIndex_spec in Hi as [Hi ->].
    destruct (Z.leb_spec (Z.of_nat (length arr)) i).
    { intros [= <-]. left. split; [done|]. eapply absent_index; [done|done|done|lia]. }
    destruct (arr !! Z.to_nat i) eqn:Hl; [done|]. apply lookup_ge_None in Hl. lia.
  - pose proof (arrayIndex_error _ _ Hi) as ->. intros [= <-]. right. split_and!; [done|done|].
    intros [|? i ? ? -> Hr]; [rewrite Ea in *; done|].
    rewrite (proj2 (arrayIndex_spec _ i)) in Hi by (split; [lia|done]). done.
Qed.

(** * Whole paths *)

Lemma pointer_loop_spec data raws v :
  Forall (fun raw => has_byte "/" raw = false) raws ->
  pointer_loop data raws = Ok v <->
  exists toks target, raws = map escapeToken toks /\ addresses data toks target /\ v = unquoteJSON target.
Proof.
  intros Hs. revert data. induction Hs as [|raw raws Hr Hs IH]; intros data; cbn [pointer_loop].
  - split.
    + intros [= <-]. exists [], data. split_and!; [done|constructor|done].
    + intros (toks & target & E & Ha & ->). destruct toks; [|done]. by inversion Ha.
  - split.
    + destruct (unescapeToken raw) as [tok|] eqn:Hu; [|done].
      destruct (descend data tok) as [next|] eqn:Hd; [|done].
      intros (toks & target & -> & Ha & ->)%IH. exists (tok :: toks), target.
      apply unescapeToken_spec in Hu as ->; [|done]. split_and!; [done| |done].
      econstructor; [by apply descend_spec|done].
    + intros (toks & target & E & Ha & ->). destruct toks as [|tok toks]; [done|].
      injection E as -> ->. inversion_clear Ha as [|? ? next ? ? Hc Ht].
      rewrite (proj2 (unescapeToken_spec _ tok Hr)) by done.
      rewrite (proj2 (descend_spec _ _ _) Hc). apply IH. eauto.
Qed.
End spec.

(** The reference tokens of a pointer, as they are written. *)
Definition tokens (ptr : string) : list string := tail (Split ptr "/").

Lemma tokens_free ptr : Forall (fun raw => has_byte "/" raw = false) (tokens ptr).
Proof. unfold tokens. pose proof (Split_free ptr "/"%char) as Hf. by destruct Hf. Qed.

Lemma tokens_pointer_of toks : toks <> [] -> tokens (pointer_of toks) = map escapeToken toks.
Proof.
  intros Hne. unfold tokens, pointer_of. rewrite Split_Join; [done|done|].
  constructor; [done|]. apply Forall_forall. intros x Hx.
  apply list_elem_of_fmap in Hx as (tok & -> & _). apply escapeToken_no_slash.
Qed.

Lemma pointer_of_tokens ptr toks :
  HasPrefix ptr "/" = true -> tokens ptr = map escapeToken toks -> ptr = pointer_of toks /\ toks <> [].
Proof.
  intros [t ->]%HasPrefix_true. change ("/" ++ t) with (String "/" t). unfold tokens, pointer_of.
  cbn [Split]. rewrite ascii_eqb_refl. cbn [tail]. intros E. split.
  - rewrite <- E. rewrite <- (Join_Split t "/"%char) at 1. pose proof (Split_nonempty t "/"%char).
    by destruct (Split t "/").
  - intros ->. by apply (Split_nonempty t "/"%char).
Qed.

Section select.
Context `{JSON}.

(** The raw tokens lead to a node and name nothing in it, whatever follows. *)
Definition nothing_at (data : string) (raws : list string) : Prop :=
  exists toks tok rest node,
    raws = (map escapeToken toks ++ escapeToken tok :: rest)%list /\
    addresses data toks node /\ absent node tok.

(** Absence of a whole selection: an object of the payload has no such key, or
    an array no such element, at the end of an addressed prefix. *)
Inductive names_nothing (data key : string) : Prop :=
  | nothing_literal obj :
      HasPrefix key "/" = false -> Unmarshal_object data = Some obj -> obj !! key = None ->
      names_nothing data key
  | nothing_pointer :
      HasPrefix key "/" = true -> nothing_at data (tokens key) -> names_nothing data key.

Lemma nothing_at_nil data : ~ nothing_at data [].
Proof. by intros ([|] & ? & ? & ? & ? & _). Qed.

Lemma nothing_at_cons data tok raws :
  nothing_at data (escapeToken tok :: raws) <->
  absent data tok \/ exists next, child data tok next /\ nothing_at next raws.
Proof.
  split.
  - intros ([|t toks] & tok' & rest & node & E & Ha & Hb); injection E as E1%(inj escapeToken) ->; subst.
    + inversion Ha; subst. by left.
    + inversion_clear Ha as [|? ? next ? ? Hc Ht]. right. exists next. split; [done|]. by exists toks, tok', rest, node.
  - intros [Hb|(next & Hc & toks & tok' & rest & node & -> & Ha & Hb)].
    + exists [], tok, raws, data. split_and!; [done|constructor|done].
    + exists (tok :: toks), tok', rest, node. split_and!; [done|by econstructor|done].
Qed.

Lemma nothing_at_bad data raw raws e : unescapeToken raw = Err e -> ~ nothing_at data (raw :: raws).
Proof.
  rewrite unescapeToken_loop. intros Hu ([|t toks] & tok & rest & node & E & _); injection E as -> _;
    by rewrite unescape_loop_escape in Hu.
Qed.

Lemma pointer_loop_error data raws e :
  Forall (fun raw => has_byte "/" raw = false) raws -> pointer_loop data raws = Err e ->
  (errors_Is e ErrNotFound = true /\ nothing_at data raws) \/
  (errors_Is e ErrNotFound = false /\ errors_Is e ErrInvalid = true /\ ~ nothing_at data raws).
Proof.
  intros Hs. revert data. induction Hs as [|raw raws Hr Hs IH]; intros data; cbn [pointer_loop]; [done|].
  destruct (unescapeToken raw) as [tok|e1] eqn:Hu.
  2: { pose proof (unescapeToken_error _ _ Hu) as ->. intros [= <-]. right.
       split_and!; [done|done|]. by eapply nothing_at_bad. }
  pose proof (proj1 (unescapeToken_spec raw tok Hr) Hu) as ->. rewrite nothing_at_cons.
  destruct (descend data tok) as [next|e1] eqn:Hd.
  - pose proof (proj1 (descend_spec _ _ _) Hd) as Hc.
    assert (Hn : absent data tok \/ (exists next, child data tok next /\ nothing_at next raws) <-> nothing_at next raws).
    { split; [|eauto]. intros [Hb|(next' & Hc'%descend_spec & Hn)]; [by destruct (child_not_absent data tok next)|].
      congruence. }
    rewrite Hn. apply IH.
  - intros [= <-]. assert (Hn : ~ exists next, child data tok next /\ nothing_at next raws).
    { intros (next & Hc%descend_spec & _). congruence. }
    destruct (descend_error _ _ _ Hd) as [[??]|(?&?&?)]; [by left; eauto|right; tauto].
Qed.
End select.

(** * Properties *)

Section properties.
Context `{JSON}.

(** A pointer selects exactly what the path it spells addresses: every
    pointer that succeeds is the one text of a path of keys and indices, the
    path leads from the document to a value, and the selection is that value,
    unquoted when it is a string; and every path that leads to a value is
    selected by its text, whatever slashes and tildes its keys hold. *)
Theorem selectPointer_spec data ptr v :
  HasPrefix ptr "/" = true ->
  selectPointer data ptr = Ok v <->
  exists toks target,
    toks <> [] /\ ptr = pointer_of toks /\ addresses data toks target /\ v = unquoteJSON target.
Proof.
  intros Hp. unfold selectPointer. fold (tokens ptr).
  rewrite pointer_loop_spec by apply tokens_free. split.
  - intros (toks & target & E & ? & ?). destruct (pointer_of_tokens ptr toks Hp E). by exists toks, target.
  - intros (toks & target & ? & -> & ? & ?). exists toks, target. by rewrite tokens_pointer_of.
Qed.

(** C28. A failed selection is classified by what is missing: it is "not found"
    - and so open to [default:] and [optional] - exactly when an object reached
    by the fragment has no such key or an array no such element, and "invalid"
    in every other case: a bad escape, a bad index, a scalar on the way, a
    payload that is not JSON. *)
Theorem SelectKey_error data key e :
  SelectKey data key = Err e ->
  (errors_Is e ErrNotFound = true <-> names_nothing data key) /\
  (errors_Is e ErrNotFound = false -> errors_Is e ErrInvalid = true).
Proof.
  unfold SelectKey. case_bool_decide; [done|]. destruct (HasPrefix key "/") eqn:Hp.
  - unfold selectPointer. fold (tokens key). intros He.
    assert (Hn : names_nothing data key <-> nothing_at data (tokens key)).
    { split; [intros [? Hf|]; [congruence|done]|]. by apply nothing_pointer. }
    rewrite Hn. destruct (pointer_loop_error data _ e (tokens_free key) He) as [[-> ?]|(-> & ? & ?)]; naive_solver.
  - destruct (Unmarshal_object data) as [obj|] eqn:Hu.
    + destruct (obj !! key) eqn:Hl; [done|]. intros [= <-]. split; [|done].
      split; [|done]. intros _. by eapply nothing_literal.
    + intros [= <-]. split; [|done]. split; [done|]. intros [|]; congruence.
Qed.
End properties.

(** * An instance *)

Section witness.

Definition dq : string := String (byte_of 34) "".
Definition example_replicas : string := "[10, 20]".
Definition example_payload : string := "{" ++ dq ++ "a/b" ++ dq ++ ": [10, 20]}".

(** The three calls on the texts of the example. *)
Definition example_json : JSON := {|
  Unmarshal_object raw :=
    if bool_decide (raw = example_payload) then Some {["a/b" := example_replicas]} else None;
  Unmarshal_array raw := if bool_decide (raw = example_replicas) then Some ["10"; "20"] else None;
  Unmarshal_string raw := None;
|}.

Lemma example_addresses : @addresses example_json example_payload ["a/b"; "1"] "20".
Proof.
  eapply addresses_cons; [eapply child_key; by vm_compute|].
  eapply addresses_cons; [|apply addresses_nil].
  eapply (@child_index example_json _ _ _ ["10"; "20"] 1); by vm_compute.
Qed.

Lemma selectPointer_spec_witness :
  @selectPointer example_json example_payload "/a~1b/1" = Ok "20" /\
  exists toks target, toks <> [] /\ "/a~1b/1" = pointer_of toks /\
    @addresses example_json example_payload toks target /\ "20" = @unquoteJSON example_json target.
Proof.
  split; [by vm_compute|].
  apply (@selectPointer_spec example_json example_payload "/a~1b/1" "20"); by vm_compute.
Defined.

Lemma SelectKey_error_witness :
  @SelectKey example_json example_payload "/a~1b/2" = Err errIndexRange /\
  @names_nothing example_json example_payload "/a~1b/2" /\
  @SelectKey example_json example_payload "/a~1b/01" = Err (EWrap "pointer" [errBadIndex]) /\
  ~ @names_nothing example_json example_payload "/a~1b/01".
Proof.
  split; [by vm_compute|]. split; [|split; [by vm_compute|]].
  - eapply (@SelectKey_error example_json); by vm_compute.
  - intros Hn. eapply (@SelectKey_error example_json) in Hn; [|by vm_compute]. done.
Defined.
End witness.
