(* ===== verification/Canonical.v ===== *)
(** The canonical encoding of a derived value (src/derivedversion.go) keeps
    different values apart: it is injective on every type built from scalars,
    strings, byte slices, secrets and structs, but for the two exceptions that
    [canonicalBytes_injective] names. *)

From S2P Require Import Prelude Errors GoStrings Ref Provider Decode GoNumbers Fields Config DerivedVersion.
Open Scope string_scope.
Open Scope Z_scope.

(** * Framing *)

Lemma app_cut_inj c a b s t :
  has_byte c a = false -> has_byte c b = false -> a ++ String c s = b ++ String c t -> a = b /\ s = t.
Proof.
intros Ha Hb E. pose proof (Cut_app a c s Ha) as C1. rewrite E, (Cut_app b c t Hb) in C1.
by injection C1 as -> ->.
Qed.

(** What may follow an encoded value: nothing, or the terminator of a field. *)
Definition stop (s : string) : Prop := s = "" \/ exists t, s = String ";" t.

Lemma unframed_inj a b s t :
  has_byte ";" a = false -> has_byte ";" b = false -> stop s -> stop t -> a ++ s = b ++ t -> a = b /\ s = t.
Proof.
intros Ha Hb [->|[s' ->]] [->|[t' ->]] E.
- by rewrite !str_app_nil_r in E.
- rewrite str_app_nil_r in E. subst. rewrite has_byte_app in Ha. apply orb_false_iff in Ha as [_ Ha]. done.
- rewrite str_app_nil_r in E. subst. rewrite has_byte_app in Hb. apply orb_false_iff in Hb as [_ Hb]. done.
- destruct (app_cut_inj ";" a b s' t' Ha Hb E) as [-> ->]. done.
Qed.

Lemma app_same_length a b s t :
  String.length a = String.length b -> a ++ s = b ++ t -> a = b /\ s = t.
Proof.
revert b. induction a as [|x a IH]; intros [|y b] Hl E; simpl in *; try done.
injection E as -> E. injection Hl as Hl. by destruct (IH b Hl E) as [-> ->].
Qed.

Lemma app_inv_head a s t : a ++ s = a ++ t -> s = t.
Proof. intros E. by apply app_same_length in E as [_ ?]. Qed.

(** Go strings and slices are shorter than the largest [int]. *)
Definition short (s : string) : Prop := Z.of_nat (String.length s) < 2 ^ 63.

Lemma len_bytes_inj a b s t :
  short a -> short b -> len_bytes a ++ s = len_bytes b ++ t -> a = b /\ s = t.
Proof.
unfold short, len_bytes. intros Ha Hb E.
rewrite <- !str_app_assoc, !str_app_cons in E.
apply app_cut_inj in E as [E1 E2]; [|apply FormatInt_free; [lia|done|done]..].
apply FormatInt_inj in E1; [|lia..]. apply app_same_length in E2; [done|lia].
Qed.

(** * Values of a type *)

(** A value of the type, its numbers and lengths in their machine ranges; the
    types outside the universe, whose encoding is a parameter, are left out. *)
Section typed.
Context (is_number : Z -> Prop).

Fixpoint typed (t : gtype) (v : gval) : Prop :=
  match t, v with
  | TString, VString s => short s
  | TBool, VBool _ => True
  | (TInt _ | TDuration), VInt n => - 2 ^ 63 <= n < 2 ^ 63
  | TUint _, VUint n => 0 <= n < 2 ^ 64
  | TFloat _, VFloat x => is_number x
  | TSecretString, VSecretString b | TSecretBytes, VSecretBytes b | TByteSlice, VBytes b =>
      short (default "" b)
  | TStruct fs, VStruct vs =>
      (fix all (fs : list gfield) (vs : list (string * bool * gval)) : Prop :=
         match fs, vs with
         | [], [] => True
         | f :: fs, v :: vs =>
             v.1.1 = f.1.1.1 /\ v.1.2 = f.1.1.2 /\ typed f.2 v.2 /\ all fs vs
         | _, _ => False
         end) fs vs
  | _, _ => False
  end.
End typed.

(** How deep an encoding goes below the value: one level per struct, one for the
    bytes inside a secret. *)
Fixpoint height (t : gtype) : nat :=
  match t with
  | TStruct fs =>
      S ((fix top (fs : list gfield) : nat :=
            match fs with [] => O | f :: fs => Nat.max (height f.2) (top fs) end) fs)
  | TSecretString | TSecretBytes => 1
  | _ => O
  end.

(** A secret that was never set reads as an empty one. *)
Fixpoint reveal (readable : bool) (v : gval) : gval :=
  match v with
  | VSecretString b => VSecretString (if readable then Some (default "" b) else b)
  | VSecretBytes b => VSecretBytes (if readable then Some (default "" b) else b)
  | VStruct fs => VStruct (map (fun f => (f.1, reveal (readable && f.1.2) f.2)) fs)
  | _ => v
  end.

Section injective.
Context (AppendFloat : Z -> string) (other_canonical : string -> string).
(** The shortest decimal that reads back as the float ([strconv] with
    precision -1) determines it, for the floats that equal themselves, and it
    is made of digits, a sign, a point and an exponent. *)
Context (is_number : Z -> Prop).
Hypothesis AppendFloat_inj : forall x y,
  is_number x -> is_number y -> AppendFloat x = AppendFloat y -> x = y.
Hypothesis AppendFloat_free : forall x, has_byte ";" (AppendFloat x) = false.

Abbreviation canonical := (appendCanonical AppendFloat other_canonical).

Lemma nil_or_inj (a b : option string) s t :
  short (default "" a) -> short (default "" b) ->
  nil_or a (fun b => String "b" (len_bytes b)) ++ s = nil_or b (fun b => String "b" (len_bytes b)) ++ t ->
  a = b /\ s = t.
Proof.
intros Ha Hb E. destruct a as [a|], b as [b|]; simpl in *; try done.
- injection E as E. apply len_bytes_inj in E as [-> ->]; done.
- by injection E as E.
Qed.

Lemma canonical_secret_inj readable depth a b s t :
  (S depth <= derivedVersionMaxDepth)%nat -> short (default "" a) -> short (default "" b) ->
  canonical_secret readable depth a ++ s = canonical_secret readable depth b ++ t ->
  (if readable then Some (default "" a) else a) = (if readable then Some (default "" b) else b) /\ s = t.
Proof.
intros Hd Ha Hb. unfold canonical_secret. destruct readable.
- simpl. intros E. injection E as E. apply len_bytes_inj in E as [-> ->]; done.
- rewrite (proj2 (Nat.ltb_ge _ _)) by lia. rewrite <- !str_app_assoc. intros E.
  apply app_inv_head, nil_or_inj in E as [-> E]; [|done|done]. by apply app_inv_head in E.
Qed.

Lemma height_fields fs n :
  (n + height (TStruct fs) <= derivedVersionMaxDepth)%nat ->
  Forall (fun f : gfield => (S n + height f.2 <= derivedVersionMaxDepth)%nat) fs.
Proof.
simpl. induction fs as [|f fs IH]; intros Hn; [constructor|]. constructor; [lia|]. apply IH. lia.
Qed.

Lemma Join_cons_nil x l : Join (x :: l) "" = x ++ Join l "".
Proof. destruct l; simpl; [by rewrite str_app_nil_r|done]. Qed.

Definition encode_fields (readable : bool) (depth : nat) (vs : list (string * bool * gval)) : string :=
  Join (map (fun f => f.1.1 ++ "=" ++ canonical (readable && f.1.2) depth f.2 ++ ";") vs) "".

(** The encoding of a type keeps its values apart, whatever follows. *)
Definition encodes_apart (ty : gtype) : Prop := forall readable depth v w s t,
  typed is_number ty v -> typed is_number ty w -> (depth + height ty <= derivedVersionMaxDepth)%nat ->
  stop s -> stop t -> canonical readable depth v ++ s = canonical readable depth w ++ t ->
  reveal readable v = reveal readable w /\ s = t.

Lemma encode_fields_inj fs readable depth vs ws s t :
  Forall (fun f => encodes_apart f.2) fs ->
  Forall (fun f : gfield => (depth + height f.2 <= derivedVersionMaxDepth)%nat) fs ->
  typed is_number (TStruct fs) (VStruct vs) -> typed is_number (TStruct fs) (VStruct ws) ->
  encode_fields readable depth vs ++ s = encode_fields readable depth ws ++ t ->
  map (fun f => (f.1, reveal (readable && f.1.2) f.2)) vs =
  map (fun f => (f.1, reveal (readable && f.1.2) f.2)) ws /\ s = t.
Proof.
revert vs ws. induction fs as [|f fs IH]; intros [|v vs] [|w ws] Hap Hd Hv Hw E; try done.
apply Forall_cons in Hap as [Hf Hap]. apply Forall_cons in Hd as [Hdf Hd].
destruct Hv as (Hv1 & Hv2 & Hv & Hvs). destruct Hw as (Hw1 & Hw2 & Hw & Hws).
unfold encode_fields in E. cbn [map] in E. rewrite !Join_cons_nil in E.
fold (encode_fields readable depth vs) (encode_fields readable depth ws) in E.
rewrite Hw1, Hw2, <- Hv1, <- Hv2 in E. rewrite <- !str_app_assoc in E.
apply app_inv_head, app_inv_head in E.
apply Hf in E as [Er E]; [|done|done|done|by right; eexists..].
injection E as E. apply IH in E as [Em ->]; [|done..]. split; [|done].
cbn [map]. rewrite Em. f_equal. destruct v as [[? ?] ?], w as [[? ?] ?]. simpl in *. congruence.
Qed.

Lemma canonical_inj ty : encodes_apart ty.
Proof using AppendFloat_inj AppendFloat_free.
induction ty as [fs IH|ty Hty] using gtype_ind'; intros readable depth v w s t Hv Hw Hd Hs Ht.
- destruct v; try done. destruct w; try done. cbn [appendCanonical].
  rewrite (proj2 (Nat.ltb_ge _ _)) by lia. rewrite <- !str_app_assoc. intros E. apply app_inv_head in E.
  apply (encode_fields_inj fs readable (S depth)) in E as [Em E]; [|done|by apply height_fields|done|done].
  simpl. rewrite Em. split; [done|]. by injection E.
- assert (Hlt : (derivedVersionMaxDepth <? depth)%nat = false) by (apply Nat.ltb_ge; lia).
  destruct ty; try done; destruct v; try done; destruct w; try done;
    cbn [appendCanonical]; rewrite Hlt; simpl in Hv, Hw; simpl reveal; intros E.
  + injection E as E. apply len_bytes_inj in E as [-> ->]; done.
  + apply unframed_inj in E as [E ->]; [|by destruct b|by destruct b0|done|done]. by destruct b, b0.
  + apply unframed_inj in E as [E ->]; [|apply FormatInt_free; [lia|done..]..|done|done].
    apply FormatInt_inj in E; [|lia..]. by rewrite E.
  + apply unframed_inj in E as [E ->]; [|apply FormatUint_spec; [lia|done]..|done|done].
    apply FormatUint_inj in E; [|lia..]. by rewrite E.
  + apply unframed_inj in E as [E ->]; [|apply AppendFloat_free..|done|done].
    apply AppendFloat_inj in E; [|done..]. by rewrite E.
  + apply unframed_inj in E as [E ->]; [|apply FormatInt_free; [lia|done..]..|done|done].
    apply FormatInt_inj in E; [|lia..]. by rewrite E.
  + apply canonical_secret_inj in E as [E ->]; [by rewrite E|simpl in Hd; lia|done|done].
  + apply canonical_secret_inj in E as [E ->]; [by rewrite E|simpl in Hd; lia|done|done].
  + apply nil_or_inj in E as [-> ->]; done.
Qed.

(** C29. A derived field's version moves when its value does: two values of one
    type with the same canonical bytes are the same value, for a type built from numbers,
    booleans, strings, byte slices, secrets and structs of these, no deeper than the encoder
    walks - types with slices of other elements, maps, pointers or interfaces, and what is
    below thirty-two levels, are not covered. Two exceptions are the encoder's own: a secret
    never set reads as an empty one, and a field that is itself a byte slice encodes alike
    when it is nil and when it holds the bytes "nil". What is left to chance is the 64-bit
    hash taken of these bytes. *)
Theorem canonicalBytes_injective ty v w :
  typed is_number ty v -> typed is_number ty w -> (height ty <= derivedVersionMaxDepth)%nat ->
  canonicalBytes AppendFloat other_canonical v = canonicalBytes AppendFloat other_canonical w ->
  reveal true v = reveal true w \/
  (v = VBytes None /\ w = VBytes (Some "nil")) \/ (v = VBytes (Some "nil") /\ w = VBytes None).
Proof using AppendFloat_inj AppendFloat_free.
intros Hv Hw Hd E.
assert (Hc : canonical true 0 v = canonical true 0 w -> reveal true v = reveal true w).
{ intros Ec. apply (canonical_inj ty true 0%nat v w "" ""); try done; [by left..|]. by rewrite Ec. }
destruct ty; try done; destruct v; try done; destruct w; try done; try (by left; apply Hc); simpl in E |- *.
- left. by rewrite E.
- left. by rewrite E.
- left. by rewrite E.
- repeat match goal with b : option string |- _ => destruct b end; simpl in E; subst; auto.
Qed.
End injective.

(** The bare byte slice: nil and the three bytes "nil" share their version. *)
Lemma canonicalBytes_nil_slice AppendFloat other_canonical :
  canonicalBytes AppendFloat other_canonical (VBytes None) =
  canonicalBytes AppendFloat other_canonical (VBytes (Some "nil")).
Proof. reflexivity. Qed.

(** Two pools that concatenate alike without the framing. *)
Lemma canonicalBytes_injective_witness :
  let ty := TStruct [("Host", true, [], TString); ("Pass", true, [], TSecretString); ("Port", true, [], TInt 16)] in
  let v h p n := VStruct [("Host", true, VString h); ("Pass", true, VSecretString (Some p)); ("Port", true, VInt n)] in
  canonicalBytes (fun _ => "0") (fun s => s) (v "db" "s1" 8) = canonicalBytes (fun _ => "0") (fun s => s) (v "db" "s1" 8) /\
  canonicalBytes (fun _ => "0") (fun s => s) (v "db" "s1" 8) <> canonicalBytes (fun _ => "0") (fun s => s) (v "dbs" "1" 8).
Proof.
intros ty v. split; [reflexivity|]. intros E.
assert (Ht : forall h p n, short h -> short p -> (- 2 ^ 63 <= n < 2 ^ 63) -> typed (fun x => x = 0) ty (v h p n)).
{ intros h p n Hh Hp Hn. simpl. tauto. }
apply (canonicalBytes_injective (fun _ => "0") (fun s => s) (fun x => x = 0)) with (ty := ty) in E.
- destruct E as [E|[[? _]|[? _]]]; [vm_compute in E|..]; discriminate.
- congruence.
- done.
- apply Ht; unfold short; simpl; lia.
- apply Ht; unfold short; simpl; lia.
- simpl. unfold derivedVersionMaxDepth. lia.
Defined.
