(* ===== verification/Poll.v ===== *)
(** The polling adapter (src/poll.go), its backoff (src/backoff.go) and the
    choice between a native watch and polling (src/watchref.go): what a polled
    source tells the reconciler, and when it asks again. *)

From S2P Require Import Prelude Errors GoStrings Ref Provider Decode GoNumbers.
Open Scope string_scope.
Open Scope Z_scope.

(** * Backoff *)

(** [type backoffState struct]; the zero value is a disabled backoff. *)
Record backoffState := MkBackoff {
  bo_base : Z;
  bo_ceiling : Z;
  bo_failures : nat;
}.

(** [func newBackoff(o *options) *backoffState]. *)
Definition newBackoff (backoffBase backoffMax : Z) : backoffState :=
  if backoffBase <=? 0 then MkBackoff 0 0 0
  else MkBackoff backoffBase (if backoffMax <? backoffBase then backoffBase else backoffMax) 0.

(** [fail] and [reset]. *)
Definition bo_fail (b : backoffState) : backoffState :=
  MkBackoff (bo_base b) (bo_ceiling b) (S (bo_failures b)).
Definition bo_reset (b : backoffState) : backoffState := MkBackoff (bo_base b) (bo_ceiling b) 0.

(** The loop of [delay] with [n] turns left; the doubling is that of an int64. *)
Fixpoint delay_loop (n : nat) (ceiling d : Z) : Z :=
  match n with
  | O => if ceiling <? d then ceiling else d
  | S n => if ceiling / 2 <? d then ceiling else delay_loop n ceiling (wrap_int 64 (d * 2))
  end.

(** [func (b *backoffState) delay() time.Duration]. *)
Definition delay (b : backoffState) : Z :=
  if (bo_base b <=? 0) || bool_decide (bo_failures b = 0%nat) then 0
  else delay_loop (pred (bo_failures b)) (bo_ceiling b) (bo_base b).

(** * Polling *)

(** The variables of the goroutine of [pollWatch]. *)
Record poll_state := MkPoll {
  ps_last : Value;
  ps_haveLast : bool;
  ps_bo : backoffState;
}.

(** One turn of the loop as the environment plays it: the time at which the wait
    is computed, the randomized duration [jittered] draws (before its clamp) and
    what the provider answers when the timer fires. *)
Record poll_event := MkTurn {
  pe_now : Z;
  pe_draw : Z;
  pe_answer : res Value;
}.

(** [func jittered(d, frac)]; [draw] is [time.Duration(float64(d) + off)]. *)
Definition jittered (frac_positive : bool) (draw d : Z) : Z :=
  if negb frac_positive || (d <=? 0) then d
  else if draw <=? 0 then d else draw.

Section poll.
(** [o.jitter > 0] and [o.pollInterval]. *)
Context (frac_positive : bool) (interval : Z).

(** The wait before the next resolve. *)
Definition next_wait (st : poll_state) (now draw : Z) : Z :=
  let retry := delay (ps_bo st) in
  if 0 <? retry then jittered frac_positive draw retry
  else
    let d := jittered frac_positive draw interval in
    if ps_haveLast st && negb (IsZero (val_NotAfter (ps_last st))) then
      let untilExpiry := Sub (val_NotAfter (ps_last st)) now in
      if 0 <? untilExpiry then
        let leaseRefresh := untilExpiry - untilExpiry / 10 in
        let leaseRefresh := if leaseRefresh <=? 0 then untilExpiry else leaseRefresh in
        if leaseRefresh <? d then leaseRefresh else d
      else d
    else d.

(** The baseline resolve before the loop. *)
Definition poll_baseline (bo : backoffState) (answer : res Value) : poll_state * option Update :=
  match answer with
  | Err err =>
      if errors_Is err ErrNotFound then (MkPoll zero_Value false bo, None)
      else (MkPoll zero_Value false (bo_fail bo), Some (MkUpdate zero_Value (Some err)))
  | Ok v => (MkPoll v true bo, Some (MkUpdate v None))
  end.

(** What a turn makes of the provider's answer. *)
Definition poll_answer (st : poll_state) (answer : res Value) : poll_state * option Update :=
  match answer with
  | Err err =>
      if errors_Is err ErrNotFound
      then (MkPoll (ps_last st) (ps_haveLast st) (bo_reset (ps_bo st)), None)
      else (MkPoll (ps_last st) (ps_haveLast st) (bo_fail (ps_bo st)), Some (MkUpdate zero_Value (Some err)))
  | Ok v =>
      let bo := bo_reset (ps_bo st) in
      if ps_haveLast st && negb (changed (ps_last st) v)
      then (MkPoll (ps_last st) (ps_haveLast st) bo, None)
      else (MkPoll v true bo, Some (MkUpdate v None))
  end.

(** The loop over the turns the environment plays before it cancels: the state
    it ends in, the waits, and the updates in the order of their emission. *)
Fixpoint poll_loop (st : poll_state) (evs : list poll_event) : poll_state * list Z * list Update :=
  match evs with
  | [] => (st, [], [])
  | ev :: evs =>
      let d := next_wait st (pe_now ev) (pe_draw ev) in
      let '(st, up) := poll_answer st (pe_answer ev) in
      let '(st, ds, ups) := poll_loop st evs in
      (st, d :: ds, match up with Some u => u :: ups | None => ups end)
  end.

(** [func pollWatch(ctx, p, ref, o) <-chan Update]. *)
Definition pollWatch (bo : backoffState) (first : res Value) (evs : list poll_event)
    : poll_state * list Z * list Update :=
  let '(st, up) := poll_baseline bo first in
  let '(st, ds, ups) := poll_loop st evs in
  (st, ds, match up with Some u => u :: ups | None => ups end).
End poll.

(** * Facts *)

Lemma wrap_double ceiling d :
  0 < d -> d <= ceiling / 2 -> ceiling < 2 ^ 63 -> wrap_int 64 (d * 2) = d * 2.
Proof.
intros Hd Hc Hb. assert (d * 2 <= ceiling) by (pose proof (Z.mul_div_le ceiling 2); lia).
apply wrap_int_fits; [lia|]. unfold fits_int. apply andb_true_iff. split; [apply Z.leb_le|apply Z.ltb_lt]; lia.
Qed.

Lemma delay_loop_spec n ceiling d :
  0 < d -> d <= ceiling -> ceiling < 2 ^ 63 ->
  delay_loop n ceiling d = Z.min ceiling (d * 2 ^ Z.of_nat n).
Proof.
revert d. induction n as [|n IH]; intros d Hd Hdc Hc; cbn [delay_loop].
- rewrite Z.mul_1_r. destruct (Z.ltb_spec ceiling d); lia.
- rewrite Nat2Z.inj_succ, Z.pow_succ_r by lia.
  pose proof (Z.pow_pos_nonneg 2 (Z.of_nat n) ltac:(lia) ltac:(lia)) as Hp.
  destruct (Z.ltb_spec (ceiling / 2) d) as [Hlt|Hge].
  + assert (ceiling <= d * 2) by (pose proof (Z.mod_pos_bound ceiling 2); pose proof (Z.div_mod ceiling 2); lia).
    nia.
  + rewrite (wrap_double ceiling) by done. rewrite IH; [f_equal; lia|lia| |done].
    pose proof (Z.mul_div_le ceiling 2). lia.
Qed.

(** The backoff of a failing source: after the [n]th consecutive failure the
    retry waits [base * 2^(n-1)], held at the ceiling - which is never below the
    base - however long the streak, with no overflow on the way; and no backoff
    applies without a failure or without a positive base. *)
Theorem backoff_delay base max n :
  base < 2 ^ 63 -> max < 2 ^ 63 ->
  let b := newBackoff base max in
  delay (Nat.iter n bo_fail b) =
    (if (base <=? 0) || bool_decide (n = 0%nat) then 0
     else Z.min (Z.max base max) (base * 2 ^ Z.of_nat (pred n))) /\
  delay (bo_reset (Nat.iter n bo_fail b)) = 0.
Proof.
intros Hb Hm b.
assert (Hit : Nat.iter n bo_fail b = MkBackoff (bo_base b) (bo_ceiling b) n).
{ assert (H0 : bo_failures b = 0%nat) by (unfold b, newBackoff; by case_match).
  induction n as [|n IH]; simpl; [rewrite <- H0; by destruct b|]. by rewrite IH. }
rewrite Hit. unfold delay, bo_reset. simpl. rewrite orb_true_r. split; [|done].
unfold b, newBackoff. destruct (Z.leb_spec base 0); [done|]. simpl.
destruct (Z.leb_spec base 0); [lia|]. simpl. case_bool_decide; [done|].
destruct (Z.ltb_spec max base); rewrite delay_loop_spec by lia; f_equal; lia.
Qed.

(** ** What a watcher of a polled source sees *)

Definition success (r : res Value) : option Value := match r with Ok v => Some v | Err _ => None end.

(** An error that is not an absence. *)
Definition terminal (r : res Value) : option error :=
  match r with
  | Ok _ => None
  | Err e => if errors_Is e ErrNotFound then None else Some e
  end.

Definition update_value (u : Update) : option Value :=
  match up_Err u with None => Some (up_Value u) | Some _ => None end.

(** Two versions of a value a watcher can tell apart, in a row. *)
Definition moves (u v : Value) : Prop := changed u v = true.

(** The last value told to the watcher stands for the last one the backend
    answered. *)
Definition current (st : poll_state) (v : Value) : Prop :=
  ps_haveLast st = true /\ (ps_last st = v \/ changed (ps_last st) v = false).

Section told.
Context (frac_positive : bool) (interval : Z).

Lemma last_cons_default {A} (x : A) l : last (x :: l) = Some (default x (last l)).
Proof. revert x. induction l as [|y l IH]; intros x; [done|]. simpl. by rewrite IH. Qed.

Lemma poll_loop_told st evs :
  let '(st', ds, ups) := poll_loop frac_positive interval st evs in
  let answers := map pe_answer evs in
  let told := omap update_value ups in
  omap up_Err ups = omap terminal answers /\
  Sorted moves (if ps_haveLast st then ps_last st :: told else told) /\
  told `sublist_of` omap success answers /\
  (if ps_haveLast st' then Some (ps_last st') else None) =
    last (if ps_haveLast st then ps_last st :: told else told) /\
  (forall v, last (omap success answers) = Some v -> current st' v) /\
  length ds = length evs.
Proof.
revert st. induction evs as [|ev evs IH]; intros st; simpl.
{ split_and!; try done; [|by case_match]. case_match; repeat constructor. }
destruct (pe_answer ev) as [v|err]; simpl; [|destruct (errors_Is err ErrNotFound) eqn:En].
- destruct (ps_haveLast st && negb (changed (ps_last st) v)) eqn:Ek.
  + apply andb_true_iff in Ek as [Eh Ec]. apply negb_true_iff in Ec.
    specialize (IH (MkPoll (ps_last st) (ps_haveLast st) (bo_reset (ps_bo st)))).
    destruct (poll_loop _ _ _ evs) as [[st' ds] ups]. simpl in IH.
    destruct IH as (H1 & H2 & H3 & H4 & H5 & H6). split_and!; try done; [by constructor| |simpl; by rewrite H6].
    intros u. change (list_omap _ _ success (map pe_answer evs)) with (omap success (map pe_answer evs)). rewrite last_cons_default. intros [= <-].
    destruct (last (omap success (map pe_answer evs))) as [w|] eqn:El; simpl; [by apply H5|].
    apply last_None in El. rewrite El in H3. apply sublist_nil_r in H3. rewrite H3, Eh in H4. simpl in H4.
    destruct (ps_haveLast st') eqn:Eh'; [|done]. injection H4 as H4. split; [done|]. right. by rewrite H4.
  + specialize (IH (MkPoll v true (bo_reset (ps_bo st)))).
    destruct (poll_loop _ _ _ evs) as [[st' ds] ups]. simpl in IH.
    destruct IH as (H1 & H2 & H3 & H4 & H5 & H6). split_and!; try done.
    * destruct (ps_haveLast st); [|done]. constructor; [done|]. constructor. unfold moves.
      simpl in Ek. by apply negb_false_iff in Ek.
    * by constructor.
    * rewrite H4. by destruct (ps_haveLast st).
    * intros u. change (list_omap _ _ success (map pe_answer evs)) with (omap success (map pe_answer evs)). rewrite last_cons_default. intros [= <-].
      destruct (last (omap success (map pe_answer evs))) as [w|] eqn:El; simpl; [by apply H5|].
      apply last_None in El. rewrite El in H3. apply sublist_nil_r in H3. rewrite H3 in H4. simpl in H4.
      destruct (ps_haveLast st') eqn:Eh'; [|done]. injection H4 as H4. split; [done|]. by left.
    * simpl. by rewrite H6.
- specialize (IH (MkPoll (ps_last st) (ps_haveLast st) (bo_reset (ps_bo st)))).
  destruct (poll_loop _ _ _ evs) as [[st' ds] ups]. simpl in IH.
  destruct IH as (H1 & H2 & H3 & H4 & H5 & H6). split_and!; try done. simpl. by rewrite H6.
- specialize (IH (MkPoll (ps_last st) (ps_haveLast st) (bo_fail (ps_bo st)))).
  destruct (poll_loop _ _ _ evs) as [[st' ds] ups]. simpl in IH.
  destruct IH as (H1 & H2 & H3 & H4 & H5 & H6). split_and!; try done; [simpl; f_equal; exact H1|simpl; by rewrite H6].
Qed.

(** The values to tell of those answered: the first, and each one that counts as changed
    from the one told last. *)
Fixpoint tellings (told : option Value) (vs : list Value) : list Value :=
  match vs with
  | [] => []
  | v :: vs =>
      match told with
      | Some u => if changed u v then v :: tellings (Some v) vs else tellings told vs
      | None => v :: tellings (Some v) vs
      end
  end.

Lemma poll_loop_tellings st evs :
  omap update_value (poll_loop frac_positive interval st evs).2 =
  tellings (if ps_haveLast st then Some (ps_last st) else None) (omap success (map pe_answer evs)).
Proof.
revert st. induction evs as [|ev evs IH]; intros st; simpl; [done|].
destruct (poll_answer st (pe_answer ev)) as [st1 up] eqn:Ea. specialize (IH st1).
destruct (poll_loop _ _ st1 evs) as [[st' ds] ups]. cbn [snd] in IH |- *. unfold poll_answer in Ea.
destruct (pe_answer ev) as [v|err]; cbn [success].
- destruct (ps_haveLast st) eqn:Eh; simpl in Ea; [destruct (changed (ps_last st) v) eqn:Ec; simpl in Ea|];
    injection Ea as <- <-; cbn in IH |- *; rewrite ?Eh, ?Ec; cbn; rewrite ?Eh in IH.
  + by f_equal.
  + exact IH.
  + by f_equal.
- destruct (errors_Is err ErrNotFound); injection Ea as <- <-; exact IH.
Qed.

Lemma pollWatch_tellings bo first evs :
  omap update_value (pollWatch frac_positive interval bo first evs).2 =
  tellings None (omap success (first :: map pe_answer evs)).
Proof.
unfold pollWatch. destruct (poll_baseline bo first) as [st0 up0] eqn:Eb.
pose proof (poll_loop_tellings st0 evs) as Ht. destruct (poll_loop _ _ st0 evs) as [[st ds] ups]. simpl in *.
unfold poll_baseline in Eb. destruct first as [v|err]; [|destruct (errors_Is err ErrNotFound)]; injection Eb as <- <-;
  cbn in Ht |- *; [by f_equal|exact Ht..].
Qed.

(** The failures since the last answer, value or absence. *)
Definition streak (n : nat) (answers : list (res Value)) : nat :=
  foldl (fun n a => match terminal a with Some _ => S n | None => 0%nat end) n answers.

Lemma streak_spec answers :
  exists answered failed, answers = (answered ++ failed)%list /\ streak 0 answers = length failed /\
    Forall (fun a => is_Some (terminal a)) failed /\
    (forall a, last answered = Some a -> terminal a = None).
Proof.
induction answers as [|a answers IH] using rev_ind; [by exists [], []|].
destruct IH as (answered & failed & -> & Hn & Hf & Ha). unfold streak in *. rewrite foldl_snoc.
destruct (terminal a) eqn:Ea.
- exists answered, (failed ++ [a])%list. rewrite Hn, length_app, app_assoc. split_and!; [done|simpl; lia| |done].
  apply Forall_app. split; [done|]. by rewrite Forall_singleton, Ea.
- exists ((answered ++ failed) ++ [a])%list, []. rewrite app_nil_r. split_and!; [done..|].
  intros b. rewrite last_snoc. by intros [= <-].
Qed.

Lemma poll_loop_streak st evs :
  ps_bo (poll_loop frac_positive interval st evs).1.1 =
  MkBackoff (bo_base (ps_bo st)) (bo_ceiling (ps_bo st))
    (streak (bo_failures (ps_bo st)) (map pe_answer evs)).
Proof.
revert st. induction evs as [|ev evs IH]; intros st; simpl; [by destruct (ps_bo st)|].
destruct (poll_answer st (pe_answer ev)) as [st1 up] eqn:Ea. specialize (IH st1).
destruct (poll_loop _ _ st1 evs) as [[st' ds] ups]. simpl in *. rewrite IH.
unfold poll_answer, terminal in *. by repeat case_match; simplify_eq/=.
Qed.

Lemma pollWatch_streak base max first evs :
  let b := newBackoff base max in
  exists answered failed, first :: map pe_answer evs = (answered ++ failed)%list /\
    Forall (fun a => is_Some (terminal a)) failed /\
    (forall a, last answered = Some a -> terminal a = None) /\
    ps_bo (pollWatch frac_positive interval b first evs).1.1 =
      MkBackoff (bo_base b) (bo_ceiling b) (length failed).
Proof.
intros b. assert (Hb : bo_failures b = 0%nat) by (unfold b, newBackoff; by case_match).
destruct (streak_spec (first :: map pe_answer evs)) as (answered & failed & Hsplit & Hn & Hf & Ha).
exists answered, failed. split_and!; [done..|]. rewrite <- Hn. unfold pollWatch.
destruct (poll_baseline b first) as [st0 up0] eqn:Eb. pose proof (poll_loop_streak st0 evs) as Hs.
destruct (poll_loop _ _ st0 evs) as [[st ds] ups]. simpl in *. rewrite Hs.
unfold poll_baseline in Eb. unfold streak. simpl. unfold terminal at 3.
destruct first as [v|err]; [|destruct (errors_Is err ErrNotFound)]; injection Eb as <- _; simpl; by rewrite Hb.
Qed.

(** C26. What a polled source tells its watcher, for every sequence of answers:
    each error other than absence, in order; of the values the backend answered, in
    order, the first and exactly those that count as changed from the one told before, so
    no two in a row that a watcher could not tell apart; and never less
    than the current one - the last value told, which is the one the source holds, is the
    last one answered, or one that does not count as changed from it. The backoff is the configured one, and it counts exactly the
    errors since the last answer, value or absence, starting with the baseline. *)
Theorem polled_source_is_current base max first evs :
  let '(st, waits, ups) := pollWatch frac_positive interval (newBackoff base max) first evs in
  let answers := first :: map pe_answer evs in
  let told := omap update_value ups in
  omap up_Err ups = omap terminal answers /\
  told = tellings None (omap success answers) /\
  told `sublist_of` omap success answers /\ Sorted moves told /\
  (forall v, last (omap success answers) = Some v ->
     exists u, last told = Some u /\ ps_haveLast st = true /\ ps_last st = u /\ (u = v \/ changed u v = false)) /\
  (exists answered failed, answers = (answered ++ failed)%list /\
     Forall (fun a => is_Some (terminal a)) failed /\
     (forall a, last answered = Some a -> terminal a = None) /\
     ps_bo st = MkBackoff (bo_base (newBackoff base max)) (bo_ceiling (newBackoff base max)) (length failed)) /\
  length waits = length evs.
Proof.
pose proof (pollWatch_streak base max first evs) as Hs. cbv zeta in Hs. revert Hs.
generalize (newBackoff base max). intros bo. pose proof (pollWatch_tellings bo first evs) as Ht. revert Ht. unfold pollWatch, poll_baseline.
destruct first as [v|err]; [|destruct (errors_Is err ErrNotFound) eqn:En]; cbv zeta;
  (match goal with |- context [poll_loop _ _ ?st0 evs] => pose proof (poll_loop_told st0 evs) as Hl end);
  destruct (poll_loop _ _ _ evs) as [[st ds] ups]; cbn [fst snd]; intros Ht Hs;
  destruct Hl as (H1 & H2 & H3 & H4 & H5 & H6); simpl in *; rewrite ?En.
- split_and!; try done; [by constructor|].
  intros u. change (list_omap _ _ success (map pe_answer evs)) with (omap success (map pe_answer evs)).
  rewrite last_cons_default. intros [= <-]. change (list_omap _ _ update_value ups) with (omap update_value ups).
  rewrite <- H4.
  destruct (last (omap success (map pe_answer evs))) as [w|] eqn:El; simpl.
  + destruct (H5 w eq_refl) as [-> Hc]. eauto.
  + apply last_None in El. rewrite El in H3. apply sublist_nil_r in H3. rewrite H3 in H4. simpl in H4.
    destruct (ps_haveLast st); [|done]. injection H4 as H4. rewrite H4. eauto 10.
- split_and!; try done. intros u Hu. destruct (H5 u Hu) as [Eh Hc]. rewrite Eh in H4. eauto 10.
- split_and!; try done; [simpl; f_equal; exact H1|].
  intros u Hu. destruct (H5 u Hu) as [Eh Hc]. rewrite Eh in H4. eauto 10.
Qed.

(** When the next question is asked. With no failure open and a lease that
    has time left, it is asked within nine tenths of that time (and within the
    poll interval's draw), so before the lease expires, and never at once; with
    a failure open the backoff alone decides and the lease does not shorten it. *)
Theorem next_wait_spec st now draw :
  0 < interval -> min_int64 <= val_NotAfter (ps_last st) - now <= max_int64 ->
  let left := val_NotAfter (ps_last st) - now in
  let wait := next_wait frac_positive interval st now draw in
  0 < wait /\
  (0 < delay (ps_bo st) -> wait = jittered frac_positive draw (delay (ps_bo st))) /\
  (delay (ps_bo st) <= 0 -> wait <= jittered frac_positive draw interval) /\
  (delay (ps_bo st) <= 0 -> ps_haveLast st = true -> val_NotAfter (ps_last st) <> 0 -> 0 < left ->
   wait <= left - left / 10 /\ now + wait <= val_NotAfter (ps_last st)).
Proof.
intros Hi Hrange left wait.
assert (Hj : forall d, 0 < d -> 0 < jittered frac_positive draw d).
{ intros d Hd. unfold jittered. destruct frac_positive; simpl; [|done].
  destruct (Z.leb_spec d 0); [lia|]. destruct (Z.leb_spec draw 0); lia. }
assert (Hsub : Sub (val_NotAfter (ps_last st)) now = left) by (unfold Sub, left; lia).
pose proof (Hj interval Hi) as Hji. unfold wait, next_wait. rewrite Hsub.
destruct (Z.ltb_spec 0 (delay (ps_bo st))) as [Hd|Hd]; [split_and!; auto; lia|].
set (j := jittered frac_positive draw interval) in *. clearbody j.
assert (Hdiv : 0 < left -> 0 <= left / 10 /\ 10 * (left / 10) <= left).
{ intros. split; [apply Z.div_pos; lia|apply Z.mul_div_le; lia]. }
destruct (ps_haveLast st && negb (IsZero (val_NotAfter (ps_last st)))) eqn:Eh.
- destruct (Z.ltb_spec 0 left) as [Hl|Hl].
  + destruct (Hdiv Hl). destruct (Z.leb_spec (left - left / 10) 0); [lia|].
    destruct (Z.ltb_spec (left - left / 10) j); unfold left in *; split_and!; intros; lia.
  + split_and!; intros; lia.
- split_and!; intros; try lia. exfalso. rewrite andb_false_iff, negb_false_iff in Eh. unfold IsZero in Eh.
  destruct Eh as [Eh|Eh]; [congruence|]. apply Z.eqb_eq in Eh. lia.
Qed.
End told.

(** * Witnesses *)

Lemma backoff_delay_witness :
  delay (Nat.iter 4 bo_fail (newBackoff Second (5 * Second))) = 5 * Second.
Proof. by destruct (backoff_delay Second (5 * Second) 4 ltac:(done) ltac:(done)) as [-> _]. Defined.

Lemma next_wait_spec_witness :
  let st := MkPoll (MkValue "token" "1" true (100 * Second) ∅) true (newBackoff Second Second) in
  let wait := next_wait true (60 * Second) st (90 * Second) (66 * Second) in
  wait = 9 * Second /\ 90 * Second + wait <= 100 * Second.
Proof.
intros st wait. split; [reflexivity|].
destruct (next_wait_spec true (60 * Second) st (90 * Second) (66 * Second)) as (_ & _ & _ & Hl); [done|by simpl|].
apply Hl; done.
Defined.

Definition polled (s : string) : res Value := Ok (MkValue s s false 0 ∅).
Definition poll_down : res Value := Err (ESentinel ErrUnavailable).

(** A value, a failure, the same value again, another one, and two failures: two values are
    told, and two failures are open. *)
Lemma polled_source_is_current_witness :
  let answers := [poll_down; polled "a"; polled "b"; poll_down; poll_down] in
  let '(st, waits, ups) := pollWatch false (60 * Second) (newBackoff Second Second) (polled "a") (map (MkTurn 0 0) answers) in
  map val_Bytes (omap update_value ups) = ["a"; "b"] /\ ps_bo st = MkBackoff Second Second 2.
Proof.
intros answers.
pose proof (polled_source_is_current false (60 * Second) Second Second (polled "a") (map (MkTurn 0 0) answers)) as Hp.
assert (Hb : bo_failures (ps_bo (pollWatch false (60 * Second) (newBackoff Second Second) (polled "a") (map (MkTurn 0 0) answers)).1.1) = 2%nat)
  by (vm_compute; reflexivity).
destruct (pollWatch _ _ _ _ _) as [[st waits] ups]. simpl in Hb.
destruct Hp as (_ & Ht & _ & _ & _ & (answered & failed & _ & _ & _ & Hbo) & _).
rewrite Hbo in Hb. simpl in Hb. split; [|by rewrite Hbo, Hb]. rewrite Ht. by vm_compute.
Defined.
