(* ===== verification/Status.v ===== *)
(** Health reporting (src/status.go, src/report.go): the report of a watcher,
    its recomputation when it is read, and the health rules. The part that
    builds a report from the engine is in [Engine]. *)

From S2P Require Import Prelude Errors GoStrings Ref Provider.
Open Scope string_scope.
Open Scope Z_scope.

(** [type FieldStatus struct]; [LastError] is the error itself, of which the
    code keeps the text. *)
Record FieldStatus := MkFieldStatus {
  fs_Path : string;
  fs_Scheme : string;
  fs_Ref : string;
  fs_Version : string;
  fs_LastOK : Z;
  fs_Age : Z;
  fs_Stale : bool;
  fs_LastError : option error;
  fs_LastKind : Kind;
  fs_Sensitive : bool;
  fs_Derived : bool;
}.

(** [type ConfigSource string]: its two constants, and the empty one. *)
Inductive ConfigSource := SourceNone | SourceBackend | SourceBootstrapCache.
#[export] Instance ConfigSource_eq_dec : EqDecision ConfigSource.
Proof. solve_decision. Defined.

(** [type BootstrapStatus struct]. *)
Record BootstrapStatus := MkBootstrapStatus {
  bs_Present : bool;
  bs_Restored : bool;
  bs_WrittenAt : Z;
  bs_Age : Z;
  bs_FingerprintMatch : bool;
  bs_Problem : string;
}.

(** [type Report struct]. *)
Record Report := MkReport {
  rep_Fields : list FieldStatus;
  rep_Snapshot : nat;
  rep_Live : nat;
  rep_Pinned : bool;
  rep_Healthy : bool;
  rep_GeneratedAt : Z;
  rep_Source : ConfigSource;
  rep_Bootstrap : option BootstrapStatus;
}.

(** The kinds that do not clear without human action. *)
Definition terminal_kind (k : Kind) : bool :=
  bool_decide (k ∈ [KindNotFound; KindPermissionDenied; KindUnauthenticated; KindInvalid]).

(** [func fieldUnhealthy(fs FieldStatus) bool]. *)
Definition fieldUnhealthy (fs : FieldStatus) : bool :=
  if terminal_kind (fs_LastKind fs) then true else fs_Stale fs.

(** The read-time age and staleness of one field. *)
Definition refresh_field (now stale : Z) (f : FieldStatus) : FieldStatus :=
  if IsZero (fs_LastOK f) then f
  else
    let age := Sub now (fs_LastOK f) in
    MkFieldStatus (fs_Path f) (fs_Scheme f) (fs_Ref f) (fs_Version f) (fs_LastOK f) age
      ((0 <? stale) && (stale <? age)) (fs_LastError f) (fs_LastKind f) (fs_Sensitive f)
      (fs_Derived f).

Definition refresh_bootstrap (now : Z) (bs : BootstrapStatus) : BootstrapStatus :=
  MkBootstrapStatus (bs_Present bs) (bs_Restored bs) (bs_WrittenAt bs)
    (if IsZero (bs_WrittenAt bs) then bs_Age bs else Sub now (bs_WrittenAt bs))
    (bs_FingerprintMatch bs) (bs_Problem bs).

(** [func bootstrapExpired(rep Report, maxAge time.Duration) bool]. *)
Definition bootstrapExpired (rep : Report) (maxAge : Z) : bool :=
  match rep_Bootstrap rep with
  | None => false
  | Some bs =>
      bool_decide (rep_Source rep = SourceBootstrapCache) && (0 <? maxAge) && (maxAge <? bs_Age bs)
  end.

(** [func (w *Watcher[T]) Status() Report], of the report last published, at
    the watcher's clock. *)
Definition Status (rep : Report) (now stale maxAge : Z) : Report :=
  let fields := map (refresh_field now stale) (rep_Fields rep) in
  let healthy := forallb (fun f => negb (fieldUnhealthy f)) fields in
  let out := MkReport fields (rep_Snapshot rep) (rep_Live rep) (rep_Pinned rep) healthy now
               (rep_Source rep) (refresh_bootstrap now <$> rep_Bootstrap rep) in
  MkReport fields (rep_Snapshot rep) (rep_Live rep) (rep_Pinned rep)
    (healthy && negb (bootstrapExpired out maxAge)) now (rep_Source rep)
    (refresh_bootstrap now <$> rep_Bootstrap rep).

(** [func (w *Watcher[T]) Health() error]; [None] is healthy. *)
Definition Health (rep : Report) (now stale maxAge : Z) : option error :=
  let st := Status rep now stale maxAge in
  let bad := List.filter fieldUnhealthy (rep_Fields st) in
  let errs :=
    ((match bad with [] => [] | _ => [HealthError (map fs_Path bad)] end) ++
     (if bootstrapExpired st maxAge
      then [BootstrapStaleError (match rep_Bootstrap st with Some bs => bs_Age bs | None => 0 end) maxAge]
      else []))%list in
  match errs with
  | [] => None
  | [e] => Some e
  | _ => Some (EWrap "" errs)
  end.

(** * Properties *)

Lemma forallb_filter_nil {A} (P : A -> bool) l :
  forallb (fun x => negb (P x)) l = true <-> List.filter P l = [].
Proof.
  induction l as [|x l IH]; simpl; [done|]. destruct (P x); simpl; [done|done].
Qed.

(** [Health] and [Status] agree on what healthy means, and healthy means
    this: at the moment of the call no field carries a kind that needs human
    action, no field that was ever resolved has gone unrefreshed for longer than
    the staleness bound, and the process is not still serving a bootstrap
    snapshot older than its bound. *)
Theorem Health_spec rep now stale maxAge :
  (Health rep now stale maxAge = None <-> rep_Healthy (Status rep now stale maxAge) = true) /\
  (Health rep now stale maxAge = None <->
   Forall (fun f => terminal_kind (fs_LastKind f) = false /\
             (if IsZero (fs_LastOK f) then fs_Stale f = false
              else stale <= 0 \/ Sub now (fs_LastOK f) <= stale)) (rep_Fields rep) /\
   (rep_Source rep = SourceBootstrapCache -> 0 < maxAge ->
    forall bs, rep_Bootstrap rep = Some bs ->
    (if IsZero (bs_WrittenAt bs) then bs_Age bs else Sub now (bs_WrittenAt bs)) <= maxAge)).
Proof.
  set (fields := map (refresh_field now stale) (rep_Fields rep)).
  set (st := Status rep now stale maxAge).
  assert (Hh : Health rep now stale maxAge = None <->
    List.filter fieldUnhealthy fields = [] /\ bootstrapExpired st maxAge = false).
  { unfold Health. fold st. change (rep_Fields st) with fields.
    destruct (List.filter fieldUnhealthy fields) as [|f [|]];
      destruct (bootstrapExpired st maxAge); simpl; naive_solver. }
  assert (Hs : rep_Healthy st = true <->
    List.filter fieldUnhealthy fields = [] /\ bootstrapExpired st maxAge = false).
  { unfold st at 1, Status. simpl. fold fields.
    rewrite andb_true_iff, negb_true_iff, forallb_filter_nil. done. }
  split; [by rewrite Hh, Hs|]. rewrite Hh. f_equiv.
  - rewrite <- forallb_filter_nil, forallb_forall, Forall_forall. unfold fields.
    setoid_rewrite in_map_iff. split.
    + intros H f Hf. specialize (H (refresh_field now stale f)).
      assert (Hu : fieldUnhealthy (refresh_field now stale f) = false).
      { apply negb_true_iff, H. exists f. split; [done|]. by apply list_elem_of_In. }
      revert Hu. unfold fieldUnhealthy, refresh_field. destruct (IsZero (fs_LastOK f)); simpl;
        destruct (terminal_kind (fs_LastKind f)); try done.
      rewrite andb_false_iff, !Z.ltb_ge. intros [?|?]; split; auto.
    + intros H g (f & <- & Hf). apply list_elem_of_In in Hf. destruct (H f Hf) as [Hk Ha].
      apply negb_true_iff. unfold fieldUnhealthy, refresh_field. destruct (IsZero (fs_LastOK f)); simpl;
        rewrite Hk; [done|]. rewrite andb_false_iff, !Z.ltb_ge. tauto.
  - unfold bootstrapExpired, st, Status. simpl. destruct (rep_Bootstrap rep) as [bs|]; simpl; [|naive_solver].
    destruct (decide (rep_Source rep = SourceBootstrapCache)) as [->|Hn];
      [rewrite bool_decide_eq_true_2 by done|rewrite bool_decide_eq_false_2 by done; naive_solver].
    simpl. rewrite andb_false_iff, !Z.ltb_ge. split.
    + intros Ha _ Hm bs' [= <-]. lia.
    + intros Ha. destruct (Z_lt_dec 0 maxAge); [right|left; lia]. by apply (Ha eq_refl).
Qed.
