(* ===== verification/Bootstrap.v ===== *)
(** The bootstrap cache (src/bootstrap.go, bootstrapfile.go,
    bootstrapfingerprint.go and the load side of bootstrapstore.go): the
    snapshot of the last known-good values, its sealing, its fingerprint, and
    the restore that answers a failed cold start. The AEAD, the JSON codec, the
    hash and the file system are parameters. *)

From S2P Require Import Prelude Errors GoStrings Ref Provider Decode Fields Resolve.
Open Scope string_scope.
Open Scope Z_scope.

(** * Data *)

(** [snapshotFormatVersion] and [DefaultBootstrapMaxAge]. *)
Definition snapshotFormatVersion : Z := 1.
Definition DefaultBootstrapMaxAge : Z := 24 * 3600 * Second.

(** [type snapshotRecord struct]. *)
Record snapshotRecord := MkRecord {
  rec_Path : string;
  rec_Ref : string;
  rec_Bytes : string;
  rec_ValueVersion : string;
  rec_Sensitive : bool;
  rec_NotAfter : Z;
  rec_Metadata : gmap string string;
}.

(** [type snapshot struct]. *)
Record snapshot := MkSnapshot {
  snap_Version : Z;
  snap_WrittenAt : Z;
  snap_Fingerprint : string;
  snap_Records : list snapshotRecord;
}.

(** [type bootstrapConfig struct]. *)
Record bootstrapConfig := MkBootstrapConfig {
  bc_path : string;
  bc_key : string;
  bc_maxAge : Z;
  bc_err : option error;
}.

(** [type bootstrapOrigin struct] (src/bootstrapstore.go). *)
Record bootstrapOrigin := MkOrigin {
  or_present : bool;
  or_restored : bool;
  or_writtenAt : Z;
  or_resolveErr : option error;
}.

Definition invalid (msg : string) : error := EWrap msg [ESentinel ErrInvalid].
Definition unavailable (msg : string) : error := EWrap msg [ESentinel ErrUnavailable].

(** [newGCM]: the key check; the AES and GCM constructors only refuse a bad key
    size. *)
Definition newGCM (key : string) : res unit :=
  if (String.length key =? 32)%nat then Ok tt
  else Err (invalid "mamori: bootstrap cache key is not 32 bytes").

(** [func WithBootstrapCache(path, key, opts...)]: what it stores in the options
    after the caller's own options set [maxAge]. *)
Definition WithBootstrapCache (path key : string) (maxAge : Z) : bootstrapConfig :=
  let err :=
    if bool_decide (path = "") then Some (invalid "mamori: WithBootstrapCache path is required")
    else if maxAge <? 0 then Some (invalid "mamori: BootstrapMaxAge is negative")
    else err_of (newGCM key) in
  MkBootstrapConfig path key maxAge err.

(** * Fingerprint *)

Definition boolField (b : bool) : string := if b then "1" else "0".

Section fingerprint.
(** [hex(sha256(b))], and the name of a type, [reflect.Type.String()]. *)
Context (sha256_hex : string -> string) (type_name : gtype -> string).

Definition fingerprint_line (s : fieldSpec) : string :=
  Join [spec_Path s; Join (map Ref_String (spec_Refs s)) ","; type_name (spec_Type s);
        boolField (spec_Sensitive s)] (String "000" "").

(** [func schemaFingerprint(specs []fieldSpec) string]. *)
Definition schemaFingerprint (specs : list fieldSpec) : string :=
  sha256_hex (Join (map (fun l => l ++ String "001" "")
                      (merge_sort str_le (map fingerprint_line specs))) "").
End fingerprint.

(** * Records *)

(** [func bootstrapRecords(res []resolved) []snapshotRecord]. *)
Definition record_of (r : resolved) : option snapshotRecord :=
  if negb (r_set r) then None
  else
    let v := r_value r in
    Some (MkRecord (spec_Path (r_spec r))
            (match spec_Refs (r_spec r) with [] => "" | ref :: _ => Redacted ref end)
            (val_Bytes v) (val_Version v) (val_Sensitive v || spec_Sensitive (r_spec r))
            (val_NotAfter v) (val_Metadata v)).

Definition bootstrapRecords (res : list resolved) : list snapshotRecord := omap record_of res.

(** [func bootstrapTransient(k Kind) bool]. *)
Definition bootstrapTransient (k : Kind) : bool :=
  bool_decide (k = KindUnavailable) || bool_decide (k = KindRateLimited).

Section store.
Context (sha256_hex : string -> string) (type_name : gtype -> string).
(** [json.Marshal] and [json.Unmarshal] of a snapshot. *)
Context (encode : snapshot -> string) (decode : string -> option snapshot).
(** AES-256-GCM under a 32 byte key, with a 12 byte nonce. *)
Context (gcm_seal : string -> string -> string -> string)
        (gcm_open : string -> string -> string -> option string).

Definition NonceSize : nat := 12.

(** [func sealSnapshot(s snapshot, key []byte)], with the nonce [rand.Read]
    drew ([None] when it failed). *)
Definition sealSnapshot (nonce : option string) (s : snapshot) (key : string) : res string :=
  match newGCM key with
  | Err e => Err e
  | Ok _ =>
      match nonce with
      | None => Err (EWrap "mamori: bootstrap snapshot nonce" [ESentinel ErrUnavailable; EOpaque "rand"])
      | Some nonce => Ok (nonce ++ gcm_seal key nonce (encode s))
      end
  end.

(** [func openSnapshot(b, key []byte) (snapshot, error)]. *)
Definition openSnapshot (b key : string) : res snapshot :=
  match newGCM key with
  | Err e => Err e
  | Ok _ =>
      if (String.length b <? NonceSize)%nat
      then Err (invalid "mamori: bootstrap snapshot is truncated")
      else
        match gcm_open key (str_take NonceSize b) (str_drop NonceSize b) with
        | None => Err (invalid "mamori: bootstrap snapshot did not authenticate")
        | Some plain =>
            match decode plain with
            | None => Err (EWrap "mamori: bootstrap snapshot is not valid JSON"
                             [ESentinel ErrInvalid; EOpaque "json"])
            | Some s =>
                if negb (snap_Version s =? snapshotFormatVersion)
                then Err (invalid "mamori: bootstrap snapshot format version")
                else if IsZero (snap_WrittenAt s)
                then Err (invalid "mamori: bootstrap snapshot carries no write time")
                else Ok s
            end
        end
  end.

(** The snapshot [writeBootstrapSnapshot] seals. *)
Definition snapshot_of (specs : list fieldSpec) (res : list resolved) (now : Z) : snapshot :=
  MkSnapshot snapshotFormatVersion now (schemaFingerprint sha256_hex type_name specs)
    (bootstrapRecords res).

(** What [os.ReadFile] of the configured path gives. *)
Inductive file := FileMissing | FileUnreadable | FileBytes (b : string).

(** [func readBootstrapSnapshot(o *options) (snapshot, error)]. *)
Definition readBootstrapSnapshot (f : file) (key : string) : res snapshot :=
  match f with
  | FileMissing => Err (unavailable "mamori: no bootstrap snapshot has been written")
  | FileUnreadable => Err (unavailable "mamori: the bootstrap snapshot exists but could not be read")
  | FileBytes b => openSnapshot b key
  end.

(** A lease that has run out. *)
Definition rec_expired (now : Z) (rec : snapshotRecord) : bool :=
  negb (IsZero (rec_NotAfter rec)) && negb (now <? rec_NotAfter rec).

(** The first loop of [restoreBootstrap]: the records by path, the last of a
    path winning, or the first expired one. *)
Fixpoint index_records (now : Z) (recs : list snapshotRecord) (byPath : gmap string snapshotRecord)
    : gmap string snapshotRecord + snapshotRecord :=
  match recs with
  | [] => inl byPath
  | rec :: recs =>
      if rec_expired now rec then inr rec
      else index_records now recs (<[rec_Path rec := rec]> byPath)
  end.

(** The second loop: a spec with the record of its path. *)
Definition restore_spec (byPath : gmap string snapshotRecord) (s : fieldSpec) : resolved :=
  match byPath !! spec_Path s with
  | None => unresolved s
  | Some rec =>
      MkResolved s
        (MkValue (rec_Bytes rec) (rec_ValueVersion rec) (rec_Sensitive rec || spec_Sensitive s)
           (rec_NotAfter rec) (rec_Metadata rec)) true true
  end.

(** [func restoreBootstrap(o, specs, resolveErr, now)]. *)
Definition restoreBootstrap (f : file) (key : string) (specs : list fieldSpec)
    (resolveErr : error) (now : Z) : res (list resolved * Z) :=
  if negb (bootstrapTransient (ErrorKind (Some resolveErr))) then
    Err (EWrap "mamori: the backend answered and refused" [resolveErr])
  else
    match readBootstrapSnapshot f key with
    | Err e =>
        Err (EWrap "mamori: the backend is unreachable and the bootstrap snapshot is unusable"
               [resolveErr; e])
    | Ok s =>
        if negb (bool_decide (schemaFingerprint sha256_hex type_name specs = snap_Fingerprint s))
        then Err (EWrap "mamori: the bootstrap snapshot was written for a different config struct"
                    [resolveErr; ESentinel ErrInvalid])
        else
          match index_records now (snap_Records s) ∅ with
          | inr rec =>
              Err (EWrap ("mamori: the bootstrap snapshot's value expired: " ++ rec_Path rec)
                     [resolveErr; ESentinel ErrInvalid])
          | inl byPath => Ok (map (restore_spec byPath) specs, snap_WrittenAt s)
          end
    end.

(** [func bootstrapReplayErr(origin *bootstrapOrigin, err error) error]. *)
Definition bootstrapReplayErr (origin : option bootstrapOrigin) (err : error) : error :=
  match origin with
  | Some o =>
      if or_restored o then
        EWrap "mamori: the configuration restored from the bootstrap snapshot was rejected"
          (match or_resolveErr o with Some e => [e; err] | None => [err] end)
      else err
  | None => err
  end.
End store.

(** * Facts *)

Lemma index_records_inl now recs m m' :
  index_records now recs m = inl m' ->
  Forall (fun r => rec_expired now r = false) recs /\
  m' = list_to_map (reverse (map (fun r => (rec_Path r, r)) recs)) ∪ m.
Proof.
  revert m. induction recs as [|r recs IH]; intros m; simpl.
  { intros [= <-]. split; [constructor|]. by rewrite (left_id_L ∅ (∪)). }
  destruct (rec_expired now r) eqn:E; [done|]. intros H. apply IH in H as [HF ->].
  split; [by constructor|]. rewrite reverse_cons, list_to_map_app, <- (assoc_L (∪)).
  f_equal. simpl. by rewrite insert_empty, insert_union_singleton_l.
Qed.

Lemma index_records_fresh now recs :
  NoDup (map rec_Path recs) -> Forall (fun r => rec_expired now r = false) recs ->
  forall m, index_records now recs m = inl (list_to_map (map (fun r => (rec_Path r, r)) recs) ∪ m).
Proof.
  intros Hnd HF. induction HF as [|r recs Hr HF IH]; intros m; simpl.
  { by rewrite (left_id_L ∅ (∪)). }
  apply NoDup_cons in Hnd as [Hn Hnd]. rewrite Hr, IH by done. f_equal.
  rewrite <- insert_union_r, insert_union_l; [done|]. apply not_elem_of_list_to_map_1.
  rewrite <- list_fmap_compose. done.
Qed.

Lemma records_paths res :
  map rec_Path (bootstrapRecords res) =
  map (fun r => spec_Path (r_spec r)) (List.filter r_set res).
Proof.
  induction res as [|r res IH]; [done|]. unfold bootstrapRecords in *. cbn [omap list_omap].
  unfold record_of at 1. destruct (r_set r) eqn:E; cbn [List.filter map negb]; rewrite E; simpl; by rewrite <- IH.
Qed.

Lemma records_NoDup res :
  NoDup (map (fun r => spec_Path (r_spec r)) res) -> NoDup (map rec_Path (bootstrapRecords res)).
Proof.
  intros Hnd. rewrite records_paths. eapply sublist_NoDup; [exact Hnd|].
  apply (fmap_sublist (fun r => spec_Path (r_spec r))). induction res as [|r res IH]; simpl; [constructor|].
  apply NoDup_cons in Hnd as [_ Hnd]. destruct (r_set r); by constructor; apply IH.
Qed.

(** The lookup a restore makes for the spec of one of the recorded results. *)
Lemma record_lookup res r :
  NoDup (map (fun r => spec_Path (r_spec r)) res) -> r ∈ res ->
  (list_to_map (map (fun r => (rec_Path r, r)) (bootstrapRecords res)) : gmap string snapshotRecord)
    !! spec_Path (r_spec r) = record_of r.
Proof.
  intros Hnd Hr. assert (Hnr := records_NoDup res Hnd).
  assert (Hfst : (map (fun r => (rec_Path r, r)) (bootstrapRecords res)).*1 = map rec_Path (bootstrapRecords res)).
  { by rewrite <- list_fmap_compose. }
  destruct (record_of r) as [rec|] eqn:E.
  - apply elem_of_list_to_map_1; [by rewrite Hfst|]. apply list_elem_of_fmap.
    exists rec. split.
    + unfold record_of in E. destruct (r_set r); simplify_eq/=. done.
    + apply list_elem_of_omap. eauto.
  - apply not_elem_of_list_to_map_1. rewrite Hfst. intros (rec & Hp & Hrec)%list_elem_of_fmap.
    apply list_elem_of_omap in Hrec as (q & Hq & Hrq).
    assert (q = r) as ->; [|congruence].
    assert (Hpq : spec_Path (r_spec q) = spec_Path (r_spec r)).
    { unfold record_of in Hrq. destruct (r_set q); simplify_eq/=. done. }
    apply list_elem_of_lookup in Hq as [i Hi]. apply list_elem_of_lookup in Hr as [j Hj].
    assert (i = j) as ->; [|congruence].
    eapply (NoDup_lookup _ _ _ (spec_Path (r_spec r)) Hnd); rewrite list_lookup_fmap.
    + by rewrite Hi; simpl; rewrite Hpq.
    + by rewrite Hj.
Qed.

(** What a restore makes of a value that was recorded: everything it had, marked
    sensitive if the field is. *)
Definition restored_result (r : resolved) : resolved :=
  if r_set r then
    MkResolved (r_spec r)
      (MkValue (val_Bytes (r_value r)) (val_Version (r_value r))
         (val_Sensitive (r_value r) || spec_Sensitive (r_spec r))
         (val_NotAfter (r_value r)) (val_Metadata (r_value r))) true true
  else unresolved (r_spec r).

Lemma restore_spec_recorded res r :
  NoDup (map (fun r => spec_Path (r_spec r)) res) -> r ∈ res ->
  restore_spec (list_to_map (map (fun r => (rec_Path r, r)) (bootstrapRecords res))) (r_spec r) =
  restored_result r.
Proof.
  intros Hnd Hr. unfold restore_spec, restored_result. rewrite record_lookup by done.
  unfold record_of. destruct (r_set r); simpl; [|done].
  by rewrite <- orb_assoc, orb_diag.
Qed.

(** * Properties *)

(** C21. A snapshot restores what was written: sealing the results of an applied
    configuration and restoring the file later, for the same struct, after a
    transient failure and before any recorded lease has run out, gives back for
    every field its bytes, version, expiry and metadata, and leaves unset every
    field that was unset. *)
Theorem seal_restore_roundtrip sha tn enc dec seal open nonce key res resolveErr at_ now sealed :
  let specs := map r_spec res in
  let s := snapshot_of sha tn specs res at_ in
  NoDup (map spec_Path specs) -> at_ <> 0 ->
  String.length nonce = NonceSize ->
  open key nonce (seal key nonce (enc s)) = Some (enc s) -> dec (enc s) = Some s ->
  sealSnapshot enc seal (Some nonce) s key = Ok sealed ->
  bootstrapTransient (ErrorKind (Some resolveErr)) = true ->
  Forall (fun r => rec_expired now r = false) (bootstrapRecords res) ->
  restoreBootstrap sha tn dec open (FileBytes sealed) key specs resolveErr now =
    Ok (map restored_result res, at_).
Proof.
  intros specs s Hnd Hat Hnonce Hopen Hdec Hseal Htr Hexp.
  unfold sealSnapshot in Hseal. destruct (newGCM key) as [[]|] eqn:Ek; [|done]. injection Hseal as <-.
  assert (Hread : openSnapshot dec open (nonce ++ seal key nonce (enc s)) key = Ok s).
  { unfold openSnapshot. rewrite Ek.
    rewrite str_length_app, (proj2 (Nat.ltb_ge _ _)) by (rewrite Hnonce; lia).
    rewrite <- Hnonce, str_take_app, str_drop_app, Hopen, Hdec. simpl.
    unfold IsZero. by rewrite (proj2 (Z.eqb_neq at_ 0) Hat). }
  unfold restoreBootstrap. rewrite Htr. simpl readBootstrapSnapshot. rewrite Hread. simpl.
  rewrite bool_decide_eq_true_2 by done. simpl.
  assert (Hnd' : NoDup (map (fun r => spec_Path (r_spec r)) res)).
  { unfold specs in Hnd. rewrite map_map in Hnd. done. }
  rewrite index_records_fresh by (done || by apply records_NoDup).
  rewrite (right_id_L ∅ (∪)). do 2 f_equal. unfold specs. rewrite map_map.
  apply map_ext_in. intros r Hr. apply restore_spec_recorded; [done|]. by apply list_elem_of_In.
Qed.

Lemma seal_restore_roundtrip_witness :
  let res := [ setResolved (unresolved (demo_spec "A" [demo_ref "vault" "kv/a"] None))
                 (MkValue "s3cret" "7" true 500 ∅);
               unresolved (demo_spec "B" [demo_ref "env" "B"] None) ] in
  let key := "0123456789abcdef0123456789abcdef" in
  let s := snapshot_of (fun l => l) (fun _ => "string") (map r_spec res) res 100 in
  restoreBootstrap (fun l => l) (fun _ => "string") (fun _ => Some s) (fun _ _ c => Some c)
    (FileBytes ("nonce-nonce!" ++ "doc")) key (map r_spec res) (ESentinel ErrUnavailable) 400 =
    Ok (map restored_result res, 100).
Proof.
  intros res key s.
  apply (seal_restore_roundtrip (fun l => l) (fun _ => "string") (fun _ => "doc") (fun _ => Some s)
    (fun _ _ c => c) (fun _ _ c => Some c) "nonce-nonce!" key res (ESentinel ErrUnavailable) 100 400).
  - apply (bool_decide_unpack _). vm_compute. exact I.
  - lia.
  - reflexivity.
  - reflexivity.
  - reflexivity.
  - reflexivity.
  - reflexivity.
  - apply (bool_decide_unpack _). vm_compute. exact I.
Defined.

(** C22. A snapshot is only ever used in the situation it is meant for: a restore
    that succeeds answers an outage (an unavailable or rate-limited backend,
    never a refusal or an absence), from a file that authenticates under the key
    and carries the current format and a write time, written for a struct with
    the same fingerprint, none of whose leases has run out. Every error of a
    restore still carries the failure that led to it. *)
Theorem restoreBootstrap_safe sha tn dec open f key specs resolveErr now :
  match restoreBootstrap sha tn dec open f key specs resolveErr now with
  | Ok (out, at_) =>
      (ErrorKind (Some resolveErr) = KindUnavailable \/ ErrorKind (Some resolveErr) = KindRateLimited) /\
      map r_spec out = specs /\ at_ <> 0 /\
      exists b s, f = FileBytes b /\ openSnapshot dec open b key = Ok s /\
        snap_Version s = snapshotFormatVersion /\ snap_WrittenAt s = at_ /\
        snap_Fingerprint s = schemaFingerprint sha tn specs /\
        Forall (fun r => rec_NotAfter r = 0 \/ now < rec_NotAfter r) (snap_Records s)
  | Err e => forall t, errors_Is resolveErr t = true -> errors_Is e t = true
  end.
Proof.
  unfold restoreBootstrap. destruct (bootstrapTransient (ErrorKind (Some resolveErr))) eqn:Ht; simpl.
  2:{ intros t ->. done. }
  destruct f as [| |b]; simpl; [by intros t ->..|].
  destruct (openSnapshot dec open b key) as [s|e] eqn:Eo; [|by intros t; simpl; intros ->].
  case_bool_decide as Hf; simpl; [|by intros t ->].
  destruct (index_records now (snap_Records s) ∅) as [m|r] eqn:Ei; [|by intros t; simpl; intros ->].
  apply index_records_inl in Ei as [Hexp _].
  assert (Hs : snap_Version s = snapshotFormatVersion /\ snap_WrittenAt s <> 0).
  { unfold openSnapshot in Eo. destruct (newGCM key); [|done].
    repeat (case_match; try done). simplify_eq.
    match goal with H : negb (_ =? _) = false |- _ => apply negb_false_iff, Z.eqb_eq in H end.
    split; [done|]. by apply Z.eqb_neq. }
  split_and!.
  - unfold bootstrapTransient in Ht. apply orb_true_iff in Ht as [?|?]; bool_norm; auto.
  - rewrite map_map. rewrite <- (map_id specs) at 2. apply map_ext. intros sp.
    unfold restore_spec. by case_match.
  - apply Hs.
  - exists b, s. split_and!; try done; [apply Hs|]. eapply Forall_impl; [exact Hexp|].
    intros r. unfold rec_expired, IsZero. rewrite andb_false_iff, !negb_false_iff, Z.eqb_eq, Z.ltb_lt.
    tauto.
Qed.

(** The fingerprint is about the set of fields, not their order: reordering
    the struct keeps a snapshot restorable. *)
Theorem schemaFingerprint_perm sha tn specs specs' :
  specs ≡ₚ specs' -> schemaFingerprint sha tn specs = schemaFingerprint sha tn specs'.
Proof.
  intros Hp. unfold schemaFingerprint. do 3 f_equal. apply str_sort_perm.
  exact (Permutation_map (fingerprint_line tn) Hp).
Qed.

Lemma schemaFingerprint_perm_witness :
  schemaFingerprint (fun l => l) (fun _ => "string") (rev demo_specs) =
  schemaFingerprint (fun l => l) (fun _ => "string") demo_specs.
Proof. apply schemaFingerprint_perm. symmetry. apply Permutation_rev. Defined.
