(* ===== verification/EngineState.v ===== *)
(** The state of the reconciler (src/reconciler.go, the [engine] struct, with
    the published pointers of its [Watcher]), its parameters, and one setter per
    field. *)

From S2P Require Import Prelude Errors GoStrings Ref Provider Decode Fields Resolve Config Status Bootstrap.
Open Scope string_scope.

(** * Components of the state *)

(** [type srcState struct]: the latest outcome of one position of a chain. *)
Record srcState := MkSrc {
  st_seen : bool;
  st_value : Value;
  st_err : option error;
}.

Definition unseen : srcState := MkSrc false zero_Value None.

(** [type Snapshot[T] struct] (src/history.go). *)
Record Snapshot (T : Type) := MkSnap {
  sn_Version : nat;
  sn_At : Z;
  sn_Config : T;
  sn_Fields : list FieldChange;
  sn_applied : gmap string string;
}.
Arguments MkSnap {T}.
Arguments sn_Version {T}.
Arguments sn_At {T}.
Arguments sn_Config {T}.
Arguments sn_Fields {T}.
Arguments sn_applied {T}.

(** The bootstrap fields of the engine; [b_unconfirmed] is [None] when the map
    is nil. *)
Record bootState := MkBoot {
  b_present : bool;
  b_restored : bool;
  b_serving : bool;
  b_writtenAt : Z;
  b_unconfirmed : option (gset string);
}.

Definition no_boot : bootState := MkBoot false false false 0 None.

(** The pin fields of the engine. *)
Record pinState (T : Type) := MkPin {
  pn_pinned : bool;
  pn_version : nat;
  pn_config : T;
  pn_applied : gmap string string;
}.
Arguments MkPin {T}.
Arguments pn_pinned {T}.
Arguments pn_version {T}.
Arguments pn_config {T}.
Arguments pn_applied {T}.

(** [type RejectReason string]. *)
Inductive RejectReason := RejectValidation | RejectPreApply | RejectDerive.

(** What the engine hands to the meter and to the OnError callback, newest
    first in the trace. *)
Inductive effect :=
  | RecordRefresh (scheme : string)
  | RecordWatchError (scheme : string)
  | RecordStale (scheme : string)
  | RecordChangeDropped
  | RecordApplyRejected (reason : RejectReason)
  | RecordBootstrapWriteFailed
  | OnError (e : error).

(** * Parameters *)

(** What a watcher is built from: the specs of its type, the options, and the
    caller's hooks. [p_preApply] answers with the hook's error and with what
    [ctx.Err()] says once it returned. *)
Record params (W T : Type) := MkParams {
  p_specs : list fieldSpec;
  p_provider : string -> option (Provider W);
  p_gzip : string -> option (string * bool);
  p_fraction : Z -> Z -> Z -> Z;
  p_derives : list (typedDerive T);
  p_preApply : option (W -> Change T -> W * (option error * option error));
  p_validate : T -> option error;
  p_hasOnError : bool;
  p_debounce : Z;
  p_stale : Z;
  p_queueDepth : nat;
  p_historyN : nat;
  p_bootstrap : option bootstrapConfig;
  p_sha256 : string -> string;
  p_typeName : gtype -> string;
  p_writeSnapshot : snapshot -> W -> W * option error;
}.
Arguments MkParams {W T}.
Arguments p_specs {W T}.
Arguments p_provider {W T}.
Arguments p_gzip {W T}.
Arguments p_fraction {W T}.
Arguments p_derives {W T}.
Arguments p_preApply {W T}.
Arguments p_validate {W T}.
Arguments p_hasOnError {W T}.
Arguments p_debounce {W T}.
Arguments p_stale {W T}.
Arguments p_queueDepth {W T}.
Arguments p_historyN {W T}.
Arguments p_bootstrap {W T}.
Arguments p_sha256 {W T}.
Arguments p_typeName {W T}.
Arguments p_writeSnapshot {W T}.

(** * The state *)

(** [type engine[T] struct] without its constants, followed by the values the
    watcher publishes: [w.cfg], [w.report], [w.snapshots], the queue of the
    dispatch channel (oldest first), the trace of effects, and the world. *)
Record engine (W T : Type) := MkEngine {
  e_observed : gmap string Value;
  e_applied : gmap string string;
  e_lastOK : gmap string Z;
  e_lastErr : gmap string error;
  e_lastGood : T;
  e_version : nat;
  e_sources : list (list srcState);
  e_blocked : gset string;
  e_history : list (Snapshot T);
  e_boot : bootState;
  e_pin : pinState T;
  e_cfg : T;
  e_report : Report;
  e_snapshots : list (Snapshot T);
  e_dispatch : list (Change T);
  e_trace : list effect;
  e_world : W;
}.
Arguments MkEngine {W T}.
Arguments e_observed {W T}.
Arguments e_applied {W T}.
Arguments e_lastOK {W T}.
Arguments e_lastErr {W T}.
Arguments e_lastGood {W T}.
Arguments e_version {W T}.
Arguments e_sources {W T}.
Arguments e_blocked {W T}.
Arguments e_history {W T}.
Arguments e_boot {W T}.
Arguments e_pin {W T}.
Arguments e_cfg {W T}.
Arguments e_report {W T}.
Arguments e_snapshots {W T}.
Arguments e_dispatch {W T}.
Arguments e_trace {W T}.
Arguments e_world {W T}.

Section setters.
Context {W T : Type}.
Implicit Types e : engine W T.

Definition set_observed x e : engine W T :=
  MkEngine x (e_applied e) (e_lastOK e) (e_lastErr e) (e_lastGood e) (e_version e)
    (e_sources e) (e_blocked e) (e_history e) (e_boot e) (e_pin e) (e_cfg e) (e_report e)
    (e_snapshots e) (e_dispatch e) (e_trace e) (e_world e).
Definition set_applied x e : engine W T :=
  MkEngine (e_observed e) x (e_lastOK e) (e_lastErr e) (e_lastGood e) (e_version e)
    (e_sources e) (e_blocked e) (e_history e) (e_boot e) (e_pin e) (e_cfg e) (e_report e)
    (e_snapshots e) (e_dispatch e) (e_trace e) (e_world e).
Definition set_lastOK x e : engine W T :=
  MkEngine (e_observed e) (e_applied e) x (e_lastErr e) (e_lastGood e) (e_version e)
    (e_sources e) (e_blocked e) (e_history e) (e_boot e) (e_pin e) (e_cfg e) (e_report e)
    (e_snapshots e) (e_dispatch e) (e_trace e) (e_world e).
Definition set_lastErr x e : engine W T :=
  MkEngine (e_observed e) (e_applied e) (e_lastOK e) x (e_lastGood e) (e_version e)
    (e_sources e) (e_blocked e) (e_history e) (e_boot e) (e_pin e) (e_cfg e) (e_report e)
    (e_snapshots e) (e_dispatch e) (e_trace e) (e_world e).
Definition set_lastGood x e : engine W T :=
  MkEngine (e_observed e) (e_applied e) (e_lastOK e) (e_lastErr e) x (e_version e)
    (e_sources e) (e_blocked e) (e_history e) (e_boot e) (e_pin e) (e_cfg e) (e_report e)
    (e_snapshots e) (e_dispatch e) (e_trace e) (e_world e).
Definition set_version x e : engine W T :=
  MkEngine (e_observed e) (e_applied e) (e_lastOK e) (e_lastErr e) (e_lastGood e) x
    (e_sources e) (e_blocked e) (e_history e) (e_boot e) (e_pin e) (e_cfg e) (e_report e)
    (e_snapshots e) (e_dispatch e) (e_trace e) (e_world e).
Definition set_sources x e : engine W T :=
  MkEngine (e_observed e) (e_applied e) (e_lastOK e) (e_lastErr e) (e_lastGood e)
    (e_version e) x (e_blocked e) (e_history e) (e_boot e) (e_pin e) (e_cfg e)
    (e_report e) (e_snapshots e) (e_dispatch e) (e_trace e) (e_world e).
Definition set_blocked x e : engine W T :=
  MkEngine (e_observed e) (e_applied e) (e_lastOK e) (e_lastErr e) (e_lastGood e)
    (e_version e) (e_sources e) x (e_history e) (e_boot e) (e_pin e) (e_cfg e)
    (e_report e) (e_snapshots e) (e_dispatch e) (e_trace e) (e_world e).
Definition set_history x e : engine W T :=
  MkEngine (e_observed e) (e_applied e) (e_lastOK e) (e_lastErr e) (e_lastGood e)
    (e_version e) (e_sources e) (e_blocked e) x (e_boot e) (e_pin e) (e_cfg e)
    (e_report e) (e_snapshots e) (e_dispatch e) (e_trace e) (e_world e).
Definition set_boot x e : engine W T :=
  MkEngine (e_observed e) (e_applied e) (e_lastOK e) (e_lastErr e) (e_lastGood e)
    (e_version e) (e_sources e) (e_blocked e) (e_history e) x (e_pin e) (e_cfg e)
    (e_report e) (e_snapshots e) (e_dispatch e) (e_trace e) (e_world e).
Definition set_pin x e : engine W T :=
  MkEngine (e_observed e) (e_applied e) (e_lastOK e) (e_lastErr e) (e_lastGood e)
    (e_version e) (e_sources e) (e_blocked e) (e_history e) (e_boot e) x (e_cfg e)
    (e_report e) (e_snapshots e) (e_dispatch e) (e_trace e) (e_world e).
Definition set_cfg x e : engine W T :=
  MkEngine (e_observed e) (e_applied e) (e_lastOK e) (e_lastErr e) (e_lastGood e)
    (e_version e) (e_sources e) (e_blocked e) (e_history e) (e_boot e) (e_pin e) x
    (e_report e) (e_snapshots e) (e_dispatch e) (e_trace e) (e_world e).
Definition set_report x e : engine W T :=
  MkEngine (e_observed e) (e_applied e) (e_lastOK e) (e_lastErr e) (e_lastGood e)
    (e_version e) (e_sources e) (e_blocked e) (e_history e) (e_boot e) (e_pin e) (e_cfg e)
    x (e_snapshots e) (e_dispatch e) (e_trace e) (e_world e).
Definition set_snapshots x e : engine W T :=
  MkEngine (e_observed e) (e_applied e) (e_lastOK e) (e_lastErr e) (e_lastGood e)
    (e_version e) (e_sources e) (e_blocked e) (e_history e) (e_boot e) (e_pin e) (e_cfg e)
    (e_report e) x (e_dispatch e) (e_trace e) (e_world e).
Definition set_dispatch x e : engine W T :=
  MkEngine (e_observed e) (e_applied e) (e_lastOK e) (e_lastErr e) (e_lastGood e)
    (e_version e) (e_sources e) (e_blocked e) (e_history e) (e_boot e) (e_pin e) (e_cfg e)
    (e_report e) (e_snapshots e) x (e_trace e) (e_world e).
Definition set_trace x e : engine W T :=
  MkEngine (e_observed e) (e_applied e) (e_lastOK e) (e_lastErr e) (e_lastGood e)
    (e_version e) (e_sources e) (e_blocked e) (e_history e) (e_boot e) (e_pin e) (e_cfg e)
    (e_report e) (e_snapshots e) (e_dispatch e) x (e_world e).
Definition set_world x e : engine W T :=
  MkEngine (e_observed e) (e_applied e) (e_lastOK e) (e_lastErr e) (e_lastGood e)
    (e_version e) (e_sources e) (e_blocked e) (e_history e) (e_boot e) (e_pin e) (e_cfg e)
    (e_report e) (e_snapshots e) (e_dispatch e) (e_trace e) x.
End setters.

(** The published report before the first one is built. *)
Definition no_report : Report := MkReport [] 0 0 false true 0 SourceNone None.
