(* ===== verification/Engine.v ===== *)
(** The operations of the reconciler (src/reconciler.go, the engine side of
    src/report.go and src/bootstrapstore.go, [runPreApply] of src/preapply.go,
    [recordSnapshot] and the pin commands): one definition per method, each a
    function on the [engine] state. *)

From S2P Require Import Prelude Errors GoStrings Ref Provider Decode GoNumbers Fields Resolve Config Status Bootstrap EngineState.
Open Scope string_scope.
Open Scope Z_scope.

(** * Winners *)

(** The three outcomes of [recomputeWinner]: a value at a position, or an error,
    with the position that stopped the walk when there is one. *)
Inductive winner :=
  | Won (val : Value) (pos : nat)
  | Lost (pos : option nat) (err : error).

Fixpoint winner_loop (i : nat) (states : list srcState) : option winner :=
  match states with
  | [] => None
  | st :: states =>
      if negb (st_seen st) then winner_loop (S i) states
      else
        match st_err st with
        | None => Some (Won (st_value st) i)
        | Some err =>
            if errors_Is err ErrNotFound then winner_loop (S i) states
            else Some (Lost (Some i) err)
        end
  end.

(** [func (e *engine[T]) recomputeWinner(specIdx int)], on the states of the
    field. *)
Definition recomputeWinner (states : list srcState) : winner :=
  match winner_loop 0 states with
  | Some w => w
  | None =>
      match states with
      | [MkSrc _ _ (Some err)] => Lost (Some 0%nat) err
      | _ => Lost None (ESentinel ErrNotFound)
      end
  end.

Definition winner_pos (w : winner) : option nat :=
  match w with Won _ pos => Some pos | Lost pos _ => pos end.

(** [ref := spec.Refs[0]; if pos >= 0 { ref = spec.Refs[pos] }]. *)
Definition winner_ref (spec : fieldSpec) (w : winner) : Ref :=
  match winner_pos w with
  | Some pos => default (head_ref spec) (spec_Refs spec !! pos)
  | None => head_ref spec
  end.

(** [func refDebounceOverride(ref Ref) (time.Duration, bool)]. *)
Definition refDebounceOverride (fraction : Z -> Z -> Z -> Z) (ref : Ref) : option Z :=
  let v := Ref_Opt ref "debounce" in
  if bool_decide (v = "") then None
  else
    match ParseDuration fraction v with
    | Some d => Some d
    | None => if bool_decide (v = "0") then Some 0 else None
    end.

(** The loop of [debounceFor]: the smallest override, else the option. *)
Fixpoint debounce_loop (fraction : Z -> Z -> Z -> Z) (best : Z) (has : bool) (refs : list Ref) : Z :=
  match refs with
  | [] => best
  | ref :: refs =>
      match refDebounceOverride fraction ref with
      | None => debounce_loop fraction best has refs
      | Some d =>
          if negb has || (d <? best) then debounce_loop fraction d true refs
          else debounce_loop fraction best has refs
      end
  end.

Section engine.
Context {W T View : Type} `{Env W} `{Config T View}.
Context (P : params W T).
Implicit Types e : engine W T.

Definition debounceFor (spec : fieldSpec) : Z :=
  debounce_loop (p_fraction P) (p_debounce P) false (spec_Refs spec).

Definition clock_now e : Z := now (e_world e).

Definition emit (x : effect) e : engine W T := set_trace (x :: e_trace e) e.

(** [func (e *engine[T]) emitErr(err error)]: nothing without a callback. *)
Definition emitErr (err : error) e : engine W T :=
  if p_hasOnError P then emit (OnError err) e else e.

Definition sources_of e (i : nat) : list srcState := default [] (e_sources e !! i).

(** * Reports *)

Definition field_status e (now : Z) (i : nat) (spec : fieldSpec) : FieldStatus :=
  let ref := winner_ref spec (recomputeWinner (sources_of e i)) in
  let '(lastOK, age, stale) :=
    match e_lastOK e !! spec_Path spec with
    | Some last =>
        let age := Sub now last in
        (last, age, (0 <? p_stale P) && (p_stale P <? age))
    | None => (0, 0, false)
    end in
  let lastErr := e_lastErr e !! spec_Path spec in
  MkFieldStatus (spec_Path spec) (ref_Scheme ref) (Redacted ref)
    (match e_observed e !! spec_Path spec with Some v => val_Version v | None => "" end)
    lastOK age stale lastErr (ErrorKind lastErr) (spec_Sensitive spec) false.

(** The row of a declared derived path that names a readable field. *)
Definition derived_status (lastGood : T) (p : string) : option FieldStatus :=
  match cfg_view lastGood p with
  | None => None
  | Some v =>
      Some (MkFieldStatus p "" "" (derivedVersion v) 0 0 false None "" (view_secret v) true)
  end.

(** [func (e *engine[T]) bootstrapStatus(now) *BootstrapStatus]. *)
Definition bootstrapStatus e (now : Z) : option BootstrapStatus :=
  match p_bootstrap P with
  | None => None
  | Some _ =>
      let b := e_boot e in
      Some (MkBootstrapStatus (b_present b) (b_restored b) (b_writtenAt b)
              (if IsZero (b_writtenAt b) then 0 else Sub now (b_writtenAt b))
              (b_present b)
              (if b_present b then "" else "no snapshot has been written"))
  end.

(** [func (e *engine[T]) bootstrapSource() ConfigSource]. *)
Definition bootstrapSource e : ConfigSource :=
  match p_bootstrap P with
  | None => SourceNone
  | Some _ => if b_serving (e_boot e) then SourceBootstrapCache else SourceBackend
  end.

(** [func (e *engine[T]) buildReport() *Report]. *)
Definition buildReport e : Report :=
  let now := clock_now e in
  let fields := imap (field_status e now) (p_specs P) in
  let derived := omap (derived_status (e_lastGood e)) (derived_paths (p_derives P) (p_specs P)) in
  MkReport (fields ++ derived)%list
    (if pn_pinned (e_pin e) then pn_version (e_pin e) else e_version e)
    (e_version e) (pn_pinned (e_pin e))
    (forallb (fun f => negb (fieldUnhealthy f)) fields) now (bootstrapSource e)
    (bootstrapStatus e now).

(** [e.w.report.Store(e.buildReport())]. *)
Definition publish e : engine W T := set_report (buildReport e) e.

(** * Bootstrap cache *)

(** [func (e *engine[T]) observedAsResolved() []resolved]. *)
Definition observedAsResolved e : list resolved :=
  omap (fun spec => (fun v => MkResolved spec v true true) <$> e_observed e !! spec_Path spec)
    (p_specs P).

Definition snapshot_now e : snapshot :=
  snapshot_of (p_sha256 P) (p_typeName P) (p_specs P) (observedAsResolved e) (clock_now e).

(** [func (e *engine[T]) persistBootstrap()], with the package function of that
    name inlined: the write time is recorded only on success. *)
Definition persistBootstrap e : engine W T :=
  match p_bootstrap P with
  | None => e
  | Some _ =>
      let at_ := clock_now e in
      let '(w, err) := p_writeSnapshot P (snapshot_now e) (e_world e) in
      let e := set_world w e in
      match err with
      | Some err => emitErr err (emit RecordBootstrapWriteFailed e)
      | None =>
          if IsZero at_ then e
          else
            let b := e_boot e in
            set_boot (MkBoot true (b_restored b) (b_serving b) at_ (b_unconfirmed b)) e
      end
  end.

(** [func (e *engine[T]) markBootstrapReconciled(path string)]. *)
Definition markBootstrapReconciled (path : string) e : engine W T :=
  let b := e_boot e in
  match b_unconfirmed b with
  | None => e
  | Some unconfirmed =>
      let unconfirmed := unconfirmed ∖ {[path]} in
      if bool_decide (unconfirmed = ∅) then
        persistBootstrap (set_boot (MkBoot (b_present b) (b_restored b) false (b_writtenAt b) None) e)
      else
        set_boot (MkBoot (b_present b) (b_restored b) (b_serving b) (b_writtenAt b)
                    (Some unconfirmed)) e
  end.

(** [func (e *engine[T]) seedBootstrapOrigin(origin, restored)]. *)
Definition seedBootstrapOrigin (origin : bootstrapOrigin) (restored : list resolved) e : engine W T :=
  let paths : list string := omap (fun r =>
    if negb (r_set r) || bool_decide (val_Version (r_value r) = defaultValueVersion) then None
    else Some (spec_Path (r_spec r))) restored in
  let unconfirmed : gset string := list_to_set paths in
  if bool_decide (unconfirmed = ∅) then
    set_boot (MkBoot (or_present origin) true (b_serving (e_boot e)) (or_writtenAt origin)
                (b_unconfirmed (e_boot e))) e
  else set_boot (MkBoot (or_present origin) true true (or_writtenAt origin) (Some unconfirmed)) e.

(** * Sources *)

(** [func (e *engine[T]) recordSourceUpdate(specIdx, pos, up, sensitive)]. *)
Definition source_outcome (ref : Ref) (up : Update) (sensitive : bool) : srcState :=
  match up_Err up with
  | Some err => MkSrc true zero_Value (Some err)
  | None =>
      match applyDecode (p_gzip P) ref (up_Value up) with
      | Err err => MkSrc true zero_Value (Some err)
      | Ok dec => MkSrc true (mark_sensitive sensitive dec) None
      end
  end.

Definition recordSourceUpdate (specIdx pos : nat) (spec : fieldSpec) (up : Update) e : engine W T :=
  let st := source_outcome (default (head_ref spec) (spec_Refs spec !! pos)) up (spec_Sensitive spec) in
  set_sources (alter (fun states => <[pos := st]> states) specIdx (e_sources e)) e.

(** The walk of [seedChainSources] over the remaining positions: those after the
    one that stops it stay unseen. *)
Fixpoint seed_loop (sensitive : bool) (refs : list Ref) (w : W) : W * list srcState :=
  match refs with
  | [] => (w, [])
  | ref :: refs =>
      let rest := map (fun _ => unseen) refs in
      match p_provider P (ref_Scheme ref) with
      | None => (w, MkSrc true zero_Value (Some (ESentinel ErrInvalid)) :: rest)
      | Some p =>
          let '(w, got) := prov_Resolve p ref w in
          match got ≫= applyDecode (p_gzip P) ref with
          | Ok val => (w, MkSrc true (mark_sensitive sensitive val) None :: rest)
          | Err err =>
              let st := MkSrc true zero_Value (Some err) in
              if errors_Is err ErrNotFound then
                let '(w, sts) := seed_loop sensitive refs w in (w, st :: sts)
              else (w, st :: rest)
          end
      end
  end.

(** [func (e *engine[T]) seedChainSources(ctx, spec) []srcState]. *)
Definition seedChainSources (spec : fieldSpec) (w : W) : W * list srcState :=
  seed_loop (spec_Sensitive spec) (spec_Refs spec) w.

(** [func (e *engine[T]) reportTerminalError(spec, ref, err)]. *)
Definition reportTerminalError (spec : fieldSpec) (ref : Ref) (err : error) e : engine W T :=
  let e := emit (RecordWatchError (ref_Scheme ref)) e in
  let path := spec_Path spec in
  let stale :=
    (0 <? p_stale P) &&
    match e_lastOK e !! path with
    | Some last => p_stale P <? Sub (clock_now e) last
    | None => false
    end in
  if stale then
    let se := StaleError (Redacted ref) err in
    emitErr se (set_lastErr (<[path := se]> (e_lastErr e)) (emit (RecordStale (ref_Scheme ref)) e))
  else
    let pe := ref_error ref err in
    emitErr pe (set_lastErr (<[path := pe]> (e_lastErr e)) e).

(** What [handleChainNotFound] does once it has lifted the block. *)
Definition notfound_outcome (spec : fieldSpec) (err : error) e : engine W T :=
  if errors_Is err ErrNotFound && (spec_HasDefault spec || spec_Optional spec) then
    markBootstrapReconciled (spec_Path spec)
      (set_lastErr (delete (spec_Path spec) (e_lastErr e)) e)
  else reportTerminalError spec (head_ref spec) err e.

(** [delete(e.blocked, path)]. *)
Definition clearBlock (path : string) e : engine W T := set_blocked (e_blocked e ∖ {[path]}) e.

(** [e.lastOK[path] = now; delete(e.lastErr, path)]. *)
Definition mark_ok (path : string) e : engine W T :=
  set_lastErr (delete path (e_lastErr e)) (set_lastOK (<[path := clock_now e]> (e_lastOK e)) e).

(** The change test and store of [markChanged] and of [refreshNow]'s
    [observe]: whether the value was recorded as new. *)
Definition is_new e (path : string) (val : Value) : bool :=
  match e_observed e !! path with
  | Some cur => changed cur val
  | None => true
  end.

Definition observe_value (path : string) (val : Value) e : engine W T :=
  if is_new e path val then set_observed (<[path := val]> (e_observed e)) e else e.

(** The outcome of the onFailFail and onFailKeepLast branches. *)
Definition block (path : string) e : engine W T := set_blocked ({[path]} ∪ e_blocked e) e.

(** * Candidates *)

(** [func (e *engine[T]) blockedErr() error]: the error of the first blocked
    path in the order of the specs. *)
Fixpoint blocked_loop (specs : list fieldSpec) e : option error :=
  match specs with
  | [] => None
  | spec :: specs =>
      if negb (bool_decide (spec_Path spec ∈ e_blocked e)) then blocked_loop specs e
      else
        match e_lastErr e !! spec_Path spec with
        | Some err => Some err
        | None =>
            Some (EWrap ("mamori: " ++ spec_Path spec ++ " is failing and its onfail policy rejects every update")
                    [ESentinel ErrInvalid])
        end
  end.

Definition blockedErr e : option error := blocked_loop (p_specs P) e.

(** The decode loop: every observed value into its field. *)
Fixpoint decode_loop (observed : gmap string Value) (specs : list fieldSpec) (cand : T) : res T :=
  match specs with
  | [] => Ok cand
  | spec :: specs =>
      match observed !! spec_Path spec with
      | None => decode_loop observed specs cand
      | Some v =>
          match cfg_setField spec (val_Bytes v) cand with
          | Err err => Err (ValidationError err)
          | Ok cand => decode_loop observed specs cand
          end
      end
  end.

(** The version diff of a candidate, which advances the applied map. *)
Fixpoint diff_loop (observed : gmap string Value) (specs : list fieldSpec)
    (applied : gmap string string) : list FieldChange * gmap string string :=
  match specs with
  | [] => ([], applied)
  | spec :: specs =>
      let path := spec_Path spec in
      match observed !! path with
      | None => diff_loop observed specs applied
      | Some v =>
          if bool_decide (go_get applied path = val_Version v) then diff_loop observed specs applied
          else
            let '(fields, applied') := diff_loop observed specs (<[path := val_Version v]> applied) in
            (MkFieldChange path (go_get applied path) (val_Version v) :: fields, applied')
      end
  end.

(** The outcome of [buildCandidate]: a refusal, or the candidate with its diff. *)
Inductive candidate :=
  | Refused (err : option error)
  | Built (cand : T) (fields : list FieldChange).

(** [func (e *engine[T]) buildCandidate() (cand T, fields []FieldChange, err error)]. *)
Definition buildCandidate e : engine W T * candidate :=
  if negb (bool_decide (e_blocked e = ∅)) then (e, Refused (blockedErr e))
  else
    match decode_loop (e_observed e) (p_specs P) cfg_zero with
    | Err ve => (emitErr ve e, Refused (Some ve))
    | Ok cand =>
        match run_derives (p_derives P) cand with
        | Err de => (emitErr de (emit (RecordApplyRejected RejectDerive) e), Refused (Some de))
        | Ok cand =>
            match p_validate P cand with
            | Some err =>
                let ve := ValidationError err in
                (emitErr ve (emit (RecordApplyRejected RejectValidation) e), Refused (Some ve))
            | None =>
                let '(fields, applied) := diff_loop (e_observed e) (p_specs P) (e_applied e) in
                (set_applied applied e,
                 Built cand (fields ++ derivedFieldChanges (e_lastGood e) cand (p_derives P) (p_specs P))%list)
            end
        end
    end.

(** [func runPreApply(parent, hook, timeout, ev, mark) error]. *)
Definition runPreApply (ev : Change T) (w : W) : W * option error :=
  match p_preApply P with
  | None => (w, None)
  | Some hook =>
      let '(w, (err, ctx_err)) := hook w ev in
      match err, ctx_err with
      | Some err, _ => (w, Some (PreApplyError err))
      | None, Some err => (w, Some (PreApplyError err))
      | None, None => (w, None)
      end
  end.

(** The rollback of a refused gate: [e.applied[f.Path] = f.OldVersion]. *)
Definition rollback (fields : list FieldChange) (applied : gmap string string) : gmap string string :=
  foldl (fun m f => <[fc_Path f := fc_OldVersion f]> m) applied fields.

(** [func (e *engine[T]) recordSnapshot(cfg T, fields []FieldChange)]. *)
Definition recordSnapshot (cfg : T) (fields : list FieldChange) e : engine W T :=
  let snap := MkSnap (e_version e) (clock_now e) cfg fields (e_applied e) in
  let history := last_n (S (p_historyN P)) (e_history e ++ [snap])%list in
  set_snapshots (reverse history) (set_history history e).

(** [func (e *engine[T]) enqueue(ev Change[T])]: the send, or the drop of the
    oldest event and another try. A buffered queue needs at most two turns; an
    unbuffered one has nothing to drop, and the loop waits for a receiver. *)
Fixpoint enqueue_loop (fuel : nat) (ev : Change T) e : engine W T :=
  match fuel with
  | O => e
  | S fuel =>
      if (length (e_dispatch e) <? p_queueDepth P)%nat
      then set_dispatch (e_dispatch e ++ [ev])%list e
      else
        match e_dispatch e with
        | [] => enqueue_loop fuel ev e
        | _ :: q => enqueue_loop fuel ev (emit RecordChangeDropped (set_dispatch q e))
        end
  end.

Definition enqueue (ev : Change T) e : engine W T := enqueue_loop (S (S (length (e_dispatch e)))) ev e.

(** [func (e *engine[T]) isDerivedPath(path string) bool]. *)
Definition isDerivedPath (path : string) : bool := negb (hasSpecPath (p_specs P) path).

(** [func (e *engine[T]) schemeForPath(path string) string]. *)
Fixpoint scheme_loop (i : nat) (specs : list fieldSpec) (path : string) e : string :=
  match specs with
  | [] => ""
  | s :: specs =>
      if negb (bool_decide (spec_Path s = path)) then scheme_loop (S i) specs path e
      else ref_Scheme (winner_ref s (recomputeWinner (sources_of e i)))
  end.

Definition schemeForPath (path : string) e : string := scheme_loop 0 (p_specs P) path e.

(** The refresh metering of an applied diff. *)
Definition record_refreshes (fields : list FieldChange) e : engine W T :=
  foldl (fun e f =>
    if isDerivedPath (fc_Path f) then e
    else emit (RecordRefresh (schemeForPath (fc_Path f) e)) e) e fields.

(** What [flush] does with a candidate that passed the gate. *)
Definition apply_candidate (cand : T) (fields : list FieldChange) e : engine W T :=
  let old := e_lastGood e in
  let e := set_lastGood cand (set_version (S (e_version e)) e) in
  let e := persistBootstrap (recordSnapshot cand fields e) in
  if pn_pinned (e_pin e) then publish (record_refreshes fields e)
  else
    publish (enqueue (MkChange old cand fields) (record_refreshes fields (set_cfg cand e))).

(** [func (e *engine[T]) flush(ctx, pending) error]; [None] is nil. *)
Definition flush (pending : gset string) e : engine W T * option error :=
  if bool_decide (pending = ∅) then (e, None)
  else
    match buildCandidate e with
    | (e, Refused err) => (e, err)
    | (e, Built cand []) => (e, None)
    | (e, Built cand fields) =>
        let '(w, gate) := runPreApply (MkChange (e_lastGood e) cand fields) (e_world e) in
        let e := set_world w e in
        match gate with
        | Some err =>
            let e := set_applied (rollback fields (e_applied e)) e in
            (emitErr err (emit (RecordApplyRejected RejectPreApply) e), Some err)
        | None => (apply_candidate cand fields e, None)
        end
    end.

(** * Refresh and pins *)

(** The merge of [refreshNow]: only the positions the walk reached. *)
Definition merge_states (old fresh : list srcState) : list srcState :=
  zip_with (fun o f => if st_seen f then f else o) old fresh.

(** The classification of one field in [refreshNow]. *)
Definition refresh_outcome (i : nat) (spec : fieldSpec) e : engine W T :=
  let path := spec_Path spec in
  let win := recomputeWinner (sources_of e i) in
  match win with
  | Won val _ => observe_value path val (clearBlock path (mark_ok path e))
  | Lost _ cherr =>
      if errors_Is cherr ErrNotFound then
        notfound_outcome spec cherr (clearBlock path e)
      else
        match spec_OnFail spec with
        | onFailUseDefault =>
            observe_value path (default_value spec) (mark_ok path (clearBlock path e))
        | onFailFail =>
            reportTerminalError spec (winner_ref spec win) cherr (block path e)
        | onFailKeepLast =>
            reportTerminalError spec (winner_ref spec win) cherr (clearBlock path e)
        end
  end.

Definition refresh_spec (i : nat) (spec : fieldSpec) e : engine W T :=
  let '(w, fresh) := seedChainSources spec (e_world e) in
  let e := set_world w e in
  refresh_outcome i spec
    (set_sources (alter (fun old => merge_states old fresh) i (e_sources e)) e).

Fixpoint refresh_loop (i : nat) (specs : list fieldSpec) e : engine W T :=
  match specs with
  | [] => e
  | spec :: specs => refresh_loop (S i) specs (refresh_spec i spec e)
  end.

(** [func (e *engine[T]) refreshNow(ctx) error]. *)
Definition refreshNow e : engine W T * option error :=
  flush (list_to_set (map spec_Path (p_specs P))) (refresh_loop 0 (p_specs P) e).

(** [func (e *engine[T]) findSnapshot(version uint64)]. *)
Definition findSnapshot (version : nat) (history : list (Snapshot T)) : option (Snapshot T) :=
  find (fun s => bool_decide (sn_Version s = version)) history.

(** [func (e *engine[T]) diffApplied(before, after, oldCfg, newCfg)]. *)
Definition applied_change (before after : gmap string string) (spec : fieldSpec) : option FieldChange :=
  let b := go_get before (spec_Path spec) in
  let a := go_get after (spec_Path spec) in
  if bool_decide (b = a) then None else Some (MkFieldChange (spec_Path spec) b a).

Definition diffApplied (before after : gmap string string) (oldCfg newCfg : T) : list FieldChange :=
  (omap (applied_change before after) (p_specs P) ++
   derivedFieldChanges oldCfg newCfg (p_derives P) (p_specs P))%list.

(** [type pinKind int] with the version a [pinAt] carries, and [pinReply]. *)
Inductive pinCmd := pinAt (version : nat) | pinCurrent | unpin | refresh.

Record pinReply := MkReply { reply_version : nat; reply_err : option error }.

(** [func (e *engine[T]) handlePin(ctx, cmd)]: the state it leaves and its
    reply. *)
Definition handlePin (cmd : pinCmd) e : engine W T * pinReply :=
  let '(e, reply) :=
    match cmd with
    | pinCurrent =>
        let p := e_pin e in
        let servedVersion := if pn_pinned p then pn_version p else e_version e in
        let servedConfig := if pn_pinned p then pn_config p else e_lastGood e in
        let servedApplied := if pn_pinned p then pn_applied p else e_applied e in
        (set_cfg servedConfig
           (set_pin (MkPin true servedVersion servedConfig servedApplied) e),
         MkReply servedVersion None)
    | pinAt version =>
        match findSnapshot version (e_history e) with
        | None => (e, MkReply 0 (Some (ESentinel ErrNoSuchSnapshot)))
        | Some snap =>
            (set_cfg (sn_Config snap)
               (set_pin (MkPin true version (sn_Config snap) (sn_applied snap)) e),
             MkReply version None)
        end
    | unpin =>
        let p := e_pin e in
        if negb (pn_pinned p) then (e, MkReply 0 None)
        else
          let old := pn_config p in
          let newCfg := e_lastGood e in
          let fields := diffApplied (pn_applied p) (e_applied e) old newCfg in
          let e := set_cfg newCfg (set_pin (MkPin false (pn_version p) old ∅) e) in
          let e := match fields with
                   | [] => e
                   | _ => enqueue (MkChange old newCfg fields) e
                   end in
          (e, MkReply 0 None)
    | refresh => let '(e, err) := refreshNow e in (e, MkReply 0 err)
    end in
  (publish e, reply).
End engine.
