(* ===== verification/Loop.v ===== *)
(** The reconciler goroutine (src/reconciler.go [loop]): its local variables,
    its helpers, the handling of one event of its select, and the steps of the
    goroutines around it (the clock and the backends, the dispatcher that hands
    changes to OnChange) as a step relation. *)

From S2P Require Import Prelude Errors GoStrings Ref Provider Decode GoNumbers Fields Resolve Config Status Bootstrap EngineState Engine.
Open Scope string_scope.
Open Scope Z_scope.

(** The variables of [loop] next to the engine: the pending batch, the time the
    armed timer fires, the start and the window of the batch, whether [updates]
    is still open, and whether the goroutine still runs. *)
Record loop_state (W T : Type) := MkLoop {
  l_engine : engine W T;
  l_pending : gset string;
  l_timer : option Z;
  l_pendingSince : Z;
  l_window : Z;
  l_open : bool;
  l_running : bool;
}.
Arguments MkLoop {W T}.
Arguments l_engine {W T}.
Arguments l_pending {W T}.
Arguments l_timer {W T}.
Arguments l_pendingSince {W T}.
Arguments l_window {W T}.
Arguments l_open {W T}.
Arguments l_running {W T}.

(** What the goroutine, or the world around it, does next. *)
Inductive loop_event (W : Type) :=
  | LDone
  | LUpdate (idx pos : nat) (up : Update)
  | LClosed
  | LTimer
  | LControl (cmd : pinCmd)
  | LWorld (w : W)
  | LDispatch.
Arguments LDone {W}.
Arguments LUpdate {W}.
Arguments LClosed {W}.
Arguments LTimer {W}.
Arguments LControl {W}.
Arguments LWorld {W}.
Arguments LDispatch {W}.

Section loop.
Context {W T View : Type} `{Env W} `{Config T View}.
Context (P : params W T).
Implicit Types l : loop_state W T.

Definition on_engine (f : engine W T -> engine W T) l : loop_state W T :=
  MkLoop (f (l_engine l)) (l_pending l) (l_timer l) (l_pendingSince l) (l_window l)
    (l_open l) (l_running l).

Definition set_timer (t : option Z) l : loop_state W T :=
  MkLoop (l_engine l) (l_pending l) t (l_pendingSince l) (l_window l) (l_open l) (l_running l).

(** [disarm], [arm]: the timer fires at the end of the window, or at once. *)
Definition disarm l : loop_state W T := set_timer None l.

Definition arm l : loop_state W T :=
  let fireAt := l_pendingSince l + l_window l in
  let d := Sub fireAt (clock_now (l_engine l)) in
  let d := if d <? 0 then 0 else d in
  set_timer (Some (clock_now (l_engine l) + d)) (disarm l).

(** [addPending(spec)]. *)
Definition addPending (spec : fieldSpec) l : loop_state W T :=
  let fieldWindow := debounceFor P spec in
  let '(since, window) :=
    if bool_decide (l_pending l = ∅) then (clock_now (l_engine l), fieldWindow)
    else (l_pendingSince l, if fieldWindow <? l_window l then fieldWindow else l_window l) in
  MkLoop (l_engine l) ({[spec_Path spec]} ∪ l_pending l) (l_timer l) since window
    (l_open l) (l_running l).

(** [markChanged(spec, val)]. *)
Definition markChanged (spec : fieldSpec) (val : Value) l : loop_state W T :=
  if is_new (l_engine l) (spec_Path spec) val then
    arm (addPending spec (on_engine (observe_value (spec_Path spec) val) l))
  else l.

(** A spec whose observed version has not been applied. *)
Definition unapplied (e : engine W T) (spec : fieldSpec) : bool :=
  match e_observed e !! spec_Path spec with
  | None => false
  | Some v => negb (bool_decide (go_get (e_applied e) (spec_Path spec) = val_Version v))
  end.

(** [unblock(path)]. *)
Definition unblock (path : string) l : loop_state W T :=
  if negb (bool_decide (path ∈ e_blocked (l_engine l))) then l
  else
    let l := on_engine (clearBlock path) l in
    let stranded := List.filter (unapplied (l_engine l)) (p_specs P) in
    match stranded with
    | [] => l
    | _ => arm (foldl (fun l spec => addPending spec l) l stranded)
    end.

(** [func (e *engine[T]) handleChainNotFound(spec, err, unblock)]. *)
Definition handleChainNotFound (spec : fieldSpec) (err : error) l : loop_state W T :=
  on_engine (notfound_outcome P spec err) (unblock (spec_Path spec) l).

(** The update case of the select, after the receive. *)
Definition update_outcome (spec : fieldSpec) (win : winner) l : loop_state W T :=
  let path := spec_Path spec in
  match win with
  | Won val _ =>
      markChanged spec val
        (on_engine (markBootstrapReconciled P path) (unblock path (on_engine (mark_ok path) l)))
  | Lost _ cherr =>
      if errors_Is cherr ErrNotFound then handleChainNotFound spec cherr l
      else
        let ref := winner_ref spec win in
        match spec_OnFail spec with
        | onFailUseDefault =>
            markChanged spec (default_value spec)
              (on_engine (markBootstrapReconciled P path)
                 (on_engine (mark_ok path) (unblock path l)))
        | onFailFail => on_engine (reportTerminalError P spec ref cherr) (on_engine (block path) l)
        | onFailKeepLast =>
            on_engine (reportTerminalError P spec ref cherr) (on_engine (clearBlock path) l)
        end
  end.

Definition handle_update (idx pos : nat) (up : Update) (spec : fieldSpec) l : loop_state W T :=
  let l := on_engine (recordSourceUpdate P idx pos spec up) l in
  on_engine (publish P)
    (update_outcome spec (recomputeWinner (sources_of (l_engine l) idx)) l).

(** The goroutine returns. *)
Definition stop l : loop_state W T :=
  MkLoop (l_engine l) (l_pending l) (l_timer l) (l_pendingSince l) (l_window l) (l_open l) false.

Definition close_updates l : loop_state W T :=
  MkLoop (l_engine l) (l_pending l) (l_timer l) (l_pendingSince l) (l_window l) false (l_running l).

Definition clear_pending l : loop_state W T :=
  MkLoop (l_engine l) ∅ (l_timer l) (l_pendingSince l) (l_window l) (l_open l) (l_running l).

(** The timer case. *)
Definition handle_timer l : loop_state W T :=
  let l := on_engine (fun e => (flush P (l_pending l) e).1) l in
  let l := on_engine (publish P) (disarm (clear_pending l)) in
  if l_open l then l else stop l.

(** One step: the state after an event that can happen, with the reply it
    sends; [None] when the event cannot happen. *)
Definition loop_step l (ev : loop_event W) : option (loop_state W T * option pinReply) :=
  match ev with
  | LWorld w =>
      if now (e_world (l_engine l)) <=? now w
      then Some (on_engine (set_world w) l, None) else None
  | LDispatch =>
      match e_dispatch (l_engine l) with
      | [] => None
      | _ :: q => Some (on_engine (set_dispatch q) l, None)
      end
  | _ =>
      if negb (l_running l) then None
      else
        match ev with
        | LDone => Some (stop (disarm l), None)
        | LUpdate idx pos up =>
            match p_specs P !! idx with
            | None => None
            | Some spec =>
                if l_open l && (pos <? length (spec_Refs spec))%nat
                then Some (handle_update idx pos up spec l, None) else None
            end
        | LClosed =>
            if l_open l then
              let l := close_updates l in
              Some (if bool_decide (l_pending l = ∅) then stop (disarm l) else l, None)
            else None
        | LTimer =>
            match l_timer l with
            | Some t =>
                if t <=? clock_now (l_engine l) then Some (handle_timer l, None) else None
            | None => None
            end
        | LControl cmd =>
            let '(e, reply) := handlePin P cmd (l_engine l) in
            Some (on_engine (fun _ => e) l, Some reply)
        | _ => None
        end
  end.

(** Executions. *)
Inductive steps : loop_state W T -> list (loop_event W) -> loop_state W T -> Prop :=
  | steps_nil l : steps l [] l
  | steps_cons l ev l1 reply evs l2 :
      loop_step l ev = Some (l1, reply) -> steps l1 evs l2 -> steps l (ev :: evs) l2.

Fixpoint run l (evs : list (loop_event W)) : option (loop_state W T) :=
  match evs with
  | [] => Some l
  | ev :: evs => loop_step l ev ≫= fun lr => run lr.1 evs
  end.

Lemma run_steps l evs l' : run l evs = Some l' <-> steps l evs l'.
Proof.
  revert l. induction evs as [|ev evs IH]; intros l; simpl.
  - split; [intros [= <-]; constructor|]. by inversion 1.
  - split.
    + destruct (loop_step l ev) as [[l1 r]|] eqn:E; simpl; [|done].
      intros ?%IH. by econstructor.
    + inversion 1; subst. match goal with H : loop_step _ _ = _ |- _ => rewrite H end.
      simpl. by apply IH.
Qed.

(** A goroutine that returned stays so. *)
Lemma stopped_step l ev l' reply :
  l_running l = false -> loop_step l ev = Some (l', reply) -> l_running l' = false.
Proof.
unfold loop_step. intros Hr. rewrite Hr. destruct ev; try done.
- case_match; [|done]. by intros [= <- _].
- case_match; [done|]. by intros [= <- _].
Qed.

Lemma stopped_stays l evs l' : l_running l = false -> steps l evs l' -> l_running l' = false.
Proof. intros Hr Hs. induction Hs; eauto using stopped_step. Qed.

(** The loop as [start] enters it. *)
Definition initial_loop (e : engine W T) : loop_state W T := MkLoop e ∅ None 0 0 true true.
End loop.
