(* ===== verification/EngineFacts.v ===== *)
(** Facts about the operations of the reconciler shared by its theorems: what
    each leaves untouched, the diff of a candidate and its rollback, the queue,
    the history, and the case analysis of a flush and of a step of the loop. *)

From S2P Require Import Prelude Errors GoStrings Ref Provider Decode GoNumbers Fields Resolve Config Status Bootstrap EngineState Engine Loop.
Open Scope string_scope.
Open Scope Z_scope.

(** * Applied maps up to missing entries *)

(** Two applied maps that every reader sees alike: a missing key reads as "". *)
Definition applied_equiv (m1 m2 : gmap string string) : Prop := forall k, go_get m1 k = go_get m2 k.

#[export] Instance applied_equiv_equivalence : Equivalence applied_equiv.
Proof.
split; unfold applied_equiv.
- done.
- intros m1 m2 H k. by rewrite H.
- intros m1 m2 m3 H1 H2 k. by rewrite H1, H2.
Qed.

#[export] Instance go_get_proper : Proper (applied_equiv ==> eq ==> eq) go_get.
Proof. intros m1 m2 Hm k _ <-. apply Hm. Qed.

#[export] Instance insert_applied_proper k v : Proper (applied_equiv ==> applied_equiv) (insert k v).
Proof.
intros m1 m2 Hm k'. destruct (decide (k = k')) as [->|].
- by rewrite !go_get_insert_eq.
- rewrite !go_get_insert_ne by done. apply Hm.
Qed.

(** The rollback of a diff whose paths are distinct and whose old versions are
    those of the map undoes the advance. *)
Lemma rollback_get fields m k :
  NoDup (map fc_Path fields) ->
  go_get (rollback fields m) k =
  match find (fun f => bool_decide (fc_Path f = k)) fields with
  | Some f => fc_OldVersion f
  | None => go_get m k
  end.
Proof.
unfold rollback. revert m. induction fields as [|f fields IH]; intros m Hnd; simpl; [done|].
apply NoDup_cons in Hnd as [Hf Hnd]. rewrite IH by done. case_bool_decide as E.
- destruct (find _ fields) as [g|] eqn:Eg.
  + apply find_some in Eg as [Hg Hk]. bool_norm. exfalso. apply Hf.
    rewrite E, <- Hk. apply list_elem_of_In, in_map. done.
  + by rewrite E, go_get_insert_eq.
- destruct (find _ fields); [done|]. by rewrite go_get_insert_ne.
Qed.

(** * The version diff *)

Section diff.
Context (observed : gmap string Value).

(** The change of one spec against an applied map. *)
Definition version_change (applied : gmap string string) (spec : fieldSpec) : option FieldChange :=
  match observed !! spec_Path spec with
  | None => None
  | Some v =>
      if bool_decide (go_get applied (spec_Path spec) = val_Version v) then None
      else Some (MkFieldChange (spec_Path spec) (go_get applied (spec_Path spec)) (val_Version v))
  end.

Lemma version_change_insert applied spec k v :
  k <> spec_Path spec -> version_change (<[k := v]> applied) spec = version_change applied spec.
Proof. intros. unfold version_change. by rewrite !go_get_insert_ne. Qed.

Lemma omap_version_change_insert applied specs k v :
  k ∉ map spec_Path specs ->
  omap (version_change (<[k := v]> applied)) specs = omap (version_change applied) specs.
Proof.
induction specs as [|s specs IH]; intros Hk; [done|]. cbn [map] in Hk.
apply not_elem_of_cons in Hk as [Hs Hk]. cbn [omap list_omap].
by rewrite version_change_insert, IH.
Qed.

(** The diff of a candidate, in the order of the specs. *)
Lemma diff_loop_fields specs applied :
  NoDup (map spec_Path specs) ->
  (diff_loop observed specs applied).1 = omap (version_change applied) specs.
Proof.
revert applied. induction specs as [|s specs IH]; intros applied Hnd; [done|].
apply NoDup_cons in Hnd as [Hs Hnd]. cbn [diff_loop omap list_omap].
unfold version_change at 1. destruct (observed !! spec_Path s) as [v|]; [|by apply IH].
case_bool_decide; [by apply IH|]. specialize (IH (<[spec_Path s := val_Version v]> applied) Hnd).
destruct (diff_loop observed specs _) as [fields applied']. simpl in *. f_equal. rewrite IH.
by apply omap_version_change_insert.
Qed.

(** The version of [k] in the map a diff over [specs] leaves. *)
Definition advanced (specs : list fieldSpec) (applied : gmap string string) (k : string) : string :=
  match observed !! k with
  | Some v => if bool_decide (k ∈ map spec_Path specs) then val_Version v else go_get applied k
  | None => go_get applied k
  end.

Lemma advanced_cons_ne s specs applied k :
  k <> spec_Path s -> advanced (s :: specs) applied k = advanced specs applied k.
Proof.
intros Hne. unfold advanced. destruct (observed !! k); [|done].
rewrite (bool_decide_ext (k ∈ map spec_Path (s :: specs)) (k ∈ map spec_Path specs)); [done|].
simpl. rewrite elem_of_cons. tauto.
Qed.

(** The map a diff leaves: the observed version of every observed spec. *)
Lemma diff_loop_applied specs applied k :
  NoDup (map spec_Path specs) ->
  go_get (diff_loop observed specs applied).2 k = advanced specs applied k.
Proof.
revert applied. induction specs as [|s specs IH]; intros applied Hnd.
{ unfold advanced. simpl. by destruct (observed !! k). }
apply NoDup_cons in Hnd as [Hs Hnd]. cbn [diff_loop].
set (step := match observed !! spec_Path s with Some v => val_Version v | None => go_get applied (spec_Path s) end).
assert (Hd : go_get (match observed !! spec_Path s with
    | None => diff_loop observed specs applied
    | Some v => if bool_decide (go_get applied (spec_Path s) = val_Version v)
                then diff_loop observed specs applied
                else let '(fields, applied') := diff_loop observed specs (<[spec_Path s:=val_Version v]> applied) in
                     (MkFieldChange (spec_Path s) (go_get applied (spec_Path s)) (val_Version v) :: fields, applied')
    end).2 k = if decide (k = spec_Path s) then step else advanced specs applied k).
{ unfold step. destruct (observed !! spec_Path s) as [v|] eqn:Ev; [case_bool_decide as E|].
  - rewrite IH by done. case_decide as Hk; [|done]. subst. unfold advanced. rewrite Ev.
    by rewrite bool_decide_eq_false_2.
  - specialize (IH (<[spec_Path s := val_Version v]> applied) Hnd).
    destruct (diff_loop observed specs _) as [fields applied']. simpl in *. rewrite IH.
    unfold advanced. case_decide as Hk.
    + subst. rewrite Ev, bool_decide_eq_false_2 by done. by rewrite go_get_insert_eq.
    + by rewrite !go_get_insert_ne by done.
  - rewrite IH by done. case_decide as Hk; [|done]. subst. unfold advanced. by rewrite Ev. }
rewrite Hd. case_decide as Hk; [|by rewrite advanced_cons_ne].
subst. unfold step, advanced. destruct (observed !! spec_Path s); [|done].
by rewrite bool_decide_eq_true_2 by constructor.
Qed.
End diff.

(** Two applied maps that agree on every spec: what every reader of the applied
    map compares. *)
Definition applied_agree (specs : list fieldSpec) (m1 m2 : gmap string string) : Prop :=
  Forall (fun s => go_get m1 (spec_Path s) = go_get m2 (spec_Path s)) specs.

Lemma applied_agree_refl specs m : applied_agree specs m m.
Proof. by apply Forall_true. Qed.

Lemma version_change_agree observed specs m1 m2 :
  applied_agree specs m1 m2 ->
  omap (version_change observed m1) specs = omap (version_change observed m2) specs.
Proof.
induction 1 as [|s specs Hs _ IH]; [done|]. cbn [omap list_omap]. rewrite IH.
unfold version_change. by rewrite Hs.
Qed.

Lemma version_change_path observed applied s f :
  version_change observed applied s = Some f ->
  fc_Path f = spec_Path s /\ fc_OldVersion f = go_get applied (spec_Path s) /\
  fc_OldVersion f <> fc_NewVersion f.
Proof. unfold version_change. intros H. repeat case_match; simplify_eq/=. by bool_norm. Qed.

Lemma version_changes_NoDup observed applied specs :
  NoDup (map spec_Path specs) -> NoDup (map fc_Path (omap (version_change observed applied) specs)).
Proof.
induction specs as [|s specs IH]; intros Hnd; [constructor|].
apply NoDup_cons in Hnd as [Hs Hnd]. cbn [omap list_omap].
destruct (version_change observed applied s) as [f|] eqn:E; [|auto].
simpl. constructor; [|auto]. intros Hin.
apply list_elem_of_In, in_map_iff in Hin as (g & Hg & Hin).
apply list_elem_of_In, list_elem_of_omap in Hin as (s' & Hs' & Eg).
apply version_change_path in E as [E _]. apply version_change_path in Eg as [Eg _].
apply Hs. rewrite <- E, <- Hg, Eg. apply list_elem_of_In, in_map. by apply list_elem_of_In.
Qed.

(** * Framing *)

Section frame.
Context {W T View : Type} `{Env W} `{Config T View}.
Context (P : params W T).
Implicit Types e : engine W T.

(** Two engines that differ at most in their bookkeeping: sources, errors,
    blocks, observed values (of which none is forgotten), reports, effects,
    bootstrap state and world. *)
Record same_core e e' : Prop := {
  core_applied : e_applied e' = e_applied e;
  core_lastGood : e_lastGood e' = e_lastGood e;
  core_version : e_version e' = e_version e;
  core_history : e_history e' = e_history e;
  core_pin : e_pin e' = e_pin e;
  core_cfg : e_cfg e' = e_cfg e;
  core_snapshots : e_snapshots e' = e_snapshots e;
  core_dispatch : e_dispatch e' = e_dispatch e;
  core_observed : forall k, e_observed e' !! k = None -> e_observed e !! k = None;
}.

Lemma same_core_refl e : same_core e e.
Proof. by split. Qed.

Lemma same_core_trans e1 e2 e3 : same_core e1 e2 -> same_core e2 e3 -> same_core e1 e3.
Proof. intros [] []. split; try congruence. auto. Qed.

Lemma core_emit x e : same_core e (emit x e).
Proof. by split. Qed.

Lemma core_emitErr err e : same_core e (emitErr P err e).
Proof. unfold emitErr. case_match; by split. Qed.

Lemma core_publish e : same_core e (publish P e).
Proof. by split. Qed.

Lemma core_set_world w e : same_core e (set_world w e).
Proof. by split. Qed.

Lemma core_set_boot b e : same_core e (set_boot b e).
Proof. by split. Qed.

Lemma core_persist e : same_core e (persistBootstrap P e).
Proof.
unfold persistBootstrap. destruct (p_bootstrap P); [|apply same_core_refl].
destruct (p_writeSnapshot P (snapshot_now P e) (e_world e)) as [w [err|]].
- eapply same_core_trans; [|apply core_emitErr]. by split.
- case_match; by split.
Qed.

Lemma core_markBoot path e : same_core e (markBootstrapReconciled P path e).
Proof.
unfold markBootstrapReconciled. destruct (b_unconfirmed (e_boot e)); [|apply same_core_refl].
case_bool_decide; [|by split]. eapply same_core_trans; [|apply core_persist]. by split.
Qed.

Lemma core_reportTerminalError spec ref err e : same_core e (reportTerminalError P spec ref err e).
Proof.
unfold reportTerminalError. case_match; (eapply same_core_trans; [|apply core_emitErr]); by split.
Qed.

Lemma core_notfound spec err e : same_core e (notfound_outcome P spec err e).
Proof.
unfold notfound_outcome. case_match; [|apply core_reportTerminalError].
eapply same_core_trans; [|apply core_markBoot]. by split.
Qed.

Lemma core_clearBlock path e : same_core e (clearBlock path e).
Proof. by split. Qed.

Lemma core_mark_ok path e : same_core e (mark_ok path e).
Proof. by split. Qed.

Lemma core_block path e : same_core e (block path e).
Proof. by split. Qed.

Lemma core_observe path v e : same_core e (observe_value path v e).
Proof.
unfold observe_value. case_match; split; try done. simpl. intros k.
by intros [? _]%lookup_insert_None.
Qed.

Lemma core_set_sources x e : same_core e (set_sources x e).
Proof. by split. Qed.

Lemma core_recordSourceUpdate i pos spec up e :
  same_core e (recordSourceUpdate P i pos spec up e).
Proof. by split. Qed.

Lemma core_record_refreshes fields e : same_core e (record_refreshes P fields e).
Proof.
unfold record_refreshes. revert e. induction fields as [|f fields IH]; intros e; simpl; [by split|].
eapply same_core_trans; [|apply IH]. case_match; by split.
Qed.

Lemma core_refresh_outcome i spec e : same_core e (refresh_outcome P i spec e).
Proof.
unfold refresh_outcome. destruct (recomputeWinner (sources_of e i)) as [v pos|pos err].
- eapply same_core_trans; [|apply core_observe]. by split.
- case_match.
  + eapply same_core_trans; [|apply core_notfound]. by split.
  + case_match.
    * eapply same_core_trans; [|apply core_reportTerminalError]. by split.
    * eapply same_core_trans; [|apply core_observe]. by split.
    * eapply same_core_trans; [|apply core_reportTerminalError]. by split.
Qed.

Lemma core_refresh_spec i spec e : same_core e (refresh_spec P i spec e).
Proof.
unfold refresh_spec. destruct (seedChainSources P spec (e_world e)) as [w fresh].
eapply same_core_trans; [|apply core_refresh_outcome]. by split.
Qed.

Lemma core_refresh_loop i specs e : same_core e (refresh_loop P i specs e).
Proof.
revert i e. induction specs as [|s specs IH]; intros i e; simpl; [by split|].
eapply same_core_trans; [apply core_refresh_spec|apply IH].
Qed.

(** Two engines that know the same about their sources. *)
Record same_inputs e e' : Prop := {
  in_observed : e_observed e' = e_observed e;
  in_sources : e_sources e' = e_sources e;
  in_blocked : e_blocked e' = e_blocked e;
  in_lastErr : e_lastErr e' = e_lastErr e;
  in_lastOK : e_lastOK e' = e_lastOK e;
}.

Lemma same_inputs_refl e : same_inputs e e.
Proof. by split. Qed.

Lemma same_inputs_trans e1 e2 e3 : same_inputs e1 e2 -> same_inputs e2 e3 -> same_inputs e1 e3.
Proof. intros [] []. split; congruence. Qed.

Lemma inputs_emitErr err e : same_inputs e (emitErr P err e).
Proof. unfold emitErr. case_match; by split. Qed.

Lemma inputs_publish e : same_inputs e (publish P e).
Proof. by split. Qed.

Lemma inputs_persist e : same_inputs e (persistBootstrap P e).
Proof.
unfold persistBootstrap. destruct (p_bootstrap P); [|apply same_inputs_refl].
destruct (p_writeSnapshot P (snapshot_now P e) (e_world e)) as [w [err|]].
- eapply same_inputs_trans; [|apply inputs_emitErr]. by split.
- case_match; by split.
Qed.

Lemma inputs_markBoot path e : same_inputs e (markBootstrapReconciled P path e).
Proof.
unfold markBootstrapReconciled. destruct (b_unconfirmed (e_boot e)); [|apply same_inputs_refl].
case_bool_decide; [|by split]. eapply same_inputs_trans; [|apply inputs_persist]. by split.
Qed.

Lemma inputs_record_refreshes fields e : same_inputs e (record_refreshes P fields e).
Proof.
unfold record_refreshes. revert e. induction fields as [|f fields IH]; intros e; simpl; [by split|].
eapply same_inputs_trans; [|apply IH]. case_match; by split.
Qed.

Lemma inputs_enqueue_loop n ev e : same_inputs e (enqueue_loop P n ev e).
Proof.
revert e. induction n as [|n IH]; intros e; simpl; [by split|]. case_match; [by split|].
destruct (e_dispatch e); [apply IH|]. eapply same_inputs_trans; [|apply IH]. by split.
Qed.

Lemma inputs_apply_candidate cand fields e : same_inputs e (apply_candidate P cand fields e).
Proof.
assert (Hr : forall e1 : engine W T, same_inputs e e1 ->
  same_inputs e (persistBootstrap P (recordSnapshot P cand fields e1))).
{ intros e1 H1. eapply same_inputs_trans; [|apply inputs_persist].
  eapply same_inputs_trans; [exact H1|]. by split. }
unfold apply_candidate. case_match; (eapply same_inputs_trans; [|apply inputs_publish]).
- eapply same_inputs_trans; [|apply inputs_record_refreshes]. apply Hr. by split.
- eapply same_inputs_trans; [|apply inputs_enqueue_loop].
  eapply same_inputs_trans; [|apply inputs_record_refreshes].
  eapply same_inputs_trans; [apply (Hr (set_lastGood cand (set_version (S (e_version e)) e))); by split|].
  by split.
Qed.

Lemma inputs_buildCandidate e : same_inputs e (buildCandidate P e).1.
Proof.
unfold buildCandidate. case_match; [by split|].
destruct (decode_loop _ _ _); [|apply inputs_emitErr].
destruct (run_derives _ _); [|simpl; eapply same_inputs_trans; [|apply inputs_emitErr]; by split].
destruct (p_validate P _); [simpl; eapply same_inputs_trans; [|apply inputs_emitErr]; by split|].
destruct (diff_loop _ _ _); by split.
Qed.

(** A flush, whatever it does, learns nothing about the sources. *)
Lemma inputs_flush pending e : same_inputs e (flush P pending e).1.
Proof.
unfold flush. case_match; [by split|].
pose proof (inputs_buildCandidate e) as Hb. destruct (buildCandidate P e) as [e1 [err|cand fields]]; [done|].
destruct fields as [|f fs]; [done|]. destruct (runPreApply P _ _) as [w [err|]]; simpl in *;
  (eapply same_inputs_trans; [exact Hb|]).
- eapply same_inputs_trans; [|apply inputs_emitErr]. by split.
- eapply same_inputs_trans; [|apply inputs_apply_candidate]. by split.
Qed.
End frame.

#[export] Hint Resolve same_core_refl core_emit core_emitErr core_publish core_set_world core_set_boot
  core_persist core_markBoot core_reportTerminalError core_notfound core_clearBlock core_mark_ok
  core_block core_observe core_set_sources core_recordSourceUpdate core_record_refreshes
  core_refresh_outcome core_refresh_spec core_refresh_loop : mamori.

(** * Candidates and flushes *)

Section flush.
Context {W T View : Type} `{Env W} `{Config T View}.
Context (P : params W T).
Implicit Types e : engine W T.

(** What it takes to be a candidate: the observed values decode, the derive
    hooks run on the result, and the validator accepts it. *)
Definition buildable e (cand : T) : Prop :=
  e_blocked e = ∅ /\
  (exists pre, decode_loop (e_observed e) (p_specs P) cfg_zero = Ok pre /\
               run_derives (p_derives P) pre = Ok cand) /\
  p_validate P cand = None.

(** The diff a candidate is published with. *)
Definition candidate_fields e (cand : T) : list FieldChange :=
  (omap (version_change (e_observed e) (e_applied e)) (p_specs P) ++
   derivedFieldChanges (e_lastGood e) cand (p_derives P) (p_specs P))%list.

(** What an operation that refuses may leave behind: an effect. *)
Definition only_effects e e' : Prop := exists tr, e' = set_trace tr e.

Lemma only_effects_refl e : only_effects e e.
Proof. exists (e_trace e). by destruct e. Qed.

Lemma only_effects_emit x e : only_effects e (emit x e).
Proof. by eexists. Qed.

Lemma only_effects_emitErr err e : only_effects e (emitErr P err e).
Proof. unfold emitErr. case_match; [by eexists|apply only_effects_refl]. Qed.

Lemma only_effects_emitErr_emit err x e : only_effects e (emitErr P err (emit x e)).
Proof. unfold emitErr. case_match; by eexists. Qed.

Lemma buildCandidate_cases e :
  NoDup (map spec_Path (p_specs P)) ->
  match buildCandidate P e with
  | (e', Refused err) => only_effects e e' /\ forall cand, ~ buildable e cand
  | (e', Built cand fields) =>
      buildable e cand /\ fields = candidate_fields e cand /\
      e' = set_applied (diff_loop (e_observed e) (p_specs P) (e_applied e)).2 e
  end.
Proof.
intros Hnd. unfold buildCandidate, buildable.
case_bool_decide as Hb; simpl.
2:{ split; [apply only_effects_refl|]. by intros cand (? & _). }
destruct (decode_loop (e_observed e) (p_specs P) cfg_zero) as [pre|ve] eqn:Ed.
2:{ split; [apply only_effects_emitErr|]. by intros cand (_ & (? & ? & _) & _). }
destruct (run_derives (p_derives P) pre) as [cand|de] eqn:Er.
2:{ split; [apply only_effects_emitErr_emit|]. intros cand (_ & (? & ? & ?) & _). congruence. }
destruct (p_validate P cand) as [err|] eqn:Ev.
{ split; [apply only_effects_emitErr_emit|]. intros c (_ & (? & ? & ?) & ?). congruence. }
pose proof (diff_loop_fields (e_observed e) (p_specs P) (e_applied e) Hnd) as Hf.
destruct (diff_loop (e_observed e) (p_specs P) (e_applied e)) as [fields applied]. simpl in *.
split_and!; eauto. unfold candidate_fields. by rewrite Hf.
Qed.

(** With no blocked field a refused build says so to the callback, last. *)
Lemma buildCandidate_refused e e' err :
  e_blocked e = ∅ -> p_hasOnError P = true -> buildCandidate P e = (e', Refused err) ->
  head (e_trace e') = OnError <$> err.
Proof.
intros Hb Hon. unfold buildCandidate, emitErr. rewrite Hb, Hon. simpl.
destruct (decode_loop _ _ _); [|by intros [= <- <-]].
destruct (run_derives _ _); [|by intros [= <- <-]].
destruct (p_validate P _); [by intros [= <- <-]|]. by destruct (diff_loop _ _ _).
Qed.

Lemma buildable_fun e c1 c2 : buildable e c1 -> buildable e c2 -> c1 = c2.
Proof. intros (_ & (p1 & ? & ?) & _) (_ & (p2 & ? & ?) & _). congruence. Qed.

(** The gate's answer on a change, and the world it leaves. *)
Definition gate e (cand : T) : W * option error :=
  runPreApply P (MkChange (e_lastGood e) cand (candidate_fields e cand)) (e_world e).

(** Every outcome of a flush of a non-empty batch: nothing to build, nothing
    changed, refused by the gate, or applied. *)
Lemma flush_cases pending e :
  NoDup (map spec_Path (p_specs P)) -> pending <> ∅ ->
  (exists err, only_effects e (flush P pending e).1 /\ (flush P pending e).2 = err /\
     forall cand, ~ buildable e cand) \/
  (exists cand, buildable e cand /\
     let e1 := set_applied (diff_loop (e_observed e) (p_specs P) (e_applied e)).2 e in
     (candidate_fields e cand = [] /\ flush P pending e = (e1, None)) \/
     (candidate_fields e cand <> [] /\
      match gate e cand with
      | (w, Some err) =>
          flush P pending e =
            (emitErr P err (emit (RecordApplyRejected RejectPreApply)
               (set_applied (rollback (candidate_fields e cand) (e_applied e1)) (set_world w e1))),
             Some err)
      | (w, None) =>
          flush P pending e = (apply_candidate P cand (candidate_fields e cand) (set_world w e1), None)
      end)).
Proof.
intros Hnd Hp. unfold flush. rewrite bool_decide_eq_false_2 by done.
pose proof (buildCandidate_cases e Hnd) as Hc.
destruct (buildCandidate P e) as [e1 [err|cand fields]].
{ left. destruct Hc. eauto. }
right. destruct Hc as (Hb & -> & ->). exists cand. split; [done|]. unfold gate.
destruct (candidate_fields e cand) as [|f fs]; [by left|right]. split; [done|].
destruct (runPreApply P _ _) as [w [err|]]; done.
Qed.

Lemma flush_empty e : flush P ∅ e = (e, None).
Proof. unfold flush. by rewrite bool_decide_eq_true_2. Qed.

(** * Rollback *)

Lemma candidate_fields_NoDup e cand :
  NoDup (map spec_Path (p_specs P)) -> NoDup (map fc_Path (candidate_fields e cand)).
Proof.
intros Hnd. unfold candidate_fields. rewrite map_app. apply NoDup_app. split_and!.
- by apply version_changes_NoDup.
- intros p Hp Hd.
  apply list_elem_of_In, in_map_iff in Hp as (f & <- & Hf).
  apply list_elem_of_In, list_elem_of_omap in Hf as (s & Hs & Ef).
  apply version_change_path in Ef as [Ef _].
  apply list_elem_of_In, in_map_iff in Hd as (g & Hg & Hin).
  apply list_elem_of_In, derivedFieldChanges_paths in Hin as [Hin _].
  assert (Ht : hasSpecPath (p_specs P) (fc_Path g) = true).
  { apply hasSpecPath_true. exists s. by rewrite Hg, Ef. }
  congruence.
- unfold derivedFieldChanges, derived_paths.
  destruct (fresh_paths_spec ∅ (p_specs P) (flat_map derive_writes (p_derives P))) as [Hf _].
  induction Hf as [|p ps Hp Hps IH]; [constructor|]. cbn [omap list_omap].
  destruct (derived_change (e_lastGood e) cand p) as [f|] eqn:E; [|done]. simpl. constructor; [|done].
  intros Hin. apply list_elem_of_In, in_map_iff in Hin as (g & Hg & Hin).
  apply list_elem_of_In, list_elem_of_omap in Hin as (q & Hq & Eq).
  apply Hp. unfold derived_change in E, Eq. repeat case_match; simplify_eq/=. congruence.
Qed.

(** Rolling back the diff of a candidate restores the applied map for every
    reader. *)
Lemma rollback_agree e cand :
  NoDup (map spec_Path (p_specs P)) ->
  applied_agree (p_specs P)
    (rollback (candidate_fields e cand) (diff_loop (e_observed e) (p_specs P) (e_applied e)).2)
    (e_applied e).
Proof.
intros Hnd. apply Forall_forall. intros s Hs.
rewrite rollback_get by (by apply candidate_fields_NoDup).
destruct (find _ (candidate_fields e cand)) as [f|] eqn:Ef.
- apply find_some in Ef as [Hf Hp]. bool_norm. apply list_elem_of_In in Hf.
  unfold candidate_fields in Hf. apply elem_of_app in Hf as [Hf|Hf].
  + apply list_elem_of_omap in Hf as (s' & Hs' & E). apply version_change_path in E as (E1 & E2 & _).
    rewrite E2. congruence.
  + apply derivedFieldChanges_paths in Hf as [Hf _].
    assert (Ht : hasSpecPath (p_specs P) (fc_Path f) = true).
    { apply hasSpecPath_true. eauto. }
    congruence.
- rewrite diff_loop_applied by done. unfold advanced.
  destruct (e_observed e !! spec_Path s) as [v|] eqn:Ev; [|done].
  case_bool_decide; [|done].
  destruct (bool_decide (go_get (e_applied e) (spec_Path s) = val_Version v)) eqn:E; [by bool_norm|].
  exfalso. eapply find_none in Ef.
  + apply bool_decide_eq_false in Ef. apply Ef.
    instantiate (1 := MkFieldChange (spec_Path s) (go_get (e_applied e) (spec_Path s)) (val_Version v)). done.
  + apply in_app_iff. left. apply list_elem_of_In, list_elem_of_omap. exists s. split; [done|].
    unfold version_change. by rewrite Ev, E.
Qed.

(** Against its own configuration and the versions it was diffed into, a
    candidate changes nothing. *)
Lemma candidate_fields_settled observed applied cand :
  NoDup (map spec_Path (p_specs P)) ->
  (forall p v, cfg_view cand p = Some v -> DeepEqual v v = true) ->
  (omap (version_change observed (diff_loop observed (p_specs P) applied).2) (p_specs P) ++
   derivedFieldChanges cand cand (p_derives P) (p_specs P))%list = [].
Proof.
intros Hnd Hrefl.
assert (Hnil : forall {A B} (f : A -> option B) l, (forall x, x ∈ l -> f x = None) -> omap f l = []).
{ intros A B f l. induction l as [|x l IH]; intros Hx; [done|]. cbn [omap list_omap].
  rewrite Hx by constructor. apply IH. intros y Hy. apply Hx. by constructor. }
unfold derivedFieldChanges.
rewrite (Hnil _ _ (version_change _ _)), (Hnil _ _ (derived_change cand cand)); [done|..].
- intros p _. unfold derived_change. destruct (cfg_view cand p) as [v|] eqn:Ev; [|done].
  by rewrite (Hrefl p v).
- intros s Hs. unfold version_change. destruct (observed !! spec_Path s) as [v|] eqn:Ev; [|done].
  rewrite diff_loop_applied by done. unfold advanced. rewrite Ev.
  rewrite (bool_decide_eq_true_2 (spec_Path s ∈ _)) by (by apply list_elem_of_fmap_2).
  by rewrite bool_decide_eq_true_2.
Qed.
End flush.
