(* ===== verification/Invariant.v ===== *)
(** The invariant of the reconciler: what every configuration a caller can see
    has been through, and the shape of the history, of the pin state and of the
    dispatch queue; its preservation by every operation and every step. *)

From S2P Require Import Prelude Errors GoStrings Ref Provider Decode GoNumbers Fields Resolve Config Status Bootstrap EngineState Engine Loop EngineFacts.
Open Scope string_scope.
Open Scope Z_scope.

Section invariant.
Context {W T View : Type} `{Env W} `{Config T View}.
Context (P : params W T).
Implicit Types e : engine W T.

(** * Vouched configurations *)

(** The hook, when there is one, accepted this change. *)
Definition gate_passes (ch : Change T) : Prop :=
  match p_preApply P with
  | None => True
  | Some hook => exists w w', hook w ch = (w', (None, None))
  end.

Definition version_in (observed : gmap string Value) (path : string) : string :=
  match observed !! path with Some v => val_Version v | None => "" end.

(** [cfg] was decoded from observed values whose versions are [applied], derived,
    validated, and accepted by the gate. *)
Record vouched (cfg : T) (applied : gmap string string) : Prop := {
  v_built : exists observed pre,
    decode_loop observed (p_specs P) cfg_zero = Ok pre /\
    run_derives (p_derives P) pre = Ok cfg /\
    Forall (fun s => go_get applied (spec_Path s) = version_in observed (spec_Path s)) (p_specs P);
  v_valid : p_validate P cfg = None;
  v_gate : exists ch, ch_New ch = cfg /\ gate_passes ch;
}.

Lemma vouched_agree cfg m1 m2 :
  applied_agree (p_specs P) m1 m2 -> vouched cfg m1 -> vouched cfg m2.
Proof.
intros Ha [(obs & pre & Hd & Hr & Hv) Hval Hg]. split; [|done|done].
exists obs, pre. split_and!; [done..|]. unfold applied_agree in Ha. rewrite Forall_forall in Ha, Hv |- *.
intros s Hs. by rewrite <- Ha, Hv.
Qed.

(** * The invariant *)

Definition vouched_change (ch : Change T) : Prop :=
  (exists a, vouched (ch_Old ch) a) /\ (exists a, vouched (ch_New ch) a).

(** Versions count up by one to the version of the last entry. *)
Definition consecutive (history : list (Snapshot T)) (version : nat) : Prop :=
  forall i s, history !! i = Some s -> (sn_Version s + length history = S (version + i))%nat.

Record good e : Prop := {
  g_last : vouched (e_lastGood e) (e_applied e);
  g_history : Forall (fun s => vouched (sn_Config s) (sn_applied s)) (e_history e);
  g_pin : pn_pinned (e_pin e) = true -> vouched (pn_config (e_pin e)) (pn_applied (e_pin e));
  g_cfg : e_cfg e = if pn_pinned (e_pin e) then pn_config (e_pin e) else e_lastGood e;
  g_snapshots : e_snapshots e = reverse (e_history e);
  g_queue : Forall vouched_change (e_dispatch e);
  g_versions : consecutive (e_history e) (e_version e);
  g_bound : length (e_history e) = Nat.min (S (p_historyN P)) (e_version e);
  g_current : exists s, last (e_history e) = Some s /\ sn_Version s = e_version e /\
    sn_Config s = e_lastGood e /\ applied_agree (p_specs P) (sn_applied s) (e_applied e);
  g_length : (length (e_dispatch e) <= p_queueDepth P)%nat;
  g_unobserved : Forall (fun s => e_observed e !! spec_Path s = None ->
                                  go_get (e_applied e) (spec_Path s) = "") (p_specs P);
}.

Lemma good_core e e' : same_core e e' -> good e -> good e'.
Proof.
intros [C1 C2 C3 C4 C5 C6 C7 C8 C9] [].
split; rewrite ?C1, ?C2, ?C3, ?C4, ?C5, ?C6, ?C7, ?C8; try done.
eapply Forall_impl; [exact g_unobserved0|]. auto.
Qed.

(** Only the applied map moved, to one every reader sees alike. *)
Lemma good_applied m e :
  applied_agree (p_specs P) (e_applied e) m -> good e -> good (set_applied m e).
Proof.
intros Ha []. split; simpl; try done.
- by eapply vouched_agree.
- destruct g_current0 as (s & ? & ? & ? & Hs). exists s. split_and!; try done.
  unfold applied_agree in *. rewrite Forall_forall in Ha, Hs |- *. intros sp Hsp.
  by rewrite Hs, Ha.
- unfold applied_agree in Ha. rewrite Forall_forall in Ha, g_unobserved0 |- *.
  intros s Hs Hn. rewrite <- Ha by done. auto.
Qed.

Lemma only_effects_core e e' : only_effects e e' -> same_core e e'.
Proof. intros [tr ->]. by split. Qed.

Lemma good_lookup_pin cfg a v e :
  vouched cfg a -> good e -> good (set_cfg cfg (set_pin (MkPin true v cfg a) e)).
Proof. intros Hv []. by split. Qed.

Lemma good_unpin e ap :
  good e -> good (set_cfg (e_lastGood e) (set_pin (MkPin false (pn_version (e_pin e)) (pn_config (e_pin e)) ap) e)).
Proof. intros []. by split. Qed.

(** * The queue *)

Lemma enqueue_frame n ev e :
  exists tr q, enqueue_loop P n ev e = set_trace tr (set_dispatch q e).
Proof.
revert e. induction n as [|n IH]; intros e; simpl.
{ exists (e_trace e), (e_dispatch e). by destruct e. }
case_match; [by exists (e_trace e), (e_dispatch e ++ [ev])%list|].
destruct (e_dispatch e) as [|c q] eqn:E.
{ destruct (IH e) as (tr & q & ->). eauto. }
destruct (IH (emit RecordChangeDropped (set_dispatch q e))) as (tr & q' & ->). by eexists _, _.
Qed.

(** The queue after a send: its newest entries up to the bound, the event
    last. *)
Lemma enqueue_dispatch ev e :
  (0 < p_queueDepth P)%nat -> (length (e_dispatch e) <= p_queueDepth P)%nat ->
  e_dispatch (enqueue P ev e) = last_n (p_queueDepth P) (e_dispatch e ++ [ev])%list.
Proof.
intros Hd Hl. unfold enqueue, last_n. rewrite length_app. simpl length.
destruct (Nat.ltb_spec (length (e_dispatch e)) (p_queueDepth P)) as [Hlt|Hge].
- simpl. rewrite (proj2 (Nat.ltb_lt _ _)) by done. simpl.
  by replace (length (e_dispatch e) + 1 - p_queueDepth P)%nat with 0%nat by lia.
- simpl. rewrite (proj2 (Nat.ltb_ge _ _)) by lia.
  destruct (e_dispatch e) as [|c q] eqn:E; simpl in *; [lia|].
  rewrite (proj2 (Nat.ltb_lt _ _)) by lia. simpl.
  replace (S (length q + 1) - p_queueDepth P)%nat with 1%nat by lia. done.
Qed.

Lemma good_enqueue ev e :
  (0 < p_queueDepth P)%nat -> vouched_change ev -> good e -> good (enqueue P ev e).
Proof.
intros Hd Hev Hg. pose proof (enqueue_dispatch ev e Hd (g_length e Hg)) as Hq.
destruct (enqueue_frame (S (S (length (e_dispatch e)))) ev e) as (tr & q & Hf).
unfold enqueue in *. rewrite Hf in *. simpl in Hq. destruct Hg. split; simpl; try done.
- rewrite Hq. apply Forall_last_n, Forall_app. split; [done|]. by constructor.
- rewrite Hq, last_n_length. lia.
Qed.

(** * History *)

Lemma consecutive_snoc history version snap n :
  consecutive history version -> sn_Version snap = S version -> (0 < n)%nat ->
  consecutive (last_n n (history ++ [snap])%list) (S version).
Proof.
intros Hc Hs Hn i s. unfold last_n. rewrite lookup_drop, length_drop, length_app. simpl length.
set (k := (length history + 1 - n)%nat). intros Hi.
destruct (Nat.lt_ge_cases (k + i) (length history)) as [Hlt|Hge].
- rewrite lookup_app_l in Hi by done. apply Hc in Hi. lia.
- rewrite lookup_app_r in Hi by done.
  destruct (k + i - length history)%nat as [|m] eqn:E; [|by destruct m]. simpl in Hi.
  injection Hi as <-. lia.
Qed.

(** * Applying a candidate *)

(** The state right before the published values move: the candidate is the last
    good configuration and heads the history. *)
Definition recorded (cand : T) (fields : list FieldChange) (m : gmap string string) (w : W) e : engine W T :=
  persistBootstrap P (recordSnapshot P cand fields
    (set_lastGood cand (set_version (S (e_version e)) (set_world w (set_applied m e))))).

Lemma recorded_core cand fields m w e :
  let snap := MkSnap (S (e_version e)) (now w) cand fields m in
  let h := last_n (S (p_historyN P)) (e_history e ++ [snap])%list in
  same_core
    (set_snapshots (reverse h) (set_history h
       (set_lastGood cand (set_version (S (e_version e)) (set_world w (set_applied m e))))))
    (recorded cand fields m w e).
Proof. apply core_persist. Qed.

(** An applied map that has nothing for the fields never observed. *)
Definition unobserved_empty (m : gmap string string) e : Prop :=
  Forall (fun s => e_observed e !! spec_Path s = None -> go_get m (spec_Path s) = "") (p_specs P).

(** A recorded candidate is good, except that [Get] has not moved. *)
Lemma good_recorded cand fields m w e :
  vouched cand m -> unobserved_empty m e -> good e ->
  good (set_cfg (if pn_pinned (e_pin e) then e_cfg e else cand) (recorded cand fields m w e)).
Proof.
intros Hv Hu Hg. destruct (recorded_core cand fields m w e) as [C1 C2 C3 C4 C5 C6 C7 C8 C9].
simpl in *. destruct Hg. split; simpl;
  rewrite ?C1, ?C2, ?C3, ?C4, ?C5, ?C6, ?C7, ?C8; try done.
- apply Forall_last_n, Forall_app. split; [done|]. by constructor.
- rewrite g_cfg0. by case_match.
- apply consecutive_snoc; [done|done|lia].
- rewrite last_n_length, length_app. simpl length. lia.
- eexists. split_and!; [apply last_n_last; [lia|apply last_snoc]|done|done|apply applied_agree_refl].
- eapply Forall_impl; [exact Hu|]. auto.
Qed.

Lemma good_apply_candidate cand fields m w e :
  (0 < p_queueDepth P)%nat -> vouched cand m -> unobserved_empty m e -> good e ->
  good (apply_candidate P cand fields (set_world w (set_applied m e))).
Proof.
intros Hd Hv Hu Hg. pose proof (good_recorded cand fields m w e Hv Hu Hg) as Hr.
unfold apply_candidate. simpl. fold (recorded cand fields m w e).
rewrite (core_pin _ _ (recorded_core cand fields m w e)). simpl.
destruct (pn_pinned (e_pin e)).
- eapply good_core; [apply core_publish|]. eapply good_core; [apply core_record_refreshes|].
  eapply good_core; [|exact Hr]. split; simpl; try done.
  by rewrite (core_cfg _ _ (recorded_core cand fields m w e)).
- eapply good_core; [apply core_publish|]. apply good_enqueue; [done| |].
  + split; [exists (e_applied e); by destruct Hg|by exists m].
  + eapply good_core; [apply core_record_refreshes|]. exact Hr.
Qed.

(** The report published last is that of the state it is published with. *)
Lemma publish_report e : e_report (publish P e) = buildReport P (publish P e).
Proof. done. Qed.

(** Everything an applied candidate changes. *)
Lemma apply_candidate_outcome cand fields m w e :
  (0 < p_queueDepth P)%nat -> (length (e_dispatch e) <= p_queueDepth P)%nat ->
  let e' := apply_candidate P cand fields (set_world w (set_applied m e)) in
  let snap := MkSnap (S (e_version e)) (now w) cand fields m in
  let ch := MkChange (e_lastGood e) cand fields in
  let pinned := pn_pinned (e_pin e) in
  e_lastGood e' = cand /\ e_applied e' = m /\ e_version e' = S (e_version e) /\
  e_history e' = last_n (S (p_historyN P)) (e_history e ++ [snap])%list /\
  e_snapshots e' = reverse (e_history e') /\ e_pin e' = e_pin e /\
  e_cfg e' = (if pinned then e_cfg e else cand) /\
  e_dispatch e' = (if pinned then e_dispatch e
                   else last_n (p_queueDepth P) (e_dispatch e ++ [ch])%list) /\
  e_report e' = buildReport P e'.
Proof.
intros Hd Hl. cbv zeta. unfold apply_candidate. simpl. fold (recorded cand fields m w e).
pose proof (recorded_core cand fields m w e) as Hr.
rewrite (core_pin _ _ Hr). simpl. destruct (pn_pinned (e_pin e)).
- pose proof (same_core_trans _ _ _ Hr (core_record_refreshes P fields _)) as Hc.
  pose proof (same_core_trans _ _ _ Hc (core_publish P _)) as [C1 C2 C3 C4 C5 C6 C7 C8 _].
  cbn [e_lastGood e_applied e_version e_history e_snapshots e_pin e_cfg e_dispatch set_snapshots
    set_history set_lastGood set_version set_world set_applied] in *.
  split_and!; try done. by rewrite C7, C4.
- pose proof (core_record_refreshes P fields (set_cfg cand (recorded cand fields m w e)))
    as [C1 C2 C3 C4 C5 C6 C7 C8 _].
  destruct Hr as [D1 D2 D3 D4 D5 D6 D7 D8 _].
  set (e1 := record_refreshes P fields (set_cfg cand (recorded cand fields m w e))) in *. clearbody e1.
  simpl in *. set (ch := MkChange (e_lastGood e) cand fields).
  pose proof (enqueue_dispatch ch e1 Hd) as Hq.
  destruct (enqueue_frame (S (S (length (e_dispatch e1)))) ch e1) as (tr & q & Hf).
  unfold enqueue in *. rewrite Hf in *. unfold publish. simpl in *.
  rewrite C8, D8 in Hq. split_and!; try congruence; auto.
Qed.

(** * Flushes *)

Hypothesis Hpaths : NoDup (map spec_Path (p_specs P)).
Hypothesis Hdepth : (0 < p_queueDepth P)%nat.

Lemma unobserved_advanced e :
  good e -> unobserved_empty (diff_loop (e_observed e) (p_specs P) (e_applied e)).2 e.
Proof.
intros Hg. apply Forall_forall. intros s Hs Hn. rewrite diff_loop_applied by done.
unfold advanced. rewrite Hn. pose proof (g_unobserved e Hg) as Hu. rewrite Forall_forall in Hu. auto.
Qed.

(** A buildable candidate that the gate accepts is vouched for by the versions
    its flush records. *)
Lemma vouched_candidate e cand w :
  good e -> buildable P e cand -> gate P e cand = (w, None) ->
  vouched cand (diff_loop (e_observed e) (p_specs P) (e_applied e)).2.
Proof.
intros Hg (Hb & (pre & Hd & Hr) & Hv) Hgate. split; [|done|].
- exists (e_observed e), pre. split_and!; [done..|]. apply Forall_forall. intros s Hs.
  rewrite diff_loop_applied by done. unfold advanced, version_in.
  destruct (e_observed e !! spec_Path s) as [v|] eqn:Ev.
  + rewrite bool_decide_eq_true_2; [done|]. by apply list_elem_of_fmap_2.
  + pose proof (g_unobserved e Hg) as Hu. rewrite Forall_forall in Hu. auto.
- exists (MkChange (e_lastGood e) cand (candidate_fields P e cand)). split; [done|].
  unfold gate, runPreApply in Hgate. unfold gate_passes. destruct (p_preApply P) as [hook|]; [|done].
  exists (e_world e). destruct (hook (e_world e) _) as [w1 [[err|] [cerr|]]]; simplify_eq. eauto.
Qed.

(** An advanced map that changes nothing agrees with the one it came from. *)
Lemma advanced_nil_agree e cand :
  candidate_fields P e cand = [] ->
  applied_agree (p_specs P) (e_applied e) (diff_loop (e_observed e) (p_specs P) (e_applied e)).2.
Proof.
intros Hnil. apply Forall_forall. intros s Hs. rewrite diff_loop_applied by done. unfold advanced.
destruct (e_observed e !! spec_Path s) as [v|] eqn:Ev; [|done].
rewrite bool_decide_eq_true_2 by (by apply list_elem_of_fmap_2).
destruct (bool_decide (go_get (e_applied e) (spec_Path s) = val_Version v)) eqn:E; [by bool_norm|].
exfalso. unfold candidate_fields in Hnil. apply app_eq_nil in Hnil as [Hnil _].
assert (Hin : MkFieldChange (spec_Path s) (go_get (e_applied e) (spec_Path s)) (val_Version v) ∈
  omap (version_change (e_observed e) (e_applied e)) (p_specs P)).
{ apply list_elem_of_omap. exists s. split; [done|]. unfold version_change. by rewrite Ev, E. }
rewrite Hnil in Hin. by apply not_elem_of_nil in Hin.
Qed.

Lemma good_flush pending e : good e -> good (flush P pending e).1.
Proof using Hpaths Hdepth.
intros Hg. destruct (decide (pending = ∅)) as [->|Hne]; [by rewrite flush_empty|].
destruct (flush_cases P pending e Hpaths Hne) as [(err & Ho & _)|(cand & Hb & Hc)].
{ eapply good_core; [by apply only_effects_core|done]. }
destruct Hc as [(Hnil & ->)|(Hnn & Hc)].
{ apply good_applied; [|done]. by eapply advanced_nil_agree. }
destruct (gate P e cand) as [w [err|]] eqn:Egate; rewrite Hc; simpl.
- eapply good_core; [apply core_emitErr|]. eapply good_core; [apply core_emit|].
  eapply (good_core (set_applied _ e)); [by split|]. apply good_applied; [|done].
  pose proof (rollback_agree P e cand Hpaths) as Hr. unfold applied_agree in *.
  eapply Forall_impl; [exact Hr|]. intros s Hs. symmetry. exact Hs.
- apply good_apply_candidate; [done| | |done].
  + by eapply vouched_candidate.
  + by apply unobserved_advanced.
Qed.

Lemma good_refreshNow e : good e -> good (refreshNow P e).1.
Proof using Hpaths Hdepth.
intros Hg. unfold refreshNow. apply good_flush. eapply good_core; [apply core_refresh_loop|done].
Qed.

(** * Pins *)

Lemma findSnapshot_good v e s :
  good e -> findSnapshot v (e_history e) = Some s -> vouched (sn_Config s) (sn_applied s).
Proof.
intros Hg Hf. apply find_some in Hf as [Hf _]. pose proof (g_history e Hg) as Hh.
rewrite Forall_forall in Hh. apply Hh. by apply list_elem_of_In.
Qed.

Lemma good_handlePin cmd e : good e -> good (handlePin P cmd e).1.
Proof using Hpaths Hdepth.
intros Hg. unfold handlePin. destruct cmd as [v| | |].
- destruct (findSnapshot v (e_history e)) as [s|] eqn:Ef; simpl.
  + eapply good_core; [apply core_publish|]. apply good_lookup_pin; [|done].
    by eapply findSnapshot_good.
  + by eapply good_core; [apply core_publish|].
- simpl. eapply good_core; [apply core_publish|].
  destruct (pn_pinned (e_pin e)) eqn:Ep; simpl; apply good_lookup_pin; try done; by apply Hg.
- destruct (pn_pinned (e_pin e)) eqn:Ep; simpl; [|by eapply good_core; [apply core_publish|]].
  eapply good_core; [apply core_publish|].
  pose proof (good_unpin e ∅ Hg) as Hu.
  set (fields := diffApplied _ _ _ _ _). clearbody fields. destruct fields as [|f fs]; [done|].
  apply good_enqueue; [done| |done]. split; eexists; [by apply Hg|apply Hg].
- pose proof (good_refreshNow e Hg) as Hr.
  destruct (refreshNow P e) as [e1 err]. simpl in *. eapply good_core; [apply core_publish|done].
Qed.

(** * The loop *)

Implicit Types l : loop_state W T.

Lemma arm_engine l : l_engine (arm l) = l_engine l.
Proof. done. Qed.

Lemma addPending_engine spec l : l_engine (addPending P spec l) = l_engine l.
Proof. unfold addPending. by case_match. Qed.

Lemma core_markChanged spec v l : same_core (l_engine l) (l_engine (markChanged P spec v l)).
Proof.
unfold markChanged. case_match; [|apply same_core_refl].
rewrite arm_engine, addPending_engine. apply core_observe.
Qed.

Lemma addPending_fold_engine specs l :
  l_engine (foldl (fun l spec => addPending P spec l) l specs) = l_engine l.
Proof.
revert l. induction specs as [|s specs IH]; intros l; simpl; [done|].
by rewrite IH, addPending_engine.
Qed.

Lemma core_unblock path l : same_core (l_engine l) (l_engine (unblock P path l)).
Proof.
unfold unblock. case_match; [apply same_core_refl|].
set (stranded := List.filter _ _). clearbody stranded. destruct stranded as [|s ss]; [by split|].
rewrite arm_engine, addPending_fold_engine. by split.
Qed.

Lemma core_update_outcome spec win l : same_core (l_engine l) (l_engine (update_outcome P spec win l)).
Proof.
unfold update_outcome. destruct win as [v pos|pos err].
- eapply same_core_trans; [|apply core_markChanged]. simpl.
  eapply same_core_trans; [|apply core_markBoot].
  eapply same_core_trans; [|apply core_unblock]. apply core_mark_ok.
- case_match; [|case_match].
  + unfold handleChainNotFound. simpl. eapply same_core_trans; [apply core_unblock|apply core_notfound].
  + simpl. eapply same_core_trans; [|apply core_reportTerminalError]. apply core_clearBlock.
  + eapply same_core_trans; [|apply core_markChanged]. simpl.
    eapply same_core_trans; [|apply core_markBoot].
    eapply same_core_trans; [apply core_unblock|apply core_mark_ok].
  + simpl. eapply same_core_trans; [|apply core_reportTerminalError]. apply core_block.
Qed.

Lemma core_handle_update idx pos up spec l :
  same_core (l_engine l) (l_engine (handle_update P idx pos up spec l)).
Proof.
unfold handle_update. simpl. eapply same_core_trans; [|apply core_publish].
eapply same_core_trans; [|apply core_update_outcome]. apply core_recordSourceUpdate.
Qed.

Lemma good_dispatch ev q e : e_dispatch e = ev :: q -> good e -> good (set_dispatch q e).
Proof.
intros Hq []. rewrite Hq in *. split; simpl in *; try done; [by apply Forall_cons in g_queue0 as [_ ?]|lia].
Qed.

Lemma good_step l ev l' reply :
  good (l_engine l) -> loop_step P l ev = Some (l', reply) -> good (l_engine l').
Proof using Hpaths Hdepth.
intros Hg. unfold loop_step. destruct ev as [|idx pos up| | |cmd|w|].
- case_match; [done|]. by intros [= <- _].
- case_match; [done|]. destruct (p_specs P !! idx); [|done]. case_match; [|done]. intros [= <- _].
  by eapply good_core; [apply core_handle_update|].
- case_match; [done|]. case_match; [|done]. intros [= <- _]. by case_match.
- case_match; [done|]. destruct (l_timer l); [|done]. case_match; [|done]. intros [= <- _].
  unfold handle_timer. simpl. pose proof (good_flush (l_pending l) (l_engine l) Hg) as Hf.
  case_match; simpl; (eapply good_core; [apply core_publish|exact Hf]).
- case_match; [done|]. pose proof (good_handlePin cmd (l_engine l) Hg) as Hp.
  destruct (handlePin P cmd (l_engine l)) as [e r]. by intros [= <- _].
- case_match; [|done]. intros [= <- _]. simpl. by eapply good_core; [apply core_set_world|].
- destruct (e_dispatch (l_engine l)) as [|ev q] eqn:Eq; [done|]. intros [= <- _].
  by eapply good_dispatch.
Qed.

Lemma good_steps l evs l' : good (l_engine l) -> steps P l evs l' -> good (l_engine l').
Proof using Hpaths Hdepth. intros Hg Hs. induction Hs; eauto using good_step. Qed.
End invariant.
