(* ===== verification/Load.v ===== *)
(** Loading (src/reconcile.go [loadValue], [buildInto]) and the start of a
    watcher (src/reconciler.go [Watch], [start]): the engine the reconciler
    goroutine begins with. *)

From S2P Require Import Prelude Errors GoStrings Ref Provider Decode GoNumbers Fields Resolve Config Status Bootstrap EngineState Engine Loop.
Open Scope string_scope.
Open Scope Z_scope.

Section load.
Context {W T View : Type} `{Env W} `{Config T View}.
Context (P : params W T).
(** The JSON codec and the AEAD of the snapshot file, and what reading the file
    gives at a moment. *)
Context (decode : string -> option snapshot) (gcm_open : string -> string -> string -> option string).
Context (read_file : W -> file).
(** The iteration order of the scheme groups. *)
Context (order : list string).

(** [func buildInto(dst, res, hooks) error]. *)
Fixpoint buildInto (rs : list resolved) (dst : T) : res T :=
  match rs with
  | [] => Ok dst
  | r :: rs =>
      if negb (r_set r) then buildInto rs dst
      else
        match cfg_setField (r_spec r) (val_Bytes (r_value r)) dst with
        | Err e => Err e
        | Ok dst => buildInto rs dst
        end
  end.

(** The field changes handed to the gate of the first configuration. *)
Definition initial_fields (rs : list resolved) (cfg : T) : list FieldChange :=
  match p_preApply P with
  | None => []
  | Some _ =>
      (omap (fun r => if r_set r
                      then Some (MkFieldChange (spec_Path (r_spec r)) "" (val_Version (r_value r)))
                      else None) rs ++
       derivedFieldChanges cfg_zero cfg (p_derives P) (p_specs P))%list
  end.

(** The resolve, or the restore that answers its failure. *)
Definition resolve_or_restore (w : W) : W * res (list resolved * option bootstrapOrigin) :=
  let '(w, r) := resolveAll (p_gzip P) (p_provider P) order (p_specs P) w in
  match r, p_bootstrap P with
  | Ok rs, _ => (w, Ok (rs, None))
  | Err err, None => (w, Err err)
  | Err err, Some bc =>
      match restoreBootstrap (p_sha256 P) (p_typeName P) decode gcm_open (read_file w) (bc_key bc)
              (p_specs P) err (now w) with
      | Err berr => (w, Err berr)
      | Ok (restored, writtenAt) =>
          (w, Ok (restored, Some (MkOrigin true true writtenAt (Some err))))
      end
  end.

(** From resolved values to a configuration that passed decode, the derive
    hooks, validation and the gate. *)
Definition admit_config (rs : list resolved) (w : W) : W * res T :=
  match buildInto rs cfg_zero with
  | Err e => (w, Err e)
  | Ok cfg =>
      match run_derives (p_derives P) cfg with
      | Err e => (w, Err e)
      | Ok cfg =>
          match p_validate P cfg with
          | Some e => (w, Err (ValidationError e))
          | None =>
              let '(w, gate) := runPreApply P (MkChange cfg_zero cfg (initial_fields rs cfg)) w in
              (w, match gate with Some e => Err e | None => Ok cfg end)
          end
      end
  end.

(** The package function [persistBootstrap] on the load path: the write time, 0
    when it failed, and what it reports. *)
Definition persist_initial (rs : list resolved) (w : W) : W * Z * list effect :=
  let at_ := now w in
  let '(w, err) := p_writeSnapshot P (snapshot_of (p_sha256 P) (p_typeName P) (p_specs P) rs at_) w in
  match err with
  | None => (w, at_, [])
  | Some e =>
      (w, 0, ((if p_hasOnError P then [OnError e] else []) ++ [RecordBootstrapWriteFailed])%list)
  end.

(** [func loadValue[T](ctx, o)]: the configuration, the resolved values and the
    origin, with the effects of the call. *)
Definition loadValue (w : W) : W * list effect * res (T * list resolved * option bootstrapOrigin) :=
  match p_bootstrap P ≫= bc_err with
  | Some e => (w, [], Err e)
  | None =>
      match typedDerives (p_derives P) with
      | Err e => (w, [], Err e)
      | Ok _ =>
          let '(w, r) := resolve_or_restore w in
          match r with
          | Err e => (w, [], Err e)
          | Ok (rs, origin) =>
              let '(w, admitted) := admit_config rs w in
              match admitted with
              | Err e => (w, [], Err (bootstrapReplayErr origin e))
              | Ok cfg =>
                  match p_bootstrap P, origin with
                  | Some _, None =>
                      let '(w, at_, effs) := persist_initial rs w in
                      (w, effs, Ok (cfg, rs, Some (MkOrigin (negb (IsZero at_)) false at_ None)))
                  | _, _ => (w, [], Ok (cfg, rs, origin))
                  end
              end
          end
      end
  end.

(** [func Load[T](ctx, opts...) (T, error)]. *)
Definition Load (w : W) : W * res T :=
  let '(w, _, r) := loadValue w in (w, (fun x => x.1.1) <$> r).

(** * Watch *)

(** The seeding of [Watch]: the observed and applied maps and the time each
    value was confirmed. *)
Definition set_values (rs : list resolved) : list (string * Value) :=
  omap (fun r => if r_set r then Some (spec_Path (r_spec r), r_value r) else None) rs.

Definition boot_of_origin (origin : option bootstrapOrigin) (rs : list resolved)
    (e : engine W T) : engine W T :=
  match origin with
  | None => e
  | Some o =>
      if or_restored o then seedBootstrapOrigin o rs e
      else set_boot (MkBoot (or_present o) false false (or_writtenAt o) None) e
  end.

(** The engine [Watch] builds from a loaded configuration, before [start]. *)
Definition watch_engine (cfg : T) (rs : list resolved) (origin : option bootstrapOrigin)
    (effs : list effect) (w : W) : engine W T :=
  let confirmedAt :=
    match origin with
    | Some o => if or_restored o then or_writtenAt o else now w
    | None => now w
    end in
  let values : gmap string Value := list_to_map (reverse (set_values rs)) in
  let applied := val_Version <$> values in
  let e :=
    MkEngine values applied ((fun _ => confirmedAt) <$> values) ∅ cfg 1%nat
      (map (fun s => map (fun _ => unseen) (spec_Refs s)) (p_specs P)) ∅ [] no_boot
      (MkPin false 0%nat cfg_zero ∅) cfg no_report [] [] effs w in
  let e := publish P (boot_of_origin origin rs e) in
  let snap := MkSnap 1%nat (now w) cfg [] applied in
  set_snapshots [snap] (set_history [snap] e).

(** The chain seeding of [start], then the report it publishes. *)
Fixpoint seed_all (i : nat) (specs : list fieldSpec) (e : engine W T) : engine W T :=
  match specs with
  | [] => e
  | spec :: specs =>
      let e :=
        if (1 <? length (spec_Refs spec))%nat then
          let '(w, sts) := seedChainSources P spec (e_world e) in
          set_sources (<[i := sts]> (e_sources e)) (set_world w e)
        else e in
      seed_all (S i) specs e
  end.

Definition start (e : engine W T) : loop_state W T :=
  initial_loop (publish P (seed_all 0 (p_specs P) e)).

(** [func Watch[T](ctx, opts...)]: the loop it starts. *)
Definition Watch (w : W) : W * res (loop_state W T) :=
  let '(w, effs, r) := loadValue w in
  match r with
  | Err e => (w, Err e)
  | Ok (cfg, rs, origin) => (w, Ok (start (watch_engine cfg rs origin effs w)))
  end.
End load.
