(* ===== verification/LoadFacts.v ===== *)
(** Facts about loading: the resolve keeps the order of the specs, and the
    engine a watcher starts with satisfies the invariant. *)

From S2P Require Import Prelude Errors GoStrings Ref Provider Decode GoNumbers Fields Resolve Config Status Bootstrap EngineState Engine Loop EngineFacts Invariant Load.
Open Scope string_scope.
Open Scope Z_scope.

(** * The specs of a resolve *)

Lemma settle_spec r out r' : settle r out = Ok r' -> r_spec r' = r_spec r.
Proof.
unfold settle, applyDefault, applyOnFail, setResolved. intros Hs.
by repeat case_match; simplify_eq/=.
Qed.

Section specs.
Context {W : Type} `{Env W}.
Context (gz : string -> option (string * bool)) (provider : string -> option (Provider W)).

Lemma settle_batch_spec got r r' : settle_batch gz got r = Ok r' -> r_spec r' = r_spec r.
Proof.
unfold settle_batch, applyDefault, applyOnFail, setResolved. intros Hs.
by repeat case_match; simplify_eq/=.
Qed.

Lemma insert_same_spec out i r r' :
  out !! i = Some r -> r_spec r' = r_spec r -> map r_spec (<[i := r']> out) = map r_spec out.
Proof.
intros Hi Hr. change (r_spec <$> <[i := r']> out = r_spec <$> out).
rewrite list_fmap_insert. apply list_insert_id. by rewrite list_lookup_fmap, Hi, Hr.
Qed.

Lemma each_loop_specs idxs out w w' out' :
  each_loop gz provider idxs out w = (w', Ok out') -> map r_spec out' = map r_spec out.
Proof.
revert out w. induction idxs as [|i idxs IH]; intros out w; simpl; [by intros [= _ <-]|].
destruct (out !! i) as [r|] eqn:Ei; [|by intros [= _ <-]].
unfold resolveOne. destruct (resolveChain gz provider (spec_Refs (r_spec r)) w) as [w1 o].
destruct (settle r o) as [r'|] eqn:Es; [|done]. intros H1. apply IH in H1. rewrite H1.
apply (insert_same_spec out i r); [done|]. by eapply settle_spec.
Qed.

Lemma batch_loop_specs got idxs out out' :
  batch_loop gz got idxs out = Ok out' -> map r_spec out' = map r_spec out.
Proof.
revert out. induction idxs as [|i idxs IH]; intros out; simpl; [by intros [= <-]|].
destruct (out !! i) as [r|] eqn:Ei; [|by intros [= <-]].
destruct (settle_batch gz got r) as [r'|] eqn:Es; [|done]. intros H1. apply IH in H1. rewrite H1.
apply (insert_same_spec out i r); [done|]. by eapply settle_batch_spec.
Qed.

Lemma groups_loop_specs order specs out w w' out' :
  groups_loop gz provider order specs out w = (w', Ok out') -> map r_spec out' = map r_spec out.
Proof.
revert out w. induction order as [|s order IH]; intros out w; simpl; [by intros [= _ <-]|].
destruct (provider s) as [p|]; [|done]. destruct (prov_ResolveBatch p) as [batch|].
- unfold resolveBatchScheme. destruct (batch _ w) as [w1 [got|]]; [|done].
  destruct (batch_loop gz got (group s specs) out) as [out1|] eqn:Eb; [|done].
  intros ->%IH. by eapply batch_loop_specs.
- destruct (each_loop gz provider (group s specs) out w) as [w1 [out1|]] eqn:Ee; [|done].
  intros ->%IH. by eapply each_loop_specs.
Qed.

Lemma resolveAll_specs order specs w w' out :
  resolveAll gz provider order specs w = (w', Ok out) -> map r_spec out = specs.
Proof.
unfold resolveAll.
destruct (groups_loop gz provider order specs (map unresolved specs) w) as [w1 [out1|]] eqn:Eg; [|done].
intros Hc%each_loop_specs. apply groups_loop_specs in Eg. rewrite Hc, Eg, map_map. simpl. apply map_id.
Qed.
End specs.

Lemma restoreBootstrap_specs sha tn dec open f key specs err now out at_ :
  restoreBootstrap sha tn dec open f key specs err now = Ok (out, at_) -> map r_spec out = specs.
Proof.
unfold restoreBootstrap. case_match; [done|]. destruct (readBootstrapSnapshot _ _ f key) as [sn|]; [|done].
case_match; [done|]. destruct (index_records now (snap_Records sn) ∅) as [m|]; [|done].
intros [= <- _]. rewrite map_map. transitivity (map id specs); [|apply map_id].
apply map_ext. intros s. unfold restore_spec. by destruct (m !! spec_Path s).
Qed.

(** * The first engine *)

Section first.
Context {W T View : Type} `{Env W} `{Config T View}.
Context (P : params W T).
Context (decode : string -> option snapshot) (gcm_open : string -> string -> string -> option string).
Context (read_file : W -> file) (order : list string).

Lemma resolve_or_restore_specs w w' rs origin :
  resolve_or_restore P decode gcm_open read_file order w = (w', Ok (rs, origin)) ->
  map r_spec rs = p_specs P.
Proof.
unfold resolve_or_restore.
destruct (resolveAll _ _ order (p_specs P) w) as [w1 [rs1|err]] eqn:Er.
- intros [= _ <- _]. by eapply resolveAll_specs.
- destruct (p_bootstrap P) as [bc|]; [|done].
  destruct (restoreBootstrap _ _ _ _ _ _ _ _ _) as [[restored at_]|] eqn:Eb; [|done].
  intros [= _ <- _]. by eapply restoreBootstrap_specs.
Qed.

Definition values_of (rs : list resolved) : gmap string Value := list_to_map (reverse (set_values rs)).

Lemma set_values_keys rs : (set_values rs).*1 `sublist_of` map (fun r => spec_Path (r_spec r)) rs.
Proof.
induction rs as [|r rs IH]; [constructor|]. unfold set_values. cbn [omap list_omap map].
fold (set_values rs). destruct (r_set r); simpl; [by constructor|by constructor].
Qed.

Lemma values_of_lookup rs r :
  NoDup (map (fun r => spec_Path (r_spec r)) rs) -> r ∈ rs ->
  values_of rs !! spec_Path (r_spec r) = if r_set r then Some (r_value r) else None.
Proof.
intros Hnd Hr.
assert (Hnd' : NoDup (reverse (set_values rs)).*1).
{ rewrite (Permutation_map fst (reverse_Permutation (set_values rs))).
  eapply sublist_NoDup; [exact Hnd|apply set_values_keys]. }
assert (Huniq : forall q, q ∈ rs -> spec_Path (r_spec q) = spec_Path (r_spec r) -> q = r).
{ intros q Hq E. apply list_elem_of_lookup in Hq as [i Hi]. apply list_elem_of_lookup in Hr as [j Hj].
  assert (i = j) as ->; [|congruence].
  eapply (NoDup_lookup _ _ _ (spec_Path (r_spec r)) Hnd); rewrite list_lookup_fmap.
  - by rewrite Hi; simpl; rewrite E.
  - by rewrite Hj. }
unfold values_of. destruct (r_set r) eqn:Es.
- apply elem_of_list_to_map_1; [done|]. rewrite elem_of_reverse.
  unfold set_values. apply list_elem_of_omap. exists r. by rewrite Es.
- apply not_elem_of_list_to_map_1. intros ([k v] & Hk & Hin)%list_elem_of_fmap. simpl in Hk. subst.
  rewrite elem_of_reverse in Hin. unfold set_values in Hin.
  apply list_elem_of_omap in Hin as (q & Hq & E). destruct (r_set q) eqn:Eq; [|done].
  injection E as E _. assert (q = r) by auto. congruence.
Qed.

(** The reconciler builds from the seeded values what the load built. *)
Lemma decode_loop_buildInto rs (values : gmap string Value) dst cfg :
  (forall r, r ∈ rs -> values !! spec_Path (r_spec r) = if r_set r then Some (r_value r) else None) ->
  buildInto rs dst = Ok cfg -> decode_loop values (map r_spec rs) dst = Ok cfg.
Proof.
revert dst. induction rs as [|r rs IH]; intros dst Hv; simpl; [done|].
rewrite (Hv r) by constructor. destruct (r_set r); simpl.
- destruct (cfg_setField (r_spec r) (val_Bytes (r_value r)) dst); [|done].
  apply IH. intros q Hq. apply Hv. by constructor.
- apply IH. intros q Hq. apply Hv. by constructor.
Qed.

Lemma admit_config_vouched rs w w' cfg :
  map r_spec rs = p_specs P -> NoDup (map spec_Path (p_specs P)) ->
  admit_config P rs w = (w', Ok cfg) -> vouched P cfg (val_Version <$> values_of rs).
Proof.
intros Hspecs Hnd. unfold admit_config.
destruct (buildInto rs cfg_zero) as [pre|] eqn:Eb; [|done].
destruct (run_derives (p_derives P) pre) as [cfg'|] eqn:Ed; [|done].
destruct (p_validate P cfg') as [|] eqn:Ev; [done|].
set (ch := MkChange cfg_zero cfg' (initial_fields P rs cfg')).
destruct (runPreApply P ch w) as [w1 [ge|]] eqn:Eg; [done|]. intros [= _ <-].
assert (Hnd' : NoDup (map (fun r => spec_Path (r_spec r)) rs)).
{ rewrite <- Hspecs, map_map in Hnd. done. }
split; [|done|].
- exists (values_of rs), pre. split_and!; [|done|].
  + rewrite <- Hspecs. apply decode_loop_buildInto; [|done].
    intros r Hr. by apply values_of_lookup.
  + apply Forall_forall. intros s _. unfold go_get, version_in. rewrite lookup_fmap.
    by destruct (values_of rs !! spec_Path s).
- exists ch. split; [done|]. unfold runPreApply in Eg. unfold gate_passes.
  destruct (p_preApply P) as [hook|]; [|done]. exists w.
  destruct (hook w ch) as [w2 [[e|] [c|]]]; simplify_eq. eauto.
Qed.

Lemma core_boot_of_origin origin rs (e : engine W T) : same_core e (boot_of_origin origin rs e).
Proof.
unfold boot_of_origin, seedBootstrapOrigin. destruct origin as [o|]; [|apply same_core_refl].
repeat case_match; by split.
Qed.

Lemma core_seed_all i specs (e : engine W T) : same_core e (seed_all P i specs e).
Proof.
revert i e. induction specs as [|s specs IH]; intros i e; simpl; [apply same_core_refl|].
eapply same_core_trans; [|apply IH]. case_match; [|apply same_core_refl].
destruct (seedChainSources P s (e_world e)) as [w sts]. by split.
Qed.

Lemma watch_engine_good cfg rs origin effs w :
  (0 < p_queueDepth P)%nat -> vouched P cfg (val_Version <$> values_of rs) ->
  good P (watch_engine P cfg rs origin effs w).
Proof.
intros Hd Hv. unfold watch_engine. fold (values_of rs).
set (e0 := MkEngine _ _ _ _ _ _ _ _ _ _ _ _ _ _ _ _ _).
assert (Hc : same_core e0 (publish P (boot_of_origin origin rs e0))).
{ eapply same_core_trans; [apply core_boot_of_origin|apply core_publish]. }
destruct Hc as [C1 C2 C3 C4 C5 C6 C7 C8 C9].
split; simpl in *; rewrite ?C1, ?C2, ?C3, ?C4, ?C5, ?C6, ?C7, ?C8; simpl; try done.
- by constructor.
- intros i s. destruct i as [|i]; simpl; [|by destruct i]. by intros [= <-].
- lia.
- eexists. split_and!; [done|done|done|apply applied_agree_refl].
- lia.
- apply Forall_forall. intros s _ Hn. apply C9 in Hn. unfold e0 in Hn. simpl in Hn.
  unfold go_get. by rewrite lookup_fmap, Hn.
Qed.

(** Every watch starts in a good state, with nothing pending. *)
Lemma Watch_good w w' l :
  NoDup (map spec_Path (p_specs P)) -> (0 < p_queueDepth P)%nat ->
  Watch P decode gcm_open read_file order w = (w', Ok l) ->
  good P (l_engine l) /\ l = initial_loop (l_engine l).
Proof.
intros Hnd Hd. unfold Watch.
destruct (loadValue P decode gcm_open read_file order w) as [[w1 effs] [[[cfg rs] origin]|]] eqn:El; [|done].
intros [= _ <-]. split; [|done]. unfold start, initial_loop. simpl.
eapply good_core; [apply core_publish|]. eapply good_core; [apply core_seed_all|].
apply watch_engine_good; [done|]. unfold loadValue in El.
destruct (p_bootstrap P ≫= bc_err); [done|]. destruct (typedDerives (p_derives P)); [|done].
destruct (resolve_or_restore P decode gcm_open read_file order w) as [w2 [[rs2 origin2]|]] eqn:Er; [|done].
destruct (admit_config P rs2 w2) as [w3 [cfg3|]] eqn:Ea; [|done].
assert (cfg = cfg3 /\ rs = rs2) as [-> ->].
{ destruct (p_bootstrap P) as [bc|]; [destruct origin2 as [o|]|]; try by simplify_eq.
  destruct (persist_initial P rs2 w3) as [[w4 at_] effs4]. by simplify_eq. }
eapply admit_config_vouched; [|done|exact Ea]. by eapply resolve_or_restore_specs.
Qed.

(** A load that succeeds without restoring built its configuration from what the backends
    hold. *)
Lemma loadValue_Ok_resolved w w' effs cfg rs origin :
  loadValue P decode gcm_open read_file order w = (w', effs, Ok (cfg, rs, origin)) ->
  (forall o, origin = Some o -> or_restored o = false) ->
  typedDerives (p_derives P) = Ok (p_derives P) /\
  (resolveAll (p_gzip P) (p_provider P) order (p_specs P) w).2 = Ok rs /\
  buildInto rs cfg_zero ≫= run_derives (p_derives P) = Ok cfg.
Proof.
unfold loadValue, resolve_or_restore. intros El Ho.
destruct (p_bootstrap P ≫= bc_err); [done|].
destruct (typedDerives (p_derives P)) as [ds|] eqn:Et; [|done]. apply typedDerives_id in Et as ->.
destruct (resolveAll _ _ order (p_specs P) w) as [w1 [rs1|err]] eqn:Er; simpl.
- destruct (admit_config P rs1 w1) as [w2 [cfg1|]] eqn:Ea; [|done].
  assert (cfg = cfg1 /\ rs = rs1) as [-> ->].
  { destruct (p_bootstrap P); [|by simplify_eq]. destruct (persist_initial P rs1 w2) as [[? ?] ?]. by simplify_eq. }
  split_and!; [done..|]. unfold admit_config in Ea. destruct (buildInto rs1 cfg_zero) as [c|]; [|done]. simpl.
  destruct (run_derives (p_derives P) c) as [c'|]; [|done]. destruct (p_validate P c'); [done|].
  destruct (runPreApply _ _ _) as [w3 [|]]; by simplify_eq.
- exfalso. destruct (p_bootstrap P) as [bc|]; [|done].
  destruct (restoreBootstrap _ _ _ _ _ _ _ _ _) as [[restored at_]|]; [|done].
  destruct (admit_config P restored w1) as [w2 [cfg1|]]; [|done]. simplify_eq. by specialize (Ho _ eq_refl).
Qed.

(** The reasons for which a load fails. *)
Lemma loadValue_Err_reason w w' effs err :
  loadValue P decode gcm_open read_file order w = (w', effs, Err err) ->
  p_bootstrap P ≫= bc_err = Some err \/
  (exists e, typedDerives (p_derives P) = Err e) \/
  (exists eb, (resolveAll (p_gzip P) (p_provider P) order (p_specs P) w).2 = Err eb) \/
  (exists rs v, typedDerives (p_derives P) = Ok (p_derives P) /\
     (resolveAll (p_gzip P) (p_provider P) order (p_specs P) w).2 = Ok rs /\
     (admit_config P rs v).2 = Err err).
Proof.
unfold loadValue, resolve_or_restore. intros El.
destruct (p_bootstrap P ≫= bc_err); [left; by simplify_eq|]. right.
destruct (typedDerives (p_derives P)) as [ds|] eqn:Et; [|by left; eauto]. apply typedDerives_id in Et as ->. right.
destruct (resolveAll _ _ order (p_specs P) w) as [w1 [rs1|eb]] eqn:Er; simpl; [right|by left; eauto].
exists rs1, w1. split_and!; [done..|]. destruct (admit_config P rs1 w1) as [w2 [cfg1|e]]; simpl; [|by simplify_eq].
destruct (p_bootstrap P); [|done]. by destruct (persist_initial P rs1 w2) as [[? ?] ?].
Qed.

(** Nothing is blocked when a watcher starts. *)
Lemma Watch_unblocked w w' l :
  Watch P decode gcm_open read_file order w = (w', Ok l) -> e_blocked (l_engine l) = ∅.
Proof.
unfold Watch. destruct (loadValue P decode gcm_open read_file order w) as [[w1 effs] [[[cfg rs] origin]|]]; [|done].
intros [= _ <-]. unfold start. simpl.
assert (Hs : forall specs i (e : engine W T), e_blocked (seed_all P i specs e) = e_blocked e).
{ induction specs as [|s specs IH]; intros i e; simpl; [done|]. rewrite IH. case_match; [|done].
  by destruct (seedChainSources P s (e_world e)). }
rewrite Hs. unfold watch_engine, boot_of_origin, seedBootstrapOrigin. simpl. by repeat case_match.
Qed.
End first.

(** * Reachable states *)

(** The states of the reconciler goroutine after some [Watch] and some events. *)
Definition reachable {W T View : Type} `{Env W} `{Config T View} (P : params W T)
    (l : loop_state W T) : Prop :=
  exists decode gcm_open (read_file : W -> file) order w w' l0 evs,
    Watch P decode gcm_open read_file order w = (w', Ok l0) /\ steps P l0 evs l.

Section reachable.
Context {W T View : Type} `{Env W} `{Config T View}.
Context (P : params W T).
Hypothesis Hpaths : NoDup (map spec_Path (p_specs P)).
Hypothesis Hdepth : (0 < p_queueDepth P)%nat.

Lemma reachable_good l : reachable P l -> good P (l_engine l).
Proof using Hpaths Hdepth.
intros (? & ? & ? & ? & ? & ? & l0 & evs & Hw & Hs).
apply Watch_good in Hw as [Hg _]; [|done|done]. by eapply good_steps.
Qed.

Lemma steps_app l1 evs1 l2 evs2 l3 :
  steps P l1 evs1 l2 -> steps P l2 evs2 l3 -> steps P l1 (evs1 ++ evs2)%list l3.
Proof. induction 1; simpl; [done|]. intros. econstructor; eauto. Qed.

Lemma reachable_steps l evs l' : reachable P l -> steps P l evs l' -> reachable P l'.
Proof.
intros (? & ? & ? & ? & ? & ? & l0 & evs0 & Hw & Hs) Hs'.
repeat eexists; [exact Hw|]. by eapply steps_app.
Qed.

(** What holds when a watcher starts and is kept by every step holds in every
    reachable state. *)
Lemma reachable_ind (I : loop_state W T -> Prop) :
  (forall decode gcm_open read_file order w w' l,
     Watch P decode gcm_open read_file order w = (w', Ok l) -> I l) ->
  (forall l ev l' reply, I l -> loop_step P l ev = Some (l', reply) -> I l') ->
  forall l, reachable P l -> I l.
Proof.
intros Hstart Hstep l (? & ? & ? & ? & ? & ? & l0 & evs & Hw & Hs). apply Hstart in Hw.
induction Hs; eauto.
Qed.
End reachable.
