(* ===== verification/Demo.v ===== *)
(** A small concrete watcher, used by the witnesses of the reconciler's
    theorems: a struct with two sourced fields and a derived one, a backend and
    a snapshot file that are values of the world, a validator, a gate and a
    derive hook. *)

From S2P Require Import Prelude Errors GoStrings Ref Provider Decode GoNumbers Fields Resolve Config DerivedVersion Status Bootstrap EngineState Engine Loop EngineFacts Invariant Load LoadFacts.
Open Scope string_scope.
Open Scope Z_scope.

(** The world: a clock, what the backend holds by path, and the snapshot file. *)
Record demo_world := MkWorld {
  dw_now : Z;
  dw_values : gmap string (res Value);
  dw_file : option snapshot;
}.

#[export] Instance demo_env : Env demo_world.
Proof. refine {| now := dw_now; observe _ w := w |}. done. Defined.

Definition at_time (t : Z) (w : demo_world) : demo_world := MkWorld t (dw_values w) (dw_file w).
Definition holding (k : string) (v : res Value) (w : demo_world) : demo_world :=
  MkWorld (dw_now w) (<[k := v]> (dw_values w)) (dw_file w).

Definition demo_provider : Provider demo_world :=
  MkProvider "sm"
    (fun r w => (w, default (Err (ESentinel ErrNotFound)) (dw_values w !! ref_Path r)))
    None false.

Definition demo_type : gtype :=
  TStruct [ ("User", true, [("source", "sm:user")], TString);
            ("Pass", true, [("source", "sm:pass")], TSecretString);
            ("DSN", true, [], TString) ].

#[export] Instance demo_config : Config gval gval :=
  struct_config (fun _ => "") (fun s => s) Z.eqb (fun a b => bool_decide (a = b)) demo_type
    (setField (fun _ => None) (fun _ x => x) (fun _ _ _ => 0) (fun s : string => s)
       (fun _ => Err (EOpaque "json")) (fun _ => Err (EOpaque "yaml")) (fun _ => Err (EOpaque "toml"))
       (fun _ _ _ => Err (EOpaque "mapstructure"))).

Definition demo_refs (path : string) : list Ref := [MkRef "sm" path "" ∅ ("sm:" ++ path)].

Definition demo_field (name path : string) (i : nat) (ty : gtype) (onfail : onFailPolicy) : fieldSpec :=
  MkSpec name (demo_refs path) "" false "" false [i] ty (is_secret ty) onfail.

Definition demo_fields (onfail : onFailPolicy) : list fieldSpec :=
  [ demo_field "User" "user" 0 TString onfail; demo_field "Pass" "pass" 1 TSecretString onFailKeepLast ].

Definition demo_user (v : gval) : string :=
  match field_get [0%nat] v with Some (VString s) => s | _ => "" end.
Definition demo_pass (v : gval) : string :=
  match field_get [1%nat] v with Some (VSecretString s) => default "" s | _ => "" end.
Definition demo_dsn (v : gval) : string :=
  match field_get [2%nat] v with Some (VString s) => s | _ => "" end.

(** The derive hook assembles a connection string. *)
Definition demo_derive : typedDerive gval :=
  MkDerive (fun v =>
    match field_set [2%nat] (VString ("db://" ++ demo_user v)) v with
    | Some v => Ok v
    | None => Err (EOpaque "derive")
    end) ["DSN"].

(** The validator refuses an empty user; the gate refuses the password "wrong"
    until the backend it asks accepts it, 2000 seconds into the run. *)
Definition demo_validate (v : gval) : option error :=
  if bool_decide (demo_user v = "") then Some (EOpaque "User is required") else None.

Definition demo_gate (w : demo_world) (ch : Change gval) : demo_world * (option error * option error) :=
  (w, (if bool_decide (demo_pass (ch_New ch) = "wrong") && (dw_now w <? 2000 * Second) then Some (ESentinel ErrUnauthenticated) else None,
       None)).

Definition demo_params (onfail : onFailPolicy) (boot : option bootstrapConfig) : params demo_world gval :=
  {| p_specs := demo_fields onfail;
     p_provider := fun s => if bool_decide (s = "sm") then Some demo_provider else None;
     p_gzip := fun _ => None;
     p_fraction := fun _ _ _ => 0;
     p_derives := [demo_derive];
     p_preApply := Some demo_gate;
     p_validate := demo_validate;
     p_hasOnError := true;
     p_debounce := 500 * Millisecond;
     p_stale := 0;
     p_queueDepth := 2;
     p_historyN := 1;
     p_bootstrap := boot;
     p_sha256 := fun l => l;
     p_typeName := fun _ => "string";
     p_writeSnapshot := fun s w => (MkWorld (dw_now w) (dw_values w) (Some s), None) |}.

Definition demo_value (bytes version : string) : Value := MkValue bytes version false 0 ∅.

Definition demo_start_world : demo_world :=
  MkWorld (1000 * Second)
    {[ "user" := Ok (demo_value "alice" "1"); "pass" := Ok (demo_value "s3cret" "1") ]} None.

(** The watcher started in that world. *)
Definition demo_watch (P : params demo_world gval) (w : demo_world) : option (loop_state demo_world gval) :=
  match (Watch P (fun _ => None) (fun _ _ _ => None) (fun _ => FileMissing) ["sm"] w).2 with
  | Ok l => Some l
  | Err _ => None
  end.

Definition update (i : nat) (bytes version : string) : loop_event demo_world :=
  LUpdate i 0 (MkUpdate (demo_value bytes version) None).

Definition failing (i : nat) (err : error) : loop_event demo_world :=
  LUpdate i 0 (MkUpdate zero_Value (Some err)).

Definition wait_until (t : Z) : loop_event demo_world := LWorld (at_time t demo_start_world).

(** Run a watcher and look at the end. *)
Definition demo_run {A} (P : params demo_world gval) (evs : list (loop_event demo_world))
    (f : loop_state demo_world gval -> A) : option A :=
  f <$> (demo_watch P demo_start_world ≫= fun l => run P l evs).

(** The state a demo run ends in. *)
Definition demo_end (P : params demo_world gval) (evs : list (loop_event demo_world))
    : option (loop_state demo_world gval) :=
  demo_watch P demo_start_world ≫= fun l => run P l evs.

Lemma demo_reachable P evs l : demo_end P evs = Some l -> reachable P l.
Proof.
unfold demo_end, demo_watch. intros Hr.
destruct (Watch P _ _ _ _ demo_start_world) as [w' [l0|e]] eqn:Ew; [|done]. simpl in Hr.
repeat eexists; [exact Ew|]. by apply run_steps.
Qed.

(** A demo run that reaches a state with a property. *)
Definition runs_to (P : params demo_world gval) (evs : list (loop_event demo_world))
    (Q : loop_state demo_world gval -> Prop) : Prop :=
  match demo_end P evs with Some l => Q l | None => False end.

(** A run checked by evaluation, for a conclusion that holds in every reachable
    state passing the check. *)
Lemma runs_to_checked P evs (check : loop_state demo_world gval -> bool) Q :
  match demo_end P evs with Some l => check l | None => false end = true ->
  (forall l, reachable P l -> check l = true -> Q l) -> runs_to P evs Q.
Proof.
unfold runs_to. destruct (demo_end P evs) as [l|] eqn:E; [|done]. intros Hc HQ.
apply HQ; [by eapply demo_reachable|done].
Qed.

(** ** A watcher between flushes *)

Definition demo_cfg (user pass : string) : gval :=
  VStruct [ ("User", true, VString user); ("Pass", true, VSecretString (Some pass));
            ("DSN", true, VString ("db://" ++ user)) ].

Definition demo_resolved (P : params demo_world gval) : list resolved :=
  zip_with (fun s v => MkResolved s v true true) (p_specs P)
    [demo_value "alice" "1"; demo_value "s3cret" "1"].

(** The watcher of [demo_watch], having observed a user and a password that are
    not flushed yet. *)
Definition demo_engine (P : params demo_world gval) (user pass : Value) : engine demo_world gval :=
  observe_value "User" user (observe_value "Pass" pass
    (watch_engine P (demo_cfg "alice" "s3cret") (demo_resolved P) None [] demo_start_world)).

Abbreviation demo := (demo_params onFailKeepLast None).
Abbreviation demo_strict := (demo_params onFailFail None).

Lemma demo_paths onfail boot : NoDup (map spec_Path (p_specs (demo_params onfail boot))).
Proof. simpl. repeat constructor; set_solver. Qed.

Lemma demo_depth onfail boot : (0 < p_queueDepth (demo_params onfail boot))%nat.
Proof. simpl. lia. Qed.

Lemma demo_DeepEqual cfg (p : string) (v : gval) : cfg_view cfg p = Some v -> DeepEqual v v = true.
Proof.
intros _. revert v. fix IH 1. intros [| | | | | | | |fs|]; simpl;
  try (apply bool_decide_eq_true_2; reflexivity); try apply Z.eqb_refl; [by destruct b|].
induction fs as [|f fs IHfs]; [done|]. rewrite bool_decide_eq_true_2 by done. simpl.
rewrite IHfs, andb_true_r. apply (IH f.2).
Qed.
