(* ===== verification/Watcher.v ===== *)
(** What a watcher promises, as a state machine of its own, and the proof that
    the reconciler implements it. The specification knows a log of published
    configurations, the version a caller pinned, and the changes on their way
    to OnChange; it has no sources, errors, blocks, timers or snapshots. Every
    step of the goroutine is one step of it, with the same reply. *)

From S2P Require Import Prelude Errors GoStrings Ref Provider Decode GoNumbers Fields Resolve Config Status Bootstrap EngineState Engine Loop EngineFacts Invariant Load LoadFacts Demo.
Open Scope string_scope.
Open Scope Z_scope.

(** * The specification *)

(** Everything ever published, oldest first - version [S i] is entry [i] - with
    the pinned version and the undelivered changes. *)
Record watcher (T : Type) := MkWatcher {
  w_log : list (Snapshot T);
  w_pin : option nat;
  w_queue : list (Change T);
}.
Arguments MkWatcher {T}.
Arguments w_log {T}.
Arguments w_pin {T}.
Arguments w_queue {T}.

Section spec.
Context {W T View : Type} `{Env W} `{Config T View}.
Context (P : params W T).
Implicit Types s : watcher T.
Implicit Types e : engine W T.
Implicit Types l : loop_state W T.

Definition live_version s : nat := length (w_log s).

Definition served_version s : nat := default (live_version s) (w_pin s).

Definition entry s (v : nat) : option (Snapshot T) :=
  match v with O => None | S i => w_log s !! i end.

(** [Get]. *)
Definition served s : option T := sn_Config <$> entry s (served_version s).

(** The versions a caller can pin: the live one and the [p_historyN] before. *)
Definition retained s (v : nat) : Prop :=
  (0 < v <= live_version s /\ live_version s <= v + p_historyN P)%nat.

(** A bounded queue that forgets its oldest entry. *)
Definition send (ch : Change T) (q : list (Change T)) : list (Change T) :=
  last_n (p_queueDepth P) (q ++ [ch])%list.

(** Publishing: the log grows; subscribers hear of it unless a caller pinned. *)
Definition publish_entry (cur snap : Snapshot T) s : watcher T :=
  MkWatcher (w_log s ++ [snap])%list (w_pin s)
    (match w_pin s with
     | Some _ => w_queue s
     | None => send (MkChange (sn_Config cur) (sn_Config snap) (sn_Fields snap)) (w_queue s)
     end).

(** What may be published next: a configuration built from observed values,
    derived and validated, whose change the gate accepted. *)
Record publishable s (cur snap : Snapshot T) : Prop := {
  pb_current : last (w_log s) = Some cur;
  pb_version : sn_Version snap = S (live_version s);
  pb_fields : sn_Fields snap <> [];
  pb_vouched : vouched P (sn_Config snap) (sn_applied snap);
  pb_gate : gate_passes P (MkChange (sn_Config cur) (sn_Config snap) (sn_Fields snap));
}.

Definition pin_entry (v : nat) s : watcher T := MkWatcher (w_log s) (Some v) (w_queue s).

(** The fields two entries differ in. *)
Definition entry_diff (old new : Snapshot T) : list FieldChange :=
  diffApplied P (sn_applied old) (sn_applied new) (sn_Config old) (sn_Config new).

Definition release (old new : Snapshot T) s : watcher T :=
  MkWatcher (w_log s) None
    (match entry_diff old new with
     | [] => w_queue s
     | fields => send (MkChange (sn_Config old) (sn_Config new) fields) (w_queue s)
     end).

(** The events a caller cannot see: a message of a source, the clock, the end of
    the sources or of the watcher. *)
Definition invisible (ev : loop_event W) : bool :=
  match ev with LDone | LUpdate _ _ _ | LClosed | LWorld _ => true | _ => false end.

(** A flush: of the timer, which answers nobody, or of a refresh, whose caller
    is told. *)
Inductive flushes : loop_event W -> option error -> option pinReply -> Prop :=
  | flushes_timer r : flushes LTimer r None
  | flushes_refresh r : flushes (LControl refresh) r (Some (MkReply 0 r)).

Inductive spec_step s : loop_event W -> option pinReply -> watcher T -> Prop :=
  | spec_invisible ev :
      invisible ev = true -> spec_step s ev None s
  | spec_keep ev r reply :
      flushes ev r reply -> spec_step s ev reply s
  | spec_publish ev reply cur snap :
      flushes ev None reply -> publishable s cur snap ->
      spec_step s ev reply (publish_entry cur snap s)
  | spec_pinCurrent :
      spec_step s (LControl pinCurrent) (Some (MkReply (served_version s) None))
        (pin_entry (served_version s) s)
  | spec_pinAt v :
      retained s v ->
      spec_step s (LControl (pinAt v)) (Some (MkReply v None)) (pin_entry v s)
  | spec_no_such_snapshot v :
      ~ retained s v ->
      spec_step s (LControl (pinAt v)) (Some (MkReply 0 (Some (ESentinel ErrNoSuchSnapshot)))) s
  | spec_not_pinned :
      w_pin s = None -> spec_step s (LControl unpin) (Some (MkReply 0 None)) s
  | spec_unpin v old new :
      w_pin s = Some v -> entry s v = Some old -> last (w_log s) = Some new ->
      spec_step s (LControl unpin) (Some (MkReply 0 None)) (release old new s)
  | spec_deliver ch q :
      w_queue s = ch :: q ->
      spec_step s LDispatch None (MkWatcher (w_log s) (w_pin s) q).

Inductive spec_run : watcher T -> list (loop_event W) -> list (option pinReply) -> watcher T -> Prop :=
  | spec_run_nil s : spec_run s [] [] s
  | spec_run_cons s ev reply s1 evs replies s2 :
      spec_step s ev reply s1 -> spec_run s1 evs replies s2 ->
      spec_run s (ev :: evs) (reply :: replies) s2.

(** A watcher that just started. *)
Definition fresh (cfg : T) s : Prop :=
  exists snap, sn_Config snap = cfg /\ sn_Version snap = 1%nat /\ s = MkWatcher [snap] None [].

(** The same executions of the reconciler, with the replies it sends. *)
Inductive replies : loop_state W T -> list (loop_event W) -> list (option pinReply) -> loop_state W T -> Prop :=
  | replies_nil l : replies l [] [] l
  | replies_cons l ev reply l1 evs rs l2 :
      loop_step P l ev = Some (l1, reply) -> replies l1 evs rs l2 ->
      replies l (ev :: evs) (reply :: rs) l2.

(** * Representation *)

(** How an engine stands for a state of the specification. *)
Record represents e s : Prop := {
  rp_good : good P e;
  rp_versions : forall i x, w_log s !! i = Some x -> sn_Version x = S i;
  rp_length : live_version s = e_version e;
  rp_history : e_history e = last_n (S (p_historyN P)) (w_log s);
  rp_pin : if pn_pinned (e_pin e)
           then w_pin s = Some (pn_version (e_pin e)) /\
                exists x, entry s (pn_version (e_pin e)) = Some x /\
                  sn_Config x = pn_config (e_pin e) /\
                  applied_agree (p_specs P) (sn_applied x) (pn_applied (e_pin e))
           else w_pin s = None;
  rp_queue : e_dispatch e = w_queue s;
}.
End spec.

(** * The simulation *)

Section simulation.
Context {W T View : Type} `{Env W} `{Config T View}.
Context (P : params W T).
Implicit Types s : watcher T.
Implicit Types e : engine W T.
Implicit Types l : loop_state W T.

Lemma represents_core e e' s : same_core e e' -> represents P e s -> represents P e' s.
Proof.
intros Hc []. pose proof (good_core P e e' Hc rp_good0). destruct Hc as [C1 C2 C3 C4 C5 C6 C7 C8 C9].
split; rewrite ?C3, ?C4, ?C5, ?C8; done.
Qed.

Lemma represents_applied m e s :
  applied_agree (p_specs P) (e_applied e) m -> represents P e s -> represents P (set_applied m e) s.
Proof. intros Ha []. split; try done. by apply good_applied. Qed.

(** The live entry is the last good configuration. *)
Lemma represents_live e s :
  represents P e s -> exists cur, last (w_log s) = Some cur /\ entry s (live_version s) = Some cur /\
    sn_Config cur = e_lastGood e /\ applied_agree (p_specs P) (sn_applied cur) (e_applied e).
Proof.
intros []. destruct rp_good0. destruct g_current as (x & Hx & _ & Hcfg & Ha).
assert (Hlast : last (w_log s) = Some x).
{ rewrite rp_history0 in Hx. destruct (last_n_suffix (S (p_historyN P)) (w_log s)) as [k Hk].
  rewrite Hk, last_app, Hx. done. }
exists x. split_and!; [done| |done|done]. unfold entry, live_version.
rewrite last_lookup in Hlast. destruct (length (w_log s)) eqn:E; [|exact Hlast].
apply nil_length_inv in E. by rewrite E in Hlast.
Qed.

(** [Get] reads what the specification serves. *)
Lemma represents_served e s : represents P e s -> served s = Some (e_cfg e).
Proof.
intros Hr. destruct (represents_live e s Hr) as (cur & _ & Hcur & Hcfg & _). destruct Hr.
unfold served, served_version. rewrite (g_cfg _ _ rp_good0). destruct (pn_pinned (e_pin e)).
- destruct rp_pin0 as (-> & x & Hx & Hc & _). simpl. by rewrite Hx, <- Hc.
- rewrite rp_pin0. simpl. by rewrite Hcur, <- Hcfg.
Qed.

Lemma gate_passes_run ch w w' : runPreApply P ch w = (w', None) -> gate_passes P ch.
Proof.
unfold runPreApply, gate_passes. destruct (p_preApply P) as [hook|]; [|done]. intros Hg. exists w.
destruct (hook w ch) as [w1 [[err|] [cerr|]]]; simplify_eq. eauto.
Qed.

(** Retained versions are those found in the history. *)
Lemma findSnapshot_log e s v :
  represents P e s ->
  match findSnapshot v (e_history e) with
  | Some x => retained P s v /\ entry s v = Some x
  | None => ~ retained P s v
  end.
Proof.
intros []. unfold retained, live_version. rewrite rp_history0. unfold last_n.
destruct (findSnapshot v _) as [x|] eqn:Ef.
- apply find_some in Ef as [Hin Hv]. bool_norm. apply list_elem_of_In, list_elem_of_lookup in Hin as [i Hi].
  rewrite lookup_drop in Hi. pose proof (rp_versions0 _ _ Hi) as Hx. pose proof (lookup_lt_Some _ _ _ Hi).
  subst v. rewrite Hx. split; [lia|exact Hi].
- intros [Hv Hn]. destruct v as [|i]; [lia|].
  destruct (lookup_lt_is_Some_2 (w_log s) i ltac:(lia)) as [x Hx].
  pose proof (find_none _ _ Ef x) as Hno. cbv beta in Hno. rewrite (rp_versions0 _ _ Hx) in Hno.
  rewrite bool_decide_eq_true_2 in Hno by done. enough (true = false) by done. apply Hno.
  apply list_elem_of_In, list_elem_of_lookup. exists (i - (length (w_log s) - S (p_historyN P)))%nat.
  rewrite lookup_drop. by replace (_ + _)%nat with i by lia.
Qed.

Lemma entry_publish cur snap s v x :
  entry s v = Some x -> entry (publish_entry P cur snap s) v = Some x.
Proof. destruct v as [|i]; [done|]. simpl. apply lookup_app_l_Some. Qed.

Lemma last_n_last_n {A} n (k : list A) x : last_n (S n) (last_n (S n) k ++ [x]) = last_n (S n) (k ++ [x]).
Proof.
unfold last_n. rewrite !length_app, length_drop. simpl length.
destruct (Nat.le_gt_cases (length k) (S n)) as [Hle|Hgt].
- replace (length k - S n)%nat with 0%nat by lia. rewrite drop_0. f_equal. lia.
- rewrite (drop_app_le k) by lia. rewrite drop_app_le by (rewrite length_drop; lia).
  rewrite drop_drop. do 2 f_equal. lia.
Qed.

Lemma diffApplied_agree a1 a2 b1 b2 old new :
  applied_agree (p_specs P) a1 a2 -> applied_agree (p_specs P) b1 b2 ->
  diffApplied P a1 b1 old new = diffApplied P a2 b2 old new.
Proof.
intros Ha Hb. unfold diffApplied. f_equal. unfold applied_agree in *.
induction Ha as [|sp specs Hs Ha IH]; [done|]. apply Forall_cons in Hb as [Hsb Hb].
assert (E : applied_change a1 b1 sp = applied_change a2 b2 sp) by (unfold applied_change; by rewrite Hs, Hsb).
specialize (IH Hb). simpl. rewrite E. case_match; [f_equal|]; exact IH.
Qed.

Hypothesis Hpaths : NoDup (map spec_Path (p_specs P)).
Hypothesis Hdepth : (0 < p_queueDepth P)%nat.

(** A flush keeps the state or publishes the next entry. *)
Lemma flush_refines pending e s :
  represents P e s ->
  represents P (flush P pending e).1 s \/
  (flush P pending e).2 = None /\
  exists cur snap, publishable P s cur snap /\ represents P (flush P pending e).1 (publish_entry P cur snap s).
Proof using Hpaths Hdepth.
intros Hr. pose proof (rp_good _ _ _ Hr) as Hg. pose proof (good_flush P Hpaths Hdepth pending e Hg) as Hgood.
destruct (decide (pending = ∅)) as [->|Hne]; [left; by rewrite flush_empty|].
destruct (flush_cases P pending e Hpaths Hne) as [(err & Ho & _)|(cand & Hb & Hc)].
{ left. by eapply represents_core; [apply only_effects_core|]. }
destruct Hc as [(Hnil & ->)|(Hnn & Hc)].
{ left. apply represents_applied; [|done]. by eapply advanced_nil_agree. }
destruct (gate P e cand) as [w [err|]] eqn:Egate; rewrite Hc in Hgood |- *; cbn [fst snd] in *.
- left. eapply represents_core; [apply core_emitErr|]. eapply represents_core; [apply core_emit|].
  eapply (represents_core (set_applied _ e)); [by split|]. apply represents_applied; [|done].
  pose proof (rollback_agree P e cand Hpaths) as Hrb. unfold applied_agree in *.
  eapply Forall_impl; [exact Hrb|]. intros sp Hs. symmetry. exact Hs.
- right. split; [done|].
  pose proof (apply_candidate_outcome P cand (candidate_fields P e cand)
    (diff_loop (e_observed e) (p_specs P) (e_applied e)).2 w e Hdepth (g_length _ _ Hg))
    as (H1 & H2 & H3 & H4 & H5 & H6 & H7 & H8 & H9).
  set (e' := apply_candidate P cand _ _) in *. clearbody e'.
  set (snap := MkSnap (S (e_version e)) (now w) cand (candidate_fields P e cand)
    (diff_loop (e_observed e) (p_specs P) (e_applied e)).2) in *.
  destruct (represents_live e s Hr) as (cur & Hcur & _ & Hcfg & _). destruct Hr.
  exists cur, snap. split; split; try done.
  + by rewrite rp_length0.
  + by eapply vouched_candidate.
  + rewrite Hcfg. by eapply gate_passes_run.
  + intros i x. simpl. intros [Hi|[Hi Hx]]%lookup_app_Some; [by apply rp_versions0|].
    destruct (i - length (w_log s))%nat as [|k] eqn:E; [|by destruct k]. injection Hx as <-. simpl.
    unfold live_version in *. lia.
  + unfold live_version in *. simpl. rewrite length_app. simpl. lia.
  + rewrite H4, rp_history0. apply last_n_last_n.
  + rewrite H6. destruct (pn_pinned (e_pin e)); [|done]. destruct rp_pin0 as (Hpin & x & Hx & ?).
    split; [done|]. exists x. split; [by apply entry_publish|done].
  + rewrite H8. simpl. rewrite Hcfg, rp_queue0. destruct (pn_pinned (e_pin e)).
    * by destruct rp_pin0 as (-> & _).
    * by rewrite rp_pin0.
Qed.
Lemma represents_pin v x m e s :
  entry s v = Some x -> applied_agree (p_specs P) (sn_applied x) m -> vouched P (sn_Config x) m ->
  represents P e s ->
  represents P (set_cfg (sn_Config x) (set_pin (MkPin true v (sn_Config x) m) e)) (pin_entry v s).
Proof.
intros Hx Ha Hv []. split; try done; [by apply good_lookup_pin|]. simpl. split; [done|]. by exists x.
Qed.

(** The pin and refresh commands, with their replies. *)
Lemma handlePin_refines cmd e s :
  represents P e s ->
  exists s', spec_step P s (LControl cmd) (Some (handlePin P cmd e).2) s' /\
             represents P (handlePin P cmd e).1 s'.
Proof using Hpaths Hdepth.
intros Hr. pose proof (represents_live e s Hr) as (cur & Hcur & Hentry & Hcfg & Hap).
pose proof (rp_good _ _ _ Hr) as Hg. pose proof (rp_pin _ _ _ Hr) as Hpin. unfold handlePin.
destruct cmd as [v| | |].
- pose proof (findSnapshot_log e s v Hr) as Hf.
  destruct (findSnapshot v (e_history e)) as [x|] eqn:Ef; simpl.
  + destruct Hf as [Hret Hx]. exists (pin_entry v s). split; [by constructor|].
    eapply represents_core; [apply core_publish|]. apply represents_pin; [done|apply applied_agree_refl| |done].
    by eapply findSnapshot_good.
  + exists s. split; [by constructor|]. by eapply represents_core; [apply core_publish|].
- simpl. exists (pin_entry (served_version s) s).
  assert (Hsv : served_version s = if pn_pinned (e_pin e) then pn_version (e_pin e) else e_version e).
  { unfold served_version. rewrite <- (rp_length _ _ _ Hr). destruct (pn_pinned (e_pin e)).
    - by destruct Hpin as (-> & _).
    - by rewrite Hpin. }
  rewrite <- Hsv. split; [by constructor|]. eapply represents_core; [apply core_publish|].
  destruct (pn_pinned (e_pin e)) eqn:Ep.
  + destruct Hpin as (_ & x & Hx & Hxc & Ha). rewrite <- Hxc.
    apply represents_pin; [by rewrite Hsv|done| |done]. rewrite Hxc. by apply Hg.
  + rewrite <- Hcfg. apply represents_pin; [by rewrite Hsv, <- (rp_length _ _ _ Hr)|done| |done].
    rewrite Hcfg. apply Hg.
- pose proof (good_handlePin P Hpaths Hdepth unpin e Hg) as Hgood. unfold handlePin in Hgood.
  destruct (pn_pinned (e_pin e)) eqn:Ep; simpl in *.
  2: { exists s. split; [by constructor|]. by eapply represents_core; [apply core_publish|]. }
  destruct Hpin as (Hpin & x & Hx & Hxc & Hxa). exists (release P x cur s). split; [by econstructor|].
  assert (Hdiff : entry_diff P x cur =
    diffApplied P (pn_applied (e_pin e)) (e_applied e) (pn_config (e_pin e)) (e_lastGood e)).
  { unfold entry_diff. rewrite Hxc, Hcfg. by apply diffApplied_agree. }
  unfold release. rewrite Hdiff. rewrite Hxc, Hcfg.
  set (fields := diffApplied _ _ _ _ _) in *. clearbody fields.
  destruct Hr. destruct fields as [|f fs]; [by split|].
  set (e0 := set_cfg _ _) in *.
  pose proof (enqueue_dispatch P (MkChange (pn_config (e_pin e)) (e_lastGood e) (f :: fs)) e0 Hdepth) as Hq.
  destruct (enqueue_frame P (S (S (length (e_dispatch e0)))) (MkChange (pn_config (e_pin e)) (e_lastGood e) (f :: fs)) e0)
    as (tr & q & Hf).
  unfold enqueue in *. rewrite Hf in *. split; try done. simpl in *. rewrite Hq by apply Hg.
  by rewrite rp_queue0.
- unfold refreshNow.
  assert (Hr1 : represents P (refresh_loop P 0 (p_specs P) e) s) by (eapply represents_core; [apply core_refresh_loop|done]).
  destruct (flush_refines (list_to_set (map spec_Path (p_specs P))) _ s Hr1) as [Hk|(Hnone & c & snap & Hp & Hk)].
  + exists s. destruct (flush P _ _) as [e1 r]. simpl in *. split; [by eapply spec_keep; constructor|].
    by eapply represents_core; [apply core_publish|].
  + exists (publish_entry P c snap s). destruct (flush P _ _) as [e1 r]. simpl in *. subst r.
    split; [by eapply spec_publish; [constructor|]|]. by eapply represents_core; [apply core_publish|].
Qed.

(** Every step of the goroutine, of the dispatcher and of the world. *)
Lemma step_refines l ev l' reply s :
  represents P (l_engine l) s -> loop_step P l ev = Some (l', reply) ->
  exists s', spec_step P s ev reply s' /\ represents P (l_engine l') s'.
Proof using Hpaths Hdepth.
intros Hr. unfold loop_step. destruct ev as [|idx pos up| | |cmd|w|].
- case_match; [done|]. intros [= <- <-]. exists s. split; [by constructor|done].
- case_match; [done|]. destruct (p_specs P !! idx); [|done]. case_match; [|done]. intros [= <- <-].
  exists s. split; [by constructor|]. by eapply represents_core; [apply core_handle_update|].
- case_match; [done|]. case_match; [|done]. intros [= <- <-]. exists s. split; [by constructor|]. by case_match.
- case_match; [done|]. destruct (l_timer l); [|done]. case_match; [|done]. intros [= <- <-].
  assert (He : l_engine (handle_timer P l) = publish P (flush P (l_pending l) (l_engine l)).1).
  { unfold handle_timer. by case_match. }
  rewrite He. destruct (flush_refines (l_pending l) _ s Hr) as [Hk|(Hnone & c & snap & Hp & Hk)].
  + exists s. split; [by eapply (spec_keep _ _ _ None); constructor|]. by eapply represents_core; [apply core_publish|].
  + exists (publish_entry P c snap s). split; [by eapply spec_publish; [constructor|]|].
    by eapply represents_core; [apply core_publish|].
- case_match; [done|]. destruct (handlePin_refines cmd _ s Hr) as (s' & Hs & Hk).
  destruct (handlePin P cmd (l_engine l)) as [e r]. intros [= <- <-]. by exists s'.
- case_match; [|done]. intros [= <- <-]. exists s. split; [by constructor|].
  by eapply represents_core; [apply core_set_world|].
- destruct (e_dispatch (l_engine l)) as [|ch q] eqn:Eq; [done|]. intros [= <- <-].
  pose proof (rp_queue _ _ _ Hr) as Hq. rewrite Eq in Hq. eexists. split; [by eapply spec_deliver|].
  pose proof (good_dispatch P Hdepth ch q _ Eq (rp_good _ _ _ Hr)). destruct Hr. by split.
Qed.

Lemma run_refines l evs rs l' s :
  represents P (l_engine l) s -> replies P l evs rs l' ->
  exists s', spec_run P s evs rs s' /\ represents P (l_engine l') s'.
Proof using Hpaths Hdepth.
intros Hr Hs. revert s Hr. induction Hs as [l|l ev reply l1 evs rs l2 Hstep Hs IH]; intros s Hr.
- exists s. split; [constructor|done].
- destruct (step_refines l ev l1 reply s Hr Hstep) as (s1 & Hs1 & Hr1).
  destruct (IH s1 Hr1) as (s2 & Hs2 & Hr2). exists s2. split; [by econstructor|done].
Qed.
End simulation.

(** * From the start *)

Section refinement.
Context {W T View : Type} `{Env W} `{Config T View}.
Context (P : params W T).
Hypothesis Hpaths : NoDup (map spec_Path (p_specs P)).
Hypothesis Hdepth : (0 < p_queueDepth P)%nat.

(** A watcher starts with one entry, unpinned, nothing to deliver. *)
Lemma Watch_fresh decode gcm_open (read_file : W -> file) order w w' l :
  Watch P decode gcm_open read_file order w = (w', Ok l) ->
  exists s, fresh (e_lastGood (l_engine l)) s /\ represents P (l_engine l) s.
Proof using Hpaths Hdepth.
intros Hw. destruct (Watch_good P decode gcm_open read_file order w w' l Hpaths Hdepth Hw) as [Hg _].
assert (Hs : e_version (l_engine l) = 1%nat /\ pn_pinned (e_pin (l_engine l)) = false /\
  e_dispatch (l_engine l) = []).
{ unfold Watch in Hw. destruct (loadValue P _ _ _ _ _) as [[w1 effs] [[[cfg rs] origin]|]]; [|done].
  injection Hw as _ <-. unfold start, initial_loop. cbn [l_engine].
  pose proof (core_seed_all P 0 (p_specs P) (watch_engine P cfg rs origin effs w1)) as [_ _ C3 _ C5 _ _ C8 _].
  unfold publish. simpl. rewrite C3, C5, C8. unfold watch_engine. simpl.
  destruct (core_boot_of_origin origin rs (MkEngine (T := T) (list_to_map (reverse (set_values rs)))
    (val_Version <$> list_to_map (reverse (set_values rs)))
    ((fun _ => match origin with Some o => if or_restored o then or_writtenAt o else now w1 | None => now w1 end) <$>
       (list_to_map (reverse (set_values rs)) : gmap string Value))
    ∅ cfg 1 (map (fun s => map (fun _ => unseen) (spec_Refs s)) (p_specs P)) ∅ [] no_boot
    (MkPin false 0 cfg_zero ∅) cfg no_report [] [] effs w1)) as [_ _ -> _ -> _ _ -> _]. done. }
destruct Hs as (Hv & Hp & Hq). pose proof (g_bound _ _ Hg) as Hb. rewrite Hv in Hb. simpl in Hb.
destruct (g_current _ _ Hg) as (x & Hlast & Hxv & Hxc & _). rewrite Hv in Hxv.
destruct (e_history (l_engine l)) as [|y [|z h]] eqn:Eh; [done| |simpl in Hb; lia].
injection Hlast as ->. exists (MkWatcher [x] None []). split; [by exists x|].
split; simpl; try done.
- intros [|i] y; [|by destruct i]. by intros [= <-].
- by rewrite Hp.
Qed.

(** The log of the specification only grows. *)
Lemma spec_run_log s evs rs s' : spec_run P s evs rs s' -> w_log s `prefix_of` w_log s'.
Proof.
induction 1 as [|s ev reply s1 evs rs s2 Hs _ IH]; [done|]. etrans; [|exact IH].
destruct Hs; simpl; try done. by apply prefix_app_r.
Qed.

Lemma spec_run_entry s evs rs s' v x : spec_run P s evs rs s' -> entry s v = Some x -> entry s' v = Some x.
Proof.
intros Hs. destruct v as [|i]; [done|]. simpl. intros Hx.
eapply prefix_lookup_Some; [done|]. by eapply spec_run_log.
Qed.

Lemma steps_replies l evs l' : steps P l evs l' -> exists rs, replies P l evs rs l'.
Proof.
induction 1 as [|l ev l1 reply evs l2 Hs _ [rs IH]]; [exists []; constructor|].
exists (reply :: rs). by econstructor.
Qed.

Lemma replies_steps l evs rs l' : replies P l evs rs l' -> steps P l evs l'.
Proof. induction 1; econstructor; eauto. Qed.

Lemma reachable_represents l : reachable P l -> exists s, represents P (l_engine l) s.
Proof using Hpaths Hdepth.
revert l. apply (reachable_ind P (fun l => exists s, represents P (l_engine l) s)).
- intros decode gcm_open read_file order w w' l0 Hw. destruct (Watch_fresh _ _ _ _ _ _ _ Hw) as (s & _ & Hr). eauto.
- intros l0 ev l1 reply (s & Hr) Hs. destruct (step_refines P Hpaths Hdepth _ _ _ _ _ Hr Hs) as (s' & _ & ?). eauto.
Qed.

(** C1. The reconciler implements the watcher it promises. Whatever the backends,
    the hooks and the callers do, an execution of the goroutine is an execution
    of the specification that answers every command alike: a log of
    configurations that only grows, each entry built from observed values,
    validated and accepted by the gate on its own change; a pin on one entry;
    a bounded queue of changes; [Get] reads the served entry, [History] the
    newest entries, and nothing else can be seen. *)
Theorem watcher_refines_spec decode gcm_open (read_file : W -> file) order w w' l0 evs rs l :
  Watch P decode gcm_open read_file order w = (w', Ok l0) -> replies P l0 evs rs l ->
  exists s0 s,
    fresh (e_lastGood (l_engine l0)) s0 /\ spec_run P s0 evs rs s /\
    served s = Some (e_cfg (l_engine l)) /\ live_version s = e_version (l_engine l) /\
    e_snapshots (l_engine l) = reverse (last_n (S (p_historyN P)) (w_log s)) /\
    e_dispatch (l_engine l) = w_queue s.
Proof using Hpaths Hdepth.
intros Hw Hs. destruct (Watch_fresh _ _ _ _ _ _ _ Hw) as (s0 & Hf & Hr0).
destruct (run_refines P Hpaths Hdepth _ _ _ _ _ Hr0 Hs) as (s & Hrun & Hr).
exists s0, s. split_and!; [done|done|by apply (represents_served P)|by apply Hr| |by apply Hr].
rewrite (g_snapshots _ _ (rp_good _ _ _ Hr)). by rewrite (rp_history _ _ _ Hr).
Qed.

(** A version names one configuration for ever. A version once seen in the
    history stands for the same snapshot whenever it is seen again, whatever was
    applied, pinned, refreshed or rolled back in between; pinned by its number
    it serves that snapshot's configuration, and while it is the live version
    that configuration is the live one. *)
Theorem version_names_one_config l evs l' v a :
  reachable P l -> steps P l evs l' -> findSnapshot v (e_history (l_engine l)) = Some a ->
  (forall b, findSnapshot v (e_history (l_engine l')) = Some b -> b = a) /\
  (pn_pinned (e_pin (l_engine l')) = true -> pn_version (e_pin (l_engine l')) = v ->
   e_cfg (l_engine l') = sn_Config a) /\
  (e_version (l_engine l') = v -> e_lastGood (l_engine l') = sn_Config a).
Proof using Hpaths Hdepth.
intros Hreach Hs Ha. destruct (reachable_represents l Hreach) as (s & Hr).
destruct (steps_replies _ _ _ Hs) as (rs & Hrs).
destruct (run_refines P Hpaths Hdepth _ _ _ _ _ Hr Hrs) as (s' & Hrun & Hr').
pose proof (findSnapshot_log P _ s v Hr) as Hf. rewrite Ha in Hf. destruct Hf as [_ Hf].
pose proof (spec_run_entry _ _ _ _ _ _ Hrun Hf) as Hf'. split_and!.
- intros b Hb. pose proof (findSnapshot_log P _ s' v Hr') as Hfb. rewrite Hb in Hfb. destruct Hfb. congruence.
- intros Hp Hv. pose proof (rp_pin _ _ _ Hr') as Hpin. rewrite Hp, Hv in Hpin.
  destruct Hpin as (_ & x & Hx & Hc & _). pose proof (g_cfg _ _ (rp_good _ _ _ Hr')) as Hg.
  rewrite Hp in Hg. congruence.
- intros Hv. destruct (represents_live P _ s' Hr') as (x & _ & Hx & Hc & _).
  rewrite (rp_length _ _ _ Hr'), Hv in Hx. congruence.
Qed.
End refinement.

(** * Witnesses *)

(** Running with the replies. *)
Fixpoint replay {W T View} `{Env W} `{Config T View} (P : params W T) (l : loop_state W T)
    (evs : list (loop_event W)) : option (list (option pinReply) * loop_state W T) :=
  match evs with
  | [] => Some ([], l)
  | ev :: evs =>
      match loop_step P l ev with
      | None => None
      | Some (l, reply) => (fun rl => (reply :: rl.1, rl.2)) <$> replay P l evs
      end
  end.

Lemma replay_replies {W T View} `{Env W} `{Config T View} (P : params W T) l evs rs l' :
  replay P l evs = Some (rs, l') -> replies P l evs rs l'.
Proof.
revert l rs. induction evs as [|ev evs IH]; intros l rs; simpl; [intros [= <- <-]; constructor|].
destruct (loop_step P l ev) as [[l1 reply]|] eqn:Es; [|done].
destruct (replay P l1 evs) as [[rs1 l2]|] eqn:Er; [|done]. simpl. intros [= <- <-].
econstructor; [exact Es|]. by apply IH.
Qed.

(** A new user arrives under a pin; releasing it publishes one change. *)
Definition pinned_update : list (loop_event demo_world) :=
  [LControl pinCurrent; update 0 "bob" "2"; wait_until (1001 * Second); LTimer; LControl unpin; LDispatch].

Lemma watcher_refines_spec_witness :
  match (Watch demo (fun _ => None) (fun _ _ _ => None) (fun _ => FileMissing) ["sm"] demo_start_world).2 with
  | Ok l0 =>
      match replay demo l0 pinned_update with
      | Some (rs, l) =>
          map (option_map reply_version) rs = [Some 1; None; None; None; Some 0; None]%nat /\
          demo_user (e_cfg (l_engine l)) = "bob" /\
          exists s0 s, spec_run demo s0 pinned_update rs s /\ served s = Some (e_cfg (l_engine l)) /\
            live_version s = 2%nat
      | None => False
      end
  | Err _ => False
  end.
Proof.
assert (Hc : match (Watch demo (fun _ => None) (fun _ _ _ => None) (fun _ => FileMissing) ["sm"] demo_start_world).2 with
  | Ok l0 => match replay demo l0 pinned_update with
      | Some (rs, l) => bool_decide (map (option_map reply_version) rs = [Some 1; None; None; None; Some 0; None]%nat) &&
          bool_decide (demo_user (e_cfg (l_engine l)) = "bob") && bool_decide (e_version (l_engine l) = 2%nat)
      | None => false end
  | Err _ => false end = true) by (vm_compute; reflexivity).
destruct (Watch demo _ _ _ _ _) as [w' [l0|]] eqn:Ew; [|done]. cbn [snd] in Hc |- *.
destruct (replay demo l0 pinned_update) as [[rs l]|] eqn:Er; [|done].
apply andb_true_iff in Hc as [[H1 H2]%andb_true_iff H3]. bool_norm. split_and!; [done|done|].
destruct (watcher_refines_spec demo (demo_paths _ _) (demo_depth _ _) _ _ _ _ _ _ _ _ _ _ Ew
  (replay_replies _ _ _ _ _ Er)) as (s0 & s & _ & Hrun & Hserved & Hv & _).
exists s0, s. split_and!; [done|done|by rewrite Hv].
Defined.

Lemma version_names_one_config_witness :
  runs_to demo [] (fun l =>
    match findSnapshot 1 (e_history (l_engine l)), run demo l (pinned_update ++ [LControl (pinAt 1)])%list with
    | Some a, Some l' => demo_user (e_lastGood (l_engine l')) = "bob" /\ e_cfg (l_engine l') = sn_Config a
    | _, _ => False
    end).
Proof.
apply (runs_to_checked _ _ (fun l =>
  match findSnapshot 1 (e_history (l_engine l)), run demo l (pinned_update ++ [LControl (pinAt 1)])%list with
  | Some a, Some l' => bool_decide (demo_user (e_lastGood (l_engine l')) = "bob") &&
      pn_pinned (e_pin (l_engine l')) && bool_decide (pn_version (e_pin (l_engine l')) = 1%nat)
  | _, _ => false end)); [vm_compute; reflexivity|].
intros l Hr Hc. destruct (findSnapshot 1 _) as [a|] eqn:Ef; [|done].
destruct (run demo l _) as [l'|] eqn:El; [|done]. apply run_steps in El.
apply andb_true_iff in Hc as [[H1 H2]%andb_true_iff H3]. bool_norm. split; [done|].
by apply (version_names_one_config demo (demo_paths _ _) (demo_depth _ _) l _ l' 1 a Hr El Ef).
Defined.
