(* ===== verification/Reconciler.v ===== *)
(** The properties of the reconciler: what a running watcher serves, what a
    refused or an applied update does, pins, history, chains, blocks, the
    debounce timer; with their witnesses on the watcher of [Demo]. *)

From S2P Require Import Prelude Errors GoStrings Ref Provider Decode GoNumbers Fields Resolve Config DerivedVersion Status Bootstrap EngineState Engine Loop EngineFacts Invariant Load LoadFacts Demo.
Open Scope string_scope.
Open Scope Z_scope.

(** * What is served *)

Section served.
Context {W T View : Type} `{Env W} `{Config T View}.
Implicit Types P : params W T.

(** C2. Whatever happens to a watcher - updates, errors, refreshes, pins, timer
    firings, world changes, in any order - every configuration a caller can
    observe has passed the whole pipeline: the one [Get] serves, every retained
    snapshot, and both sides of every queued [Change] were decoded from values
    the backends delivered, derived, accepted by the validator and accepted by
    the PreApply gate, and a snapshot's recorded versions are those of the very
    values it was decoded from. *)
Theorem watch_serves_only_vouched P l :
  NoDup (map spec_Path (p_specs P)) -> (0 < p_queueDepth P)%nat -> reachable P l ->
  (exists applied, vouched P (e_cfg (l_engine l)) applied) /\
  Forall (fun s => vouched P (sn_Config s) (sn_applied s)) (e_snapshots (l_engine l)) /\
  Forall (fun ch => (exists a, vouched P (ch_Old ch) a) /\ (exists a, vouched P (ch_New ch) a))
    (e_dispatch (l_engine l)).
Proof.
intros Hnd Hd Hr. pose proof (reachable_good P Hnd Hd l Hr) as Hg. split_and!.
- rewrite (g_cfg P _ Hg). destruct (pn_pinned (e_pin (l_engine l))) eqn:Ep.
  + eexists. by apply (g_pin P _ Hg).
  + eexists. by apply (g_last P _ Hg).
- rewrite (g_snapshots P _ Hg). apply Forall_reverse, (g_history P _ Hg).
- apply (g_queue P _ Hg).
Qed.

(** What a refused flush leaves behind: effects, the gate's world, and an applied
    map that reads as before; with the error last in the trace when no field was
    blocked. *)
Lemma refused_flush_frame P pending (e e' : engine W T) err :
  NoDup (map spec_Path (p_specs P)) -> flush P pending e = (e', Some err) ->
  exists m w tr, e' = set_trace tr (set_applied m (set_world w e)) /\
    applied_agree (p_specs P) m (e_applied e) /\
    (e_blocked e = ∅ -> p_hasOnError P = true -> head tr = Some (OnError err)).
Proof.
intros Hnd Hf. destruct (decide (pending = ∅)) as [->|Hne]; [by rewrite flush_empty in Hf|].
destruct (flush_cases P pending e Hnd Hne) as [(err' & Ho & _ & Hno)|(cand & Hb & Hc)].
- rewrite Hf in Ho. destruct Ho as [tr Ho]. simpl in Ho.
  exists (e_applied e), (e_world e), tr. split_and!; [by subst e'; destruct e|apply applied_agree_refl|].
  intros Hbl Hon. change (Some (OnError err)) with (OnError <$> Some err).
  replace tr with (e_trace e') by (by subst e').
  eapply (buildCandidate_refused P e); [done..|]. unfold flush in Hf.
  rewrite bool_decide_eq_false_2 in Hf by done. pose proof (buildCandidate_cases P e Hnd) as Hbc.
  destruct (buildCandidate P e) as [e1 [?|c fs]]; [by simplify_eq|].
  destruct Hbc as [Hbc _]. by destruct (Hno c).
- destruct Hc as [(_ & Hc)|(_ & Hc)]; [congruence|].
  destruct (gate P e cand) as [w [ge|]]; rewrite Hf in Hc; [|done].
  injection Hc as -> ->. pose proof (rollback_agree P e cand Hnd) as Ha.
  unfold emitErr. destruct (p_hasOnError P) eqn:Eon; eexists _, w, _; (split; [by destruct e|]).
  + done.
  + by split.
Qed.

(** C3. A refusal costs nothing: when a flush is refused - a blocked field, a
    decode, derive or validation failure, or the gate - no configuration,
    version, history entry, pin, report, queued change or observed value moves,
    the applied versions read exactly as before, and unless a blocked field had
    already reported it the error is the last thing delivered to OnError. *)
Theorem refused_flush_is_atomic P pending (e e' : engine W T) err :
  NoDup (map spec_Path (p_specs P)) ->
  flush P pending e = (e', Some err) ->
  e_cfg e' = e_cfg e /\ e_lastGood e' = e_lastGood e /\ e_version e' = e_version e /\
  e_history e' = e_history e /\ e_snapshots e' = e_snapshots e /\ e_pin e' = e_pin e /\
  e_dispatch e' = e_dispatch e /\ e_report e' = e_report e /\ e_observed e' = e_observed e /\
  e_boot e' = e_boot e /\
  applied_agree (p_specs P) (e_applied e') (e_applied e) /\
  (e_blocked e = ∅ -> p_hasOnError P = true -> head (e_trace e') = Some (OnError err)).
Proof. intros Hnd Hf. by destruct (refused_flush_frame P pending e e' err Hnd Hf) as (m & w & tr & -> & ? & ?). Qed.

(** The world a rejected flush leaves is the gate's; the next build finds the
    same inputs and the same applied versions. *)
Lemma refused_same_candidate P (e e1 : engine W T) cand :
  same_inputs e e1 -> e_lastGood e1 = e_lastGood e ->
  applied_agree (p_specs P) (e_applied e1) (e_applied e) -> buildable P e cand ->
  buildable P e1 cand /\ candidate_fields P e1 cand = candidate_fields P e cand.
Proof.
intros [I1 _ I3 _ _] Hl Ha Hb. unfold buildable, candidate_fields. rewrite I1, I3, Hl.
split; [done|]. f_equal. by apply version_change_agree.
Qed.

(** A refused candidate is not forgotten. When the gate refuses a change,
    the next flush - of any batch, with no new update - proposes that very
    change again, every refused field in it; if the gate then accepts, the
    candidate is applied under the next version, is what [Get] serves, and is
    dispatched as one change from the configuration that stayed in force. *)
Theorem refused_candidate_is_retried P pending pending' (e e' : engine W T) cand w err w1 w2 :
  NoDup (map spec_Path (p_specs P)) -> (0 < p_queueDepth P)%nat -> pending <> ∅ -> pending' <> ∅ ->
  (length (e_dispatch e) <= p_queueDepth P)%nat ->
  buildable P e cand -> candidate_fields P e cand <> [] -> gate P e cand = (w, Some err) ->
  flush P pending e = (e', Some err) ->
  let ch := MkChange (e_lastGood e) cand (candidate_fields P e cand) in
  runPreApply P ch w1 = (w2, None) ->
  let '(e2, r) := flush P pending' (set_world w1 e') in
  r = None /\ e_lastGood e2 = cand /\ e_version e2 = S (e_version e) /\
  (pn_pinned (e_pin e) = false -> e_cfg e2 = cand /\ last (e_dispatch e2) = Some ch).
Proof.
intros Hnd Hd Hne Hne' Hlen Hb Hnn Hgate Hf ch Hg2.
destruct (refused_flush_frame P pending e e' err Hnd Hf) as (m0 & w0 & tr & -> & Ha & _).
set (e1 := set_world w1 _).
destruct (refused_same_candidate P e e1 cand) as [Hb' Hfs]; [by split|done..|].
destruct (flush_cases P pending' e1 Hnd Hne') as [(? & _ & _ & Hno)|(c & Hbc & Hc)].
{ by destruct (Hno cand). }
assert (c = cand) as -> by (by eapply buildable_fun). rewrite Hfs in Hc.
destruct Hc as [(? & _)|(_ & Hc)]; [done|].
unfold gate in Hc. rewrite Hfs in Hc. change (e_lastGood e1) with (e_lastGood e) in Hc.
change (e_world e1) with w1 in Hc. fold ch in Hc. rewrite Hg2 in Hc. rewrite Hc.
destruct (apply_candidate_outcome P cand (candidate_fields P e cand)
  (diff_loop (e_observed e1) (p_specs P) (e_applied e1)).2 w2 e1 Hd Hlen)
  as (H1 & _ & H3 & _ & _ & _ & H7 & H8 & _).
split_and!; [done|exact H1|exact H3|]. intros Hpin. change (e_pin e1) with (e_pin e) in H7, H8. rewrite Hpin in H7, H8.
split; [exact H7|]. rewrite H8. apply last_n_last; [done|]. apply last_snoc.
Qed.

(** C4. What an applied flush publishes: the diff names exactly the specs whose
    observed version is not the applied one, with both versions, then the
    derived paths that moved; the version counts up by one; the history keeps
    the newest entries with this one last; the applied versions become the
    observed ones; [Get] serves the candidate and one [Change] from the previous
    configuration joins the queue, the oldest being dropped beyond its depth -
    unless the watcher is pinned, in which case neither moves; and the report
    is rebuilt from the resulting state. *)
Theorem applied_flush_publishes P pending (e : engine W T) cand w :
  NoDup (map spec_Path (p_specs P)) -> (0 < p_queueDepth P)%nat ->
  (length (e_dispatch e) <= p_queueDepth P)%nat -> pending <> ∅ ->
  buildable P e cand -> candidate_fields P e cand <> [] -> gate P e cand = (w, None) ->
  exists sourced,
  let fields := (sourced ++ derivedFieldChanges (e_lastGood e) cand (p_derives P) (p_specs P))%list in
  let '(e', r) := flush P pending e in
  let pinned := pn_pinned (e_pin e) in
  r = None /\
  (forall f, f ∈ sourced <-> exists s v, s ∈ p_specs P /\ e_observed e !! spec_Path s = Some v /\
     go_get (e_applied e) (spec_Path s) <> val_Version v /\
     f = MkFieldChange (spec_Path s) (go_get (e_applied e) (spec_Path s)) (val_Version v)) /\
  e_lastGood e' = cand /\ e_version e' = S (e_version e) /\
  (forall s v, s ∈ p_specs P -> e_observed e !! spec_Path s = Some v ->
     go_get (e_applied e') (spec_Path s) = val_Version v) /\
  e_history e' = last_n (S (p_historyN P))
    (e_history e ++ [MkSnap (S (e_version e)) (now w) cand fields (e_applied e')])%list /\
  e_snapshots e' = reverse (e_history e') /\
  e_cfg e' = (if pinned then e_cfg e else cand) /\
  e_dispatch e' = (if pinned then e_dispatch e
    else last_n (p_queueDepth P) (e_dispatch e ++ [MkChange (e_lastGood e) cand fields])%list) /\
  e_pin e' = e_pin e /\ e_report e' = buildReport P e'.
Proof.
intros Hnd Hd Hlen Hne Hb Hnn Hg. exists (omap (version_change (e_observed e) (e_applied e)) (p_specs P)).
cbv zeta. fold (candidate_fields P e cand).
destruct (flush_cases P pending e Hnd Hne) as [(? & _ & _ & Hno)|(c & Hbc & Hc)]; [by destruct (Hno cand)|].
assert (c = cand) as -> by (by eapply buildable_fun).
destruct Hc as [(? & _)|(_ & Hc)]; [done|]. rewrite Hg in Hc. rewrite Hc.
destruct (apply_candidate_outcome P cand (candidate_fields P e cand)
  (diff_loop (e_observed e) (p_specs P) (e_applied e)).2 w e Hd Hlen)
  as (H1 & H2 & H3 & H4 & H5 & H6 & H7 & H8 & H9).
split_and!; try done.
- intros f. rewrite list_elem_of_omap. unfold version_change. split.
  + intros (s & Hs & E). destruct (e_observed e !! spec_Path s) as [v|] eqn:Ev; [|done].
    case_bool_decide; [done|]. simplify_eq. eauto 8.
  + intros (s & v & Hs & Ev & Hx & ->). exists s. by rewrite Ev, bool_decide_eq_false_2.
- intros s v Hs Ev. simpl in H2. rewrite H2, diff_loop_applied by done. unfold advanced. rewrite Ev.
  rewrite bool_decide_eq_true_2; [done|]. by apply list_elem_of_fmap_2.
- rewrite H4. by rewrite H2.
Qed.
(** An applied flush settles: with no new observation, flushing again - any
    batch - builds the same candidate, finds nothing to publish and returns
    without a change, a version, a gate call or an error. *)
Theorem flush_settles P pending pending' (e : engine W T) cand w :
  NoDup (map spec_Path (p_specs P)) -> (0 < p_queueDepth P)%nat ->
  (length (e_dispatch e) <= p_queueDepth P)%nat -> pending <> ∅ ->
  (forall p v, cfg_view cand p = Some v -> DeepEqual v v = true) ->
  buildable P e cand -> candidate_fields P e cand <> [] -> gate P e cand = (w, None) ->
  let e' := (flush P pending e).1 in
  exists m, flush P pending' e' = (set_applied m e', None) /\
            applied_agree (p_specs P) m (e_applied e').
Proof.
intros Hnd Hd Hlen Hne Hrefl Hb Hnn Hg e'.
pose proof (inputs_flush P pending e) as Hi. fold e' in Hi.
destruct (flush_cases P pending e Hnd Hne) as [(? & _ & _ & Hno)|(c & Hbc & Hc)]; [by destruct (Hno cand)|].
assert (c = cand) as -> by (by eapply buildable_fun).
destruct Hc as [(? & _)|(_ & Hc)]; [done|]. rewrite Hg in Hc.
assert (He' : e' = apply_candidate P cand (candidate_fields P e cand)
  (set_world w (set_applied (diff_loop (e_observed e) (p_specs P) (e_applied e)).2 e))).
{ unfold e'. by rewrite Hc. }
destruct (apply_candidate_outcome P cand (candidate_fields P e cand)
  (diff_loop (e_observed e) (p_specs P) (e_applied e)).2 w e Hd Hlen) as (H1 & H2 & _).
rewrite <- He' in H1, H2. destruct Hi as [I1 _ I3 _ _].
assert (Hb' : buildable P e' cand) by (unfold buildable; by rewrite I1, I3).
assert (Hnil : candidate_fields P e' cand = []).
{ unfold candidate_fields. rewrite I1, H1, H2. by apply candidate_fields_settled. }
destruct (decide (pending' = ∅)) as [->|Hne'].
{ rewrite flush_empty. exists (e_applied e'). split; [by destruct e'|apply applied_agree_refl]. }
destruct (flush_cases P pending' e' Hnd Hne') as [(? & _ & _ & Hno)|(c & Hbc' & Hc')]; [by destruct (Hno cand)|].
assert (c = cand) as -> by (by eapply buildable_fun).
destruct Hc' as [(_ & Hc')|(? & _)]; [|done].
eexists. split; [exact Hc'|]. apply Forall_forall. intros s Hs. symmetry.
pose proof (advanced_nil_agree P Hnd e' cand Hnil) as Ha. unfold applied_agree in Ha.
rewrite Forall_forall in Ha. auto.
Qed.
(** Only versions are published. A candidate whose observed versions are all
    the applied ones, and whose derived paths did not move, is dropped without a
    word, even when its bytes - and so the configuration - differ: an update
    whose values carry no [Version], which [Value.changed] detects by comparing
    bytes, is never applied. *)
Theorem unversioned_change_is_not_applied P pending (e : engine W T) cand :
  NoDup (map spec_Path (p_specs P)) -> buildable P e cand ->
  (forall s v, s ∈ p_specs P -> e_observed e !! spec_Path s = Some v ->
     go_get (e_applied e) (spec_Path s) = val_Version v) ->
  derivedFieldChanges (e_lastGood e) cand (p_derives P) (p_specs P) = [] ->
  let '(e', err) := flush P pending e in
  err = None /\ e_lastGood e' = e_lastGood e /\ e_cfg e' = e_cfg e /\ e_version e' = e_version e /\
  e_history e' = e_history e /\ e_dispatch e' = e_dispatch e /\ e_trace e' = e_trace e.
Proof.
intros Hnd Hb Hv Hd. destruct (decide (pending = ∅)) as [->|Hne]; [by rewrite flush_empty|].
assert (Hnil : candidate_fields P e cand = []).
{ unfold candidate_fields. rewrite Hd, app_nil_r.
  assert (Hall : forall s, s ∈ p_specs P -> version_change (e_observed e) (e_applied e) s = None).
  { intros s Hs. unfold version_change. destruct (e_observed e !! spec_Path s) as [v|] eqn:Ev; [|done].
    by rewrite bool_decide_eq_true_2 by (by eapply Hv). }
  clear -Hall. induction (p_specs P) as [|s specs IH]; [done|]. cbn [omap list_omap].
  rewrite Hall by constructor. apply IH. intros s' Hs'. apply Hall. by constructor. }
destruct (flush_cases P pending e Hnd Hne) as [(? & _ & _ & Hno)|(c & Hbc & Hc)]; [by destruct (Hno cand)|].
assert (c = cand) as -> by (by eapply buildable_fun).
destruct Hc as [(_ & ->)|(? & _)]; done.
Qed.

(** The snapshot written when a restore is reconciled is that of the observed
    values, not of the applied ones. Confirming the last restored path rewrites
    the bootstrap file with a record for every observed value that carries a
    ref's value, whether or not that value was ever applied - so a value the
    validator or the gate refused, and is still refusing, is in it. *)
Theorem reconciled_snapshot_takes_observed_values P path (e : engine W T) bc unconfirmed spec v :
  p_bootstrap P = Some bc -> b_unconfirmed (e_boot e) = Some unconfirmed -> unconfirmed ⊆ {[path]} ->
  spec ∈ p_specs P -> e_observed e !! spec_Path spec = Some v ->
  let sn := snapshot_now P e in
  let e' := markBootstrapReconciled P path e in
  e_world e' = (p_writeSnapshot P sn (e_world e)).1 /\
  b_serving (e_boot e') = false /\ e_applied e' = e_applied e /\ e_lastGood e' = e_lastGood e /\
  MkResolved spec v true true ∈ observedAsResolved P e /\
  snap_Records sn = bootstrapRecords (observedAsResolved P e).
Proof.
intros Hbc Hu Hsub Hs Hv sn e'.
assert (He : e' = persistBootstrap P (set_boot (MkBoot (b_present (e_boot e)) (b_restored (e_boot e)) false
  (b_writtenAt (e_boot e)) None) e)).
{ unfold e', markBootstrapReconciled. rewrite Hu. rewrite bool_decide_eq_true_2; [done|set_solver]. }
set (e0 := set_boot _ e) in He.
assert (Hsn : snapshot_now P e0 = sn) by done.
pose proof (core_markBoot P path e) as Hcore. fold e' in Hcore.
split_and!; try (apply Hcore).
- rewrite He. unfold persistBootstrap. rewrite Hbc, Hsn. change (e_world e0) with (e_world e).
  destruct (p_writeSnapshot P sn (e_world e)) as [w [err|]]; simpl.
  + unfold emitErr. by case_match.
  + by case_match.
- rewrite He. unfold persistBootstrap. rewrite Hbc.
  destruct (p_writeSnapshot P _ _) as [w [err|]]; simpl.
  + unfold emitErr. by case_match.
  + by case_match.
- unfold observedAsResolved. apply list_elem_of_omap. exists spec. by rewrite Hv.
- done.
Qed.
End served.

(** * Witnesses *)

Lemma watch_serves_only_vouched_witness :
  runs_to demo [update 0 "bob" "2"; wait_until (1001 * Second); LTimer] (fun l =>
    demo_user (e_cfg (l_engine l)) = "bob" /\
    (exists applied, vouched demo (e_cfg (l_engine l)) applied) /\
    Forall (fun ch => exists a, vouched demo (ch_New ch) a) (e_dispatch (l_engine l))).
Proof.
apply (runs_to_checked _ _ (fun l => bool_decide (demo_user (e_cfg (l_engine l)) = "bob")));
  [vm_compute; reflexivity|]. intros l Hr Hc. split; [by apply bool_decide_eq_true in Hc|].
destruct (watch_serves_only_vouched demo l (demo_paths _ _) (demo_depth _ _) Hr) as (H1 & _ & H3).
split; [exact H1|]. eapply Forall_impl; [exact H3|]. by intros ch [_ ?].
Defined.

Definition wrong_password : engine demo_world gval :=
  demo_engine demo (demo_value "bob" "2") (demo_value "wrong" "2").

Definition bob : gval := demo_cfg "bob" "s3cret".
Definition bob_wrong : gval := demo_cfg "bob" "wrong".

Lemma refused_flush_is_atomic_witness :
  exists e' err, flush demo {["User"; "Pass"]} wrong_password = (e', Some err) /\
    e_cfg e' = demo_cfg "alice" "s3cret" /\ e_version e' = 1%nat /\
    applied_agree (p_specs demo) (e_applied e') (e_applied wrong_password).
Proof.
eexists _, _. split; [vm_compute; reflexivity|].
match goal with |- e_cfg ?e' = _ /\ _ =>
  destruct (refused_flush_is_atomic demo {["User"; "Pass"]} wrong_password e'
    (PreApplyError (ESentinel ErrUnauthenticated)))
    as (Hc & _ & Hv & _ & _ & _ & _ & _ & _ & _ & Ha & _) end;
  [apply demo_paths|vm_compute; reflexivity|].
split_and!; [rewrite Hc|rewrite Hv|exact Ha]; reflexivity.
Defined.

Lemma refused_candidate_is_retried_witness :
  let e' := (flush demo {["User"; "Pass"]} wrong_password).1 in
  let e2 := (flush demo {["User"]} (set_world (at_time (2000 * Second) demo_start_world) e')).1 in
  e_cfg e' = demo_cfg "alice" "s3cret" /\ e_cfg e2 = bob_wrong /\ e_version e2 = 2%nat.
Proof.
intros e' e2. split; [vm_compute; reflexivity|].
pose proof (refused_candidate_is_retried demo {["User"; "Pass"]} {["User"]} wrong_password e' bob_wrong
  (e_world wrong_password) (PreApplyError (ESentinel ErrUnauthenticated))
  (at_time (2000 * Second) demo_start_world) (at_time (2000 * Second) demo_start_world)
  (demo_paths _ _) (demo_depth _ _)) as Hr.
unfold e2. destruct (flush demo {["User"]} _) as [e3 r]. cbn [fst].
destruct Hr as (_ & _ & Hv & Hc).
- set_solver.
- set_solver.
- apply Nat.leb_le. vm_compute. reflexivity.
- split_and!; [reflexivity| |reflexivity].
  eexists. split; vm_compute; reflexivity.
- vm_compute. discriminate.
- vm_compute. reflexivity.
- vm_compute. reflexivity.
- vm_compute. reflexivity.
- destruct Hc as [Hc _]; [reflexivity|]. split; [exact Hc|]. rewrite Hv. reflexivity.
Defined.

Definition new_user : engine demo_world gval :=
  demo_engine demo (demo_value "bob" "2") (demo_value "s3cret" "1").

Lemma new_user_buildable : buildable demo new_user bob.
Proof. split_and!; [reflexivity| |reflexivity]. eexists. split; vm_compute; reflexivity. Qed.

Lemma applied_flush_publishes_witness :
  let e' := (flush demo {["User"]} new_user).1 in
  e_cfg e' = bob /\ e_version e' = 2%nat /\
  map (fun ch => map fc_Path (ch_Fields ch)) (e_dispatch e') = [["User"; "DSN"]].
Proof.
intros e'.
destruct (applied_flush_publishes demo {["User"]} new_user bob (e_world new_user) (demo_paths _ _) (demo_depth _ _))
  as [sourced Hf].
- apply Nat.leb_le. vm_compute. reflexivity.
- set_solver.
- exact new_user_buildable.
- vm_compute. discriminate.
- vm_compute. reflexivity.
- unfold e' in *. destruct (flush demo {["User"]} new_user) as [e1 r] eqn:E. cbn [fst] in *.
  destruct Hf as (_ & _ & _ & Hv & _ & _ & _ & Hc & _). rewrite Hc, Hv.
  split_and!; [reflexivity..|]. replace e1 with (flush demo {["User"]} new_user).1 by (by rewrite E).
  vm_compute. reflexivity.
Defined.

Lemma flush_settles_witness :
  let e' := (flush demo {["User"]} new_user).1 in
  exists m, flush demo {["User"; "Pass"]} e' = (set_applied m e', None).
Proof.
intros e'. destruct (flush_settles demo {["User"]} {["User"; "Pass"]} new_user bob (e_world new_user)
  (demo_paths _ _) (demo_depth _ _)) as (m & Hm & _).
- apply Nat.leb_le. vm_compute. reflexivity.
- set_solver.
- intros p v Hv. by eapply demo_DeepEqual.
- exact new_user_buildable.
- vm_compute. discriminate.
- vm_compute. reflexivity.
- exists m. exact Hm.
Defined.

(** A watcher loaded from a backend without versions, whose password changed. *)
Definition unversioned : engine demo_world gval :=
  watch_engine demo (demo_cfg "alice" "s3cret")
    (zip_with (fun s v => MkResolved s v true true) (p_specs demo)
       [demo_value "alice" ""; demo_value "s3cret" ""]) None [] demo_start_world.

Lemma unversioned_change_is_not_applied_witness :
  let e := observe_value "Pass" (demo_value "rotated" "") unversioned in
  is_new unversioned "Pass" (demo_value "rotated" "") = true /\
  buildable demo e (demo_cfg "alice" "rotated") /\
  e_lastGood (flush demo {["Pass"]} e).1 = demo_cfg "alice" "s3cret".
Proof.
intros e.
assert (Hb : buildable demo e (demo_cfg "alice" "rotated")).
{ split_and!; [reflexivity| |reflexivity]. eexists. split; vm_compute; reflexivity. }
split; [vm_compute; reflexivity|]. split; [exact Hb|].
pose proof (unversioned_change_is_not_applied demo {["Pass"]} e _ (demo_paths _ _) Hb) as Hn.
destruct (flush demo {["Pass"]} e) as [e' err]. cbn [fst].
destruct Hn as (_ & Hl & _).
- intros s v Hs%list_elem_of_In. destruct Hs as [<-|[<-|[]]]; intros Hv; vm_compute in Hv; by injection Hv as <-.
- vm_compute. reflexivity.
- rewrite Hl. reflexivity.
Defined.

(** A watcher that booted from its snapshot, whose gate refuses the new password
    and whose user is the last value to be confirmed. *)
Definition demo_boot : params demo_world gval :=
  demo_params onFailKeepLast (Some (MkBootstrapConfig "snapshot" "key" 0 None)).

Definition recovering : engine demo_world gval :=
  set_boot (MkBoot true true true (900 * Second) (Some {["User"]}))
    (demo_engine demo_boot (demo_value "alice" "1") (demo_value "wrong" "2")).

Lemma reconciled_snapshot_takes_observed_values_witness :
  let e' := markBootstrapReconciled demo_boot "User" recovering in
  (flush demo_boot {["Pass"]} recovering).2 = Some (PreApplyError (ESentinel ErrUnauthenticated)) /\
  e_lastGood e' = demo_cfg "alice" "s3cret" /\
  option_map (fun sn => map rec_Bytes (snap_Records sn)) (dw_file (e_world e')) = Some ["alice"; "wrong"].
Proof.
intros e'. split; [vm_compute; reflexivity|].
destruct (reconciled_snapshot_takes_observed_values demo_boot "User" recovering
  (MkBootstrapConfig "snapshot" "key" 0 None) {["User"]} (demo_field "Pass" "pass" 1 TSecretString onFailKeepLast)
  (demo_value "wrong" "2")) as (Hw & _ & _ & Hl & _).
- reflexivity.
- reflexivity.
- set_solver.
- simpl. set_solver.
- vm_compute. reflexivity.
- split; [exact Hl|]. unfold e'. rewrite Hw. vm_compute. reflexivity.
Defined.
