(* ===== verification/Pins.v ===== *)
(** History and pins (src/history.go, src/reconciler.go [handlePin]): what a
    pinned watcher serves, which versions can be pinned, and what releasing a
    pin publishes. *)

From S2P Require Import Prelude Errors GoStrings Ref Provider Decode GoNumbers Fields Resolve Config DerivedVersion Status Bootstrap EngineState Engine Loop EngineFacts Invariant Load LoadFacts Demo.
Open Scope string_scope.
Open Scope Z_scope.

Section pins.
Context {W T View : Type} `{Env W} `{Config T View}.
Context (P : params W T).
Implicit Types e : engine W T.
Implicit Types l : loop_state W T.

(** * A pinned watcher *)

(** The served configuration and the pin have not moved, and the queue has at
    most been consumed. *)
Definition still_pinned e e' : Prop :=
  e_cfg e' = e_cfg e /\ e_pin e' = e_pin e /\ exists c, e_dispatch e = (c ++ e_dispatch e')%list.

Lemma still_pinned_refl e : still_pinned e e.
Proof. split_and!; [done..|]. by exists []. Qed.

Lemma still_pinned_trans e1 e2 e3 : still_pinned e1 e2 -> still_pinned e2 e3 -> still_pinned e1 e3.
Proof.
intros (A1 & A2 & c1 & A3) (B1 & B2 & c2 & B3). split_and!; [congruence..|].
exists (c1 ++ c2)%list. by rewrite A3, B3, (assoc_L (++)%list).
Qed.

Lemma still_pinned_core e e' : same_core e e' -> still_pinned e e'.
Proof. intros []. split_and!; [done..|]. exists []. by rewrite core_dispatch. Qed.

(** The events of a reader who neither pins another version nor unpins. *)
Definition keeps_pin (ev : loop_event W) : bool :=
  match ev with LControl (pinAt _) | LControl unpin => false | _ => true end.

Hypothesis Hpaths : NoDup (map spec_Path (p_specs P)).
Hypothesis Hdepth : (0 < p_queueDepth P)%nat.

Lemma flush_pinned pending e :
  good P e -> pn_pinned (e_pin e) = true -> still_pinned e (flush P pending e).1.
Proof using Hpaths Hdepth.
intros Hg Hp. destruct (decide (pending = ∅)) as [->|Hne]; [rewrite flush_empty; apply still_pinned_refl|].
destruct (flush_cases P pending e Hpaths Hne) as [(? & Ho & _)|(cand & _ & Hc)].
{ apply still_pinned_core. destruct Ho as [tr ->]. by split. }
destruct Hc as [(_ & ->)|(_ & Hc)]; [split_and!; [done..|]; by exists []|].
destruct (gate P e cand) as [w [err|]]; rewrite Hc; simpl.
- eapply still_pinned_trans; [|apply still_pinned_core, core_emitErr].
  split_and!; [done..|]. by exists [].
- pose proof (apply_candidate_outcome P cand (candidate_fields P e cand)
    (diff_loop (e_observed e) (p_specs P) (e_applied e)).2 w e Hdepth (g_length _ _ Hg))
    as (_ & _ & _ & _ & _ & H6 & H7 & H8 & _).
  rewrite Hp in H7, H8. split_and!; [done..|]. exists []. by rewrite H8.
Qed.

Lemma handlePin_pinned cmd e :
  good P e -> pn_pinned (e_pin e) = true -> keeps_pin (LControl cmd) = true ->
  still_pinned e (handlePin P cmd e).1.
Proof using Hpaths Hdepth.
intros Hg Hp Hk. unfold handlePin. destruct cmd; try done.
- simpl. rewrite Hp. pose proof (g_cfg P e Hg) as Hc. rewrite Hp in Hc.
  split_and!; [done| |by exists []]. simpl. destruct (e_pin e). simpl in Hp. by subst.
- unfold refreshNow. pose proof (core_refresh_loop P 0 (p_specs P) e) as Hr.
  set (e1 := refresh_loop P 0 (p_specs P) e) in *. clearbody e1.
  pose proof (flush_pinned (list_to_set (map spec_Path (p_specs P))) e1) as Hf.
  destruct (flush P _ e1) as [e2 err]. simpl in *.
  eapply still_pinned_trans; [by apply still_pinned_core|].
  eapply still_pinned_trans; [apply Hf|apply still_pinned_core; by split].
  + by eapply good_core.
  + by rewrite (core_pin _ _ Hr).
Qed.

Lemma pinned_step l ev l' reply :
  good P (l_engine l) -> pn_pinned (e_pin (l_engine l)) = true -> keeps_pin ev = true ->
  loop_step P l ev = Some (l', reply) -> still_pinned (l_engine l) (l_engine l').
Proof using Hpaths Hdepth.
intros Hg Hp Hk. unfold loop_step. destruct ev as [|idx pos up| | |cmd|w|].
- case_match; [done|]. intros [= <- _]. apply still_pinned_refl.
- case_match; [done|]. destruct (p_specs P !! idx); [|done]. case_match; [|done]. intros [= <- _].
  apply still_pinned_core, core_handle_update.
- case_match; [done|]. case_match; [|done]. intros [= <- _]. case_match; apply still_pinned_refl.
- case_match; [done|]. destruct (l_timer l); [|done]. case_match; [|done]. intros [= <- _].
  pose proof (flush_pinned (l_pending l) (l_engine l) Hg Hp) as Hf. unfold handle_timer.
  case_match; (eapply still_pinned_trans; [exact Hf|apply still_pinned_core; by split]).
- case_match; [done|]. pose proof (handlePin_pinned cmd (l_engine l) Hg Hp Hk) as Hpin.
  destruct (handlePin P cmd (l_engine l)) as [e r]. by intros [= <- _].
- case_match; [|done]. intros [= <- _]. apply still_pinned_core. by split.
- destruct (e_dispatch (l_engine l)) as [|ch q] eqn:Eq; [done|]. intros [= <- _].
  split_and!; [done..|]. exists [ch]. by rewrite Eq.
Qed.

(** C6. A pin holds: until a caller pins another version or unpins, nothing -
    no update, flush, refresh, error or timer - moves what [Get] serves or the
    pin itself, and no [Change] is queued. *)
Theorem pinned_get_is_frozen l evs l' :
  reachable P l -> pn_pinned (e_pin (l_engine l)) = true -> forallb keeps_pin evs = true ->
  steps P l evs l' ->
  e_cfg (l_engine l') = e_cfg (l_engine l) /\ e_pin (l_engine l') = e_pin (l_engine l) /\
  exists delivered, e_dispatch (l_engine l) = (delivered ++ e_dispatch (l_engine l'))%list.
Proof using Hpaths Hdepth.
intros Hr Hp Hk Hs. apply reachable_good in Hr; [|done|done].
induction Hs as [l|l ev l1 reply evs l2 Hstep Hs IH]; [apply still_pinned_refl|].
simpl in Hk. apply andb_true_iff in Hk as [Hk1 Hk2].
pose proof (pinned_step l ev l1 reply Hr Hp Hk1 Hstep) as Hsp.
eapply still_pinned_trans; [exact Hsp|]. apply IH; [by eapply good_step| |done].
destruct Hsp as (_ & Hpin & _). by rewrite Hpin.
Qed.

(** * The history *)

Lemma findSnapshot_consecutive (history : list (Snapshot T)) version v :
  consecutive history version ->
  match findSnapshot v history with
  | Some s => sn_Version s = v /\ s ∈ history
  | None => ~ (version < v + length history /\ v <= version)%nat
  end.
Proof.
intros Hc. destruct (findSnapshot v history) as [s|] eqn:Ef.
- apply find_some in Ef as [Hin Hv]. bool_norm. by rewrite list_elem_of_In.
- intros [Hlt Hle]. destruct (lookup_lt_is_Some_2 history (v + length history - S version)) as [s Hs]; [lia|].
  pose proof (Hc _ _ Hs) as Hv. eapply find_none in Ef; [|apply list_elem_of_In; by eapply list_elem_of_lookup_2].
  apply bool_decide_eq_false in Ef. lia.
Qed.

(** Which versions can be pinned: [Pin v] succeeds exactly for the versions
    retained, the current one and the [historyN] before it, never for one not
    yet published; it then serves the configuration applied as version [v], and
    otherwise replies ErrNoSuchSnapshot and moves nothing. *)
Theorem pin_serves_retained_version l v :
  reachable P l ->
  let e := l_engine l in
  let retained := (1 <= v <= e_version e /\ e_version e <= v + p_historyN P)%nat in
  let '(e', reply) := handlePin P (pinAt v) e in
  (retained /\ reply = MkReply v None /\
   exists s, s ∈ e_history e /\ sn_Version s = v /\ e_cfg e' = sn_Config s /\
             e_pin e' = MkPin true v (sn_Config s) (sn_applied s) /\
             e_lastGood e' = e_lastGood e /\ e_dispatch e' = e_dispatch e) \/
  (~ retained /\ reply = MkReply 0 (Some (ESentinel ErrNoSuchSnapshot)) /\
   e_cfg e' = e_cfg e /\ e_pin e' = e_pin e /\ e_dispatch e' = e_dispatch e).
Proof using Hpaths Hdepth.
intros Hr. apply reachable_good in Hr; [|done|done]. cbv zeta. unfold handlePin.
pose proof (findSnapshot_consecutive _ _ v (g_versions P _ Hr)) as Hf. pose proof (g_bound P _ Hr) as Hb.
destruct (findSnapshot v (e_history (l_engine l))) as [s|].
- left. destruct Hf as [Hv Hin]. apply list_elem_of_lookup in Hin as [i Hi].
  pose proof (g_versions P _ Hr i s Hi) as Hc. apply lookup_lt_Some in Hi as Hlt.
  split; [lia|]. split; [done|]. exists s. split_and!; try done. by eapply list_elem_of_lookup_2.
- right. split; [lia|]. done.
Qed.

(** * Releasing a pin *)

(** Releasing a pin tells the whole story once: [Get] returns to the last
    good configuration, and a single [Change] from the pinned configuration to
    it is queued whose fields are exactly the specs whose pinned and current
    versions differ, then the derived paths that differ - or no [Change] when
    there is no difference. An unpinned watcher is left as it was. *)
Theorem unpin_publishes_one_change l :
  reachable P l ->
  let e := l_engine l in
  let p := e_pin e in
  let e' := (handlePin P unpin e).1 in
  if pn_pinned p then
    exists sourced,
    let fields := (sourced ++ derivedFieldChanges (e_cfg e) (e_lastGood e) (p_derives P) (p_specs P))%list in
    (forall f, f ∈ sourced <-> exists s, s ∈ p_specs P /\
       go_get (pn_applied p) (spec_Path s) <> go_get (e_applied e) (spec_Path s) /\
       f = MkFieldChange (spec_Path s) (go_get (pn_applied p) (spec_Path s)) (go_get (e_applied e) (spec_Path s))) /\
    pn_pinned (e_pin e') = false /\ e_cfg e' = e_lastGood e /\ e_lastGood e' = e_lastGood e /\
    e_dispatch e' =
      (if bool_decide (fields = []) then e_dispatch e
       else last_n (p_queueDepth P) (e_dispatch e ++ [MkChange (e_cfg e) (e_lastGood e) fields])%list)
  else e_cfg e' = e_cfg e /\ e_pin e' = e_pin e /\ e_dispatch e' = e_dispatch e.
Proof using Hpaths Hdepth.
intros Hr. apply reachable_good in Hr; [|done|done]. cbv zeta. unfold handlePin.
pose proof (g_cfg P _ Hr) as Hc. destruct (pn_pinned (e_pin (l_engine l))) eqn:Ep; [|done].
exists (omap (applied_change (pn_applied (e_pin (l_engine l))) (e_applied (l_engine l))) (p_specs P)).
rewrite Hc. simpl. split.
{ intros f. rewrite list_elem_of_omap. unfold applied_change. split.
  - intros (s & Hs & E). case_bool_decide; simplify_eq. eauto.
  - intros (s & Hs & Hx & ->). exists s. by rewrite bool_decide_eq_false_2. }
unfold diffApplied. set (fields := (omap _ _ ++ _)%list). clearbody fields.
destruct fields as [|f fs]; [done|].
set (ch := MkChange _ _ _). set (e1 := set_cfg _ _).
pose proof (enqueue_dispatch P ch e1 Hdepth (g_length P _ Hr)) as Hq.
destruct (enqueue_frame P (S (S (length (e_dispatch e1)))) ch e1) as (tr & q & Hf).
unfold enqueue in *. rewrite Hf in *. simpl in *. done.
Qed.
End pins.

(** * Witnesses *)

Definition bob_arrives : list (loop_event demo_world) :=
  [update 0 "bob" "2"; wait_until (1001 * Second); LTimer].

Lemma pinned_get_is_frozen_witness :
  runs_to demo [LControl pinCurrent] (fun l => exists l',
    run demo l bob_arrives = Some l' /\ e_version (l_engine l') = 2%nat /\
    e_cfg (l_engine l') = e_cfg (l_engine l)).
Proof.
apply (runs_to_checked _ _ (fun l => pn_pinned (e_pin (l_engine l)) &&
  match run demo l bob_arrives with Some l' => bool_decide (e_version (l_engine l') = 2%nat) | None => false end));
  [vm_compute; reflexivity|].
intros l Hr [Hp Hc]%andb_true_iff. destruct (run demo l bob_arrives) as [l'|] eqn:E; [|done].
exists l'. split; [done|]. split; [by apply bool_decide_eq_true in Hc|].
apply run_steps in E.
by destruct (pinned_get_is_frozen demo (demo_paths _ _) (demo_depth _ _) l bob_arrives l' Hr Hp eq_refl E).
Defined.

Lemma pin_serves_retained_version_witness :
  runs_to demo bob_arrives (fun l =>
    let '(e', reply) := handlePin demo (pinAt 1) (l_engine l) in
    reply = MkReply 1 None /\ exists s, sn_Version s = 1%nat /\ e_cfg e' = sn_Config s).
Proof.
apply (runs_to_checked _ _ (fun l => bool_decide (e_version (l_engine l) = 2%nat)));
  [vm_compute; reflexivity|].
intros l Hr Hv. apply bool_decide_eq_true in Hv.
pose proof (pin_serves_retained_version demo (demo_paths _ _) (demo_depth _ _) l 1 Hr) as Hp.
cbv zeta in Hp. destruct (handlePin demo (pinAt 1) (l_engine l)) as [e' reply].
destruct Hp as [(_ & Hrep & s & _ & Hs & Hcfg & _)|(Hno & _)]; [eauto|].
exfalso. apply Hno. rewrite Hv. simpl. lia.
Defined.

Lemma unpin_publishes_one_change_witness :
  runs_to demo (LControl pinCurrent :: bob_arrives) (fun l =>
    let e' := (handlePin demo unpin (l_engine l)).1 in
    e_cfg e' = e_lastGood (l_engine l) /\ pn_pinned (e_pin e') = false).
Proof.
apply (runs_to_checked _ _ (fun l => pn_pinned (e_pin (l_engine l)))); [vm_compute; reflexivity|].
intros l Hr Hp. cbv zeta.
pose proof (unpin_publishes_one_change demo (demo_paths _ _) (demo_depth _ _) l Hr) as Hu.
cbv zeta in Hu. rewrite Hp in Hu. destruct Hu as (sourced & _ & H1 & H2 & _). by split.
Defined.
