(* ===== verification/Blocks.v ===== *)
(** Blocked fields (src/reconciler.go: [e.blocked], [blockedErr], the onfail
    branches of the loop and of [refreshNow]): a block always has a policy and
    an error behind it, refuses every flush, and re-arms what it stranded when
    it lifts. *)

From S2P Require Import Prelude Errors GoStrings Ref Provider Decode GoNumbers Fields Resolve Config DerivedVersion Status Bootstrap EngineState Engine Loop EngineFacts Invariant Load LoadFacts Demo.
Open Scope string_scope.
Open Scope Z_scope.

Section blocks.
Context {W T View : Type} `{Env W} `{Config T View}.
Context (P : params W T).
Implicit Types e : engine W T.
Implicit Types l : loop_state W T.

(** A path blocked by the policy of its spec, its error recorded. *)
Definition justified e (path : string) : Prop :=
  (exists s, s ∈ p_specs P /\ spec_Path s = path /\ spec_OnFail s = onFailFail) /\
  is_Some (e_lastErr e !! path).

(** Every blocked path outside [X] is justified. *)
Definition blocks_but (X : gset string) e : Prop :=
  forall path, path ∈ e_blocked e -> path ∉ X -> justified e path.

Lemma blocks_inputs X e e' : same_inputs e e' -> blocks_but X e -> blocks_but X e'.
Proof. intros [_ _ I3 I4 _] Hb p Hp HX. unfold justified. rewrite I4. apply Hb; [by rewrite <- I3|done]. Qed.

Lemma blocks_same X e e' :
  e_blocked e' = e_blocked e -> e_lastErr e' = e_lastErr e -> blocks_but X e -> blocks_but X e'.
Proof. intros E1 E2 Hb p Hp HX. unfold justified. rewrite E2. apply Hb; [by rewrite <- E1|done]. Qed.

Lemma blocks_weaken p e : blocks_but ∅ e -> blocks_but {[p]} e.
Proof. intros Hb q Hq _. apply Hb; [done|]. set_solver. Qed.

(** [p] may be unjustified while its error is cleared, until it is unblocked. *)
Lemma blocks_mark_ok p X e : blocks_but X e -> p ∈ X -> blocks_but X (mark_ok p e).
Proof.
intros Hb HpX q Hq HX. destruct (Hb q Hq HX) as [Hs Hr]. split; [done|]. simpl.
rewrite lookup_delete_ne; [done|set_solver].
Qed.

Lemma blocks_clear p e : blocks_but {[p]} e -> blocks_but ∅ (clearBlock p e).
Proof. intros Hb q Hq _. simpl in Hq. apply Hb; set_solver. Qed.

Lemma blocks_report X spec ref err e :
  blocks_but X e -> blocks_but X (reportTerminalError P spec ref err e).
Proof.
intros Hb q Hq HX. unfold reportTerminalError, emitErr in *.
assert (Hq' : q ∈ e_blocked e) by (by repeat case_match).
destruct (Hb q Hq' HX) as [Hs Hr]. split; [done|].
repeat case_match; simpl; (destruct (decide (q = spec_Path spec)) as [->|];
  [by rewrite lookup_insert_eq|by rewrite lookup_insert_ne]).
Qed.

(** The onFailFail branch: the block and the error that justifies it. *)
Lemma blocks_block spec ref err e :
  spec ∈ p_specs P -> spec_OnFail spec = onFailFail -> blocks_but ∅ e ->
  blocks_but ∅ (reportTerminalError P spec ref err (block (spec_Path spec) e)).
Proof.
intros Hs Hf Hb q Hq _. destruct (decide (q = spec_Path spec)) as [->|Hne].
- split; [by exists spec|]. unfold reportTerminalError, emitErr.
  repeat case_match; simpl; by rewrite lookup_insert_eq.
- assert (Hb' : blocks_but {[spec_Path spec]} (block (spec_Path spec) e)).
  { intros q' Hq' HX. simpl in Hq'. apply (Hb q'); set_solver. }
  apply (blocks_report _ _ ref err _ Hb'); [done|set_solver].
Qed.

Lemma blocks_notfound spec err e : blocks_but ∅ e -> spec_Path spec ∉ e_blocked e ->
  blocks_but ∅ (notfound_outcome P spec err e).
Proof.
intros Hb Hn. unfold notfound_outcome. case_match; [|by apply blocks_report].
eapply blocks_inputs; [apply inputs_markBoot|]. intros q Hq _. simpl in Hq.
destruct (Hb q Hq) as [Hs Hr]; [set_solver|]. split; [done|]. simpl. rewrite lookup_delete_ne; [done|].
by intros <-.
Qed.

Lemma blocks_observe X p v e : blocks_but X e -> blocks_but X (observe_value p v e).
Proof. unfold observe_value. case_match; [|done]. by apply blocks_same. Qed.

Lemma observe_blocked p v e : e_blocked (observe_value p v e) = e_blocked e.
Proof. unfold observe_value. by case_match. Qed.

(** * Preservation *)

Lemma blocks_refresh_spec i spec e :
  spec ∈ p_specs P -> blocks_but ∅ e -> blocks_but ∅ (refresh_spec P i spec e).
Proof.
intros Hs Hb. unfold refresh_spec. destruct (seedChainSources P spec (e_world e)) as [w fresh].
set (e1 := set_sources _ _). assert (Hb1 : blocks_but ∅ e1) by (by eapply blocks_same; [..|exact Hb]).
clearbody e1. unfold refresh_outcome. destruct (recomputeWinner _) as [v pos|pos err].
- apply blocks_observe, blocks_clear, blocks_mark_ok; [by apply blocks_weaken|set_solver].
- case_match.
  + apply blocks_notfound; [by apply blocks_clear, blocks_weaken|simpl; set_solver].
  + case_match.
    * by apply blocks_report, blocks_clear, blocks_weaken.
    * apply blocks_observe. intros q Hq _. simpl in Hq. destruct (Hb1 q) as [Hs' Hr]; [set_solver..|].
      split; [done|]. simpl. rewrite lookup_delete_ne; [done|set_solver].
    * by apply blocks_block.
Qed.

Lemma blocks_refresh_loop i specs e :
  (forall s, s ∈ specs -> s ∈ p_specs P) -> blocks_but ∅ e -> blocks_but ∅ (refresh_loop P i specs e).
Proof.
revert i e. induction specs as [|s specs IH]; intros i e Hs Hb; simpl; [done|].
apply IH; [intros; apply Hs; by constructor|]. apply blocks_refresh_spec; [apply Hs; by constructor|done].
Qed.

Lemma blocks_unblock p l :
  blocks_but {[p]} (l_engine l) ->
  blocks_but ∅ (l_engine (unblock P p l)) /\ p ∉ e_blocked (l_engine (unblock P p l)).
Proof.
intros Hb. unfold unblock. case_bool_decide as Hp; simpl.
2:{ split; [|done]. intros q Hq _. apply Hb; [done|]. set_solver. }
assert (Hc : blocks_but ∅ (clearBlock p (l_engine l)) /\ p ∉ e_blocked (clearBlock p (l_engine l))).
{ split; [by apply blocks_clear|simpl; set_solver]. }
set (stranded := List.filter _ _). clearbody stranded. destruct stranded as [|s ss]; [done|].
by rewrite arm_engine, addPending_fold_engine.
Qed.

Lemma blocks_markChanged spec v l :
  blocks_but ∅ (l_engine l) -> blocks_but ∅ (l_engine (markChanged P spec v l)).
Proof.
intros Hb. unfold markChanged. case_match; [|done]. rewrite arm_engine, addPending_engine.
by apply blocks_observe.
Qed.

Lemma blocks_update_outcome spec win l :
  spec ∈ p_specs P -> blocks_but ∅ (l_engine l) -> blocks_but ∅ (l_engine (update_outcome P spec win l)).
Proof.
intros Hs Hb. unfold update_outcome. destruct win as [v pos|pos err].
- apply blocks_markChanged. eapply blocks_inputs; [apply inputs_markBoot|].
  apply blocks_unblock. apply blocks_mark_ok; [by apply blocks_weaken|set_solver].
- case_match; [|case_match].
  + unfold handleChainNotFound. simpl.
    destruct (blocks_unblock (spec_Path spec) l) as [Hu Hn]; [by apply blocks_weaken|].
    by apply blocks_notfound.
  + by apply blocks_report, blocks_clear, blocks_weaken.
  + apply blocks_markChanged. eapply blocks_inputs; [apply inputs_markBoot|].
    destruct (blocks_unblock (spec_Path spec) l) as [Hu Hn]; [by apply blocks_weaken|].
    simpl. intros q Hq _. simpl in Hq. destruct (Hu q Hq) as [Hs' Hr]; [set_solver|]. split; [done|].
    simpl. rewrite lookup_delete_ne; [done|]. by intros <-.
  + by apply blocks_block.
Qed.

Lemma blocks_handlePin cmd e : blocks_but ∅ e -> blocks_but ∅ (handlePin P cmd e).1.
Proof.
intros Hb. unfold handlePin. destruct cmd as [v| | |].
- destruct (findSnapshot v (e_history e)); (eapply blocks_same; [..|exact Hb]); done.
- by eapply blocks_same; [..|exact Hb].
- destruct (pn_pinned (e_pin e)); simpl; [|by eapply blocks_same; [..|exact Hb]].
  set (fields := diffApplied _ _ _ _ _). clearbody fields. destruct fields.
  + by eapply blocks_same; [..|exact Hb].
  + unfold enqueue. set (n := S _). clearbody n.
    eapply blocks_inputs; [apply inputs_publish|].
    eapply blocks_inputs; [apply inputs_enqueue_loop|]. by eapply blocks_same; [..|exact Hb].
- unfold refreshNow. pose proof (inputs_flush P (list_to_set (map spec_Path (p_specs P)))
    (refresh_loop P 0 (p_specs P) e)) as Hi.
  destruct (flush P _ _) as [e1 err]. simpl in *.
  eapply blocks_inputs; [apply inputs_publish|]. eapply blocks_inputs; [exact Hi|].
  by apply blocks_refresh_loop.
Qed.

Lemma blocks_step l ev l' reply :
  blocks_but ∅ (l_engine l) -> loop_step P l ev = Some (l', reply) -> blocks_but ∅ (l_engine l').
Proof.
intros Hb. unfold loop_step. destruct ev as [|idx pos up| | |cmd|w|].
- case_match; [done|]. by intros [= <- _].
- case_match; [done|]. destruct (p_specs P !! idx) as [s|] eqn:Es; [|done]. case_match; [|done].
  intros [= <- _]. unfold handle_update. simpl. eapply blocks_inputs; [apply inputs_publish|].
  apply blocks_update_outcome; [by eapply list_elem_of_lookup_2|]. by eapply blocks_same; [..|exact Hb].
- case_match; [done|]. case_match; [|done]. intros [= <- _]. by case_match.
- case_match; [done|]. destruct (l_timer l); [|done]. case_match; [|done]. intros [= <- _].
  pose proof (blocks_inputs ∅ _ _ (inputs_flush P (l_pending l) (l_engine l)) Hb) as Hf.
  unfold handle_timer. case_match; (eapply blocks_inputs; [apply inputs_publish|exact Hf]).
- case_match; [done|]. pose proof (blocks_handlePin cmd (l_engine l) Hb) as Hp.
  destruct (handlePin P cmd (l_engine l)) as [e r]. by intros [= <- _].
- case_match; [|done]. intros [= <- _]. by eapply blocks_same; [..|exact Hb].
- destruct (e_dispatch (l_engine l)); [done|]. intros [= <- _]. by eapply blocks_same; [..|exact Hb].
Qed.

Lemma blocks_reachable l : reachable P l -> blocks_but ∅ (l_engine l).
Proof.
revert l. apply reachable_ind; [|intros; by eapply blocks_step].
intros decode gcm_open read_file order w w' l Hw p Hp. apply Watch_unblocked in Hw. set_solver.
Qed.

(** * Refusal *)

Lemma blocked_loop_spec specs e :
  (exists s, s ∈ specs /\ spec_Path s ∈ e_blocked e) -> blocks_but ∅ e ->
  exists s err, s ∈ specs /\ spec_Path s ∈ e_blocked e /\
    e_lastErr e !! spec_Path s = Some err /\ blocked_loop specs e = Some err.
Proof.
induction specs as [|s specs IH]; intros (q & Hq & Hb) Hj; [by apply elem_of_nil in Hq|]. simpl.
case_bool_decide as Hs; simpl.
- destruct (Hj _ Hs) as [_ [err Herr]]; [set_solver|]. exists s, err. rewrite Herr.
  split_and!; try done. by constructor.
- destruct IH as (s' & err & ? & ? & ? & ->); [|done|].
  { apply elem_of_cons in Hq as [->|]; [done|by exists q]. }
  exists s', err. split_and!; try done. by constructor.
Qed.

(** A field with onfail:"fail" stops the world: while any field is blocked
    every flush of a non-empty batch is refused with the recorded error of the
    first blocked field of the struct, whose policy is onfail:"fail", and changes
    nothing at all - the fallback message of [blockedErr] is never needed. *)
Theorem blocked_refuses_every_flush l pending :
  reachable P l -> e_blocked (l_engine l) <> ∅ -> pending <> ∅ ->
  exists s err, s ∈ p_specs P /\ spec_Path s ∈ e_blocked (l_engine l) /\
    (exists s', s' ∈ p_specs P /\ spec_Path s' = spec_Path s /\ spec_OnFail s' = onFailFail) /\
    e_lastErr (l_engine l) !! spec_Path s = Some err /\
    flush P pending (l_engine l) = (l_engine l, Some err).
Proof.
intros Hr Hb Hne. apply blocks_reachable in Hr as Hj.
apply set_choose_L in Hb as [p Hp]. destruct (Hj p Hp) as [(s & Hs & Hsp & _) _]; [set_solver|].
destruct (blocked_loop_spec (p_specs P) (l_engine l)) as (s' & err & Hs' & Hb' & He & Hl); [|done|].
{ exists s. by rewrite Hsp. }
exists s', err. destruct (Hj _ Hb') as [Hpol _]; [set_solver|]. split_and!; try done.
unfold flush, buildCandidate, blockedErr. rewrite bool_decide_eq_false_2 by done.
rewrite bool_decide_eq_false_2; [by rewrite Hl|]. intros E. rewrite E in Hp. set_solver.
Qed.

(** * Recovery *)

(** Every spec whose observed version is not applied waits in the batch, and
    the timer is armed. *)
Definition rearmed l : Prop :=
  forall s, s ∈ p_specs P -> unapplied (l_engine l) s = true ->
            spec_Path s ∈ l_pending l /\ is_Some (l_timer l).

Lemma unapplied_ext e e' s :
  e_observed e' !! spec_Path s = e_observed e !! spec_Path s -> e_applied e' = e_applied e ->
  unapplied e' s = unapplied e s.
Proof. intros E1 E2. unfold unapplied. by rewrite E1, E2. Qed.

Lemma rearmed_on_engine f l :
  (forall e, same_inputs e (f e)) -> (forall e, same_core e (f e)) -> rearmed l -> rearmed (on_engine f l).
Proof.
intros Hi Hc Hr s Hs Hu. apply (Hr s Hs). rewrite <- Hu. symmetry. apply unapplied_ext; simpl.
- by rewrite (in_observed _ _ (Hi (l_engine l))).
- apply Hc.
Qed.

Lemma addPending_pending spec l :
  l_pending (addPending P spec l) = {[spec_Path spec]} ∪ l_pending l.
Proof. unfold addPending. by case_match. Qed.

Lemma addPending_fold_pending specs l p :
  p ∈ l_pending (foldl (fun l spec => addPending P spec l) l specs) <->
  p ∈ l_pending l \/ exists s, s ∈ specs /\ spec_Path s = p.
Proof.
revert l. induction specs as [|s specs IH]; intros l; simpl.
{ split; [by left|]. intros [?|(? & Hs & _)]; [done|]. by apply elem_of_nil in Hs. }
rewrite IH, addPending_pending, elem_of_union, elem_of_singleton. split.
- intros [[->|?]|(s' & ? & ?)]; [right|by left|right].
  + exists s. split; [constructor|done].
  + exists s'. split; [by constructor|done].
- intros [?|(s' & [->|?]%elem_of_cons & <-)]; eauto.
Qed.

Lemma unblock_rearms p l : p ∈ e_blocked (l_engine l) -> rearmed (unblock P p l).
Proof.
intros Hp. unfold unblock. rewrite bool_decide_eq_true_2 by done. simpl.
set (e1 := clearBlock p (l_engine l)). set (l1 := on_engine _ l).
destruct (List.filter (unapplied e1) (p_specs P)) as [|s0 ss] eqn:Ef; intros s Hs Hu.
- assert (Hin : In s (List.filter (unapplied e1) (p_specs P)))
    by (apply filter_In; by rewrite <- list_elem_of_In).
  by rewrite Ef in Hin.
- rewrite arm_engine, addPending_fold_engine in Hu.
  assert (Hin : s ∈ s0 :: ss).
  { rewrite <- Ef. apply list_elem_of_In, filter_In. by rewrite <- list_elem_of_In. }
  split; [|by eexists]. simpl l_pending. apply (addPending_fold_pending (s0 :: ss) l1). right. by exists s.
Qed.

Lemma rearmed_markChanged spec v l : rearmed l -> rearmed (markChanged P spec v l).
Proof.
intros Hr. unfold markChanged. destruct (is_new _ _ _) eqn:En; [|done]. intros s Hs Hu.
rewrite arm_engine, addPending_engine in Hu. unfold arm. simpl. rewrite addPending_pending.
split; [|by eexists]. destruct (decide (spec_Path s = spec_Path spec)) as [->|Hne]; [set_solver|].
apply elem_of_union_r, (Hr s Hs). rewrite <- Hu. symmetry. apply unapplied_ext; simpl.
- unfold observe_value. rewrite En. simpl. by rewrite lookup_insert_ne.
- apply core_observe.
Qed.

(** C5. Recovery loses nothing: when an update lifts the block of an
    onfail:"fail" field, every change the block had stranded - any spec whose
    observed version was never applied - is put back into the batch with the
    timer armed, so it is flushed without waiting for another update. *)
Theorem recovery_rearms_stranded_changes idx pos up spec l l' reply :
  p_specs P !! idx = Some spec -> spec_OnFail spec = onFailFail ->
  loop_step P l (LUpdate idx pos up) = Some (l', reply) ->
  spec_Path spec ∈ e_blocked (l_engine l) -> spec_Path spec ∉ e_blocked (l_engine l') ->
  rearmed l'.
Proof.
intros Hspec Hfail. unfold loop_step. case_match; [done|]. rewrite Hspec. case_match; [|done].
intros [= <- _] Hb Hn. unfold handle_update in *. set (l1 := on_engine (recordSourceUpdate _ _ _ _ _) l) in *.
assert (Hb1 : spec_Path spec ∈ e_blocked (l_engine l1)) by done. clearbody l1.
apply rearmed_on_engine; [intros; apply inputs_publish|intros; apply core_publish|].
change (spec_Path spec ∉ e_blocked (l_engine
  (update_outcome P spec (recomputeWinner (sources_of (l_engine l1) idx)) l1))) in Hn.
unfold update_outcome in *. destruct (recomputeWinner _) as [v p|p err].
- apply rearmed_markChanged, rearmed_on_engine;
    [intros; apply inputs_markBoot|intros; apply core_markBoot|]. by apply unblock_rearms.
- case_match.
  + unfold handleChainNotFound.
    apply unblock_rearms in Hb1. intros s Hs Hu. apply (Hb1 s Hs). rewrite <- Hu. symmetry.
    apply unapplied_ext; simpl; [|apply core_notfound].
    unfold notfound_outcome, reportTerminalError, emitErr.
    case_match; [by rewrite (in_observed _ _ (inputs_markBoot P _ _))|]. by repeat case_match.
  + rewrite Hfail in *. exfalso. apply Hn. simpl. unfold reportTerminalError, emitErr.
    repeat case_match; simpl; set_solver.
Qed.
End blocks.

(** * Witnesses *)

Lemma blocked_refuses_every_flush_witness :
  runs_to demo_strict [failing 0 (ESentinel ErrUnavailable)] (fun l => exists err,
    flush demo_strict {["Pass"]} (l_engine l) = (l_engine l, Some err)).
Proof.
apply (runs_to_checked _ _ (fun l => bool_decide (e_blocked (l_engine l) <> ∅))); [vm_compute; reflexivity|].
intros l Hr Hb%bool_decide_eq_true.
destruct (blocked_refuses_every_flush demo_strict l {["Pass"]} Hr Hb) as (s & err & _ & _ & _ & _ & Hf);
  [set_solver|]. by exists err.
Defined.

Lemma recovery_rearms_stranded_changes_witness :
  runs_to demo_strict [failing 0 (ESentinel ErrUnavailable); update 1 "s4cret" "2"] (fun l =>
    exists l' reply, loop_step demo_strict l (update 0 "alice" "1") = Some (l', reply) /\
      rearmed demo_strict l').
Proof.
apply (runs_to_checked _ _ (fun l => bool_decide ("User" ∈ e_blocked (l_engine l)) &&
  match loop_step demo_strict l (update 0 "alice" "1") with
  | Some (l', _) => bool_decide ("User" ∉ e_blocked (l_engine l')) | None => false end));
  [vm_compute; reflexivity|].
intros l Hr [Hb Hc]%andb_true_iff.
destruct (loop_step demo_strict l (update 0 "alice" "1")) as [[l' reply]|] eqn:E; [|done].
apply bool_decide_eq_true in Hb. apply bool_decide_eq_true in Hc.
exists l', reply. split; [done|].
by apply (recovery_rearms_stranded_changes demo_strict 0 0 (MkUpdate (demo_value "alice" "1") None)
  (demo_field "User" "user" 0 TString onFailFail) l l' reply).
Defined.
