(* ===== verification/Debounce.v ===== *)
(** The debounce batch of the reconciler (src/reconciler.go: [debounceFor],
    [addPending], [arm], the timer case of [loop]): a batch always has an armed
    timer, its window is the smallest of its fields', and a stream of updates
    cannot push its deadline back. *)

From S2P Require Import Prelude Errors GoStrings Ref Provider Decode GoNumbers Fields Resolve Config DerivedVersion Status Bootstrap EngineState Engine Loop EngineFacts Invariant Load LoadFacts Demo.
Open Scope string_scope.
Open Scope Z_scope.

(** * The window of a field *)

(** The window of a field is the smallest of the debounce overrides along
    its chain, whatever their order, and the watcher's option when no ref of
    the chain has a readable one. *)
Theorem debounceFor_smallest {W T View} `{Env W} `{Config T View} (P : params W T) spec :
  let overrides := omap (refDebounceOverride (p_fraction P)) (spec_Refs spec) in
  match overrides with
  | [] => debounceFor P spec = p_debounce P
  | _ => debounceFor P spec ∈ overrides /\ Forall (Z.le (debounceFor P spec)) overrides
  end.
Proof.
cbv zeta. unfold debounceFor.
assert (Hl : forall refs best,
  let os := omap (refDebounceOverride (p_fraction P)) refs in
  let d := debounce_loop (p_fraction P) best true refs in
  d ∈ best :: os /\ Forall (Z.le d) (best :: os)).
{ induction refs as [|r refs IH]; intros best; cbn [debounce_loop omap list_omap].
  { split; [constructor|by repeat constructor]. }
  destruct (refDebounceOverride (p_fraction P) r) as [x|]; [|apply IH]. simpl.
  destruct (Z.ltb_spec x best); [destruct (IH x) as [Hin Hall]|destruct (IH best) as [Hin Hall]].
  - split; [by apply elem_of_cons; right|]. constructor; [|done].
    apply Forall_cons in Hall as [? _]. lia.
  - split; [apply elem_of_cons in Hin as [->|?]; [constructor|by do 2 (apply elem_of_cons; right)]|].
    apply Forall_cons in Hall as [? ?]. repeat constructor; [done|lia|done]. }
induction (spec_Refs spec) as [|r refs IH]; cbn [debounce_loop omap list_omap]; [done|].
destruct (refDebounceOverride (p_fraction P) r) as [x|]; [|exact IH]. simpl. apply Hl.
Qed.

Section debounce.
Context {W T View : Type} `{Env W} `{Config T View}.
Context (P : params W T).
Implicit Types e : engine W T.
Implicit Types l : loop_state W T.

(** * Clocks that do not go back *)

(** What the standard library documents of [time.Now]: successive readings do
    not decrease, over whatever a provider, a hook or a file write does. *)
Record monotone_clock : Prop := {
  mono_resolve : forall scheme p r w,
    p_provider P scheme = Some p -> now w <= now (prov_Resolve p r w).1;
  mono_gate : forall hook w ch, p_preApply P = Some hook -> now w <= now (hook w ch).1;
  mono_write : forall s w, now w <= now (p_writeSnapshot P s w).1;
}.

Hypothesis Hclock : monotone_clock.

Lemma later_emitErr err e : clock_now (emitErr P err e) = clock_now e.
Proof. unfold emitErr. by case_match. Qed.

Lemma later_persist e : clock_now e <= clock_now (persistBootstrap P e).
Proof using Hclock.
unfold persistBootstrap. destruct (p_bootstrap P); [|done].
pose proof (mono_write Hclock (snapshot_now P e) (e_world e)) as Hw.
destruct (p_writeSnapshot P (snapshot_now P e) (e_world e)) as [w [err|]]; simpl in Hw.
- by rewrite later_emitErr.
- by case_match.
Qed.

Lemma later_markBoot p e : clock_now e <= clock_now (markBootstrapReconciled P p e).
Proof using Hclock.
unfold markBootstrapReconciled. destruct (b_unconfirmed (e_boot e)) as [u|]; [|done].
case_bool_decide; [|done].
exact (later_persist (set_boot (MkBoot (b_present (e_boot e)) (b_restored (e_boot e)) false
  (b_writtenAt (e_boot e)) None) e)).
Qed.

Lemma later_report spec ref err e : clock_now (reportTerminalError P spec ref err e) = clock_now e.
Proof. unfold reportTerminalError. case_match; by rewrite later_emitErr. Qed.

Lemma later_notfound spec err e : clock_now e <= clock_now (notfound_outcome P spec err e).
Proof using Hclock.
unfold notfound_outcome. case_match; [|by rewrite later_report].
exact (later_markBoot _ (set_lastErr (delete (spec_Path spec) (e_lastErr e)) e)).
Qed.

Lemma later_observe p v e : clock_now (observe_value p v e) = clock_now e.
Proof. unfold observe_value. by case_match. Qed.

Lemma later_refreshes fields e : clock_now (record_refreshes P fields e) = clock_now e.
Proof.
unfold record_refreshes. revert e. induction fields as [|f fields IH]; intros e; simpl; [done|].
rewrite IH. by case_match.
Qed.

Lemma later_enqueue ch e : clock_now (enqueue P ch e) = clock_now e.
Proof.
unfold enqueue. destruct (enqueue_frame P (S (S (length (e_dispatch e)))) ch e) as (tr & q & ->). done.
Qed.

Lemma later_apply cand fields e : clock_now e <= clock_now (apply_candidate P cand fields e).
Proof using Hclock.
unfold apply_candidate. set (e1 := recordSnapshot P cand fields _).
assert (Hl : clock_now e <= clock_now (persistBootstrap P e1)) by apply (later_persist e1).
case_match; unfold publish; simpl.
- change (clock_now e <= clock_now (record_refreshes P fields (persistBootstrap P e1))).
  by rewrite later_refreshes.
- set (e2 := record_refreshes _ _ _). set (ch := MkChange _ _ _).
  change (clock_now e <= clock_now (enqueue P ch e2)). rewrite later_enqueue. unfold e2.
  by rewrite later_refreshes.
Qed.

Lemma later_build e : clock_now (buildCandidate P e).1 = clock_now e.
Proof.
unfold buildCandidate. case_match; [done|].
destruct (decode_loop _ _ _); [|by apply later_emitErr].
destruct (run_derives _ _); [|by simpl; rewrite later_emitErr].
destruct (p_validate P _); [by simpl; rewrite later_emitErr|]. by destruct (diff_loop _ _ _).
Qed.

Lemma later_flush pending e : clock_now e <= clock_now (flush P pending e).1.
Proof using Hclock.
unfold flush. case_bool_decide; [done|]. pose proof (later_build e) as Hb.
destruct (buildCandidate P e) as [e1 [err|cand fields]]; simpl in Hb; [simpl; lia|].
destruct fields as [|f fs]; [simpl; lia|].
assert (Hw : clock_now e1 <= now (runPreApply P (MkChange (e_lastGood e1) cand (f :: fs)) (e_world e1)).1).
{ unfold runPreApply. destruct (p_preApply P) as [hook|] eqn:Ep; [|done].
  pose proof (mono_gate Hclock hook (e_world e1) (MkChange (e_lastGood e1) cand (f :: fs)) Ep) as Hm.
  destruct (hook _ _) as [w [[?|] [?|]]]; done. }
destruct (runPreApply P _ _) as [w [err|]]; simpl in Hw |- *.
- rewrite later_emitErr. unfold clock_now in *. simpl. lia.
- pose proof (later_apply cand (f :: fs) (set_world w e1)) as Ha. unfold clock_now in *. simpl in *. lia.
Qed.

Lemma later_seed sensitive refs w : now w <= now (seed_loop P sensitive refs w).1.
Proof using Hclock.
revert w. induction refs as [|r refs IH]; intros w; simpl; [done|].
destruct (p_provider P (ref_Scheme r)) as [p|] eqn:Ep; [|done].
pose proof (mono_resolve Hclock _ p r w Ep) as Hm. destruct (prov_Resolve p r w) as [w1 got]. simpl in Hm.
destruct (got ≫= applyDecode (p_gzip P) r) as [v|err]; [done|]. case_match; [|done].
specialize (IH w1). destruct (seed_loop P sensitive refs w1). simpl in *. lia.
Qed.

Lemma later_refresh_spec i spec e : clock_now e <= clock_now (refresh_spec P i spec e).
Proof using Hclock.
unfold refresh_spec. pose proof (later_seed (spec_Sensitive spec) (spec_Refs spec) (e_world e)) as Hs.
unfold seedChainSources. destruct (seed_loop P _ _ _) as [w fresh]. simpl in Hs.
set (e1 := set_sources _ _). assert (H1 : clock_now e <= clock_now e1) by done. clearbody e1.
etransitivity; [exact H1|]. unfold refresh_outcome. destruct (recomputeWinner _).
- by rewrite later_observe.
- case_match; [|case_match].
  + exact (later_notfound spec err (clearBlock (spec_Path spec) e1)).
  + by rewrite later_report.
  + by rewrite later_observe.
  + by rewrite later_report.
Qed.

Lemma later_refresh_loop i specs e : clock_now e <= clock_now (refresh_loop P i specs e).
Proof using Hclock.
revert i e. induction specs as [|s specs IH]; intros i e; simpl; [done|].
etransitivity; [apply later_refresh_spec|apply IH].
Qed.

Lemma later_handlePin cmd e : clock_now e <= clock_now (handlePin P cmd e).1.
Proof using Hclock.
unfold handlePin. destruct cmd as [v| | |].
- by destruct (findSnapshot v (e_history e)).
- done.
- destruct (pn_pinned (e_pin e)); [|done]. simpl. set (fields := diffApplied _ _ _ _ _). clearbody fields.
  destruct fields; [done|]. unfold publish.
  match goal with |- context [enqueue P ?ch ?e1] => pose proof (later_enqueue ch e1) as Hq end.
  unfold clock_now in *. simpl in *. by rewrite Hq.
- unfold refreshNow. pose proof (later_refresh_loop 0 (p_specs P) e) as Hr.
  pose proof (later_flush (list_to_set (map spec_Path (p_specs P))) (refresh_loop P 0 (p_specs P) e)) as Hf.
  destruct (flush P _ _) as [e1 err]. unfold clock_now in *. simpl in *. lia.
Qed.

(** * The batch *)

(** The batch was opened in the past, and no window in it is larger than that
    of any of its fields. *)
Definition batch_ok l : Prop :=
  (l_pending l <> ∅ -> l_pendingSince l <= clock_now (l_engine l)) /\
  (forall p, p ∈ l_pending l ->
     exists s, s ∈ p_specs P /\ spec_Path s = p /\ l_window l <= debounceFor P s).

Record timed l : Prop := {
  tm_batch : batch_ok l;
  tm_timer : l_pending l = ∅ <-> l_timer l = None;
  tm_deadline : forall t, l_timer l = Some t ->
    t <= Z.max (l_pendingSince l + l_window l) (clock_now (l_engine l));
}.

(** The batch of [l] lives on in [l'] under no later a deadline. *)
Definition extends l l' : Prop :=
  l_pending l <> ∅ ->
  l_pendingSince l' = l_pendingSince l /\ l_window l' <= l_window l /\ l_pending l ⊆ l_pending l'.

Lemma extends_refl l : extends l l.
Proof. intros _. split_and!; [done|lia|done]. Qed.

Lemma extends_trans l1 l2 l3 : extends l1 l2 -> extends l2 l3 -> extends l1 l3.
Proof.
intros H1 H2 Hne. destruct (H1 Hne) as (A1 & A2 & A3). destruct (H2) as (B1 & B2 & B3); [set_solver|].
split_and!; [congruence|lia|set_solver].
Qed.

Lemma timed_on_engine f l :
  clock_now (l_engine l) <= clock_now (f (l_engine l)) -> timed l -> timed (on_engine f l).
Proof.
intros Hf [[Hs Hw] Ht Hd]. split; [split|done|]; simpl.
- intros Hne. specialize (Hs Hne). lia.
- done.
- intros t Ht'. specialize (Hd t Ht'). lia.
Qed.

Lemma extends_on_engine f l : extends l (on_engine f l).
Proof. intros _. split_and!; simpl; [done|lia|done]. Qed.

Lemma extends_same l l' :
  l_pendingSince l' = l_pendingSince l -> l_window l' = l_window l -> l_pending l' = l_pending l ->
  extends l l'.
Proof. intros E1 E2 E3 _. rewrite E1, E2, E3. split_and!; [done|lia|done]. Qed.

Lemma timed_arm l : batch_ok l -> l_pending l <> ∅ -> timed (arm l).
Proof.
intros [Hs Hw] Hne. split; [by split|by split|]. unfold arm. simpl. intros t [= <-].
unfold Sub, min_int64, max_int64. case_match; lia.
Qed.

Lemma extends_arm l : extends l (arm l).
Proof. intros _. split_and!; simpl; [done|lia|done]. Qed.

Lemma addPending_fields spec l :
  l_pendingSince (addPending P spec l) =
    (if bool_decide (l_pending l = ∅) then clock_now (l_engine l) else l_pendingSince l) /\
  l_window (addPending P spec l) =
    (if bool_decide (l_pending l = ∅) then debounceFor P spec
     else Z.min (debounceFor P spec) (l_window l)) /\
  l_pending (addPending P spec l) = {[spec_Path spec]} ∪ l_pending l.
Proof.
unfold addPending. case_bool_decide; simpl; [done|]. split_and!; try done. by case_match; lia.
Qed.

Lemma batch_addPending spec l : spec ∈ p_specs P -> batch_ok l -> batch_ok (addPending P spec l).
Proof.
intros Hspec [Hs Hw]. destruct (addPending_fields spec l) as (E1 & E2 & E3).
split; rewrite ?E1, ?E2, ?E3, ?addPending_engine.
- intros _. case_bool_decide; [done|]. auto.
- intros p [Hp%elem_of_singleton|Hp]%elem_of_union.
  + exists spec. split_and!; [done|done|]. case_bool_decide; lia.
  + rewrite bool_decide_eq_false_2 by set_solver. destruct (Hw p Hp) as (s & ? & ? & ?).
    exists s. split_and!; [done|done|lia].
Qed.

Lemma extends_addPending spec l : extends l (addPending P spec l).
Proof.
intros Hne. destruct (addPending_fields spec l) as (-> & -> & ->).
rewrite bool_decide_eq_false_2 by done. split_and!; [done|lia|set_solver].
Qed.

Lemma addPending_nonempty spec l : l_pending (addPending P spec l) <> ∅.
Proof. destruct (addPending_fields spec l) as (_ & _ & ->). set_solver. Qed.

Lemma timed_markChanged spec v l :
  spec ∈ p_specs P -> timed l -> timed (markChanged P spec v l) /\ extends l (markChanged P spec v l).
Proof.
intros Hs Ht. unfold markChanged. case_match; [|split; [done|apply extends_refl]].
set (l1 := on_engine _ l).
assert (Tl1 : timed l1) by (apply timed_on_engine; [by rewrite later_observe|done]).
split.
- apply timed_arm; [apply batch_addPending; [done|apply Tl1]|apply addPending_nonempty].
- eapply extends_trans; [apply (extends_on_engine (observe_value (spec_Path spec) v))|].
  eapply extends_trans; [apply extends_addPending|apply extends_arm].
Qed.

Lemma fold_addPending specs l :
  (forall s, s ∈ specs -> s ∈ p_specs P) -> batch_ok l ->
  batch_ok (foldl (fun l spec => addPending P spec l) l specs) /\
  extends l (foldl (fun l spec => addPending P spec l) l specs).
Proof.
revert l. induction specs as [|s specs IH]; intros l Hs Hb; simpl; [split; [done|apply extends_refl]|].
destruct (IH (addPending P s l)) as [IH1 IH2].
- intros. apply Hs. by constructor.
- apply batch_addPending; [apply Hs; by constructor|done].
- split; [done|]. eapply extends_trans; [apply extends_addPending|done].
Qed.

Lemma timed_unblock p l : timed l -> timed (unblock P p l) /\ extends l (unblock P p l).
Proof.
intros Ht. unfold unblock. case_match; [split; [done|apply extends_refl]|].
set (l1 := on_engine _ l). assert (Tl1 : timed l1) by (by apply timed_on_engine).
set (e1 := clearBlock p (l_engine l)). change (l_engine l1) with e1.
assert (Hin : forall s, s ∈ List.filter (unapplied e1) (p_specs P) -> s ∈ p_specs P).
{ intros s Hs. apply list_elem_of_In, filter_In in Hs as [Hs _]. by apply list_elem_of_In. }
destruct (List.filter (unapplied e1) (p_specs P)) as [|s0 ss].
{ split; [done|]. apply extends_on_engine. }
destruct (fold_addPending (s0 :: ss) l1 Hin (tm_batch _ Tl1)) as [Hb He]. split.
- apply timed_arm; [done|]. simpl.
  assert (Hsub : forall ss l2, l_pending l2 <> ∅ ->
    l_pending (foldl (fun l spec => addPending P spec l) l2 ss) <> ∅).
  { induction ss0 as [|s ss0 IH]; intros l2 Hne; simpl; [done|]. apply IH, addPending_nonempty. }
  apply Hsub, addPending_nonempty.
- eapply extends_trans; [apply (extends_on_engine (clearBlock p))|].
  eapply extends_trans; [exact He|apply extends_arm].
Qed.

Lemma timed_update_outcome spec win l :
  spec ∈ p_specs P -> timed l ->
  timed (update_outcome P spec win l) /\ extends l (update_outcome P spec win l).
Proof using Hclock.
intros Hs Ht.
assert (Hon : forall f l, timed l -> (forall e, clock_now e <= clock_now (f e)) ->
  timed (on_engine f l) /\ extends l (on_engine f l)).
{ intros f l1 Hl1 Hf. split; [apply timed_on_engine; [apply Hf|done]|apply extends_on_engine]. }
unfold update_outcome. destruct win as [v pos|pos err]; [|case_match; [|case_match]].
- destruct (Hon (mark_ok (spec_Path spec)) l Ht) as [T1 E1]; [done|].
  destruct (timed_unblock (spec_Path spec) _ T1) as [T2 E2].
  destruct (Hon (markBootstrapReconciled P (spec_Path spec)) _ T2) as [T3 E3]; [apply later_markBoot|].
  destruct (timed_markChanged spec v _ Hs T3) as [T4 E4].
  split; [done|]. repeat (eapply extends_trans; [eassumption|]). apply extends_refl.
- unfold handleChainNotFound. destruct (timed_unblock (spec_Path spec) _ Ht) as [T1 E1].
  destruct (Hon (notfound_outcome P spec err) _ T1) as [T2 E2]; [apply later_notfound|].
  split; [done|]. by eapply extends_trans.
- destruct (Hon (clearBlock (spec_Path spec)) l Ht) as [T1 E1]; [done|].
  destruct (Hon (reportTerminalError P spec (winner_ref spec (Lost pos err)) err) _ T1) as [T2 E2];
    [intros; by rewrite later_report|].
  split; [done|]. by eapply extends_trans.
- destruct (timed_unblock (spec_Path spec) _ Ht) as [T1 E1].
  destruct (Hon (mark_ok (spec_Path spec)) _ T1) as [T2 E2]; [done|].
  destruct (Hon (markBootstrapReconciled P (spec_Path spec)) _ T2) as [T3 E3]; [apply later_markBoot|].
  destruct (timed_markChanged spec (default_value spec) _ Hs T3) as [T4 E4].
  split; [done|]. repeat (eapply extends_trans; [eassumption|]). apply extends_refl.
- destruct (Hon (block (spec_Path spec)) l Ht) as [T1 E1]; [done|].
  destruct (Hon (reportTerminalError P spec (winner_ref spec (Lost pos err)) err) _ T1) as [T2 E2];
    [intros; by rewrite later_report|].
  split; [done|]. by eapply extends_trans.
Qed.

Lemma timed_update idx pos up spec l :
  spec ∈ p_specs P -> timed l ->
  timed (handle_update P idx pos up spec l) /\ extends l (handle_update P idx pos up spec l).
Proof using Hclock.
intros Hs Ht. unfold handle_update. set (l1 := on_engine _ l).
assert (T1 : timed l1) by (by apply timed_on_engine).
destruct (timed_update_outcome spec (recomputeWinner (sources_of (l_engine l1) idx)) l1 Hs T1) as [T2 E2].
split; [by apply (timed_on_engine (publish P))|].
eapply extends_trans; [apply (extends_on_engine (recordSourceUpdate P idx pos spec up))|].
eapply extends_trans; [exact E2|apply (extends_on_engine (publish P))].
Qed.

(** A step keeps the timing of a running loop; every step but the timer's keeps
    the batch and its deadline. *)
Lemma timed_step l ev l' reply :
  (l_running l = true -> timed l) -> loop_step P l ev = Some (l', reply) ->
  (l_running l' = true -> timed l') /\ (ev <> LTimer -> l_running l = true -> extends l l').
Proof using Hclock.
intros Ht. unfold loop_step. destruct ev as [|idx pos up| | |cmd|w|].
- case_match; [done|]. intros [= <- _]. split; [done|]. intros _ _. by apply extends_same.
- destruct (l_running l) eqn:Er; [|done]. simpl. specialize (Ht eq_refl).
  destruct (p_specs P !! idx) as [s|] eqn:Es; [|done]. case_match; [|done]. intros [= <- _].
  apply list_elem_of_lookup_2 in Es. destruct (timed_update idx pos up s l Es Ht). by split.
- destruct (l_running l) eqn:Er; [|done]. simpl. specialize (Ht eq_refl). destruct (l_open l); [|done].
  intros [= <- _]. split; [|intros _ _; by case_bool_decide; apply extends_same].
  case_bool_decide; [done|]. intros _. by destruct Ht as [[] ? ?]; split; [split| |].
- destruct (l_running l) eqn:Er; [|done]. simpl. specialize (Ht eq_refl).
  destruct (l_timer l); [|done]. case_match; [|done]. intros [= <- _]. split; [|done].
  unfold handle_timer. case_match; [|done]. intros _.
  split; [split|done|done]; simpl; [done|]. intros p Hp. by apply not_elem_of_empty in Hp.
- destruct (l_running l) eqn:Er; [|done]. simpl. specialize (Ht eq_refl).
  pose proof (later_handlePin cmd (l_engine l)) as Hl.
  destruct (handlePin P cmd (l_engine l)) as [e r]. intros [= <- _].
  split; [|intros _ _; by apply extends_same]. intros _. by apply timed_on_engine.
- case_match eqn:Ew; [|done]. intros [= <- _]. split; [|intros _ _; by apply extends_same].
  intros Hr. apply timed_on_engine; [|by apply Ht]. apply Z.leb_le in Ew. exact Ew.
- destruct (e_dispatch (l_engine l)); [done|]. intros [= <- _].
  split; [|intros _ _; by apply extends_same]. intros Hr. apply timed_on_engine; [done|by apply Ht].
Qed.

Lemma timed_reachable l : reachable P l -> l_running l = true -> timed l.
Proof using Hclock.
revert l. refine (reachable_ind P _ _ _); [|intros; by eapply timed_step].
intros decode gcm_open read_file order w w' l Hw _.
unfold Watch in Hw. destruct (loadValue P decode gcm_open read_file order w) as [[w1 effs] [[[cfg rs] origin]|]]; [|done].
injection Hw as _ <-. split; [split|done|done]; simpl; [done|]. intros p Hp. by apply not_elem_of_empty in Hp.
Qed.

(** C17. Every batch is flushed on time. While the reconciler runs, the timer is
    armed exactly when the batch is not empty; the window of the batch is within
    the debounce of each field in it, and counts from the first change of the
    batch; once it has passed, the timer's step is enabled, and that step
    flushes the whole batch and leaves none. *)
Theorem batch_is_flushed_on_time l :
  reachable P l -> l_running l = true ->
  (l_pending l = ∅ <-> l_timer l = None) /\
  (l_pending l <> ∅ ->
     l_pendingSince l <= clock_now (l_engine l) /\
     (forall p, p ∈ l_pending l ->
        exists s, s ∈ p_specs P /\ spec_Path s = p /\ l_window l <= debounceFor P s) /\
     (l_pendingSince l + l_window l <= clock_now (l_engine l) ->
        exists l', loop_step P l LTimer = Some (l', None) /\
          l_engine l' = publish P (flush P (l_pending l) (l_engine l)).1 /\
          l_pending l' = ∅ /\ l_timer l' = None)).
Proof using Hclock.
intros Hr Hrun. destruct (timed_reachable l Hr Hrun) as [[Hs Hw] Ht Hd]. split; [done|].
intros Hne. split_and!; [auto|done|]. intros Hdue. exists (handle_timer P l).
destruct (l_timer l) as [t|] eqn:Et; [|by destruct Hne; apply Ht].
specialize (Hd t eq_refl). unfold loop_step. rewrite Hrun, Et. simpl.
rewrite (proj2 (Z.leb_le _ _)) by lia. split; [done|]. unfold handle_timer. by case_match.
Qed.

(** Updates cannot starve a flush: whatever happens before the timer fires
    - any number of updates, controls, deliveries - the batch that is open keeps
    its fields and its start, and its deadline never moves back. *)
Theorem deadline_never_moves_back l evs l' :
  reachable P l -> l_pending l <> ∅ -> l_running l' = true ->
  Forall (fun ev => ev <> LTimer) evs -> steps P l evs l' ->
  l_pendingSince l' = l_pendingSince l /\ l_pending l ⊆ l_pending l' /\
  l_pendingSince l' + l_window l' <= l_pendingSince l + l_window l.
Proof using Hclock.
intros Hr Hne Hrun Hev Hs.
assert (He : extends l l').
{ pose proof (timed_reachable l Hr) as Ht. clear Hr Hne.
  induction Hs as [|l ev l1 reply evs l2 Hstep Hs IH]; [apply extends_refl|].
  apply Forall_cons in Hev as [Hev1 Hev2]. destruct (timed_step l ev l1 reply Ht Hstep) as [Ht1 He1].
  destruct (l_running l) eqn:Er.
  - eapply extends_trans; [by apply He1|by apply IH].
  - exfalso. apply stopped_stays in Hs; [congruence|]. by eapply stopped_step. }
destruct (He Hne) as (E1 & E2 & E3). split_and!; [done|done|lia].
Qed.
End debounce.

(** * Witnesses *)

Lemma demo_clock onfail boot : monotone_clock (demo_params onfail boot).
Proof.
split.
- intros scheme p r w. simpl. case_bool_decide; [|done]. by intros [= <-].
- intros hook w ch. by intros [= <-].
- done.
Qed.

Lemma batch_is_flushed_on_time_witness :
  runs_to demo [update 0 "bob" "2"; wait_until (1001 * Second)] (fun l =>
    exists l', loop_step demo l LTimer = Some (l', None) /\ l_pending l' = ∅).
Proof.
apply (runs_to_checked _ _ (fun l => l_running l && bool_decide (l_pending l <> ∅) &&
  (l_pendingSince l + l_window l <=? clock_now (l_engine l)))); [vm_compute; reflexivity|].
intros l Hr [[Hrun Hne]%andb_true_iff Hdue]%andb_true_iff. apply bool_decide_eq_true in Hne.
apply Z.leb_le in Hdue.
destruct (batch_is_flushed_on_time demo (demo_clock _ _) l Hr Hrun) as [_ Hb].
destruct (Hb Hne) as (_ & _ & Hflush). destruct (Hflush Hdue) as (l' & Hl & _ & Hp & _). by exists l'.
Defined.

Lemma deadline_never_moves_back_witness :
  runs_to demo [update 0 "bob" "2"] (fun l => exists l',
    run demo l [wait_until (1000 * Second + 100); update 1 "s4cret" "2"] = Some l' /\
    l_pendingSince l' = l_pendingSince l /\ l_pending l ⊆ l_pending l').
Proof.
apply (runs_to_checked _ _ (fun l => bool_decide (l_pending l <> ∅) &&
  match run demo l [wait_until (1000 * Second + 100); update 1 "s4cret" "2"] with
  | Some l' => l_running l' | None => false end)); [vm_compute; reflexivity|].
intros l Hr [Hne Hrun]%andb_true_iff. apply bool_decide_eq_true in Hne.
destruct (run demo l _) as [l'|] eqn:E; [|done]. exists l'. split; [done|]. apply run_steps in E.
assert (Hev : Forall (fun ev => ev <> LTimer)
  [wait_until (1000 * Second + 100); update 1 "s4cret" "2"]) by by repeat constructor.
destruct (deadline_never_moves_back demo (demo_clock _ _) l _ l' Hr Hne Hrun Hev E) as (H1 & H2 & _).
by split.
Defined.
