(* ===== verification/Quiescence.v ===== *)
(** Termination (src/reconciler.go [loop], [enqueue]): left alone, the
    goroutine and the dispatcher come to rest after a bounded number of steps,
    and a goroutine whose sources have all ended returns with its last batch. *)

From S2P Require Import Prelude Errors GoStrings Ref Provider Decode GoNumbers Fields Resolve Config DerivedVersion Status Bootstrap EngineState Engine Loop EngineFacts Invariant Load LoadFacts Demo Debounce.
Open Scope string_scope.
Open Scope Z_scope.

Section quiescence.
Context {W T View : Type} `{Env W} `{Config T View}.
Context (P : params W T).
Implicit Types e : engine W T.
Implicit Types l : loop_state W T.

(** What the watcher does by itself: flush a due batch, deliver a change. *)
Definition internal (ev : loop_event W) : bool :=
  match ev with LTimer | LDispatch => true | _ => false end.

(** What is left to do: a flush, which may queue a change, counts for two. *)
Definition budget l : nat :=
  ((match l_timer l with Some _ => 2 | None => 0 end) + length (e_dispatch (l_engine l)))%nat.

(** * The sources that are still open *)

Lemma open_fold_addPending specs l :
  l_open (foldl (fun l spec => addPending P spec l) l specs) = l_open l.
Proof.
revert l. induction specs as [|s specs IH]; intros l; simpl; [done|]. rewrite IH.
unfold addPending. by case_match.
Qed.

Lemma open_unblock path l : l_open (unblock P path l) = l_open l.
Proof.
unfold unblock. case_match; [done|]. set (stranded := List.filter _ _). clearbody stranded.
destruct stranded as [|s ss]; [done|]. unfold arm. simpl. rewrite open_fold_addPending.
unfold addPending. by case_match.
Qed.

Lemma open_markChanged spec v l : l_open (markChanged P spec v l) = l_open l.
Proof. unfold markChanged, arm, addPending. case_match; [|done]. simpl. by case_match. Qed.

Lemma open_update idx pos up spec l : l_open (handle_update P idx pos up spec l) = l_open l.
Proof.
unfold handle_update, update_outcome, handleChainNotFound. simpl.
repeat case_match; simpl; rewrite ?open_markChanged; simpl; rewrite ?open_unblock; done.
Qed.

(** A goroutine that outlives its sources has a batch to flush. *)
Definition draining l : Prop := l_running l = true -> l_open l = false -> l_pending l <> ∅.

Lemma draining_step l ev l' reply : draining l -> loop_step P l ev = Some (l', reply) -> draining l'.
Proof.
unfold draining. intros Hl. unfold loop_step. destruct ev as [|idx pos up| | |cmd|w|].
- case_match; [done|]. by intros [= <- _].
- case_match; [done|]. destruct (p_specs P !! idx); [|done].
  destruct (l_open l) eqn:Eo; [|done]. case_match; [|done]. intros [= <- _] _.
  rewrite open_update. congruence.
- case_match; [done|]. destruct (l_open l); [|done]. intros [= <- _]. by case_bool_decide.
- case_match; [done|]. destruct (l_timer l); [|done]. case_match; [|done]. intros [= <- _].
  unfold handle_timer. simpl. destruct (l_open l) eqn:Eo; [|done]. simpl. congruence.
- case_match; [done|]. destruct (handlePin P cmd (l_engine l)) as [e r]. by intros [= <- _].
- case_match; [|done]. by intros [= <- _].
- destruct (e_dispatch (l_engine l)); [done|]. by intros [= <- _].
Qed.

Lemma reachable_draining l : reachable P l -> draining l.
Proof.
revert l. apply (reachable_ind P draining); [|intros; by eapply draining_step].
intros decode gcm_open read_file order w w' l Hw. unfold Watch in Hw.
destruct (loadValue P decode gcm_open read_file order w) as [[w1 effs] [[[cfg rs] origin]|]]; [|done].
by injection Hw as _ <-.
Qed.

(** * The bound *)

Hypothesis Hpaths : NoDup (map spec_Path (p_specs P)).
Hypothesis Hdepth : (0 < p_queueDepth P)%nat.

(** A flush queues at most one change. *)
Lemma flush_queue pending e :
  good P e -> (length (e_dispatch (flush P pending e).1) <= S (length (e_dispatch e)))%nat.
Proof using Hpaths Hdepth.
intros Hg. destruct (decide (pending = ∅)) as [->|Hne]; [rewrite flush_empty; simpl; lia|].
destruct (flush_cases P pending e Hpaths Hne) as [(? & [tr ->] & _)|(cand & _ & [(_ & ->)|(_ & Hc)])];
  [simpl; lia|simpl; lia|].
destruct (gate P e cand) as [w [err|]]; rewrite Hc; cbn [fst].
- rewrite (core_dispatch _ _ (core_emitErr P err _)). simpl. lia.
- destruct (apply_candidate_outcome P cand (candidate_fields P e cand)
    (diff_loop (e_observed e) (p_specs P) (e_applied e)).2 w e Hdepth (g_length _ _ Hg))
    as (_ & _ & _ & _ & _ & _ & _ & -> & _).
  case_match; [lia|]. rewrite last_n_length, length_app. simpl. lia.
Qed.

Lemma budget_step l ev l' reply :
  good P (l_engine l) -> internal ev = true -> loop_step P l ev = Some (l', reply) ->
  (budget l' < budget l)%nat.
Proof using Hpaths Hdepth.
intros Hg Hi. unfold loop_step, budget. destruct ev; try done.
- case_match; [done|]. destruct (l_timer l); [|done]. case_match; [|done]. intros [= <- _].
  pose proof (flush_queue (l_pending l) (l_engine l) Hg). 
  assert (Ht : l_timer (handle_timer P l) = None /\
    l_engine (handle_timer P l) = publish P (flush P (l_pending l) (l_engine l)).1).
  { unfold handle_timer. by case_match. }
  destruct Ht as [-> ->]. simpl. lia.
- destruct (e_dispatch (l_engine l)) eqn:Eq; [done|]. intros [= <- _]. simpl. lia.
Qed.

Lemma budget_steps l evs l' :
  good P (l_engine l) -> forallb internal evs = true -> steps P l evs l' ->
  (length evs + budget l' <= budget l)%nat.
Proof using Hpaths Hdepth.
intros Hg Hi Hs. induction Hs as [l|l ev l1 reply evs l2 Hstep Hs IH]; simpl in *; [lia|].
apply andb_true_iff in Hi as [Hi1 Hi2]. pose proof (budget_step _ _ _ _ Hg Hi1 Hstep).
specialize (IH (good_step P Hpaths Hdepth _ _ _ _ Hg Hstep) Hi2). lia.
Qed.

Hypothesis Hclock : monotone_clock P.

(** C18. Left alone, a watcher comes to rest. With no message, command or passing
    of time, the goroutine and the dispatcher take at most two steps more than
    the queue holds; and where they cannot go on, the queue has been delivered,
    every change the sources reported has been flushed or waits for a timer
    that is in the future, and if all sources have ended the goroutine has
    returned unless such a timer is what it waits for. *)
Theorem watcher_comes_to_rest l evs l' :
  reachable P l -> forallb internal evs = true -> steps P l evs l' ->
  (length evs <= p_queueDepth P + 2)%nat /\
  ((forall ev, internal ev = true -> loop_step P l' ev = None) ->
   e_dispatch (l_engine l') = [] /\
   (l_running l' = true -> l_pending l' = ∅ \/
      exists t, l_timer l' = Some t /\ clock_now (l_engine l') < t) /\
   (l_running l' = true -> l_open l' = false ->
      exists t, l_timer l' = Some t /\ clock_now (l_engine l') < t)).
Proof using Hpaths Hdepth Hclock.
intros Hr Hi Hs. pose proof (reachable_good P Hpaths Hdepth l Hr) as Hg. split.
- pose proof (budget_steps l evs l' Hg Hi Hs) as Hb. pose proof (g_length _ _ Hg).
  unfold budget in Hb at 2. case_match; lia.
- intros Hstuck. pose proof (reachable_steps P l evs l' Hr Hs) as Hr'.
  assert (Hwait : l_running l' = true -> l_pending l' <> ∅ ->
    exists t, l_timer l' = Some t /\ clock_now (l_engine l') < t).
  { intros Hrun Hne. destruct (timed_reachable P Hclock l' Hr' Hrun) as [_ Ht _].
    destruct (l_timer l') as [t|] eqn:Et; [|by destruct Hne; apply Ht]. exists t. split; [done|].
    specialize (Hstuck LTimer eq_refl). unfold loop_step in Hstuck. rewrite Hrun, Et in Hstuck. simpl in Hstuck.
    destruct (Z.leb_spec t (clock_now (l_engine l'))); [done|lia]. }
  split_and!.
  + specialize (Hstuck LDispatch eq_refl). simpl in Hstuck. by destruct (e_dispatch (l_engine l')).
  + intros Hrun. destruct (decide (l_pending l' = ∅)) as [->|Hne]; [by left|right; auto].
  + intros Hrun Ho. apply Hwait; [done|]. by apply (reachable_draining l' Hr').
Qed.
End quiescence.

(** * A witness *)

(** The sources end while a batch is open: the goroutine flushes it, the change
    is delivered, and nothing is left to do. *)
Lemma watcher_comes_to_rest_witness :
  runs_to demo [update 0 "bob" "2"; LClosed; wait_until (1001 * Second)] (fun l => exists l',
    run demo l [LTimer; LDispatch] = Some l' /\ e_dispatch (l_engine l') = [] /\
    demo_user (e_cfg (l_engine l')) = "bob" /\ l_running l' = false).
Proof.
apply (runs_to_checked _ _ (fun l =>
  match run demo l [LTimer; LDispatch] with
  | Some l' => negb (l_running l') && bool_decide (demo_user (e_cfg (l_engine l')) = "bob") &&
      match e_dispatch (l_engine l') with [] => true | _ => false end
  | None => false end)); [vm_compute; reflexivity|].
intros l Hr Hc. destruct (run demo l _) as [l'|] eqn:E; [|done]. exists l'. split; [done|]. apply run_steps in E.
apply andb_true_iff in Hc as [[Hrun Hu]%andb_true_iff Hq]. bool_norm.
destruct (watcher_comes_to_rest demo (demo_paths _ _) (demo_depth _ _) (demo_clock _ _) l [LTimer; LDispatch] l' Hr eq_refl E) as [_ Hrest].
destruct Hrest as [Hd _]; [|by split_and!].
intros [| | | | | |] Hi; try done.
- unfold loop_step. by rewrite Hrun.
- simpl. by destruct (e_dispatch (l_engine l')).
Defined.
