(* ===== verification/Chains.v ===== *)
(** Precedence chains at run time (src/reconciler.go: [seedChainSources],
    [recordSourceUpdate], [recomputeWinner]): the reconciler agrees with the
    one-shot walk of [Resolve.resolveChain] about who wins and why, whatever the
    order in which the sources report. *)

From S2P Require Import Prelude Errors GoStrings Ref Provider Decode GoNumbers Fields Resolve Config DerivedVersion Status Bootstrap EngineState Engine Loop EngineFacts Invariant Load LoadFacts Demo.
Open Scope string_scope.
Open Scope Z_scope.

Section chains.
Context {W T View : Type} `{Env W} `{Config T View}.
Context (P : params W T).
(** What each backend holds while the sources report. *)
Context (raw : Ref -> res Value).
Hypothesis Hstable : stable raw (p_provider P).

Abbreviation known := (fun scheme => bool_decide (is_Some (p_provider P scheme))).

(** The state a position settles in. *)
Definition settled (sensitive : bool) (r : Ref) : srcState :=
  if known (ref_Scheme r) then
    match raw r ≫= applyDecode (p_gzip P) r with
    | Ok v => MkSrc true (mark_sensitive sensitive v) None
    | Err e => MkSrc true zero_Value (Some e)
    end
  else MkSrc true zero_Value (Some (ESentinel ErrInvalid)).

Definition absent_state (st : srcState) : bool :=
  match st_err st with Some e => errors_Is e ErrNotFound | None => false end.

(** Every position down to the one that stops the walk has settled; a later one
    has settled or has not reported. *)
Fixpoint covers (sensitive : bool) (refs : list Ref) (states : list srcState) : Prop :=
  match refs, states with
  | [], [] => True
  | r :: refs, st :: states =>
      st = settled sensitive r /\
      if absent_state st then covers sensitive refs states
      else Forall2 (fun r st => st = unseen \/ st = settled sensitive r) refs states
  | _, _ => False
  end.

Lemma covers_seed sensitive refs w : covers sensitive refs (seed_loop P sensitive refs w).2.
Proof using Hstable.
assert (Hrest : forall rs : list Ref,
  Forall2 (fun r st => st = unseen \/ st = settled sensitive r) rs (map (fun _ => unseen) rs)).
{ induction rs; constructor; auto. }
revert w. induction refs as [|r refs IH]; intros w; simpl; [done|].
destruct (p_provider P (ref_Scheme r)) as [p|] eqn:Ep.
2:{ simpl. unfold settled. rewrite bool_decide_eq_false_2 by (rewrite Ep; by intros [? ?]). by split. }
pose proof (Hstable r p w Ep) as Hr. destruct (prov_Resolve p r w) as [w1 got]. simpl in Hr. subst got.
destruct (raw r ≫= applyDecode (p_gzip P) r) as [v|e] eqn:Er.
- simpl. unfold settled. rewrite bool_decide_eq_true_2 by (rewrite Ep; by eexists). rewrite Er. by split.
- assert (Hst : settled sensitive r = MkSrc true zero_Value (Some e)).
  { unfold settled. rewrite bool_decide_eq_true_2 by (rewrite Ep; by eexists). by rewrite Er. }
  destruct (errors_Is e ErrNotFound) eqn:En; [specialize (IH w1); destruct (seed_loop P sensitive refs w1) as [w2 sts]|];
    simpl; (split; [symmetry; exact Hst|]); unfold absent_state; simpl; by rewrite En.
Qed.

Lemma covers_length sensitive refs states : covers sensitive refs states -> length states = length refs.
Proof.
revert states. induction refs as [|r refs IH]; intros [|st states]; simpl; try done.
intros [_ Hc]. f_equal. destruct (absent_state st); [auto|]. symmetry. by eapply Forall2_length.
Qed.

Lemma covers_update sensitive refs states pos r :
  covers sensitive refs states -> refs !! pos = Some r ->
  covers sensitive refs (<[pos := settled sensitive r]> states).
Proof.
revert states pos. induction refs as [|r0 refs IH]; intros [|st states] [|pos]; simpl; try done.
- intros [Hst Hc] [= ->]. split; [done|]. by rewrite <- Hst.
- intros [Hst Hc] Hpos. split; [done|]. destruct (absent_state st); [auto|].
  clear -Hc Hpos. revert pos Hpos. induction Hc as [|r1 st1 rs sts H1 Hc IH]; intros [|pos] Hpos; simpl in *;
    try done; constructor; auto. injection Hpos as ->. by right.
Qed.

(** The first report of a source that can be watched. *)
Definition baseline (r : Ref) : Update :=
  match raw r with Ok v => MkUpdate v None | Err e => MkUpdate zero_Value (Some e) end.

Lemma source_outcome_baseline sensitive r :
  is_Some (p_provider P (ref_Scheme r)) ->
  source_outcome P r (baseline r) sensitive = settled sensitive r.
Proof.
intros Hp. unfold source_outcome, baseline, settled. rewrite bool_decide_eq_true_2 by done.
destruct (raw r) as [v|e]; simpl; [|done]. by destruct (applyDecode (p_gzip P) r v).
Qed.

(** A position reports; the positions without a provider never do. *)
Definition deliver (spec : fieldSpec) (states : list srcState) (pos : nat) : list srcState :=
  match spec_Refs spec !! pos with
  | Some r => <[pos := source_outcome P r (baseline r) (spec_Sensitive spec)]> states
  | None => states
  end.

Definition watchable (spec : fieldSpec) (pos : nat) : Prop :=
  exists r, spec_Refs spec !! pos = Some r /\ is_Some (p_provider P (ref_Scheme r)).

Lemma covers_delivered spec order states :
  Forall (watchable spec) order -> covers (spec_Sensitive spec) (spec_Refs spec) states ->
  covers (spec_Sensitive spec) (spec_Refs spec) (foldl (deliver spec) states order).
Proof.
revert states. induction order as [|pos order IH]; intros states Hw Hc; simpl; [done|].
apply Forall_cons in Hw as [(r & Hr & Hp) Hw]. apply IH; [done|]. unfold deliver. rewrite Hr.
rewrite source_outcome_baseline by done. by apply covers_update.
Qed.

(** The walk over settled positions is the walk over the backends. *)
Lemma winner_loop_covers sensitive i refs states :
  covers sensitive refs states ->
  match chain_ans_loop (p_gzip P) raw known i refs with
  | Ok (Some (v, j)) => winner_loop i states = Some (Won (mark_sensitive sensitive v) j)
  | Ok None => winner_loop i states = None /\ Forall (fun st => absent_state st = true) states
  | Err e => errors_Is e ErrNotFound = false /\
      exists k r err, refs !! k = Some r /\ e = ref_error r err /\
        winner_loop i states = Some (Lost (Some (i + k)%nat) err)
  end.
Proof.
revert i states. induction refs as [|r refs IH]; intros i [|st states]; simpl; try done.
intros [Hst Hc].
assert (Hans : match ans (p_gzip P) raw known r with
  | Ok v => st = MkSrc true (mark_sensitive sensitive v) None
  | Err e => exists err, e = ref_error r err /\ st = MkSrc true zero_Value (Some err)
  end).
{ rewrite Hst. unfold ans, settled. case_bool_decide; simpl; [|by eexists].
  destruct (raw r) as [v|e]; simpl; [|by eexists].
  destruct (applyDecode (p_gzip P) r v); simpl; [done|by eexists]. }
destruct (ans (p_gzip P) raw known r) as [v|e]; [by rewrite Hans|].
destruct Hans as (err & -> & Est).
assert (Hn : errors_Is (ref_error r err) ErrNotFound = errors_Is err ErrNotFound) by done.
rewrite Hn. rewrite Est in Hc |- *. unfold absent_state in Hc at 1. simpl in *.
destruct (errors_Is err ErrNotFound) eqn:En.
- specialize (IH (S i) states Hc).
  destruct (chain_ans_loop (p_gzip P) raw known (S i) refs) as [[[v j]|]|e]; [done| |].
  + destruct IH as [Hl Ha]. split; [done|]. by constructor.
  + destruct IH as (Hf & k & r' & err' & Hk & -> & Hl). split; [done|]. exists (S k), r', err'.
    rewrite Hl. split_and!; [done|done|]. do 3 f_equal. lia.
- split; [exact En|]. exists 0%nat, r, err. split_and!; [done|done|]. do 3 f_equal. lia.
Qed.

(** C16. The reconciler and the one-shot resolve agree on a chain. However the
    sources of a seeded chain report - any positions, any order, any number of
    times - the recomputed winner is the value and the position the one-shot
    walk finds; where that walk fails, the winner is an error of the same class,
    and a terminal one is reported under the very ref and error the walk
    returns. In particular a low-precedence source that reports first never
    wins. *)
Theorem chain_agrees_with_load spec w w' order :
  Forall (watchable spec) order ->
  let states := foldl (deliver spec) (seedChainSources P spec w).2 order in
  match (resolveChain (p_gzip P) (p_provider P) (spec_Refs spec) w').2 with
  | Ok (v, i) => recomputeWinner states = Won (mark_sensitive (spec_Sensitive spec) v) i
  | Err e => exists pos err, recomputeWinner states = Lost pos err /\
      errors_Is err ErrNotFound = errors_Is e ErrNotFound /\
      (errors_Is e ErrNotFound = false -> ref_error (winner_ref spec (Lost pos err)) err = e)
  end.
Proof using Hstable.
intros Hw states.
assert (Hc : covers (spec_Sensitive spec) (spec_Refs spec) states)
  by (apply covers_delivered; [done|apply covers_seed]).
clearbody states. pose proof (winner_loop_covers _ 0 _ _ Hc) as Hl.
unfold resolveChain. pose proof (chain_loop_ans (p_gzip P) raw (p_provider P) Hstable 0 (spec_Refs spec) w') as Ha.
destruct (chain_loop _ _ 0 (spec_Refs spec) w') as [w1 out]. simpl in Ha. subst out.
destruct (chain_ans_loop _ _ _ 0 _) as [[[v j]|]|e]; simpl; unfold recomputeWinner.
- by rewrite Hl.
- destruct Hl as [-> Hall]. destruct states as [|[sn v [err|]] [|st states]];
    try by (eexists _, _; split_and!).
  apply Forall_cons in Hall as [Hall _]. unfold absent_state in Hall. simpl in Hall.
  eexists _, _. split_and!; [done|by rewrite Hall|done].
- destruct Hl as (Hf & k & r & err & Hk & -> & ->). exists (Some (0 + k)%nat), err.
  split_and!; [done|done|]. intros _. unfold winner_ref. simpl. by rewrite Hk.
Qed.
End chains.

(** * Witness *)

Definition chain_raw (r : Ref) : res Value :=
  if bool_decide (ref_Path r = "absent") then Err (ESentinel ErrNotFound)
  else Ok (demo_value (ref_Path r) "1").

Definition chain_params : params demo_world gval :=
  {| p_specs := p_specs demo;
     p_provider := fun s => if bool_decide (s = "sm")
                            then Some (MkProvider "sm" (fun r w => (w, chain_raw r)) None true) else None;
     p_gzip := p_gzip demo; p_fraction := p_fraction demo; p_derives := p_derives demo;
     p_preApply := p_preApply demo; p_validate := p_validate demo; p_hasOnError := true;
     p_debounce := p_debounce demo; p_stale := 0; p_queueDepth := 2; p_historyN := 1;
     p_bootstrap := None; p_sha256 := p_sha256 demo; p_typeName := p_typeName demo;
     p_writeSnapshot := p_writeSnapshot demo |}.

Definition chain_spec : fieldSpec :=
  MkSpec "User" (demo_refs "absent" ++ demo_refs "second" ++ demo_refs "third")%list
    "" false "" false [0%nat] TString false onFailKeepLast.

Lemma chain_agrees_with_load_witness :
  recomputeWinner (foldl (deliver chain_params chain_raw chain_spec)
    (seedChainSources chain_params chain_spec demo_start_world).2 [2; 0; 1]%nat) =
  Won (demo_value "second" "1") 1.
Proof.
assert (Hst : stable chain_raw (p_provider chain_params)).
{ intros r p w. simpl. case_bool_decide; [|done]. by intros [= <-]. }
assert (Hw : Forall (watchable chain_params chain_spec) [2; 0; 1]%nat).
{ repeat constructor; (eexists; split; [reflexivity|]; simpl; by eexists). }
pose proof (chain_agrees_with_load chain_params chain_raw Hst chain_spec demo_start_world demo_start_world
  [2; 0; 1]%nat Hw) as Hc. exact Hc.
Defined.
