(* ===== verification/Doctor.v ===== *)
(** The preflight (src/doctor.go, with the probe of the snapshot file in
    src/bootstrapstore.go): every field asked once, nothing written, and the
    derived fields evaluated on the values [Load] would build from. *)

From S2P Require Import Prelude Errors GoStrings Ref Provider Decode GoNumbers Fields Resolve Config DerivedVersion Status Bootstrap EngineState Engine Loop EngineFacts Invariant Load LoadFacts Demo Chains.
Open Scope string_scope.
Open Scope Z_scope.

(** [errors.As(err, &pe)] for a [*ProviderError]: the first one met on the way
    down, as its scheme and ref. *)
Fixpoint errors_As_ProviderError (err : error) : option (string * string) :=
  match err with
  | ProviderError scheme ref _ => Some (scheme, ref)
  | EWrap _ causes =>
      (fix first (es : list error) : option (string * string) :=
         match es with
         | [] => None
         | e :: es => match errors_As_ProviderError e with Some x => Some x | None => first es end
         end) causes
  | ValidationError e | DeriveError e | PreApplyError e | StaleError _ e => errors_As_ProviderError e
  | _ => None
  end.

Section doctor.
Context {W T View : Type} `{Env W} `{Config T View}.
Context (P : params W T).
(** The codec and the AEAD of the snapshot file, and what reading it gives. *)
Context (decode : string -> option snapshot) (gcm_open : string -> string -> string -> option string).
Context (read_file : W -> file).
(** Whether the field of [T] at a path, exported or not, has a secret type. *)
Context (secret_field : string -> bool).

(** [func probeField(ctx, spec, o) (Value, int, error)]. *)
Definition probeField (spec : fieldSpec) (w : W) : W * res (Value * nat) :=
  resolveChain (p_gzip P) (p_provider P) (spec_Refs spec) w.

(** An absence a default or an optional mark covers. *)
Definition covered (spec : fieldSpec) (err : error) : bool :=
  errors_Is err ErrNotFound && (spec_HasDefault spec || spec_Optional spec).

(** The row of one field. *)
Definition doctor_row (now : Z) (spec : fieldSpec) (out : res (Value * nat)) : FieldStatus :=
  let head := (ref_Scheme (head_ref spec), Redacted (head_ref spec)) in
  let '(scheme, ref) :=
    match out with
    | Ok (_, idx) =>
        match spec_Refs spec !! idx with Some r => (ref_Scheme r, Redacted r) | None => head end
    | Err err => default head (errors_As_ProviderError err)
    end in
  match out with
  | Ok (val, _) =>
      MkFieldStatus (spec_Path spec) scheme ref (val_Version val) now 0 false None "" (spec_Sensitive spec) false
  | Err err =>
      if covered spec err
      then MkFieldStatus (spec_Path spec) scheme ref "" now 0 false None "" (spec_Sensitive spec) false
      else MkFieldStatus (spec_Path spec) scheme ref "" 0 0 false (Some err) (ErrorKind (Some err))
             (spec_Sensitive spec) false
  end.

(** What the hooks will see of the field, and whether it is what [Load] would
    build the field from. *)
Definition doctor_value (spec : fieldSpec) (out : res (Value * nat)) : option resolved * bool :=
  match out with
  | Ok (val, _) => (Some (MkResolved spec val true true), true)
  | Err err =>
      if errors_Is err ErrNotFound && spec_HasDefault spec
      then (Some (MkResolved spec (default_value spec) false true), true)
      else if errors_Is err ErrNotFound && spec_Optional spec then (None, true)
      else if bool_decide (spec_OnFail spec = onFailUseDefault)
      then (Some (MkResolved spec (default_value spec) false true), true)
      else (None, false)
  end.

(** The probe loop: the rows, the values and [sourcesComplete]. *)
Fixpoint doctor_probe (now : Z) (specs : list fieldSpec) (w : W)
    : W * (list FieldStatus * list resolved * bool) :=
  match specs with
  | [] => (w, ([], [], true))
  | spec :: specs =>
      let '(w, out) := probeField spec w in
      let '(r, complete) := doctor_value spec out in
      let '(w, (rows, found, rest)) := doctor_probe now specs w in
      (w, (doctor_row now spec out :: rows,
           (match r with Some r => r :: found | None => found end), complete && rest))
  end.

(** The row of one declared write path; [built] is the configuration the hooks
    made, or the error that stopped them. *)
Definition derived_row (complete : bool) (built : res T) (p : string) : option FieldStatus :=
  let cfg := match built with Ok cfg => cfg | Err _ => cfg_zero end in
  match cfg_view cfg p with
  | None => None
  | Some v =>
      let '(version, err, kind) :=
        if negb complete then ("", Some (EOpaque "not evaluated: a source field is unreachable"), "")
        else
          match built with
          | Err err => ("", Some err, KindInvalid)
          | Ok _ => (derivedVersion v, None, "")
          end in
      Some (MkFieldStatus p "" "" version 0 0 false err kind (view_secret v) true)
  end.

(** [func deriveConfigErrorFields[T](o, err) []FieldStatus]. *)
Definition deriveConfigErrorFields (err : error) : list FieldStatus :=
  map (fun p => MkFieldStatus p "" "" "" 0 0 false (Some err) KindInvalid (secret_field p) true)
    (derived_paths (p_derives P) []).

(** [func doctorDerivedFields[T](o, specs, res, sourcesComplete)]. A
    configuration the hooks did not finish is only asked which of its paths can
    be read, which its type decides: the zero configuration stands for it. *)
Definition doctorDerivedFields (found : list resolved) (complete : bool) : list FieldStatus * bool :=
  match typedDerives (p_derives P) with
  | Err err => (deriveConfigErrorFields err, false)
  | Ok _ =>
      let built :=
        if complete then buildInto found cfg_zero ≫= run_derives (p_derives P) else Ok cfg_zero in
      let rows := omap (derived_row complete built) (derived_paths (p_derives P) (p_specs P)) in
      (rows, forallb (fun f => negb (fieldUnhealthy f)) rows)
  end.

(** [func doctorSource(o *options) ConfigSource]. *)
Definition doctorSource : ConfigSource :=
  match p_bootstrap P with None => SourceNone | Some _ => SourceBackend end.

(** [func bootstrapStatusFor(o, specs, now) *BootstrapStatus]; [text] is
    [err.Error()]. *)
Definition bootstrapStatusFor (text : error -> string) (now : Z) (w : W) : option BootstrapStatus :=
  match p_bootstrap P with
  | None => None
  | Some bc =>
      match bc_err bc with
      | Some err => Some (MkBootstrapStatus false false 0 0 false (text err))
      | None =>
          match readBootstrapSnapshot decode gcm_open (read_file w) (bc_key bc) with
          | Err err => Some (MkBootstrapStatus false false 0 0 false (text err))
          | Ok s =>
              let ok := bool_decide (schemaFingerprint (p_sha256 P) (p_typeName P) (p_specs P) = snap_Fingerprint s) in
              Some (MkBootstrapStatus true false (snap_WrittenAt s) (Sub now (snap_WrittenAt s)) ok
                      (if ok then "" else "the snapshot was written for a different config struct and cannot be restored"))
          end
      end
  end.

(** [func Doctor[T](ctx, opts...) (Report, error)], on the specs of [T]. *)
Definition Doctor (text : error -> string) (w : W) : W * Report :=
  let now := now w in
  let '(w, (rows, found, complete)) := doctor_probe now (p_specs P) w in
  let '(derived, derivedHealthy) := doctorDerivedFields found complete in
  (w, MkReport (rows ++ derived)%list 0 0 false
        (forallb (fun f => negb (fieldUnhealthy f)) rows && derivedHealthy) now doctorSource
        (bootstrapStatusFor text now w)).

(** * Facts *)

Context (raw : Ref -> res Value).
Hypothesis Hstable : stable raw (p_provider P).

Abbreviation known := (fun scheme => bool_decide (is_Some (p_provider P scheme))).

Lemma probeField_ans spec w :
  (probeField spec w).2 = chain_ans (p_gzip P) raw known (spec_Refs spec).
Proof using Hstable.
unfold probeField, resolveChain, chain_ans.
pose proof (chain_loop_ans (p_gzip P) raw (p_provider P) Hstable 0 (spec_Refs spec) w) as Hc.
destruct (chain_loop _ _ 0 (spec_Refs spec) w) as [w1 out]. simpl in Hc. subst out.
by destruct (chain_ans_loop _ _ _ 0 _) as [[vi|]|].
Qed.

(** What the probe of one field comes to, against the one-shot resolve. *)
Lemma doctor_value_settle spec out :
  (spec_OnFail spec = onFailUseDefault -> spec_HasDefault spec = true) ->
  match settle (unresolved spec) out with
  | Ok r =>
      (doctor_value spec out).2 = true /\
      forall found (rs : list resolved) (dst : T),
        (forall dst : T, buildInto found dst = buildInto rs dst) ->
        buildInto (match (doctor_value spec out).1 with Some d => d :: found | None => found end) dst =
        buildInto (r :: rs) dst
  | Err _ => (doctor_value spec out).2 = false /\
             forall now, fs_LastError (doctor_row now spec out) <> None
  end.
Proof.
intros Hdef.
assert (Hsame : forall (a b : resolved) found (rs : list resolved) (dst : T),
  r_set a = true -> r_set b = true -> r_spec a = r_spec b ->
  val_Bytes (r_value a) = val_Bytes (r_value b) ->
  (forall dst : T, buildInto found dst = buildInto rs dst) ->
  buildInto (a :: found) dst = buildInto (b :: rs) dst).
{ intros a b found rs dst Ha Hb Hs Hv Hf. simpl. rewrite Ha, Hb, Hs, Hv. simpl.
  by destruct (cfg_setField _ _ _). }
unfold settle, doctor_value. destruct out as [[v i]|err].
- split; [done|]. intros found rs dst Hf. apply Hsame; try done.
  unfold setResolved. simpl. by destruct (spec_Sensitive spec).
- unfold doctor_row, covered. destruct (errors_Is err ErrNotFound) eqn:En; simpl.
  + unfold applyDefault. simpl. destruct (spec_HasDefault spec) eqn:Ed; simpl.
    * split; [done|]. intros found rs dst Hf. simpl. destruct (cfg_setField _ _ _); [apply Hf|done].
    * destruct (spec_Optional spec); simpl.
      -- split; [done|]. intros found rs dst Hf. apply Hf.
      -- case_bool_decide as Eo; [by specialize (Hdef Eo)|]. split; [done|]. intros now.
         by destruct (default _ _).
  + unfold applyOnFail. simpl. case_bool_decide; simpl.
    * split; [done|]. intros found rs dst Hf. simpl. destruct (cfg_setField _ _ _); [apply Hf|done].
    * split; [done|]. intros now. by destruct (default _ _).
Qed.

(** The rows of the probe: one per field, in their order, from what its chain comes to. *)
Lemma doctor_probe_rows now specs w :
  (doctor_probe now specs w).2.1.1 =
  map (fun s => doctor_row now s (chain_ans (p_gzip P) raw known (spec_Refs s))) specs.
Proof using Hstable.
revert w. induction specs as [|spec specs IH]; intros w; simpl; [done|].
pose proof (probeField_ans spec w) as Ho. destruct (probeField spec w) as [w1 o]. simpl in Ho. subst o.
specialize (IH w1). destruct (doctor_value spec _) as [r c].
destruct (doctor_probe now specs w1) as [w2 [[rows found] rest]]. simpl in *. by f_equal.
Qed.

Lemma doctor_probe_complete now specs w rs :
  Forall (fun s => spec_OnFail s = onFailUseDefault -> spec_HasDefault s = true) specs ->
  Forall2 (fun s r => spec_ans (p_gzip P) raw known s = Ok r) specs rs ->
  (doctor_probe now specs w).2.2 = true /\
  forall dst : T, buildInto (doctor_probe now specs w).2.1.2 dst = buildInto rs dst.
Proof using Hstable.
intros Hdef H2. revert w. induction H2 as [|spec r specs rs Hr _ IH]; intros w; simpl; [done|].
apply Forall_cons in Hdef as [Hd Hdef].
pose proof (probeField_ans spec w) as Ho. destruct (probeField spec w) as [w1 o]. simpl in Ho.
pose proof (doctor_value_settle spec o Hd) as Hset.
unfold spec_ans in Hr. rewrite <- Ho in Hr. rewrite Hr in Hset. destruct Hset as [Hc Hb].
destruct (IH Hdef w1) as [IHc IHb].
destruct (doctor_value spec o) as [v c]. destruct (doctor_probe now specs w1) as [w2 [[rows found] rest]].
simpl in *. subst c rest. split; [done|]. intros dst. by apply Hb.
Qed.

(** A row of a field that resolves carries an error only when the policy of the field hides
    it, and the row of one that does not always does. *)
Lemma doctor_row_error now spec :
  match spec_ans (p_gzip P) raw known spec with
  | Ok _ => fs_LastError (doctor_row now spec (chain_ans (p_gzip P) raw known (spec_Refs spec))) <> None ->
            spec_OnFail spec = onFailUseDefault
  | Err _ => fs_LastError (doctor_row now spec (chain_ans (p_gzip P) raw known (spec_Refs spec))) <> None
  end.
Proof.
unfold spec_ans, settle, doctor_row, covered. destruct (chain_ans _ _ _ _) as [[v i]|err].
{ by destruct (spec_Refs spec !! i). }
destruct (default _ _) as [scheme ref]. destruct (errors_Is err ErrNotFound); simpl.
- unfold applyDefault. simpl. destruct (spec_HasDefault spec), (spec_Optional spec); done.
- unfold applyOnFail. simpl. by case_bool_decide.
Qed.

(** The row of a field whose only ref has a scheme no provider is registered for. *)
Lemma unknown_scheme_row now spec r :
  spec_Refs spec = [r] -> p_provider P (ref_Scheme r) = None ->
  fs_LastError (doctor_row now spec (chain_ans (p_gzip P) raw known (spec_Refs spec))) <> None.
Proof.
intros Hr Hp. rewrite Hr. unfold chain_ans. simpl. unfold ans. rewrite Hp.
rewrite bool_decide_eq_false_2 by (by intros []). simpl.
unfold doctor_row, covered. simpl. by destruct (head_ref spec).
Qed.

(** A resolve that fails shows in a row, unless a batch failed as a whole. *)
Lemma resolve_failure_shows order now w err :
  batch_contract raw (p_provider P) -> order ≡ₚ group_schemes (p_specs P) ->
  (resolveAll (p_gzip P) (p_provider P) order (p_specs P) w).2 = Err err ->
  batch_failed (p_provider P) err \/
  exists s, s ∈ p_specs P /\
    fs_LastError (doctor_row now s (chain_ans (p_gzip P) raw known (spec_Refs s))) <> None.
Proof using Hstable.
intros Hbatch Hord Herr.
pose proof (resolveAll_settles (p_gzip P) raw (p_specs P) (p_provider P) order w Hstable Hbatch Hord) as Hl.
cbv zeta in Hl. rewrite Herr in Hl.
destruct (decide (Forall (fun s => is_Some (p_provider P s)) order)) as [Hk|Hk].
- destruct (Hl Hk) as [?|(i & s & Hs & Hno)]; [by left|]. right. exists s.
  split; [by eapply list_elem_of_lookup_2|]. pose proof (doctor_row_error now s) as Hr.
  by destruct (spec_ans _ _ _ s).
- right. apply not_Forall_Exists, Exists_exists in Hk as (scheme & Hin & Hnone); [|apply _].
  rewrite Hord in Hin. apply elem_of_remove_dups, list_elem_of_In, in_map_iff in Hin as (s & Hsch & Hs).
  apply filter_In in Hs as [Hs Hsingle]. exists s. split; [by apply list_elem_of_In|].
  unfold is_single in Hsingle. bool_norm. unfold head_ref in Hsch.
  destruct (spec_Refs s) as [|r [|]] eqn:Er; try done. simpl in Hsch. rewrite <- Er.
  apply (unknown_scheme_row now s r Er). rewrite Hsch. by apply eq_None_not_Some.
Qed.

(** The rows of the derived fields once every source was found. *)
Lemma doctorDerived_complete found :
  typedDerives (p_derives P) = Ok (p_derives P) ->
  (doctorDerivedFields found true).1 =
  omap (derived_row true (buildInto found cfg_zero ≫= run_derives (p_derives P)))
    (derived_paths (p_derives P) (p_specs P)).
Proof. unfold doctorDerivedFields. by intros ->. Qed.

(** Hooks that do not type are told in a row. *)
Lemma typedDerives_error_shows err found complete :
  typedDerives (p_derives P) = Err err ->
  exists f, f ∈ (doctorDerivedFields found complete).1 /\ fs_LastError f <> None.
Proof.
intros He. unfold doctorDerivedFields. rewrite He. simpl.
assert (Hp : exists p, p ∈ derived_paths (p_derives P) []).
{ unfold typedDerives in He. destruct (forallb _ _) eqn:Ef; [done|].
  apply forallb_false in Ef as (d & Hd & Ef). apply forallb_false in Ef as (p & Hp & _).
  exists p. apply fresh_paths_spec. split_and!; [|set_solver|done].
  apply list_elem_of_In, in_flat_map. by exists d. }
destruct Hp as [p Hp]. eexists. split.
- apply list_elem_of_In, in_map_iff. exists p. split; [reflexivity|by apply list_elem_of_In].
- done.
Qed.

Lemma derived_row_error built p f :
  derived_row true built p = Some f -> fs_LastError f = match built with Ok _ => None | Err e => Some e end.
Proof. unfold derived_row. destruct (cfg_view _ p); [|done]. by destruct built; intros [= <-]. Qed.

Lemma doctor_row_plain now spec out : fs_Derived (doctor_row now spec out) = false.
Proof. unfold doctor_row. by repeat case_match. Qed.

Lemma doctor_row_path now spec out : fs_Path (doctor_row now spec out) = spec_Path spec.
Proof. unfold doctor_row. by repeat case_match. Qed.

Lemma doctor_row_clean now spec out :
  fs_LastError (doctor_row now spec out) = None -> fieldUnhealthy (doctor_row now spec out) = false.
Proof. unfold doctor_row. by repeat case_match. Qed.

(** The rows of the report: those of the fields, then those of the derived paths. *)
Lemma Doctor_rows text w :
  rep_Fields (Doctor text w).2 =
  (map (fun s => doctor_row (now w) s (chain_ans (p_gzip P) raw known (spec_Refs s))) (p_specs P) ++
   (doctorDerivedFields (doctor_probe (now w) (p_specs P) w).2.1.2
      (doctor_probe (now w) (p_specs P) w).2.2).1)%list.
Proof using Hstable.
rewrite <- (doctor_probe_rows (now w) (p_specs P) w). unfold Doctor.
destruct (doctor_probe _ _ w) as [w1 [[rows found] complete]]. simpl.
by destruct (doctorDerivedFields found complete).
Qed.

(** Healthy means that no row is unhealthy and the hooks type. *)
Lemma Doctor_Healthy text w :
  rep_Healthy (Doctor text w).2 = true <->
  (forall f, f ∈ rep_Fields (Doctor text w).2 -> fieldUnhealthy f = false) /\
  typedDerives (p_derives P) = Ok (p_derives P).
Proof.
unfold Doctor. destruct (doctor_probe _ _ w) as [w1 [[rows found] complete]].
unfold doctorDerivedFields. destruct (typedDerives (p_derives P)) as [ds|e] eqn:Et; simpl.
- apply typedDerives_id in Et as ->. rewrite <- forallb_app, forallb_forall.
  split; [|intros [Hf _] f Hin; apply negb_true_iff, Hf; by apply list_elem_of_In].
  intros Hf. split; [|done]. intros f Hin. apply negb_true_iff, Hf. by apply list_elem_of_In.
- rewrite andb_false_r. by split; [|intros []].
Qed.

Lemma resolved_specs order w rs :
  batch_contract raw (p_provider P) -> order ≡ₚ group_schemes (p_specs P) ->
  (resolveAll (p_gzip P) (p_provider P) order (p_specs P) w).2 = Ok rs ->
  Forall2 (fun s r => spec_ans (p_gzip P) raw known s = Ok r) (p_specs P) rs.
Proof using Hstable.
intros Hbatch Hord Hall.
pose proof (resolveAll_settles (p_gzip P) raw (p_specs P) (p_provider P) order w Hstable Hbatch Hord) as Hl.
cbv zeta in Hl. rewrite Hall in Hl. apply Hl.
Qed.

(** The rows, once every source resolved and the hooks type. *)
Lemma Doctor_rows_resolved text w rs :
  Forall (fun s => spec_OnFail s = onFailUseDefault -> spec_HasDefault s = true) (p_specs P) ->
  Forall2 (fun s r => spec_ans (p_gzip P) raw known s = Ok r) (p_specs P) rs ->
  typedDerives (p_derives P) = Ok (p_derives P) ->
  rep_Fields (Doctor text w).2 =
  (map (fun s => doctor_row (now w) s (chain_ans (p_gzip P) raw known (spec_Refs s))) (p_specs P) ++
   omap (derived_row true (buildInto rs cfg_zero ≫= run_derives (p_derives P)))
     (derived_paths (p_derives P) (p_specs P)))%list.
Proof using Hstable.
intros Hdef Hset Htd. rewrite Doctor_rows.
destruct (doctor_probe_complete (now w) (p_specs P) w rs Hdef Hset) as [-> Hb].
by rewrite doctorDerived_complete, Hb.
Qed.

(** What a row can say of a load that succeeds with [cfg]. *)
Definition row_agrees (cfg : T) (f : FieldStatus) : Prop :=
  if fs_Derived f
  then fs_LastError f = None /\ exists v, cfg_view cfg (fs_Path f) = Some v /\ fs_Version f = derivedVersion v
  else fs_LastError f <> None ->
       exists s, s ∈ p_specs P /\ spec_Path s = fs_Path f /\ spec_OnFail s = onFailUseDefault.

Lemma resolved_row_agrees cfg now rs s :
  Forall2 (fun s r => spec_ans (p_gzip P) raw known s = Ok r) (p_specs P) rs -> s ∈ p_specs P ->
  row_agrees cfg (doctor_row now s (chain_ans (p_gzip P) raw known (spec_Refs s))).
Proof.
intros Hset Hs. unfold row_agrees. rewrite doctor_row_plain, doctor_row_path. intros He. exists s. split_and!; [done..|].
apply list_elem_of_lookup in Hs as [i Hi]. destruct (Forall2_lookup_l _ _ _ _ _ Hset Hi) as (r & _ & Hr).
pose proof (doctor_row_error now s) as Hre. rewrite Hr in Hre. by apply Hre.
Qed.

Lemma derived_row_agrees cfg f :
  f ∈ omap (derived_row true (Ok cfg)) (derived_paths (p_derives P) (p_specs P)) ->
  row_agrees cfg f /\ fieldUnhealthy f = false.
Proof.
intros (p & _ & Hp)%list_elem_of_omap. unfold row_agrees. revert Hp. unfold derived_row.
destruct (cfg_view cfg p) as [v|] eqn:Ev; [|done]. intros [= <-]. simpl. eauto.
Qed.

(** C25. The report of the preflight, against what a load of the same options comes to while
    the backends hold still, at any later moment and in any order of the schemes.
    The report has a row for every field, in order.
    When the load succeeds from the backends, it has also one for every readable derived
    path; the row of a field carries an error only if
    the onfail policy of the field puts its default in place of that error, and every
    derived row carries no error and the version of what [Load] itself computed; so, but
    for such fields, the report is healthy.
    When no row carries an error and the load fails all the same, it is for something
    the preflight does not look at: the options of the snapshot file, a batch that failed
    as a whole, or the refusal of the configuration built from the resolved values, by
    its decoding, the derive hooks, validation or the gate; and if the report has the row
    of a derived field, then by validation or the gate.
    [Healthy] itself says less than the absence of errors: a healthy report carries no
    error of a terminal kind, but may carry an unavailable field, on which the load
    fails ([healthy_is_not_complete]). *)
Theorem doctor_predicts_load order text w w' :
  batch_contract raw (p_provider P) -> order ≡ₚ group_schemes (p_specs P) ->
  Forall (fun s => spec_OnFail s = onFailUseDefault -> spec_HasDefault s = true) (p_specs P) ->
  let rep := (Doctor text w).2 in
  map spec_Path (p_specs P) `prefix_of` map fs_Path (rep_Fields rep) /\
  (rep_Healthy rep = true ->
     forall f, f ∈ rep_Fields rep ->
     fs_LastKind f ∉ [KindNotFound; KindPermissionDenied; KindUnauthenticated; KindInvalid]) /\
  match (loadValue P decode gcm_open read_file order w').2 with
  | Ok (cfg, rs, origin) =>
      (forall o, origin = Some o -> or_restored o = false) ->
      (forall f, f ∈ rep_Fields rep -> row_agrees cfg f) /\
      (forall p, p ∈ derived_paths (p_derives P) (p_specs P) -> is_Some (cfg_view cfg p) ->
         exists f, f ∈ rep_Fields rep /\ fs_Path f = p /\ fs_Derived f = true) /\
      (Forall (fun s => spec_OnFail s <> onFailUseDefault) (p_specs P) -> rep_Healthy rep = true)
  | Err err =>
      (forall f, f ∈ rep_Fields rep -> fs_LastError f = None) ->
      p_bootstrap P ≫= bc_err = Some err \/
      (exists eb, (resolveAll (p_gzip P) (p_provider P) order (p_specs P) w').2 = Err eb /\
                  batch_failed (p_provider P) eb) \/
      (exists rs v, (resolveAll (p_gzip P) (p_provider P) order (p_specs P) w').2 = Ok rs /\
         (admit_config P rs v).2 = Err err /\
         ((exists f, f ∈ rep_Fields rep /\ fs_Derived f = true) ->
          exists cfg, buildInto rs cfg_zero ≫= run_derives (p_derives P) = Ok cfg))
  end.
Proof using Hstable.
intros Hbatch Hord Hdef rep. pose proof (Doctor_rows text w) as Hrows. fold rep in Hrows. split; [|split].
{ rewrite Hrows, map_app, map_map. eexists. f_equal. apply map_ext. intros. apply doctor_row_path. }
{ intros Hh f Hin. apply Doctor_Healthy in Hh as [Hh _]. specialize (Hh f Hin).
  unfold fieldUnhealthy, terminal_kind in Hh. by case_bool_decide. }
destruct (loadValue P decode gcm_open read_file order w') as [[w1 effs] [[[cfg rs] origin]|err]] eqn:El; simpl.
- intros Horig. apply loadValue_Ok_resolved in El as (Htd & Hall & Hbuilt); [|done].
  pose proof (resolved_specs order w' rs Hbatch Hord Hall) as Hset.
  pose proof (Doctor_rows_resolved text w rs Hdef Hset Htd) as Hr. rewrite Hbuilt in Hr. fold rep in Hr.
  rewrite Hr. setoid_rewrite elem_of_app. setoid_rewrite list_elem_of_fmap. split_and!.
  + intros f [(s & -> & Hs)|Hd]; [by eapply resolved_row_agrees|by apply derived_row_agrees].
  + intros p Hp [v Hv]. unfold derived_row. eexists. split; [right; apply list_elem_of_omap; exists p; split; [done|by rewrite Hv]|done].
  + intros Hno. apply Doctor_Healthy. split; [|done]. fold rep. rewrite Hr. intros f.
    rewrite elem_of_app, list_elem_of_fmap. intros [(s & -> & Hs)|Hd]; [|by apply (derived_row_agrees cfg)].
    apply doctor_row_clean, dec_stable. pose proof (resolved_row_agrees cfg (now w) rs s Hset Hs) as Ha.
    unfold row_agrees in Ha. rewrite doctor_row_plain in Ha. intros (s' & Hs' & _ & Hd)%Ha.
    rewrite Forall_forall in Hno. by destruct (Hno s').
- intros Hclean. apply loadValue_Err_reason in El as [?|[[e Htd]|[(eb & Heb)|(rs & v & Htd & Hall & Hadm)]]]; [by left|..].
  + exfalso. destruct (typedDerives_error_shows e (doctor_probe (now w) (p_specs P) w).2.1.2
      (doctor_probe (now w) (p_specs P) w).2.2 Htd) as (f & Hin & He).
    apply He, Hclean. rewrite Hrows. apply elem_of_app. by right.
  + right. left. exists eb. split; [done|].
    destruct (resolve_failure_shows order (now w) w' eb Hbatch Hord Heb) as [?|(s & Hs & He)]; [done|].
    exfalso. apply He, Hclean. rewrite Hrows. apply elem_of_app, or_introl, list_elem_of_fmap. by exists s.
  + right. right. exists rs, v. split_and!; [done..|]. intros (f & Hin & Hd). pose proof (Hclean f Hin) as He.
    unfold rep in Hin. rewrite (Doctor_rows_resolved text w rs Hdef (resolved_specs order w' rs Hbatch Hord Hall) Htd) in Hin.
    apply elem_of_app in Hin as [(s & -> & _)%list_elem_of_fmap|(p & _ & Hp)%list_elem_of_omap]; [by rewrite doctor_row_plain in Hd|].
    apply derived_row_error in Hp. rewrite Hp in He.
    destruct (_ ≫= _) as [cfg|]; [by exists cfg|done].
Qed.
End doctor.

(** * Witness *)

Lemma doctor_predicts_load_witness :
  let rep := (Doctor chain_params (fun _ => None) (fun _ _ _ => None) (fun _ => FileMissing) (fun _ => false)
                (fun _ => "") demo_start_world).2 in
  rep_Healthy rep = true.
Proof.
assert (Hst : stable chain_raw (p_provider chain_params)).
{ intros r p w. simpl. case_bool_decide; [|done]. by intros [= <-]. }
assert (Hb : batch_contract chain_raw (p_provider chain_params)).
{ intros scheme p batch refs w got. simpl. case_bool_decide; [|done]. by intros [= <-]. }
assert (Hord : ["sm"] ≡ₚ group_schemes (p_specs chain_params)) by done.
assert (Hdef : Forall (fun s => spec_OnFail s = onFailUseDefault -> spec_HasDefault s = true)
  (p_specs chain_params)) by (repeat constructor; done).
pose proof (doctor_predicts_load (T := gval) chain_params (fun _ => None) (fun _ _ _ => None) (fun _ => FileMissing)
  (fun _ => false) chain_raw Hst ["sm"] (fun _ => "") demo_start_world demo_start_world Hb Hord Hdef) as (_ & _ & Hd).
destruct (loadValue _ _ _ _ _ _).2 as [[[cfg rs] [o|]]|] eqn:El; [vm_compute in El; discriminate| |vm_compute in El; discriminate].
apply Hd; [done|]. repeat constructor; done.
Defined.

(** An unavailable backend: the report is healthy, its rows carry the errors, and the load
    fails. *)
Definition down_params : params demo_world gval :=
  {| p_specs := p_specs demo;
     p_provider := fun s => Some (MkProvider s (fun r w => (w, Err (unavailable "down"))) None true);
     p_gzip := p_gzip demo; p_fraction := p_fraction demo; p_derives := []; p_preApply := None;
     p_validate := p_validate demo; p_hasOnError := true; p_debounce := p_debounce demo; p_stale := 0;
     p_queueDepth := 2; p_historyN := 1; p_bootstrap := None; p_sha256 := p_sha256 demo;
     p_typeName := p_typeName demo; p_writeSnapshot := p_writeSnapshot demo |}.

Lemma healthy_is_not_complete :
  let rep := (Doctor down_params (fun _ => None) (fun _ _ _ => None) (fun _ => FileMissing) (fun _ => false)
                (fun _ => "") demo_start_world).2 in
  rep_Healthy rep = true /\
  map (fun f => (fs_Path f, fs_LastKind f)) (rep_Fields rep) = [("User", KindUnavailable); ("Pass", KindUnavailable)] /\
  is_ok (loadValue down_params (fun _ => None) (fun _ _ _ => None) (fun _ => FileMissing) ["sm"] demo_start_world).2 = false.
Proof. by vm_compute. Qed.
