(* ===== verification/Auth.v ===== *)
(** Authentication (src/auth.go, src/authschemes.go, src/authpeercred.go): the
    schemes an HTTP endpoint of the library is guarded with, and their
    combinations. A request is what the schemes read of it. *)

From S2P Require Import Prelude Errors GoStrings Ref Provider Decode GoNumbers.
Open Scope string_scope.
Open Scope Z_scope.

(** * Requests and identities *)

(** [type Ucred struct], and what a scheme reads of a client certificate. *)
Record Ucred := MkUcred { uc_UID : Z; uc_GID : Z; uc_PID : Z }.
Record certificate := MkCert { cert_CommonName : string; cert_DNSNames : list string }.

(** What the schemes read of an [*http.Request]: the first value of a header,
    the peer certificates, leaf first, when the connection is TLS, and the peer
    credentials its context carries. *)
Record request := MkRequest {
  rq_Method : string;
  rq_Path : string;
  rq_Header : string -> string;
  rq_TLS : option (list certificate);
  rq_PeerCred : option Ucred;
}.

(** [type Identity struct]. *)
Record Identity := MkIdentity {
  id_Subject : string;
  id_Attrs : gmap string (list string);
}.

Definition zero_Identity : Identity := MkIdentity "" ∅.
Definition subject (s : string) : Identity := MkIdentity s ∅.

(** [type Authenticator interface], with the challenge of those that are a
    [Challenger]. *)
Record Authenticator := MkAuth {
  Authenticate : request -> res Identity;
  Challenge : option string;
}.

(** * Credentials *)

(** [secret.String.IsZero]. *)
Definition secret_IsZero (s : string) : bool := bool_decide (s = "").

(** [subtle.ConstantTimeCompare(a, b) == 1]. *)
Definition ConstantTimeCompare (a b : string) : bool := bool_decide (a = b).

(** [strings.EqualFold] of a prefix made of ASCII bytes. *)
Definition HasPrefixFold (s p : string) : bool :=
  bool_decide (ToLower (str_take (String.length p) s) = ToLower p).

(** [Request.BasicAuth] (net/http). *)
Definition BasicAuth_header (r : request) : option (string * string) :=
  let auth := rq_Header r "Authorization" in
  if bool_decide (auth = "") then None
  else if (String.length auth <? String.length "Basic ")%nat || negb (HasPrefixFold auth "Basic ") then None
  else
    match base64_DecodeString b64_alphabet (str_drop (String.length "Basic ") auth) with
    | None => None
    | Some c => Cut c ":"
    end.

(** A text in double quotes. *)
Definition quoted (s : string) : string := String (byte_of 34) (s ++ String (byte_of 34) "").

(** [BasicAuthFunc(fn)] at a moment when [fn] answers with these credentials. *)
Definition basicAuth (wantUser wantPass : string) : Authenticator :=
  MkAuth (fun r =>
    if secret_IsZero wantPass then Err (EOpaque "mamori: basic auth not configured")
    else
      match BasicAuth_header r with
      | None => Err (EOpaque "mamori: missing basic credentials")
      | Some (gotUser, gotPass) =>
          let userOK := ConstantTimeCompare gotUser wantUser in
          let passOK := ConstantTimeCompare gotPass wantPass in
          if negb userOK || negb passOK then Err (EOpaque "mamori: invalid basic credentials")
          else Ok (subject wantUser)
      end)
    (Some ("Basic realm=" ++ quoted "mamori")).

Definition bearerPrefix : string := "Bearer ".

(** [BearerTokenFunc(fn)]. *)
Definition bearerToken (want : string) : Authenticator :=
  MkAuth (fun r =>
    if secret_IsZero want then Err (EOpaque "mamori: bearer token not configured")
    else
      let header := rq_Header r "Authorization" in
      if negb (HasPrefix header bearerPrefix) then Err (EOpaque "mamori: missing bearer token")
      else if negb (ConstantTimeCompare (TrimPrefix header bearerPrefix) want) then
        Err (EOpaque "mamori: invalid bearer token")
      else Ok (subject "bearer"))
    (Some "Bearer").

(** [APIKeyFunc(header, fn)]. *)
Definition apiKey (header want : string) : Authenticator :=
  MkAuth (fun r =>
    if secret_IsZero want then Err (EOpaque "mamori: api key not configured")
    else
      let got := rq_Header r header in
      if bool_decide (got = "") then Err (EOpaque "mamori: missing api key")
      else if negb (ConstantTimeCompare got want) then Err (EOpaque "mamori: invalid api key")
      else Ok (subject "apikey"))
    None.

(** * Network identities *)

(** [MTLS(opts)]: the allowlists of common names and DNS names. *)
Definition mtls (AllowedCNs AllowedDNSNames : list string) : Authenticator :=
  MkAuth (fun r =>
    match rq_TLS r with
    | None | Some [] => Err (EOpaque "mamori: no client certificate presented")
    | Some (leaf :: _) =>
        let id := subject (cert_CommonName leaf) in
        match AllowedCNs, AllowedDNSNames with
        | [], [] => Ok id
        | _, _ =>
            if bool_decide (cert_CommonName leaf ∈ AllowedCNs) then Ok id
            else if existsb (fun allowed => bool_decide (allowed ∈ cert_DNSNames leaf)) AllowedDNSNames
            then Ok id
            else Err (EOpaque "mamori: client certificate not permitted")
        end
    end)
    None.

Definition peer_allowed (UIDs GIDs : list Z) (cred : Ucred) : bool :=
  match UIDs, GIDs with
  | [], [] => true
  | _, _ => bool_decide (uc_UID cred ∈ UIDs) || bool_decide (uc_GID cred ∈ GIDs)
  end.

(** [PeerCred(opts)]. *)
Definition peerCred (UIDs GIDs : list Z) : Authenticator :=
  MkAuth (fun r =>
    match rq_PeerCred r with
    | None => Err (EOpaque "mamori: no peer credentials on request")
    | Some cred =>
        if negb (peer_allowed UIDs GIDs cred) then Err (EOpaque "mamori: peer not permitted")
        else
          Ok (MkIdentity ("uid:" ++ FormatInt (uc_UID cred))
                {[ "uid" := [FormatInt (uc_UID cred)]; "gid" := [FormatInt (uc_GID cred)];
                   "pid" := [FormatInt (uc_PID cred)] ]})
    end)
    None.

(** * Combinations *)

(** The loop of [anyOf.Authenticate]: every member runs; the first identity and
    the first error are kept. *)
Fixpoint anyOf_loop (r : request) (identity : option Identity) (firstErr : option error)
    (members : list Authenticator) : option Identity * option error :=
  match members with
  | [] => (identity, firstErr)
  | m :: members =>
      match Authenticate m r with
      | Ok id => anyOf_loop r (match identity with None => Some id | _ => identity end) firstErr members
      | Err e => anyOf_loop r identity (match firstErr with None => Some e | _ => firstErr end) members
      end
  end.

Definition errNoScheme : error := EOpaque "mamori: no configured scheme allowed the request".

(** The first challenge in the order of the members. *)
Fixpoint first_challenge (members : list Authenticator) : option string :=
  match members with
  | [] => None
  | m :: members => match Challenge m with Some c => Some c | None => first_challenge members end
  end.

(** [func AnyOf(as ...Authenticator) Authenticator]. *)
Definition AnyOf (members : list Authenticator) : Authenticator :=
  MkAuth (fun r =>
    match anyOf_loop r None None members with
    | (Some id, _) => Ok id
    | (None, Some e) => Err e
    | (None, None) => Err errNoScheme
    end)
    (first_challenge members).

(** The loop of [allOf.Authenticate], after the first member. *)
Fixpoint allOf_loop (r : request) (identity : Identity) (members : list Authenticator) : res Identity :=
  match members with
  | [] => Ok identity
  | m :: members =>
      match Authenticate m r with
      | Err e => Err e
      | Ok _ => allOf_loop r identity members
      end
  end.

(** [func AllOf(as ...Authenticator) Authenticator]. *)
Definition AllOf (members : list Authenticator) : Authenticator :=
  MkAuth (fun r =>
    match members with
    | [] => Ok zero_Identity
    | m :: members =>
        match Authenticate m r with
        | Err e => Err e
        | Ok id => allOf_loop r id members
        end
    end)
    None.

(** * Facts *)

(** The combination loops, as searches of the list of answers. *)
Definition accepted (r : request) (m : Authenticator) : option Identity :=
  match Authenticate m r with Ok id => Some id | Err _ => None end.
Definition refused (r : request) (m : Authenticator) : option error :=
  match Authenticate m r with Ok _ => None | Err e => Some e end.

Lemma anyOf_loop_spec r id err members :
  anyOf_loop r id err members =
  (match id with Some _ => id | None => head (omap (accepted r) members) end,
   match err with Some _ => err | None => head (omap (refused r) members) end).
Proof.
  revert id err. induction members as [|m members IH]; intros id err; simpl.
  { by destruct id, err. }
  unfold accepted at 1, refused at 1. destruct (Authenticate m r); rewrite IH; by destruct id, err.
Qed.

Lemma allOf_loop_spec r id members :
  allOf_loop r id members =
  match head (omap (refused r) members) with Some e => Err e | None => Ok id end.
Proof.
  induction members as [|m members IH]; simpl; [done|].
  unfold refused at 1. by destruct (Authenticate m r).
Qed.

(** A credential that was never configured lets nobody in. *)
Lemma unset_credential_refuses r user header :
  is_ok (Authenticate (basicAuth user "") r) = false /\
  is_ok (Authenticate (bearerToken "") r) = false /\
  is_ok (Authenticate (apiKey header "") r) = false.
Proof. by split_and!. Qed.

(** With a credential, exactly the requests that present it are let in. *)
Lemma basicAuth_spec user pass r id :
  Authenticate (basicAuth user pass) r = Ok id <->
  pass <> "" /\ BasicAuth_header r = Some (user, pass) /\ id = subject user.
Proof.
  simpl. unfold secret_IsZero, ConstantTimeCompare. case_bool_decide as Hp; [naive_solver|].
  destruct (BasicAuth_header r) as [[u p]|]; [|naive_solver].
  destruct (decide (u = user)) as [->|]; [rewrite (bool_decide_eq_true_2 (user = user)) by done|
    rewrite (bool_decide_eq_false_2 (u = user)) by done; simpl; naive_solver].
  simpl. case_bool_decide; naive_solver.
Qed.

Lemma bearerToken_spec token r id :
  Authenticate (bearerToken token) r = Ok id <->
  token <> "" /\ rq_Header r "Authorization" = bearerPrefix ++ token /\ id = subject "bearer".
Proof.
  cbn [Authenticate bearerToken]. unfold secret_IsZero, ConstantTimeCompare.
  case_bool_decide as Ht; [naive_solver|].
  destruct (HasPrefix (rq_Header r "Authorization") bearerPrefix) eqn:Hp; cbn [negb].
  - apply HasPrefix_true in Hp as [t Hh]. rewrite Hh, TrimPrefix_app.
    destruct (decide (t = token)) as [->|Hne].
    + rewrite bool_decide_eq_true_2 by done. simpl. naive_solver.
    + rewrite bool_decide_eq_false_2 by done. simpl. split; [done|].
      intros (_ & E & _). by apply (inj (String.append bearerPrefix)) in E.
  - split; [done|]. intros (_ & E & _). rewrite E, HasPrefix_app in Hp. done.
Qed.

Lemma apiKey_spec header key r id :
  Authenticate (apiKey header key) r = Ok id <->
  key <> "" /\ rq_Header r header = key /\ id = subject "apikey".
Proof.
  simpl. unfold secret_IsZero, ConstantTimeCompare. case_bool_decide as Hk; [naive_solver|].
  destruct (decide (rq_Header r header = key)) as [->|Hne].
  - rewrite bool_decide_eq_false_2, bool_decide_eq_true_2 by done. simpl. naive_solver.
  - rewrite (bool_decide_eq_false_2 (rq_Header r header = key)) by done. simpl.
    case_bool_decide; naive_solver.
Qed.

(** [AllOf] of no scheme admits every request, with no identity. *)
Lemma AllOf_empty_admits r : Authenticate (AllOf []) r = Ok zero_Identity.
Proof. done. Qed.

Lemma AnyOf_empty_refuses r : Authenticate (AnyOf []) r = Err errNoScheme.
Proof. done. Qed.
