(* ===== verification/GoPath.v ===== *)
(** [path.Match] of the Go standard library, with the rune decoding of
    [unicode/utf8] it uses: the glob that [PrefixPolicy] (src/server/policy.go)
    matches binding names with. *)

From S2P Require Import Prelude Errors GoStrings Ref.
Open Scope string_scope.
Open Scope Z_scope.

(** * Runes *)

Definition byte_val (c : ascii) : Z := Z.of_nat (nat_of_ascii c).
Definition RuneError : Z := 65533.

Definition continuation (c : ascii) : bool := (128 <=? byte_val c) && (byte_val c <? 192).

Definition cont_bits (c : ascii) : Z := byte_val c mod 64.

(** [utf8.DecodeRuneInString(s)]: the rune and its width; an invalid or short
    encoding is [RuneError] of width 1, the empty string of width 0. Overlong
    forms, surrogates and runes above U+10FFFF are invalid. *)
Definition DecodeRune (s : string) : Z * nat :=
  match s with
  | EmptyString => (RuneError, 0%nat)
  | String a rest =>
      let x := byte_val a in
      let bad := (RuneError, 1%nat) in
      if x <? 128 then (x, 1%nat)
      else if x <? 194 then bad
      else if x <? 224 then
        match rest with
        | String b _ =>
            if continuation b then ((x - 192) * 64 + cont_bits b, 2%nat) else bad
        | EmptyString => bad
        end
      else if x <? 240 then
        match rest with
        | String b (String c _) =>
            let r := (x - 224) * 4096 + cont_bits b * 64 + cont_bits c in
            if continuation b && continuation c && (2048 <=? r) && negb ((55296 <=? r) && (r <? 57344))
            then (r, 3%nat) else bad
        | _ => bad
        end
      else if x <? 245 then
        match rest with
        | String b (String c (String d _)) =>
            let r := (x - 240) * 262144 + cont_bits b * 4096 + cont_bits c * 64 + cont_bits d in
            if continuation b && continuation c && continuation d && (65536 <=? r) && (r <? 1114112)
            then (r, 4%nat) else bad
        | _ => bad
        end
      else bad
  end.

(** * Chunks *)

Definition backslash : ascii := byte_of 92.

(** The stars a pattern starts with. *)
Fixpoint drop_stars (pattern : string) : string :=
  match pattern with
  | String c rest => if ascii_eqb c "*" then drop_stars rest else pattern
  | EmptyString => pattern
  end.

(** The loop of [scanChunk]: the text up to the next star outside a class. *)
Fixpoint scan_loop (inrange : bool) (pattern : string) : string * string :=
  match pattern with
  | EmptyString => ("", "")
  | String c rest =>
      if ascii_eqb c backslash then
        match rest with
        | EmptyString => (String c "", "")
        | String d rest => let '(a, b) := scan_loop inrange rest in (String c (String d a), b)
        end
      else if ascii_eqb c "*" && negb inrange then ("", pattern)
      else
        let inrange := if ascii_eqb c "[" then true else if ascii_eqb c "]" then false else inrange in
        let '(a, b) := scan_loop inrange rest in (String c a, b)
  end.

Definition scanChunk (pattern : string) : bool * string * string :=
  let body := drop_stars pattern in
  let '(chunk, rest) := scan_loop false body in
  (negb (bool_decide (body = pattern)), chunk, rest).

(** [getEsc]: a possibly escaped rune of a class; [None] is [ErrBadPattern]. *)
Definition getEsc (chunk : string) : option (Z * string) :=
  let finish (chunk : string) :=
    let '(r, n) := DecodeRune chunk in
    let nchunk := str_drop n chunk in
    if (r =? RuneError) && (n =? 1)%nat then None
    else if bool_decide (nchunk = "") then None
    else Some (r, nchunk) in
  match chunk with
  | EmptyString => None
  | String c rest =>
      if ascii_eqb c "-" || ascii_eqb c "]" then None
      else if ascii_eqb c backslash then (if bool_decide (rest = "") then None else finish rest)
      else finish chunk
  end.

(** The ranges of a class, up to its bracket: whether one holds [r]. *)
Fixpoint class_loop (fuel : nat) (r : option Z) (first matched : bool) (chunk : string)
    : option (bool * string) :=
  match fuel with
  | O => None
  | S fuel =>
      match chunk with
      | String c rest =>
          if ascii_eqb c "]" && negb first then Some (matched, rest)
          else
            match getEsc chunk with
            | None => None
            | Some (lo, chunk) =>
                let hi_rest :=
                  match chunk with
                  | String d rest => if ascii_eqb d "-" then getEsc rest else Some (lo, chunk)
                  | EmptyString => None
                  end in
                match hi_rest with
                | None => None
                | Some (hi, chunk) =>
                    let here := match r with Some r => (lo <=? r) && (r <=? hi) | None => false end in
                    class_loop fuel r false (matched || here) chunk
                end
            end
      | EmptyString => None
      end
  end.

(** [matchChunk(chunk, s)]; the subject is [None] once the match has failed, and
    the rest of the chunk is then only checked. [None] is [ErrBadPattern]; the
    length of the chunk is enough fuel, since every turn consumes some of it. *)
Fixpoint match_loop (fuel : nat) (chunk : string) (s : option string) : option (option string) :=
  match fuel with
  | O => None
  | S fuel =>
      match chunk with
      | EmptyString => Some s
      | String c rest =>
          let s := match s with Some EmptyString => None | _ => s end in
          if ascii_eqb c "[" then
            let '(r, s) :=
              match s with
              | Some t => let '(r, n) := DecodeRune t in (Some r, Some (str_drop n t))
              | None => (None, None)
              end in
            let '(negated, rest) :=
              match rest with
              | String d rest' => if ascii_eqb d "^" then (true, rest') else (false, rest)
              | EmptyString => (false, rest)
              end in
            match class_loop (S (String.length rest)) r true false rest with
            | None => None
            | Some (matched, rest) => match_loop fuel rest (if Bool.eqb matched negated then None else s)
            end
          else if ascii_eqb c "?" then
            let s :=
              match s with
              | Some t => if HasPrefix t "/" then None else Some (str_drop (DecodeRune t).2 t)
              | None => None
              end in
            match_loop fuel rest s
          else
            let lit (c : ascii) (rest : string) :=
              let s :=
                match s with
                | Some (String d t) => if ascii_eqb c d then Some t else None
                | _ => None
                end in
              match_loop fuel rest s in
            if ascii_eqb c backslash then
              match rest with
              | EmptyString => None
              | String d rest => lit d rest
              end
            else lit c rest
      end
  end.

Definition matchChunk (chunk s : string) : option (option string) :=
  match_loop (S (String.length chunk)) chunk (Some s).

(** * Match *)

(** The remaining chunks of a pattern that failed are well formed. *)
Fixpoint check_rest (fuel : nat) (pattern : string) : option bool :=
  match fuel with
  | O => None
  | S fuel =>
      if bool_decide (pattern = "") then Some false
      else
        let '(_, chunk, rest) := scanChunk pattern in
        match matchChunk chunk "" with
        | None => None
        | Some _ => check_rest fuel rest
        end
  end.

(** The bytes a star swallows before its chunk matches. *)
Fixpoint star_loop (chunk pattern name : string) : option (option string) :=
  match name with
  | EmptyString => Some None
  | String c name =>
      if ascii_eqb c "/" then Some None
      else
        match matchChunk chunk name with
        | None => None
        | Some (Some t) =>
            if bool_decide (pattern = "") && negb (bool_decide (t = "")) then star_loop chunk pattern name
            else Some (Some t)
        | Some None => star_loop chunk pattern name
        end
  end.

(** [path.Match(pattern, name)]; [None] is [ErrBadPattern]. *)
Fixpoint Match_loop (fuel : nat) (pattern name : string) : option bool :=
  match fuel with
  | O => None
  | S fuel =>
      if bool_decide (pattern = "") then Some (bool_decide (name = ""))
      else
        let '(star, chunk, pattern) := scanChunk pattern in
        if star && bool_decide (chunk = "") then Some (negb (has_byte "/" name))
        else
          match matchChunk chunk name with
          | None => None
          | Some here =>
              let next :=
                match here with
                | Some t =>
                    if bool_decide (t = "") || negb (bool_decide (pattern = "")) then Some (Some t)
                    else if star then star_loop chunk pattern name else Some None
                | None => if star then star_loop chunk pattern name else Some None
                end in
              match next with
              | None => None
              | Some (Some t) => Match_loop fuel pattern t
              | Some None => check_rest (S (String.length pattern)) pattern
              end
          end
  end.

Definition path_Match (pattern name : string) : option bool :=
  Match_loop (S (String.length pattern)) pattern name.

(** * Prefix globs *)

Definition meta (c : ascii) : bool :=
  ascii_eqb c "*" || ascii_eqb c "?" || ascii_eqb c "[" || ascii_eqb c "]" || ascii_eqb c backslash.

Fixpoint literal (s : string) : bool :=
  match s with
  | EmptyString => true
  | String c s => negb (meta c) && literal s
  end.

Example path_Match_examples :
  path_Match "db/*" "db/user" = Some true /\ path_Match "db/*" "db/a/b" = Some false /\
  path_Match "[a-c]?x*z" "bqxyyz" = Some true /\ path_Match "[^a]" "a" = Some false /\
  path_Match "[a" "b" = None /\ path_Match "*" "" = Some true.
Proof. by vm_compute. Qed.

Lemma literal_cons c s : literal (String c s) = true ->
  ascii_eqb c "*" = false /\ ascii_eqb c "?" = false /\ ascii_eqb c "[" = false /\
  ascii_eqb c "]" = false /\ ascii_eqb c backslash = false /\ literal s = true.
Proof.
  cbn [literal]. unfold meta. intros [Hm Hs]%andb_true_iff. apply negb_true_iff in Hm.
  repeat (apply orb_false_iff in Hm as [Hm ?]). done.
Qed.

Lemma drop_stars_literal p s : literal p = true -> p <> "" -> drop_stars (p ++ s) = p ++ s.
Proof.
  destruct p as [|c p]; [done|]. intros Hl _. apply literal_cons in Hl as (H & _).
  rewrite str_app_cons. cbn [drop_stars]. by rewrite H.
Qed.

Lemma scan_loop_literal p s : literal p = true ->
  scan_loop false (p ++ s) = let '(a, b) := scan_loop false s in (p ++ a, b).
Proof.
  induction p as [|c p IH]; intros Hl; [change ("" ++ s) with s; by destruct (scan_loop false s)|].
  apply literal_cons in Hl as (H1 & H2 & H3 & H4 & H5 & Hl).
  rewrite str_app_cons. cbn [scan_loop]. rewrite H5, H1. simpl. rewrite H3, H4, IH by done.
  by destruct (scan_loop false s).
Qed.

Lemma match_loop_literal p s n : literal p = true -> (String.length p < n)%nat ->
  match_loop n p s =
  Some (match s with
        | Some t => if HasPrefix t p then Some (str_drop (String.length p) t) else None
        | None => None
        end).
Proof.
  revert s n. induction p as [|c p IH]; intros s [|n] Hl Hn; simpl in Hn; try lia.
  { destruct s as [t|]; [|done]. simpl. by destruct t. }
  apply literal_cons in Hl as (H1 & H2 & H3 & H4 & H5 & Hl). cbn [match_loop].
  rewrite H3, H2, H5. rewrite IH by (done || lia).
  destruct s as [[|d t]|]; [done| |done]. cbn [HasPrefix String.length str_drop].
  by destruct (ascii_eqb c d).
Qed.

(** A literal followed by a star: the names that start with it and go on
    without a slash. *)
Lemma path_Match_prefix p name : literal p = true ->
  path_Match (p ++ "*") name =
  Some (HasPrefix name p && negb (has_byte "/" (str_drop (String.length p) name))).
Proof.
  intros Hl. unfold path_Match. destruct (decide (p = "")) as [->|Hne].
  { simpl. by destruct name. }
  assert (Hs : scanChunk (p ++ "*") = (false, p, "*")).
  { unfold scanChunk. rewrite drop_stars_literal by done. rewrite scan_loop_literal by done. simpl.
    rewrite bool_decide_eq_true_2 by done. by rewrite str_app_nil_r. }
  assert (Hlen : String.length (p ++ "*") = S (String.length p)).
  { clear. induction p as [|c p IH]; [done|]. rewrite str_app_cons. simpl. by rewrite IH. }
  rewrite Hlen. cbn [Match_loop]. rewrite Hs.
  rewrite bool_decide_eq_false_2 by (by destruct p). cbn [andb]. unfold matchChunk.
  rewrite (match_loop_literal p) by (done || lia). destruct (HasPrefix name p) eqn:Hp; [|done].
  rewrite orb_true_r. cbn [andb]. done.
Qed.
