(* ===== verification/Server.v ===== *)
(** The config server (src/server/): its binding table (bindings.go), policies
    (policy.go), construction and options (server.go), and the fan-out core that
    keeps one last-known-good value per binding (resolve.go), with the life
    cycle of its goroutines. *)

From S2P Require Import Prelude Errors GoStrings Ref Provider Decode GoNumbers GoPath Auth.
Open Scope string_scope.
Open Scope Z_scope.

(** * Bindings *)

(** [type Binding struct] and [type rawBinding struct]. *)
Record Binding := MkBinding { bd_Name : string; bd_Ref : Ref }.
Record rawBinding := MkRaw { rb_name : string; rb_ref : string }.

Section bindings.

(** [os.ReadFile], and [yaml.Unmarshal] into the [bindings] map. *)
Context (ReadFile : string -> res string) (yaml_bindings : string -> res (gmap string string)).

(** [func loadBindFile(path string) ([]rawBinding, error)]: the entries sorted by
    name. *)
Definition loadBindFile (path : string) : res (list rawBinding) :=
  match ReadFile path with
  | Err e => Err (EWrap "mamori/server: bind file" [e])
  | Ok data =>
      match yaml_bindings data with
      | Err e => Err (EWrap "mamori/server: bind file" [e])
      | Ok bf => Ok (map (fun name => MkRaw name (go_get bf name)) (sorted_keys bf))
      end
  end.

Fixpoint load_files (all : list rawBinding) (files : list string) : res (list rawBinding) :=
  match files with
  | [] => Ok all
  | f :: files =>
      match loadBindFile f with
      | Err e => Err e
      | Ok fb => load_files (all ++ fb)%list files
      end
  end.

Definition errDuplicate (name : string) : error := EOpaque ("mamori/server: duplicate binding name " ++ name).
Definition errScheme (name why : string) : error := EOpaque ("mamori/server: binding " ++ name ++ ": " ++ why).

Definition with_scheme (scheme : string) (r : Ref) : Ref :=
  MkRef scheme (ref_Path r) (ref_Key r) (ref_Opts r) (ref_Raw r).

(** One turn of the loop of [resolveBindings]. *)
Definition resolve_binding (allowExec allowChaining : bool) (out : gmap string Binding) (rb : rawBinding)
    : res (gmap string Binding) :=
  match out !! rb_name rb with
  | Some _ => Err (errDuplicate (rb_name rb))
  | None =>
      match ParseRef (rb_ref rb) with
      | Err e => Err (EWrap "mamori/server: binding" [e])
      | Ok ref =>
          let ref := with_scheme (ToLower (ref_Scheme ref)) ref in
          if bool_decide (ref_Scheme ref = "exec") && negb allowExec then
            Err (errScheme (rb_name rb) "exec: scheme is remote command execution")
          else if bool_decide (ref_Scheme ref = "mamori") && negb allowChaining then
            Err (errScheme (rb_name rb) "mamori: scheme chains to another config server")
          else if bool_decide (is_Some (ref_Opts ref !! "decode")) then
            Err (errScheme (rb_name rb) "?decode= is applied by the consuming client")
          else Ok (<[rb_name rb := MkBinding (rb_name rb) ref]> out)
      end
  end.

Fixpoint resolve_loop (allowExec allowChaining : bool) (out : gmap string Binding) (all : list rawBinding)
    : res (gmap string Binding) :=
  match all with
  | [] => Ok out
  | rb :: all =>
      match resolve_binding allowExec allowChaining out rb with
      | Err e => Err e
      | Ok out => resolve_loop allowExec allowChaining out all
      end
  end.

(** [func resolveBindings(direct, files, allowExec, allowChaining)]. *)
Definition resolveBindings (direct : list rawBinding) (files : list string) (allowExec allowChaining : bool)
    : res (gmap string Binding) :=
  match load_files direct files with
  | Err e => Err e
  | Ok all => resolve_loop allowExec allowChaining ∅ all
  end.
End bindings.

(** * Policies *)

(** [type Policy interface]: [None] is permission. *)
Definition Policy : Type := Identity -> string -> option error.

Definition ErrDenied : error := ESentinel ErrPermissionDenied.

(** [func AllowAll() Policy]. *)
Definition AllowAll : Policy := fun _ _ => None.

(** [func PrefixPolicy(rules map[string][]string) Policy]. *)
Definition PrefixPolicy (rules : gmap string (list string)) : Policy := fun id name =>
  match rules !! id_Subject id with
  | None => Some ErrDenied
  | Some globs =>
      if existsb (fun g => match path_Match g name with Some true => true | _ => false end) globs
      then None else Some ErrDenied
  end.

(** * Construction *)

(** [type tcpSpec struct]; the TLS configuration as its presence. *)
Record tcpSpec := MkTcp { tcp_addr : string; tcp_tls : bool; tcp_insecureNoTLS : bool }.

(** The fields of [type Server struct] the options set. *)
Record config (W : Type) := MkConfig {
  sv_rawBindings : list rawBinding;
  sv_bindFiles : list string;
  sv_policy : option Policy;
  sv_auth : option Authenticator;
  sv_noAuth : bool;
  sv_audit : bool;
  sv_allowExec : bool;
  sv_allowChaining : bool;
  sv_hasTCP : bool;
  sv_providers : gmap string (Provider W);
  sv_tcpSpecs : list tcpSpec;
  sv_nodeID : string;
}.
Arguments MkConfig {W}.
Arguments sv_rawBindings {W}.
Arguments sv_bindFiles {W}.
Arguments sv_policy {W}.
Arguments sv_auth {W}.
Arguments sv_noAuth {W}.
Arguments sv_audit {W}.
Arguments sv_allowExec {W}.
Arguments sv_allowChaining {W}.
Arguments sv_hasTCP {W}.
Arguments sv_providers {W}.
Arguments sv_tcpSpecs {W}.
Arguments sv_nodeID {W}.

(** The options, one constructor each. [Unix], [DrainGrace] and the TLS settings
    of a listener do not take part in what follows. *)
Inductive Option (W : Type) :=
  | Bind (name ref : string)
  | BindFile (path : string)
  | WithAuth (a : option Authenticator)
  | NoAuth
  | WithPolicy (p : option Policy)
  | WithProvider (p : Provider W)
  | WithAudit (present : bool)
  | AllowExec
  | AllowChaining
  | NodeID (id : string)
  | TCP (addr : string) (tls insecureNoTLS : bool).
Arguments Bind {W}.
Arguments BindFile {W}.
Arguments WithAuth {W}.
Arguments NoAuth {W}.
Arguments WithPolicy {W}.
Arguments WithProvider {W}.
Arguments WithAudit {W}.
Arguments AllowExec {W}.
Arguments AllowChaining {W}.
Arguments NodeID {W}.
Arguments TCP {W}.

Section construction.
Context {W : Type}.
Implicit Types s : config W.

Definition zero_config : config W :=
  MkConfig [] [] None None false false false false false ∅ [] "".

(** The body of each option. *)
Definition apply_option s (o : Option W) : config W :=
  let '(MkConfig raw files pol auth noAuth audit exec chain tcp provs specs node) := s in
  match o with
  | Bind name ref => MkConfig (raw ++ [MkRaw name ref])%list files pol auth noAuth audit exec chain tcp provs specs node
  | BindFile path => MkConfig raw (files ++ [path])%list pol auth noAuth audit exec chain tcp provs specs node
  | WithAuth a => MkConfig raw files pol a noAuth audit exec chain tcp provs specs node
  | NoAuth => MkConfig raw files pol auth true audit exec chain tcp provs specs node
  | WithPolicy p => MkConfig raw files p auth noAuth audit exec chain tcp provs specs node
  | WithProvider p => MkConfig raw files pol auth noAuth audit exec chain tcp (<[prov_Scheme p := p]> provs) specs node
  | WithAudit l => MkConfig raw files pol auth noAuth l exec chain tcp provs specs node
  | AllowExec => MkConfig raw files pol auth noAuth audit true chain tcp provs specs node
  | AllowChaining => MkConfig raw files pol auth noAuth audit exec true tcp provs specs node
  | NodeID id => MkConfig raw files pol auth noAuth audit exec chain tcp provs specs id
  | TCP addr tls insecure =>
      MkConfig raw files pol auth noAuth audit exec chain true provs (specs ++ [MkTcp addr tls insecure])%list node
  end.

Definition errNoPolicy : error := EOpaque "mamori/server: no Policy configured".
Definition errNoAuth : error := EOpaque "mamori/server: no Authenticator configured".
Definition errNoAuthOnTCP : error := EOpaque "mamori/server: NoAuth() is refused on a TCP listener".
Definition errTCPRequiresTLS : error := EOpaque "mamori/server: TCP(...) without TLS(...) is refused".

(** A server that was constructed: its options and its binding table. *)
Record server := MkServer {
  sv_config : config W;
  sv_bindings : gmap string Binding;
}.

Definition with_node (node : string) s : config W :=
  let '(MkConfig raw files pol auth noAuth audit exec chain tcp provs specs _) := s in
  MkConfig raw files pol auth noAuth audit exec chain tcp provs specs node.

(** [func New(opts ...Option) ( *Server, error)]; [hostname] is [os.Hostname]. *)
Definition New (ReadFile : string -> res string) (yaml_bindings : string -> res (gmap string string))
    (hostname : option string) (opts : list (Option W)) : res server :=
  let s := foldl apply_option zero_config opts in
  match resolveBindings ReadFile yaml_bindings (sv_rawBindings s) (sv_bindFiles s)
          (sv_allowExec s) (sv_allowChaining s) with
  | Err e => Err e
  | Ok bindings =>
      match sv_policy s with
      | None => Err errNoPolicy
      | Some _ =>
          if match sv_auth s with None => negb (sv_noAuth s) | Some _ => false end then Err errNoAuth
          else if sv_noAuth s && sv_hasTCP s then Err errNoAuthOnTCP
          else if existsb (fun spec => negb (tcp_tls spec) && negb (tcp_insecureNoTLS spec)) (sv_tcpSpecs s)
          then Err errTCPRequiresTLS
          else
            let s := if bool_decide (sv_nodeID s = "") then with_node (default "" hostname) s else s in
            Ok (MkServer s bindings)
      end
  end.
End construction.
Arguments server : clear implicits.
Arguments MkServer {W}.
Arguments sv_config {W}.
Arguments sv_bindings {W}.

(** * The state of one binding *)

(** [type bindingSnapshot struct]. *)
Record bindingSnapshot := MkSnapshot {
  bs_hasValue : bool;
  bs_value : Value;
  bs_err : option error;
  bs_kind : Kind;
  bs_resolvedAt : Z;
  bs_settled : bool;
}.

(** [func (rs *resolverState) apply(up mamori.Update)], at the time [now]. *)
Definition apply (now : Z) (up : Update) (prev : bindingSnapshot) : bindingSnapshot :=
  match up_Err up with
  | None => MkSnapshot true (up_Value up) None "" now true
  | Some err =>
      let kind := ErrorKind (Some err) in
      if bs_hasValue prev then MkSnapshot true (bs_value prev) (Some err) kind (bs_resolvedAt prev) true
      else MkSnapshot false zero_Value (Some err) kind 0 true
  end.

Definition errNoProvider (scheme : string) : error :=
  EOpaque ("mamori/server: no provider registered for scheme " ++ scheme).
Definition errPendingResolve : error := EOpaque "mamori/server: binding not yet resolved".
Definition errAlreadyStarted : error := EOpaque "mamori/server: start called more than once".
Definition errClosed : error := EOpaque "mamori/server: server is closed".

Definition pending : bindingSnapshot :=
  MkSnapshot false zero_Value (Some errPendingResolve) (ErrorKind (Some errPendingResolve)) 0 false.

Definition no_provider (scheme : string) : bindingSnapshot :=
  MkSnapshot false zero_Value (Some (errNoProvider scheme)) (ErrorKind (Some (errNoProvider scheme))) 0 true.

(** [type freshness struct], and the answer of [lookupFresh]. *)
Record freshness := MkFreshness { fr_resolvedAt : Z; fr_stale : bool }.

Record answer := MkAnswer {
  an_value : Value;
  an_fresh : freshness;
  an_kind : Kind;
  an_hasValue : bool;
  an_found : bool;
}.

Definition no_freshness : freshness := MkFreshness 0 false.

(** [func (s *Server) lookupFresh(name string)]. *)
Definition lookupFresh (resolved : gmap string bindingSnapshot) (name : string) : answer :=
  match resolved !! name with
  | None => MkAnswer zero_Value no_freshness "" false false
  | Some snap =>
      if negb (bs_hasValue snap) then MkAnswer zero_Value no_freshness (bs_kind snap) false true
      else
        MkAnswer (bs_value snap)
          (MkFreshness (bs_resolvedAt snap) (match bs_err snap with Some _ => true | None => false end))
          (bs_kind snap) true true
  end.

(** [func (s *Server) readiness() (state string, ready bool)]. *)
Definition readiness (draining : bool) (resolved : gmap string bindingSnapshot) : string * bool :=
  if draining then ("draining", false)
  else if forallb (fun ns => bs_settled ns.2) (map_to_list resolved) then ("ready", true)
  else ("priming", false).

(** * The running server *)

(** What [resolveMu] guards and the goroutines the wait groups count: the closed
    and draining flags, whether [start] ran and whether its contexts were
    cancelled by [teardown], the snapshots, the bindings whose watch goroutine is alive, and
    the listener goroutines. *)
Record running (W : Type) := MkRunning {
  ru_server : server W;
  ru_closed : bool;
  ru_draining : bool;
  ru_started : bool;
  ru_cancelled : bool;
  ru_resolved : gmap string bindingSnapshot;
  ru_watchers : gset string;
  ru_listeners : nat;
}.
Arguments MkRunning {W}.
Arguments ru_server {W}.
Arguments ru_closed {W}.
Arguments ru_draining {W}.
Arguments ru_started {W}.
Arguments ru_cancelled {W}.
Arguments ru_resolved {W}.
Arguments ru_watchers {W}.
Arguments ru_listeners {W}.

(** The critical sections and the goroutines' turns, in any interleaving: [start]
    and [beginListening] as [Serve] calls them, an update a watch goroutine
    receives, the return of a goroutine (its context was cancelled, or its
    channel closed), the transition of [Close], and the cancellations of
    [teardown]. *)
Inductive server_event :=
  | SvStart
  | SvUpdate (name : string) (now : Z) (up : Update)
  | SvWatchReturns (name : string)
  | SvBeginListening (entries : nat)
  | SvListenerReturns
  | SvClose
  | SvTeardown.

Section lifecycle.
Context {W : Type}.
Implicit Types s : server W.
Implicit Types r : running W.

Definition provider_of s (b : Binding) : option (Provider W) :=
  sv_providers (sv_config s) !! ref_Scheme (bd_Ref b).

(** The snapshot [start] gives a binding. *)
Definition initial_snapshot s (b : Binding) : bindingSnapshot :=
  match provider_of s b with
  | Some _ => pending
  | None => no_provider (ref_Scheme (bd_Ref b))
  end.

Definition watched_bindings s : gset string :=
  dom (filter (fun nb => is_Some (provider_of s nb.2)) (sv_bindings s)).

(** [func (s *Server) start(ctx context.Context) error]. *)
Definition server_start r : running W * option error :=
  if ru_closed r then (r, Some errClosed)
  else if ru_started r then (r, Some errAlreadyStarted)
  else
    (MkRunning (ru_server r) false (ru_draining r) true (ru_cancelled r)
       (initial_snapshot (ru_server r) <$> sv_bindings (ru_server r))
       (watched_bindings (ru_server r)) (ru_listeners r), None).

(** [func (s *Server) beginListening(entries []*listenerEntry) bool]. *)
Definition beginListening (entries : nat) r : running W * bool :=
  if ru_closed r then (r, false)
  else
    (MkRunning (ru_server r) (ru_closed r) (ru_draining r) (ru_started r) (ru_cancelled r) (ru_resolved r)
       (ru_watchers r) (ru_listeners r + entries), true).

(** The transition of [func (s *Server) Close() error]; a later call waits for
    the first one's teardown. *)
Definition Close r : running W :=
  MkRunning (ru_server r) true true (ru_started r) (ru_cancelled r) (ru_resolved r) (ru_watchers r)
    (ru_listeners r).

(** The cancellations of [func (s *Server) teardown()]. *)
Definition cancel r : running W :=
  MkRunning (ru_server r) (ru_closed r) (ru_draining r) (ru_started r) (ru_started r) (ru_resolved r)
    (ru_watchers r) (ru_listeners r).

Definition set_resolved m r : running W :=
  MkRunning (ru_server r) (ru_closed r) (ru_draining r) (ru_started r) (ru_cancelled r) m (ru_watchers r)
    (ru_listeners r).
Definition set_watchers x r : running W :=
  MkRunning (ru_server r) (ru_closed r) (ru_draining r) (ru_started r) (ru_cancelled r) (ru_resolved r) x
    (ru_listeners r).
Definition set_listeners n r : running W :=
  MkRunning (ru_server r) (ru_closed r) (ru_draining r) (ru_started r) (ru_cancelled r) (ru_resolved r)
    (ru_watchers r) n.

(** One step; [None] when the event cannot happen. *)
Definition server_step r (ev : server_event) : option (running W) :=
  match ev with
  | SvStart => Some (server_start r).1
  | SvUpdate name now up =>
      if bool_decide (name ∈ ru_watchers r) then Some (set_resolved (alter (apply now up) name (ru_resolved r)) r)
      else None
  | SvWatchReturns name =>
      if bool_decide (name ∈ ru_watchers r) then Some (set_watchers (ru_watchers r ∖ {[name]}) r) else None
  | SvBeginListening entries => Some (beginListening entries r).1
  | SvListenerReturns =>
      match ru_listeners r with O => None | S n => Some (set_listeners n r) end
  | SvClose => Some (Close r)
  | SvTeardown => if ru_closed r then Some (cancel r) else None
  end.

Fixpoint server_run r (evs : list server_event) : option (running W) :=
  match evs with
  | [] => Some r
  | ev :: evs => server_step r ev ≫= fun r => server_run r evs
  end.

(** A server between [New] and [Serve]. *)
Definition idle s : running W := MkRunning s false false false false ∅ ∅ 0.

(** * The life cycle *)

(** Every goroutine that is counted belongs to a server that was open when it
    was added; a closed one only loses goroutines. *)
Lemma closed_step r ev r' :
  ru_closed r = true -> server_step r ev = Some r' ->
  ru_closed r' = true /\ ru_draining r' = (ru_draining r || match ev with SvClose => true | _ => false end) /\
  ru_watchers r' ⊆ ru_watchers r /\ (ru_listeners r' <= ru_listeners r)%nat /\ ru_started r' = ru_started r.
Proof.
  intros Hc. destruct ev; simpl; unfold server_start, beginListening; rewrite ?Hc.
  - intros [= <-]. by rewrite orb_false_r.
  - case_bool_decide; [|done]. intros [= <-]. simpl. by rewrite orb_false_r.
  - case_bool_decide; [|done]. intros [= <-]. simpl. rewrite orb_false_r. split_and!; try done. set_solver.
  - intros [= <-]. by rewrite orb_false_r.
  - destruct (ru_listeners r) eqn:E; [done|]. intros [= <-]. simpl. rewrite orb_false_r. split_and!; try done. lia.
  - intros [= <-]. simpl. rewrite orb_true_r. by split_and!.
  - intros [= <-]. simpl. by rewrite orb_false_r.
Qed.

(** Closing is for good: whatever runs concurrently, once [Close] has made its
    transition no goroutine is ever added - so what [teardown] waits for only
    goes down -, [start] and [Serve] are refused, and the replica stays out of
    rotation. *)
Lemma closed_for_good r evs r' :
  ru_closed r = true -> ru_draining r = true -> server_run r evs = Some r' ->
  ru_watchers r' ⊆ ru_watchers r /\ (ru_listeners r' <= ru_listeners r)%nat /\
  (server_start r').2 = Some errClosed /\ (forall n, (beginListening n r').2 = false) /\
  readiness (ru_draining r') (ru_resolved r') = ("draining", false).
Proof.
  intros Hc Hd. revert r Hc Hd. induction evs as [|ev evs IH]; intros r Hc Hd; simpl.
  - intros [= <-]. unfold server_start, beginListening, readiness. rewrite Hc, Hd. by split_and!.
  - destruct (server_step r ev) as [r1|] eqn:Es; simpl; [|done]. intros Hr.
    destruct (closed_step r ev r1 Hc Es) as (Hc1 & Hd1 & Hw & Hl & _). rewrite Hd in Hd1.
    destruct (IH r1 Hc1 Hd1 Hr) as (? & ? & ? & ? & ?). split_and!; [set_solver|lia|done..].
Qed.

(** * Last known good *)

(** The updates a binding's watch delivered, oldest first. *)
Definition updates_of (name : string) (evs : list server_event) : list (Z * Update) :=
  omap (fun ev => match ev with
                  | SvUpdate n now up => if bool_decide (n = name) then Some (now, up) else None
                  | _ => None
                  end) evs.

Definition successes (ups : list (Z * Update)) : list (Z * Value) :=
  omap (fun nu => match up_Err nu.2 with None => Some (nu.1, up_Value nu.2) | Some _ => None end) ups.

Definition current_error (ups : list (Z * Update)) : option error :=
  match last ups with
  | Some nu => up_Err nu.2
  | None => Some errPendingResolve
  end.

(** What a binding with these updates answers: the last value that was fetched,
    dated by its fetch, stale when the last update was a failure, and the kind
    of that failure. *)
Definition last_known_good (ups : list (Z * Update)) : answer :=
  let kind := ErrorKind (current_error ups) in
  match last (successes ups) with
  | Some (at_, v) =>
      MkAnswer v (MkFreshness at_ (match current_error ups with Some _ => true | None => false end)) kind true true
  | None => MkAnswer zero_Value no_freshness kind false true
  end.

Definition replay_updates (ups : list (Z * Update)) (snap : bindingSnapshot) : bindingSnapshot :=
  foldl (fun snap nu => apply nu.1 nu.2 snap) snap ups.

Lemma replay_spec ups :
  let snap := replay_updates ups pending in
  bs_err snap = current_error ups /\ bs_kind snap = ErrorKind (current_error ups) /\
  bs_settled snap = negb (bool_decide (ups = [])) /\
  match last (successes ups) with
  | Some (at_, v) => bs_hasValue snap = true /\ bs_value snap = v /\ bs_resolvedAt snap = at_
  | None => bs_hasValue snap = false
  end.
Proof.
  induction ups as [|[now up] ups IH] using rev_ind; [done|]. cbv zeta in *.
  unfold replay_updates in *. rewrite foldl_snoc. set (snap := foldl _ _ ups) in *. clearbody snap.
  destruct IH as (_ & _ & _ & IH). unfold current_error, successes in *. rewrite last_snoc, omap_app, last_app.
  rewrite bool_decide_eq_false_2 by (by destruct ups). unfold apply. simpl.
  destruct (up_Err up) as [err|]; simpl; [|by split_and!].
  destruct (last (omap _ ups)) as [[at_ v]|].
  - destruct IH as (-> & <- & <-). by split_and!.
  - rewrite IH. by split_and!.
Qed.

Lemma lookup_replay resolved name ups :
  resolved !! name = Some (replay_updates ups pending) ->
  lookupFresh resolved name = last_known_good ups.
Proof.
  intros Hn. unfold lookupFresh, last_known_good. rewrite Hn.
  destruct (replay_spec ups) as (He & Hk & _ & Hv).
  destruct (last (successes ups)) as [[at_ v]|].
  - destruct Hv as (-> & -> & ->). by rewrite He, Hk.
  - by rewrite Hv, Hk.
Qed.

(** What a run has done to the snapshots. *)
Record tracks s (evs : list server_event) r : Prop := {
  tr_server : ru_server r = s;
  tr_watchers : ru_watchers r ⊆ watched_bindings s;
  tr_idle : ru_started r = false ->
    ru_resolved r = ∅ /\ ru_watchers r = ∅ /\ forall name, updates_of name evs = [];
  tr_resolved : ru_started r = true -> forall name,
    ru_resolved r !! name =
      (fun b => replay_updates (updates_of name evs) (initial_snapshot s b)) <$> sv_bindings s !! name;
  tr_updates : forall name, updates_of name evs <> [] -> name ∈ watched_bindings s;
}.

Lemma updates_of_snoc name evs ev :
  updates_of name (evs ++ [ev]) =
  (updates_of name evs ++ match ev with
                          | SvUpdate n now up => if bool_decide (n = name) then [(now, up)] else []
                          | _ => []
                          end)%list.
Proof.
  unfold updates_of. rewrite omap_app. f_equal. destruct ev; try done. simpl. by case_bool_decide.
Qed.

Lemma tracks_quiet s evs ev r r' :
  (forall name, updates_of name (evs ++ [ev]) = updates_of name evs) ->
  ru_server r' = ru_server r -> ru_watchers r' ⊆ ru_watchers r -> ru_started r' = ru_started r ->
  ru_resolved r' = ru_resolved r -> tracks s evs r -> tracks s (evs ++ [ev]) r'.
Proof.
  intros Hu Hs Hw Hst Hr []. split.
  - by rewrite Hs.
  - set_solver.
  - rewrite Hst. intros Hf. destruct (tr_idle0 Hf) as (? & ? & ?). split_and!; [congruence|set_solver|].
    intros name. by rewrite Hu.
  - rewrite Hst, Hr. intros Ht name. rewrite Hu. by apply tr_resolved0.
  - intros name. rewrite Hu. apply tr_updates0.
Qed.

(** An event that delivers nothing and starts nothing. *)
Ltac quiet s evs r :=
  apply (tracks_quiet s evs _ r);
    [intros; by rewrite updates_of_snoc, app_nil_r|done|simpl; set_solver|done|done|done].

Lemma tracks_step s evs r ev r' :
  tracks s evs r -> server_step r ev = Some r' -> tracks s (evs ++ [ev]) r'.
Proof.
  intros Ht. destruct ev; simpl.
  - intros [= <-]. unfold server_start.
    destruct (ru_closed r); [quiet s evs r|].
    destruct (ru_started r) eqn:Est.
    { quiet s evs r. }
    destruct Ht. destruct (tr_idle0 Est) as (_ & _ & Hno).
    split; simpl; try done.
    + by rewrite tr_server0.
    + intros _ name. rewrite updates_of_snoc, app_nil_r, Hno, lookup_fmap, tr_server0. done.
    + intros name. rewrite updates_of_snoc, app_nil_r. apply tr_updates0.
  - case_bool_decide as Hin; [|done]. intros [= <-]. destruct Ht. split; simpl; try done.
    + intros Hf. destruct (tr_idle0 Hf) as (_ & Hw & _). rewrite Hw in Hin. set_solver.
    + intros Hst name'. rewrite updates_of_snoc. case_bool_decide as Hn.
      * subst name'. rewrite lookup_alter_eq, tr_resolved0 by done. destruct (sv_bindings s !! name); [|done].
        simpl. unfold replay_updates. by rewrite foldl_snoc.
      * rewrite app_nil_r, lookup_alter_ne by done. by apply tr_resolved0.
    + intros name'. rewrite updates_of_snoc. case_bool_decide as Hn.
      * subst name'. intros _. set_solver.
      * rewrite app_nil_r. apply tr_updates0.
  - case_bool_decide; [|done]. intros [= <-].
    quiet s evs r.
  - intros [= <-]. unfold beginListening.
    destruct (ru_closed r); quiet s evs r.
  - destruct (ru_listeners r); [done|]. intros [= <-].
    quiet s evs r.
  - intros [= <-]. quiet s evs r.
  - destruct (ru_closed r); [|done]. intros [= <-].
    quiet s evs r.
Qed.

Lemma server_run_snoc r evs ev :
  server_run r (evs ++ [ev]) = server_run r evs ≫= fun r => server_step r ev.
Proof.
  revert r. induction evs as [|x evs IH]; intros r; simpl.
  - by destruct (server_step r ev).
  - destruct (server_step r x); simpl; [apply IH|done].
Qed.

Lemma tracks_run s evs r : server_run (idle s) evs = Some r -> tracks s evs r.
Proof.
  revert r. induction evs as [|ev evs IH] using rev_ind; intros r.
  - intros [= <-]. split; simpl; try done.
  - rewrite server_run_snoc. destruct (server_run (idle s) evs) as [r1|]; simpl; [|done].
    intros Hs. eapply tracks_step; [by apply IH|done].
Qed.

Lemma elem_of_watched s name :
  name ∈ watched_bindings s <-> exists b, sv_bindings s !! name = Some b /\ is_Some (provider_of s b).
Proof.
  unfold watched_bindings. rewrite elem_of_dom. split.
  - intros [b [? ?]%map_lookup_filter_Some]. eauto.
  - intros (b & ? & ?). exists b. by apply map_lookup_filter_Some.
Qed.
End lifecycle.

(** * Construction *)

Section options.
Context {W : Type}.
Implicit Types s : config W.

Definition is_AllowExec (o : Option W) : bool := match o with AllowExec => true | _ => false end.
Definition is_AllowChaining (o : Option W) : bool := match o with AllowChaining => true | _ => false end.
Definition is_NoAuth (o : Option W) : bool := match o with NoAuth => true | _ => false end.
Definition is_TCP (o : Option W) : bool := match o with TCP _ _ _ => true | _ => false end.

(** The flags do not depend on the order of the options. *)
Lemma options_flags opts s :
  let s' := foldl apply_option s opts in
  sv_allowExec s' = sv_allowExec s || existsb is_AllowExec opts /\
  sv_allowChaining s' = sv_allowChaining s || existsb is_AllowChaining opts /\
  sv_noAuth s' = sv_noAuth s || existsb is_NoAuth opts /\
  sv_hasTCP s' = sv_hasTCP s || existsb is_TCP opts.
Proof.
  revert s. induction opts as [|o opts IH]; intros s; simpl; [by rewrite !orb_false_r|].
  destruct (IH (apply_option s o)) as (-> & -> & -> & ->).
  destruct s, o; simpl; rewrite ?orb_true_r; done.
Qed.

(** What an accepted binding is: a declared one, its scheme in lower case and
    permitted, with nothing for the server to decode. *)
Definition binding_ok (exec chain : bool) (all : list rawBinding) (name : string) (b : Binding) : Prop :=
  bd_Name b = name /\
  (ref_Scheme (bd_Ref b) = "exec" -> exec = true) /\
  (ref_Scheme (bd_Ref b) = "mamori" -> chain = true) /\
  ref_Opts (bd_Ref b) !! "decode" = None /\
  exists rb r, rb ∈ all /\ rb_name rb = name /\ ParseRef (rb_ref rb) = Ok r /\
    bd_Ref b = with_scheme (ToLower (ref_Scheme r)) r.

Lemma resolve_loop_ok exec chain todo seen out out' :
  map_Forall (binding_ok exec chain seen) out -> dom out = list_to_set (map rb_name seen) ->
  NoDup (map rb_name seen) ->
  resolve_loop exec chain out todo = Ok out' ->
  map_Forall (binding_ok exec chain (seen ++ todo)) out' /\
  dom out' = list_to_set (map rb_name (seen ++ todo)) /\ NoDup (map rb_name (seen ++ todo)).
Proof.
  revert seen out. induction todo as [|rb todo IH]; intros seen out Hok Hdom Hnd; simpl.
  { intros [= <-]. by rewrite app_nil_r. }
  unfold resolve_binding. destruct (out !! rb_name rb) eqn:Hnew; [done|].
  destruct (ParseRef (rb_ref rb)) as [r|] eqn:Hp; [|done]. cbv zeta.
  set (ref := with_scheme _ r). destruct (bool_decide (ref_Scheme ref = "exec") && negb exec) eqn:Hx; [done|].
  destruct (bool_decide (ref_Scheme ref = "mamori") && negb chain) eqn:Hc; [done|].
  destruct (bool_decide (is_Some (ref_Opts ref !! "decode"))) eqn:Hd; [done|].
  apply bool_decide_eq_false in Hd. intros Hr.
  replace (seen ++ rb :: todo)%list with ((seen ++ [rb]) ++ todo)%list by (by rewrite <- app_assoc).
  eapply IH; [| | |exact Hr].
  - apply map_Forall_insert_2.
    + split_and!; simpl; [done|..].
      * intros E. rewrite bool_decide_eq_true_2 in Hx by done. by destruct exec.
      * intros E. rewrite bool_decide_eq_true_2 in Hc by done. by destruct chain.
      * by apply eq_None_not_Some.
      * exists rb, r. split_and!; try done. apply elem_of_app. right. by constructor.
    + eapply map_Forall_impl; [exact Hok|]. intros name b (? & ? & ? & ? & rb' & r' & ? & ?).
      split_and!; try done. exists rb', r'. split; [|done]. apply elem_of_app. by left.
  - rewrite dom_insert_L, Hdom, map_app. simpl. rewrite list_to_set_app_L. set_solver.
  - rewrite map_app. apply NoDup_app. split_and!; [done| |by repeat constructor; intros ?%elem_of_nil].
    intros x Hx1 Hx2. simpl in Hx2. apply list_elem_of_singleton in Hx2 as ->.
    apply not_elem_of_dom in Hnew. rewrite Hdom in Hnew. apply Hnew. by apply elem_of_list_to_set.
Qed.

Lemma node_config node s :
  sv_policy (with_node node s) = sv_policy s /\ sv_auth (with_node node s) = sv_auth s /\
  sv_noAuth (with_node node s) = sv_noAuth s /\ sv_hasTCP (with_node node s) = sv_hasTCP s /\
  sv_tcpSpecs (with_node node s) = sv_tcpSpecs s.
Proof. by destruct s. Qed.
End options.

(** * Properties *)

(** A server that could be constructed is closed by default. Whatever the
    order of its options, it has a policy and a way to authenticate, or was told
    in so many words to run without; a listener on the network excludes the
    latter and needs TLS or an explicit waiver; and each name of its table is
    declared once, by a ref whose scheme is stored in lower case and which runs
    a command or chains to another server only if that was allowed. *)
Theorem New_closed_by_default {W} ReadFile yaml hostname (opts : list (Option W)) s :
  New ReadFile yaml hostname opts = Ok s ->
  let c := sv_config s in
  (exists p, sv_policy c = Some p) /\
  (sv_auth c = None -> NoAuth ∈ opts) /\
  (sv_noAuth c = true <-> NoAuth ∈ opts) /\
  (NoAuth ∈ opts -> forall addr tls insecure, TCP addr tls insecure ∉ opts) /\
  Forall (fun spec => tcp_tls spec = true \/ tcp_insecureNoTLS spec = true) (sv_tcpSpecs c) /\
  exists all,
    load_files ReadFile yaml (sv_rawBindings (foldl apply_option zero_config opts))
      (sv_bindFiles (foldl apply_option zero_config opts)) = Ok all /\
    NoDup (map rb_name all) /\ dom (sv_bindings s) = list_to_set (map rb_name all) /\
    map_Forall (fun name b =>
      bd_Name b = name /\
      (ref_Scheme (bd_Ref b) = "exec" -> AllowExec ∈ opts) /\
      (ref_Scheme (bd_Ref b) = "mamori" -> AllowChaining ∈ opts) /\
      ref_Opts (bd_Ref b) !! "decode" = None /\
      exists rb r, rb ∈ all /\ rb_name rb = name /\ ParseRef (rb_ref rb) = Ok r /\
        bd_Ref b = with_scheme (ToLower (ref_Scheme r)) r) (sv_bindings s).
Proof.
  unfold New. set (s0 := foldl apply_option zero_config opts). cbv zeta.
  destruct (options_flags opts zero_config) as (Hexec & Hchain & Hno & Htcp). fold s0 in Hexec, Hchain, Hno, Htcp.
  simpl in Hexec, Hchain, Hno, Htcp.
  assert (Hin : forall (P : Option W -> bool) x, (forall o, P o = true <-> o = x) -> existsb P opts = true <-> x ∈ opts).
  { intros P x HP. rewrite existsb_exists. split.
    - intros (o & Ho & ->%HP). by apply list_elem_of_In.
    - intros Hx. exists x. split; [by apply list_elem_of_In|by apply HP]. }
  pose proof (Hin is_AllowExec AllowExec ltac:(by intros []; split)) as HinE.
  pose proof (Hin is_AllowChaining AllowChaining ltac:(by intros []; split)) as HinC.
  pose proof (Hin is_NoAuth NoAuth ltac:(by intros []; split)) as HinN. clear Hin.
  unfold resolveBindings. destruct (load_files _ _ _ _) as [all|] eqn:Hl; [|done].
  destruct (resolve_loop (sv_allowExec s0) (sv_allowChaining s0) ∅ all) as [bindings|] eqn:Hr; [|done].
  destruct (sv_policy s0) as [pol|] eqn:Hpol; [|done].
  destruct (match sv_auth s0 with None => negb (sv_noAuth s0) | Some _ => false end) eqn:Hauth; [done|].
  destruct (sv_noAuth s0 && sv_hasTCP s0) eqn:Hnet; [done|].
  destruct (existsb _ (sv_tcpSpecs s0)) eqn:Htls; [done|].
  intros [= <-]. set (c := if bool_decide _ then _ else s0).
  assert (Hc : sv_policy c = sv_policy s0 /\ sv_auth c = sv_auth s0 /\ sv_noAuth c = sv_noAuth s0 /\
    sv_hasTCP c = sv_hasTCP s0 /\ sv_tcpSpecs c = sv_tcpSpecs s0).
  { unfold c. case_bool_decide; [apply node_config|done]. }
  simpl. destruct Hc as (-> & -> & -> & _ & ->).
  destruct (resolve_loop_ok _ _ all [] ∅ bindings (map_Forall_empty _)
    ltac:(by rewrite dom_empty_L) ltac:(constructor) Hr) as (Hok & Hdom & Hnd).
  split_and!.
  - eauto.
  - intros Hn. rewrite Hn in Hauth. apply negb_false_iff in Hauth. apply HinN. congruence.
  - rewrite Hno. exact HinN.
  - intros Hn addr tls insecure Ht. apply HinN in Hn. rewrite Hno, Hn in Hnet. simpl in Hnet.
    rewrite Htcp in Hnet. enough (existsb is_TCP opts = true) by congruence.
    apply existsb_exists. eexists. split; [by apply list_elem_of_In|done].
  - apply Forall_forall. intros spec Hs.
    destruct (tcp_tls spec) eqn:E1; [by left|]. destruct (tcp_insecureNoTLS spec) eqn:E2; [by right|].
    enough (existsb (fun spec => negb (tcp_tls spec) && negb (tcp_insecureNoTLS spec)) (sv_tcpSpecs s0) = true) by congruence.
    apply existsb_exists. exists spec. split; [by apply list_elem_of_In|by rewrite E1, E2].
  - exists all. split_and!; [done|done|done|].
    eapply map_Forall_impl; [exact Hok|]. intros name b (? & He & Hch & ? & ?).
    rewrite Hexec in He. rewrite Hchain in Hch. rewrite HinE in He. rewrite HinC in Hch. by split_and!.
Qed.

(** C14. The server serves what its bindings last knew. In any interleaving of
    updates, requests and shutdown, a started server answers for a name of its
    table with the last value its watch fetched, dated by that fetch and marked
    stale exactly while the last update is a failure, whose kind it reports;
    for any other name it has nothing; and it reports ready exactly when it is
    not draining and every binding that has a provider has heard from it. *)
Theorem server_serves_last_known_good {W} (s : server W) evs r :
  server_run (idle s) evs = Some r -> ru_started r = true ->
  (forall name, lookupFresh (ru_resolved r) name =
    match sv_bindings s !! name with
    | None => MkAnswer zero_Value no_freshness "" false false
    | Some b =>
        match provider_of s b with
        | None => MkAnswer zero_Value no_freshness KindUnknown false true
        | Some _ => last_known_good (updates_of name evs)
        end
    end) /\
  (readiness (ru_draining r) (ru_resolved r) = ("ready", true) <->
   ru_draining r = false /\
   forall name b, sv_bindings s !! name = Some b -> is_Some (provider_of s b) -> updates_of name evs <> []).
Proof.
  intros Hr Hst. destruct (tracks_run s evs r Hr) as [_ _ _ Hres Hup]. specialize (Hres Hst).
  assert (Hnone : forall name b, sv_bindings s !! name = Some b -> provider_of s b = None -> updates_of name evs = []).
  { intros name b Hb Hp. destruct (updates_of name evs) as [|u us] eqn:Eu; [done|].
    assert (Hw : name ∈ watched_bindings s) by (apply Hup; by rewrite Eu).
    apply elem_of_watched in Hw as (b' & Hb' & Hp'). simplify_eq. rewrite Hp in Hp'. by destruct Hp'. }
  split.
  - intros name. specialize (Hres name). destruct (sv_bindings s !! name) as [b|] eqn:Hb; simpl in Hres.
    + destruct (provider_of s b) as [p|] eqn:Hp.
      * unfold initial_snapshot in Hres. rewrite Hp in Hres. by apply lookup_replay.
      * rewrite (Hnone name b Hb Hp) in Hres. unfold lookupFresh. rewrite Hres. simpl.
        unfold initial_snapshot. by rewrite Hp.
    + unfold lookupFresh. by rewrite Hres.
  - unfold readiness. destruct (ru_draining r); [naive_solver|].
    assert (Hall : forallb (fun ns : string * bindingSnapshot => bs_settled ns.2) (map_to_list (ru_resolved r)) = true <->
      forall name b, sv_bindings s !! name = Some b -> is_Some (provider_of s b) -> updates_of name evs <> []).
    { rewrite forallb_forall. split.
      - intros Hf name b Hb [p Hp]. specialize (Hres name). rewrite Hb in Hres. simpl in Hres.
        unfold initial_snapshot in Hres. rewrite Hp in Hres.
        specialize (Hf (name, replay_updates (updates_of name evs) pending)).
        destruct (replay_spec (updates_of name evs)) as (_ & _ & Hset & _). simpl in Hf. rewrite Hset in Hf.
        intros E. rewrite E in Hf. enough (false = true) by done. rewrite E in Hres. apply Hf.
        by apply list_elem_of_In, elem_of_map_to_list.
      - intros Hf [name snap] Hin%list_elem_of_In%elem_of_map_to_list. simpl. rewrite Hres in Hin.
        destruct (sv_bindings s !! name) as [b|] eqn:Hb; simplify_eq/=. unfold initial_snapshot.
        destruct (provider_of s b) as [p|] eqn:Hp; [|by rewrite (Hnone name b Hb Hp)].
        destruct (replay_spec (updates_of name evs)) as (_ & _ & -> & _).
        apply negb_true_iff, bool_decide_eq_false. by eapply Hf. }
    destruct (forallb _ _); naive_solver.
Qed.

(** * An instance *)

Definition vault : Provider unit := MkProvider "vault" (fun _ w => (w, Err (ESentinel ErrNotFound))) None true.

Definition example_options : list (Option unit) :=
  [Bind "run" "EXEC:date"; Bind "db" "Vault:db#url"; WithPolicy (Some AllowAll); AllowExec; WithProvider vault; NoAuth].

Definition example_server : server unit :=
  match New (fun _ => Err (EOpaque "no file")) (fun _ => Ok ∅) None example_options with
  | Ok s => s
  | Err _ => MkServer zero_config ∅
  end.

Lemma New_closed_by_default_witness :
  New (fun _ => Err (EOpaque "no file")) (fun _ => Ok ∅) None example_options = Ok example_server /\
  sv_noAuth (sv_config example_server) = true /\
  (forall b, sv_bindings example_server !! "run" = Some b -> ref_Scheme (bd_Ref b) = "exec" -> AllowExec ∈ example_options).
Proof.
  assert (He : New (fun _ => Err (EOpaque "no file")) (fun _ => Ok ∅) None example_options = Ok example_server)
    by (vm_compute; reflexivity).
  split; [exact He|]. destruct (New_closed_by_default _ _ _ _ _ He) as (_ & _ & Hno & _ & _ & all & _ & _ & _ & Hb).
  split; [apply Hno; repeat constructor|]. intros b Hrun. by destruct (Hb "run" b Hrun) as (_ & Hx & _).
Defined.

Definition outage : list server_event :=
  [ SvStart; SvUpdate "db" 5 (MkUpdate (MkValue "url" "1" false 0 ∅) None);
    SvUpdate "db" 9 (MkUpdate zero_Value (Some (ESentinel ErrUnavailable))) ].

Lemma server_serves_last_known_good_witness :
  match server_run (idle example_server) outage with
  | Some r =>
      lookupFresh (ru_resolved r) "db" =
        MkAnswer (MkValue "url" "1" false 0 ∅) (MkFreshness 5 true) KindUnavailable true true
  | None => False
  end.
Proof.
  destruct (server_run (idle example_server) outage) as [r|] eqn:E; [|by vm_compute in E].
  assert (Hst : match server_run (idle example_server) outage with Some r => ru_started r | None => false end = true)
    by (vm_compute; reflexivity).
  rewrite E in Hst. destruct (server_serves_last_known_good example_server outage r E Hst) as [Hl _].
  rewrite Hl. by vm_compute.
Defined.
