(* ===== verification/Handlers.v ===== *)
(** The wire protocol of the config server (src/server/wire.go, handler.go): the
    bodies it sends, authentication and authorization of a request, the three
    value endpoints and the two probes. A handler is a function of the snapshots
    it reads; its audit records come with its response. *)

From S2P Require Import Prelude Errors GoStrings Ref Provider Decode GoNumbers GoPath Auth Server.
Open Scope string_scope.
Open Scope Z_scope.

(** * Bodies *)

(** [type errorDetail struct]. *)
Record errorDetail := MkDetail { ed_Kind : Kind; ed_Message : string }.

(** [type valueBody struct]. *)
Record valueBody := MkBody {
  vb_Name : string;
  vb_Bytes : string;
  vb_Version : string;
  vb_Sensitive : bool;
  vb_NotAfter : option Z;
  vb_Metadata : gmap string string;
  vb_Kind : Kind;
  vb_Error : option errorDetail;
  vb_ResolvedAt : option Z;
  vb_Stale : bool;
}.

Definition time_ptr (t : Z) : option Z := if IsZero t then None else Some t.

(** [func newValueBody(name, v, kind, f) valueBody]. *)
Definition newValueBody (name : string) (v : Value) (kind : Kind) (f : freshness) : valueBody :=
  MkBody name (val_Bytes v) (val_Version v) (val_Sensitive v) (time_ptr (val_NotAfter v)) (val_Metadata v) kind
    None (time_ptr (fr_resolvedAt f)) (fr_stale f).

(** [func newErrorValueBody(name, kind, message) valueBody]. *)
Definition newErrorValueBody (name : string) (kind : Kind) (message : string) : valueBody :=
  MkBody name "" "" false None ∅ "" (Some (MkDetail kind message)) None false.

(** [kindStatus] and [func statusForKind(kind mamori.Kind) int]. *)
Definition kindStatus : list (Kind * Z) :=
  [ (KindNotFound, 404); (KindInvalid, 400); (KindUnauthenticated, 401); (KindPermissionDenied, 403);
    (KindRateLimited, 429); (KindUnavailable, 503); (KindUnknown, 500) ].

Definition statusForKind (kind : Kind) : Z :=
  match find (fun ks => bool_decide (ks.1 = kind)) kindStatus with
  | Some ks => ks.2
  | None => 500
  end.

(** [func snapshotChanged(...)] on two answers: the value, kind and found of
    each. *)
Definition snapshotChanged (prev cur : answer) : bool :=
  if negb (Bool.eqb (an_found prev) (an_found cur)) || negb (bool_decide (an_kind prev = an_kind cur)) then true
  else if negb (bool_decide (val_Version (an_value cur) = "")) ||
          negb (bool_decide (val_Version (an_value prev) = ""))
  then negb (bool_decide (val_Version (an_value cur) = val_Version (an_value prev)))
  else negb (bool_decide (val_Bytes (an_value cur) = val_Bytes (an_value prev))).

(** * Responses *)

Inductive body :=
  | BError (d : errorDetail)
  | BValue (v : valueBody)
  | BBatch (values : list valueBody)
  | BStatus (state : string).

(** A response: its status, the WWW-Authenticate and Cache-Control headers, and
    the JSON body. *)
Record response := MkResponse {
  rs_status : Z;
  rs_challenge : option string;
  rs_noStore : bool;
  rs_body : body;
}.

(** [writeError(w, status, kind, message)] of a handler that forbids caching. *)
Definition writeError (status : Z) (kind : Kind) (message : string) : response :=
  MkResponse status None true (BError (MkDetail kind message)).

Definition with_challenge (c : option string) (r : response) : response :=
  MkResponse (rs_status r) c (rs_noStore r) (rs_body r).

(** [type requestOutcome struct], but for the latency. *)
Record requestOutcome := MkOutcome {
  ro_subject : string;
  ro_name : string;
  ro_decision : string;
  ro_kind : Kind;
  ro_status : Z;
  ro_method : string;
  ro_path : string;
}.

(** What guards the endpoints: [None] is [NoAuth]. *)
Record guard := MkGuard {
  g_auth : option Authenticator;
  g_policy : Policy;
  g_audit : bool;
}.

(** The guard of a server [New] returned; a server without a policy or without
    an authenticator would panic on a request. *)
Definition guard_of {W} (s : server W) : option guard :=
  match sv_policy (sv_config s) with
  | None => None
  | Some pol =>
      if sv_noAuth (sv_config s) then Some (MkGuard None pol (sv_audit (sv_config s)))
      else
        match sv_auth (sv_config s) with
        | None => None
        | Some a => Some (MkGuard (Some a) pol (sv_audit (sv_config s)))
        end
  end.

Section handlers.
Context (g : guard).
Implicit Types m : gmap string bindingSnapshot.
Implicit Types r : request.

(** [logAudit]. *)
Definition logAudit (os : list requestOutcome) : list requestOutcome := if g_audit g then os else [].

(** [func (s *Server) authenticate(w, r)]: the identity, or the response with
    the kind and status of its audit record. *)
Definition authenticate r : Identity + (response * Kind * Z) :=
  match g_auth g with
  | None => inl zero_Identity
  | Some a =>
      match Authenticate a r with
      | Ok id => inl id
      | Err err =>
          if errors_Is err ErrForbidden then
            inr (writeError 403 KindPermissionDenied "forbidden", KindPermissionDenied, 403)
          else
            inr (with_challenge (Challenge a) (writeError 401 KindUnauthenticated "unauthenticated"),
                 KindUnauthenticated, 401)
      end
  end.

Definition outcome (id : Identity) (name decision : string) (kind : Kind) (status : Z) r : requestOutcome :=
  MkOutcome (id_Subject id) name decision kind status (rq_Method r) (rq_Path r).

(** [func (s *Server) handleValue(w, r)]; [name] is the path value. *)
Definition handleValue m r (name : string) : response * list requestOutcome :=
  match authenticate r with
  | inr (resp, kind, status) => (resp, logAudit [outcome zero_Identity name "deny" kind status r])
  | inl id =>
      match g_policy g id name with
      | Some _ =>
          (writeError 403 KindPermissionDenied "permission denied",
           logAudit [outcome id name "deny" KindPermissionDenied 403 r])
      | None =>
          let a := lookupFresh m name in
          if negb (an_found a) then
            (writeError 404 KindNotFound "binding not found",
             logAudit [outcome id name "allow" KindNotFound 404 r])
          else if negb (bool_decide (an_kind a = "")) && negb (an_hasValue a) then
            let st := statusForKind (an_kind a) in
            (writeError st (an_kind a) "binding resolve failed", logAudit [outcome id name "allow" (an_kind a) st r])
          else
            (MkResponse 200 None true (BValue (newValueBody name (an_value a) (an_kind a) (an_fresh a))),
             logAudit [outcome id name "allow" (an_kind a) 200 r])
      end
  end.

(** One entry of a batch, with its audit record. *)
Definition batch_entry m r (id : Identity) (name : string) : valueBody * requestOutcome :=
  match g_policy g id name with
  | Some _ =>
      (newErrorValueBody name KindPermissionDenied "permission denied",
       outcome id name "deny" KindPermissionDenied 403 r)
  | None =>
      let a := lookupFresh m name in
      if negb (an_found a) then
        (newErrorValueBody name KindNotFound "binding not found", outcome id name "allow" KindNotFound 404 r)
      else if negb (bool_decide (an_kind a = "")) && negb (an_hasValue a) then
        (newErrorValueBody name (an_kind a) "binding resolve failed",
         outcome id name "allow" (an_kind a) (statusForKind (an_kind a)) r)
      else
        (newValueBody name (an_value a) (an_kind a) (an_fresh a), outcome id name "allow" (an_kind a) 200 r)
  end.

(** [func (s *Server) handleBatch(w, r)]; [req] is the decoded body, [None] when
    it is malformed or larger than [maxBatchBodyBytes]. *)
Definition handleBatch m r (req : option (list string)) : response * list requestOutcome :=
  match authenticate r with
  | inr (resp, kind, status) => (resp, logAudit [outcome zero_Identity "" "deny" kind status r])
  | inl id =>
      match req with
      | None =>
          (writeError 400 KindInvalid "malformed request body",
           logAudit [outcome id "" "deny" KindInvalid 400 r])
      | Some names =>
          (MkResponse 200 None true (BBatch (map (fun name => (batch_entry m r id name).1) names)),
           logAudit (map (fun name => (batch_entry m r id name).2) names))
      end
  end.

(** * The event stream *)

(** The frames of the stream. *)
Inductive frame :=
  | FUpdate (v : valueBody)
  | FError (v : valueBody)
  | FHeartbeat.

(** [sendWatchSnapshot(...)]: the frame it writes. *)
Definition watch_frame (name : string) (a : answer) : frame :=
  if negb (an_found a) then FError (newErrorValueBody name KindNotFound "binding not found")
  else if negb (bool_decide (an_kind a = "")) && negb (an_hasValue a) then
    FError (newErrorValueBody name (an_kind a) "binding resolve failed")
  else FUpdate (newValueBody name (an_value a) (an_kind a) (an_fresh a)).

(** [type watched struct]: the name and the answer last sent for it. *)
Record watched := MkWatched { wt_name : string; wt_last : answer }.

(** The first pass over the names: frames, subscriptions, audit records. *)
Fixpoint watch_subscribe m r (id : Identity) (names : list string)
    : list frame * list watched * list requestOutcome :=
  match names with
  | [] => ([], [], [])
  | name :: names =>
      let '(fs, subs, os) := watch_subscribe m r id names in
      match g_policy g id name with
      | Some _ =>
          (FError (newErrorValueBody name KindPermissionDenied "permission denied") :: fs, subs,
           outcome id name "deny" KindPermissionDenied 403 r :: os)
      | None =>
          let a := lookupFresh m name in
          let '(kind, status) :=
            if negb (an_found a) then (KindNotFound, 404)
            else if negb (bool_decide (an_kind a = "")) && negb (an_hasValue a) then
              (an_kind a, statusForKind (an_kind a))
            else (an_kind a, 200) in
          (watch_frame name a :: fs, MkWatched name a :: subs, outcome id name "allow" kind status r :: os)
      end
  end.

(** One tick of the poll: a frame for every subscription whose answer moved. *)
Fixpoint watch_poll m (subs : list watched) : list frame * list watched :=
  match subs with
  | [] => ([], [])
  | sub :: subs =>
      let '(fs, subs) := watch_poll m subs in
      let a := lookupFresh m (wt_name sub) in
      if negb (snapshotChanged (wt_last sub) a) then (fs, sub :: subs)
      else (watch_frame (wt_name sub) a :: fs, MkWatched (wt_name sub) a :: subs)
  end.

(** The ticks of a stream: a poll of the snapshots, or a heartbeat. *)
Fixpoint watch_loop (ticks : list (option (gmap string bindingSnapshot))) (subs : list watched) : list frame :=
  match ticks with
  | [] => []
  | None :: ticks => FHeartbeat :: watch_loop ticks subs
  | Some m :: ticks => let '(fs, subs) := watch_poll m subs in (fs ++ watch_loop ticks subs)%list
  end.

(** [func (s *Server) handleWatch(w, r)] on a connection that accepts every
    write: an error response, or the frames of the stream, until the context is
    done; [names] are the query parameters. *)
Definition handleWatch m r (names : list string) (canFlush : bool)
    (ticks : list (option (gmap string bindingSnapshot)))
    : (response + list frame) * list requestOutcome :=
  match authenticate r with
  | inr (resp, kind, status) => (inl resp, logAudit [outcome zero_Identity "" "deny" kind status r])
  | inl id =>
      match names with
      | [] =>
          (inl (writeError 400 KindInvalid "at least one name query parameter is required"),
           logAudit [outcome id "" "deny" KindInvalid 400 r])
      | _ =>
          if negb canFlush then
            (inl (writeError 500 KindUnknown "streaming unsupported"),
             logAudit [outcome id "" "deny" KindUnknown 500 r])
          else
            let '(fs, subs, os) := watch_subscribe m r id names in
            match subs with
            | [] => (inr fs, logAudit os)
            | _ => (inr (fs ++ watch_loop ticks subs)%list, logAudit os)
            end
      end
  end.

End handlers.

(** [handleHealthz] and [handleReadyz]. *)
Definition handleHealthz : response := MkResponse 200 None false (BStatus "ok").

Definition handleReadyz {W} (r : running W) : response :=
  let '(state, ready) := readiness (ru_draining r) (ru_resolved r) in
  MkResponse (if ready then 200 else 503) None true (BStatus state).

(** * Facts *)

Lemma snapshotChanged_irrefl a : snapshotChanged a a = false.
Proof.
  unfold snapshotChanged. rewrite eqb_reflx, bool_decide_eq_true_2 by done. simpl.
  case_match; by rewrite bool_decide_eq_true_2.
Qed.

Section facts.
Context (g : guard).
Implicit Types m : gmap string bindingSnapshot.
Implicit Types r : request.

(** Two states of the server that the caller of [r] may see alike. *)
Definition agree_for r m1 m2 : Prop :=
  forall id name, authenticate g r = inl id -> g_policy g id name = None -> m1 !! name = m2 !! name.

Lemma lookup_agree m1 m2 name : m1 !! name = m2 !! name -> lookupFresh m1 name = lookupFresh m2 name.
Proof. unfold lookupFresh. by intros ->. Qed.

Lemma batch_entry_agree m1 m2 r id name :
  authenticate g r = inl id -> agree_for r m1 m2 -> batch_entry g m1 r id name = batch_entry g m2 r id name.
Proof.
  intros Hid Ha. unfold batch_entry. destruct (g_policy g id name) eqn:Hp; [done|].
  by rewrite (lookup_agree m1 m2 name) by (by eapply Ha).
Qed.

Lemma watch_subscribe_agree m1 m2 r id names :
  authenticate g r = inl id -> agree_for r m1 m2 ->
  watch_subscribe g m1 r id names = watch_subscribe g m2 r id names.
Proof.
  intros Hid Ha. induction names as [|name names IH]; simpl; [done|]. rewrite IH.
  destruct (g_policy g id name) eqn:Hp; [done|]. by rewrite (lookup_agree m1 m2 name) by (by eapply Ha).
Qed.

(** Only permitted names are subscribed to. *)
Lemma watch_subscribe_permitted m r id names fs subs os :
  watch_subscribe g m r id names = (fs, subs, os) ->
  Forall (fun sub => g_policy g id (wt_name sub) = None) subs.
Proof.
  revert fs subs os. induction names as [|name names IH]; intros fs subs os; simpl; [by intros [= <- <- <-]|].
  destruct (watch_subscribe g m r id names) as [[fs1 subs1] os1] eqn:E. specialize (IH _ _ _ eq_refl).
  destruct (g_policy g id name) eqn:Hp; [by intros [= <- <- <-]|].
  destruct (if negb _ then _ else _) as [k st]. intros [= <- <- <-]. by constructor.
Qed.

Lemma watch_poll_agree m1 m2 subs :
  Forall (fun sub => m1 !! wt_name sub = m2 !! wt_name sub) subs -> watch_poll m1 subs = watch_poll m2 subs.
Proof.
  induction 1 as [|sub subs Hs _ IH]; simpl; [done|]. rewrite IH.
  by rewrite (lookup_agree m1 m2 (wt_name sub)).
Qed.

Lemma watch_poll_names m subs : map wt_name (watch_poll m subs).2 = map wt_name subs.
Proof.
  induction subs as [|sub subs IH]; simpl; [done|]. destruct (watch_poll m subs) as [fs subs1]. simpl in IH.
  destruct (negb _); simpl; by rewrite IH.
Qed.

Lemma watch_loop_agree r id ticks1 ticks2 subs :
  authenticate g r = inl id -> Forall (fun sub => g_policy g id (wt_name sub) = None) subs ->
  Forall2 (option_Forall2 (agree_for r)) ticks1 ticks2 ->
  watch_loop ticks1 subs = watch_loop ticks2 subs.
Proof.
  intros Hid Hs Ht. revert subs Hs. induction Ht as [|t1 t2 ticks1 ticks2 Ht _ IH]; intros subs Hs; simpl; [done|].
  destruct Ht as [m1 m2 Hm|]; [|by rewrite IH].
  assert (Hp : watch_poll m1 subs = watch_poll m2 subs).
  { apply watch_poll_agree. eapply Forall_impl; [exact Hs|]. intros sub Hperm. by eapply Hm. }
  rewrite Hp. pose proof (watch_poll_names m2 subs) as Hn. destruct (watch_poll m2 subs) as [fs subs']. simpl in Hn.
  rewrite IH; [done|].
  assert (Hs' : Forall (fun n => g_policy g id n = None) (map wt_name subs')) by (rewrite Hn; by apply Forall_map).
  exact (proj1 (Forall_map wt_name (fun n => g_policy g id n = None) subs') Hs').
Qed.

(** * The stream *)

Definition frame_name (f : frame) : option string :=
  match f with FUpdate v | FError v => Some (vb_Name v) | FHeartbeat => None end.

Definition last_frame (name : string) (fs : list frame) : option frame :=
  last (filter (fun f => frame_name f = Some name) fs).

Lemma watch_frame_name name a : frame_name (watch_frame name a) = Some name.
Proof. unfold watch_frame. by repeat case_match. Qed.

Lemma last_frame_app name fs1 fs2 :
  last_frame name (fs1 ++ fs2) = match last_frame name fs2 with Some f => Some f | None => last_frame name fs1 end.
Proof. unfold last_frame. rewrite filter_app, last_app. done. Qed.

Lemma last_frame_cons name f fs :
  last_frame name (f :: fs) =
  match last_frame name fs with
  | Some f => Some f
  | None => if decide (frame_name f = Some name) then Some f else None
  end.
Proof.
  change (f :: fs) with ([f] ++ fs)%list. rewrite last_frame_app. destruct (last_frame name fs); [done|].
  unfold last_frame. rewrite filter_cons. by case_decide.
Qed.

Lemma last_frame_absent name fs : Forall (fun f => frame_name f <> Some name) fs -> last_frame name fs = None.
Proof.
  induction 1 as [|f fs Hf _ IH]; [done|]. rewrite last_frame_cons, IH. by rewrite decide_False.
Qed.

(** A poll writes at most one frame per subscription, for the ones whose answer
    moved, and leaves each with an answer not told apart from the current one. *)
Lemma watch_poll_frames m subs : NoDup (map wt_name subs) ->
  let '(fs, subs') := watch_poll m subs in
  (forall name, name ∉ map wt_name subs -> last_frame name fs = None) /\
  forall sub', sub' ∈ subs' ->
    snapshotChanged (wt_last sub') (lookupFresh m (wt_name sub')) = false /\
    ((last_frame (wt_name sub') fs = None /\ sub' ∈ subs) \/
     last_frame (wt_name sub') fs = Some (watch_frame (wt_name sub') (wt_last sub'))).
Proof.
  induction subs as [|sub subs IH]; simpl; intros Hnd.
  { split; [done|]. by intros sub' ?%elem_of_nil. }
  apply NoDup_cons in Hnd as [Hnew Hnd]. specialize (IH Hnd).
  pose proof (watch_poll_names m subs) as Hn. destruct (watch_poll m subs) as [fs subs'].
  simpl in Hn. destruct IH as [Hno IH].
  destruct (snapshotChanged (wt_last sub) (lookupFresh m (wt_name sub))) eqn:Hc; simpl.
  - split.
    + intros name Hx. rewrite last_frame_cons, Hno by set_solver. rewrite decide_False; [done|].
      rewrite watch_frame_name. intros [= E]. apply Hx. rewrite <- E. by constructor.
    + intros sub' [->|Hin]%elem_of_cons; simpl.
      * split; [apply snapshotChanged_irrefl|]. right. rewrite last_frame_cons, Hno by done.
        by rewrite decide_True by apply watch_frame_name.
      * destruct (IH sub' Hin) as [Hs Hl]. split; [done|]. rewrite last_frame_cons.
        assert (wt_name sub' <> wt_name sub).
        { intros E. apply Hnew. rewrite <- Hn, <- E. by apply list_elem_of_fmap_2. }
        destruct Hl as [[-> ?]| -> ]; [|by right]. left. split; [|by constructor].
        rewrite decide_False; [done|]. rewrite watch_frame_name. congruence.
  - split.
    + intros name Hx. apply Hno. set_solver.
    + intros sub' [->|Hin]%elem_of_cons.
      * split; [done|]. left. split; [by apply Hno|by constructor].
      * destruct (IH sub' Hin) as [Hs [[? ?]|?]]; (split; [done|]); [left; split; [done|by constructor]|by right].
Qed.

Definition told (fs : list frame) (subs : list watched) : Prop :=
  forall sub, sub ∈ subs -> last_frame (wt_name sub) fs = Some (watch_frame (wt_name sub) (wt_last sub)).

(** The snapshots of the last poll. *)
Fixpoint last_poll m (ticks : list (option (gmap string bindingSnapshot))) : gmap string bindingSnapshot :=
  match ticks with
  | [] => m
  | Some m :: ticks => last_poll m ticks
  | None :: ticks => last_poll m ticks
  end.

Lemma watch_loop_told m ticks fs subs :
  NoDup (map wt_name subs) -> told fs subs ->
  (forall sub, sub ∈ subs -> snapshotChanged (wt_last sub) (lookupFresh m (wt_name sub)) = false) ->
  forall name, name ∈ map wt_name subs ->
  exists a, last_frame name (fs ++ watch_loop ticks subs) = Some (watch_frame name a) /\
            snapshotChanged a (lookupFresh (last_poll m ticks) name) = false.
Proof.
  revert m fs subs. induction ticks as [|[m'|] ticks IH]; intros m fs subs Hnd Ht Hc name Hname; simpl.
  - rewrite app_nil_r. apply list_elem_of_fmap in Hname as (sub & -> & Hin). exists (wt_last sub). auto.
  - pose proof (watch_poll_frames m' subs Hnd) as Hp. pose proof (watch_poll_names m' subs) as Hn.
    destruct (watch_poll m' subs) as [fs' subs']. simpl in Hn. destruct Hp as [_ Hp]. rewrite app_assoc.
    apply IH; [by rewrite Hn| |intros sub Hin; by apply Hp|by rewrite Hn].
    intros sub Hin. rewrite last_frame_app. destruct (Hp sub Hin) as [_ [[-> ?]| -> ]]; [by apply Ht|done].
  - change (FHeartbeat :: watch_loop ticks subs) with ([FHeartbeat] ++ watch_loop ticks subs)%list.
    rewrite app_assoc. apply IH; [done| |done|done]. intros sub Hin. rewrite last_frame_app. simpl. by apply Ht.
Qed.

Lemma watch_subscribe_told m r id names fs subs os :
  NoDup names -> watch_subscribe g m r id names = (fs, subs, os) ->
  told fs subs /\ NoDup (map wt_name subs) /\
  (forall f, f ∈ fs -> exists name, frame_name f = Some name /\ name ∈ names) /\
  (forall sub, sub ∈ subs -> wt_last sub = lookupFresh m (wt_name sub) /\ wt_name sub ∈ names) /\
  (forall name, name ∈ names -> g_policy g id name = None -> name ∈ map wt_name subs).
Proof.
  revert fs subs os. induction names as [|name names IH]; intros fs subs os Hnd; simpl.
  { intros [= <- <- <-]. split_and!; [by intros ? ?%elem_of_nil|constructor|by intros ? ?%elem_of_nil|
      by intros ? ?%elem_of_nil|by intros ? ?%elem_of_nil]. }
  apply NoDup_cons in Hnd as [Hnew Hnd].
  destruct (watch_subscribe g m r id names) as [[fs1 subs1] os1] eqn:E.
  destruct (IH _ _ _ Hnd eq_refl) as (Ht & Hn & Hf & Hs & Hall).
  assert (Habs : last_frame name fs1 = None).
  { apply last_frame_absent, Forall_forall. intros f Hin Hfn. destruct (Hf f Hin) as (n & ? & ?). congruence. }
  assert (Hold : forall f sub, frame_name f = Some name -> sub ∈ subs1 ->
    last_frame (wt_name sub) (f :: fs1) = Some (watch_frame (wt_name sub) (wt_last sub))).
  { intros f sub _ Hin. rewrite last_frame_cons. by rewrite (Ht sub Hin). }
  destruct (g_policy g id name) eqn:Hp.
  - intros [= <- <- <-]. split_and!; [|done| | |].
    + intros sub Hin. by apply Hold.
    + intros f [->|Hin]%elem_of_cons; [exists name; split; [done|by constructor]|].
      destruct (Hf f Hin) as (n & ? & ?). exists n. split; [done|by constructor].
    + intros sub Hin. destruct (Hs sub Hin). split; [done|by constructor].
    + intros n [->|Hin]%elem_of_cons Hq; [congruence|auto].
  - destruct (if negb _ then _ else _) as [k st]. intros [= <- <- <-]. split_and!.
    + intros sub [->|Hin]%elem_of_cons; [|apply Hold; [apply watch_frame_name|done]]. simpl.
      rewrite last_frame_cons, Habs. by rewrite decide_True by apply watch_frame_name.
    + simpl. constructor; [|done]. intros (sub & -> & Hin)%list_elem_of_fmap. by destruct (Hs sub Hin).
    + intros f [->|Hin]%elem_of_cons; [exists name; split; [apply watch_frame_name|by constructor]|].
      destruct (Hf f Hin) as (n & ? & ?). exists n. split; [done|by constructor].
    + intros sub [->|Hin]%elem_of_cons; [split; [done|by constructor]|].
      destruct (Hs sub Hin). split; [done|by constructor].
    + intros n [->|Hin]%elem_of_cons Hq; simpl; [by constructor|]. constructor. auto.
Qed.
End facts.

(** A batch answers for each name what the single endpoint answers, with the
    error inside the entry. *)
Lemma batch_is_pointwise g m r names id :
  authenticate g r = inl id ->
  rs_body (handleBatch g m r (Some names)).1 =
  BBatch (map (fun name =>
    match rs_body (handleValue g m r name).1 with
    | BValue v => v
    | BError d => newErrorValueBody name (ed_Kind d) (ed_Message d)
    | _ => newErrorValueBody name "" ""
    end) names).
Proof.
  intros Hid. unfold handleBatch, handleValue. rewrite Hid. cbn [fst rs_body]. f_equal. apply map_ext. intros name.
  unfold batch_entry. destruct (g_policy g id name); [done|]. cbv zeta.
  destruct (negb (an_found _)); [done|]. by destruct (_ && _).
Qed.

(** The last frame of a stream for a name its client may read. *)
Lemma handleWatch_current g m r id names ticks fs os name :
  NoDup names -> authenticate g r = inl id ->
  handleWatch g m r names true ticks = (inr fs, os) ->
  name ∈ names -> g_policy g id name = None ->
  exists a, last_frame name fs = Some (watch_frame name a) /\
            snapshotChanged a (lookupFresh (last_poll m ticks) name) = false.
Proof.
  intros Hnd Hid. unfold handleWatch. rewrite Hid. destruct names as [|n names]; [done|]. cbn [negb].
  destruct (watch_subscribe g m r id (n :: names)) as [[fs1 subs] os1] eqn:Es. intros Hw Hname Hperm.
  destruct (watch_subscribe_told g m r id _ _ _ _ Hnd Es) as (Ht & Hn & _ & Hs & Hall).
  specialize (Hall name Hname Hperm).
  assert (Hfs : fs = (fs1 ++ watch_loop ticks subs)%list).
  { destruct subs as [|sub subs]; [by apply elem_of_nil in Hall|]. by injection Hw as <- _. }
  rewrite Hfs. eapply watch_loop_told; [done|done| |done].
  intros sub Hin. destruct (Hs sub Hin) as [-> _]. apply snapshotChanged_irrefl.
Qed.

(** * Properties *)

Lemma all_settled m : forallb (fun ns : string * bindingSnapshot => bs_settled ns.2) (map_to_list m) = true <->
  map_Forall (fun _ snap => bs_settled snap = true) m.
Proof.
  rewrite forallb_forall. split.
  - intros H k snap Hk. apply (H (k, snap)), list_elem_of_In, elem_of_map_to_list, Hk.
  - intros H [k snap] Hin. apply list_elem_of_In, elem_of_map_to_list in Hin. by eapply H.
Qed.

(** C15. A response reveals nothing but the permitted. Two servers that differ
    only in bindings the caller of a request is not allowed to read - in their
    values, their failures, or whether they exist at all - answer it alike on the
    endpoints of values, batches and watches, in the frames of a stream and in the audit
    log; a caller who is not authenticated cannot tell any two servers apart there. The
    two probes ask nobody who they are: the one of liveness answers alike on every
    server, and the one of readiness tells no more than whether the server drains and
    whether all of its bindings have settled. *)
Theorem responses_reveal_only_permitted {W} g r m1 m2 (s1 s2 : running W) :
  (forall id name, authenticate g r = inl id -> g_policy g id name = None -> m1 !! name = m2 !! name) ->
  ru_resolved s1 = m1 -> ru_resolved s2 = m2 ->
  (forall name, handleValue g m1 r name = handleValue g m2 r name) /\
  (forall req, handleBatch g m1 r req = handleBatch g m2 r req) /\
  (forall names canFlush ticks1 ticks2,
     Forall2 (option_Forall2 (agree_for g r)) ticks1 ticks2 ->
     handleWatch g m1 r names canFlush ticks1 = handleWatch g m2 r names canFlush ticks2) /\
  (ru_draining s1 = ru_draining s2 ->
   (map_Forall (fun _ snap => bs_settled snap = true) m1 <-> map_Forall (fun _ snap => bs_settled snap = true) m2) ->
   handleReadyz s1 = handleReadyz s2).
Proof.
  intros Ha0 Hm1 Hm2. assert (Ha : agree_for g r m1 m2) by exact Ha0. clear Ha0. split_and!.
  - intros name. unfold handleValue. destruct (authenticate g r) as [id|] eqn:Hid; [|done].
    destruct (g_policy g id name) eqn:Hp; [done|]. by rewrite (lookup_agree m1 m2 name) by (by eapply Ha).
  - intros [names|]; unfold handleBatch; destruct (authenticate g r) as [id|] eqn:Hid; try done.
    assert (He : forall name, batch_entry g m1 r id name = batch_entry g m2 r id name).
    { intros name. exact (batch_entry_agree g m1 m2 r id name Hid Ha). }
    f_equal; [f_equal; f_equal|f_equal]; apply map_ext; intros name; by rewrite He.
  - intros names canFlush ticks1 ticks2 Ht. unfold handleWatch.
    destruct (authenticate g r) as [id|] eqn:Hid; [|done]. destruct names as [|n names]; [done|].
    destruct (negb canFlush); [done|]. rewrite (watch_subscribe_agree g m1 m2 r id _ Hid Ha).
    destruct (watch_subscribe g m2 r id (n :: names)) as [[fs subs] os] eqn:Es.
    pose proof (watch_subscribe_permitted g m2 r id _ _ _ _ Es) as Hs.
    rewrite (watch_loop_agree g r id ticks1 ticks2 subs Hid Hs Ht). by destruct subs.
  - intros Hd Hset. unfold handleReadyz, readiness. rewrite Hm1, Hm2, Hd, <- !all_settled in *.
    destruct (ru_draining s2); [done|]. destruct (forallb _ (map_to_list m1)), (forallb _ (map_to_list m2)); naive_solver.
Qed.

(** A stream is current. The last frame a client of the stream has for a
    name it may read was built from an answer that the latest poll does not tell
    from the current one: same presence, same failure kind, same version - or
    same bytes when there is no version. *)
Theorem stream_is_current g m r id names ticks fs os name :
  NoDup names -> authenticate g r = inl id ->
  handleWatch g m r names true ticks = (inr fs, os) ->
  name ∈ names -> g_policy g id name = None ->
  exists a, last_frame name fs = Some (watch_frame name a) /\
            snapshotChanged a (lookupFresh (last_poll m ticks) name) = false.
Proof. apply handleWatch_current. Qed.

(** * An instance *)

Definition team_guard : guard :=
  MkGuard (Some (bearerToken "t0k")) (PrefixPolicy {["bearer" := ["team/*"]]}) true.

Definition team_request : request :=
  MkRequest "GET" "/v1/values" (fun h => if bool_decide (h = "Authorization") then "Bearer t0k" else "") None None.

Definition fetched (bytes version : string) : bindingSnapshot :=
  apply 5 (MkUpdate (MkValue bytes version true 0 ∅) None) pending.

Definition snapshots (db : string) (secret : option string) : gmap string bindingSnapshot :=
  match secret with
  | Some s => {["team/db" := fetched db "1"; "root/key" := fetched s "1"]}
  | None => {["team/db" := fetched db "1"]}
  end.

Definition serving (m : gmap string bindingSnapshot) : running unit := MkRunning (MkServer zero_config ∅) false false true false m ∅ 0.

Lemma responses_reveal_only_permitted_witness :
  rs_status (handleValue team_guard (snapshots "url" (Some "k1")) team_request "team/db").1 = 200 /\
  handleValue team_guard (snapshots "url" (Some "k1")) team_request "root/key" =
  handleValue team_guard (snapshots "url" None) team_request "root/key" /\
  handleReadyz (serving (snapshots "url" (Some "k1"))) = handleReadyz (serving (snapshots "url" None)).
Proof.
  split; [by vm_compute|].
  destruct (responses_reveal_only_permitted team_guard team_request (snapshots "url" (Some "k1")) (snapshots "url" None)
    (serving (snapshots "url" (Some "k1"))) (serving (snapshots "url" None))) as (Hv & _ & _ & Hr); [|done|done|].
  - intros id name Hid. vm_compute in Hid. injection Hid as <-. unfold snapshots.
    destruct (decide (name = "root/key")) as [->|Hne]; [by vm_compute|]. intros _.
    destruct (decide (name = "team/db")) as [->|Hne']; [done|].
    rewrite lookup_insert_ne, !lookup_singleton_ne by congruence. done.
  - split; [apply Hv|]. apply Hr; [done|]. split; intros _; apply all_settled; vm_compute; reflexivity.
Defined.

(** A token is renewed under a stream: the client is sent the new version. *)
Lemma stream_is_current_witness :
  let m := snapshots "old" None in
  let m' := {["team/db" := fetched "new" "2"]} in
  exists fs os, handleWatch team_guard m team_request ["team/db"; "root/key"] true [None; Some m'] = (inr fs, os) /\
    length fs = 4%nat /\
    exists a, last_frame "team/db" fs = Some (watch_frame "team/db" a) /\
      snapshotChanged a (lookupFresh m' "team/db") = false.
Proof.
  intros m m'. destruct (handleWatch team_guard m team_request ["team/db"; "root/key"] true [None; Some m'])
    as [[resp|fs] os] eqn:E; [vm_compute in E; done|].
  exists fs, os. split; [done|]. split.
  - assert (Hl : match (handleWatch team_guard m team_request ["team/db"; "root/key"] true [None; Some m']).1 with
      | inr fs => length fs = 4%nat | inl _ => False end) by (vm_compute; reflexivity).
    rewrite E in Hl. exact Hl.
  - apply (stream_is_current team_guard m team_request (subject "bearer") ["team/db"; "root/key"] [None; Some m'] fs os "team/db").
    + repeat constructor; set_solver.
    + by vm_compute.
    + exact E.
    + constructor.
    + by vm_compute.
Defined.
