(* ===== verification/SSE.v ===== *)
(** Server-sent events (src/providers/httpcore/sse.go, and the frames
    src/server/wire.go writes): the bounded decoder over a byte stream, the
    encoding of a frame, and their round trip. A stream is the bytes its reader
    returned and the error it ended with. *)

From S2P Require Import Prelude Errors GoStrings Ref Provider.
Open Scope string_scope.
Open Scope Z_scope.

(** * The decoder *)

Definition LF : ascii := byte_of 10.
Definition CR : ascii := byte_of 13.

(** [type SSEEvent struct] and [type SSEConfig struct]. *)
Record SSEEvent := MkEvent { ev_Name : string; ev_Data : string }.
Record SSEConfig := MkSSE { MaxLine : Z; MaxFrame : Z }.

#[export] Instance SSEEvent_eq_dec : EqDecision SSEEvent.
Proof. solve_decision. Defined.

Definition DefaultSSEMaxLine : Z := 2 ^ 20.
Definition DefaultSSEMaxFrame : Z := 2 ^ 20.

Definition ErrSSELineTooLong : error :=
  EWrap "httpcore: SSE line exceeds the configured limit" [ESentinel ErrUnavailable].
Definition ErrSSEFrameTooLong : error :=
  EWrap "httpcore: SSE frame exceeds the configured limit" [ESentinel ErrUnavailable].
Definition io_EOF : error := EOpaque "EOF".

(** [type SSEDecoder struct] and [func NewSSEDecoder(r, cfg)]. *)
Record SSEDecoder := MkDecoder { sd_maxLine : Z; sd_maxFrame : Z }.

Definition NewSSEDecoder (cfg : SSEConfig) : SSEDecoder :=
  MkDecoder (if MaxLine cfg <=? 0 then DefaultSSEMaxLine else MaxLine cfg)
            (if MaxFrame cfg <=? 0 then DefaultSSEMaxFrame else MaxFrame cfg).

Definition str_len (s : string) : Z := Z.of_nat (String.length s).

(** [bufio.ScanLines] over the whole stream: the lines with their carriage
    returns; a last line without a newline counts unless it is empty. *)
Definition ScanLines (s : string) : list string :=
  let ps := Split s LF in
  match last ps with
  | Some EmptyString => removelast ps
  | _ => ps
  end.

Definition dropCR (line : string) : string := TrimSuffix line (String CR "").

(** [func (d *SSEDecoder) Next()] on the lines that are left, with its four
    accumulators; [fin] is the error the reader ended with. A line too long for
    the scanner is one too long for the check that follows it. *)
Fixpoint Next_loop (d : SSEDecoder) (fin : error) (name data : string) (haveField haveData : bool)
    (lines : list string) : list string * res SSEEvent :=
  match lines with
  | [] => ([], Err fin)
  | raw :: lines =>
      if sd_maxLine d <? str_len raw then ([], Err ErrSSELineTooLong)
      else
        match dropCR raw with
        | EmptyString =>
            if haveField then (lines, Ok (MkEvent name data))
            else Next_loop d fin name data haveField haveData lines
        | String c _ as line =>
            if ascii_eqb c ":" then Next_loop d fin name data haveField haveData lines
            else
              let '(field, value) := match Cut line ":" with Some fv => fv | None => (line, "") end in
              let value := TrimPrefix value " " in
              if bool_decide (field = "event") then Next_loop d fin value data true haveData lines
              else if bool_decide (field = "data") then
                let grow := str_len value + (if haveData then 1 else 0) in
                if sd_maxFrame d <? str_len data + grow then ([], Err ErrSSEFrameTooLong)
                else
                  Next_loop d fin name (data ++ (if haveData then String LF "" else "") ++ value) true true lines
              else Next_loop d fin name data haveField haveData lines
        end
  end.

Definition Next (d : SSEDecoder) (fin : error) (lines : list string) : list string * res SSEEvent :=
  Next_loop d fin "" "" false false lines.

(** The events of a stream, until the first error. *)
Fixpoint read_events (fuel : nat) (d : SSEDecoder) (fin : error) (lines : list string) : list SSEEvent * error :=
  match fuel with
  | O => ([], fin)
  | S fuel =>
      match Next d fin lines with
      | (_, Err e) => ([], e)
      | (lines, Ok ev) => let '(evs, e) := read_events fuel d fin lines in (ev :: evs, e)
      end
  end.

(** Every event consumes a line, so as many steps as lines are enough. *)
Definition decode_stream (d : SSEDecoder) (fin : error) (s : string) : list SSEEvent * error :=
  let lines := ScanLines s in read_events (S (length lines)) d fin lines.

(** * The encoder (src/server/wire.go) *)

(** [writeSSEValue] and [writeSSEError]: the event and data lines of a frame,
    whose data is one line of JSON; [writeSSEHeartbeat]: a comment. *)
Definition writeSSE (event data : string) : string :=
  "event: " ++ event ++ String LF ("data: " ++ data ++ String LF (String LF "")).

Definition writeSSEHeartbeat : string := ": heartbeat" ++ String LF (String LF "").

(** What a server writes on a stream: frames, and heartbeats. *)
Fixpoint write_stream (frames : list (option SSEEvent)) : string :=
  match frames with
  | [] => ""
  | Some ev :: frames => writeSSE (ev_Name ev) (ev_Data ev) ++ write_stream frames
  | None :: frames => writeSSEHeartbeat ++ write_stream frames
  end.

(** * Lines *)

Lemma last_cons_ne {A} (x : A) l : l <> [] -> last (x :: l) = last l.
Proof. by destruct l. Qed.

Lemma removelast_cons_ne {A} (x : A) l : l <> [] -> removelast (x :: l) = x :: removelast l.
Proof. by destruct l. Qed.

(** A terminated line is the first line of the stream. *)
Lemma ScanLines_line line s : has_byte LF line = false -> ScanLines (line ++ String LF s) = line :: ScanLines s.
Proof.
  intros Hl. unfold ScanLines. rewrite Split_app by done. rewrite last_cons_ne by apply Split_nonempty.
  destruct (last (Split s LF)) as [[|c t]|]; [|done|done]. apply removelast_cons_ne, Split_nonempty.
Qed.

Lemma ScanLines_nil : ScanLines "" = [].
Proof. done. Qed.

(** The bytes a line must not hold to be told from its neighbours. *)
Definition plain (s : string) : Prop := has_byte LF s = false /\ has_byte CR s = false.

Lemma str_rev_has c s : has_byte c (str_rev s) = has_byte c s.
Proof.
  induction s as [|a s IH]; [done|]. rewrite str_rev_cons, has_byte_app, IH. simpl. rewrite orb_false_r, orb_comm. done.
Qed.

Lemma dropCR_plain s : has_byte CR s = false -> dropCR s = s.
Proof.
  intros Hs. unfold dropCR, TrimSuffix, HasSuffix. rewrite <- str_rev_has in Hs.
  change (str_rev (String CR "")) with (String CR ""). destruct (str_rev s) as [|a t]; [done|]. simpl in *.
  apply orb_false_iff in Hs as [Ha _]. unfold ascii_eqb in *.
  rewrite bool_decide_eq_false_2; [done|]. apply bool_decide_eq_false_1 in Ha. congruence.
Qed.

(** * One frame *)

Section frames.
Context (d : SSEDecoder) (fin : error).

(** What a server may send so that the decoder takes it: one line of JSON within
    both bounds. *)
Definition sendable (ev : SSEEvent) : Prop :=
  plain (ev_Name ev) /\ plain (ev_Data ev) /\
  str_len ("event: " ++ ev_Name ev) <= sd_maxLine d /\ str_len ("data: " ++ ev_Data ev) <= sd_maxLine d /\
  str_len (ev_Data ev) <= sd_maxFrame d.

Lemma TrimPrefix_space v : TrimPrefix (" " ++ v) " " = v.
Proof. apply (TrimPrefix_app " " v). Qed.

Lemma Next_loop_event name data hf hd n lines :
  plain n -> str_len ("event: " ++ n) <= sd_maxLine d ->
  Next_loop d fin name data hf hd (("event: " ++ n) :: lines) = Next_loop d fin n data true hd lines.
Proof.
  intros [_ Hcr] Hlen. cbn [Next_loop]. rewrite (proj2 (Z.ltb_ge _ _)) by lia.
  rewrite dropCR_plain by (rewrite has_byte_app, Hcr; done).
  change ("event: " ++ n) with (String "e" ("vent" ++ String ":" (" " ++ n))) at 1. cbn iota.
  rewrite (ascii_eqb_ne "e" ":") by done.
  change (String "e" ("vent" ++ String ":" (" " ++ n))) with ("event" ++ String ":" (" " ++ n)).
  rewrite Cut_app by done. cbv iota zeta. by rewrite TrimPrefix_space, bool_decide_eq_true_2.
Qed.

Lemma Next_loop_data name hf v lines :
  plain v -> str_len ("data: " ++ v) <= sd_maxLine d -> str_len v <= sd_maxFrame d ->
  Next_loop d fin name "" hf false (("data: " ++ v) :: lines) = Next_loop d fin name v true true lines.
Proof.
  intros [_ Hcr] Hlen Hf. cbn [Next_loop]. rewrite (proj2 (Z.ltb_ge _ _)) by lia.
  rewrite dropCR_plain by (rewrite has_byte_app, Hcr; done).
  change ("data: " ++ v) with (String "d" ("ata" ++ String ":" (" " ++ v))) at 1. cbn iota.
  rewrite (ascii_eqb_ne "d" ":") by done.
  change (String "d" ("ata" ++ String ":" (" " ++ v))) with ("data" ++ String ":" (" " ++ v)).
  rewrite Cut_app by done. cbv iota zeta. rewrite TrimPrefix_space.
  rewrite (bool_decide_eq_false_2 ("data" = "event")), bool_decide_eq_true_2 by done.
  rewrite (proj2 (Z.ltb_ge _ _)); [done|]. change (str_len "") with 0. lia.
Qed.

(** A comment and a blank line leave an idle decoder idle. *)
Lemma Next_heartbeat lines : 11 <= sd_maxLine d -> Next d fin (": heartbeat" :: "" :: lines) = Next d fin lines.
Proof.
  intros Hm. unfold Next. cbn [Next_loop]. rewrite !(proj2 (Z.ltb_ge _ _)) by (unfold str_len; simpl; lia). done.
Qed.

Lemma Next_frame ev lines : sendable ev ->
  Next d fin (("event: " ++ ev_Name ev) :: ("data: " ++ ev_Data ev) :: "" :: lines) = (lines, Ok ev).
Proof.
  intros (Hn & Hv & Hl1 & Hl2 & Hf). unfold Next. rewrite Next_loop_event, Next_loop_data by done.
  cbn [Next_loop]. assert (0 <= sd_maxLine d) by (unfold str_len in Hl1; lia).
  rewrite (proj2 (Z.ltb_ge _ _)) by (unfold str_len; simpl; lia). by destruct ev.
Qed.

(** The lines of a written frame and of a heartbeat. *)
Lemma ScanLines_frame n v s : plain n -> plain v ->
  ScanLines (writeSSE n v ++ s) = ("event: " ++ n) :: ("data: " ++ v) :: "" :: ScanLines s.
Proof.
  intros [Hn _] [Hv _]. unfold writeSSE.
  replace (("event: " ++ n ++ String LF ("data: " ++ v ++ String LF (String LF ""))) ++ s)
    with (("event: " ++ n) ++ String LF (("data: " ++ v) ++ String LF ("" ++ String LF s))).
  - rewrite ScanLines_line by (rewrite has_byte_app, Hn; done).
    rewrite ScanLines_line by (rewrite has_byte_app, Hv; done). by rewrite ScanLines_line.
  - repeat (rewrite <- str_app_assoc || rewrite str_app_cons). done.
Qed.

Lemma ScanLines_heartbeat s : ScanLines (writeSSEHeartbeat ++ s) = ": heartbeat" :: "" :: ScanLines s.
Proof.
  change (writeSSEHeartbeat ++ s) with (": heartbeat" ++ String LF ("" ++ String LF s)). by rewrite !ScanLines_line.
Qed.

(** What is left of a stream cut inside a frame. *)
Definition cut_frame (s : string) : Prop :=
  exists ev t, sendable ev /\ t <> "" /\ writeSSE (ev_Name ev) (ev_Data ev) = s ++ t.

(** Splitting a stream after a line and cutting it: inside the line, or after. *)
Lemma prefix_line line s p t :
  line ++ String LF s = p ++ t ->
  (exists u, line = p ++ u) \/ (exists p', p = line ++ String LF p' /\ s = p' ++ t).
Proof.
  revert p. induction line as [|c line IH]; intros [|a p] E.
  - left. by exists "".
  - right. rewrite str_app_cons in E. injection E as <- E. by exists p.
  - left. by exists (String c line).
  - rewrite !str_app_cons in E. injection E as <- E. destruct (IH _ E) as [[u ->]|(p' & -> & ->)].
    + left. by exists u.
    + right. by exists p'.
Qed.

Lemma ScanLines_unterminated p : has_byte LF p = false -> ScanLines p = if bool_decide (p = "") then [] else [p].
Proof.
  intros Hp. unfold ScanLines. rewrite Split_no_sep by done. simpl. case_bool_decide as E; [by subst|]. by destruct p.
Qed.

Lemma sendable_maxLine ev : sendable ev -> 7 <= sd_maxLine d.
Proof.
  intros (_ & _ & Hl & _). unfold str_len in Hl. rewrite str_length_app in Hl. simpl in Hl. lia.
Qed.

Lemma str_len_app s t : str_len (s ++ t) = str_len s + str_len t.
Proof. unfold str_len. rewrite str_length_app. lia. Qed.

Lemma plain_prefix p u : plain (p ++ u) -> plain p.
Proof. unfold plain. rewrite !has_byte_app, !orb_false_iff. tauto. Qed.

(** A last line that is cut short dispatches nothing. *)
Lemma Next_loop_last name data hf (hd : bool) p : p <> "" -> plain p -> str_len p <= sd_maxLine d ->
  (forall value, Cut p ":" = Some ("data", value) \/ (p = "data" /\ value = "") ->
     str_len data + str_len (TrimPrefix value " ") + (if hd then 1 else 0) <= sd_maxFrame d) ->
  Next_loop d fin name data hf hd [p] = ([], Err fin).
Proof.
  intros Hp [_ Hcr] Hl Hf. cbn [Next_loop]. rewrite (proj2 (Z.ltb_ge _ _)) by lia. rewrite dropCR_plain by done.
  destruct p as [|c t]; [done|]. destruct (ascii_eqb c ":"); [done|].
  set (fv := match Cut (String c t) ":" with Some fv => fv | None => (String c t, "") end).
  assert (Hfv : fv.1 = "data" -> Cut (String c t) ":" = Some ("data", fv.2) \/ (String c t = "data" /\ fv.2 = "")).
  { subst fv. destruct (Cut (String c t) ":") as [[f v]|]; simpl; [intros ->; by left|by right]. }
  destruct fv as [f v]. simpl in Hfv. case_bool_decide; [done|]. case_bool_decide as Hd; [|done].
  specialize (Hf v (Hfv Hd)). rewrite (proj2 (Z.ltb_ge _ _)) by lia. done.
Qed.

Lemma Next_loop_cut_event p u n : p <> "" -> plain ("event: " ++ n) -> str_len ("event: " ++ n) <= sd_maxLine d ->
  "event: " ++ n = p ++ u -> Next d fin [p] = ([], Err fin).
Proof.
  intros Hp Hpl Hl E. rewrite E in Hpl, Hl. rewrite str_len_app in Hl.
  apply Next_loop_last; [done|by eapply plain_prefix|unfold str_len in *; lia|].
  intros value Hv. exfalso. destruct p as [|c t]; [done|]. rewrite !str_app_cons in E. injection E as <- _.
  destruct Hv as [[Hv _]%Cut_Some|[Hv _]]; discriminate Hv.
Qed.

Lemma Next_loop_cut_data name p u v : p <> "" -> plain ("data: " ++ v) -> str_len ("data: " ++ v) <= sd_maxLine d ->
  str_len v <= sd_maxFrame d -> "data: " ++ v = p ++ u -> Next_loop d fin name "" true false [p] = ([], Err fin).
Proof.
  intros Hp Hpl Hl Hf E. rewrite E in Hpl, Hl. rewrite str_len_app in Hl.
  apply Next_loop_last; [done|by eapply plain_prefix|unfold str_len in *; lia|].
  assert (Hv : 0 <= str_len v) by (unfold str_len; lia).
  intros value [Hc|[_ ->]]; [|change (str_len (TrimPrefix "" " ")) with 0; change (str_len "") with 0; lia].
  apply Cut_Some in Hc as [-> _]. rewrite <- str_app_assoc in E.
  change ("data: " ++ v) with ("data" ++ String ":" (" " ++ v)) in E.
  rewrite !str_app_cons in E. injection E as E. change (String " " ("" ++ v)) with (String " " v) in E.
  destruct value as [|c w]; [change (str_len (TrimPrefix "" " ")) with 0; change (str_len "") with 0; lia|].
  change (("" ++ String c w) ++ u) with (String c (w ++ u)) in E. injection E as <- E.
  change (TrimPrefix (String " " w) " ") with (TrimPrefix (" " ++ w) " "). rewrite TrimPrefix_space.
  rewrite E, str_len_app in Hf. change (str_len "") with 0. unfold str_len in *. lia.
Qed.

(** A frame cut short, with the error its stream ended with. *)
Lemma Next_cut s : s = "" \/ cut_frame s -> (Next d fin (ScanLines s)).2 = Err fin.
Proof.
  intros [->|(ev & t & Hs & Ht & E)]; [done|]. pose proof (sendable_maxLine ev Hs) as Hm.
  destruct Hs as (Hn & Hv & Hl1 & Hl2 & Hf).
  assert (Hp1 : plain ("event: " ++ ev_Name ev)).
  { destruct Hn. split; rewrite has_byte_app; by apply orb_false_iff. }
  assert (Hp2 : plain ("data: " ++ ev_Data ev)).
  { destruct Hv. split; rewrite has_byte_app; by apply orb_false_iff. }
  unfold writeSSE in E. rewrite str_app_assoc in E. apply prefix_line in E as [[u E]|(p & -> & E)].
  { rewrite ScanLines_unterminated by (rewrite E in Hp1; by apply plain_prefix in Hp1 as [? _]).
    case_bool_decide; [done|]. by rewrite (Next_loop_cut_event s u (ev_Name ev)). }
  rewrite ScanLines_line by apply Hp1. unfold Next. rewrite Next_loop_event by done.
  rewrite str_app_assoc in E. apply prefix_line in E as [[u E]|(p' & -> & E)].
  { rewrite ScanLines_unterminated by (rewrite E in Hp2; by apply plain_prefix in Hp2 as [? _]).
    case_bool_decide; [done|]. by rewrite (Next_loop_cut_data _ p u (ev_Data ev)). }
  rewrite ScanLines_line by apply Hp2. rewrite Next_loop_data by done.
  destruct p' as [|c p']; [done|]. rewrite str_app_cons in E. injection E as _ E.
  destruct p' as [|c2 p']; [by destruct t|by rewrite str_app_cons in E].
Qed.

Lemma read_written frames tail fuel :
  Forall (fun f => match f with Some ev => sendable ev | None => 11 <= sd_maxLine d end) frames ->
  (Next d fin (ScanLines tail)).2 = Err fin ->
  (length (omap id frames) < fuel)%nat ->
  read_events fuel d fin (ScanLines (write_stream frames ++ tail)) = (omap id frames, fin).
Proof.
  intros Hf Ht. revert fuel. induction Hf as [|[ev|] frames Hev _ IH]; intros fuel Hfuel; simpl in *.
  - destruct fuel as [|fuel]; [lia|]. change ("" ++ tail) with tail. simpl.
    destruct (Next d fin (ScanLines tail)) as [l r]. simpl in Ht. by subst r.
  - destruct fuel as [|fuel]; [lia|]. rewrite <- str_app_assoc.
    rewrite ScanLines_frame by apply Hev. cbn [read_events]. rewrite Next_frame by done.
    rewrite IH; [done|]. apply Nat.succ_lt_mono. exact Hfuel.
  - rewrite <- str_app_assoc, ScanLines_heartbeat.
    specialize (IH fuel Hfuel). destruct fuel as [|fuel]; [lia|].
    cbn [read_events] in *. by rewrite Next_heartbeat.
Qed.

Lemma written_lines frames tail :
  Forall (fun f => match f with Some ev => sendable ev | None => True end) frames ->
  (length (omap id frames) <= length (ScanLines (write_stream frames ++ tail)))%nat.
Proof.
  induction 1 as [|[ev|] frames Hev _ IH]; cbn [write_stream]; [apply Nat.le_0_l| |].
  - rewrite <- str_app_assoc, ScanLines_frame by apply Hev. apply le_n_S. do 2 apply le_S. exact IH.
  - rewrite <- str_app_assoc, ScanLines_heartbeat. do 2 apply le_S. exact IH.
Qed.
End frames.

(** Decoding what was written, with the last frame cut short. *)
Lemma decode_written d fin frames tail :
  Forall (fun f => match f with Some ev => sendable d ev | None => 11 <= sd_maxLine d end) frames ->
  tail = "" \/ cut_frame d tail ->
  decode_stream d fin (write_stream frames ++ tail) = (omap id frames, fin).
Proof.
  intros Hf Ht. apply read_written; [done|by apply Next_cut|]. apply Nat.lt_succ_r, (written_lines d).
  eapply Forall_impl; [exact Hf|]. by intros [ev|].
Qed.

(** * Properties *)

(** C13. A stream of events survives its framing, wherever it is cut. Whatever
    frames and heartbeats a server wrote, the decoder returns those frames, each
    once and in order, and then the error the stream ended with; the stretch of a
    frame the connection was cut in yields nothing, so no half-read payload is
    ever delivered. *)
Theorem stream_roundtrip d fin frames tail :
  Forall (fun f => match f with Some ev => sendable d ev | None => 11 <= sd_maxLine d end) frames ->
  tail = "" \/ cut_frame d tail ->
  decode_stream d fin (write_stream frames ++ tail) = (omap id frames, fin).
Proof. apply decode_written. Qed.

(** The bounds, on every stream whatever. *)
Lemma str_take_len n s : str_len (str_take n s) <= str_len s.
Proof.
  revert n. unfold str_len. induction s as [|c s IH]; intros [|n]; simpl; [lia..|]. specialize (IH n). lia.
Qed.

Lemma str_drop_len n s : str_len (str_drop n s) <= str_len s.
Proof.
  revert n. unfold str_len. induction s as [|c s IH]; intros [|n]; simpl; [lia..|]. specialize (IH n). lia.
Qed.

Lemma field_len line field value :
  match Cut line ":" with Some fv => fv | None => (line, "") end = (field, value) ->
  str_len (TrimPrefix value " ") <= str_len line.
Proof.
  intros E. assert (Hv : str_len value <= str_len line).
  { destruct (Cut line ":") as [[f v]|] eqn:Ec; injection E as <- <-; [|unfold str_len; simpl; lia].
    apply Cut_Some in Ec as [-> _]. rewrite str_len_app. unfold str_len. simpl. lia. }
  etrans; [|exact Hv]. unfold TrimPrefix. destruct (HasPrefix value _); [apply str_drop_len|lia].
Qed.

Lemma Next_loop_bounds d fin lines name data hf hd rest ev :
  str_len name <= sd_maxLine d -> str_len data <= sd_maxFrame d ->
  Next_loop d fin name data hf hd lines = (rest, Ok ev) ->
  str_len (ev_Name ev) <= sd_maxLine d /\ str_len (ev_Data ev) <= sd_maxFrame d.
Proof.
  revert name data hf hd. induction lines as [|raw lines IH]; intros name data hf hd Hn Hd; cbn [Next_loop]; [done|].
  destruct (Z.ltb_spec (sd_maxLine d) (str_len raw)) as [|Hraw]; [done|].
  assert (Hline : str_len (dropCR raw) <= sd_maxLine d).
  { unfold dropCR, TrimSuffix. case_match; [pose proof (str_take_len (String.length raw - String.length (String CR "")) raw)|]; lia. }
  destruct (dropCR raw) as [|c t]; [destruct hf; [by intros [= <- <-]|by apply IH]|].
  destruct (ascii_eqb c ":"); [by apply IH|].
  destruct (match Cut (String c t) ":" with Some fv => fv | None => (String c t, "") end) as [f v] eqn:Efv.
  apply field_len in Efv. case_bool_decide; [apply IH; lia|]. case_bool_decide; [|by apply IH].
  destruct (Z.ltb_spec (sd_maxFrame d) (str_len data + (str_len (TrimPrefix v " ") + (if hd then 1 else 0)))) as [|Hg];
    [done|]. apply IH; [done|]. rewrite !str_len_app. destruct hd; unfold str_len in *; simpl; lia.
Qed.

(** The decoder's memory is bounded. Whatever bytes a server sends, an event
    that is delivered has a name no longer than a line may be and data no longer
    than a frame may be. *)
Theorem events_bounded d fin s ev :
  0 <= sd_maxLine d -> 0 <= sd_maxFrame d -> ev ∈ (decode_stream d fin s).1 ->
  str_len (ev_Name ev) <= sd_maxLine d /\ str_len (ev_Data ev) <= sd_maxFrame d.
Proof.
  intros Hl Hf. unfold decode_stream. generalize (S (length (ScanLines s))) as fuel. generalize (ScanLines s) as lines.
  intros lines fuel. revert lines. induction fuel as [|fuel IH]; intros lines; simpl; [by intros ?%elem_of_nil|].
  destruct (Next d fin lines) as [rest [e0|e]] eqn:E; [|by intros ?%elem_of_nil].
  specialize (IH rest). destruct (read_events fuel d fin rest) as [evs e]. simpl.
  intros [->|Hin]%elem_of_cons; [|by apply IH].
  eapply Next_loop_bounds; [| |exact E]; unfold str_len; simpl; lia.
Qed.

(** * Instances *)

Definition default_decoder : SSEDecoder := NewSSEDecoder (MkSSE 0 0).
Definition update_event : SSEEvent := MkEvent "update" "{1}".

(** A stream cut inside its second frame. *)
Lemma stream_roundtrip_witness :
  decode_stream default_decoder io_EOF (write_stream [None; Some update_event] ++ "event: upd") = ([update_event], io_EOF).
Proof.
  apply (stream_roundtrip default_decoder io_EOF [None; Some update_event] "event: upd").
  - repeat constructor; vm_compute; done.
  - right. exists update_event, ("ate" ++ String LF ("data: {1}" ++ String LF (String LF ""))).
    split; [repeat split; vm_compute; done|]. split; [done|by vm_compute].
Defined.

Lemma events_bounded_witness :
  str_len (ev_Data update_event) <= sd_maxFrame default_decoder.
Proof.
  apply (events_bounded default_decoder io_EOF (write_stream [Some update_event]) update_event); [done|done|].
  vm_compute. apply elem_of_cons. by left.
Defined.
