(* ===== verification/Client.v ===== *)
(** The mamori:// provider (src/providers/mamori: mamori.go, resolve.go,
    batch.go, failover.go): a client of the config server. The HTTP transport is
    a function of each endpoint, as a provider is; [encoding/json] and
    [net/url.Parse] are parameters. *)

From S2P Require Import Prelude Errors GoStrings Ref Provider GoPath Auth Server Handlers.
Open Scope string_scope.
Open Scope Z_scope.

(** * The wire *)

(** [utf8.ValidString]; a rune takes at least one byte. *)
Fixpoint utf8_loop (fuel : nat) (s : string) : bool :=
  match fuel, s with
  | S fuel, String _ _ =>
      let '(r, n) := DecodeRune s in
      if (r =? RuneError) && (n =? 1)%nat then false else utf8_loop fuel (str_drop n s)
  | _, _ => true
  end.

Definition ValidString (s : string) : bool := utf8_loop (String.length s) s.

(** An instant a JSON document can hold: the zero time is in year 1, and
    RFC 3339 stops at year 9999. *)
Definition json_time (t : option Z) : bool :=
  match t with Some t => (0 <=? t) && (t <? 3652058 * 86400 * Second) | None => true end.

(** The texts and instants of a body that [encoding/json] carries unchanged:
    it replaces invalid UTF-8 and refuses an instant out of range. *)
Definition detail_clean (d : errorDetail) : bool := ValidString (ed_Kind d) && ValidString (ed_Message d).

Definition body_clean (v : valueBody) : bool :=
  ValidString (vb_Name v) && ValidString (vb_Version v) && ValidString (vb_Kind v) &&
  forallb (fun kv => ValidString kv.1 && ValidString kv.2) (map_to_list (vb_Metadata v)) &&
  json_time (vb_NotAfter v) && json_time (vb_ResolvedAt v) &&
  match vb_Error v with Some d => detail_clean d | None => true end.

(** [encoding/json] on the bodies of both sides, [None] when decoding returns an
    error, and what its documentation promises of them: a body survives the trip, as one line,
    and a byte of text becomes at most six. *)
Class Wire := {
  encode : body -> string;
  decode_value : string -> option valueBody;
  decode_error : string -> option errorDetail;
  decode_batch : string -> option (list valueBody);
  encode_names : list string -> string;
  decode_names : string -> option (list string);
  value_roundtrip v : body_clean v = true -> decode_value (encode (BValue v)) = Some v;
  error_roundtrip d : detail_clean d = true -> decode_error (encode (BError d)) = Some d;
  error_length d :
    (String.length (encode (BError d)) <= 35 + 6 * (String.length (ed_Kind d) + String.length (ed_Message d)))%nat;
  batch_roundtrip vs : forallb body_clean vs = true -> decode_batch (encode (BBatch vs)) = Some vs;
  names_roundtrip ns : forallb ValidString ns = true -> decode_names (encode_names ns) = Some ns;
}.

(** [type http.Request] and [type http.Response], as far as the code reads
    them. *)
Record http_request := MkHTTP {
  hq_Method : string;
  hq_Base : string;
  hq_Path : string;
  hq_Header : gmap string string;
  hq_Body : string;
}.

Record http_response := MkReply { hr_StatusCode : Z; hr_Body : string }.

(** * The provider *)

(** [type endpoint struct]: the base URL, and the HTTP client's [Do]. *)
Record endpoint (W : Type) := MkEndpoint {
  ep_baseURL : string;
  ep_Do : http_request -> W -> W * res http_response;
}.
Arguments MkEndpoint {W}.
Arguments ep_baseURL {W}.
Arguments ep_Do {W}.

(** [type Config struct]: whether a TLS configuration is set, and the injected
    client. *)
Record client_Config (W : Type) := MkClientConfig {
  cfg_Endpoint : string;
  cfg_Endpoints : list string;
  cfg_TLSConfig : bool;
  cfg_InsecureNoTLS : bool;
  cfg_HTTPClient : option (http_request -> W -> W * res http_response);
}.
Arguments MkClientConfig {W}.
Arguments cfg_Endpoint {W}.
Arguments cfg_Endpoints {W}.
Arguments cfg_TLSConfig {W}.
Arguments cfg_InsecureNoTLS {W}.
Arguments cfg_HTTPClient {W}.

(** [type Provider struct]. *)
Record Client (W : Type) := MkClient {
  cl_endpoints : list (endpoint W);
  cl_requestEditors : list (http_request -> http_request);
  cl_endpointErr : option error;
  cl_closed : bool;
}.
Arguments MkClient {W}.
Arguments cl_endpoints {W}.
Arguments cl_requestEditors {W}.
Arguments cl_endpointErr {W}.
Arguments cl_closed {W}.

(** [type Option], a function of a Provider. *)
Inductive ClientOption (W : Type) :=
  | WithRequestEditor (fn : option (http_request -> http_request))
  | WithHeader (key value : string)
  | WithHTTPClient (c : option (http_request -> W -> W * res http_response)).
Arguments WithRequestEditor {W}.
Arguments WithHeader {W}.
Arguments WithHTTPClient {W}.

Definition errInvalidConfig (msg : string) : error := EWrap msg [ESentinel ErrInvalid].
Definition errProviderClosed : error := EWrap "mamori: provider is closed" [ESentinel ErrUnavailable].

(** [strings.TrimRight(s, "/")]. *)
Fixpoint drop_slashes (s : string) : string :=
  match s with
  | String c t => if ascii_eqb c "/" then drop_slashes t else s
  | EmptyString => ""
  end.
Definition TrimRightSlash (s : string) : string := str_rev (drop_slashes (str_rev s)).

(** How an endpoint is reached: its socket, or its URL. *)
Inductive transport := Unix (path : string) | Bare.

Section provider.
Context {W : Type}.
Context (url_Parse : string -> option (string * string)).
Context (http_Client : transport -> bool -> http_request -> W -> W * res http_response).
Implicit Types p : Client W.

(** [func parseEndpoint(endpoint, insecure)]; [url.Parse] gives the scheme and
    the path. *)
Definition parseEndpoint (endpoint : string) (insecure : bool) : res (string * transport) :=
  if bool_decide (endpoint = "") then Err (errInvalidConfig "empty mamori endpoint")
  else
    match url_Parse endpoint with
    | None => Err (errInvalidConfig "parsing mamori endpoint")
    | Some (sch, path) =>
        if bool_decide (sch = "unix") then
          if bool_decide (path = "") then Err (errInvalidConfig "unix mamori endpoint has no socket path")
          else Ok ("http://unix", Unix path)
        else if bool_decide (sch = "https") then Ok (TrimRightSlash endpoint, Bare)
        else if bool_decide (sch = "http") then
          if negb insecure then Err (errInvalidConfig "plaintext mamori endpoint refused")
          else Ok (TrimRightSlash endpoint, Bare)
        else Err (errInvalidConfig "unsupported mamori endpoint scheme")
    end.

(** [func configuredEndpoints(cfg Config) ([]string, error)]. *)
Definition configuredEndpoints (cfg : client_Config W) : res (list string) :=
  if negb (bool_decide (cfg_Endpoint cfg = "")) && negb (bool_decide (cfg_Endpoints cfg = [])) then
    Err (errInvalidConfig "Config.Endpoint and Config.Endpoints are both set")
  else if negb (bool_decide (cfg_Endpoints cfg = [])) then Ok (cfg_Endpoints cfg)
  else Ok [cfg_Endpoint cfg].

(** The loop of [newEndpoints]. *)
Fixpoint endpoints_loop (cfg : client_Config W) (addrs : list string) : res (list (endpoint W)) :=
  match addrs with
  | [] => Ok []
  | addr :: addrs =>
      match parseEndpoint addr (cfg_InsecureNoTLS cfg) with
      | Err e => Err e
      | Ok (baseURL, tr) =>
          let client := match cfg_HTTPClient cfg with Some c => c | None => http_Client tr (cfg_TLSConfig cfg) end in
          cons (MkEndpoint baseURL client) <$> endpoints_loop cfg addrs
      end
  end.

(** [func newEndpoints(cfg Config) ([]endpoint, error)]. *)
Definition newEndpoints (cfg : client_Config W) : res (list (endpoint W)) :=
  configuredEndpoints cfg ≫= endpoints_loop cfg.

Definition set_header (key value : string) (q : http_request) : http_request :=
  MkHTTP (hq_Method q) (hq_Base q) (hq_Path q) (<[key := value]> (hq_Header q)) (hq_Body q).

Definition apply_client_option p (o : ClientOption W) : Client W :=
  match o with
  | WithRequestEditor None => p
  | WithRequestEditor (Some fn) =>
      MkClient (cl_endpoints p) (cl_requestEditors p ++ [fn]) (cl_endpointErr p) (cl_closed p)
  | WithHeader key value =>
      MkClient (cl_endpoints p) (cl_requestEditors p ++ [set_header key value]) (cl_endpointErr p) (cl_closed p)
  | WithHTTPClient None => p
  | WithHTTPClient (Some c) =>
      MkClient (map (fun ep => MkEndpoint (ep_baseURL ep) c) (cl_endpoints p)) (cl_requestEditors p)
        (cl_endpointErr p) (cl_closed p)
  end.

(** [func New(cfg Config, opts ...Option) *Provider]. *)
Definition NewClient (cfg : client_Config W) (opts : list (ClientOption W)) : Client W :=
  let p :=
    match newEndpoints cfg with
    | Ok eps => MkClient eps [] None false
    | Err e => MkClient [] [] (Some e) false
    end in
  foldl apply_client_option p opts.

(** [func (p *Provider) Close() error]. *)
Definition client_Close p : Client W :=
  MkClient (cl_endpoints p) (cl_requestEditors p) (cl_endpointErr p) true.
End provider.

(** * Requests *)

(** [shouldEscape] in a path segment, negated, and [url.PathEscape]. *)
Definition segment_plain (c : ascii) : bool :=
  unreserved c || bool_decide (c ∈ ["$"; "&"; "+"; "="; ":"; "@"]%char).

Fixpoint PathEscape (s : string) : string :=
  match s with
  | EmptyString => ""
  | String c s =>
      if segment_plain c then String c (PathEscape s)
      else
        String "%" (String (hex_digit (nat_of_ascii c / 16))
          (String (hex_digit (nat_of_ascii c mod 16)) (PathEscape s)))
  end.

(** [url.PathUnescape]; [None] is the error. *)
Fixpoint PathUnescape (s : string) : option string :=
  match s with
  | EmptyString => Some ""
  | String c rest =>
      if ascii_eqb c "%" then
        match rest with
        | String h (String l rest') =>
            match unhex h, unhex l with
            | Some a, Some b => String (ascii_of_nat (16 * a + b)) <$> PathUnescape rest'
            | _, _ => None
            end
        | _ => None
        end
      else String c <$> PathUnescape rest
  end.

(** [wireKindSentinel] and [func sentinelForKind(kind string) error]. *)
Definition wireKindSentinel : list (Kind * sentinel) :=
  [ (KindNotFound, ErrNotFound); (KindPermissionDenied, ErrPermissionDenied);
    (KindUnauthenticated, ErrUnauthenticated); (KindUnavailable, ErrUnavailable);
    (KindRateLimited, ErrRateLimited); (KindInvalid, ErrInvalid) ].

Definition sentinelForKind (kind : string) : option sentinel :=
  match find (fun ks => bool_decide (ks.1 = kind)) wireKindSentinel with
  | Some ks => Some ks.2
  | None => None
  end.

Definition errBodyLimit : nat := 8 * 1024.

(** The error rebuilt from a wire error; [bare] is the message of an error whose
    kind no sentinel stands for. *)
Definition wire_error (bare : string) (d : errorDetail) : error :=
  match sentinelForKind (ed_Kind d) with
  | Some s => EWrap (ed_Message d) [ESentinel s]
  | None => EOpaque bare
  end.

Definition value_of_body (v : valueBody) : Value :=
  MkValue (vb_Bytes v) (vb_Version v) (vb_Sensitive v) (match vb_NotAfter v with Some t => t | None => 0 end)
    (vb_Metadata v).

(** * Failover *)

(** [authoritativeKinds] and [func shouldFailover(err error) bool]. *)
Definition authoritativeKinds : list Kind :=
  [KindNotFound; KindPermissionDenied; KindUnauthenticated; KindInvalid; KindRateLimited].

Definition authoritative (k : Kind) : bool := bool_decide (k ∈ authoritativeKinds).
Definition shouldFailover (err : error) : bool := negb (authoritative (ErrorKind (Some err))).

Section requests.
Context {W : Type} `{Wire}.
Context (url_ok : string -> bool) (ctx_done : W -> bool).
Implicit Types p : Client W.

(** The request [do] sends: the call's own edits, then the registered ones. *)
Definition edited p (edits : list (http_request -> http_request)) (q : http_request) : http_request :=
  foldl (fun q f => f q) q (edits ++ cl_requestEditors p)%list.

(** [func (p *Provider) do(ctx, ep, method, path, body, edits...)]. *)
Definition do_request p (ep : endpoint W) (method path body : string) (edits : list (http_request -> http_request))
    (w : W) : W * res http_response :=
  if cl_closed p then (w, Err errProviderClosed)
  else
    match cl_endpointErr p with
    | Some e => (w, Err e)
    | None =>
        if negb (url_ok (ep_baseURL ep ++ path)) then (w, Err (errInvalidConfig "building request"))
        else ep_Do ep (edited p edits (MkHTTP method (ep_baseURL ep) path ∅ body)) w
    end.

(** The loop of [tryEndpoints]; [lastErr] is the error of the endpoint before. *)
Fixpoint tryEndpoints_loop {T} (attempt : endpoint W -> W -> W * res T) (lastErr : error) (eps : list (endpoint W))
    (w : W) : W * res T :=
  match eps with
  | [] => (w, Err lastErr)
  | ep :: eps =>
      let '(w, got) := attempt ep w in
      match got with
      | Ok result => (w, Ok result)
      | Err err =>
          if ctx_done w then (w, Err err)
          else if negb (shouldFailover err) then (w, Err err)
          else tryEndpoints_loop attempt err eps w
      end
  end.

(** [func tryEndpoints(ctx, p, attempt)]. *)
Definition tryEndpoints {T} p (attempt : endpoint W -> W -> W * res T) (w : W) : W * res T :=
  match cl_endpointErr p with
  | Some e => (w, Err e)
  | None =>
      match cl_endpoints p with
      | [] => (w, Err (errInvalidConfig "no mamori endpoint configured"))
      | eps => tryEndpoints_loop attempt (EOpaque "") eps w
      end
  end.

(** * One value *)

(** What [resolveOnce] makes of a response. *)
Definition read_value (resp : http_response) : res Value :=
  if hr_StatusCode resp =? 200 then
    match decode_value (hr_Body resp) with
    | None => Err (errInvalidConfig "decoding mamori value response")
    | Some vb => Ok (value_of_body vb)
    end
  else
    match decode_error (str_take errBodyLimit (hr_Body resp)) with
    | None =>
        if hr_StatusCode resp =? 404
        then Err (EWrap "mamori server returned 404 with an undecodable body" [ESentinel ErrNotFound])
        else Err (EOpaque "mamori: server returned an undecodable body")
    | Some d => Err (wire_error "mamori: server returned an unknown kind" d)
    end.

Definition value_path (name : string) : string := "/v1/values/" ++ PathEscape name.

(** [func (p *Provider) resolveOnce(ctx, ep, name)]. *)
Definition resolveOnce p (name : string) (ep : endpoint W) (w : W) : W * res Value :=
  let '(w, resp) := do_request p ep "GET" (value_path name) "" [] w in
  (w, resp ≫= read_value).

(** [func (p *Provider) Resolve(ctx, ref)]. *)
Definition client_Resolve p (ref : Ref) (w : W) : W * res Value :=
  if bool_decide (ref_Path ref = "") then (w, Err (errInvalidConfig "mamori:// ref has no binding name"))
  else tryEndpoints p (resolveOnce p (ref_Path ref)) w.

(** * Batches *)

(** The first loop of [ResolveBatch]: the names, and the key of each. *)
Fixpoint batch_names (refs : list Ref) (names : list string) (keyByName : gmap string string)
    : res (list string * gmap string string) :=
  match refs with
  | [] => Ok (names, keyByName)
  | ref :: refs =>
      if bool_decide (ref_Path ref = "") then Err (errInvalidConfig "mamori:// ref has no binding name")
      else batch_names refs (names ++ [ref_Path ref]) (<[ref_Path ref := Ref_String ref]> keyByName)
  end.

(** The loop of [resolveBatchOnce] over the entries of a response. *)
Fixpoint read_entries (keyByName : gmap string string) (result : gmap string Value) (entries : list valueBody)
    : res (gmap string Value) :=
  match entries with
  | [] => Ok result
  | entry :: entries =>
      match keyByName !! vb_Name entry with
      | None => read_entries keyByName result entries
      | Some key =>
          match vb_Error entry with
          | None => read_entries keyByName (<[key := value_of_body entry]> result) entries
          | Some d =>
              if bool_decide (ed_Kind d = KindNotFound) then read_entries keyByName result entries
              else Err (wire_error "mamori: batch entry failed with an unknown kind" d)
          end
      end
  end.

(** What [resolveBatchOnce] makes of a response. *)
Definition read_batch (keyByName : gmap string string) (resp : http_response) : res (gmap string Value) :=
  if negb (hr_StatusCode resp =? 200) then
    match decode_error (str_take errBodyLimit (hr_Body resp)) with
    | None => Err (EOpaque "mamori: batch request returned an undecodable body")
    | Some d => Err (wire_error "mamori: batch request returned an unknown kind" d)
    end
  else
    match decode_batch (hr_Body resp) with
    | None => Err (errInvalidConfig "decoding mamori batch response")
    | Some entries => read_entries keyByName ∅ entries
    end.

(** [func (p *Provider) resolveBatchOnce(ctx, ep, reqBody, keyByName)]. *)
Definition resolveBatchOnce p (reqBody : string) (keyByName : gmap string string) (ep : endpoint W) (w : W)
    : W * res (gmap string Value) :=
  let '(w, resp) := do_request p ep "POST" "/v1/values" reqBody [] w in
  (w, resp ≫= read_batch keyByName).

(** [func (p *Provider) ResolveBatch(ctx, refs)]. *)
Definition client_ResolveBatch p (refs : list Ref) (w : W) : W * res (gmap string Value) :=
  match batch_names refs [] ∅ with
  | Err e => (w, Err e)
  | Ok (names, keyByName) => tryEndpoints p (resolveBatchOnce p (encode_names names) keyByName) w
  end.

(** The provider as the library sees it. *)
Definition mamori_provider p : Provider W :=
  MkProvider "mamori" (client_Resolve p) (Some (client_ResolveBatch p)) true.
End requests.

(** * The server behind an endpoint *)

(** What a connection adds to a request; header names are canonical. *)
Record connection := MkConnection { cn_TLS : option (list certificate); cn_PeerCred : option Ucred }.

(** One replica, at a moment: what guards it, and what it holds. *)
Record replica := MkReplica {
  rp_guard : guard;
  rp_snapshots : gmap string bindingSnapshot;
  rp_conn : connection;
}.

Definition request_of (c : connection) (q : http_request) : request :=
  MkRequest (hq_Method q) (hq_Path q) (go_get (hq_Header q)) (cn_TLS c) (cn_PeerCred c).

(** [GET /v1/values/{name}] of [http.ServeMux]: one segment, unescaped; a path
    that is not clean is redirected. *)
Definition value_name (path : string) : option string :=
  if HasPrefix path "/v1/values/" then
    let seg := str_drop 11 path in
    if has_byte "/" seg || bool_decide (seg ∈ [""; "."; ".."]) then None else PathUnescape seg
  else None.

Definition maxBatchBodyBytes : Z := 2 ^ 20.

Section serving.
Context `{Wire}.

Definition respond (r : response) : http_response := MkReply (rs_status r) (encode (rs_body r)).

Definition not_found_page : http_response := MkReply 404 "404 page not found".

(** The two value routes of [func (s *Server) Handler() http.Handler]. *)
Definition serve (rep : replica) (q : http_request) : http_response :=
  let r := request_of (rp_conn rep) q in
  if bool_decide (hq_Method q = "GET") then
    match value_name (hq_Path q) with
    | Some name => respond (handleValue (rp_guard rep) (rp_snapshots rep) r name).1
    | None => not_found_page
    end
  else if bool_decide (hq_Method q = "POST") && bool_decide (hq_Path q = "/v1/values") then
    let req :=
      if maxBatchBodyBytes <? Z.of_nat (String.length (hq_Body q)) then None else decode_names (hq_Body q) in
    respond (handleBatch (rp_guard rep) (rp_snapshots rep) r req).1
  else not_found_page.
End serving.

(** * What a replica answers *)

(** The answer a replica has for a name: a value, or the kind of a failure. *)
Definition remote (g : guard) (m : gmap string bindingSnapshot) (r : request) (name : string) : Value + Kind :=
  match authenticate g r with
  | inr (_, kind, _) => inr kind
  | inl id =>
      match g_policy g id name with
      | Some _ => inr KindPermissionDenied
      | None =>
          match m !! name with
          | None => inr KindNotFound
          | Some s => if bs_hasValue s then inl (bs_value s) else inr (bs_kind s)
          end
      end
  end.

Definition kinds : list Kind := map fst kindStatus.

(** A snapshot of a running server: what it holds can be written as JSON, and a
    failure without a value has a kind. *)
Definition snapshot_ok (name : string) (s : bindingSnapshot) : Prop :=
  if bs_hasValue s then
    body_clean (newValueBody name (bs_value s) (bs_kind s) (an_fresh (lookupFresh {[name := s]} name))) = true
  else bs_kind s ∈ kinds.

(** * Facts *)

Lemma PathUnescape_byte c s r :
  PathUnescape s = Some r -> PathUnescape (PathEscape (String c "") ++ s) = Some (String c r).
Proof.
  intros Hs. cbn [PathEscape]. destruct (segment_plain c) eqn:Hu.
  - change (String c "" ++ s) with (String c s). cbn [PathUnescape]. rewrite Hs.
    assert (Hp : implb (segment_plain c) (negb (ascii_eqb c "%")) = true).
    { revert c Hu. intros c _. revert c. by apply all_bytes_spec. }
    rewrite Hu in Hp. simpl in Hp. apply negb_true_iff in Hp. by rewrite Hp.
  - destruct (unhex_hex_digit c) as [H1 H2]. rewrite !str_app_cons. cbn [PathUnescape].
    rewrite ascii_eqb_refl, H1, H2. change ("" ++ s) with s. by rewrite Hs, <- Nat.div_mod_eq, ascii_nat_embedding.
Qed.

Lemma PathEscape_cons c s : PathEscape (String c s) = PathEscape (String c "") ++ PathEscape s.
Proof. cbn [PathEscape]. by destruct (segment_plain c). Qed.

Lemma PathUnescape_PathEscape s : PathUnescape (PathEscape s) = Some s.
Proof. induction s as [|c s IH]; [done|]. rewrite PathEscape_cons. by apply PathUnescape_byte. Qed.

Lemma PathEscape_no_slash s : has_byte "/" (PathEscape s) = false.
Proof.
  induction s as [|c s IH]; [done|]. rewrite PathEscape_cons, has_byte_app, IH, orb_false_r.
  assert (Hc : negb (has_byte "/" (PathEscape (String c ""))) = true) by (revert c; by apply all_bytes_spec).
  by apply negb_true_iff in Hc.
Qed.

(** The names a client can ask for by path. *)
Definition askable (name : string) : Prop := name ∉ [""; "."; ".."].

(** A name survives its escaping, its route and its unescaping. *)
Lemma value_name_path name : askable name -> value_name (value_path name) = Some name.
Proof.
  intros Hn. unfold value_name, value_path. rewrite HasPrefix_app. cbv zeta.
  change 11%nat with (String.length "/v1/values/"). rewrite str_drop_app, PathEscape_no_slash. cbn [orb].
  rewrite bool_decide_eq_false_2; [apply PathUnescape_PathEscape|]. intros Hin. apply Hn.
  assert (E : forall t, PathEscape name = t -> PathUnescape t = Some name) by (intros t <-; apply PathUnescape_PathEscape).
  rewrite !elem_of_cons in Hin. destruct Hin as [Hin|[Hin|[Hin|Hin]]]; [..|by apply elem_of_nil in Hin];
    apply E in Hin; injection Hin as <-; set_solver.
Qed.

Lemma str_take_all n s : (String.length s <= n)%nat -> str_take n s = s.
Proof. revert n. induction s as [|c s IH]; intros [|n]; simpl; intros ?; [done..|lia|]. by rewrite IH by lia. Qed.

Lemma statusForKind_failure k : statusForKind k =? 200 = false.
Proof.
  apply Z.eqb_neq. unfold statusForKind. destruct (find _ _) as [ks|] eqn:E; [|done].
  apply find_some in E as [Hin _]. simpl in Hin. by decompose [or] Hin; subst.
Qed.

Lemma kinds_short k : k ∈ kinds -> ValidString k = true /\ (String.length k <= 17)%nat.
Proof.
  unfold kinds. simpl. rewrite !elem_of_cons, elem_of_nil.
  intros [->|[->|[->|[->|[->|[->|[->|[]]]]]]]]; (split; [by vm_compute|simpl; lia]).
Qed.

(** Every error has one of the kinds of the wire, so a snapshot without a value
    has one whatever update made it. *)
Lemma ErrorKind_kinds e : ErrorKind (Some e) ∈ kinds.
Proof.
  unfold kinds. cbn [map fst kindStatus]. unfold ErrorKind.
  destruct (find (fun ks => errors_Is e ks.2) kindSentinels) as [ks|] eqn:E.
  - apply find_some in E as [Hin _]. simpl in Hin. decompose [or] Hin; subst; simpl; set_solver.
  - case_match; set_solver.
Qed.

Lemma apply_kind now up prev : (bs_hasValue prev = false -> bs_kind prev ∈ kinds) ->
  bs_hasValue (apply now up prev) = false -> bs_kind (apply now up prev) ∈ kinds.
Proof.
  intros Hprev. unfold apply. destruct (up_Err up); [|done].
  destruct (bs_hasValue prev); [done|]. intros _. apply ErrorKind_kinds.
Qed.

(** A wire error has the kind it was sent with. *)
Lemma wire_error_kind bare msg k : k ∈ kinds -> ErrorKind (Some (wire_error bare (MkDetail k msg))) = k.
Proof.
  unfold kinds. simpl. rewrite !elem_of_cons, elem_of_nil.
  by intros [->|[->|[->|[->|[->|[->|[->|[]]]]]]]].
Qed.

Definition time_back (t : Z) : match time_ptr t with Some t => t | None => 0 end = t.
Proof. unfold time_ptr, IsZero. by destruct (Z.eqb_spec t 0). Qed.

Lemma value_of_newValueBody name v k f : value_of_body (newValueBody name v k f) = v.
Proof. unfold value_of_body, newValueBody. simpl. rewrite time_back. by destruct v. Qed.

(** The messages of the server. *)
Definition messages : list string :=
  ["forbidden"; "unauthenticated"; "permission denied"; "binding not found"; "binding resolve failed";
   "malformed request body"].

Lemma messages_short m : m ∈ messages -> ValidString m = true /\ (String.length m <= 22)%nat.
Proof.
  unfold messages. rewrite !elem_of_cons, elem_of_nil.
  intros [->|[->|[->|[->|[->|[->|[]]]]]]]; (split; [by vm_compute|simpl; lia]).
Qed.

(** The two ways [authenticate] refuses. *)
Lemma authenticate_refusal g r resp k st : authenticate g r = inr (resp, k, st) ->
  k ∈ kinds /\ k <> KindNotFound /\ (rs_status resp =? 200) = false /\
  exists msg, msg ∈ messages /\ rs_body resp = BError (MkDetail k msg).
Proof.
  unfold authenticate. destruct (g_auth g) as [a|]; [|done]. destruct (Authenticate a r); [done|].
  destruct (errors_Is _ _); intros [= <- <- <-];
    (split_and!; [unfold kinds; simpl; set_solver|done|done|eexists; split; [|done]; unfold messages; set_solver]).
Qed.

Section wire_facts.
Context `{Wire}.

(** An error body of the server fits the client's limit and survives the trip. *)
Lemma read_error k msg : k ∈ kinds -> msg ∈ messages ->
  decode_error (str_take errBodyLimit (encode (BError (MkDetail k msg)))) = Some (MkDetail k msg).
Proof.
  intros [Hk Hkl]%kinds_short [Hm Hml]%messages_short.
  pose proof (error_length (MkDetail k msg)) as Hl. cbn [ed_Kind ed_Message] in Hl.
  rewrite str_take_all.
  - apply error_roundtrip. unfold detail_clean. cbn [ed_Kind ed_Message]. by rewrite Hk, Hm.
  - unfold errBodyLimit. lia.
Qed.

(** What a client reads of a failure of the server. *)
Lemma read_value_failure r k msg : (rs_status r =? 200) = false -> rs_body r = BError (MkDetail k msg) ->
  k ∈ kinds -> msg ∈ messages ->
  exists e, read_value (respond r) = Err e /\ ErrorKind (Some e) = k.
Proof.
  intros Hs Hb Hk Hm. unfold read_value, respond. cbn [hr_StatusCode hr_Body]. rewrite Hs, Hb, read_error by done.
  eexists. split; [done|]. by apply wire_error_kind.
Qed.

Lemma kind_of_snapshot name s : snapshot_ok name s -> bs_hasValue s = false ->
  bs_kind s ∈ kinds /\ negb (bool_decide (bs_kind s = "")) = true.
Proof.
  unfold snapshot_ok. intros Hs Hv. rewrite Hv in Hs. split; [done|]. rewrite bool_decide_eq_false_2; [done|].
  intros E. rewrite E in Hs. unfold kinds in Hs. simpl in Hs. set_solver.
Qed.

(** The client reads of [handleValue]'s response what the replica answers. *)
Lemma read_handleValue g m r name :
  map_Forall snapshot_ok m ->
  match read_value (respond (handleValue g m r name).1), remote g m r name with
  | Ok v, inl v' => v = v'
  | Err e, inr k => ErrorKind (Some e) = k
  | _, _ => False
  end.
Proof.
  intros Hm. unfold handleValue, remote.
  destruct (authenticate g r) as [id|[[resp k] st]] eqn:Ha; cbn [fst].
  2:{ apply authenticate_refusal in Ha as (Hk & _ & Hs & msg & Hmsg & Hb).
      destruct (read_value_failure resp k msg Hs Hb Hk Hmsg) as (e & -> & He). exact He. }
  assert (Hfail : forall st k msg, (st =? 200) = false -> k ∈ kinds -> msg ∈ messages ->
    match read_value (respond (writeError st k msg)) with Ok v => False | Err e => ErrorKind (Some e) = k end).
  { intros st k msg Hst Hk Hmsg. by destruct (read_value_failure (writeError st k msg) k msg) as (e & -> & ?). }
  destruct (g_policy g id name); cbn [fst].
  { specialize (Hfail 403 KindPermissionDenied "permission denied").
    destruct (read_value _); apply Hfail; done || (unfold kinds, messages; simpl; set_solver). }
  unfold lookupFresh. destruct (m !! name) as [s|] eqn:Hl; cbn [an_found negb].
  2:{ specialize (Hfail 404 KindNotFound "binding not found"). cbn [fst].
      destruct (read_value _); apply Hfail; done || (unfold kinds, messages; simpl; set_solver). }
  specialize (Hm name s Hl). destruct (bs_hasValue s) eqn:Hv; cbn [negb an_found an_kind an_hasValue andb].
  - rewrite andb_false_r. cbn [fst]. unfold read_value, respond. cbn [hr_StatusCode hr_Body rs_status rs_body Z.eqb Pos.eqb].
    cbn [an_value an_fresh]. rewrite value_roundtrip; [apply value_of_newValueBody|].
    unfold snapshot_ok in Hm. rewrite Hv in Hm. unfold lookupFresh in Hm. rewrite lookup_singleton_eq, Hv in Hm. exact Hm.
  - destruct (kind_of_snapshot name s Hm Hv) as [Hk Hne]. rewrite Hne. cbn [andb fst].
    specialize (Hfail (statusForKind (bs_kind s)) (bs_kind s) "binding resolve failed" (statusForKind_failure _) Hk).
    destruct (read_value _); apply Hfail; unfold messages; set_solver.
Qed.
End wire_facts.

(** * A fleet *)

(** What is behind an endpoint: a replica that answers, or a machine that cannot
    be reached. *)
Inductive node := Up (rep : replica) | Down (e : error).

Definition node_ok (n : node) : Prop :=
  match n with Up rep => map_Forall snapshot_ok (rp_snapshots rep) | Down _ => True end.

(** The answer of a fleet: of the first node that has a value or an
    authoritative failure, of the last node otherwise. *)
Fixpoint fleet_answer (last : Kind) (answers : list (Value + Kind)) : Value + Kind :=
  match answers with
  | [] => inr last
  | inl v :: _ => inl v
  | inr k :: answers => if authoritative k then inr k else fleet_answer k answers
  end.

(** A request editor that attaches credentials. *)
Definition header_only (f : http_request -> http_request) : Prop :=
  forall q, hq_Method (f q) = hq_Method q /\ hq_Path (f q) = hq_Path q /\ hq_Body (f q) = hq_Body q.

Section fleet.
Context {W : Type} `{Wire}.
Context (url_ok : string -> bool) (ctx_done : W -> bool).

Definition behaves (ep : endpoint W) (n : node) : Prop :=
  forall q w, (ep_Do ep q w).2 = match n with Up rep => Ok (serve rep q) | Down e => Err e end.

(** A provider that is open and well configured. *)
Record usable (p : Client W) : Prop := {
  us_open : cl_closed p = false;
  us_valid : cl_endpointErr p = None;
  us_editors : Forall header_only (cl_requestEditors p);
  us_urls : forall s, url_ok s = true;
}.

Context (p : Client W).
Hypothesis Hp : usable p.

(** The request for a name, and what the node behind an endpoint answers it. *)
Definition value_request (base name : string) : http_request :=
  edited p [] (MkHTTP "GET" base (value_path name) ∅ "").

Definition node_answer (name : string) (base : string) (n : node) : Value + Kind :=
  match n with
  | Down e => inr (ErrorKind (Some e))
  | Up rep =>
      remote (rp_guard rep) (rp_snapshots rep) (request_of (rp_conn rep) (value_request base name)) name
  end.

Lemma edited_header_only q :
  hq_Method (edited p [] q) = hq_Method q /\ hq_Path (edited p [] q) = hq_Path q /\
  hq_Body (edited p [] q) = hq_Body q.
Proof using Hp.
  unfold edited. simpl. pose proof (us_editors p Hp) as Hed. revert q.
  induction Hed as [|f fs Hf _ IH]; intros q; simpl; [done|]. destruct (IH (f q)) as (-> & -> & ->). apply Hf.
Qed.

Lemma do_request_open ep n method path body w : behaves ep n ->
  (do_request url_ok p ep method path body [] w).2 =
  match n with
  | Up rep => Ok (serve rep (edited p [] (MkHTTP method (ep_baseURL ep) path ∅ body)))
  | Down e => Err e
  end.
Proof using Hp.
  intros Hb. unfold do_request. rewrite (us_open p Hp), (us_valid p Hp), (us_urls p Hp). cbn [negb]. apply Hb.
Qed.

Lemma resolveOnce_answer name ep n w : askable name -> behaves ep n -> node_ok n ->
  match (resolveOnce url_ok p name ep w).2, node_answer name (ep_baseURL ep) n with
  | Ok v, inl v' => v = v'
  | Err e, inr k => ErrorKind (Some e) = k
  | _, _ => False
  end.
Proof using Hp.
  intros Hn Hb Hok. unfold resolveOnce. pose proof (do_request_open ep n "GET" (value_path name) "" w Hb) as Hr.
  destruct (do_request url_ok p ep "GET" (value_path name) "" [] w) as [w' resp]. simpl in *. subst resp.
  destruct n as [rep|e]; [|done]. simpl. unfold serve.
  destruct (edited_header_only (MkHTTP "GET" (ep_baseURL ep) (value_path name) ∅ "")) as (Hm & Hpath & _).
  rewrite Hm, Hpath. rewrite bool_decide_eq_true_2 by done. cbn [hq_Path]. rewrite value_name_path by done.
  by apply read_handleValue.
Qed.

Lemma tryEndpoints_answer name eps nodes lastErr w :
  (forall w, ctx_done w = false) -> askable name -> Forall2 behaves eps nodes -> Forall node_ok nodes ->
  match (tryEndpoints_loop ctx_done (resolveOnce url_ok p name) lastErr eps w).2,
        fleet_answer (ErrorKind (Some lastErr)) (zip_with (node_answer name) (map ep_baseURL eps) nodes) with
  | Ok v, inl v' => v = v'
  | Err e, inr k => ErrorKind (Some e) = k
  | _, _ => False
  end.
Proof using Hp.
  intros Hctx Hn Hb Hok. revert lastErr w.
  induction Hb as [|ep n eps nodes Hb _ IH]; intros lastErr w; cbn [tryEndpoints_loop map zip_with fleet_answer snd];
    [done|].
  apply Forall_cons in Hok as [Hok Hoks]. pose proof (resolveOnce_answer name ep n w Hn Hb Hok) as Ha.
  destruct (resolveOnce url_ok p name ep w) as [w' [v|e]]; cbn [snd] in Ha.
  - by destruct (node_answer name (ep_baseURL ep) n).
  - destruct (node_answer name (ep_baseURL ep) n) as [v|k]; [done|]. rewrite Hctx. unfold shouldFailover.
    rewrite Ha. destruct (authoritative k); [exact Ha|]. specialize (IH Hoks e w'). by rewrite Ha in IH.
Qed.

(** * A batch of one replica *)

Definition batch_request (base : string) (names : list string) : http_request :=
  edited p [] (MkHTTP "POST" base "/v1/values" ∅ (encode_names names)).

(** What a replica answers for one name of a batch. *)
Definition batch_answer (rep : replica) (base : string) (names : list string) (name : string) : Value + Kind :=
  remote (rp_guard rep) (rp_snapshots rep) (request_of (rp_conn rep) (batch_request base names)) name.
End fleet.

(** An entry of a batch holds what the replica answers for its name. *)
Lemma batch_entry_answer g m r id name : authenticate g r = inl id -> map_Forall snapshot_ok m ->
  vb_Name (batch_entry g m r id name).1 = name /\
  match remote g m r name with
  | inl v => vb_Error (batch_entry g m r id name).1 = None /\ value_of_body (batch_entry g m r id name).1 = v
  | inr k => k ∈ kinds /\ exists msg, msg ∈ messages /\ vb_Error (batch_entry g m r id name).1 = Some (MkDetail k msg)
  end /\
  (ValidString name = true -> body_clean (batch_entry g m r id name).1 = true).
Proof.
  intros Hid Hm. unfold remote. rewrite Hid. unfold batch_entry.
  assert (Herr : forall k msg, k ∈ kinds -> msg ∈ messages ->
    vb_Name (newErrorValueBody name k msg) = name /\
    (k ∈ kinds /\ exists msg', msg' ∈ messages /\
       vb_Error (newErrorValueBody name k msg) = Some (MkDetail k msg')) /\
    (ValidString name = true -> body_clean (newErrorValueBody name k msg) = true)).
  { intros k msg Hk Hmsg. split_and!; [done|done|by exists msg|]. intros Hv.
    unfold body_clean, newErrorValueBody, detail_clean. cbn [vb_Name vb_Version vb_Kind vb_Metadata vb_NotAfter
      vb_ResolvedAt vb_Error ed_Kind ed_Message]. rewrite Hv, map_to_list_empty. cbn.
    rewrite (proj1 (kinds_short k Hk)), (proj1 (messages_short msg Hmsg)). done. }
  destruct (g_policy g id name); cbn [fst].
  { apply Herr; unfold kinds, messages; simpl; set_solver. }
  unfold lookupFresh. destruct (m !! name) as [s|] eqn:Hl; cbn [an_found negb].
  2:{ apply Herr; unfold kinds, messages; simpl; set_solver. }
  specialize (Hm name s Hl). destruct (bs_hasValue s) eqn:Hv; cbn [negb an_found an_kind an_hasValue andb].
  - rewrite andb_false_r. cbn [fst]. split_and!; [done|done|apply value_of_newValueBody|]. intros _.
    unfold snapshot_ok in Hm. rewrite Hv in Hm. unfold lookupFresh in Hm. rewrite lookup_singleton_eq, Hv in Hm. exact Hm.
  - destruct (kind_of_snapshot name s Hm Hv) as [Hk Hne]. rewrite Hne. cbn [andb fst].
    apply Herr; [done|]. unfold messages. set_solver.
Qed.

Lemma batch_names_spec refs names0 keys0 :
  Forall (fun r => ref_Path r <> "") refs -> NoDup (map ref_Path refs) ->
  exists keys, batch_names refs names0 keys0 = Ok (names0 ++ map ref_Path refs, keys)%list /\
    (forall r, r ∈ refs -> keys !! ref_Path r = Some (Ref_String r)) /\
    (forall n, n ∉ map ref_Path refs -> keys !! n = keys0 !! n).
Proof.
  intros Hne. revert names0 keys0. induction Hne as [|r refs Hr _ IH]; intros names0 keys0 Hnd; simpl.
  { exists keys0. rewrite app_nil_r. split_and!; [done|by intros ? ?%elem_of_nil|done]. }
  simpl in Hnd. apply NoDup_cons in Hnd as [Hnew Hnd]. rewrite bool_decide_eq_false_2 by done.
  destruct (IH (names0 ++ [ref_Path r])%list (<[ref_Path r := Ref_String r]> keys0) Hnd) as (keys & -> & Hin & Hout).
  exists keys. split_and!.
  - by rewrite <- app_assoc.
  - intros r' [->|Hr']%elem_of_cons; [|by apply Hin]. rewrite Hout by done. apply lookup_insert_eq.
  - intros n Hn. rewrite Hout by set_solver. apply lookup_insert_ne. set_solver.
Qed.

(** The entries of a response, matched back to the refs they answer. *)
Lemma read_entries_spec (keys : gmap string string) (ent : string -> valueBody) (ans : string -> Value + Kind) refs result :
  (forall name, vb_Name (ent name) = name /\
     match ans name with
     | inl v => vb_Error (ent name) = None /\ value_of_body (ent name) = v
     | inr k => k ∈ kinds /\ exists msg, msg ∈ messages /\ vb_Error (ent name) = Some (MkDetail k msg)
     end) ->
  (forall r, r ∈ refs -> keys !! ref_Path r = Some (Ref_String r)) -> NoDup (map Ref_String refs) ->
  match read_entries keys result (map ent (map ref_Path refs)) with
  | Ok got =>
      (forall r, r ∈ refs ->
         match ans (ref_Path r) with
         | inl v => got !! Ref_String r = Some v
         | inr k => k = KindNotFound /\ got !! Ref_String r = result !! Ref_String r
         end) /\
      (forall key, key ∉ map Ref_String refs -> got !! key = result !! key)
  | Err e => exists r k, r ∈ refs /\ ans (ref_Path r) = inr k /\ k <> KindNotFound /\ ErrorKind (Some e) = k
  end.
Proof.
  intros Hent. revert result. induction refs as [|r refs IH]; intros result Hkeys Hnd; cbn [map read_entries].
  { split; [by intros ? ?%elem_of_nil|done]. }
  cbn [map] in Hnd. apply NoDup_cons in Hnd as [Hnew Hnd].
  assert (Hkeys' : forall r, r ∈ refs -> keys !! ref_Path r = Some (Ref_String r)).
  { intros r' Hr'. apply Hkeys. by constructor. }
  destruct (Hent (ref_Path r)) as [Hname Hval]. rewrite Hname, (Hkeys r) by constructor.
  assert (Hlater : forall result', result' !! Ref_String r = match ans (ref_Path r) with inl v => Some v | inr _ => result !! Ref_String r end ->
    (forall key, key <> Ref_String r -> result' !! key = result !! key) ->
    (forall k, ans (ref_Path r) = inr k -> k = KindNotFound) ->
    match read_entries keys result' (map ent (map ref_Path refs)) with
    | Ok got => (forall r', r' ∈ r :: refs -> match ans (ref_Path r') with
          | inl v => got !! Ref_String r' = Some v
          | inr k => k = KindNotFound /\ got !! Ref_String r' = result !! Ref_String r' end) /\
        (forall key, key ∉ Ref_String r :: map Ref_String refs -> got !! key = result !! key)
    | Err e => exists r' k, r' ∈ r :: refs /\ ans (ref_Path r') = inr k /\ k <> KindNotFound /\ ErrorKind (Some e) = k
    end).
  { intros result' Hres Hother Hnf. specialize (IH result' Hkeys' Hnd).
    destruct (read_entries keys result' (map ent (map ref_Path refs))) as [got|e].
    - destruct IH as [Hin Hout]. split.
      + intros r' [->|Hr']%elem_of_cons.
        * rewrite Hout, Hres by done. destruct (ans (ref_Path r)); [done|]. split; [by apply Hnf|done].
        * specialize (Hin r' Hr'). destruct (ans (ref_Path r')); [done|]. destruct Hin as [? ->]. split; [done|].
          apply Hother. intros E. apply Hnew. rewrite <- E. by apply list_elem_of_fmap_2.
      + intros key Hk. apply not_elem_of_cons in Hk as [Hk1 Hk2]. rewrite Hout by exact Hk2. by apply Hother.
    - destruct IH as (r' & k & ? & ? & ? & ?). exists r', k. split_and!; [by constructor|done..]. }
  destruct (ans (ref_Path r)) as [v|k] eqn:Ea.
  - destruct Hval as [-> ->]. apply Hlater; [apply lookup_insert_eq| |done].
    intros key Hk. by apply lookup_insert_ne.
  - destruct Hval as (Hk & msg & _ & ->). cbn [ed_Kind]. case_bool_decide as Hnf.
    + apply Hlater; [done|done|]. by intros k' [= <-].
    + exists r, k. split_and!; [constructor|done|done|]. by apply wire_error_kind.
Qed.

(** What the client reads of the response to a batch. *)
Lemma read_served_batch `{Wire} rep q (keys : gmap string string) refs :
  hq_Method q = "POST" -> hq_Path q = "/v1/values" -> hq_Body q = encode_names (map ref_Path refs) ->
  map_Forall snapshot_ok (rp_snapshots rep) -> refs <> [] ->
  Forall (fun r => ValidString (ref_Path r) = true) refs ->
  (forall r, r ∈ refs -> keys !! ref_Path r = Some (Ref_String r)) -> NoDup (map Ref_String refs) ->
  Z.of_nat (String.length (hq_Body q)) <= maxBatchBodyBytes ->
  let answer r := remote (rp_guard rep) (rp_snapshots rep) (request_of (rp_conn rep) q) (ref_Path r) in
  match read_batch keys (serve rep q) with
  | Ok got =>
      forall r, r ∈ refs ->
      match answer r with
      | inl v => got !! Ref_String r = Some v
      | inr k => k = KindNotFound /\ got !! Ref_String r = None
      end
  | Err e => exists r k, r ∈ refs /\ answer r = inr k /\ k <> KindNotFound /\ ErrorKind (Some e) = k
  end.
Proof.
  intros Hm Hpath Hbody Hok Hne Hrefs Hkeys Hnd Hlen answer. rewrite Forall_forall in Hrefs.
  set (r := request_of (rp_conn rep) q) in *.
  assert (Hserve : serve rep q = respond (handleBatch (rp_guard rep) (rp_snapshots rep) r (Some (map ref_Path refs))).1).
  { unfold serve. fold r. rewrite Hm, Hpath.
    rewrite bool_decide_eq_false_2, !bool_decide_eq_true_2 by done. cbn [andb].
    rewrite (proj2 (Z.ltb_ge _ _)) by lia. rewrite Hbody, names_roundtrip; [done|]. apply forallb_forall. intros n Hin.
    apply list_elem_of_In, list_elem_of_fmap in Hin as (r' & -> & Hr). by apply Hrefs. }
  rewrite Hserve. unfold handleBatch.
  destruct (authenticate (rp_guard rep) r) as [id|[[resp k] st]] eqn:Ha; cbn [fst].
  - unfold read_batch, respond. cbn [rs_status rs_body hr_StatusCode hr_Body]. cbn [Z.eqb Pos.eqb negb].
    assert (Hent := fun name => batch_entry_answer (rp_guard rep) (rp_snapshots rep) r id name Ha Hok).
    rewrite batch_roundtrip.
    2:{ apply forallb_forall. intros v Hin. apply list_elem_of_In, list_elem_of_fmap in Hin as (n & -> & Hin).
        apply list_elem_of_fmap in Hin as (r' & -> & Hr). apply Hent. by apply Hrefs. }
    pose proof (read_entries_spec keys (fun name => (batch_entry (rp_guard rep) (rp_snapshots rep) r id name).1)
      (remote (rp_guard rep) (rp_snapshots rep) r) refs ∅) as Hspec.
    specialize (Hspec (fun name => conj (proj1 (Hent name)) (proj1 (proj2 (Hent name)))) Hkeys Hnd).
    destruct (read_entries keys ∅ _) as [got|e]; [|exact Hspec].
    destruct Hspec as [Hin _]. intros r' Hr. specialize (Hin r' Hr). subst answer. simpl.
    destruct (remote _ _ _ _); [done|]. destruct Hin as [? ->]. split; [done|]. apply lookup_empty.
  - pose proof (authenticate_refusal _ _ _ _ _ Ha) as (Hk & Hnf & Hs & msg & Hmsg & Hbd).
    unfold read_batch, respond. cbn [hr_StatusCode hr_Body]. rewrite Hs, Hbd, read_error by done. cbn [negb].
    destruct refs as [|r0 refs]; [done|]. exists r0, k.
    split_and!; [constructor|subst answer; simpl; unfold remote; by rewrite Ha|done|by apply wire_error_kind].
Qed.

(** * Properties *)

(** C9. A client gets what the server has. Through escaping, routing,
    authentication, authorization, status codes, JSON and the rebuilding of
    errors, a resolve of a name returns exactly the value the answering replica
    holds for it, or an error of exactly the kind that replica has for it; and of
    several replicas the one that answers is the first with a value or an
    authoritative failure, the last when there is none. *)
Theorem Resolve_end_to_end {W} `{Wire} url_ok ctx_done (p : Client W) nodes ref w :
  usable url_ok p -> (forall w, ctx_done w = false) -> cl_endpoints p <> [] ->
  Forall2 behaves (cl_endpoints p) nodes -> Forall node_ok nodes -> askable (ref_Path ref) ->
  match (client_Resolve url_ok ctx_done p ref w).2,
        fleet_answer KindUnknown
          (zip_with (node_answer p (ref_Path ref)) (map ep_baseURL (cl_endpoints p)) nodes) with
  | Ok v, inl v' => v = v'
  | Err e, inr k => ErrorKind (Some e) = k
  | _, _ => False
  end.
Proof.
  intros Hp Hctx Hne Hb Hok Hn. unfold client_Resolve, tryEndpoints. rewrite (us_valid _ _ Hp).
  rewrite bool_decide_eq_false_2 by (intros E; apply Hn; rewrite E; set_solver).
  pose proof (tryEndpoints_answer url_ok ctx_done p Hp (ref_Path ref) (cl_endpoints p) nodes (EOpaque "") w
    Hctx Hn Hb Hok) as Hans.
  by destruct (cl_endpoints p).
Qed.

(** A batch is its names, one by one. When a client asks one replica for
    refs with distinct names, the answer holds the value of every ref the
    replica has a value for, under the ref's own tag, and omits exactly the ones
    it has nothing for; any other failure of a name fails the batch, with that
    failure's kind, so that no default ever stands in for a value the caller was
    denied or that is unavailable. *)
Theorem ResolveBatch_is_pointwise {W} `{Wire} url_ok ctx_done (p : Client W) ep rep refs w :
  usable url_ok p -> cl_endpoints p = [ep] -> behaves ep (Up rep) -> map_Forall snapshot_ok (rp_snapshots rep) ->
  refs <> [] -> Forall (fun r => ref_Path r <> "" /\ ValidString (ref_Path r) = true) refs ->
  NoDup (map ref_Path refs) -> NoDup (map Ref_String refs) ->
  Z.of_nat (String.length (encode_names (map ref_Path refs))) <= maxBatchBodyBytes ->
  let answer r := batch_answer p rep (ep_baseURL ep) (map ref_Path refs) (ref_Path r) in
  match (client_ResolveBatch url_ok ctx_done p refs w).2 with
  | Ok got =>
      forall r, r ∈ refs ->
      match answer r with
      | inl v => got !! Ref_String r = Some v
      | inr k => k = KindNotFound /\ got !! Ref_String r = None
      end
  | Err e => exists r k, r ∈ refs /\ answer r = inr k /\ k <> KindNotFound /\ ErrorKind (Some e) = k
  end.
Proof.
  intros Hp Hep Hb Hok Hne Hrefs Hnd Hnd' Hlen answer. unfold client_ResolveBatch, tryEndpoints.
  destruct (batch_names_spec refs [] ∅) as (keys & -> & Hkeys & _); [|done|].
  { eapply Forall_impl; [exact Hrefs|]. by intros r [? _]. }
  rewrite (us_valid _ _ Hp), Hep. cbn [app tryEndpoints_loop]. unfold resolveBatchOnce.
  pose proof (do_request_open url_ok p Hp ep (Up rep) "POST" "/v1/values" (encode_names (map ref_Path refs)) w Hb) as Hr.
  destruct (do_request url_ok p ep "POST" "/v1/values" _ [] w) as [w' resp]. cbn [snd] in Hr. subst resp.
  set (q := edited p [] _).
  destruct (edited_header_only url_ok p Hp (MkHTTP "POST" (ep_baseURL ep) "/v1/values" ∅
    (encode_names (map ref_Path refs)))) as (Hm & Hpath & Hbody). fold q in Hm, Hpath, Hbody.
  pose proof (read_served_batch rep q keys refs Hm Hpath Hbody Hok Hne) as Hread.
  rewrite Hbody in Hread. specialize (Hread (Forall_impl _ _ _ Hrefs (fun r H => proj2 H)) Hkeys Hnd' Hlen).
  change (Ok (serve rep q) ≫= read_batch keys) with (read_batch keys (serve rep q)).
  destruct (read_batch keys (serve rep q)) as [got|e]; [exact Hread|].
  by destruct (ctx_done w'), (negb (shouldFailover e)).
Qed.

(** Two refs of one binding, told apart by their keys or options, collide in a
    batch: the answer holds the value for the second only, and the first is
    reported as if the server did not have it. *)
Lemma batch_loses_shared_binding {W} `{Wire} url_ok ctx_done (p : Client W) ep rep r1 r2 v w :
  usable url_ok p -> cl_endpoints p = [ep] -> behaves ep (Up rep) -> map_Forall snapshot_ok (rp_snapshots rep) ->
  ref_Path r1 = ref_Path r2 -> Ref_String r1 <> Ref_String r2 ->
  ref_Path r1 <> "" -> ValidString (ref_Path r1) = true ->
  Z.of_nat (String.length (encode_names [ref_Path r1; ref_Path r2])) <= maxBatchBodyBytes ->
  batch_answer p rep (ep_baseURL ep) [ref_Path r1; ref_Path r2] (ref_Path r1) = inl v ->
  exists got, (client_ResolveBatch url_ok ctx_done p [r1; r2] w).2 = Ok got /\
    got !! Ref_String r1 = None /\ got !! Ref_String r2 = Some v.
Proof.
  intros Hp Hep Hb Hok Hpath Hkey Hne Hvalid Hlen Hans. unfold client_ResolveBatch, tryEndpoints. cbn [batch_names].
  rewrite <- Hpath in *. rewrite bool_decide_eq_false_2, insert_insert_eq by done. cbn [app].
  rewrite (us_valid _ _ Hp), Hep. cbn [tryEndpoints_loop]. unfold resolveBatchOnce.
  pose proof (do_request_open url_ok p Hp ep (Up rep) "POST" "/v1/values" (encode_names [ref_Path r1; ref_Path r1]) w Hb)
    as Hr.
  destruct (do_request url_ok p ep "POST" "/v1/values" _ [] w) as [w' resp]. cbn [snd] in Hr. subst resp.
  destruct (edited_header_only url_ok p Hp (MkHTTP "POST" (ep_baseURL ep) "/v1/values" ∅
    (encode_names [ref_Path r1; ref_Path r1]))) as (Hm & Hp' & Hbody).
  unfold batch_answer, batch_request in Hans. set (q := edited p [] _) in *. cbn [hq_Method hq_Path hq_Body] in *.
  pose proof Hans as Hid. unfold remote in Hid.
  destruct (authenticate (rp_guard rep) (request_of (rp_conn rep) q)) as [id|[[? ?] ?]] eqn:Ha; [|done]. clear Hid.
  destruct (batch_entry_answer (rp_guard rep) (rp_snapshots rep) _ id (ref_Path r1) Ha Hok) as (Hname & Hval & Hclean).
  rewrite Hans in Hval. destruct Hval as [Herr Hv].
  unfold serve. rewrite Hm, Hp', Hbody. rewrite bool_decide_eq_false_2, !bool_decide_eq_true_2 by done. cbn [andb].
  rewrite (proj2 (Z.ltb_ge _ _)) by lia. rewrite names_roundtrip by (simpl; by rewrite Hvalid).
  unfold handleBatch. rewrite Ha. cbn [fst map].
  change (Ok ?x ≫= read_batch ?k) with (read_batch k x). unfold read_batch, respond.
  cbn [rs_status rs_body hr_StatusCode hr_Body]. cbn [Z.eqb Pos.eqb negb].
  rewrite batch_roundtrip by (simpl; by rewrite Hclean). cbn [read_entries].
  rewrite Hname, lookup_insert_eq, Herr, Hv. eexists. split; [done|].
  rewrite !lookup_insert_ne by done. by rewrite lookup_insert_eq.
Qed.

(** * A codec *)

(** Texts of binary numberals, and of countable data. *)
Fixpoint pos_text (p : positive) : string :=
  match p with xH => "" | xO p => String "0" (pos_text p) | xI p => String "1" (pos_text p) end.

Fixpoint text_pos (s : string) : positive :=
  match s with
  | EmptyString => xH
  | String c s => if ascii_eqb c "0" then xO (text_pos s) else xI (text_pos s)
  end.

Lemma text_pos_text p : text_pos (pos_text p) = p.
Proof. induction p as [p IH|p IH|]; simpl; by rewrite ?IH. Qed.

Definition to_text {A} `{Countable A} (x : A) : string := pos_text (countable.encode x).
Definition of_text {A} `{Countable A} (s : string) : option A := countable.decode (text_pos s).

Lemma of_text_to_text {A} `{Countable A} (x : A) : of_text (to_text x) = Some x.
Proof. unfold of_text, to_text. rewrite text_pos_text. apply decode_encode. Qed.

#[export] Instance errorDetail_eq_dec : EqDecision errorDetail.
Proof. solve_decision. Defined.

#[export] Instance errorDetail_countable : Countable errorDetail.
Proof.
  refine (inj_countable' (fun d => (ed_Kind d, ed_Message d)) (fun x => MkDetail x.1 x.2) _). by intros [].
Defined.

#[export] Instance valueBody_eq_dec : EqDecision valueBody.
Proof. solve_decision. Defined.

#[export] Instance valueBody_countable : Countable valueBody.
Proof.
  refine (inj_countable' (fun v => (vb_Name v, vb_Bytes v, vb_Version v, (vb_Sensitive v, vb_NotAfter v, vb_Metadata v),
      (vb_Kind v, vb_Error v, vb_ResolvedAt v, vb_Stale v)))
    (fun x => match x with
      | (n, b, ver, (se, na, md), (k, e, ra, st)) => MkBody n b ver se na md k e ra st end) _). by intros [].
Defined.

(** [QueryEscape] at most triples a text. *)
Lemma QueryEscape_length s : (String.length (QueryEscape s) <= 3 * String.length s)%nat.
Proof. induction s as [|c s IH]; [done|]. cbn [QueryEscape]. repeat case_match; simpl in *; lia. Qed.

Definition text_of_error (d : errorDetail) : string :=
  QueryEscape (ed_Kind d) ++ String "&" (QueryEscape (ed_Message d)).

Definition error_of_text (s : string) : option errorDetail :=
  match Cut s "&" with
  | Some (k, m) =>
      match QueryUnescape k, QueryUnescape m with Some k, Some m => Some (MkDetail k m) | _, _ => None end
  | None => None
  end.

Lemma error_of_text_of_error d : error_of_text (text_of_error d) = Some d.
Proof.
  unfold error_of_text, text_of_error. rewrite Cut_app by (apply QueryEscape_free; delim).
  rewrite !QueryUnescape_QueryEscape. by destruct d.
Qed.

(** A codec with the properties of [Wire]. *)
Definition text_wire : Wire.
Proof.
  refine {|
    encode := fun b => match b with
      | BError d => text_of_error d | BValue v => to_text v | BBatch vs => to_text vs | BStatus s => s end;
    decode_value := of_text; decode_error := error_of_text; decode_batch := of_text;
    encode_names := to_text; decode_names := of_text |}; intros; try apply of_text_to_text.
  - apply error_of_text_of_error.
  - unfold text_of_error. rewrite str_length_app. simpl.
    pose proof (QueryEscape_length (ed_Kind d)). pose proof (QueryEscape_length (ed_Message d)). lia.
Defined.

(** * An instance *)

(** Two replicas behind a client with a token; the first cannot be reached. *)
Definition team_replica : replica := MkReplica team_guard (snapshots "url" (Some "k1")) (MkConnection None None).

Definition machine (n : node) : endpoint unit :=
  MkEndpoint "https://cfg" (fun q w => (w, match n with Up rep => Ok (@serve text_wire rep q) | Down e => Err e end)).

Definition fleet : list node := [Down (EOpaque "connection refused"); Up team_replica].

Definition team_client (nodes : list node) : Client unit :=
  MkClient (map machine nodes) [set_header "Authorization" "Bearer t0k"] None false.

Definition binding_ref (name : string) : Ref := MkRef "mamori" name "" ∅ ("mamori://" ++ name).

Lemma team_usable nodes : usable (fun _ => true) (team_client nodes).
Proof. split; [done|done|by repeat constructor|done]. Qed.

Lemma team_snapshots_ok : map_Forall snapshot_ok (rp_snapshots team_replica).
Proof.
  unfold team_replica, snapshots. cbn [rp_snapshots]. apply map_Forall_insert_2; [by vm_compute|].
  apply map_Forall_insert_2; [by vm_compute|apply map_Forall_empty].
Qed.

Lemma Resolve_end_to_end_witness :
  (@client_Resolve unit text_wire (fun _ => true) (fun _ => false) (team_client fleet) (binding_ref "team/db") tt).2
  = Ok (MkValue "url" "1" true 0 ∅).
Proof.
  pose proof (@Resolve_end_to_end unit text_wire (fun _ => true) (fun _ => false) (team_client fleet) fleet
    (binding_ref "team/db") tt (team_usable fleet)) as Hend.
  assert (Hans : fleet_answer KindUnknown (zip_with (node_answer (team_client fleet) "team/db")
    (map ep_baseURL (cl_endpoints (team_client fleet))) fleet) = inl (MkValue "url" "1" true 0 ∅)) by (by vm_compute).
  cbn [binding_ref ref_Path] in Hend. rewrite Hans in Hend.
  destruct (@client_Resolve unit text_wire _ _ _ _ _) as [w [v|e]]; cbn [snd] in *.
  - f_equal. apply Hend; [done|done|by repeat constructor| |unfold askable; set_solver].
    constructor; [done|]. constructor; [exact team_snapshots_ok|constructor].
  - exfalso. apply Hend; [done|done|by repeat constructor| |unfold askable; set_solver].
    constructor; [done|]. constructor; [exact team_snapshots_ok|constructor].
Defined.

Lemma ResolveBatch_is_pointwise_witness :
  exists e, (@client_ResolveBatch unit text_wire (fun _ => true) (fun _ => false) (team_client [Up team_replica])
    [binding_ref "team/db"; binding_ref "root/key"] tt).2 = Err e /\ ErrorKind (Some e) = KindPermissionDenied.
Proof.
  pose proof (@ResolveBatch_is_pointwise unit text_wire (fun _ => true) (fun _ => false) (team_client [Up team_replica])
    (machine (Up team_replica)) team_replica [binding_ref "team/db"; binding_ref "root/key"] tt) as Hb.
  assert (Hroot : forall names, batch_answer (team_client [Up team_replica]) (H := text_wire) team_replica "https://cfg" names
    "root/key" = inr KindPermissionDenied) by (intros names; by vm_compute).
  specialize (Hb (team_usable _) eq_refl (fun q w => eq_refl) team_snapshots_ok ltac:(done)
    ltac:(by repeat constructor)).
  specialize (Hb ltac:(repeat constructor; set_solver)).
  specialize (Hb ltac:(apply NoDup_cons; split; [rewrite list_elem_of_singleton; by vm_compute|apply NoDup_singleton])).
  specialize (Hb ltac:(by vm_compute)).
  destruct (@client_ResolveBatch unit text_wire _ _ _ _ _) as [w [got|e]]; cbn [snd] in *.
  - exfalso. assert (Hr : binding_ref "root/key" ∈ [binding_ref "team/db"; binding_ref "root/key"])
        by (by repeat constructor).
      specialize (Hb _ Hr). cbn [binding_ref ref_Path machine ep_baseURL] in Hb. rewrite Hroot in Hb. by destruct Hb.
  - exists e. split; [done|]. destruct Hb as (r & k & Hr & Hk & Hnf & <-).
      rewrite !elem_of_cons, elem_of_nil in Hr. destruct Hr as [->|[->|[]]].
    + exfalso. revert Hk. vm_compute. done.
    + cbn [binding_ref ref_Path machine ep_baseURL] in Hk. rewrite Hroot in Hk. congruence.
Defined.
