(* ===== verification/ClientWatch.v ===== *)
(** The watch of the mamori:// provider (src/providers/mamori: watch.go,
    freshness.go): dispatching the frames of a stream, the guard that keeps a
    reconnecting watch from going back in time, and the rotation over the
    endpoints with its backoff. A watch here runs under a context that is not
    done, so every send succeeds. *)

From S2P Require Import Prelude Errors GoStrings Ref Provider GoNumbers GoPath Auth Server Handlers SSE Client.
Open Scope string_scope.
Open Scope Z_scope.

(** * The freshness guard *)

Definition resolvedAtSkewTolerance : Z := Second.

(** [type freshnessGuard struct]: the newest date delivered for each name. *)
Abbreviation freshnessGuard := (gmap string Z).

(** [func (g *freshnessGuard) allows(name, resolvedAt) bool]. *)
Definition guard_allows (g : freshnessGuard) (name : string) (resolvedAt : option Z) : bool :=
  match resolvedAt with
  | None => true
  | Some t =>
      match g !! name with
      | None => true
      | Some watermark => negb (t <? watermark - resolvedAtSkewTolerance)
      end
  end.

(** [func (g *freshnessGuard) record(name, resolvedAt)]. *)
Definition guard_record (g : freshnessGuard) (name : string) (resolvedAt : option Z) : freshnessGuard :=
  match resolvedAt with
  | None => g
  | Some t =>
      match g !! name with
      | Some current => if t <=? current then g else <[name := t]> g
      | None => <[name := t]> g
      end
  end.

(** * Frames *)

(** [json.Marshal] and [json.Unmarshal] of a frame's data: one line, since JSON
    escapes control characters. *)
Class WireLine := {
  marshal : valueBody -> string;
  unmarshal : string -> option valueBody;
  marshal_roundtrip v : body_clean v = true -> unmarshal (marshal v) = Some v;
  marshal_plain v : plain (marshal v);
}.

(** An update sent on the channel; [dl_stamp] is the name and the date its frame
    carried, which the channel does not hold. *)
Record delivery := MkDelivery { dl_stamp : option (string * Z); dl_update : Update }.

Definition stamp_of (name : string) (resolvedAt : option Z) : option (string * Z) :=
  match resolvedAt with Some t => Some (name, t) | None => None end.

Section dispatch.
Context `{WireLine}.

(** [func dispatchSSEFrame(ctx, name, event, data, ch, guard) bool]. *)
Definition dispatchSSEFrame (name : string) (ev : SSEEvent) (g : freshnessGuard) : option delivery * freshnessGuard :=
  if bool_decide (ev_Name ev = "update") then
    match unmarshal (ev_Data ev) with
    | None => (None, g)
    | Some vb =>
        let frameName := if bool_decide (vb_Name vb = "") then name else vb_Name vb in
        if negb (guard_allows g frameName (vb_ResolvedAt vb)) then (None, g)
        else
          (Some (MkDelivery (stamp_of frameName (vb_ResolvedAt vb)) (MkUpdate (value_of_body vb) None)),
           guard_record g frameName (vb_ResolvedAt vb))
    end
  else if bool_decide (ev_Name ev = "error") then
    match unmarshal (ev_Data ev) with
    | None => (None, g)
    | Some vb =>
        match vb_Error vb with
        | None => (None, g)
        | Some d =>
            (Some (MkDelivery None (MkUpdate zero_Value (Some (wire_error "mamori: watch error" d)))), g)
        end
    end
  else (None, g).

(** [func readSSE(ctx, stream, name, ch, guard)] on the events of the stream. *)
Fixpoint readSSE (name : string) (events : list SSEEvent) (g : freshnessGuard) : list delivery * freshnessGuard :=
  match events with
  | [] => ([], g)
  | ev :: events =>
      let '(d, g) := dispatchSSEFrame name ev g in
      let '(ds, g) := readSSE name events g in
      (match d with Some d => d :: ds | None => ds end, g)
  end.
End dispatch.

(** * The loop *)

Definition watchBackoffFloor : Z := 100 * Millisecond.
Definition watchBackoffCap : Z := 30 * Second.

(** [func nextWatchBackoff(d time.Duration) time.Duration]. *)
Definition nextWatchBackoff (d : Z) : Z :=
  let d := wrap_int 64 (d * 2) in
  if (d <=? 0) || (watchBackoffCap <? d) then watchBackoffCap else d.

(** [func watchBackoffJitter(d time.Duration) time.Duration]; [rnd] is the draw
    [rand.N] reduces. *)
Definition watchBackoffJitter (rnd d : Z) : Z :=
  if d <=? 0 then 0 else Z.quot d 2 + rnd mod (Z.quot d 2 + 1).

Section loop.
Context {W : Type} `{Wire} `{WireLine}.
Context (url_ok : string -> bool).
Implicit Types p : Client W.

(** [q.Encode()] of the name, after the path; the [Accept] header. *)
Definition watch_path (name : string) : string := "/v1/watch?" ++ Encode {["name" := [name]]}.

(** [func watchConnectError(name, resp) error]. *)
Definition watchConnectError (resp : http_response) : error :=
  match decode_error (str_take errBodyLimit (hr_Body resp)) with
  | None => EOpaque "mamori: watch request returned an undecodable body"
  | Some d => wire_error "mamori: watch request returned an unknown kind" d
  end.

Definition failed (err : error) : delivery := MkDelivery None (MkUpdate zero_Value (Some err)).

(** [func (p *Provider) watchOnce(ctx, ep, name, ch, guard) bool]: the body of
    the response is every byte of the connection, [fin] how it ended. *)
Definition watchOnce p (ep : endpoint W) (name : string) (g : freshnessGuard) (w : W)
    : W * (list delivery * freshnessGuard * bool) :=
  let '(w, resp) := do_request url_ok p ep "GET" (watch_path name) "" [set_header "Accept" "text/event-stream"] w in
  match resp with
  | Err err => (w, ([failed (EWrap "connecting mamori watch" [ESentinel ErrUnavailable])], g, false))
  | Ok resp =>
      if negb (hr_StatusCode resp =? 200) then (w, ([failed (watchConnectError resp)], g, false))
      else
        let '(ds, g) := readSSE name (decode_stream (NewSSEDecoder (MkSSE 0 0)) io_EOF (hr_Body resp)).1 g in
        (w, (ds, g, true))
  end.

(** The variables of [watchLoop]. *)
Record watch_state := MkWatch { ws_current : nat; ws_backoff : Z; ws_guard : freshnessGuard }.

Definition watch_start : watch_state := MkWatch 0 watchBackoffFloor ∅.

(** The endpoints of [watchLoop]: a placeholder that is never dialed when the
    configuration is wrong. *)
Definition watch_endpoints p : list (endpoint W) :=
  match cl_endpoints p with
  | [] => [MkEndpoint "" (fun _ w => (w, Err (EOpaque "")))]
  | eps => eps
  end.

(** One iteration of [watchLoop]: what it sends, and the wait it asks for before
    jitter; [sleep] is the clock. *)
Definition watch_iteration (sleep : Z -> W -> W) p (name : string) (st : watch_state) (w : W)
    : W * (list delivery * option Z * watch_state) :=
  match watch_endpoints p !! ws_current st with
  | None => (w, ([], None, st))
  | Some ep =>
      let '(w, (ds, g, established)) := watchOnce p ep name (ws_guard st) w in
      let backoff := if established then watchBackoffFloor else ws_backoff st in
      let current := ((ws_current st + 1) mod length (watch_endpoints p))%nat in
      if negb (current =? 0)%nat then (w, (ds, None, MkWatch current backoff g))
      else (sleep backoff w, (ds, Some backoff, MkWatch current (nextWatchBackoff backoff) g))
  end.

(** The first [n] iterations: what the channel carries, and the endpoint and the
    wait of each. *)
Fixpoint watchLoop (sleep : Z -> W -> W) p (name : string) (n : nat) (st : watch_state) (w : W)
    : list delivery * list (nat * option Z) :=
  match n with
  | O => ([], [])
  | S n =>
      let '(w, (ds, wait, st')) := watch_iteration sleep p name st w in
      let '(ds', waits) := watchLoop sleep p name n st' w in
      ((ds ++ ds')%list, (ws_current st, wait) :: waits)
  end.

(** [func (p *Provider) Watch(ctx, ref)]: an error, or the state its goroutine
    starts from. *)
Definition client_Watch p (ref : Ref) : res (string * watch_state) :=
  if cl_closed p then Err errProviderClosed
  else if bool_decide (ref_Path ref = "") then Err (errInvalidConfig "mamori:// ref has no binding name")
  else Ok (ref_Path ref, watch_start).
End loop.

(** * The guard *)

(** The deliveries a guard lets through one by one, from one state of it to
    another. *)
Fixpoint guarded (g : freshnessGuard) (ds : list delivery) (g' : freshnessGuard) : Prop :=
  match ds with
  | [] => g = g'
  | d :: ds =>
      match dl_stamp d with
      | None => guarded g ds g'
      | Some (name, t) => guard_allows g name (Some t) = true /\ guarded (guard_record g name (Some t)) ds g'
      end
  end.

Lemma guarded_app g1 ds1 g2 ds2 g3 : guarded g1 ds1 g2 -> guarded g2 ds2 g3 -> guarded g1 (ds1 ++ ds2) g3.
Proof.
  revert g1. induction ds1 as [|d ds1 IH]; intros g1; simpl; [by intros ->|].
  destruct (dl_stamp d) as [[n t]|]; [|by apply IH]. intros [? ?] ?. split; [done|]. by eapply IH.
Qed.

(** A watermark never falls. *)
Lemma record_raises g name t n wm : g !! n = Some wm ->
  exists wm', guard_record g name (Some t) !! n = Some wm' /\ wm <= wm'.
Proof.
  intros Hg. unfold guard_record. destruct (decide (name = n)) as [->|Hne].
  - rewrite Hg. destruct (Z.leb_spec t wm); [exists wm; split; [done|lia]|].
    exists t. rewrite lookup_insert_eq. split; [done|lia].
  - exists wm. split; [|lia]. destruct (g !! name) as [cur|]; [case_match; [done|]|]; by rewrite lookup_insert_ne.
Qed.

Lemma record_reaches g name t : exists wm, guard_record g name (Some t) !! name = Some wm /\ t <= wm.
Proof.
  unfold guard_record. destruct (g !! name) as [cur|] eqn:Hg.
  - destruct (Z.leb_spec t cur); [by exists cur|]. exists t. rewrite lookup_insert_eq. split; [done|lia].
  - exists t. rewrite lookup_insert_eq. split; [done|lia].
Qed.

(** Nothing is let through that is older than a watermark by more than the
    tolerance. *)
Lemma guarded_watermark g ds g' n wm d t : guarded g ds g' -> g !! n = Some wm ->
  d ∈ ds -> dl_stamp d = Some (n, t) -> wm - resolvedAtSkewTolerance <= t.
Proof.
  revert g wm. induction ds as [|d0 ds IH]; intros g wm; simpl; [by intros _ _ ?%elem_of_nil|].
  intros Hg Hn [->|Hin]%elem_of_cons Hs.
  - rewrite Hs in Hg. destruct Hg as [Ha _]. unfold guard_allows in Ha. rewrite Hn in Ha.
    apply negb_true_iff, Z.ltb_ge in Ha. exact Ha.
  - destruct (dl_stamp d0) as [[n0 t0]|]; [|by eapply IH]. destruct Hg as [_ Hg].
    destruct (record_raises g n0 t0 n wm Hn) as (wm' & Hn' & Hle). specialize (IH _ _ Hg Hn' Hin Hs). lia.
Qed.

Lemma guarded_ordered g ds g' i j di dj n ti tj : guarded g ds g' -> (i < j)%nat ->
  ds !! i = Some di -> ds !! j = Some dj -> dl_stamp di = Some (n, ti) -> dl_stamp dj = Some (n, tj) ->
  ti - resolvedAtSkewTolerance <= tj.
Proof.
  revert g i j. induction ds as [|d ds IH]; intros g i j Hg Hij Hi Hj Hsi Hsj; [done|].
  destruct j as [|j]; [lia|]. destruct i as [|i]; simpl in Hi, Hj.
  - injection Hi as <-. simpl in Hg. rewrite Hsi in Hg. destruct Hg as [_ Hg].
    destruct (record_reaches g n ti) as (wm & Hwm & Hle).
    pose proof (guarded_watermark _ _ _ n wm dj tj Hg Hwm (list_elem_of_lookup_2 _ _ _ Hj) Hsj). lia.
  - simpl in Hg. destruct (dl_stamp d) as [[n0 t0]|]; [destruct Hg as [_ Hg]|]; eapply (IH _ i j); eauto; lia.
Qed.

Section facts.
Context {W : Type} `{Wire} `{WireLine}.

Lemma dispatch_guarded name ev g :
  let '(d, g') := dispatchSSEFrame name ev g in guarded g (match d with Some d => [d] | None => [] end) g'.
Proof.
  unfold dispatchSSEFrame. case_bool_decide; [|case_bool_decide; [|done]]; destruct (unmarshal _) as [vb|]; [|done| |done].
  - set (n := if bool_decide (vb_Name vb = "") then name else vb_Name vb).
    destruct (guard_allows g n (vb_ResolvedAt vb)) eqn:Ha; simpl; [|done].
    destruct (vb_ResolvedAt vb); simpl; [by split|done].
  - by destruct (vb_Error vb).
Qed.

Lemma readSSE_guarded name events g :
  guarded g (readSSE name events g).1 (readSSE name events g).2.
Proof.
  revert g. induction events as [|ev events IH]; intros g; simpl; [done|].
  pose proof (dispatch_guarded name ev g) as Hd. destruct (dispatchSSEFrame name ev g) as [d g1].
  specialize (IH g1). destruct (readSSE name events g1) as [ds g2]. simpl in *.
  pose proof (guarded_app _ _ _ _ _ Hd IH) as Ha. by destruct d.
Qed.

Context (url_ok : string -> bool) (sleep : Z -> W -> W).

Lemma watchOnce_guarded (p : Client W) ep name g w :
  let '(_, (ds, g', _)) := watchOnce url_ok p ep name g w in guarded g ds g'.
Proof.
  unfold watchOnce. destruct (do_request _ _ _ _ _ _ _ _) as [w' [resp|e]]; [|done].
  destruct (negb _); [done|].
  pose proof (readSSE_guarded name (decode_stream (NewSSEDecoder (MkSSE 0 0)) io_EOF (hr_Body resp)).1 g) as Hr.
  by destruct (readSSE name _ g).
Qed.

Lemma watch_iteration_guarded (p : Client W) name st w :
  let '(_, (ds, _, st')) := watch_iteration url_ok sleep p name st w in guarded (ws_guard st) ds (ws_guard st').
Proof.
  unfold watch_iteration. destruct (watch_endpoints p !! ws_current st) as [ep|]; [|done].
  pose proof (watchOnce_guarded p ep name (ws_guard st) w) as Ho.
  destruct (watchOnce url_ok p ep name (ws_guard st) w) as [w' [[ds g] est]]. by destruct (negb _).
Qed.

Lemma watchLoop_guarded (p : Client W) name n st w :
  exists g', guarded (ws_guard st) (watchLoop url_ok sleep p name n st w).1 g'.
Proof.
  revert st w. induction n as [|n IH]; intros st w; simpl; [by eexists|].
  pose proof (watch_iteration_guarded p name st w) as Hi.
  destruct (watch_iteration url_ok sleep p name st w) as [w' [[ds wait] st']].
  destruct (IH st' w') as [g' Hg]. destruct (watchLoop url_ok sleep p name n st' w') as [ds' waits]. simpl in *.
  exists g'. by eapply guarded_app.
Qed.

(** * The rotation *)

Lemma watch_endpoints_length (p : Client W) : (0 < length (watch_endpoints p))%nat.
Proof. unfold watch_endpoints. destruct (cl_endpoints p); simpl; lia. Qed.

Lemma nextWatchBackoff_bounds d : watchBackoffFloor <= d <= watchBackoffCap ->
  d <= nextWatchBackoff d /\ watchBackoffFloor <= nextWatchBackoff d <= watchBackoffCap.
Proof.
  intros Hd. unfold nextWatchBackoff, wrap_int. unfold watchBackoffFloor, watchBackoffCap, Millisecond, Second in *.
  rewrite Z.mod_small by lia. change (2 ^ (64 - 1)) with 9223372036854775808.
  rewrite (proj2 (Z.ltb_lt _ _)) by lia. destruct (Z.leb_spec (d * 2) 0), (Z.ltb_spec (30 * 1000000000) (d * 2)); simpl; lia.
Qed.

Lemma watchBackoffJitter_bounds rnd d : 0 < d -> Z.quot d 2 <= watchBackoffJitter rnd d <= d.
Proof.
  intros Hd. unfold watchBackoffJitter. rewrite (proj2 (Z.leb_gt _ _)) by lia. rewrite Z.quot_div_nonneg by lia.
  pose proof (Z.mod_pos_bound rnd (d / 2 + 1)). pose proof (Z.div_mod d 2). pose proof (Z.mod_pos_bound d 2).
  assert (0 <= d / 2) by (apply Z.div_pos; lia). lia.
Qed.

Definition healthy (p : Client W) (st : watch_state) : Prop :=
  (ws_current st < length (watch_endpoints p))%nat /\ watchBackoffFloor <= ws_backoff st <= watchBackoffCap.

Lemma watch_iteration_rotates (p : Client W) name st w : healthy p st ->
  let N := length (watch_endpoints p) in
  let '(_, (_, wait, st')) := watch_iteration url_ok sleep p name st w in
  healthy p st' /\ ws_current st' = ((ws_current st + 1) mod N)%nat /\
  match wait with
  | None => ws_current st' <> 0%nat
  | Some d => ws_current st' = 0%nat /\ watchBackoffFloor <= d <= watchBackoffCap
  end.
Proof.
  intros [Hc Hb] N. unfold watch_iteration. destruct (lookup_lt_is_Some_2 _ _ Hc) as [ep ->].
  destruct (watchOnce url_ok p ep name (ws_guard st) w) as [w' [[ds g] est]].
  assert (Hback : watchBackoffFloor <= (if est then watchBackoffFloor else ws_backoff st) <= watchBackoffCap).
  { destruct est; [|done]. unfold watchBackoffFloor, watchBackoffCap, Millisecond, Second. lia. }
  assert (Hlt : ((ws_current st + 1) mod N < N)%nat) by (apply Nat.mod_upper_bound; subst N; lia).
  fold N. destruct (Nat.eqb_spec ((ws_current st + 1) mod N) 0) as [E|E]; simpl.
  - split; [split; [exact Hlt|by apply nextWatchBackoff_bounds]|]. by split.
  - split; [by split|]. by split.
Qed.

Lemma watchLoop_rotates (p : Client W) name n st w k i wait : healthy p st ->
  (watchLoop url_ok sleep p name n st w).2 !! k = Some (i, wait) ->
  let N := length (watch_endpoints p) in
  i = ((ws_current st + k) mod N)%nat /\
  match wait with
  | None => ((ws_current st + k + 1) mod N)%nat <> 0%nat
  | Some d => ((ws_current st + k + 1) mod N = 0)%nat /\ watchBackoffFloor <= d <= watchBackoffCap
  end.
Proof.
  intros Hst Hk N. pose proof (watch_endpoints_length p) as HN. fold N in HN.
  revert st w k Hst Hk. induction n as [|n IH]; intros st w k Hst; simpl; [done|].
  pose proof (watch_iteration_rotates p name st w Hst) as Hi. fold N in Hi.
  destruct (watch_iteration url_ok sleep p name st w) as [w' [[ds wt] st']]. destruct Hi as (Hst' & Hcur & Hwait).
  specialize (IH st' w'). destruct (watchLoop url_ok sleep p name n st' w') as [ds' waits]. simpl in *.
  destruct k as [|k]; simpl.
  - intros [= <- <-]. rewrite Nat.add_0_r, Nat.mod_small by apply Hst. split; [done|]. by rewrite <- Hcur.
  - intros Hk. destruct (IH k Hst' Hk) as [-> Hw]. rewrite Hcur in *.
    replace (ws_current st + S k)%nat with (ws_current st + 1 + k)%nat by lia.
    rewrite <- !Nat.add_assoc in Hw. rewrite !Nat.Div0.add_mod_idemp_l in *.
    split; [done|]. by rewrite !Nat.add_assoc in *.
Qed.
End facts.

(** * From the server's stream to the client's channel *)

(** What the server watches one name with. *)
Definition of_name (name : string) (f : frame) : Prop := f = FHeartbeat \/ exists a, f = watch_frame name a.

Lemma watch_poll_of_name name m subs : Forall (fun sub => wt_name sub = name) subs ->
  Forall (of_name name) (watch_poll m subs).1.
Proof.
  induction 1 as [|sub subs Hs _ IH]; simpl; [constructor|]. destruct (watch_poll m subs) as [fs subs']. simpl in IH.
  destruct (negb _); simpl; [done|]. constructor; [|done]. right. rewrite Hs. by eexists.
Qed.

Lemma watch_loop_of_name name ticks subs : Forall (fun sub => wt_name sub = name) subs ->
  Forall (of_name name) (watch_loop ticks subs).
Proof.
  revert subs. induction ticks as [|[m|] ticks IH]; intros subs Hs; simpl; [constructor| |].
  - pose proof (watch_poll_of_name name m subs Hs) as Hf. pose proof (watch_poll_names m subs) as Hn.
    destruct (watch_poll m subs) as [fs subs']. simpl in *. apply Forall_app. split; [done|]. apply IH.
    assert (Hs' : Forall (fun n => n = name) (map wt_name subs')) by (rewrite Hn; by apply Forall_map).
    exact (proj1 (Forall_map wt_name (fun n => n = name) subs') Hs').
  - constructor; [by left|by apply IH].
Qed.

Lemma handleWatch_of_name g m r id name ticks fs os :
  authenticate g r = inl id -> g_policy g id name = None ->
  handleWatch g m r [name] true ticks = (inr fs, os) -> Forall (of_name name) fs.
Proof.
  intros Hid Hp. unfold handleWatch. rewrite Hid. cbn [negb watch_subscribe]. rewrite Hp.
  destruct (if negb (an_found _) then _ else _) as [k st]. intros [= <- _]. constructor; [right; by eexists|].
  apply watch_loop_of_name. by repeat constructor.
Qed.

(** The update a frame stands for, and the date it carries. *)
Definition frame_update (f : frame) : option Update :=
  match f with
  | FUpdate v => Some (MkUpdate (value_of_body v) None)
  | FError v =>
      match vb_Error v with
      | Some d => Some (MkUpdate zero_Value (Some (wire_error "mamori: watch error" d)))
      | None => None
      end
  | FHeartbeat => None
  end.

Definition frame_date (f : frame) : option Z := match f with FUpdate v => vb_ResolvedAt v | _ => None end.

Lemma frame_update_watch_frame name a : is_Some (frame_update (watch_frame name a)).
Proof. unfold watch_frame. repeat case_match; by eexists. Qed.

Lemma last_update name fs : Forall (of_name name) fs ->
  last (omap frame_update fs) = last_frame name fs ≫= frame_update.
Proof.
  induction fs as [|f fs IH] using rev_ind; [done|]. rewrite Forall_app, Forall_singleton. intros [Hfs Hf].
  rewrite omap_app, last_frame_app. destruct Hf as [->|[a ->]].
  - simpl. rewrite app_nil_r. by apply IH.
  - destruct (frame_update_watch_frame name a) as [u Hu]. simpl. rewrite Hu, last_snoc.
    rewrite last_frame_cons. simpl. rewrite decide_True by apply watch_frame_name. simpl. by rewrite Hu.
Qed.

(** A date that does not fall behind an earlier one by more than the tolerance. *)
Definition dated_after (d1 d2 : option Z) : Prop :=
  match d1, d2 with Some t1, Some t2 => t1 - resolvedAtSkewTolerance <= t2 | _, _ => True end.

Section bytes.
Context {W : Type} `{Wire} `{WireLine}.

(** [writeSSEValue], [writeSSEError] and [writeSSEHeartbeat] of a stream. *)
Definition frame_event (f : frame) : option SSEEvent :=
  match f with
  | FUpdate v => Some (MkEvent "update" (marshal v))
  | FError v => Some (MkEvent "error" (marshal v))
  | FHeartbeat => None
  end.

Definition stream_bytes (fs : list frame) : string := write_stream (map frame_event fs).

Definition stream_decoder : SSEDecoder := NewSSEDecoder (MkSSE 0 0).

(** A frame the wire can carry. *)
Definition frame_fits (f : frame) : Prop :=
  match f with
  | FUpdate v | FError v => body_clean v = true /\ str_len ("data: " ++ marshal v) <= DefaultSSEMaxLine
  | FHeartbeat => True
  end.

Lemma frame_sendable f : frame_fits f ->
  match frame_event f with Some ev => sendable stream_decoder ev | None => 11 <= sd_maxLine stream_decoder end.
Proof.
  destruct f as [v|v|]; simpl; [..|by vm_compute]; intros [_ Hl]; pose proof (marshal_plain v) as Hp;
    (split_and!; [by vm_compute|exact Hp|by vm_compute|exact Hl|]);
    rewrite str_len_app in Hl; unfold str_len in *; simpl in *; unfold DefaultSSEMaxLine, DefaultSSEMaxFrame in *; lia.
Qed.

Lemma allowed_after g name t0 t : guard_allows g name (Some t) = true -> dated_after t0 (Some t) ->
  guard_allows (guard_record g name t0) name (Some t) = true.
Proof.
  destruct t0 as [t0|]; [|done]. unfold guard_allows, guard_record, dated_after. intros Hg Hd.
  assert (H' : negb (t <? t0 - resolvedAtSkewTolerance) = true) by (apply negb_true_iff, Z.ltb_ge; lia).
  destruct (g !! name) as [wm|] eqn:E; [|by rewrite lookup_insert_eq].
  destruct (Z.leb_spec t0 wm); [by rewrite E|by rewrite lookup_insert_eq].
Qed.

(** A stream in order is delivered whole. *)
Lemma readSSE_in_order name fs g : name <> "" -> Forall (of_name name) fs -> Forall frame_fits fs ->
  ForallOrdPairs (fun f1 f2 => dated_after (frame_date f1) (frame_date f2)) fs ->
  Forall (fun f => guard_allows g name (frame_date f) = true) fs ->
  map dl_update (readSSE name (omap id (map frame_event fs)) g).1 = omap frame_update fs.
Proof.
  intros Hn Hof Hfit Hord. revert g. induction Hord as [|f fs Hf _ IH]; intros g Hg; [done|].
  apply Forall_cons in Hof as [Hf0 Hof]. apply Forall_cons in Hfit as [Hfit0 Hfit]. apply Forall_cons in Hg as [Hg0 Hg].
  specialize (IH Hof Hfit).
  assert (Hlater : forall g', g' = guard_record g name (frame_date f) ->
    Forall (fun f => guard_allows g' name (frame_date f) = true) fs).
  { intros g' ->. rewrite Forall_forall in *. intros f' Hin. specialize (Hg f' Hin). specialize (Hf f' Hin).
    destruct (frame_date f'); [|done]. by apply allowed_after. }
  destruct f as [v|v|]; simpl in *; [| |by apply IH].
  - destruct Hf0 as [|[a Hf0]]; [done|]. assert (Hname : vb_Name v = name).
    { pose proof (watch_frame_name name a) as E. rewrite <- Hf0 in E. by injection E. }
    unfold dispatchSSEFrame. cbn [ev_Name ev_Data]. rewrite bool_decide_eq_true_2 by done.
    rewrite marshal_roundtrip by apply Hfit0. rewrite Hname, bool_decide_eq_false_2 by done. cbv zeta.
    rewrite Hg0. cbn [negb]. specialize (IH _ (Hlater _ eq_refl)).
    destruct (readSSE name _ _) as [ds g']. simpl in *. by rewrite IH.
  - unfold dispatchSSEFrame. cbn [ev_Name ev_Data].
    rewrite bool_decide_eq_false_2, bool_decide_eq_true_2 by done.
    rewrite marshal_roundtrip by apply Hfit0. specialize (IH _ Hg).
    destruct (vb_Error v); destruct (readSSE name _ _) as [ds g']; simpl in *; by rewrite ?IH.
Qed.

(** What a watch of one name makes of the server's stream. *)
Lemma watchOnce_stream url_ok (p : Client W) ep name fs tail g w :
  usable url_ok p -> name <> "" ->
  (forall q w, (ep_Do ep q w).2 = Ok (MkReply 200 (stream_bytes fs ++ tail))) ->
  tail = "" \/ cut_frame stream_decoder tail ->
  Forall (of_name name) fs -> Forall frame_fits fs ->
  ForallOrdPairs (fun f1 f2 => dated_after (frame_date f1) (frame_date f2)) fs ->
  Forall (fun f => guard_allows g name (frame_date f) = true) fs ->
  let '(_, (ds, _, established)) := watchOnce url_ok p ep name g w in
  established = true /\ map dl_update ds = omap frame_update fs.
Proof.
  intros Hp Hn Hep Htail Hof Hfit Hord Hg. unfold watchOnce, do_request.
  rewrite (us_open _ _ Hp), (us_valid _ _ Hp), (us_urls _ _ Hp). cbn [negb].
  match goal with |- context [ep_Do ep ?q w] => pose proof (Hep q w) as Hr; destruct (ep_Do ep q w) as [w' resp] end.
  cbn [snd] in Hr. subst resp. cbn [hr_StatusCode hr_Body Z.eqb Pos.eqb negb].
  assert (Hd : decode_stream stream_decoder io_EOF (stream_bytes fs ++ tail) = (omap id (map frame_event fs), io_EOF)).
  { apply decode_written; [|done]. apply Forall_map. eapply Forall_impl; [exact Hfit|]. apply frame_sendable. }
  fold stream_decoder. rewrite Hd. cbn [fst].
  pose proof (readSSE_in_order name fs g Hn Hof Hfit Hord Hg) as Hr.
  by destruct (readSSE name (omap id (map frame_event fs)) g).
Qed.
End bytes.

(** * Properties *)

(** C12. A watch never goes back in time. Over any number of reconnections, to
    any replicas and whatever they send, a value delivered for a name is dated no
    more than the tolerance before any value delivered for it earlier. *)
Theorem watch_never_goes_back {W} `{Wire} `{WireLine} url_ok sleep (p : Client W) name n w i j di dj bound ti tj :
  let ds := (watchLoop url_ok sleep p name n watch_start w).1 in
  (i < j)%nat -> ds !! i = Some di -> ds !! j = Some dj ->
  dl_stamp di = Some (bound, ti) -> dl_stamp dj = Some (bound, tj) ->
  ti - resolvedAtSkewTolerance <= tj.
Proof.
  intros ds. destruct (watchLoop_guarded url_ok sleep p name n watch_start w) as [g' Hg].
  by eapply guarded_ordered.
Qed.

(** No replica is left out and none is hammered. The reconnections of a
    watch dial the endpoints in turn; the wait between them comes exactly when
    the list wraps, is between the floor and the cap, and jitter takes at most
    half of it away. *)
Theorem watch_rotates {W} `{Wire} `{WireLine} url_ok sleep (p : Client W) name n w k i (wait : option Z) :
  (watchLoop url_ok sleep p name n watch_start w).2 !! k = Some (i, wait) ->
  let N := length (watch_endpoints p) in
  i = (k mod N)%nat /\
  match wait with
  | None => ((k + 1) mod N)%nat <> 0%nat
  | Some d =>
      ((k + 1) mod N)%nat = 0%nat /\ watchBackoffFloor <= d <= watchBackoffCap /\
      forall rnd, Z.quot d 2 <= watchBackoffJitter rnd d <= d
  end.
Proof.
  intros Hk N. assert (Hst : healthy p watch_start).
  { split; [apply watch_endpoints_length|]. by vm_compute. }
  destruct (watchLoop_rotates url_ok sleep p name n watch_start w k i wait Hst Hk) as [Hi Hw].
  split; [exact Hi|]. destruct wait as [d|]; [|exact Hw]. destruct Hw as [Hw Hd].
  split; [exact Hw|]. split; [exact Hd|]. intros rnd. apply watchBackoffJitter_bounds.
  unfold watchBackoffFloor, Millisecond in Hd. lia.
Qed.

(** C11. A watching client is current. When a replica serves a name on one
    connection, wherever that is cut, the channel carries exactly the updates the
    replica's frames stand for, in order, each value whole and each failure with
    its kind; and the last of them comes from an answer that the replica's latest
    poll does not tell from its current one. *)
Theorem watch_end_to_end {W} `{Wire} `{WireLine} url_ok (p : Client W) ep g m r id name ticks fs os tail w :
  usable url_ok p -> name <> "" ->
  authenticate g r = inl id -> g_policy g id name = None ->
  handleWatch g m r [name] true ticks = (inr fs, os) ->
  (forall q w, (ep_Do ep q w).2 = Ok (MkReply 200 (stream_bytes fs ++ tail))) ->
  tail = "" \/ cut_frame stream_decoder tail ->
  Forall frame_fits fs ->
  ForallOrdPairs (fun f1 f2 => dated_after (frame_date f1) (frame_date f2)) fs ->
  let '(_, (ds, _, established)) := watchOnce url_ok p ep name ∅ w in
  established = true /\ map dl_update ds = omap frame_update fs /\
  exists a, last (map dl_update ds) = frame_update (watch_frame name a) /\
            snapshotChanged a (lookupFresh (last_poll m ticks) name) = false.
Proof.
  intros Hp Hn Hid Hperm Hw Hep Htail Hfit Hord.
  pose proof (handleWatch_of_name g m r id name ticks fs os Hid Hperm Hw) as Hof.
  destruct (handleWatch_current g m r id [name] ticks fs os name) as (a & Ha & Hcur);
    [apply NoDup_singleton|done|done|by constructor|done|].
  pose proof (watchOnce_stream url_ok p ep name fs tail ∅ w Hp Hn Hep Htail Hof Hfit Hord) as Ho.
  destruct (watchOnce url_ok p ep name ∅ w) as [w' [[ds g'] est]].
  destruct Ho as [He Hds]. { apply Forall_forall. intros f _. by destruct (frame_date f). }
  split_and!; [done|done|]. exists a. split; [|done]. rewrite Hds, (last_update name) by done. by rewrite Ha.
Qed.

(** * An instance *)

Lemma pos_text_plain q : plain (pos_text q).
Proof. induction q as [q [H1 H2]|q [H1 H2]|]; (split; [|]); simpl; by rewrite ?H1, ?H2. Qed.

Definition text_line : WireLine.
Proof.
  refine {| marshal := to_text; unmarshal := of_text |}; [intros; apply of_text_to_text|intros; apply pos_text_plain].
Defined.

(** A token is renewed under a watch, from the snapshots of Handlers.v. *)
Definition renewed : gmap string bindingSnapshot := {["team/db" := fetched "new" "2"]}.

Definition team_frames : list frame :=
  match (handleWatch team_guard (snapshots "old" None) team_request ["team/db"] true
    [None; Some renewed]).1 with inr fs => fs | inl _ => [] end.

Definition team_values : list frame :=
  [ FUpdate (newValueBody "team/db" (MkValue "old" "1" true 0 ∅) "" (MkFreshness 5 false)); FHeartbeat;
    FUpdate (newValueBody "team/db" (MkValue "new" "2" true 0 ∅) "" (MkFreshness 5 false)) ].

Lemma team_frames_values : team_frames = team_values.
Proof. by vm_compute. Qed.

Lemma team_frames_fit : Forall (@frame_fits text_line) team_frames.
Proof.
  rewrite team_frames_values. apply Forall_cons. split; [split; by vm_compute|].
  apply Forall_cons. split; [done|]. apply Forall_singleton. split; by vm_compute.
Qed.

Lemma team_frames_in_order :
  ForallOrdPairs (fun f1 f2 => dated_after (frame_date f1) (frame_date f2)) team_frames.
Proof. rewrite team_frames_values. repeat constructor; by vm_compute. Qed.

Definition streaming (fs : list frame) : endpoint unit :=
  MkEndpoint "https://cfg" (fun q w => (w, Ok (MkReply 200 (@stream_bytes text_line fs ++ "event: upd")))).

Definition stale_frame (t : Z) : frame := FUpdate (newValueBody "team/db" (MkValue "v" "1" false 0 ∅) "" (MkFreshness t false)).

(** Two replicas, the second half a poll behind. *)
Definition lagging_client : Client unit :=
  MkClient [streaming [stale_frame (100 * Second)]; streaming [stale_frame (80 * Second)]] [] None false.

Lemma watch_never_goes_back_witness :
  length (@watchLoop unit text_wire text_line (fun _ => true) (fun _ w => w) lagging_client "team/db" 3 watch_start tt).1
    = 2%nat /\
  forall t t', stamp_of "team/db" (Some t) = Some ("team/db", 100 * Second) ->
    map dl_stamp (@watchLoop unit text_wire text_line (fun _ => true) (fun _ w => w) lagging_client "team/db" 3
      watch_start tt).1 = [Some ("team/db", t); Some ("team/db", t')] ->
    t - Second <= t'.
Proof.
  split; [by vm_compute|]. intros t t' _ Hs.
  destruct (@watchLoop unit text_wire text_line (fun _ => true) (fun _ w => w) lagging_client "team/db" 3 watch_start tt).1
    as [|d1 [|d2 [|]]] eqn:E; try discriminate Hs. injection Hs as H1 H2.
  exact (@watch_never_goes_back unit text_wire text_line (fun _ => true) (fun _ w => w) lagging_client "team/db" 3 tt
    0%nat 1%nat d1 d2 "team/db" t t' ltac:(lia) ltac:(by rewrite E) ltac:(by rewrite E) H1 H2).
Defined.

Lemma watch_rotates_witness : forall d,
  (@watchLoop unit text_wire text_line (fun _ => true) (fun _ w => w) lagging_client "team/db" 2 watch_start tt).2
    !! 1%nat = Some (1%nat, Some d) -> watchBackoffFloor <= d.
Proof.
  intros d Hd.
  apply (@watch_rotates unit text_wire text_line (fun _ => true) (fun _ w => w) lagging_client "team/db" 2 tt 1%nat 1%nat
    (Some d) Hd).
Defined.

Lemma watch_end_to_end_witness :
  let '(_, (ds, _, _)) := @watchOnce unit text_wire text_line (fun _ => true) (team_client []) (streaming team_frames)
    "team/db" ∅ tt in
  map (fun u => val_Bytes (up_Value u)) (map dl_update ds) = ["old"; "new"].
Proof.
  pose proof (@watch_end_to_end unit text_wire text_line (fun _ => true) (team_client []) (streaming team_frames)
    team_guard (snapshots "old" None) team_request (subject "bearer") "team/db" [None; Some renewed]
    team_frames) as He.
  assert (Hw : handleWatch team_guard (snapshots "old" None) team_request ["team/db"] true
    [None; Some renewed] = (inr team_frames, (handleWatch team_guard (snapshots "old" None) team_request
    ["team/db"] true [None; Some renewed]).2)) by (by vm_compute).
  specialize (He _ "event: upd" tt (team_usable _) ltac:(done) ltac:(by vm_compute) ltac:(by vm_compute) Hw
    ltac:(done)).
  destruct (@watchOnce unit text_wire text_line _ _ _ _ _ _) as [w' [[ds g'] est]]. destruct He as (_ & -> & _).
  - right. exists update_event, ("ate" ++ String LF ("data: {1}" ++ String LF (String LF ""))).
    split; [repeat split; vm_compute; done|]. split; [done|by vm_compute].
  - exact team_frames_fit.
  - exact team_frames_in_order.
  - by vm_compute.
Defined.
