(* ===== verification/HttpCore.v ===== *)
(** The HTTP core the backend clients share (src/providers/httpcore: httpcore.go,
    do.go, classify.go, version.go, auth.go): one bounded, classified round trip,
    whose path cannot leave the prefix its base URL declares. The transport is a
    function; [net/url]'s parser of a whole URL is a parameter. *)

From S2P Require Import Prelude Errors GoStrings Ref Provider GoNumbers GoPath Auth Server Handlers SSE Client.
Open Scope string_scope.
Open Scope Z_scope.

(** * Classification *)

(** The sentinel of a status, [None] for success; [classify] names the status and
    the detail in the message. *)
Definition classify (status : Z) (detail : string) : option error :=
  if (200 <=? status) && (status <? 300) then None
  else if status =? 304 then None
  else
    let sentinel :=
      if (status =? 400) || (status =? 422) then ErrInvalid
      else if status =? 401 then ErrUnauthenticated
      else if status =? 403 then ErrPermissionDenied
      else if status =? 404 then ErrNotFound
      else if (status =? 408) || (status =? 429) then ErrRateLimited
      else ErrUnavailable in
    Some (EWrap detail [ESentinel sentinel]).

(** [func ClassifyStatus(status int, detail string) error]. *)
Definition ClassifyStatus (status : Z) (detail : string) : option error :=
  match classify status detail with
  | None => None
  | Some err => Some (EWrap "httpcore" [err])
  end.

(** [func StatusForKind(k mamori.Kind) int]. *)
Definition StatusForKind (k : Kind) : Z :=
  if bool_decide (k = KindInvalid) then 400
  else if bool_decide (k = KindUnauthenticated) then 401
  else if bool_decide (k = KindPermissionDenied) then 403
  else if bool_decide (k = KindNotFound) then 404
  else if bool_decide (k = KindRateLimited) then 429
  else if bool_decide (k = KindUnavailable) then 503
  else 500.

(** * Paths *)

Definition is_sep (c : ascii) : bool := ascii_eqb c "/" || ascii_eqb c backslash.

(** [strings.FieldsFunc(p, isSep)]: the stretches between separators that are not
    empty; [cur] is the one being read. *)
Fixpoint fields_loop (cur : string) (p : string) : list string :=
  match p with
  | EmptyString => if bool_decide (cur = "") then [] else [cur]
  | String c p =>
      if is_sep c then if bool_decide (cur = "") then fields_loop "" p else cur :: fields_loop "" p
      else fields_loop (cur ++ String c "") p
  end.

Definition path_fields (p : string) : list string := fields_loop "" p.

Definition is_dot (seg : string) : bool := bool_decide (seg = ".") || bool_decide (seg = "..").

(** [func hasDotSegment(p string) bool]. *)
Definition hasDotSegment (p : string) : bool := existsb is_dot (path_fields p).

(** [func joinPath(base, p string) string]. *)
Definition joinPath (base p : string) : string :=
  if bool_decide (p = "") then base
  else if bool_decide (base = "") || bool_decide (base = "/") then "/" ++ TrimPrefix p "/"
  else TrimSuffix base "/" ++ "/" ++ TrimPrefix p "/".

(** [shouldEscape] of [net/url] in a path, negated; the escaping of a path; and
    the bytes [validEncoded] lets stand. *)
Definition path_plain (c : ascii) : bool :=
  unreserved c || bool_decide (c ∈ ["$"; "&"; "+"; ","; "/"; ":"; ";"; "="; "@"]%char).

Fixpoint escape_path (s : string) : string :=
  match s with
  | EmptyString => ""
  | String c s =>
      if path_plain c then String c (escape_path s)
      else
        String "%" (String (hex_digit (nat_of_ascii c / 16))
          (String (hex_digit (nat_of_ascii c mod 16)) (escape_path s)))
  end.

Definition path_stands (c : ascii) : bool :=
  path_plain c || bool_decide (c ∈ ["!"; "'"; "("; ")"; "*"; "["; "]"; "%"]%char).

Fixpoint validEncoded (s : string) : bool :=
  match s with EmptyString => true | String c s => path_stands c && validEncoded s end.

(** [u.EscapedPath()] of a URL whose [Path] is [decoded], without a [RawPath], and
    with the one [setPath] leaves when the joined path was [raw]. *)
Definition default_path (decoded : string) : string :=
  if bool_decide (decoded = "*") then "*" else escape_path decoded.

Definition EscapedPath (decoded raw : string) : string :=
  if bool_decide (default_path decoded = raw) then default_path decoded
  else if validEncoded raw then raw else default_path decoded.

Definition errBadPath (msg : string) : error := EWrap msg [ESentinel ErrInvalid].

(** [func setPath(u *url.URL, basePath, reqPath string) error]: the decoded path
    and its escaped form. *)
Definition setPath (basePath reqPath : string) : res (string * string) :=
  match PathUnescape reqPath with
  | None => Err (errBadPath "request path is not a valid escaped path")
  | Some decodedReq =>
      if hasDotSegment decodedReq then Err (errBadPath "request path contains a dot segment")
      else
        let raw := joinPath basePath reqPath in
        match PathUnescape raw with
        | None => Err (errBadPath "request path joined onto the BaseURL is not a valid escaped path")
        | Some decoded => Ok (decoded, EscapedPath decoded raw)
        end
  end.

(** * Round trips *)

(** [type Request struct]; the headers in the order they are added. *)
Record core_Request := MkCoreRequest {
  cr_Method : string;
  cr_Path : string;
  cr_Query : Values;
  cr_Header : list (string * string);
  cr_Body : string;
  cr_IfNoneMatch : string;
  cr_IfModifiedSince : string;
}.

(** [type Response struct]. *)
Record core_Response := MkCoreResponse {
  re_Status : Z;
  re_Body : string;
  re_ETag : string;
  re_LastModified : string;
  re_NotModified : bool;
}.

(** A URL, split: everything before the path, the path as the wire carries it,
    and the query. *)
Record URL := MkURL { u_Origin : string; u_Path : string; u_RawQuery : string }.

(** What is sent, and what comes back: the status, the headers, and the bytes of
    the body with the error that cut it short. *)
Record sent := MkSent {
  se_Method : string;
  se_URL : URL;
  se_Header : gmap string (list string);
  se_Body : string;
}.

Record received := MkReceived {
  rc_StatusCode : Z;
  rc_Header : string -> string;
  rc_Body : string;
  rc_ReadErr : option error;
}.

(** [type Client struct], with the transport for [http.Do]. *)
Record core_Client (W : Type) := MkCore {
  cc_base : URL;
  cc_Do : sent -> W -> W * res received;
  cc_auth : option (sent -> W -> W * res sent);
  cc_maxBody : Z;
  cc_userAgent : string;
  cc_errorDetail : option (Z -> string -> string);
}.
Arguments MkCore {W}.
Arguments cc_base {W}.
Arguments cc_Do {W}.
Arguments cc_auth {W}.
Arguments cc_maxBody {W}.
Arguments cc_userAgent {W}.
Arguments cc_errorDetail {W}.

(** [type Config struct], but for what only words an error. *)
Record core_Config (W : Type) := MkCoreConfig {
  kc_BaseURL : string;
  kc_HTTPClient : option (sent -> W -> W * res received);
  kc_Auth : option (sent -> W -> W * res sent);
  kc_MaxBody : Z;
  kc_UserAgent : string;
  kc_ErrorDetail : option (Z -> string -> string);
}.
Arguments MkCoreConfig {W}.
Arguments kc_BaseURL {W}.
Arguments kc_HTTPClient {W}.
Arguments kc_Auth {W}.
Arguments kc_MaxBody {W}.
Arguments kc_UserAgent {W}.
Arguments kc_ErrorDetail {W}.

Definition DefaultMaxBody : Z := 2 ^ 20.

(** [url.Values.Add] and [http.Header.Add] and [Set]. *)
Definition Header_Add (h : gmap string (list string)) (k v : string) : gmap string (list string) :=
  <[k := (default [] (h !! k) ++ [v])%list]> h.
Definition Header_Set (h : gmap string (list string)) (k v : string) : gmap string (list string) := <[k := [v]]> h.

(** [u.Query()]: the settings of a query that parse. *)
Definition Query (rawQuery : string) : Values :=
  foldl (fun v kv => match parse_setting v kv with Some v => v | None => v end) ∅ (Split rawQuery "&").

(** The loop that merges a request's query into the URL's. *)
Definition merge_query (q extra : Values) : Values :=
  foldl (fun q kvs => foldl (fun q v => Header_Add q kvs.1 v) q kvs.2) q (map_to_list extra).

(** [io.LimitReader(r, n)], read to its end. *)
Definition LimitReader (n : Z) (s : string) : string := if n <=? 0 then "" else str_take (Z.to_nat n) s.

(** [func readBounded(r io.Reader, max int64) ([]byte, error)]. *)
Definition readBounded (max : Z) (resp : received) : res string :=
  let limit := wrap_int 64 (max + 1) in
  let b := LimitReader limit (rc_Body resp) in
  match (if str_len (rc_Body resp) <? limit then rc_ReadErr resp else None) with
  | Some err => Err (EWrap "reading response" [ESentinel ErrUnavailable; err])
  | None => if max <? str_len b then Err (EWrap "response exceeds limit" [ESentinel ErrInvalid]) else Ok b
  end.

(** [func readErrorBody(r io.Reader, max int64) []byte]. *)
Definition readErrorBody (max : Z) (resp : received) : string :=
  match (if str_len (rc_Body resp) <? max then rc_ReadErr resp else None) with
  | Some _ => ""
  | None => LimitReader max (rc_Body resp)
  end.

(** [func authError(err error) error]. *)
Definition authError (err : error) : error :=
  if bool_decide (ErrorKind (Some err) = KindUnknown) then EWrap "applying credentials" [ESentinel ErrUnauthenticated; err]
  else EWrap "applying credentials" [err].

(** [func Version(resp *Response, body []byte) string]. *)
Definition Version (resp : option core_Response) (body : string) : string :=
  match resp with
  | Some resp =>
      if negb (bool_decide (re_ETag resp = "")) then re_ETag resp
      else if negb (bool_decide (re_LastModified resp = "")) then re_LastModified resp
      else VersionHash body
  | None => VersionHash body
  end.

Section client.
Context {W : Type}.
Context (url_Parse : string -> option URL) (default_client : sent -> W -> W * res received).
Context (request_ok : sent -> bool).
Implicit Types c : core_Client W.

(** [func New(cfg Config) (a Client, or an error)]; [url.Parse] gives no URL where
    it fails, an empty origin where the scheme or the host is missing. *)
Definition core_New (cfg : core_Config W) : res (core_Client W) :=
  if bool_decide (kc_BaseURL cfg = "") then Err (errBadPath "BaseURL is required")
  else
    match url_Parse (kc_BaseURL cfg) with
    | None => Err (errBadPath "BaseURL is not a URL")
    | Some base =>
        if bool_decide (u_Origin base = "") then Err (errBadPath "BaseURL needs a scheme and host")
        else
          Ok (MkCore base (default default_client (kc_HTTPClient cfg)) (kc_Auth cfg)
            (if kc_MaxBody cfg <=? 0 then DefaultMaxBody else kc_MaxBody cfg) (kc_UserAgent cfg) (kc_ErrorDetail cfg))
    end.

(** [func (c *Client) build(ctx, r)]; [request_ok] is what
    [http.NewRequestWithContext] checks. *)
Definition build c (r : core_Request) (w : W) : W * res sent :=
  let method := if bool_decide (cr_Method r = "") then "GET" else cr_Method r in
  match setPath (u_Path (cc_base c)) (cr_Path r) with
  | Err e => (w, Err e)
  | Ok (_, path) =>
      let query :=
        if bool_decide (cr_Query r = ∅) then u_RawQuery (cc_base c)
        else Encode (merge_query (Query (u_RawQuery (cc_base c))) (cr_Query r)) in
      let h := foldl (fun h kv => Header_Add h kv.1 kv.2) ∅ (cr_Header r) in
      let h := if bool_decide (cc_userAgent c = "") then h else Header_Set h "User-Agent" (cc_userAgent c) in
      let h := if bool_decide (cr_IfNoneMatch r = "") then h else Header_Set h "If-None-Match" (cr_IfNoneMatch r) in
      let h :=
        if bool_decide (cr_IfModifiedSince r = "") then h
        else Header_Set h "If-Modified-Since" (cr_IfModifiedSince r) in
      let req := MkSent method (MkURL (u_Origin (cc_base c)) path query) h (cr_Body r) in
      if negb (request_ok req) then (w, Err (EWrap "building request" [ESentinel ErrInvalid]))
      else
        match cc_auth c with
        | None => (w, Ok req)
        | Some auth =>
            let '(w, got) := auth req w in
            match got with Ok req => (w, Ok req) | Err e => (w, Err (authError e)) end
        end
  end.

(** What [Do] makes of what came back. *)
Definition read_response c (resp : received) : res core_Response :=
  let notModified := rc_StatusCode resp =? 304 in
  let out := fun b =>
    MkCoreResponse (rc_StatusCode resp) b (rc_Header resp "ETag") (rc_Header resp "Last-Modified") notModified in
  match classify (rc_StatusCode resp) "" with
  | Some err =>
      let err :=
        match cc_errorDetail c with
        | None => Some err
        | Some detail =>
            classify (rc_StatusCode resp) (detail (rc_StatusCode resp) (readErrorBody (cc_maxBody c) resp))
        end in
      Err (EWrap "httpcore" (match err with Some e => [e] | None => [] end))
  | None =>
      if notModified then Ok (out "")
      else
        match readBounded (cc_maxBody c) resp with
        | Err e => Err (EWrap "httpcore" [e])
        | Ok b => Ok (out b)
        end
  end.

(** [func (c *Client) Do(ctx, r)]. *)
Definition core_Do c (r : core_Request) (w : W) : W * res core_Response :=
  let '(w, req) := build c r w in
  match req with
  | Err e => (w, Err e)
  | Ok req =>
      let '(w, resp) := cc_Do c req w in
      (w, match resp with
          | Err e => Err (EWrap "httpcore" [ESentinel ErrUnavailable; e])
          | Ok resp => read_response c resp
          end)
  end.
End client.

(** * Facts *)

Lemma wrap_id n : - 2 ^ 63 <= n < 2 ^ 63 -> wrap_int 64 n = n.
Proof.
  intros Hn. apply wrap_int_fits; [done|]. unfold fits_int. change (2 ^ (64 - 1)) with (2 ^ 63).
  apply andb_true_iff. split; [apply Z.leb_le|apply Z.ltb_lt]; lia.
Qed.

Lemma ErrorKind_wrap msg e : ErrorKind (Some (EWrap msg [e])) = ErrorKind (Some e).
Proof. unfold ErrorKind. simpl. by rewrite !orb_false_r. Qed.

(** Unescaping, one unit at a time. *)
Lemma PathUnescape_cons_plain c s : ascii_eqb c "%" = false -> PathUnescape (String c s) = String c <$> PathUnescape s.
Proof. intros Hc. cbn [PathUnescape]. by rewrite Hc. Qed.

Lemma PathUnescape_app s t s' t' :
  PathUnescape s = Some s' -> PathUnescape t = Some t' -> PathUnescape (s ++ t) = Some (s' ++ t').
Proof.
  intros Hs Ht. remember (String.length s) as n eqn:Hn. revert s s' Hn Hs.
  induction (lt_wf n) as [n _ IH]. intros [|c s] s' -> Hs; cbn [PathUnescape] in Hs; [by injection Hs as <-|].
  rewrite str_app_cons. cbn [PathUnescape]. destruct (ascii_eqb c "%").
  - destruct s as [|h [|l s]]; [done..|]. rewrite !str_app_cons.
    destruct (unhex h), (unhex l); try done. destruct (PathUnescape s) as [r|] eqn:E; [|done]. injection Hs as <-.
    by rewrite (IH (String.length s) ltac:(simpl; lia) s r eq_refl E).
  - destruct (PathUnescape s) as [r|] eqn:E; [|done]. injection Hs as <-.
    by rewrite (IH (String.length s) ltac:(simpl; lia) s r eq_refl E).
Qed.

Lemma PathUnescape_slash s d : PathUnescape (s ++ "/") = Some d -> exists d', PathUnescape s = Some d' /\ d = d' ++ "/".
Proof.
  intros Hs. remember (String.length s) as n eqn:Hn. revert s d Hn Hs.
  induction (lt_wf n) as [n _ IH]. intros [|c s] d -> Hs.
  { injection Hs as <-. by exists "". }
  rewrite str_app_cons in Hs. cbn [PathUnescape] in *. destruct (ascii_eqb c "%").
  - destruct s as [|h [|l s]]; [done| |].
    + simpl in Hs. destruct (unhex h); done.
    + rewrite !str_app_cons in Hs. destruct (unhex h), (unhex l); try done.
      destruct (PathUnescape (s ++ "/")) as [r|] eqn:E; [|done]. injection Hs as <-.
      destruct (IH (String.length s) ltac:(simpl; lia) s r eq_refl E) as (d' & -> & ->). by eexists.
  - destruct (PathUnescape (s ++ "/")) as [r|] eqn:E; [|done]. injection Hs as <-.
    destruct (IH (String.length s) ltac:(simpl; lia) s r eq_refl E) as (d' & -> & ->). by eexists.
Qed.

Lemma PathUnescape_escape_path s : PathUnescape (escape_path s) = Some s.
Proof.
  induction s as [|c s IH]; [done|]. cbn [escape_path]. destruct (path_plain c) eqn:Hu.
  - rewrite PathUnescape_cons_plain, IH; [done|].
    assert (Hp : implb (path_plain c) (negb (ascii_eqb c "%")) = true).
    { revert c Hu. intros c _. revert c. by apply all_bytes_spec. }
    rewrite Hu in Hp. simpl in Hp. by apply negb_true_iff in Hp.
  - destruct (unhex_hex_digit c) as [H1 H2]. cbn [PathUnescape].
    by rewrite ascii_eqb_refl, H1, H2, IH, <- Nat.div_mod_eq, ascii_nat_embedding.
Qed.

(** The path on the wire is the one that was checked. *)
Lemma EscapedPath_decodes decoded raw : PathUnescape raw = Some decoded -> PathUnescape (EscapedPath decoded raw) = Some decoded.
Proof.
  intros Hr. assert (Hd : PathUnescape (default_path decoded) = Some decoded).
  { unfold default_path. case_bool_decide; [by subst|apply PathUnescape_escape_path]. }
  unfold EscapedPath. case_bool_decide; [done|]. by destruct (validEncoded raw).
Qed.

Lemma fields_loop_slash cur a b : fields_loop cur (a ++ String "/" b) = (fields_loop cur a ++ path_fields b)%list.
Proof.
  revert cur. induction a as [|c a IH]; intros cur.
  - change ("" ++ String "/" b) with (String "/" b). cbn [fields_loop]. change (is_sep "/") with true. cbv iota.
    by case_bool_decide.
  - rewrite str_app_cons. cbn [fields_loop]. destruct (is_sep c); [|apply IH]. case_bool_decide; rewrite IH; done.
Qed.

Lemma path_fields_slash a b : path_fields (a ++ String "/" b) = (path_fields a ++ path_fields b)%list.
Proof. apply fields_loop_slash. Qed.

Lemma path_fields_end a : path_fields (a ++ "/") = path_fields a.
Proof. change (a ++ "/") with (a ++ String "/" ""). rewrite path_fields_slash. apply app_nil_r. Qed.

(** Cutting a slash off an escaped path changes no segment. *)
Lemma TrimPrefix_slash_fields p d : PathUnescape p = Some d ->
  exists d', PathUnescape (TrimPrefix p "/") = Some d' /\ path_fields d' = path_fields d.
Proof.
  intros Hp. unfold TrimPrefix. destruct (HasPrefix p "/") eqn:Hpre; [|by exists d].
  apply HasPrefix_true in Hpre as [t ->]. change ("/" ++ t) with (String "/" t) in Hp.
  rewrite PathUnescape_cons_plain in Hp by done. destruct (PathUnescape t) as [d'|] eqn:E; [|done]. injection Hp as <-.
  exists d'. change (str_drop (String.length "/") ("/" ++ t)) with t. done.
Qed.

Lemma TrimSuffix_slash p : TrimSuffix p "/" = p \/ p = TrimSuffix p "/" ++ "/".
Proof.
  unfold TrimSuffix, HasSuffix. destruct (HasPrefix (str_rev p) (str_rev "/")) eqn:Hs; [|by left]. right.
  apply HasPrefix_true in Hs as [t Ht]. change (str_rev "/") with "/" in Ht.
  assert (Hp : p = str_rev t ++ "/"). { by rewrite <- (str_rev_involutive p), Ht, str_rev_app. }
  rewrite Hp at 2. rewrite str_length_app. simpl. rewrite Nat.add_sub. rewrite Hp at 1. f_equal.
  assert (Htake : forall a b, str_take (String.length a) (a ++ b) = a).
  { clear. induction a as [|c a IH]; intros b; simpl; [by destruct b|]. by rewrite IH. }
  rewrite Hp. by rewrite Htake.
Qed.

Lemma joinPath_fields base req dbase dreq : PathUnescape base = Some dbase -> PathUnescape req = Some dreq ->
  exists d, PathUnescape (joinPath base req) = Some d /\ path_fields d = (path_fields dbase ++ path_fields dreq)%list.
Proof.
  intros Hb Hr. unfold joinPath. case_bool_decide as Hreq.
  { subst. injection Hr as <-. exists dbase. split; [done|]. by rewrite app_nil_r. }
  destruct (TrimPrefix_slash_fields req dreq Hr) as (r' & Hr' & Hf).
  assert (Hslash : PathUnescape ("/" ++ TrimPrefix req "/") = Some (String "/" r')).
  { change ("/" ++ TrimPrefix req "/") with (String "/" (TrimPrefix req "/")).
    rewrite PathUnescape_cons_plain by done. by rewrite Hr'. }
  destruct (bool_decide (base = "") || bool_decide (base = "/")) eqn:Hroot.
  - exists (String "/" r'). split; [done|]. change (path_fields (String "/" r')) with (path_fields r').
    assert (Hd : path_fields dbase = []).
    { apply orb_true_iff in Hroot as [H|H]; apply bool_decide_eq_true in H; subst; injection Hb as <-; done. }
    by rewrite Hd, Hf.
  - assert (Hbase : exists b', PathUnescape (TrimSuffix base "/") = Some b' /\ path_fields b' = path_fields dbase).
    { destruct (TrimSuffix_slash base) as [E|E]; [rewrite E; by exists dbase|].
      rewrite E in Hb. apply PathUnescape_slash in Hb as (b' & Hb' & ->). exists b'. split; [done|].
      by rewrite path_fields_end. }
    destruct Hbase as (b' & Hb' & Hfb). exists (b' ++ String "/" r'). split.
    + by apply PathUnescape_app.
    + by rewrite path_fields_slash, Hfb, Hf.
Qed.

(** RFC 3986, 5.2.4: what a server that resolves dot segments is left with. *)
Definition resolve_dots (segs : list string) : list string :=
  foldl (fun acc seg =>
    if bool_decide (seg = ".") then acc else if bool_decide (seg = "..") then removelast acc else (acc ++ [seg])%list)
    [] segs.

Lemma resolve_dots_app a b : existsb is_dot b = false -> resolve_dots (a ++ b) = (resolve_dots a ++ b)%list.
Proof.
  unfold resolve_dots. rewrite foldl_app. generalize (foldl (fun acc seg =>
    if bool_decide (seg = ".") then acc else if bool_decide (seg = "..") then removelast acc else (acc ++ [seg])%list) [] a).
  induction b as [|s b IH]; intros acc; simpl; [by rewrite app_nil_r|].
  intros [Hs Hb]%orb_false_iff. unfold is_dot in Hs. apply orb_false_iff in Hs as [H1 H2]. rewrite H1, H2.
  rewrite IH by done. by rewrite <- app_assoc.
Qed.

(** * Properties *)

(** C35. A path never leaves its base. Whatever a ref's path is - with variables
    substituted, percent-encoded or with backslashes - the path put on the wire
    decodes to the base's segments followed by exactly those it names, even when
    the server resolves dot segments and takes backslashes for separators; a path
    that could leave, or that is not an escaped path, is refused as invalid. *)
Theorem setPath_stays_below basePath reqPath dbase :
  PathUnescape basePath = Some dbase ->
  match setPath basePath reqPath with
  | Ok (decoded, wire) =>
      PathUnescape wire = Some decoded /\
      exists dreq, PathUnescape reqPath = Some dreq /\
        resolve_dots (path_fields decoded) = (resolve_dots (path_fields dbase) ++ path_fields dreq)%list
  | Err e =>
      ErrorKind (Some e) = KindInvalid /\
      forall dreq, PathUnescape reqPath = Some dreq -> exists seg, seg ∈ path_fields dreq /\ (seg = "." \/ seg = "..")
  end.
Proof.
  intros Hb. unfold setPath. destruct (PathUnescape reqPath) as [dreq|] eqn:Hr; [|done].
  destruct (hasDotSegment dreq) eqn:Hd; unfold hasDotSegment in Hd.
  - split; [done|]. intros ? [= <-]. apply existsb_exists in Hd as (seg & Hin & Hs). exists seg.
    split; [by apply list_elem_of_In|]. apply orb_true_iff in Hs as [Hs|Hs]; apply bool_decide_eq_true in Hs; auto.
  - destruct (joinPath_fields basePath reqPath dbase dreq Hb Hr) as (d & Hj & Hf). rewrite Hj.
    split; [by apply EscapedPath_decodes|]. exists dreq. split; [done|]. by rewrite Hf, resolve_dots_app.
Qed.

(** Statuses and kinds. The status chosen for a kind is classified back as
    that kind, success is exactly the 2xx statuses and 304, and a detail never
    changes the kind. *)
Theorem ClassifyStatus_spec k status detail :
  (k ∈ kinds -> k <> KindUnknown -> ErrorKind (ClassifyStatus (StatusForKind k) detail) = k) /\
  (ClassifyStatus status detail = None <-> 200 <= status < 300 \/ status = 304) /\
  ErrorKind (ClassifyStatus status detail) = ErrorKind (ClassifyStatus status "").
Proof.
  split_and!.
  - unfold kinds. simpl. rewrite !elem_of_cons, elem_of_nil.
    by intros [->|[->|[->|[->|[->|[->|[->|[]]]]]]]] Hk.
  - unfold ClassifyStatus, classify.
    destruct (Z.leb_spec 200 status), (Z.ltb_spec status 300), (Z.eqb_spec status 304); simpl; split; intros; try done; lia.
  - unfold ClassifyStatus, classify. destruct (_ && _); [done|]. by destruct (status =? 304).
Qed.

(** C36. A value is never truncated. A round trip that succeeds carries the whole
    body of a 2xx response, whose read did not fail and which is within the
    client's bound, or reports a 304 with no body; a body cut short or over the
    bound is an error. (For a bound below the largest int64, see
    [readBounded_unbounded].) *)
Theorem Do_is_exact {W} request_ok (c : core_Client W) r w w' resp :
  0 < cc_maxBody c < max_int64 -> core_Do request_ok c r w = (w', Ok resp) ->
  exists req w1 raw, build request_ok c r w = (w1, Ok req) /\ cc_Do c req w1 = (w', Ok raw) /\
    re_Status resp = rc_StatusCode raw /\ (200 <= rc_StatusCode raw < 300 \/ rc_StatusCode raw = 304) /\
    if re_NotModified resp then rc_StatusCode raw = 304 /\ re_Body resp = ""
    else re_Body resp = rc_Body raw /\ rc_ReadErr raw = None /\ str_len (rc_Body raw) <= cc_maxBody c.
Proof.
  intros Hmax. unfold core_Do. destruct (build request_ok c r w) as [w1 [req|e]] eqn:Hb; [|done].
  destruct (cc_Do c req w1) as [w2 [raw|e]] eqn:Hd; [|done]. intros [= <- Hr]. exists req, w1, raw.
  split; [done|]. split; [exact Hd|]. unfold read_response in Hr.
  destruct (classify (rc_StatusCode raw) "") as [err|] eqn:Hc; [done|].
  assert (Hok : 200 <= rc_StatusCode raw < 300 \/ rc_StatusCode raw = 304).
  { unfold classify in Hc. destruct (Z.leb_spec 200 (rc_StatusCode raw)), (Z.ltb_spec (rc_StatusCode raw) 300),
      (Z.eqb_spec (rc_StatusCode raw) 304); simpl in Hc; try done; lia. }
  destruct (Z.eqb_spec (rc_StatusCode raw) 304) as [E|E]; [by injection Hr as <-|].
  unfold readBounded in Hr. rewrite (wrap_id (cc_maxBody c + 1)) in Hr by (unfold max_int64 in Hmax; lia).
  unfold LimitReader in Hr. rewrite (proj2 (Z.leb_gt _ _)) in Hr by lia.
  destruct (Z.ltb_spec (str_len (rc_Body raw)) (cc_maxBody c + 1)) as [Hlt|Hge].
  - rewrite str_take_all in Hr by (unfold str_len in Hlt; lia).
    destruct (rc_ReadErr raw) eqn:He; [done|]. rewrite (proj2 (Z.ltb_ge _ _)) in Hr by lia. injection Hr as <-.
    split; [done|]. split; [done|]. split; [done|]. split; [done|lia].
  - rewrite (proj2 (Z.ltb_lt _ _)) in Hr; [done|].
    assert (Hl : forall n s, (n <= String.length s)%nat -> String.length (str_take n s) = n).
    { clear. induction n as [|n IH]; intros [|a s] Hn; simpl in *; [done|done|lia|]. by rewrite IH by lia. }
    unfold str_len in *. rewrite Hl by lia. lia.
Qed.

(** With the largest bound an int64 holds, the limit wraps around, nothing is read
    and every response has an empty body. *)
Lemma readBounded_unbounded resp : readBounded max_int64 resp = Ok "".
Proof.
  unfold readBounded. change (wrap_int 64 (max_int64 + 1)) with (- 9223372036854775808).
  rewrite (proj2 (Z.ltb_ge _ _)) by (unfold str_len; lia). done.
Qed.

(** * Instances *)

Lemma setPath_stays_below_witness :
  setPath "/v1/tenants/acme" "cfg/%2e%2e%5c..%2fsecrets" =
    Err (errBadPath "request path contains a dot segment") /\
  exists decoded wire, setPath "/v1/tenants/acme/" "config%2Fprod" = Ok (decoded, wire) /\
    resolve_dots (path_fields decoded) = ["v1"; "tenants"; "acme"; "config"; "prod"].
Proof.
  split; [by vm_compute|].
  pose proof (setPath_stays_below "/v1/tenants/acme/" "config%2Fprod" "/v1/tenants/acme/" ltac:(by vm_compute)) as H.
  destruct (setPath "/v1/tenants/acme/" "config%2Fprod") as [[decoded wire]|e] eqn:E; [|by vm_compute in E].
  exists decoded, wire. split; [done|]. destruct H as (_ & dreq & Hd & ->).
  vm_compute in Hd. injection Hd as <-. by vm_compute.
Defined.

Definition echo (status : Z) (b : string) : core_Client unit :=
  MkCore (MkURL "https://api" "/v1" "") (fun q w => (w, Ok (MkReceived status (fun _ => "") b None))) None 8 "" None.

Definition read_cfg : core_Request := MkCoreRequest "" "cfg" ∅ [] "" "" "".

Lemma Do_is_exact_witness :
  exists resp, core_Do (fun _ => true) (echo 200 "secret") read_cfg tt = (tt, Ok resp) /\ re_Body resp = "secret".
Proof.
  destruct (core_Do (fun _ => true) (echo 200 "secret") read_cfg tt) as [[] [resp|e]] eqn:E; [|by vm_compute in E].
  exists resp. split; [done|].
  destruct (Do_is_exact (fun _ => true) (echo 200 "secret") read_cfg tt tt resp ltac:(by vm_compute) E)
    as (req & w1 & raw & Hb & Hd & _ & Hs & Hbody).
  cbn in Hd. injection Hd as _ <-. destruct (re_NotModified resp); [|apply Hbody].
  destruct Hbody as [Hbody _]. discriminate Hbody.
Defined.

Lemma ClassifyStatus_spec_witness : ErrorKind (ClassifyStatus (StatusForKind KindRateLimited) "slow down") = KindRateLimited.
Proof. apply (ClassifyStatus_spec KindRateLimited 200 "slow down"); [by vm_compute; set_solver|done]. Defined.
