(* ===== verification/Revalidate.v ===== *)
(** Conditional polling (src/providers/httpcore/revalidate.go): a bounded,
    least-recently-used cache of the last body and validators of each ref. One
    [Get] runs at a time here; the round trip is a function. *)

From S2P Require Import Prelude Errors GoStrings Ref Provider GoNumbers SSE HttpCore.
Open Scope string_scope.
Open Scope Z_scope.

(** * The cache *)

Definition DefaultRevalidatorEntries : Z := 512.

(** [type cacheEntry struct]; its key is the one it is stored under. *)
Record cacheEntry := MkEntry { ce_etag : string; ce_lastModified : string; ce_body : string }.

(** [type Revalidator struct]: the entries by key, and the keys, most recently
    used first. *)
Record Revalidator := MkRevalidator {
  rv_maxEntries : Z;
  rv_entries : gmap string cacheEntry;
  rv_lru : list string;
}.

(** [func NewRevalidator(c, maxEntries)]. *)
Definition NewRevalidator (maxEntries : Z) : Revalidator :=
  MkRevalidator (if maxEntries <=? 0 then DefaultRevalidatorEntries else maxEntries) ∅ [].

Definition others (key : string) (lru : list string) : list string := filter (fun k => k <> key) lru.

(** [lru.MoveToFront]. *)
Definition touch (key : string) (rv : Revalidator) : Revalidator :=
  MkRevalidator (rv_maxEntries rv) (rv_entries rv) (key :: others key (rv_lru rv)).

(** [validators] and [cached]: the entry of a key, marked as used. *)
Definition rv_lookup (key : string) (rv : Revalidator) : option cacheEntry * Revalidator :=
  match rv_entries rv !! key with
  | None => (None, rv)
  | Some e => (Some e, touch key rv)
  end.

(** [func (rv *Revalidator) drop(key string)]. *)
Definition rv_drop (key : string) (rv : Revalidator) : Revalidator :=
  match rv_entries rv !! key with
  | None => rv
  | Some _ => MkRevalidator (rv_maxEntries rv) (delete key (rv_entries rv)) (others key (rv_lru rv))
  end.

(** The loop that evicts from the back; one turn per key is enough. *)
Fixpoint evict (fuel : nat) (rv : Revalidator) : Revalidator :=
  match fuel with
  | O => rv
  | S fuel =>
      if rv_maxEntries rv <? Z.of_nat (length (rv_lru rv)) then
        match last (rv_lru rv) with
        | None => rv
        | Some oldest =>
            evict fuel (MkRevalidator (rv_maxEntries rv) (delete oldest (rv_entries rv)) (removelast (rv_lru rv)))
        end
      else rv
  end.

Definition entry_of (resp : core_Response) : cacheEntry :=
  MkEntry (re_ETag resp) (re_LastModified resp) (re_Body resp).

(** [func (rv *Revalidator) store(key string, resp)]. *)
Definition rv_store (key : string) (resp : core_Response) (rv : Revalidator) : Revalidator :=
  if bool_decide (re_ETag resp = "") && bool_decide (re_LastModified resp = "") then rv_drop key rv
  else
    let entries := <[key := entry_of resp]> (rv_entries rv) in
    match rv_entries rv !! key with
    | Some _ => touch key (MkRevalidator (rv_maxEntries rv) entries (rv_lru rv))
    | None =>
        let rv := MkRevalidator (rv_maxEntries rv) entries (key :: rv_lru rv) in
        evict (length (rv_lru rv)) rv
    end.

(** A request with validators, kept where the caller set them. *)
Definition conditional (etag lastMod : string) (r : core_Request) : core_Request :=
  MkCoreRequest (cr_Method r) (cr_Path r) (cr_Query r) (cr_Header r) (cr_Body r)
    (if bool_decide (cr_IfNoneMatch r = "") then etag else cr_IfNoneMatch r)
    (if bool_decide (cr_IfModifiedSince r = "") then lastMod else cr_IfModifiedSince r).

Definition unconditional (r : core_Request) : core_Request :=
  MkCoreRequest (cr_Method r) (cr_Path r) (cr_Query r) (cr_Header r) (cr_Body r) "" "".

Definition errEmpty304 : error :=
  EWrap "httpcore: backend answered 304 to a request carrying no validators" [ESentinel ErrUnavailable].

Section get.
Context {W : Type} (Do : core_Request -> W -> W * res core_Response).

(** The second, unconditional request of [Get]. *)
Definition get_again (rv : Revalidator) (key : string) (r : core_Request) (w : W)
    : W * res core_Response * Revalidator :=
  let '(w, got) := Do (unconditional r) w in
  match got with
  | Err err => (w, Err err, rv_drop key rv)
  | Ok resp =>
      if re_NotModified resp then (w, Err errEmpty304, rv_drop key rv)
      else (w, Ok resp, rv_store key resp rv)
  end.

(** [func (rv *Revalidator) Get(ctx, key, r)]. *)
Definition rv_Get (rv : Revalidator) (key : string) (r : core_Request) (w : W)
    : W * res core_Response * Revalidator :=
  let '(e, rv) := rv_lookup key rv in
  let r := match e with Some e => conditional (ce_etag e) (ce_lastModified e) r | None => r end in
  let '(w, got) := Do r w in
  match got with
  | Err err => (w, Err err, rv_drop key rv)
  | Ok resp =>
      if re_NotModified resp then
        match rv_lookup key rv with
        | (None, rv) => get_again rv key r w
        | (Some e, rv) =>
            (w, Ok (MkCoreResponse (re_Status resp) (ce_body e) (ce_etag e) (ce_lastModified e) true), rv)
        end
      else (w, Ok resp, rv_store key resp rv)
  end.
End get.

(** * The index and the order agree *)

(** The two structures hold the same keys, each once, within the bound. *)
Record rv_wf (rv : Revalidator) : Prop := {
  wf_nodup : NoDup (rv_lru rv);
  wf_dom : forall key, key ∈ rv_lru rv <-> is_Some (rv_entries rv !! key);
  wf_bound : Z.of_nat (length (rv_lru rv)) <= rv_maxEntries rv;
  wf_positive : 0 < rv_maxEntries rv;
}.

Lemma NewRevalidator_wf n : rv_wf (NewRevalidator n).
Proof.
  unfold NewRevalidator. split; simpl.
  - constructor.
  - intros key. rewrite lookup_empty. split; [by intros ?%elem_of_nil|by intros [? ?]].
  - destruct (Z.leb_spec n 0); unfold DefaultRevalidatorEntries; lia.
  - destruct (Z.leb_spec n 0); unfold DefaultRevalidatorEntries; lia.
Qed.

Lemma elem_of_others key k lru : k ∈ others key lru <-> k <> key /\ k ∈ lru.
Proof. unfold others. by rewrite list_elem_of_filter. Qed.

Lemma others_length key lru : NoDup lru -> key ∈ lru -> S (length (others key lru)) = length lru.
Proof.
  induction 1 as [|k lru Hk Hnd IH]; [by intros ?%elem_of_nil|]. unfold others in *. rewrite filter_cons.
  intros [->|Hin]%elem_of_cons.
  - rewrite decide_False by tauto. simpl. f_equal.
    assert (E : filter (fun k0 => k0 <> k) lru = lru); [|by rewrite E].
    clear IH Hnd. induction lru as [|k' lru IH]; [done|]. rewrite filter_cons, not_elem_of_cons in *.
    destruct Hk as [H1 H2]. rewrite decide_True by congruence. by rewrite IH.
  - rewrite decide_True by (intros ->; done). simpl. by rewrite IH.
Qed.

Lemma touch_wf key rv : rv_wf rv -> is_Some (rv_entries rv !! key) -> rv_wf (touch key rv).
Proof.
  intros [Hnd Hdom Hb Hp] Hin. apply Hdom in Hin. split; simpl; [| | |done].
  - apply NoDup_cons. split; [rewrite elem_of_others; tauto|by apply NoDup_filter].
  - intros k. rewrite elem_of_cons, elem_of_others, <- Hdom.
    destruct (decide (k = key)) as [->|]; naive_solver.
  - by rewrite others_length.
Qed.

Lemma rv_lookup_wf key rv : rv_wf rv -> rv_wf (rv_lookup key rv).2.
Proof.
  intros Hwf. unfold rv_lookup. destruct (rv_entries rv !! key) eqn:E; simpl; [|done].
  apply touch_wf; [done|by rewrite E].
Qed.

Lemma rv_drop_wf key rv : rv_wf rv -> rv_wf (rv_drop key rv).
Proof.
  intros [Hnd Hdom Hb Hp]. unfold rv_drop. destruct (rv_entries rv !! key) eqn:E; [|done].
  assert (Hin : key ∈ rv_lru rv) by (apply Hdom; by rewrite E). split; simpl; [| | |done].
  - by apply NoDup_filter.
  - intros k. rewrite elem_of_others, Hdom. destruct (decide (k = key)) as [->|Hne].
    + rewrite lookup_delete_eq. split; [tauto|by intros [? ?]].
    + rewrite lookup_delete_ne by done. tauto.
  - pose proof (others_length key _ Hnd Hin). lia.
Qed.

(** The eviction of a cache one over its bound removes the oldest key. *)
Lemma last_removelast {A} (l : list A) x : last l = Some x -> l = (removelast l ++ [x])%list.
Proof.
  intros Hl. apply last_Some in Hl as [l' ->]. by rewrite removelast_last.
Qed.

Lemma evict_wf fuel rv : NoDup (rv_lru rv) -> (forall key, key ∈ rv_lru rv <-> is_Some (rv_entries rv !! key)) ->
  0 < rv_maxEntries rv -> (length (rv_lru rv) <= fuel)%nat -> rv_wf (evict fuel rv).
Proof.
  revert rv. induction fuel as [|fuel IH]; intros rv Hnd Hdom Hp Hlen; cbn [evict].
  { split; [done|done| |done]. lia. }
  destruct (Z.ltb_spec (rv_maxEntries rv) (Z.of_nat (length (rv_lru rv)))) as [Hlt|Hge]; [|by split].
  destruct (last (rv_lru rv)) as [oldest|] eqn:El.
  - apply last_removelast in El. rewrite El in Hnd, Hlen, Hdom. apply NoDup_app in Hnd as (Hnd & Hx & _).
    apply IH; simpl; [done| |done|rewrite length_app in Hlen; simpl in Hlen; lia].
    intros k. specialize (Hdom k). rewrite elem_of_app, list_elem_of_singleton in Hdom.
    destruct (decide (k = oldest)) as [->|Hne].
    + rewrite lookup_delete_eq. split; [|by intros [? ?]]. intros Hin. exfalso. apply (Hx _ Hin).
      by apply list_elem_of_singleton.
    + rewrite lookup_delete_ne by done. rewrite <- Hdom. tauto.
  - apply last_None in El. rewrite El in Hlt. simpl in Hlt. lia.
Qed.

Lemma rv_store_wf key resp rv : rv_wf rv -> rv_wf (rv_store key resp rv).
Proof.
  intros Hwf. unfold rv_store. destruct (_ && _); [by apply rv_drop_wf|]. destruct Hwf as [Hnd Hdom Hb Hp].
  destruct (rv_entries rv !! key) eqn:E.
  - apply touch_wf; [|simpl; rewrite lookup_insert_eq; by eexists]. split; simpl; [done| |done|done].
    intros k. rewrite Hdom. destruct (decide (k = key)) as [->|Hne].
    + rewrite lookup_insert_eq, E. split; by eexists.
    + by rewrite lookup_insert_ne by done.
  - apply evict_wf; simpl; [| |done|done].
    + apply NoDup_cons. split; [|done]. rewrite Hdom, E. by intros [? ?].
    + intros k. rewrite elem_of_cons, Hdom. destruct (decide (k = key)) as [->|Hne].
      * rewrite lookup_insert_eq. split; [by eexists|by left].
      * rewrite lookup_insert_ne by done. tauto.
Qed.

(** * What the entries hold *)

Lemma rv_lookup_entries key rv : rv_entries (rv_lookup key rv).2 = rv_entries rv.
Proof. unfold rv_lookup. by destruct (rv_entries rv !! key). Qed.

Lemma rv_drop_entries key rv : rv_entries (rv_drop key rv) ⊆ rv_entries rv.
Proof. unfold rv_drop. destruct (rv_entries rv !! key); [apply delete_subseteq|done]. Qed.

Lemma evict_entries fuel rv : rv_entries (evict fuel rv) ⊆ rv_entries rv.
Proof.
  revert rv. induction fuel as [|fuel IH]; intros rv; cbn [evict]; [done|].
  destruct (_ <? _); [|done]. destruct (last (rv_lru rv)) as [k|]; [|done].
  etrans; [apply IH|]. apply delete_subseteq.
Qed.

Lemma rv_store_entries key resp rv k e : rv_entries (rv_store key resp rv) !! k = Some e ->
  rv_entries rv !! k = Some e \/
  (k = key /\ e = entry_of resp /\ (re_ETag resp <> "" \/ re_LastModified resp <> "")).
Proof.
  unfold rv_store.
  destruct (bool_decide (re_ETag resp = "") && bool_decide (re_LastModified resp = "")) eqn:Hv.
  { intros Hk. left. by eapply lookup_weaken; [exact Hk|apply rv_drop_entries]. }
  assert (Hnew : re_ETag resp <> "" \/ re_LastModified resp <> "").
  { apply andb_false_iff in Hv as [Hv|Hv]; apply bool_decide_eq_false in Hv; auto. }
  assert (Hins : <[key := entry_of resp]> (rv_entries rv) !! k = Some e ->
    rv_entries rv !! k = Some e \/ (k = key /\ e = entry_of resp /\ (re_ETag resp <> "" \/ re_LastModified resp <> ""))).
  { destruct (decide (k = key)) as [->|Hne].
    - rewrite lookup_insert_eq. intros [= <-]. by right.
    - rewrite lookup_insert_ne by done. by left. }
  destruct (rv_entries rv !! key); [exact Hins|]. intros Hk. apply Hins.
  exact (lookup_weaken _ _ _ _ Hk (evict_entries _ _)).
Qed.

(** * A backend whose validators mean something *)

Section honest.
Context {W : Type} (Do : core_Request -> W -> W * res core_Response).

(** The request of a ref, and the body the backend holds for it. *)
Context (target : string -> core_Request) (content : W -> string -> string).

(** A full response is the body of the moment, and a 304 to validators a body
    came with says that this body is still the one. *)
Record honest : Prop := {
  h_plain : forall key, cr_IfNoneMatch (target key) = "" /\ cr_IfModifiedSince (target key) = "";
  h_full : forall key etag lastMod w w' resp, Do (conditional etag lastMod (target key)) w = (w', Ok resp) ->
    re_NotModified resp = false -> re_Body resp = content w' key;
  h_current : forall key etag lastMod w1 w1' resp w2 w2' resp',
    Do (conditional etag lastMod (target key)) w1 = (w1', Ok resp) -> re_NotModified resp = false ->
    re_ETag resp <> "" \/ re_LastModified resp <> "" ->
    Do (conditional (re_ETag resp) (re_LastModified resp) (target key)) w2 = (w2', Ok resp') ->
    re_NotModified resp' = true -> content w2' key = re_Body resp;
}.

(** The states of a cache that only its refs' polls, and time, have moved. *)
Inductive polled (maxEntries : Z) : W -> Revalidator -> Prop :=
  | polled_new w : polled maxEntries w (NewRevalidator maxEntries)
  | polled_wait w w' rv : polled maxEntries w rv -> polled maxEntries w' rv
  | polled_get w rv key w' got rv' :
      polled maxEntries w rv -> rv_Get Do rv key (target key) w = (w', got, rv') -> polled maxEntries w' rv'.

(** An entry came with a full response to a poll of its key. *)
Definition vouched (key : string) (e : cacheEntry) : Prop :=
  exists etag lastMod w w' resp, Do (conditional etag lastMod (target key)) w = (w', Ok resp) /\
    re_NotModified resp = false /\ (re_ETag resp <> "" \/ re_LastModified resp <> "") /\ e = entry_of resp.

Hypothesis Hh : honest.

Lemma conditional_plain key : conditional "" "" (target key) = target key.
Proof using Hh.
  destruct (h_plain Hh key) as [H1 H2]. unfold conditional. rewrite !bool_decide_eq_true_2 by done.
  destruct (target key); simpl in *; by subst.
Qed.

Lemma unconditional_conditional etag lastMod key : unconditional (conditional etag lastMod (target key)) = target key.
Proof using Hh. destruct (h_plain Hh key) as [H1 H2]. destruct (target key); simpl in *; by subst. Qed.

(** The request a poll sends first, for some validators. *)
Lemma first_request rv key : exists etag lastMod,
  match (rv_lookup key rv).1 with
  | Some e => conditional (ce_etag e) (ce_lastModified e) (target key)
  | None => target key
  end = conditional etag lastMod (target key).
Proof using Hh. destruct (rv_lookup key rv).1 as [e|]; [by eexists _, _|]. exists "", "". by rewrite conditional_plain. Qed.

(** One poll of a key, on a cache all of whose entries are vouched for. *)
Lemma Get_spec rv key w w' got rv' :
  rv_wf rv -> map_Forall vouched (rv_entries rv) -> rv_Get Do rv key (target key) w = (w', got, rv') ->
  rv_wf rv' /\ map_Forall vouched (rv_entries rv') /\
  match got with
  | Ok resp => re_Body resp = content w' key
  | Err _ => rv_entries rv' !! key = None
  end.
Proof using Hh.
  intros Hwf Hv Hg. unfold rv_Get in Hg. pose proof (rv_lookup_wf key rv Hwf) as Hwf1.
  pose proof (rv_lookup_entries key rv) as Hent. destruct (first_request rv key) as (etag & lastMod & Hreq).
  assert (Hfind : (rv_lookup key rv).1 = rv_entries rv !! key) by (unfold rv_lookup; by destruct (_ !! _)).
  destruct (rv_lookup key rv) as [e rv1]. cbn [fst snd] in *. rewrite Hreq in Hg.
  assert (Hdrop : forall rv2, rv_wf rv2 -> rv_entries rv2 = rv_entries rv -> rv_wf (rv_drop key rv2) /\
    map_Forall vouched (rv_entries (rv_drop key rv2)) /\ rv_entries (rv_drop key rv2) !! key = None).
  { intros rv2 Hwf2 He2. split_and!; [by apply rv_drop_wf| |].
    - intros k e' Hk. apply Hv. rewrite <- He2. exact (lookup_weaken _ _ _ _ Hk (rv_drop_entries _ _)).
    - unfold rv_drop. destruct (rv_entries rv2 !! key) eqn:E; [apply lookup_delete_eq|done]. }
  assert (Hstore : forall rv2 et lm w0 w0' resp, rv_wf rv2 -> rv_entries rv2 = rv_entries rv ->
    Do (conditional et lm (target key)) w0 = (w0', Ok resp) -> re_NotModified resp = false ->
    rv_wf (rv_store key resp rv2) /\ map_Forall vouched (rv_entries (rv_store key resp rv2)) /\
    re_Body resp = content w0' key).
  { intros rv2 et lm w0 w0' resp Hwf2 He2 Hd Hn. split_and!; [by apply rv_store_wf| |by eapply h_full].
    intros k e' Hk. apply rv_store_entries in Hk as [Hk|(-> & -> & Hne)].
    - rewrite He2 in Hk. by apply Hv.
    - exists et, lm, w0, w0', resp. by split_and!. }
  destruct (Do (conditional etag lastMod (target key)) w) as [w1 [resp|err]] eqn:Hd.
  2:{ injection Hg as <- <- <-. destruct (Hdrop rv1 Hwf1 Hent) as (? & ? & ?). by split_and!. }
  destruct (re_NotModified resp) eqn:Hn.
  2:{ injection Hg as <- <- <-. by eapply (Hstore rv1). }
  unfold rv_lookup in Hg. rewrite Hent in Hg. subst e. destruct (rv_entries rv !! key) as [e|] eqn:Ee.
  - injection Hg as <- <- <-. simpl.
    split; [apply touch_wf; [done|rewrite Hent, Ee; by eexists]|]. split; [by rewrite Hent|].
    destruct (Hv key e Ee) as (et & lm & w0 & w0' & resp0 & Hd0 & Hn0 & Hne & ->). rewrite <- Hreq in Hd.
    symmetry. exact (h_current Hh key et lm w0 w0' resp0 w w1 resp Hd0 Hn0 Hne Hd Hn).
  - unfold get_again in Hg. rewrite unconditional_conditional in Hg.
    destruct (Do (target key) w1) as [w2 [resp2|err2]] eqn:Hd2.
    + rewrite <- (conditional_plain key) in Hd2. destruct (re_NotModified resp2) eqn:Hn2; injection Hg as <- <- <-.
      * destruct (Hdrop rv1 Hwf1 Hent) as (? & ? & ?). by split_and!.
      * by eapply (Hstore rv1).
    + injection Hg as <- <- <-. destruct (Hdrop rv1 Hwf1 Hent) as (? & ? & ?). by split_and!.
Qed.

Lemma polled_ok maxEntries w rv : polled maxEntries w rv -> rv_wf rv /\ map_Forall vouched (rv_entries rv).
Proof using Hh.
  induction 1 as [w|w w' rv _ IH|w rv key w' got rv' _ [Hwf Hv] Hg]; [|done|].
  - split; [apply NewRevalidator_wf|]. apply map_Forall_empty.
  - destruct (Get_spec rv key w w' got rv' Hwf Hv Hg) as (? & ? & _). done.
Qed.
End honest.

(** * Properties *)

(** C37. Conditional polling is transparent. Over any sequence of polls of any
    refs, a poll that succeeds returns the body the backend holds at that moment,
    whether it came in full, from the cache on a 304, or from the second request
    made when the cache has nothing to pair a 304 with; a poll that fails leaves
    no entry behind; and the cache never holds more than its bound. *)
Theorem Revalidator_transparent {W} (Do : core_Request -> W -> W * res core_Response) target content maxEntries
    w rv key w' got rv' :
  honest Do target content -> polled Do target maxEntries w rv ->
  rv_Get Do rv key (target key) w = (w', got, rv') ->
  match got with
  | Ok resp => re_Body resp = content w' key
  | Err _ => rv_entries rv' !! key = None
  end /\
  (length (rv_lru rv') <= Z.to_nat (rv_maxEntries rv'))%nat /\
  (forall k, k ∈ rv_lru rv' <-> is_Some (rv_entries rv' !! k)).
Proof.
  intros Hh Hpoll Hg. destruct (polled_ok Do target content Hh maxEntries w rv Hpoll) as [Hwf Hv].
  destruct (Get_spec Do target content Hh rv key w w' got rv' Hwf Hv Hg) as (Hwf' & _ & Hgot).
  split; [done|]. destruct Hwf' as [_ Hdom Hb _]. split; [lia|done].
Qed.

(** * An instance *)

(** A backend that counts its writes and names each version by its number. *)
Definition version_body (v : nat) : string := String "v" (String (ascii_of_nat (48 + v)) "").

Definition versions_Do (r : core_Request) (v : nat) : nat * res core_Response :=
  let etag := version_body v in
  (v, Ok (if bool_decide (cr_IfNoneMatch r = etag) then MkCoreResponse 304 "" "" "" true
          else MkCoreResponse 200 etag etag "" false)).

Definition the_ref (key : string) : core_Request := MkCoreRequest "" key ∅ [] "" "" "".

Lemma versions_honest : honest versions_Do the_ref (fun v _ => version_body v).
Proof.
  split.
  - done.
  - intros key etag lastMod w w' resp. unfold versions_Do. case_bool_decide; by intros [= <- <-].
  - intros key etag lastMod w1 w1' resp w2 w2' resp'. unfold versions_Do at 1.
    case_bool_decide; intros [= <- <-]; [done|]. intros _ _. unfold versions_Do.
    change (cr_IfNoneMatch (conditional _ _ (the_ref key))) with (version_body w1).
    case_bool_decide as E; intros [= <- <-]; [|done]. intros _. symmetry. exact E.
Qed.

Lemma Revalidator_transparent_witness :
  let rv := (rv_Get versions_Do (NewRevalidator 4) "a" (the_ref "a") 1%nat).2 in
  exists resp, (rv_Get versions_Do rv "a" (the_ref "a") 1%nat).1.2 = Ok resp /\
    re_NotModified resp = true /\ re_Body resp = version_body 1.
Proof.
  intros rv. destruct (rv_Get versions_Do rv "a" (the_ref "a") 1%nat) as [[w' got] rv'] eqn:Hg.
  assert (Hpoll : polled versions_Do the_ref 4 1%nat rv).
  { eapply (polled_get _ _ _ 1%nat (NewRevalidator 4) "a"); [constructor|].
    subst rv. by vm_compute. }
  destruct (Revalidator_transparent versions_Do the_ref (fun v _ => version_body v) 4 1%nat rv "a" w' got rv'
    versions_honest Hpoll Hg) as [Hgot _].
  assert (Hm : match (rv_Get versions_Do rv "a" (the_ref "a") 1%nat).1.2 with
    | Ok resp => re_NotModified resp = true | Err _ => False end) by (vm_compute; reflexivity).
  assert (Hw : (rv_Get versions_Do rv "a" (the_ref "a") 1%nat).1.1 = 1%nat) by (vm_compute; reflexivity).
  rewrite Hg in Hm, Hw. simpl in Hm, Hw. subst w'. destruct got as [resp|e]; [|done].
  exists resp. split; [done|]. split; [done|]. exact Hgot.
Defined.
