(* ===== verification/TokenCache.v ===== *)
(** The access token of the client-credentials grant
    (src/providers/httpcore/oauth2.go): one token cached for every caller, one
    exchange in flight at a time. Callers are goroutines; each of their critical
    sections, and each of the moments they wake at, is a step, in any order. *)

From S2P Require Import Prelude Errors GoStrings Ref Provider GoNumbers HttpCore.
Open Scope string_scope.
Open Scope Z_scope.

(** * The exchange *)

Definition DefaultOAuth2Leeway : Z := 30 * Second.

(** [exchange], on the response of the token endpoint at the time [now];
    [token_json] is [json.Unmarshal] of the two fields the code reads. *)
Definition exchange (token_json : string -> option (string * Z)) (leeway now : Z) (resp : res core_Response)
    : res (string * Z) :=
  match resp with
  | Err err => Err (EWrap "httpcore: OAuth2 token exchange failed" [err])
  | Ok resp =>
      match token_json (re_Body resp) with
      | None => Err (EWrap "httpcore: OAuth2 token response is not JSON" [ESentinel ErrInvalid])
      | Some (token, expiresIn) =>
          if bool_decide (token = "") then
            Err (EWrap "httpcore: OAuth2 token response carried no access_token" [ESentinel ErrUnauthenticated])
          else if 0 <? expiresIn then Ok (token, now + wrap_int 64 (expiresIn * Second))
          else Ok (token, now + leeway * 2)
      end
  end.

Lemma exchange_Ok token_json leeway t resp tok e (answers : list (Z * res core_Response)) :
  (t, resp) ∈ answers -> Ok (tok, e) = exchange token_json leeway t resp ->
  tok <> "" /\ exists t resp expiresIn, (t, Ok resp) ∈ answers /\ token_json (re_Body resp) = Some (tok, expiresIn) /\
    e = if 0 <? expiresIn then t + wrap_int 64 (expiresIn * Second) else t + leeway * 2.
Proof.
  intros Ha. unfold exchange. destruct resp as [resp|]; [|done].
  destruct (token_json (re_Body resp)) as [[tok' expiresIn]|] eqn:Ej; [|done]. case_bool_decide; [done|].
  destruct (0 <? expiresIn) eqn:E; intros [= <- ->]; (split; [done|]); exists t, resp, expiresIn; by rewrite E.
Qed.

(** * The cache and its callers *)

(** [type oauth2Auth struct], the part behind the lock: the cached token, its
    expiry, and the fetch in flight. A token is a string here; a client that caches
    more than that has its own type for it. *)
Record oauth2Auth (A : Type) := MkTokens {
  oa_cached : option A;
  oa_expiresAt : Z;
  oa_inflight : option nat;
}.
Arguments MkTokens {A}.
Arguments oa_cached {A}.
Arguments oa_expiresAt {A}.
Arguments oa_inflight {A}.

(** Where a caller of [tokenFor] is: in its own exchange of a fetch, done with it
    but not yet past [close(f.done)], or waiting for somebody else's. *)
Inductive phase (A : Type) :=
  | Exchanging (f : nat)
  | Closing (f : nat) (result : res A)
  | Waiting (f : nat).
Arguments Exchanging {A}.
Arguments Closing {A}.
Arguments Waiting {A}.

(** The shared state: the struct, the callers inside [tokenFor], the fetches that
    are settled, and the name of the next fetch. *)
Record tokens (A : Type) := MkTokenState {
  tk_auth : oauth2Auth A;
  tk_callers : gmap nat (phase A);
  tk_done : gmap nat (res A);
  tk_next : nat;
}.
Arguments MkTokenState {A}.
Arguments tk_auth {A}.
Arguments tk_callers {A}.
Arguments tk_done {A}.
Arguments tk_next {A}.

(** One step of a caller [c]. *)
Inductive token_event (A : Type) :=
  | TkCall (c : nat) (now : Z)
  | TkExchanged (c : nat) (result : res (A * Z))
  | TkClose (c : nat)
  | TkWake (c : nat)
  | TkCancel (c : nat).
Arguments TkCall {A}.
Arguments TkExchanged {A}.
Arguments TkClose {A}.
Arguments TkWake {A}.
Arguments TkCancel {A}.

Definition errTokenCanceled : error := EWrap "httpcore: OAuth2 token exchange" [ESentinel ErrUnavailable; ESentinel CtxCanceled].

Section step.
Context {A : Type} (leeway : Z) (errCanceled : error).
Implicit Types s : tokens A.

(** The cached token, when it is not within the leeway of its expiry. *)
Definition live (now : Z) (a : oauth2Auth A) : option A :=
  match oa_cached a with Some tok => if now + leeway <? oa_expiresAt a then Some tok else None | None => None end.

(** [func (a *oauth2Auth) tokenFor(ctx)], one critical section or wake-up at a
    time: the new state, and what the caller returns when it returns. *)
Definition token_step s (ev : token_event A) : option (tokens A * option (nat * res A)) :=
  let a := tk_auth s in
  match ev with
  | TkCall c now =>
      match tk_callers s !! c with
      | Some _ => None
      | None =>
          match live now a with
          | Some tok => Some (s, Some (c, Ok tok))
          | None =>
              match oa_inflight a with
              | Some f => Some (MkTokenState a (<[c := Waiting f]> (tk_callers s)) (tk_done s) (tk_next s), None)
              | None =>
                  Some (MkTokenState (MkTokens (oa_cached a) (oa_expiresAt a) (Some (tk_next s)))
                          (<[c := Exchanging (tk_next s)]> (tk_callers s)) (tk_done s) (S (tk_next s)), None)
              end
          end
      end
  | TkExchanged c result =>
      match tk_callers s !! c with
      | Some (Exchanging f) =>
          let a :=
            match result with
            | Ok (tok, expires) => MkTokens (Some tok) expires None
            | Err _ => MkTokens (oa_cached a) (oa_expiresAt a) None
            end in
          Some (MkTokenState a (<[c := Closing f (fst <$> result)]> (tk_callers s)) (tk_done s) (tk_next s), None)
      | _ => None
      end
  | TkClose c =>
      match tk_callers s !! c with
      | Some (Closing f result) =>
          Some (MkTokenState a (delete c (tk_callers s)) (<[f := result]> (tk_done s)) (tk_next s), Some (c, result))
      | _ => None
      end
  | TkWake c =>
      match tk_callers s !! c with
      | Some (Waiting f) =>
          match tk_done s !! f with
          | Some result =>
              Some (MkTokenState a (delete c (tk_callers s)) (tk_done s) (tk_next s), Some (c, result))
          | None => None
          end
      | _ => None
      end
  | TkCancel c =>
      match tk_callers s !! c with
      | Some (Waiting f) =>
          Some (MkTokenState a (delete c (tk_callers s)) (tk_done s) (tk_next s), Some (c, Err errCanceled))
      | _ => None
      end
  end.

(** A run: the events and what each returned. *)
Fixpoint token_run s (evs : list (token_event A)) : option (tokens A * list (nat * res A)) :=
  match evs with
  | [] => Some (s, [])
  | ev :: evs =>
      match token_step s ev with
      | None => None
      | Some (s, out) =>
          match token_run s evs with
          | None => None
          | Some (s, outs) => Some (s, match out with Some o => o :: outs | None => outs end)
          end
      end
  end.

Definition token_start : tokens A := MkTokenState (MkTokens None 0 None) ∅ ∅ 0.

(** * The invariant *)

(** The caller that performs or closes a fetch. *)
Definition leads (p : phase A) : option nat :=
  match p with Exchanging f => Some f | Closing f _ => Some f | Waiting _ => None end.

Record token_inv s : Prop := {
  ti_inflight : forall f, oa_inflight (tk_auth s) = Some f <-> exists c, tk_callers s !! c = Some (Exchanging f);
  ti_leader : forall c1 c2 p1 p2 f, tk_callers s !! c1 = Some p1 -> tk_callers s !! c2 = Some p2 ->
    leads p1 = Some f -> leads p2 = Some f -> c1 = c2;
  ti_waiting : forall c f, tk_callers s !! c = Some (Waiting f) ->
    is_Some (tk_done s !! f) \/ exists c' p, tk_callers s !! c' = Some p /\ leads p = Some f;
  ti_fresh : forall c p f, tk_callers s !! c = Some p -> leads p = Some f -> (f < tk_next s)%nat /\ tk_done s !! f = None;
  ti_done : forall f, is_Some (tk_done s !! f) -> (f < tk_next s)%nat;
}.

Lemma token_start_inv : token_inv token_start.
Proof.
  split; simpl.
  - intros f. split; [done|]. intros [c Hc]. by rewrite lookup_empty in Hc.
  - intros c1 c2 p1 p2 f H. by rewrite lookup_empty in H.
  - intros c f H. by rewrite lookup_empty in H.
  - intros c p f H. by rewrite lookup_empty in H.
  - intros f [r Hr]. by rewrite lookup_empty in Hr.
Qed.

(** A caller that waits leaves the others as they are. *)
Lemma token_inv_join s c f : token_inv s -> tk_callers s !! c = None ->
  is_Some (tk_done s !! f) \/ (exists c' p, tk_callers s !! c' = Some p /\ leads p = Some f) ->
  token_inv (MkTokenState (tk_auth s) (<[c := Waiting f]> (tk_callers s)) (tk_done s) (tk_next s)).
Proof.
  intros [Hi Hl Hw Hf Hd] Hc Hlead. split; simpl.
  - intros f'. rewrite Hi. split; intros [c' Hc']; exists c'.
    + by rewrite lookup_insert_ne by congruence.
    + apply lookup_insert_Some in Hc' as [[_ [=]]|[_ Hc']]. done.
  - intros c1 c2 p1 p2 f' H1 H2 Hp1 Hp2.
    apply lookup_insert_Some in H1 as [[_ <-]|[_ H1]]; [done|].
    apply lookup_insert_Some in H2 as [[_ <-]|[_ H2]]; [done|]. by eapply Hl.
  - assert (Hkeep : forall f', (exists c' p, tk_callers s !! c' = Some p /\ leads p = Some f') ->
      exists c' p, <[c := Waiting f]> (tk_callers s) !! c' = Some p /\ leads p = Some f').
    { intros f' (c' & p & Hc' & Hp). exists c', p. split; [|done]. by rewrite lookup_insert_ne by congruence. }
    intros c1 f' H1. apply lookup_insert_Some in H1 as [[_ [= <-]]|[_ H1]].
    + destruct Hlead as [?|?]; [by left|right; auto].
    + destruct (Hw _ _ H1) as [?|?]; [by left|right; auto].
  - intros c1 p1 f' H1 Hp1. apply lookup_insert_Some in H1 as [[_ <-]|[_ H1]]; [done|]. by eapply Hf.
  - done.
Qed.

(** A waiting caller leaves: the others are as they were. *)
Lemma token_inv_leave s c f : token_inv s -> tk_callers s !! c = Some (Waiting f) ->
  token_inv (MkTokenState (tk_auth s) (delete c (tk_callers s)) (tk_done s) (tk_next s)).
Proof.
  intros [Hi Hl Hw Hf Hd] Hc.
  assert (Hkeep : forall c' p, leads p <> None -> tk_callers s !! c' = Some p -> delete c (tk_callers s) !! c' = Some p).
  { intros c' p Hp Hc'. rewrite lookup_delete_ne; [done|]. intros <-. rewrite Hc in Hc'. injection Hc' as <-. done. }
  split; simpl.
  - intros f'. rewrite Hi. split; intros [c' Hc']; exists c'; [by apply Hkeep|].
    apply lookup_delete_Some in Hc' as [_ Hc']. done.
  - intros c1 c2 p1 p2 f' H1 H2. apply lookup_delete_Some in H1 as [_ H1]. apply lookup_delete_Some in H2 as [_ H2].
    by apply Hl.
  - intros c1 f' H1. apply lookup_delete_Some in H1 as [_ H1].
    destruct (Hw _ _ H1) as [?|(c' & p & Hc' & Hp)]; [by left|]. right. exists c', p. split; [|done].
    apply Hkeep; [by rewrite Hp|done].
  - intros c1 p1 f' H1. apply lookup_delete_Some in H1 as [_ H1]. intros Hp1. by eapply Hf.
  - done.
Qed.

(** A caller that finds nothing in flight leads a new fetch. *)
Lemma token_inv_lead s c : token_inv s -> tk_callers s !! c = None -> oa_inflight (tk_auth s) = None ->
  token_inv (MkTokenState (MkTokens (oa_cached (tk_auth s)) (oa_expiresAt (tk_auth s)) (Some (tk_next s)))
    (<[c := Exchanging (tk_next s)]> (tk_callers s)) (tk_done s) (S (tk_next s))).
Proof.
  intros [Hi Hl Hw Hf Hd] Hc Hn.
  assert (Hnone : forall c' f', tk_callers s !! c' = Some (Exchanging f') -> False).
  { intros c' f' Hc'. assert (E : oa_inflight (tk_auth s) = Some f') by (apply Hi; by exists c'). congruence. }
  split; simpl.
  - intros f'. split.
    + intros [= <-]. exists c. apply lookup_insert_eq.
    + intros [c' Hc']. apply lookup_insert_Some in Hc' as [[_ [= <-]]|[_ Hc']]; [done|]. by destruct (Hnone c' f').
  - intros c1 c2 p1 p2 f' H1 H2 Hp1 Hp2.
    apply lookup_insert_Some in H1 as [[<- <-]|[_ H1]]; apply lookup_insert_Some in H2 as [[<- <-]|[_ H2]].
    + done.
    + injection Hp1 as <-. destruct (Hf _ _ _ H2 Hp2). lia.
    + injection Hp2 as <-. destruct (Hf _ _ _ H1 Hp1). lia.
    + by eapply Hl.
  - intros c1 f' H1. apply lookup_insert_Some in H1 as [[_ [=]]|[_ H1]].
    destruct (Hw _ _ H1) as [?|(c' & p & Hc' & Hp)]; [by left|]. right. exists c', p.
    split; [|done]. by rewrite lookup_insert_ne by congruence.
  - intros c1 p1 f' H1 Hp1. apply lookup_insert_Some in H1 as [[_ <-]|[_ H1]].
    + injection Hp1 as <-. split; [lia|]. destruct (tk_done s !! tk_next s) eqn:E; [|done].
      assert (tk_next s < tk_next s)%nat by (apply Hd; by rewrite E). lia.
    + destruct (Hf _ _ _ H1 Hp1). split; [lia|done].
  - intros f' H'. specialize (Hd f' H'). lia.
Qed.

(** The leader comes back from its exchange, and then settles its fetch. *)
Lemma token_inv_exchanged s c f cached expires result : token_inv s -> tk_callers s !! c = Some (Exchanging f) ->
  token_inv (MkTokenState (MkTokens cached expires None) (<[c := Closing f result]> (tk_callers s)) (tk_done s) (tk_next s)).
Proof.
  intros [Hi Hl Hw Hf Hd] Hc. split; simpl.
  - intros f'. split; [done|]. intros [c' Hc'].
    apply lookup_insert_Some in Hc' as [[_ [=]]|[Hne Hc']].
    assert (E1 : oa_inflight (tk_auth s) = Some f) by (apply Hi; by exists c).
    assert (E2 : oa_inflight (tk_auth s) = Some f') by (apply Hi; by exists c'). simplify_eq.
    destruct Hne. by eapply (Hl c c').
  - intros c1 c2 p1 p2 f' H1 H2 Hp1 Hp2.
    apply lookup_insert_Some in H1 as [[<- <-]|[Hn1 H1]]; apply lookup_insert_Some in H2 as [[<- <-]|[Hn2 H2]].
    + done.
    + by apply (Hl c c2 (Exchanging f) p2 f').
    + by apply (Hl c1 c p1 (Exchanging f) f').
    + by eapply Hl.
  - intros c1 f' H1. apply lookup_insert_Some in H1 as [[_ [=]]|[_ H1]].
    destruct (Hw _ _ H1) as [?|(c' & p & Hc' & Hp)]; [by left|]. right.
    destruct (decide (c' = c)) as [->|Hne].
    + exists c, (Closing f result). rewrite lookup_insert_eq. split; [done|]. rewrite Hc in Hc'. by injection Hc' as <-.
    + exists c', p. by rewrite lookup_insert_ne by done.
  - intros c1 p1 f' H1 Hp1. apply lookup_insert_Some in H1 as [[_ <-]|[_ H1]]; [|by eapply Hf].
    by apply (Hf c (Exchanging f) f').
  - done.
Qed.

Lemma token_inv_close s c f result : token_inv s -> tk_callers s !! c = Some (Closing f result) ->
  token_inv (MkTokenState (tk_auth s) (delete c (tk_callers s)) (<[f := result]> (tk_done s)) (tk_next s)).
Proof.
  intros [Hi Hl Hw Hf Hd] Hc. split; simpl.
  - intros f'. rewrite Hi. split; intros [c' Hc']; exists c'.
    + rewrite lookup_delete_ne; [done|]. intros ->. congruence.
    + by apply lookup_delete_Some in Hc' as [_ Hc'].
  - intros c1 c2 p1 p2 f' H1 H2. apply lookup_delete_Some in H1 as [_ H1]. apply lookup_delete_Some in H2 as [_ H2].
    by apply Hl.
  - intros c1 f' H1. apply lookup_delete_Some in H1 as [_ H1]. destruct (decide (f' = f)) as [->|Hne].
    + left. rewrite lookup_insert_eq. by eexists.
    + rewrite lookup_insert_ne by done. destruct (Hw _ _ H1) as [?|(c' & p & Hc' & Hp)]; [by left|]. right.
      exists c', p. rewrite lookup_delete_ne; [done|]. intros <-. rewrite Hc in Hc'. injection Hc' as <-.
      by injection Hp as ->.
  - intros c1 p1 f' H1 Hp1. apply lookup_delete_Some in H1 as [Hne H1]. destruct (Hf _ _ _ H1 Hp1). split; [done|].
    rewrite lookup_insert_ne; [done|]. intros ->. destruct Hne. by apply (Hl c c1 (Closing f' result) p1 f').
  - intros f' [r Hr]. apply lookup_insert_Some in Hr as [[<- _]|[_ Hr]]; [|apply Hd; by eexists].
    by apply (Hf c (Closing f result) f).
Qed.

Lemma token_step_inv s ev s' out : token_inv s -> token_step s ev = Some (s', out) -> token_inv s'.
Proof.
  intros Hinv. destruct ev as [c now|c result|c|c|c]; simpl; destruct (tk_callers s !! c) as [[f|f r|f]|] eqn:Hc; try done.
  - destruct (live now (tk_auth s)); [by intros [= <- <-]|].
    destruct (oa_inflight (tk_auth s)) as [f|] eqn:Hi; intros [= <- <-].
    + apply token_inv_join; [done|done|]. right. apply (ti_inflight s Hinv) in Hi as [c' Hc']. by eexists _, _.
    + by apply token_inv_lead.
  - destruct result as [[tok expires]|e]; intros [= <- <-]; by apply token_inv_exchanged.
  - intros [= <- <-]. by apply token_inv_close.
  - destruct (tk_done s !! f); [|done]. intros [= <- <-]. by eapply token_inv_leave.
  - intros [= <- <-]. by eapply token_inv_leave.
Qed.

Lemma token_run_inv s evs s' outs : token_inv s -> token_run s evs = Some (s', outs) -> token_inv s'.
Proof.
  revert s outs. induction evs as [|ev evs IH]; intros s outs Hinv; simpl; [by intros [= <- <-]|].
  destruct (token_step s ev) as [[s1 out]|] eqn:Es; [|done].
  destruct (token_run s1 evs) as [[s2 outs2]|] eqn:Er; [|done]. intros [= <- <-].
  eapply IH; [|exact Er]. by eapply token_step_inv.
Qed.
(** * What the callers were given *)

(** The token and the expiry of the last exchange that succeeded. *)
Definition last_issued (evs : list (token_event A)) : option (A * Z) :=
  last (omap (fun ev => match ev with TkExchanged _ (Ok te) => Some te | _ => None end) evs).

(** Since the call of [c] that is still pending, an exchange ended with the result [r]. *)
Definition waited_for (evs : list (token_event A)) (c : nat) (r : res A) : Prop :=
  exists before now after c' result,
    evs = (before ++ TkCall c now :: after)%list /\ (forall now', TkCall c now' ∉ after) /\
    TkExchanged c' result ∈ after /\ r = fst <$> result.

(** The same, before its end. *)
Definition pending (evs : list (token_event A)) (c : nat) : Prop :=
  exists before now after,
    evs = (before ++ TkCall c now :: after)%list /\ (forall now', TkCall c now' ∉ after).

Definition history_cached (evs : list (token_event A)) s : Prop :=
  match last_issued evs with
  | Some (tok, e) => oa_cached (tk_auth s) = Some tok /\ oa_expiresAt (tk_auth s) = e
  | None => oa_cached (tk_auth s) = None
  end.

Record history evs s : Prop := {
  h_cached : history_cached evs s;
  h_pending : forall c p, tk_callers s !! c = Some p -> pending evs c;
  h_closing : forall c f r, tk_callers s !! c = Some (Closing f r) -> waited_for evs c r;
  h_waiting : forall c c' f r, tk_callers s !! c = Some (Waiting f) ->
    tk_done s !! f = Some r \/ tk_callers s !! c' = Some (Closing f r) -> waited_for evs c r;
}.

Lemma history_cached_Some evs s tok e :
  last_issued evs = Some (tok, e) -> history_cached evs s ->
  oa_cached (tk_auth s) = Some tok /\ oa_expiresAt (tk_auth s) = e.
Proof. unfold history_cached. by intros ->. Qed.

Definition no_call (ev : token_event A) (c : nat) : Prop := forall now, ev <> TkCall c now.

Lemma pending_snoc evs ev c : no_call ev c -> pending evs c -> pending (evs ++ [ev]) c.
Proof.
  intros Hn (before & now & after & -> & Ha). exists before, now, (after ++ [ev])%list.
  split; [by rewrite <- app_assoc|]. intros now'. rewrite elem_of_app, list_elem_of_singleton.
  intros [?|E]; [by eapply Ha|]. by eapply Hn.
Qed.

Lemma waited_for_snoc evs ev c r : no_call ev c -> waited_for evs c r -> waited_for (evs ++ [ev]) c r.
Proof.
  intros Hn (before & now & after & c' & result & -> & Ha & Hin & ->).
  exists before, now, (after ++ [ev])%list, c', result. split_and!; [by rewrite <- app_assoc| |set_solver|done].
  intros now'. rewrite elem_of_app, list_elem_of_singleton. intros [?|E]; [by eapply Ha|]. by eapply Hn.
Qed.

Lemma pending_exchanged evs c c' result :
  pending evs c -> waited_for (evs ++ [TkExchanged c' result]) c (fst <$> result).
Proof.
  intros (before & now & after & -> & Ha). exists before, now, (after ++ [TkExchanged c' result])%list, c', result.
  split_and!; [by rewrite <- app_assoc| |set_solver|done].
  intros now'. rewrite elem_of_app, list_elem_of_singleton. intros [?|E]; [by eapply Ha|done].
Qed.

Lemma pending_call evs c now : pending (evs ++ [TkCall c now]) c.
Proof. exists evs, now, []. split; [done|]. intros now'. apply not_elem_of_nil. Qed.

Lemma last_issued_snoc evs ev :
  last_issued (evs ++ [ev]) =
  match ev with TkExchanged _ (Ok te) => Some te | _ => last_issued evs end.
Proof.
  unfold last_issued. rewrite omap_app. destruct ev as [| ? [te|]| | |]; simpl; rewrite ?app_nil_r; try done.
  by rewrite last_snoc.
Qed.

Lemma history_start : history [] token_start.
Proof. split; simpl; [done|..]; intros *; rewrite lookup_empty; done. Qed.

(** The callers that are inside before a step are not calling in it. *)
Lemma step_no_call s ev s' out c p :
  token_step s ev = Some (s', out) -> tk_callers s !! c = Some p -> no_call ev c.
Proof. intros Hs Hc now ->. simpl in Hs. by rewrite Hc in Hs. Qed.

(** A step after which the callers inside are among those before it, and a fetch is settled
    only by the caller that closes it. *)
Lemma history_keep evs s ev s' :
  history evs s -> history_cached (evs ++ [ev]) s' ->
  (forall c p, tk_callers s !! c = Some p -> no_call ev c) ->
  (forall c p, tk_callers s' !! c = Some p -> tk_callers s !! c = Some p) ->
  (forall f r, tk_done s' !! f = Some r ->
     tk_done s !! f = Some r \/ exists c, tk_callers s !! c = Some (Closing f r)) ->
  history (evs ++ [ev]) s'.
Proof.
  intros [H1 H2 H3 H4] Hcache Hno Hc Hd. split; [done|..].
  - intros c p Hp%Hc. eapply pending_snoc; [by eapply Hno|by eapply H2].
  - intros c f r Hp%Hc. eapply waited_for_snoc; [by eapply Hno|by eapply H3].
  - intros c c' f r Hp%Hc Hr. eapply waited_for_snoc; [by eapply Hno|].
    destruct Hr as [[?|[c2 ?]]%Hd|?%Hc]; [eapply (H4 c c')|eapply (H4 c c2)|eapply (H4 c c')]; eauto.
Qed.

(** A caller comes in, to wait or to lead. *)
Lemma history_enter evs s c now p s' :
  history evs s -> tk_callers s !! c = None -> history_cached (evs ++ [TkCall c now]) s' ->
  tk_callers s' = <[c := p]> (tk_callers s) -> tk_done s' = tk_done s ->
  (forall f r, p <> Closing f r) ->
  (forall f r, p = Waiting f -> tk_done s !! f <> Some r /\ forall c', tk_callers s !! c' <> Some (Closing f r)) ->
  history (evs ++ [TkCall c now]) s'.
Proof.
  intros [H1 H2 H3 H4] Hn Hcache Ec Ed Hp Hw.
  assert (Hno : forall c' p, tk_callers s !! c' = Some p -> no_call (TkCall c now) c') by (intros c' p' Hc' now' [= -> _]; congruence).
  split; rewrite ?Ec, ?Ed; [done|..].
  - intros c1 p1 [[<- _]|[_ Hc1]]%lookup_insert_Some; [apply pending_call|].
    eapply pending_snoc; [by eapply Hno|by eapply H2].
  - intros c1 f r [[_ E]|[_ Hc1]]%lookup_insert_Some; [by destruct (Hp f r)|].
    eapply waited_for_snoc; [by eapply Hno|by eapply H3].
  - intros c1 c2 f r Hc1 Hd.
    assert (Hd' : tk_done s !! f = Some r \/ tk_callers s !! c2 = Some (Closing f r)).
    { destruct Hd as [?|[[_ E]|[_ ?]]%lookup_insert_Some]; [auto|by destruct (Hp f r)|auto]. }
    apply lookup_insert_Some in Hc1 as [[_ E]|[_ Hc1]].
    + destruct (Hw f r E) as [? Hn']. by destruct Hd' as [?|?%Hn'].
    + eapply waited_for_snoc; [by eapply Hno|]. by eapply (H4 c1 c2).
Qed.

(** The leader comes back: its result is for everybody who waits for the fetch. *)
Lemma history_exchanged evs s c f result s' :
  history evs s -> tk_callers s !! c = Some (Exchanging f) ->
  history_cached (evs ++ [TkExchanged c result]) s' ->
  tk_callers s' = <[c := Closing f (fst <$> result)]> (tk_callers s) -> tk_done s' = tk_done s ->
  history (evs ++ [TkExchanged c result]) s'.
Proof.
  intros [H1 H2 H3 H4] Hc Hcache Ec Ed.
  assert (Hw : forall c r, waited_for evs c r -> waited_for (evs ++ [TkExchanged c result]) c r)
    by (intros; by apply waited_for_snoc).
  split; rewrite ?Ec, ?Ed; [done|..].
  - intros c1 p1 [[<- _]|[_ Hc1]]%lookup_insert_Some; (apply pending_snoc; [done|]); by eapply H2.
  - intros c1 f1 r1 [[<- [= <- <-]]|[_ Hc1]]%lookup_insert_Some.
    + apply pending_exchanged. by eapply H2.
    + apply waited_for_snoc; [done|]. by eapply H3.
  - intros c1 c2 f1 r1 [[_ [=]]|[_ Hc1]]%lookup_insert_Some [Hd|[[_ [= _ <-]]|[_ Hc2]]%lookup_insert_Some].
    + apply waited_for_snoc; [done|]. eapply (H4 c1 c2); eauto.
    + apply pending_exchanged. by eapply H2.
    + apply waited_for_snoc; [done|]. eapply (H4 c1 c2); eauto.
Qed.

Lemma history_step evs s ev s' out :
  token_inv s -> history evs s -> token_step s ev = Some (s', out) -> history (evs ++ [ev]) s'.
Proof.
  intros Hinv Hh Hs. pose proof (h_cached _ _ Hh) as Hcache.
  assert (Hno : forall c p, tk_callers s !! c = Some p -> no_call ev c) by (intros; by eapply step_no_call).
  destruct ev as [c now|c result|c|c|c]; simpl in Hs;
    destruct (tk_callers s !! c) as [[f|f r0|f]|] eqn:Hc; try done.
  - destruct (live now (tk_auth s)); [injection Hs as <- <-|destruct (oa_inflight (tk_auth s)) as [f|] eqn:Ei; injection Hs as <- <-].
    + apply (history_keep _ s); [done| |done|auto|auto]. unfold history_cached. by rewrite last_issued_snoc.
    + apply (history_enter _ s c now (Waiting f)); try done; [unfold history_cached; by rewrite last_issued_snoc|].
      intros f1 r [= <-]. apply (ti_inflight s Hinv) in Ei as [c3 Hc3].
      destruct (ti_fresh s Hinv c3 _ f Hc3 eq_refl) as [_ Hn]. split; [by rewrite Hn|]. intros c2 Hc2.
      assert (c2 = c3) as -> by by eapply (ti_leader s Hinv c2 c3 _ _ f). congruence.
    + apply (history_enter _ s c now (Exchanging (tk_next s))); try done. unfold history_cached. by rewrite last_issued_snoc.
  - destruct result as [[tok e]|e]; injection Hs as <- _;
      (eapply history_exchanged; [done|done| |done|done]); unfold history_cached; by rewrite last_issued_snoc.
  - injection Hs as <- _. apply (history_keep _ s); [done| |done|..]; simpl.
    + unfold history_cached. by rewrite last_issued_snoc.
    + by intros c1 p1 [_ ?]%lookup_delete_Some.
    + intros f1 r1 [[<- <-]|[_ ?]]%lookup_insert_Some; eauto.
  - destruct (tk_done s !! f) as [r|] eqn:Ed; [|done]. injection Hs as <- _.
    apply (history_keep _ s); [done| |done| |auto]; simpl; [|by intros c1 p1 [_ ?]%lookup_delete_Some].
    unfold history_cached. by rewrite last_issued_snoc.
  - injection Hs as <- _.
    apply (history_keep _ s); [done| |done| |auto]; simpl; [|by intros c1 p1 [_ ?]%lookup_delete_Some].
    unfold history_cached. by rewrite last_issued_snoc.
Qed.

Lemma history_run before s evs s' outs :
  token_inv s -> history before s -> token_run s evs = Some (s', outs) -> history (before ++ evs) s'.
Proof.
  revert before s outs. induction evs as [|ev evs IH]; intros before s outs Hinv Hh; simpl.
  { intros [= <- _]. by rewrite app_nil_r. }
  destruct (token_step s ev) as [[s1 out]|] eqn:Es; [|done].
  destruct (token_run s1 evs) as [[s2 outs2]|] eqn:Er; [|done]. intros [= <- _].
  change (ev :: evs) with ([ev] ++ evs)%list. rewrite app_assoc.
  eapply IH; [|by eapply history_step|exact Er]. by eapply token_step_inv.
Qed.

(** What a step returns to its caller. *)
Lemma returned_outcome evs s ev s' c r :
  history evs s -> token_step s ev = Some (s', Some (c, r)) ->
  match ev with
  | TkCall c' now => c' = c /\ exists tok e, last_issued evs = Some (tok, e) /\ now + leeway < e /\ r = Ok tok
  | TkExchanged _ _ => False
  | TkClose c' | TkWake c' => c' = c /\ waited_for evs c r
  | TkCancel c' => c' = c /\ r = Err errCanceled
  end.
Proof.
  intros Hh Hs. pose proof (h_cached _ _ Hh) as H1. destruct Hh as [_ H2 H3 H4].
  destruct ev as [c' now|c' result|c'|c'|c']; simpl in Hs;
    destruct (tk_callers s !! c') as [[f|f r0|f]|] eqn:Hc; try done.
  - destruct (live now (tk_auth s)) as [tok|] eqn:El; [|by destruct (oa_inflight _)].
    injection Hs as _ <- <-. split; [done|]. unfold live in El. unfold history_cached in H1.
    destruct (last_issued evs) as [[tok' e]|]; [|by rewrite H1 in El]. destruct H1 as [E1 E2]. rewrite E1, E2 in El.
    destruct (Z.ltb_spec (now + leeway) e); [|done]. injection El as ->. by exists tok, e.
  - injection Hs as _ <- <-. split; [done|]. by eapply H3.
  - destruct (tk_done s !! f) as [r1|] eqn:Ed; [|done]. injection Hs as _ <- <-. split; [done|].
    apply (H4 c' c' f); eauto.
  - by injection Hs as _ <- <-.
Qed.
End step.

(** * Properties *)

Lemma single_flight {A} leeway errCanceled evs (s : tokens A) outs :
  token_run leeway errCanceled token_start evs = Some (s, outs) ->
  (forall c1 c2 f1 f2, tk_callers s !! c1 = Some (Exchanging f1) -> tk_callers s !! c2 = Some (Exchanging f2) -> c1 = c2) /\
  (forall c f, tk_callers s !! c = Some (Waiting f) ->
     is_Some (token_step leeway errCanceled s (TkCancel c)) /\
     ((exists r s', tk_done s !! f = Some r /\ token_step leeway errCanceled s (TkWake c) = Some (s', Some (c, r))) \/
      exists c', (forall result, is_Some (token_step leeway errCanceled s (TkExchanged c' result))) \/
                 is_Some (token_step leeway errCanceled s (TkClose c')))) /\
  (forall ev s' out f r, token_step leeway errCanceled s ev = Some (s', out) -> tk_done s !! f = Some r -> tk_done s' !! f = Some r).
Proof.
  intros Hr. pose proof (token_run_inv leeway errCanceled _ _ _ _ token_start_inv Hr) as Hinv. split_and!.
  - intros c1 c2 f1 f2 H1 H2.
    assert (E1 : oa_inflight (tk_auth s) = Some f1) by (apply (ti_inflight s Hinv); by exists c1).
    assert (E2 : oa_inflight (tk_auth s) = Some f2) by (apply (ti_inflight s Hinv); by exists c2). rewrite E1 in E2. injection E2 as <-.
    by apply (ti_leader s Hinv c1 c2 _ _ f1 H1 H2).
  - intros c f Hc. split; [simpl; rewrite Hc; by eexists|].
    destruct (ti_waiting s Hinv c f Hc) as [[r Hd]|(c' & p & Hc' & Hp)].
    + left. simpl. rewrite Hc, Hd. by eexists _, _.
    + right. exists c'. destruct p as [f'|f' r|f']; [left|right|done].
      * intros result. simpl. rewrite Hc'. by eexists.
      * simpl. rewrite Hc'. by eexists.
  - intros ev s' out f r Hs Hd. destruct ev as [c now|c result|c|c|c]; simpl in Hs;
      destruct (tk_callers s !! c) as [[f'|f' r'|f']|] eqn:Hc; try done.
    + destruct (live _ _ _); [by injection Hs as <- _|]. by destruct (oa_inflight _); injection Hs as <- _.
    + by destruct result as [[? ?]|?]; injection Hs as <- _.
    + injection Hs as <- _. simpl. rewrite lookup_insert_ne; [done|]. intros ->.
      destruct (ti_fresh s Hinv c _ f Hc eq_refl). congruence.
    + destruct (tk_done s !! f'); [|done]. by injection Hs as <- _.
    + by injection Hs as <- _.
Qed.

(** C38. One exchange, a live token, and nobody stuck. In any interleaving of any number
    of callers at most one exchange is on the wire. A call returns the token of the
    last exchange that succeeded, at once, exactly when it is still good a leeway from
    now; a caller that performed an exchange or waited for one returns the token, or the
    error, of an exchange that ended after its call; one that gives up returns the
    error of a cancelled wait. Every token so returned is a non-empty one that the
    endpoint put in an answer, and its expiry is the lifetime the answer declares, added
    to the time it was read at, or twice the leeway when it declares none. A waiting caller can
    always give up, and either its fetch is settled, and it can return that
    fetch's result, or the caller performing the fetch can take its next step;
    and a settled result never changes, so every caller of a fetch that does not
    give up returns the same answer. *)
Theorem token_single_flight token_json leeway errCanceled (answers : list (Z * res core_Response)) evs (s : tokens string) outs :
  token_run leeway errCanceled token_start evs = Some (s, outs) ->
  (forall c result, TkExchanged c result ∈ evs ->
     exists t resp, (t, resp) ∈ answers /\ result = exchange token_json leeway t resp) ->
  (forall c1 c2 f1 f2, tk_callers s !! c1 = Some (Exchanging f1) -> tk_callers s !! c2 = Some (Exchanging f2) -> c1 = c2) /\
  (forall ev s' c r, token_step leeway errCanceled s ev = Some (s', Some (c, r)) ->
     match ev with
     | TkCall c' now => c' = c /\ exists tok e, last_issued evs = Some (tok, e) /\ now + leeway < e /\ r = Ok tok
     | TkExchanged _ _ => False
     | TkClose c' | TkWake c' => c' = c /\ waited_for evs c r
     | TkCancel c' => c' = c /\ r = Err errCanceled
     end) /\
  (forall c now s' out tok e, token_step leeway errCanceled s (TkCall c now) = Some (s', out) ->
     last_issued evs = Some (tok, e) -> now + leeway < e -> out = Some (c, Ok tok)) /\
  (forall c tok e, TkExchanged c (Ok (tok, e)) ∈ evs ->
     tok <> "" /\ exists t resp expiresIn, (t, Ok resp) ∈ answers /\ token_json (re_Body resp) = Some (tok, expiresIn) /\
       e = if 0 <? expiresIn then t + wrap_int 64 (expiresIn * Second) else t + leeway * 2) /\
  (forall c f, tk_callers s !! c = Some (Waiting f) ->
     is_Some (token_step leeway errCanceled s (TkCancel c)) /\
     ((exists r s', tk_done s !! f = Some r /\ token_step leeway errCanceled s (TkWake c) = Some (s', Some (c, r))) \/
      exists c', (forall result, is_Some (token_step leeway errCanceled s (TkExchanged c' result))) \/
                 is_Some (token_step leeway errCanceled s (TkClose c')))) /\
  (forall ev s' out f r, token_step leeway errCanceled s ev = Some (s', out) -> tk_done s !! f = Some r -> tk_done s' !! f = Some r).
Proof.
  intros Hr Hex. destruct (single_flight leeway errCanceled evs s outs Hr) as (H1 & H2 & H3).
  pose proof (history_run leeway errCanceled [] _ _ _ _ token_start_inv history_start Hr) as Hh. simpl in Hh.
  split_and!; [exact H1| | | |exact H2|exact H3].
  - intros ev s' c r. by apply returned_outcome.
  - intros c now s' out tok e Hs Hl He. destruct (history_cached_Some _ _ tok e Hl (h_cached _ _ Hh)) as [Hc Hx].
    simpl in Hs. destruct (tk_callers s !! c); [done|]. unfold live in Hs. rewrite Hc, Hx in Hs.
    destruct (Z.ltb_spec (now + leeway) e); [|lia]. by injection Hs as _ <-.
  - intros c tok e Hin. destruct (Hex c _ Hin) as (t & resp & Ha & He). by eapply exchange_Ok.
Qed.

(** * An instance *)

(** Two callers share an exchange; a third finds the token cached; a fourth comes within the
    leeway of its expiry, and leads another. *)
Definition token_answer : Z * res core_Response := (100, Ok (MkCoreResponse 200 "tok" "" "" false)).
Definition token_reading (body : string) : option (string * Z) := Some (body, 1).

Definition token_events : list (token_event string) :=
  [TkCall 1 100; TkCall 2 101; TkExchanged 1 (Ok ("tok", 100 + Second)); TkCall 3 102; TkClose 1; TkWake 2].

Lemma token_events_exchange c result : TkExchanged c result ∈ token_events ->
  exists t resp, (t, resp) ∈ [token_answer] /\ result = exchange token_reading 30 t resp.
Proof.
  intros Hin. exists 100, (Ok (MkCoreResponse 200 "tok" "" "" false)). split; [apply list_elem_of_here|].
  unfold token_events in Hin. repeat (apply elem_of_cons in Hin as [Hin|Hin]; [try discriminate|]); [|by apply elem_of_nil in Hin].
  by injection Hin as _ ->.
Qed.

Lemma token_single_flight_witness :
  token_run 30 errTokenCanceled token_start token_events = Some (match token_run 30 errTokenCanceled token_start token_events with
    | Some (s, _) => s | None => token_start end, [(3%nat, Ok "tok"); (1%nat, Ok "tok"); (2%nat, Ok "tok")]) /\
  exists s outs, token_run 30 errTokenCanceled token_start token_events = Some (s, outs) /\
    forall now s' out, token_step 30 errTokenCanceled s (TkCall 4 now) = Some (s', out) -> now < Second -> out = Some (4%nat, Ok "tok").
Proof.
  split; [by vm_compute|].
  destruct (token_run 30 errTokenCanceled token_start token_events) as [[s outs]|] eqn:E; [|by vm_compute in E].
  exists s, outs. split; [done|]. intros now s' out Hs Hn.
  destruct (token_single_flight token_reading 30 errTokenCanceled [token_answer] token_events s outs E token_events_exchange)
    as (_ & _ & Hlive & _).
  apply (Hlive 4%nat now s' out "tok" (100 + Second) Hs); [reflexivity|lia].
Defined.
