(* ===== verification/HttpAuth.v ===== *)
(** The credentials of the backend clients (src/providers/httpcore: auth.go, the
    construction half of oauth2.go, and the redaction of URLs in do.go): the static
    authenticators, the client-credentials grant up to its token cache, and what an
    error may tell of a URL. The parser behind [url.Parse] is a parameter. *)

From S2P Require Import Prelude Errors GoStrings Ref Provider Decode Base64 GoNumbers Auth Server Handlers Client HttpCore TokenCache.
Open Scope string_scope.
Open Scope Z_scope.

(** * The static authenticators *)

(** [http.CanonicalHeaderKey]: upper case at the start and after a hyphen, for a
    name made of token bytes; any other name as it is. *)
Definition token_byte (c : ascii) : bool :=
  is_letter c || is_digit c || bool_decide (c ∈ ["!"; "#"; "$"; "%"; "&"; "'"; "*"; "+"; "-"; "."; "^"; "_"; "`"; "|"; "~"]%char).

Definition to_upper (c : ascii) : ascii := if in_range 97 122 c then ascii_of_nat (nat_of_ascii c - 32) else c.

Fixpoint canonical (upper : bool) (s : string) : string :=
  match s with
  | EmptyString => ""
  | String c s => String (if upper then to_upper c else ascii_lower c) (canonical (ascii_eqb c "-") s)
  end.

Fixpoint token_bytes (s : string) : bool :=
  match s with EmptyString => true | String c s => token_byte c && token_bytes s end.

Definition CanonicalHeaderKey (s : string) : string := if token_bytes s then canonical true s else s.

(** [req.Header.Set(name, value)] and [req.URL.RawQuery = q]. *)
Definition set_header (name value : string) (req : sent) : sent :=
  MkSent (se_Method req) (se_URL req) (Header_Set (se_Header req) (CanonicalHeaderKey name) value) (se_Body req).

Definition set_query (q : string) (req : sent) : sent :=
  MkSent (se_Method req) (MkURL (u_Origin (se_URL req)) (u_Path (se_URL req)) q) (se_Header req) (se_Body req).

Section authenticators.
Context {W : Type}.

(** [type AuthenticatorFunc], for a function that only sets something. *)
Definition AuthenticatorFunc (f : sent -> sent) : sent -> W -> W * res sent := fun req w => (w, Ok (f req)).

(** [func Bearer(token string) Authenticator]. *)
Definition Bearer (token : string) := AuthenticatorFunc (set_header "Authorization" ("Bearer " ++ token)).

(** [func HeaderAuth(name, value string) Authenticator]. *)
Definition HeaderAuth (name value : string) := AuthenticatorFunc (set_header name value).

(** [func BasicAuth(user, pass string) Authenticator], with [Request.SetBasicAuth]. *)
Definition BasicAuth (user pass : string) :=
  AuthenticatorFunc (set_header "Authorization" ("Basic " ++ base64_Encode (user ++ ":" ++ pass))).

(** [func QueryAuth(name, value string) Authenticator]. *)
Definition QueryAuth (name value : string) :=
  AuthenticatorFunc (fun req => set_query (Encode (Header_Set (Query (u_RawQuery (se_URL req))) name value)) req).
End authenticators.

(** * Redaction *)

(** [url.URL], with the parts [String] escapes in their escaped form. *)
Record net_URL := MkNetURL {
  nu_Scheme : string;
  nu_Opaque : string;
  nu_User : option string;
  nu_Host : string;
  nu_OmitHost : bool;
  nu_Path : string;
  nu_ForceQuery : bool;
  nu_RawQuery : string;
  nu_Fragment : string;
}.

Definition is_nonempty (s : string) : bool := negb (bool_decide (s = "")).

(** [func (u *URL) String() string] (net/url): the part before the path, the path
    as it is joined to it, and the whole. *)
Definition url_head (u : net_URL) : string :=
  (if is_nonempty (nu_Scheme u) then nu_Scheme u ++ ":" else "") ++
  (let authority := is_nonempty (nu_Host u) || bool_decide (nu_User u <> None) in
   if negb (is_nonempty (nu_Scheme u) || authority) || (nu_OmitHost u && negb authority) then ""
   else if authority || is_nonempty (nu_Path u) then "//" else "") ++
  match nu_User u with Some user => user ++ "@" | None => "" end ++ nu_Host u.

Definition url_path (head : string) (u : net_URL) : string :=
  let path := nu_Path u in
  if is_nonempty path && negb (HasPrefix path "/") && is_nonempty (nu_Host u) then "/" ++ path
  else if bool_decide (head = "") && has_byte ":" (match Cut path "/" with Some (seg, _) => seg | None => path end)
  then "./" ++ path else path.

Definition URL_String (u : net_URL) : string :=
  (if is_nonempty (nu_Opaque u)
   then (if is_nonempty (nu_Scheme u) then nu_Scheme u ++ ":" else "") ++ nu_Opaque u
   else url_head u ++ url_path (url_head u) u) ++
  (if nu_ForceQuery u || is_nonempty (nu_RawQuery u) then "?" ++ nu_RawQuery u else "") ++
  (if is_nonempty (nu_Fragment u) then "#" ++ nu_Fragment u else "").

(** [func redactURLWith(u *url.URL, redactPath func(string) string) string]. *)
Definition redactURLWith (u : net_URL) (redactPath : option (string -> string)) : string :=
  match redactPath with
  | None =>
      URL_String (MkNetURL (nu_Scheme u) (nu_Opaque u) None (nu_Host u) (nu_OmitHost u) (nu_Path u) (nu_ForceQuery u) "" (nu_Fragment u))
  | Some redactPath =>
      let redacted := redactPath (nu_Path u) in
      URL_String (MkNetURL (nu_Scheme u) (nu_Opaque u) None (nu_Host u) (nu_OmitHost u) "" (nu_ForceQuery u) "" "") ++ redacted
  end.

(** What [http.Client.Do] fails with: a [*url.Error], or, from a transport that does
    not go through it, anything. *)
Inductive transport_error :=
  | UrlError (op url : string) (cause : error)
  | OtherError (e : error).

(** A [*url.Error] as an error value. *)
Definition url_Error (op url : string) (cause : error) : error := EWrap (op ++ " " ++ url) [cause].

Definition transport_value (e : transport_error) : error :=
  match e with UrlError op url cause => url_Error op url cause | OtherError e => e end.

(** [func (c *Client) redactTransportError(err error, u *url.URL) error]. *)
Definition redactTransportError (redactPath : option (string -> string)) (e : transport_error) (u : net_URL) : transport_error :=
  match e with UrlError op _ cause => UrlError op (redactURLWith u redactPath) cause | OtherError e => OtherError e end.

(** The URL of a request a client built on [base]. *)
Definition request_URL (base : net_URL) (req : sent) : net_URL :=
  MkNetURL (nu_Scheme base) (nu_Opaque base) (nu_User base) (nu_Host base) (nu_OmitHost base) (u_Path (se_URL req)) (nu_ForceQuery base)
    (u_RawQuery (se_URL req)) (nu_Fragment base).

(** What [Do] returns when the transport failed, and when the response is refused
    with [err]. *)
Definition Do_transport_error (redactPath : option (string -> string)) (base : net_URL) (req : sent) (e : transport_error) : error :=
  EWrap ("httpcore: " ++ se_Method req ++ " " ++ redactURLWith (request_URL base req) redactPath)
    [ESentinel ErrUnavailable; transport_value (redactTransportError redactPath e (request_URL base req))].

Definition Do_status_error (redactPath : option (string -> string)) (base : net_URL) (req : sent) (err : error) : error :=
  EWrap ("httpcore: " ++ se_Method req ++ " " ++ redactURLWith (request_URL base req) redactPath) [err].

(** * The client-credentials grant *)

(** [type OAuth2Config struct]. *)
Record OAuth2Config (W : Type) := MkOAuth2Config {
  oc_TokenURL : string;
  oc_ClientID : string;
  oc_ClientSecret : string;
  oc_Scopes : list string;
  oc_Audience : string;
  oc_HTTPClient : option (sent -> W -> W * res received);
  oc_Leeway : Z;
  oc_AllowInsecure : bool;
  oc_RedactPath : option (string -> string);
}.
Arguments MkOAuth2Config {W}.
Arguments oc_TokenURL {W}.
Arguments oc_ClientID {W}.
Arguments oc_ClientSecret {W}.
Arguments oc_Scopes {W}.
Arguments oc_Audience {W}.
Arguments oc_HTTPClient {W}.
Arguments oc_Leeway {W}.
Arguments oc_AllowInsecure {W}.
Arguments oc_RedactPath {W}.

(** The part of [oauth2Auth] that construction fixes: the client, what its closure
    answers, the identifier and the leeway. *)
Record oauth2_fixed (W : Type) := MkOAuth2 {
  of_client : core_Client W;
  of_form : string;
  of_clientID : string;
  of_leeway : Z;
}.
Arguments MkOAuth2 {W}.
Arguments of_client {W}.
Arguments of_form {W}.
Arguments of_clientID {W}.
Arguments of_leeway {W}.

Definition errOAuth2 (msg : string) : error := EWrap ("httpcore: OAuth2 " ++ msg) [ESentinel ErrInvalid].

Section oauth2.
Context {W : Type}.
Context (net_parse : string -> net_URL + string) (default_client : sent -> W -> W * res received).
Context (request_ok : sent -> bool).
Context (token_json : string -> option (string * Z)).

(** [url.Parse]: what goes wrong is reported with the text that was parsed, up to
    its fragment. *)
Definition Parse (rawURL : string) : res net_URL :=
  match net_parse rawURL with
  | inl u => Ok u
  | inr cause => Err (url_Error "parse" (match Cut rawURL "#" with Some (u, _) => u | None => rawURL end) (EOpaque cause))
  end.

(** The URL as [HttpCore] splits it. *)
Definition core_URL (u : net_URL) : URL :=
  MkURL (if is_nonempty (nu_Scheme u) && is_nonempty (nu_Host u) then url_head u else "") (nu_Path u) (nu_RawQuery u).
Definition core_parse (rawURL : string) : option URL :=
  match Parse rawURL with Ok u => Some (core_URL u) | Err _ => None end.

(** [func checkTokenURLScheme(tokenURL, allowInsecure, redactPath) error]. *)
Definition checkTokenURLScheme (tokenURL : string) (allowInsecure : bool) (redactPath : option (string -> string)) : option error :=
  match Parse tokenURL with
  | Err err => Some (EWrap "httpcore: OAuth2 TokenURL is not a URL" [ESentinel ErrInvalid; err])
  | Ok u =>
      if bool_decide (nu_Scheme u = "https") then None
      else if bool_decide (nu_Scheme u = "http") then
        if negb allowInsecure then
          Some (errOAuth2 ("TokenURL " ++ redactURLWith u redactPath ++ " is http://, which POSTs the client secret in cleartext"))
        else None
      else Some (errOAuth2 ("TokenURL scheme " ++ nu_Scheme u ++ " is not http or https"))
  end.

(** The form of the grant. *)
Definition oauth2_form (cfg : OAuth2Config W) : Values :=
  let form : Values :=
    {["grant_type" := ["client_credentials"]; "client_id" := [oc_ClientID cfg]; "client_secret" := [oc_ClientSecret cfg]]} in
  let form := if bool_decide (oc_Scopes cfg = []) then form else Header_Set form "scope" (Join (oc_Scopes cfg) " ") in
  if bool_decide (oc_Audience cfg = "") then form else Header_Set form "audience" (oc_Audience cfg).

(** [func OAuth2ClientCredentials(cfg OAuth2Config) (Authenticator, error)]. *)
Definition OAuth2ClientCredentials (cfg : OAuth2Config W) : res (oauth2_fixed W) :=
  if bool_decide (oc_TokenURL cfg = "") then Err (errOAuth2 "TokenURL is required")
  else if bool_decide (oc_ClientID cfg = "") then Err (errOAuth2 "ClientID is required")
  else if bool_decide (oc_ClientSecret cfg = "") then Err (errOAuth2 "ClientSecret is required")
  else
    match checkTokenURLScheme (oc_TokenURL cfg) (oc_AllowInsecure cfg) (oc_RedactPath cfg) with
    | Some err => Err err
    | None =>
        match core_New core_parse default_client (MkCoreConfig (oc_TokenURL cfg) (oc_HTTPClient cfg) None 0 "" None) with
        | Err err => Err (EWrap "httpcore: OAuth2 TokenURL" [err])
        | Ok client =>
            Ok (MkOAuth2 client (Encode (oauth2_form cfg)) (oc_ClientID cfg)
              (if oc_Leeway cfg <=? 0 then DefaultOAuth2Leeway else oc_Leeway cfg))
        end
    end.

(** The request of [exchange], and the exchange with the token endpoint at [now]. *)
Definition token_request (a : oauth2_fixed W) : core_Request :=
  MkCoreRequest "POST" "" ∅ [("Content-Type", "application/x-www-form-urlencoded")] (of_form a) "" "".

Definition oauth2_exchange (a : oauth2_fixed W) (now : Z) (w : W) : W * res (string * Z) :=
  let '(w, resp) := core_Do request_ok (of_client a) (token_request a) w in
  (w, exchange token_json (of_leeway a) now resp).

(** [func (a *oauth2Auth) Apply(ctx, req) error], on what [tokenFor] returned. *)
Definition oauth2_Apply (tok : res string) (req : sent) : res sent :=
  match tok with
  | Err err => Err err
  | Ok tok => Ok (set_header "Authorization" ("Bearer " ++ tok) req)
  end.
End oauth2.

(** * Facts *)

(** What a server that receives the request reads of it. *)
Definition seen (req : sent) : request :=
  MkRequest (se_Method req) (u_Path (se_URL req))
    (fun k => match se_Header req !! CanonicalHeaderKey k with Some (v :: _) => v | _ => "" end) None None.

Lemma seen_set_header name value req : rq_Header (seen (set_header name value req)) name = value.
Proof. unfold seen, set_header, Header_Set. cbn. by rewrite lookup_insert_eq. Qed.

(** A request whose header is the encoding of a user and a password carries them. *)
Lemma BasicAuth_header_encoded user pass r : has_byte ":" user = false ->
  rq_Header r "Authorization" = "Basic " ++ base64_Encode (user ++ ":" ++ pass) -> BasicAuth_header r = Some (user, pass).
Proof.
  intros Hu Hr. unfold BasicAuth_header. cbv zeta. rewrite Hr. rewrite bool_decide_eq_false_2 by done.
  assert (Hlen : (String.length ("Basic " ++ base64_Encode (user ++ ":" ++ pass)) <? String.length "Basic ")%nat = false).
  { apply Nat.ltb_ge. rewrite str_length_app. lia. }
  rewrite Hlen. unfold HasPrefixFold. rewrite str_take_app, str_drop_app. rewrite bool_decide_eq_true_2 by done. cbn [orb negb].
  rewrite base64_decode_encode. change (":" ++ pass) with (String ":" pass). by apply Cut_app.
Qed.

Lemma BasicAuth_header_set user pass req : has_byte ":" user = false ->
  BasicAuth_header (seen (set_header "Authorization" ("Basic " ++ base64_Encode (user ++ ":" ++ pass)) req)) = Some (user, pass).
Proof. intros Hu. apply BasicAuth_header_encoded; [done|]. by rewrite seen_set_header. Qed.

Lemma parse_setting_nonempty v kv v' : map_Forall (fun _ xs => xs <> []) v -> parse_setting v kv = Some v' ->
  map_Forall (fun _ xs => xs <> []) v'.
Proof.
  intros Hv. unfold parse_setting. destruct (has_byte ";" kv); [done|]. case_bool_decide; [by intros [= <-]|].
  destruct (default (kv, "") (Cut kv "=")) as [k x]. destruct (QueryUnescape k), (QueryUnescape x); try done.
  intros [= <-]. unfold Values_Add. apply map_Forall_insert_2; [|done]. intros H1. by apply app_nil in H1 as [_ H1].
Qed.

Lemma Query_nonempty raw : map_Forall (fun _ xs => xs <> []) (Query raw).
Proof.
  unfold Query. assert (H : forall l v, map_Forall (fun _ xs => xs <> []) v ->
    map_Forall (fun _ (xs : list string) => xs <> [])
      (foldl (fun v kv => match parse_setting v kv with Some v => v | None => v end) v l)).
  { induction l as [|kv l IH]; intros v Hv; [done|]. apply IH. destruct (parse_setting v kv) eqn:E; [|done].
    by eapply parse_setting_nonempty. }
  apply H, map_Forall_empty.
Qed.

Lemma oauth2_form_nonempty {W} (cfg : OAuth2Config W) : map_Forall (fun _ xs => xs <> []) (oauth2_form cfg).
Proof.
  unfold oauth2_form, Header_Set. cbv zeta.
  assert (H : map_Forall (fun _ xs => xs <> [])
    ({["grant_type" := ["client_credentials"]; "client_id" := [oc_ClientID cfg]; "client_secret" := [oc_ClientSecret cfg]]} : Values)).
  { repeat (apply map_Forall_insert_2; [done|]). apply map_Forall_empty. }
  case_bool_decide; case_bool_decide; repeat (apply map_Forall_insert_2; [done|]); done.
Qed.

(** The two checks of the token endpoint. *)
Lemma checkTokenURLScheme_invalid net_parse raw insecure redactPath e :
  checkTokenURLScheme net_parse raw insecure redactPath = Some e -> ErrorKind (Some e) = KindInvalid.
Proof.
  unfold checkTokenURLScheme, Parse. destruct (net_parse raw) as [u|cause]; [|by intros [= <-]].
  destruct (bool_decide (nu_Scheme u = "https")); [done|].
  destruct (bool_decide (nu_Scheme u = "http")); [|by intros [= <-]].
  destruct insecure; [done|]. by intros [= <-].
Qed.

Lemma checkTokenURLScheme_ok net_parse raw insecure redactPath :
  checkTokenURLScheme net_parse raw insecure redactPath = None ->
  exists u, net_parse raw = inl u /\ (nu_Scheme u = "https" \/ nu_Scheme u = "http" /\ insecure = true).
Proof.
  unfold checkTokenURLScheme, Parse. destruct (net_parse raw) as [u|cause]; [|done].
  intros H. exists u. split; [done|]. case_bool_decide; [by left|]. case_bool_decide; [|done]. destruct insecure; [auto|done].
Qed.

Lemma core_New_host {W} net_parse default_client (cfg : core_Config W) :
  match core_New (core_parse net_parse) default_client cfg with
  | Err e => ErrorKind (Some e) = KindInvalid
  | Ok c => exists u, net_parse (kc_BaseURL cfg) = inl u /\ nu_Host u <> "" /\ cc_base c = core_URL u /\
      cc_auth c = kc_Auth cfg /\ cc_userAgent c = kc_UserAgent cfg
  end.
Proof.
  unfold core_New, core_parse, Parse. destruct (bool_decide _); [done|].
  destruct (net_parse (kc_BaseURL cfg)) as [u|cause]; [|done]. case_bool_decide as H; [done|].
  exists u. split_and!; [done| |done..]. intros E. apply H. unfold core_URL. cbn. by rewrite E, andb_false_r.
Qed.

(** Two URLs that agree on what an error shows. *)
Definition same_shown (redactPath : option (string -> string)) (u v : net_URL) : Prop :=
  nu_Opaque u = "" /\ nu_Opaque v = "" /\ nu_Scheme u = nu_Scheme v /\ nu_Host u = nu_Host v /\
  nu_OmitHost u = nu_OmitHost v /\ nu_ForceQuery u = nu_ForceQuery v /\
  match redactPath with
  | None => nu_Path u = nu_Path v /\ nu_Fragment u = nu_Fragment v
  | Some f => f (nu_Path u) = f (nu_Path v)
  end.

Lemma redactURLWith_same redactPath u v : same_shown redactPath u v -> redactURLWith u redactPath = redactURLWith v redactPath.
Proof.
  destruct u, v. unfold same_shown. cbn. intros (-> & -> & -> & -> & -> & -> & H). unfold redactURLWith. cbn.
  destruct redactPath as [f|]; [by rewrite H|]. by destruct H as [-> ->].
Qed.

(** * Properties *)

(** What is sent is what the library's own servers accept. A request with a
    static credential is let in by the scheme that expects exactly that credential,
    and by no other of its kind; a user name with a colon is the one that HTTP Basic
    cannot carry. *)
Theorem static_credentials_are_accepted {W} (w : W) req token name value user pass want wantUser :
  want <> "" ->
  (forall req', Bearer token req w = (w, Ok req') ->
     is_ok (Authenticate (bearerToken want) (seen req')) = true <-> token = want) /\
  (forall req', HeaderAuth name value req w = (w, Ok req') ->
     is_ok (Authenticate (apiKey name want) (seen req')) = true <-> value = want) /\
  (has_byte ":" user = false -> forall req', BasicAuth user pass req w = (w, Ok req') ->
     is_ok (Authenticate (basicAuth wantUser want) (seen req')) = true <-> user = wantUser /\ pass = want).
Proof.
  intros Hw. unfold Bearer, HeaderAuth, BasicAuth, AuthenticatorFunc, secret_IsZero. split_and!.
  - intros req' [= <-]. cbn [Authenticate bearerToken]. unfold secret_IsZero. rewrite bool_decide_eq_false_2 by done.
    rewrite seen_set_header. unfold bearerPrefix. cbv zeta. rewrite HasPrefix_app, TrimPrefix_app. cbn [negb].
    unfold ConstantTimeCompare. case_bool_decide; naive_solver.
  - intros req' [= <-]. cbn [Authenticate apiKey]. unfold secret_IsZero. rewrite bool_decide_eq_false_2 by done.
    rewrite seen_set_header. cbv zeta. unfold ConstantTimeCompare. repeat case_bool_decide; naive_solver.
  - intros Hu req' [= <-]. cbn [Authenticate basicAuth]. unfold secret_IsZero. rewrite bool_decide_eq_false_2 by done.
    rewrite BasicAuth_header_set by done. unfold ConstantTimeCompare. cbv zeta. repeat case_bool_decide; naive_solver.
Qed.

(** A credential in the query leaves every other parameter as it was, replaces one
    of its own name, and touches nothing else of the request. *)
Theorem QueryAuth_keeps_the_rest {W} (w : W) req name value :
  exists req', QueryAuth name value req w = (w, Ok req') /\
    ParseQuery (u_RawQuery (se_URL req')) = Some (<[name := [value]]> (Query (u_RawQuery (se_URL req)))) /\
    se_Method req' = se_Method req /\ se_Header req' = se_Header req /\ se_Body req' = se_Body req /\
    u_Path (se_URL req') = u_Path (se_URL req) /\ u_Origin (se_URL req') = u_Origin (se_URL req).
Proof.
  eexists. split; [done|]. unfold set_query. cbn. split_and!; [|done..].
  apply ParseQuery_Encode, map_Forall_insert_2; [done|apply Query_nonempty].
Qed.

(** No error shows a credential. Whatever a query credential is, whatever the
    user information of the base URL, and whatever the URL that net/http put in its
    own error, the error of a failed round trip is the same value: it depends on the
    scheme, the host and the path - and with a [RedactPath], on the path only
    through it. *)
Theorem errors_hide_credentials {W} redactPath base1 base2 name v1 v2 req req1 req2 (w : W) op url1 url2 cause err :
  nu_Opaque base1 = "" ->
  base2 = MkNetURL (nu_Scheme base1) "" (nu_User base2) (nu_Host base1) (nu_OmitHost base1) (nu_Path base2)
    (nu_ForceQuery base1) (nu_RawQuery base2) (nu_Fragment base1) ->
  QueryAuth name v1 req w = (w, Ok req1) -> QueryAuth name v2 req w = (w, Ok req2) ->
  Do_transport_error redactPath base1 req1 (UrlError op url1 cause) = Do_transport_error redactPath base2 req2 (UrlError op url2 cause) /\
  Do_status_error redactPath base1 req1 err = Do_status_error redactPath base2 req2 err.
Proof.
  intros Ho Hb [= <-] [= <-]. unfold Do_transport_error, Do_status_error, redactTransportError, transport_value. cbv zeta.
  set (r1 := request_URL base1 _). set (r2 := request_URL base2 _).
  assert (H : redactURLWith r1 redactPath = redactURLWith r2 redactPath).
  { apply redactURLWith_same. unfold r1, r2, same_shown. rewrite Hb. cbn. by destruct redactPath. }
  by rewrite H.
Qed.

(** The client-credentials grant, constructed. What is refused is invalid; what
    is accepted has its three required settings and an endpoint that is https, or
    http on request, a positive leeway, and a form that says exactly the grant. *)
Theorem OAuth2ClientCredentials_spec {W} net_parse default_client (cfg : OAuth2Config W) :
  match OAuth2ClientCredentials net_parse default_client cfg with
  | Err e => ErrorKind (Some e) = KindInvalid
  | Ok a =>
      oc_TokenURL cfg <> "" /\ oc_ClientID cfg <> "" /\ oc_ClientSecret cfg <> "" /\ 0 < of_leeway a /\
      (exists u, net_parse (oc_TokenURL cfg) = inl u /\ nu_Host u <> "" /\
        (nu_Scheme u = "https" \/ nu_Scheme u = "http" /\ oc_AllowInsecure cfg = true)) /\
      ParseQuery (of_form a) = Some (oauth2_form cfg)
  end.
Proof.
  unfold OAuth2ClientCredentials.
  destruct (bool_decide_reflect (oc_TokenURL cfg = "")) as [_|Ht]; [done|].
  destruct (bool_decide_reflect (oc_ClientID cfg = "")) as [_|Hi]; [done|].
  destruct (bool_decide_reflect (oc_ClientSecret cfg = "")) as [_|Hs]; [done|].
  destruct (checkTokenURLScheme _ _ _ _) as [e|] eqn:Hc; [by apply checkTokenURLScheme_invalid in Hc|].
  apply checkTokenURLScheme_ok in Hc as (u & Hu & Hsch).
  pose proof (core_New_host net_parse default_client (MkCoreConfig (oc_TokenURL cfg) (oc_HTTPClient cfg) None 0 "" None)) as Hn.
  destruct (core_New _ _ _) as [c|e]; cbn [kc_BaseURL] in Hn.
  - cbn [of_leeway of_form]. destruct Hn as (u' & Hu' & Hh & _). split_and!; [done..| | |].
    + destruct (Z.leb_spec (oc_Leeway cfg) 0); [done|lia].
    + exists u. rewrite Hu in Hu'. injection Hu' as <-. auto.
    + apply ParseQuery_Encode, oauth2_form_nonempty.
  - by rewrite ErrorKind_wrap.
Qed.

(** The client secret takes no part in whether construction succeeds, nor in the
    error when it does not. *)
Theorem client_secret_is_not_in_errors {W} net_parse default_client (cfg1 cfg2 : OAuth2Config W) :
  oc_ClientSecret cfg1 <> "" -> oc_ClientSecret cfg2 <> "" ->
  cfg2 = MkOAuth2Config (oc_TokenURL cfg1) (oc_ClientID cfg1) (oc_ClientSecret cfg2) (oc_Scopes cfg1) (oc_Audience cfg1)
    (oc_HTTPClient cfg1) (oc_Leeway cfg1) (oc_AllowInsecure cfg1) (oc_RedactPath cfg1) ->
  match OAuth2ClientCredentials net_parse default_client cfg1, OAuth2ClientCredentials net_parse default_client cfg2 with
  | Err e1, Err e2 => e1 = e2
  | Ok a1, Ok a2 => of_client a1 = of_client a2 /\ of_clientID a1 = of_clientID a2 /\ of_leeway a1 = of_leeway a2
  | _, _ => False
  end.
Proof.
  intros H1 H2 Hc. unfold OAuth2ClientCredentials. rewrite Hc. cbn.
  rewrite (bool_decide_eq_false_2 _ H1), (bool_decide_eq_false_2 _ H2).
  destruct (bool_decide _); [done|]. destruct (bool_decide _); [done|].
  destruct (checkTokenURLScheme _ _ _ _); [done|]. by destruct (core_New _ _ _).
Qed.

(** The exchange presents the grant and nothing else: a POST of the form, typed as
    one, without credentials of another kind. *)
Theorem token_request_carries_the_grant {W} net_parse default_client request_ok (cfg : OAuth2Config W) a w w' req :
  OAuth2ClientCredentials net_parse default_client cfg = Ok a ->
  build request_ok (of_client a) (token_request a) w = (w', Ok req) ->
  w' = w /\ se_Method req = "POST" /\ ParseQuery (se_Body req) = Some (oauth2_form cfg) /\
  se_Header req = {["Content-Type" := ["application/x-www-form-urlencoded"]]}.
Proof.
  intros Ha. pose proof (OAuth2ClientCredentials_spec net_parse default_client cfg) as Hspec. rewrite Ha in Hspec.
  destruct Hspec as (_ & _ & _ & _ & _ & Hform).
  assert (Hcl : cc_auth (of_client a) = None /\ cc_userAgent (of_client a) = "").
  { revert Ha. unfold OAuth2ClientCredentials. repeat (destruct (bool_decide _); [done|]).
    destruct (checkTokenURLScheme _ _ _ _); [done|].
    pose proof (core_New_host net_parse default_client (MkCoreConfig (oc_TokenURL cfg) (oc_HTTPClient cfg) None 0 "" None)) as Hn.
    destruct (core_New _ _ _) as [c|e]; [|done]. intros [= <-]. cbn. by destruct Hn as (? & _ & _ & _ & ? & ?). }
  destruct Hcl as [Hauth Hua]. unfold build, token_request. cbn [cr_Method cr_Path cr_Query cr_Header cr_Body cr_IfNoneMatch cr_IfModifiedSince].
  rewrite Hauth, Hua. destruct (setPath _ _) as [[d p]|e]; [|done]. cbv zeta.
  destruct (negb _); [done|]. intros [= <- <-]. split_and!; [done|done|exact Hform|]. vm_compute. reflexivity.
Qed.

(** Two token endpoints whose error does show the user information: one that
    [url.Parse] refuses is echoed, in the error of the parser that is wrapped, and
    one of the form [http:user:password@host/token] has no authority to strip it
    from. *)
Theorem refused_token_url_is_echoed net_parse raw insecure redactPath cause :
  net_parse raw = inr cause -> has_byte "#" raw = false ->
  checkTokenURLScheme net_parse raw insecure redactPath =
  Some (EWrap "httpcore: OAuth2 TokenURL is not a URL" [ESentinel ErrInvalid; EWrap ("parse " ++ raw) [EOpaque cause]]).
Proof.
  intros Hp Hh. unfold checkTokenURLScheme, Parse. rewrite Hp. apply Cut_None in Hh. by rewrite Hh.
Qed.

Theorem opaque_token_url_is_echoed net_parse raw redactPath opaque :
  net_parse raw = inl (MkNetURL "http" opaque None "" false "" false "" "") -> opaque <> "" ->
  exists rest, checkTokenURLScheme net_parse raw false redactPath =
  Some (errOAuth2 ("TokenURL http:" ++ opaque ++ rest)).
Proof.
  intros Hp Ho. unfold checkTokenURLScheme, Parse. rewrite Hp. cbn [nu_Scheme negb].
  exists ((match redactPath with Some f => f "" | None => "" end) ++ " is http://, which POSTs the client secret in cleartext").
  assert (Hs : URL_String (MkNetURL "http" opaque None "" false "" false "" "") = "http:" ++ opaque).
  { unfold URL_String, is_nonempty. cbn [nu_Opaque nu_Scheme]. rewrite (bool_decide_eq_false_2 _ Ho).
    change (("http:" ++ opaque) ++ "" = "http:" ++ opaque). apply str_app_nil_r. }
  unfold redactURLWith. cbn [nu_Scheme nu_Opaque nu_Host nu_OmitHost nu_Path nu_ForceQuery nu_Fragment].
  rewrite Hs, bool_decide_eq_false_2, bool_decide_eq_true_2 by done.
  destruct redactPath; by rewrite ?str_app_assoc, ?str_app_nil_r.
Qed.

(** * A client at work *)

Definition demo_parse (raw : string) : net_URL + string :=
  if bool_decide (raw = "https://idp.test/token") then
    inl (MkNetURL "https" "" None "idp.test" false "/token" false "" "")
  else if bool_decide (raw = "http:u:p@idp.test/token") then
    inl (MkNetURL "http" "u:p@idp.test/token" None "" false "" false "" "")
  else inr "invalid".

Definition demo_grant (secret : string) : OAuth2Config unit :=
  MkOAuth2Config "https://idp.test/token" "app" secret ["read"; "write"] "" None 0 false None.

Definition demo_sent : sent := MkSent "GET" (MkURL "https://u:p@api.test" "/v1/cfg" "env=prod") ∅ "".

Definition demo_refused (_ : sent) (w : unit) : unit * res received := (w, Err (EOpaque "refused")).

Lemma static_credentials_are_accepted_witness :
  is_ok (Authenticate (basicAuth "ana" "s3cret")
    (seen (MkSent "GET" (MkURL "" "/" "") {["Authorization" := ["Basic YW5hOnMzY3JldA=="]]} ""))) = true.
Proof.
  pose proof (static_credentials_are_accepted tt (MkSent "GET" (MkURL "" "/" "") ∅ "") "" "" "" "ana" "s3cret" "s3cret" "ana"
    ltac:(done)) as (_ & _ & H).
  apply (H eq_refl _ eq_refl). done.
Defined.

Lemma errors_hide_credentials_witness :
  let base := MkNetURL "https" "" (Some "u:p") "api.test" false "" false "" "" in
  match QueryAuth "token" "abc" demo_sent tt with
  | (_, Ok req) =>
      Do_transport_error None base req (UrlError "Get" "https://api.test/v1/cfg?env=prod&token=abc" (EOpaque "refused")) =
      EWrap "httpcore: GET https://api.test/v1/cfg"
        [ESentinel ErrUnavailable; EWrap "Get https://api.test/v1/cfg" [EOpaque "refused"]]
  | _ => False
  end.
Proof.
  cbv zeta. destruct (QueryAuth "token" "abc" demo_sent tt) as [w [req1|]] eqn:E1; [|done].
  destruct (QueryAuth "token" "" demo_sent tt) as [w' [req2|]] eqn:E2; [|done].
  injection E1 as _ E1. injection E2 as _ E2.
  rewrite (proj1 (errors_hide_credentials None (MkNetURL "https" "" (Some "u:p") "api.test" false "" false "" "")
    (MkNetURL "https" "" None "api.test" false "" false "" "") "token" "abc" "" demo_sent req1 req2 tt "Get" _ ""
    (EOpaque "refused") (EOpaque "") ltac:(done) ltac:(done) ltac:(by rewrite <- E1) ltac:(by rewrite <- E2))).
  subst req2. vm_compute. reflexivity.
Defined.

Lemma client_secret_is_not_in_errors_witness :
  match OAuth2ClientCredentials demo_parse demo_refused (demo_grant "s1"), OAuth2ClientCredentials demo_parse demo_refused (demo_grant "s2") with
  | Ok a1, Ok a2 => of_client a1 = of_client a2 /\ of_form a1 <> of_form a2
  | _, _ => False
  end.
Proof.
  pose proof (client_secret_is_not_in_errors demo_parse demo_refused (demo_grant "s1") (demo_grant "s2") ltac:(done) ltac:(done) eq_refl) as H.
  refine (conj (proj1 H) _). clear H. vm_compute. intros E. discriminate E.
Defined.

Lemma token_request_carries_the_grant_witness :
  exists a req, OAuth2ClientCredentials demo_parse demo_refused (demo_grant "s1") = Ok a /\
    build (fun _ => true) (of_client a) (token_request a) tt = (tt, Ok req) /\
    se_Body req = "client_id=app&client_secret=s1&grant_type=client_credentials&scope=read+write" /\
    ParseQuery (se_Body req) = Some (oauth2_form (demo_grant "s1")).
Proof.
  do 2 eexists. split; [reflexivity|]. split; [vm_compute; reflexivity|]. split; [reflexivity|].
  refine (proj1 (proj2 (proj2 (token_request_carries_the_grant demo_parse demo_refused (fun _ => true) (demo_grant "s1")
    _ tt tt _ eq_refl _)))). vm_compute. reflexivity.
Defined.

Lemma refused_token_url_is_echoed_witness : exists e, checkTokenURLScheme demo_parse "http://u:p@[idp/token" false None = Some e.
Proof. eexists. apply (refused_token_url_is_echoed demo_parse "http://u:p@[idp/token" false None "invalid"); reflexivity. Defined.

Lemma opaque_token_url_is_echoed_witness :
  exists rest, checkTokenURLScheme demo_parse "http:u:p@idp.test/token" false None =
  Some (errOAuth2 ("TokenURL http:" ++ "u:p@idp.test/token" ++ rest)).
Proof. apply (opaque_token_url_is_echoed demo_parse "http:u:p@idp.test/token" None); [reflexivity|done]. Defined.
