(* ===== verification/Backends.v ===== *)
(** What the backend providers share (src/providers): defaults, kinds in front of a
    driver's error, the part of a payload a ref asks for, the client that is built on
    first use and closed by its owner, and the streams a native watch reads. A stream
    and its backend are a system whose steps are interleaved by the environment: a
    write, a fault, the end of the stream, a turn of the loop that watches. *)

From S2P Require Import Prelude Errors GoStrings Ref Provider Decode GoNumbers Pointer.
Open Scope string_scope.
Open Scope Z_scope.

Definition default_to (d s : string) : string := if bool_decide (s = "") then d else s.

(** An error of a driver in front of the kind it stands for. *)
Definition with_kind (s : sentinel) (err : error) : error := EWrap "" [ESentinel s; err].

(** The bytes of a value, or of the part of it the ref asks for. *)
Definition select_part `{JSON} (b : string) (ref : Ref) : res string :=
  if bool_decide (ref_Key ref = "") then Ok b else SelectKey b (ref_Key ref).

(** * A client built on first use *)

(** The fields of a provider behind its mutex: the client, whether the provider built it,
    and whether it is closed. *)
Record lazy (K : Type) := MkLazy { lz_client : option K; lz_own : bool; lz_closed : bool }.
Arguments MkLazy {K}.
Arguments lz_client {K}.
Arguments lz_own {K}.
Arguments lz_closed {K}.

Section lazy.
Context {K : Type}.
Implicit Types p : lazy K.

(** The client, built by [build] when there is none. *)
Definition lazy_get (closed : error) (build : unit -> res K) p : lazy K * res K :=
  if lz_closed p then (p, Err closed)
  else
    match lz_client p with
    | Some c => (p, Ok c)
    | None =>
        match build tt with
        | Err err => (p, Err err)
        | Ok c => (MkLazy (Some c) true (lz_closed p), Ok c)
        end
    end.

(** [Close], and the client it closes. *)
Definition lazy_close p : lazy K * option K :=
  if lz_own p then (MkLazy None true true, lz_client p) else (MkLazy (lz_client p) false true, None).

(** Any calls, with what their build would give; the clients built and closed, in
    order. *)
Inductive lazy_call := CallGet (build : res K) | CallClose.
Definition lazy_calls (closed : error) (st : lazy K * list K * list K) (c : lazy_call) : lazy K * list K * list K :=
  let '(p, built, gone) := st in
  match c with
  | CallGet build =>
      let built :=
        match lz_closed p, lz_client p, build with false, None, Ok k => (built ++ [k])%list | _, _, _ => built end in
      ((lazy_get closed (fun _ => build) p).1, built, gone)
  | CallClose => ((lazy_close p).1, built, match (lazy_close p).2 with Some k => (gone ++ [k])%list | None => gone end)
  end.

(** At most one client is built, and it is closed exactly when the provider is; an
    injected one is neither built nor closed. *)
Definition lazy_owned (injected : option K) (st : lazy K * list K * list K) : Prop :=
  let '(p, built, gone) := st in
  match injected with
  | Some k => lz_client p = Some k /\ lz_own p = false /\ built = [] /\ gone = []
  | None =>
      (built = [] /\ gone = [] /\ lz_client p = None)
      \/ exists k, built = [k] /\ gone = (if lz_closed p then [k] else []) /\ lz_own p = true
         /\ lz_client p = if lz_closed p then None else Some k
  end.

Lemma lazy_calls_owned closed injected st c : lazy_owned injected st -> lazy_owned injected (lazy_calls closed st c).
Proof.
  destruct st as [[[cl own cd] built] gone], injected as [k|]; simpl.
  - intros (-> & -> & -> & ->). destruct c as [b|]; [|done]. by destruct cd.
  - destruct c as [b|]; simpl; intros [(-> & -> & ->)|(k & -> & -> & -> & ->)].
    + destruct cd; [by left|]. destruct b as [k|]; [|by left]. right. by exists k.
    + right. exists k. by destruct cd.
    + left. by destruct own.
    + right. exists k. by destruct cd.
Qed.

Lemma lazy_owns_what_it_closes closed injected calls :
  lazy_owned injected (foldl (lazy_calls closed) (MkLazy injected false false, [], []) calls).
Proof.
  assert (H : forall st, lazy_owned injected st -> lazy_owned injected (foldl (lazy_calls closed) st calls)).
  { induction calls as [|c calls IH]; intros st Hst; [done|]. by apply IH, lazy_calls_owned. }
  apply H. simpl. destruct injected; auto.
Qed.

(** A closed provider asks nothing, and says so. *)
Lemma lazy_closed_refuses closed build p : lz_closed p = true -> lazy_get closed build p = (p, Err closed).
Proof. unfold lazy_get. by intros ->. Qed.
End lazy.

(** * Streams *)

(** What arrives on a stream: events, and its end. *)
Inductive item (E : Type) :=
  | Ev (e : E)
  | End (err : option error).
Arguments Ev {E}.
Arguments End {E}.

Definition change_item {E} (change : E -> bool) (i : item E) : bool := match i with Ev e => change e | End _ => true end.

(** A backend and a goroutine that watches it: the content, the fault that reads of it
    answer with, what the open stream holds and the goroutine has not received, where the
    goroutine is, and what it has told. A goroutine takes nothing from a stream after its
    end, so what is sent later does not matter. *)
Record sys (C E P : Type) := MkSys {
  sy_content : C;
  sy_fault : option error;
  sy_sub : option (list (item E));
  sy_pc : P;
  sy_told : list (res Value);
}.
Arguments MkSys {C E P}.
Arguments sy_content {C E P}.
Arguments sy_fault {C E P}.
Arguments sy_sub {C E P}.
Arguments sy_pc {C E P}.
Arguments sy_told {C E P}.

(** What happens around the goroutine, and a turn of it. *)
Inductive sys_event (C : Type) :=
  | Written (c : C)
  | Fault (err : option error)
  | Broken (err : option error)
  | Turn.
Arguments Written {C}.
Arguments Fault {C}.
Arguments Broken {C}.
Arguments Turn {C}.

Section sys.
Context {C E P : Type}.
(** What the backend sends for a write, and the goroutine: [None] while it blocks. *)
Context (notify : C -> C -> list E) (turn : sys C E P -> option (sys C E P)).
Implicit Types s : sys C E P.

Definition tell (r : res Value) (pc : P) s : sys C E P :=
  MkSys (sy_content s) (sy_fault s) (sy_sub s) pc (sy_told s ++ [r]).
Definition goto (pc : P) s : sys C E P := MkSys (sy_content s) (sy_fault s) (sy_sub s) pc (sy_told s).
Definition with_sub (su : option (list (item E))) s : sys C E P :=
  MkSys (sy_content s) (sy_fault s) su (sy_pc s) (sy_told s).

(** The next item of the stream, and the system without it. *)
Definition receive s : option (item E * sys C E P) :=
  match sy_sub s with
  | Some (i :: its) => Some (i, with_sub (Some its) s)
  | _ => None
  end.

(** A turn of a goroutine that blocks is no step. *)
Definition sys_step s (ev : sys_event C) : sys C E P :=
  match ev with
  | Written c =>
      MkSys c (sy_fault s) ((fun its => its ++ map Ev (notify (sy_content s) c))%list <$> sy_sub s) (sy_pc s) (sy_told s)
  | Fault err => MkSys (sy_content s) err (sy_sub s) (sy_pc s) (sy_told s)
  | Broken err =>
      MkSys (sy_content s) (sy_fault s)
        ((fun its => its ++ [End err])%list <$> sy_sub s) (sy_pc s) (sy_told s)
  | Turn => default s (turn s)
  end.

Definition sys_run : sys C E P -> list (sys_event C) -> sys C E P := foldl sys_step.

Lemma sys_run_ind (I : sys C E P -> Prop) s evs :
  I s -> (forall s ev, I s -> I (sys_step s ev)) -> I (sys_run s evs).
Proof. intros Hs Hstep. unfold sys_run. revert s Hs. induction evs as [|ev evs IH]; intros s Hs; [done|]. apply IH, Hstep, Hs. Qed.

(** A goroutine that blocks whatever a read would answer tells nothing until something is
    written or sent. *)
Lemma blocked_is_silent s evs :
  (forall err, turn (MkSys (sy_content s) err (sy_sub s) (sy_pc s) (sy_told s)) = None) ->
  Forall (fun ev => match ev with Fault _ | Turn => True | _ => False end) evs ->
  sy_told (sys_run s evs) = sy_told s.
Proof.
  intros Hb Hevs. revert s Hb. induction Hevs as [|ev evs Hev Hevs IH]; intros s Hb; [done|].
  destruct ev as [c|err|err|]; [done| |done|]; simpl.
  - rewrite IH; [done|]. exact Hb.
  - specialize (IH s Hb). specialize (Hb (sy_fault s)). destruct s. simpl in *. by rewrite Hb.
Qed.
End sys.

(** * Watches that read again *)

(** A goroutine that reads the content again for every event that may change it: what a
    read gives, which events are changes, and when the goroutine waits for one. Its laws: a
    write that shows sends a change; and where a turn ends up waiting, it has just read,
    or skipped an event that changes nothing, or a change is pending. *)
Class Rereader (C E P : Type) := {
  rr_notify : C -> C -> list E;
  rr_turn : sys C E P -> option (sys C E P);
  rr_change : E -> bool;
  rr_receiving : P -> bool;
  rr_value : C -> res Value;
  rr_failed : error -> error;
  rr_notified : forall c c', existsb rr_change (rr_notify c c') = true \/ rr_value c = rr_value c';
  rr_turn_reads : forall s s', rr_turn s = Some s' -> rr_receiving (sy_pc s') = true ->
    sy_content s' = sy_content s /\
    (last (sy_told s') = Some (match sy_fault s with Some err => Err (rr_failed err) | None => rr_value (sy_content s) end)
     \/ (exists its, sy_sub s' = Some its /\ existsb (change_item rr_change) its = true)
     \/ (rr_receiving (sy_pc s) = true /\ sy_told s' = sy_told s /\
         exists e s0, receive s = Some (Ev e, s0) /\ rr_change e = false /\ sy_sub s' = sy_sub s0));
}.

Section rereader.
Context `{Rereader C E P}.
Implicit Types s : sys C E P.

(** What was told last is what a read gives, or the failure of a read. *)
Definition current s : Prop :=
  last (sy_told s) = Some (rr_value (sy_content s)) \/ exists err, last (sy_told s) = Some (Err (rr_failed err)).

(** Waiting, with nothing on its way. *)
Definition settled s : Prop :=
  rr_receiving (sy_pc s) = true /\ exists its, sy_sub s = Some its /\ existsb (change_item rr_change) its = false.

Definition reread_inv s : Prop := rr_receiving (sy_pc s) = true -> forall its, sy_sub s = Some its ->
  existsb (change_item rr_change) its = true \/ current s.

Lemma existsb_changes es : existsb (change_item rr_change) (map Ev es) = existsb rr_change es.
Proof. induction es as [|e es IH]; simpl; congruence. Qed.

Lemma reread_inv_step s ev : reread_inv s -> reread_inv (sys_step rr_notify rr_turn s ev).
Proof.
  unfold reread_inv. intros Hi. destruct ev as [c|err|err|]; simpl.
  - intros Hr its Hits. destruct (sy_sub s) as [q|] eqn:Eq; [|done]. injection Hits as <-.
    rewrite existsb_app, existsb_changes. destruct (Hi Hr q eq_refl) as [->|Hc]; [by left|].
    destruct (rr_notified (sy_content s) c) as [->|Hsame]; [left; apply orb_true_r|]. right.
    unfold current in *. simpl. by rewrite <- Hsame.
  - exact Hi.
  - intros Hr its Hits. destruct (sy_sub s) as [q|] eqn:Eq; [|done]. injection Hits as <-.
    left. rewrite existsb_app. apply orb_true_r.
  - destruct (rr_turn s) as [s'|] eqn:Et; [|exact Hi]. simpl. intros Hr its Hits.
    destruct (rr_turn_reads _ _ Et Hr) as [Hc [Ht|[(its' & E' & Hp)|(Hr0 & Ht & e & s0 & Hrec & He & Hs0)]]].
    + right. unfold current. rewrite Hc, Ht. destruct (sy_fault s); eauto.
    + left. congruence.
    + unfold receive in Hrec. destruct (sy_sub s) as [[|i q]|] eqn:Eq; [done| |done]. injection Hrec as -> <-. simpl in Hs0.
      specialize (Hi Hr0 _ eq_refl). simpl in Hi. rewrite He in Hi. simpl in Hi. unfold current in *. rewrite Hc, Ht.
      rewrite Hits in Hs0. by injection Hs0 as ->.
Qed.

(** Whatever the order in which writes, faults, ends and turns come: once the goroutine
    waits and nothing is on its way, what it told last is the present content, or the
    failure of a read. *)
Lemma rereader_is_current s0 evs :
  rr_receiving (sy_pc s0) = false -> settled (sys_run rr_notify rr_turn s0 evs) -> current (sys_run rr_notify rr_turn s0 evs).
Proof.
  intros H0 [Hr (its & Hits & Hp)].
  assert (Hi : reread_inv (sys_run rr_notify rr_turn s0 evs)).
  { apply (sys_run_ind _ _ reread_inv); [|intros; by apply reread_inv_step]. intros Hr0. by rewrite H0 in Hr0. }
  destruct (Hi Hr its Hits) as [Hp'|Hc]; [congruence|exact Hc].
Qed.
End rereader.

(** A goroutine that waits takes the events that do not end its stream, one a turn. *)
Class Draining (C E P : Type) `{Rereader C E P} := {
  dr_serves : E -> bool;
  dr_drains : forall (s : sys C E P) e its, rr_receiving (sy_pc s) = true -> sy_sub s = Some (Ev e :: its) -> dr_serves e = true ->
    exists s', rr_turn s = Some s' /\ rr_receiving (sy_pc s') = true /\ sy_sub s' = Some its;
}.

(** Left alone it comes to rest within a turn for each event that is pending. *)
Lemma draining_settles `{Draining C E P} es : forall s : sys C E P,
  rr_receiving (sy_pc s) = true -> sy_sub s = Some (map Ev es) -> forallb dr_serves es = true ->
  settled (sys_run rr_notify rr_turn s (repeat Turn (length es))).
Proof.
  induction es as [|e es IH]; intros s Hr Hs He; simpl in *; [split; [done|by exists []]|].
  apply andb_true_iff in He as [He Hes]. destruct (dr_drains s e (map Ev es) Hr Hs He) as (s' & Ht & Hr' & Hs').
  rewrite Ht. simpl. by apply IH.
Qed.
