(* ===== verification/Rereaders.v ===== *)
(** Three providers whose watch reads the value again for every event of a stream
    (src/providers: redis, mongodb, firebase-rtdb), as instances of [Rereader]. The
    clients of the vendors are parameters, with the errors they answer with. *)

From S2P Require Import Prelude Errors GoStrings Ref Provider Decode GoNumbers Pointer SSE HttpCore Backends.
Open Scope string_scope.
Open Scope Z_scope.

Module Redis.
Definition defaultAddr : string := "127.0.0.1:6379".

(** [goredis.Options]: the address, the database, and what a URL sets besides. *)
Record Options := MkOptions { op_Addr : string; op_DB : Z; op_rest : string }.

Section redis.
(** [goredis.ParseURL] and [NewClient]; [client.Get(ctx, key).Bytes()]; the predicates of
    the package on its errors, and whether an error is a failed dial. *)
Context {K : Type} (ParseURL : string -> res Options) (NewClient : Options -> K) (Get : K -> string -> res string).
Context (is_Nil IsAuthError IsPermissionError IsLoadingError IsClusterDownError IsMasterDownError dial_failed : error -> bool).
Context `{J : JSON}.

(** [type Provider struct]. *)
Record Provider := MkProvider { rd_url : string; rd_addr : string; rd_db : Z; rd_lazy : lazy K }.

(** [type Option func( *Provider)], and [New]. *)
Inductive Option_ := WithURL (url : string) | WithAddr (addr : string) | WithDB (db : Z) | WithClient (c : option K).
Definition apply_option (p : Provider) (o : Option_) : Provider :=
  match o with
  | WithURL u => MkProvider u (rd_addr p) (rd_db p) (rd_lazy p)
  | WithAddr a => MkProvider (rd_url p) a (rd_db p) (rd_lazy p)
  | WithDB n => MkProvider (rd_url p) (rd_addr p) n (rd_lazy p)
  | WithClient (Some c) =>
      MkProvider (rd_url p) (rd_addr p) (rd_db p) (MkLazy (Some c) (lz_own (rd_lazy p)) (lz_closed (rd_lazy p)))
  | WithClient None => p
  end.
Definition New (opts : list Option_) : Provider := foldl apply_option (MkProvider "" "" 0 (MkLazy None false false)) opts.

Definition errClosed : error := EWrap "redis: provider is closed" [ESentinel ErrUnavailable].

(** [func (p *Provider) getClient() (redisAPI, error)]: the options it builds a client
    from, and the client; [db] is that of the options once one is built. *)
Definition client_options (REDIS_URL : string) (p : Provider) : res Options :=
  let rawURL := default_to REDIS_URL (rd_url p) in
  match (if negb (bool_decide (rawURL = "")) then ParseURL rawURL
         else Ok (MkOptions (default_to defaultAddr (rd_addr p)) 0 "")) with
  | Err err => Err (EWrap "redis: parse url" [err])
  | Ok opts => Ok (MkOptions (op_Addr opts) (if rd_db p =? 0 then op_DB opts else rd_db p) (op_rest opts))
  end.

Definition getClient (REDIS_URL : string) (p : Provider) : Provider * res K :=
  let opts := client_options REDIS_URL p in
  let '(l, c) := lazy_get errClosed (fun _ => NewClient <$> opts) (rd_lazy p) in
  let db :=
    match lz_closed (rd_lazy p), lz_client (rd_lazy p), opts with
    | false, None, Ok opts => op_DB opts
    | _, _, _ => rd_db p
    end in
  (MkProvider (rd_url p) (rd_addr p) db l, c).

(** [func (p *Provider) Close() error]. *)
Definition Close (p : Provider) : Provider * option K :=
  let '(l, c) := lazy_close (rd_lazy p) in (MkProvider (rd_url p) (rd_addr p) (rd_db p) l, c).

(** [func classifyRedis(err error) error]. *)
Definition classifyRedis (err : error) : error :=
  if IsAuthError err then with_kind ErrUnauthenticated err
  else if IsPermissionError err then with_kind ErrPermissionDenied err
  else if IsLoadingError err || IsClusterDownError err || IsMasterDownError err then with_kind ErrUnavailable err
  else if dial_failed err then with_kind ErrUnavailable err
  else err.

(** [func resolveWith(ctx, c, ref)], on what GET answers. *)
Definition get_error (ref : Ref) (err : error) : error :=
  if is_Nil err then EWrap ("redis: key " ++ ref_Path ref) [ESentinel ErrNotFound]
  else EWrap ("redis: get " ++ ref_Path ref) [classifyRedis err].
Definition resolveWith (ref : Ref) (got : res string) : res Value :=
  match got with
  | Err err => Err (get_error ref err)
  | Ok raw => out ← select_part raw ref; Ok (MkValue out (VersionHash raw) false 0 ∅)
  end.

(** [func (p *Provider) Resolve(ctx, ref)]. *)
Definition Resolve (REDIS_URL : string) (canceled : option error) (p : Provider) (ref : Ref) : Provider * res Value :=
  match canceled with
  | Some err => (p, Err err)
  | None => let '(p, c) := getClient REDIS_URL p in (p, c ← c; resolveWith ref (Get c (ref_Path ref)))
  end.

(** [func (p *Provider) Watch(ctx, ref)]: the channel it subscribes to, and the
    goroutine, which has subscribed before it starts. *)
Definition watch_channel (db : Z) (ref : Ref) : string := "__keyspace@" ++ FormatInt db ++ "__:" ++ ref_Path ref.

Inductive watch_pc := Baseline | Receiving | Done.

(** What GET answers in a system: [nil_err] is [goredis.Nil]. *)
Context (nil_err : error).
Definition answer (fault : option error) (content : option string) : res string :=
  match fault, content with Some err, _ => Err err | None, Some raw => Ok raw | None, None => Err nil_err end.

Definition watch_turn (ref : Ref) (s : sys (option string) unit watch_pc) : option (sys (option string) unit watch_pc) :=
  let reread := resolveWith ref (answer (sy_fault s) (sy_content s)) in
  match sy_pc s with
  | Baseline => Some (tell reread Receiving s)
  | Receiving =>
      match receive s with
      | None => None
      | Some (End _, s) => Some (goto Done s)
      | Some (Ev _, s) => Some (tell reread Receiving s)
      end
  | Done => None
  end.

Definition watch_start (content : option string) : sys (option string) unit watch_pc := MkSys content None (Some []) Baseline [].

(** What the server publishes for a write of the key: its channel, matched against the
    pattern that was subscribed. *)
Context (psub_match : string -> string -> bool).
Definition publishes (db : Z) (ref : Ref) (_ _ : option string) : list unit :=
  if psub_match (watch_channel db ref) (watch_channel db ref) then [tt] else [].

Section matched.
Context (db : Z) (ref : Ref) (Hmatch : psub_match (watch_channel db ref) (watch_channel db ref) = true).

#[local] Instance redis_rereader : Rereader (option string) unit watch_pc.
Proof using J Hmatch IsAuthError IsClusterDownError IsLoadingError IsMasterDownError IsPermissionError dial_failed is_Nil nil_err psub_match.
  refine {| rr_notify := publishes db ref; rr_turn := watch_turn ref; rr_change _ := true;
    rr_receiving pc := match pc with Receiving => true | _ => false end;
    rr_value c := resolveWith ref (answer None c); rr_failed := get_error ref |}.
  - intros c c'. left. unfold publishes. by rewrite Hmatch.
  - intros s s'. unfold watch_turn. destruct (sy_pc s) eqn:Epc; [| |done].
    + intros [= <-] _. simpl. split; [done|]. left. rewrite last_snoc. f_equal. by destruct (sy_fault s).
    + unfold receive. destruct (sy_sub s) as [[|i its]|]; [done| |done]. destruct i as [e|err]; intros [= <-]; [|done].
      intros _. simpl. split; [done|]. left. rewrite last_snoc. f_equal. by destruct (sy_fault s).
Defined.

(** A watch of a key whose channel the pattern matches is current: once the goroutine
    waits and no message is on its way, it has told the present value, its absence, or
    the failure of the last read. *)
Theorem redis_watch_is_current content evs :
  let s := sys_run (publishes db ref) (watch_turn ref) (watch_start content) evs in
  sy_pc s = Receiving -> sy_sub s = Some [] ->
  last (sy_told s) = Some (resolveWith ref (answer None (sy_content s)))
  \/ exists err, last (sy_told s) = Some (Err (get_error ref err)).
Proof using J Hmatch IsAuthError IsClusterDownError IsLoadingError IsMasterDownError IsPermissionError dial_failed is_Nil nil_err psub_match.
  intros s Hpc Hsub. apply (rereader_is_current (H:=redis_rereader) (watch_start content) evs eq_refl).
  split; [simpl; fold s; by rewrite Hpc|]. exists []. split; [exact Hsub|done].
Qed.
End matched.

(** A pattern that does not match its own text - a key with the characters of a glob -
    is never notified: whatever is written, the watch tells nothing after its baseline. *)
Theorem redis_glob_key_is_not_watched db ref content evs :
  psub_match (watch_channel db ref) (watch_channel db ref) = false ->
  Forall (fun ev => match ev with Broken _ => False | _ => True end) evs ->
  (length (sy_told (sys_run (publishes db ref) (watch_turn ref) (watch_start content) evs)) <= 1)%nat.
Proof.
  intros Hm Hevs.
  assert (Hi : forall s, (sy_pc s = Baseline /\ sy_told s = [] \/ sy_pc s = Receiving /\ length (sy_told s) = 1%nat) ->
    sy_sub s = Some [] -> (length (sy_told (sys_run (publishes db ref) (watch_turn ref) s evs)) <= 1)%nat).
  { induction Hevs as [|ev evs Hev Hevs IH]; intros s Hs Hsub.
    { simpl. destruct Hs as [[_ ->]|[_ ->]]; simpl; lia. }
    simpl. destruct ev as [c|err|err|]; [| |done|]; simpl.
    - apply IH; simpl; [exact Hs|]. unfold publishes. by rewrite Hm, Hsub.
    - by apply IH.
    - unfold watch_turn, receive. rewrite Hsub. destruct Hs as [[Hpc Ht]|[Hpc Ht]]; rewrite Hpc; simpl.
      + apply IH; [|done]. right. simpl. by rewrite Ht.
      + apply IH; [|done]. by right. }
  apply Hi; [by left|done].
Qed.

(** A read that fails is not made again: while nothing is written, the failure stays the
    last thing told, whether or not the server answers again. *)
Theorem redis_failed_read_is_not_repeated ref s evs :
  sy_pc s = Receiving -> sy_sub s = Some [] ->
  Forall (fun ev => match ev with Fault _ | Turn => True | _ => False end) evs ->
  sy_told (sys_run (fun _ _ => [tt]) (watch_turn ref) s evs) = sy_told s.
Proof.
  intros Hpc Hsub Hevs. apply blocked_is_silent; [|done]. intros err. unfold watch_turn, receive. simpl. by rewrite Hpc, Hsub.
Qed.
End redis.
End Redis.

Module Mongo.
(** A value as [encoding/json] decodes it into an [any]: the kinds [versionString] tells
    apart, a number with its text, anything else with its encoding. *)
Inductive any := ANil | AString (s : string) | AFloat (text : string) | ABool (b : bool) | AOther (json : option string).

(** The value of an _id or of a field in a filter. *)
Inductive bval := BObjectID (oid : string) | BString (s : string).

(** An event of a change stream: the _id of its document, and the document after it,
    where the server looks it up. *)
Record ChangeEvent (D : Type) := MkChange { ce_id : bval; ce_full : option D }.
Arguments MkChange {D}.
Arguments ce_id {D}.
Arguments ce_full {D}.

Section mongo.
(** A document, and the encoders; the client; the predicates of the driver on its
    errors. *)
Context {D K : Type} (MarshalExtJSON : D -> res string) (Unmarshal_map : string -> res (gmap string any)).
Context (Marshal_map : gmap string any -> res string) (ObjectIDFromHex : string -> option string).
Context (Connect : string -> res K) (FindOne : K -> string -> string -> string * bval -> res D).
Context (is_ErrNoDocuments : error -> bool) (as_CommandError : error -> option (Z -> bool)).
Context `{J : JSON}.

(** [type Provider struct]; a backend is a client and the database it reads. *)
Record Provider := MkProvider {
  mg_uri : string;
  mg_database : string;
  mg_client : option K;
  mg_be : option (K * string);
  mg_own : bool;
  mg_closed : bool;
}.

Inductive Option_ := WithURI (s : string) | WithDatabase (s : string) | WithClient (c : option K).
Definition apply_option (p : Provider) (o : Option_) : Provider :=
  match o with
  | WithURI s => MkProvider s (mg_database p) (mg_client p) (mg_be p) (mg_own p) (mg_closed p)
  | WithDatabase s => MkProvider (mg_uri p) s (mg_client p) (mg_be p) (mg_own p) (mg_closed p)
  | WithClient (Some c) => MkProvider (mg_uri p) (mg_database p) (Some c) (mg_be p) (mg_own p) (mg_closed p)
  | WithClient None => p
  end.
Definition New (opts : list Option_) : Provider := foldl apply_option (MkProvider "" "" None None false false) opts.

(** [func (p *Provider) resolveBackend(ctx) (backend, error)]. *)
Definition resolveBackend (MONGODB_URI : string) (p : Provider) : Provider * res (K * string) :=
  if mg_closed p then (p, Err (EWrap "mongodb: provider is closed" [ESentinel ErrUnavailable]))
  else
    match mg_be p with
    | Some be => (p, Ok be)
    | None =>
        if bool_decide (mg_database p = "") then (p, Err (EOpaque "mongodb: no database configured; use WithDatabase"))
        else
          let built c own :=
            (MkProvider (mg_uri p) (mg_database p) (Some c) (Some (c, mg_database p)) own (mg_closed p), Ok (c, mg_database p)) in
          match mg_client p with
          | Some c => built c (mg_own p)
          | None =>
              let uri := default_to MONGODB_URI (mg_uri p) in
              if bool_decide (uri = "") then (p, Err (EOpaque "mongodb: no connection URI; set MONGODB_URI or use WithURI"))
              else
                match Connect uri with
                | Err err => (p, Err (EWrap "mongodb: connect" [err]))
                | Ok c => built c true
                end
          end
    end.

(** [func (p *Provider) Close() error], and the client it disconnects. *)
Definition Close (p : Provider) : Provider * option K :=
  if mg_own p then (MkProvider (mg_uri p) (mg_database p) None None true true, mg_client p)
  else (MkProvider (mg_uri p) (mg_database p) (mg_client p) None false true, None).

(** [func parsePath(path string) (collection, docID string, err error)]. *)
Definition parsePath (path : string) : res (string * string) :=
  match Cut path "/" with
  | Some (collection, docID) =>
      if bool_decide (collection = "") || bool_decide (docID = "") then Err (EOpaque "mongodb: ref path must be <collection>/<docid>")
      else Ok (collection, docID)
  | None => Err (EOpaque "mongodb: ref path must be <collection>/<docid>")
  end.

(** [func versionString(v any) string]. *)
Definition versionString (v : option any) : string :=
  match v with
  | None | Some ANil => ""
  | Some (AString s) => s
  | Some (AFloat text) => text
  | Some (ABool b) => if b then "true" else "false"
  | Some (AOther json) => default "" json
  end.

(** [func normalizeDoc(doc) (map[string]any, []byte, error)]. *)
Definition normalizeDoc (doc : D) : res (gmap string any * string) :=
  match MarshalExtJSON doc with
  | Err err => Err (EWrap "mongodb: encode document" [err])
  | Ok ext =>
      match Unmarshal_map ext with
      | Err err => Err (EWrap "mongodb: decode document" [err])
      | Ok m =>
          match Marshal_map m with
          | Err err => Err (EWrap "mongodb: re-encode document" [err])
          | Ok b => Ok (m, b)
          end
      end
  end.

(** [func valueFor(doc, ref) (mamori.Value, error)]. *)
Definition valueFor (doc : D) (ref : Ref) : res Value :=
  match normalizeDoc doc with
  | Err err => Err err
  | Ok (m, full) =>
      let version := versionString (m !! "version") in
      let version := if bool_decide (version = "") then VersionHash full else version in
      out ← select_part full ref; Ok (MkValue out version false 0 ∅)
  end.

(** [func classifyMongo(err error) error] and [func findErr(coll, keyValue, err) error]. *)
Definition classifyMongo (err : error) : error :=
  match as_CommandError err with
  | None => err
  | Some HasErrorCode =>
      if HasErrorCode 18 then with_kind ErrUnauthenticated err
      else if HasErrorCode 13 then with_kind ErrPermissionDenied err
      else err
  end.
Definition findErr (coll keyValue : string) (err : error) : error :=
  if is_ErrNoDocuments err then EWrap ("mongodb: document " ++ keyValue ++ " not found in collection " ++ coll) [ESentinel ErrNotFound]
  else EWrap ("mongodb: find in " ++ coll) [classifyMongo err].

(** [func idValue(s string) any], [func docFilter] and [func watchPipeline], a condition on
    one field each. *)
Definition idValue (s : string) : bval := match ObjectIDFromHex s with Some oid => BObjectID oid | None => BString s end.
Definition docFilter (keyField keyValue : string) : string * bval :=
  if bool_decide (keyField = "") then ("_id", idValue keyValue) else (keyField, BString keyValue).
Definition watchPipeline (keyField keyValue : string) : string * bval :=
  if bool_decide (keyField = "") then ("documentKey._id", idValue keyValue) else ("fullDocument." ++ keyField, BString keyValue).

(** [func toUpdate(doc, err, ref) mamori.Update], on what [FindOne] answers. *)
Definition toUpdate (coll docID : string) (ref : Ref) (found : res D) : res Value :=
  match found with Err err => Err (findErr coll docID err) | Ok doc => valueFor doc ref end.

(** [func (p *Provider) Resolve(ctx, ref)]. *)
Definition Resolve (MONGODB_URI : string) (canceled : option error) (p : Provider) (ref : Ref) : Provider * res Value :=
  match canceled, parsePath (ref_Path ref) with
  | Some err, _ | None, Err err => (p, Err err)
  | None, Ok (coll, docID) =>
      let '(p, be) := resolveBackend MONGODB_URI p in
      (p, be ← be; toUpdate coll docID ref (FindOne be.1 be.2 coll (docFilter (Ref_Opt ref "key") docID)))
  end.

(** The goroutine of [func (p *Provider) Watch(ctx, ref)], on a stream that is open; what
    [FindOne] answers in a system. *)
Inductive watch_pc := Baseline | Receiving | Done.

Context (no_documents : error).
Definition answer (fault : option error) (content : option D) : res D :=
  match fault, content with Some err, _ => Err err | None, Some d => Ok d | None, None => Err no_documents end.

Definition watch_turn (coll docID : string) (ref : Ref) (s : sys (option D) unit watch_pc) : option (sys (option D) unit watch_pc) :=
  let reread := toUpdate coll docID ref (answer (sy_fault s) (sy_content s)) in
  match sy_pc s with
  | Baseline => Some (tell reread Receiving s)
  | Receiving =>
      match receive s with
      | None => None
      | Some (End None, s) => Some (goto Done s)
      | Some (End (Some err), s) => Some (tell (Err (EWrap ("mongodb: change stream " ++ coll) [err])) Done s)
      | Some (Ev _, s) => Some (tell reread Receiving s)
      end
  | Done => None
  end.

Definition watch_start (content : option D) : sys (option D) unit watch_pc := MkSys content None (Some []) Baseline [].

(** The events of a write of the document [id], after the $match stage. *)
Context (match_stage : string * bval -> ChangeEvent D -> bool).
Definition sends (keyField keyValue : string) (id : bval) (_ after : option D) : list unit :=
  if match_stage (watchPipeline keyField keyValue) (MkChange id after) then [tt] else [].

Section by_id.
Context (coll docID : string) (ref : Ref)
  (Hmatch : forall full, match_stage ("documentKey._id", idValue docID) (MkChange (idValue docID) full) = true).

#[local] Instance mongo_rereader : Rereader (option D) unit watch_pc.
Proof using Hmatch J MarshalExtJSON Marshal_map Unmarshal_map as_CommandError coll docID is_ErrNoDocuments match_stage no_documents ref ObjectIDFromHex.
  refine {| rr_notify := sends "" docID (idValue docID); rr_turn := watch_turn coll docID ref; rr_change _ := true;
    rr_receiving pc := match pc with Receiving => true | _ => false end;
    rr_value c := toUpdate coll docID ref (answer None c); rr_failed := findErr coll docID |}.
  - intros c c'. left. unfold sends, watchPipeline. rewrite bool_decide_eq_true_2 by done. by rewrite Hmatch.
  - intros s s'. unfold watch_turn. destruct (sy_pc s) eqn:Epc; [| |done].
    + intros [= <-] _. simpl. split; [done|]. left. rewrite last_snoc. f_equal. by destruct (sy_fault s).
    + unfold receive. destruct (sy_sub s) as [[|i its]|]; [done| |done].
      destruct i as [e|[err|]]; intros [= <-]; [|done|done].
      intros _. simpl. split; [done|]. left. rewrite last_snoc. f_equal. by destruct (sy_fault s).
Defined.

(** A watch of a document by its _id is current: once the goroutine waits and no event is
    on its way, it has told the present document, its absence, or the failure of the
    last read. *)
Theorem mongo_watch_is_current content evs :
  let s := sys_run (sends "" docID (idValue docID)) (watch_turn coll docID ref) (watch_start content) evs in
  sy_pc s = Receiving -> sy_sub s = Some [] ->
  last (sy_told s) = Some (toUpdate coll docID ref (answer None (sy_content s)))
  \/ exists err, last (sy_told s) = Some (Err (findErr coll docID err)).
Proof using Hmatch J MarshalExtJSON Marshal_map Unmarshal_map as_CommandError coll docID is_ErrNoDocuments match_stage no_documents ref ObjectIDFromHex.
  intros s Hpc Hsub. apply (rereader_is_current (H:=mongo_rereader) (watch_start content) evs eq_refl).
  split; [simpl; fold s; by rewrite Hpc|]. exists []. split; [exact Hsub|done].
Qed.
End by_id.

(** A deleted document has no state after its deletion, and a condition on a field of it
    does not hold: a watch that selects by a key is not told of a deletion, and goes on
    as if the document were there. *)
Theorem mongo_deletion_by_key_is_silent coll keyField keyValue id ref doc :
  keyField <> "" ->
  (forall v, match_stage ("fullDocument." ++ keyField, v) (MkChange id None) = false) ->
  let s := sys_run (sends keyField keyValue id) (watch_turn coll keyValue ref) (watch_start (Some doc)) [Turn; Written None; Turn; Turn] in
  sy_content s = None /\ sy_pc s = Receiving /\ sy_sub s = Some [] /\ sy_told s = [valueFor doc ref].
Proof.
  intros Hk Hm. simpl. unfold sends, watchPipeline. rewrite bool_decide_eq_false_2 by done. by rewrite Hm.
Qed.

(** The end of a stream is the end of the watch: what is written later is never told. *)
Theorem mongo_watch_ends_with_its_stream coll docID ref s evs :
  sy_pc s = Done -> sy_told (sys_run (sends "" docID (idValue docID)) (watch_turn coll docID ref) s evs) = sy_told s.
Proof.
  revert s. induction evs as [|ev evs IH]; intros s Hs; [done|]. simpl. rewrite IH.
  - destruct ev; simpl; try done. unfold watch_turn. by rewrite Hs.
  - destruct ev; simpl; try done. unfold watch_turn. by rewrite Hs.
Qed.
End mongo.
End Mongo.

Module Rtdb.
Definition defaultReconnectBackoff : Z := 2 * Second.
Definition reconnectBackoffCap : Z := 30 * Second.

(** [func nextReconnectBackoff(d, floor time.Duration) time.Duration]. *)
Definition nextReconnectBackoff (d floor : Z) : Z :=
  let ceiling := if reconnectBackoffCap <? floor then floor else reconnectBackoffCap in
  let d := wrap_int 64 (d * 2) in
  if (d <=? 0) || (ceiling <? d) then ceiling else d.

(** [func reconnectJitter(d time.Duration) time.Duration]; [r] is [rand.N(d/2 + 1)]. *)
Definition reconnectJitter (d r : Z) : Z := if d <=? 0 then 0 else d ÷ 2 + r.

Section rtdb.
(** [newSDKBackend] with the database URL, the project and the bounds of a frame; a read of a backend: the payload and the ETag, [None] for a
    null or a missing value. *)
Context {K : Type} (newBackend : string -> string -> SSEConfig -> res K) (Get : K -> string -> res (option (string * string))).
Context `{J : JSON}.

(** [type Provider struct]. *)
Record Provider := MkProvider {
  fb_dbURL : string;
  fb_projectID : string;
  fb_reconnectBackoff : Z;
  fb_sse : SSEConfig;
  fb_lazy : lazy K;
}.

Inductive Option_ := WithDatabaseURL (s : string) | WithProjectID (s : string) | WithReconnectBackoff (d : Z) | WithMaxFrameBytes (n : Z).
Definition apply_option (p : Provider) (o : Option_) : Provider :=
  match o with
  | WithDatabaseURL s => MkProvider s (fb_projectID p) (fb_reconnectBackoff p) (fb_sse p) (fb_lazy p)
  | WithProjectID s => MkProvider (fb_dbURL p) s (fb_reconnectBackoff p) (fb_sse p) (fb_lazy p)
  | WithReconnectBackoff d =>
      if 0 <? d then MkProvider (fb_dbURL p) (fb_projectID p) d (fb_sse p) (fb_lazy p) else p
  | WithMaxFrameBytes n =>
      if 0 <? n then MkProvider (fb_dbURL p) (fb_projectID p) (fb_reconnectBackoff p) (MkSSE n n) (fb_lazy p) else p
  end.
Definition New (opts : list Option_) : Provider :=
  foldl apply_option (MkProvider "" "" defaultReconnectBackoff (MkSSE 0 0) (MkLazy None false false)) opts.

(** [func (p *Provider) Close() error]: it sets the flag only. *)
Definition Close (p : Provider) : Provider :=
  MkProvider (fb_dbURL p) (fb_projectID p) (fb_reconnectBackoff p) (fb_sse p)
    (MkLazy (lz_client (fb_lazy p)) (lz_own (fb_lazy p)) true).

(** [func (p *Provider) getBackend(ctx) (backend, error)]. *)
Definition getBackend (p : Provider) : Provider * res K :=
  let '(l, c) :=
    lazy_get (EWrap "firebase-rtdb: provider is closed" [ESentinel ErrUnavailable])
      (fun _ => match newBackend (fb_dbURL p) (fb_projectID p) (fb_sse p) with
                | Ok b => Ok b
                | Err err => Err (EWrap "firebase-rtdb: init backend" [err])
                end) (fb_lazy p) in
  (MkProvider (fb_dbURL p) (fb_projectID p) (fb_reconnectBackoff p) (fb_sse p) l, c).

(** [func unwrapJSONString(raw []byte) []byte]. *)
Definition unwrapJSONString (raw : string) : string :=
  let trimmed := TrimSpace raw in
  match trimmed with
  | String c _ =>
      if bool_decide (c = byte_of 34) then match Unmarshal_string trimmed with Some s => s | None => raw end else raw
  | EmptyString => raw
  end.

(** [func valueFor(raw, etag, ref) (mamori.Value, error)]. *)
Definition valueFor (raw etag : string) (ref : Ref) : res Value :=
  b ← (if bool_decide (ref_Key ref = "") then Ok (unwrapJSONString raw) else SelectKey raw (ref_Key ref));
  Ok (MkValue b (default_to (VersionHash raw) etag) false 0 ∅).

(** [func (b *sdkBackend) Get(ctx, path)], on what [GetWithETag] reads. *)
Definition sdk_Get (got : res (string * string)) : res (option (string * string)) :=
  match got with
  | Err err => Err err
  | Ok (raw, etag) =>
      let trimmed := TrimSpace raw in
      if bool_decide (trimmed = "") || bool_decide (trimmed = "null") then Ok None else Ok (Some (raw, etag))
  end.

(** [func (p *Provider) Resolve(ctx, ref)], and the part of it behind the backend. *)
Definition get_error (ref : Ref) (err : error) : error := EWrap ("firebase-rtdb: get " ++ ref_Path ref) [err].
Definition read_value (ref : Ref) (got : res (option (string * string))) : res Value :=
  match got with
  | Err err => Err (get_error ref err)
  | Ok None => Err (EWrap ("firebase-rtdb: path " ++ ref_Path ref) [ESentinel ErrNotFound])
  | Ok (Some (data, etag)) => valueFor data etag ref
  end.
Definition Resolve (canceled : option error) (p : Provider) (ref : Ref) : Provider * res Value :=
  match canceled with
  | Some err => (p, Err err)
  | None => let '(p, b) := getBackend p in (p, b ← b; read_value ref (Get b (ref_Path ref)))
  end.

End rtdb.

(** The goroutine of [func (p *Provider) Watch(ctx, ref)] with its [consume]: opening a
    stream, the baseline, the events of a stream that has delivered something or not, and
    the wait before the next; with the current wait, and whether the baseline was told. *)
Inductive watch_at := Opening | Baseline | Consuming (delivered : bool) | Waiting | Done.
Record watch_pc := MkPc { pc_at : watch_at; pc_backoff : Z; pc_emittedBaseline : bool }.
Definition at_ (a : watch_at) (pc : watch_pc) : watch_pc := MkPc a (pc_backoff pc) (pc_emittedBaseline pc).

Definition is_change (event : string) : bool := bool_decide (event ∈ ["put"; "patch"]).

Section watch.
(** The configured wait, and the events a stream opens with. *)
Context `{J : JSON} (floor : Z) (opens_with : list string) (ref : Ref).
Implicit Types s : sys (option (string * string)) string watch_pc.

(** [consume] returns to be called again on another stream. *)
Definition leave (delivered : bool) (s : sys (option (string * string)) string watch_pc) :=
  let pc := sy_pc s in
  with_sub None (goto (MkPc Waiting (if delivered then floor else pc_backoff pc) (pc_emittedBaseline pc)) s).

(** What [Resolve] gives in a system, while the provider is open. *)
Definition reread s : res Value := read_value ref (match sy_fault s with Some err => Err err | None => Ok (sy_content s) end).

(** [func (p *Provider) consume(ctx, s, ref, emit)], one event of it. *)
Definition consume (delivered : bool) s : option (sys (option (string * string)) string watch_pc) :=
  let pc := sy_pc s in
  match receive s with
  | None => None
  | Some (End err, s) =>
      Some (leave delivered (tell (Err (EWrap ("firebase-rtdb: watch " ++ ref_Path ref) (match err with Some e => [e] | None => [] end))) pc s))
  | Some (Ev event, s) =>
      if is_change event then Some (tell (reread s) (at_ (Consuming true) pc) s)
      else if bool_decide (event ∈ ["keep-alive"; ""]) then Some (goto (at_ (Consuming true) pc) s)
      else if bool_decide (event = "cancel") then
        Some (tell (Err (EOpaque ("firebase-rtdb: watch " ++ ref_Path ref ++ " cancelled by server"))) (at_ Done pc) s)
      else if bool_decide (event = "auth_revoked") then
        Some (leave true (tell (Err (EOpaque ("firebase-rtdb: watch " ++ ref_Path ref ++ " auth revoked"))) pc s))
      else Some (goto (at_ (Consuming true) pc) s)
  end.

Definition watch_turn s : option (sys (option (string * string)) string watch_pc) :=
  let pc := sy_pc s in
  match pc_at pc with
  | Opening =>
      match sy_fault s with
      | Some err => Some (tell (Err (EWrap ("firebase-rtdb: stream " ++ ref_Path ref) [err])) (at_ Waiting pc) s)
      | None =>
          Some (with_sub (Some (map Ev opens_with)) (goto (at_ (if pc_emittedBaseline pc then Consuming false else Baseline) pc) s))
      end
  | Baseline => Some (tell (reread s) (MkPc (Consuming false) (pc_backoff pc) true) s)
  | Consuming delivered => consume delivered s
  | Waiting => Some (goto (MkPc Opening (nextReconnectBackoff (pc_backoff pc) floor) (pc_emittedBaseline pc)) s)
  | Done => None
  end.

Definition watch_start (content : option (string * string)) : sys (option (string * string)) string watch_pc :=
  MkSys content None None (MkPc Opening floor false) [].

(** What the server sends for a write, as its documentation has it: a put or a patch for
    every change, and a put of the whole node when a stream opens. *)
Context (sends : option (string * string) -> option (string * string) -> list string).
Context (Hopen : existsb is_change opens_with = true)
  (Hsends : forall c c', existsb is_change (sends c c') = true \/ c = c').

#[local] Instance rtdb_rereader : Rereader (option (string * string)) string watch_pc.
Proof using Hopen Hsends J floor opens_with ref sends.
  refine {| rr_notify := sends; rr_turn := watch_turn; rr_change := is_change;
    rr_receiving pc := match pc_at pc with Consuming _ => true | _ => false end;
    rr_value c := read_value ref (Ok c); rr_failed := get_error ref |}.
  - intros c c'. destruct (Hsends c c') as [?| ->]; auto.
  - intros s s'. unfold watch_turn, consume, reread. destruct (pc_at (sy_pc s)) eqn:Epc.
    + destruct (sy_fault s); intros [= <-]; [done|]. simpl. intros _. split; [done|]. right; left. eexists. split; [done|].
      clear -Hopen. induction opens_with as [|e es IH]; simpl in *; [done|]. destruct (is_change e); [done|]. by apply IH.
    + intros [= <-] _. simpl. split; [done|]. left. rewrite last_snoc. f_equal. by destruct (sy_fault s).
    + unfold receive. destruct (sy_sub s) as [[|i its]|] eqn:Es; [done| |done]. destruct i as [e|err]; [|by intros [= <-]].
      destruct (is_change e) eqn:He; [intros [= <-] _|]; simpl.
      { split; [done|]. left. rewrite last_snoc. f_equal. by destruct (sy_fault s). }
      repeat case_bool_decide; intros [= <-]; try done; intros _; simpl; (split; [done|]); right; right;
        (split; [done|]); (split; [done|]); rewrite ?Es; eauto 6.
    + intros [= <-]. done.
    + done.
Defined.

(** A watch of a node is current across reconnections: once the goroutine waits on a
    stream and no change is on its way, it has told the present value, its absence, or
    the failure of the last read. *)
Theorem rtdb_watch_is_current content evs :
  let s := sys_run sends watch_turn (watch_start content) evs in
  (exists delivered, pc_at (sy_pc s) = Consuming delivered) -> sy_sub s = Some [] ->
  last (sy_told s) = Some (read_value ref (Ok (sy_content s)))
  \/ exists err, last (sy_told s) = Some (Err (get_error ref err)).
Proof using Hopen Hsends J floor opens_with ref sends.
  intros s [d Hpc] Hsub. apply (rereader_is_current (H:=rtdb_rereader) (watch_start content) evs eq_refl).
  split; [simpl; fold s; by rewrite Hpc|]. exists []. split; [exact Hsub|done].
Qed.

#[local] Instance rtdb_draining : Draining (option (string * string)) string watch_pc.
Proof using Hopen Hsends J floor opens_with ref sends.
  refine {| dr_serves := fun e => negb (bool_decide (e ∈ ["cancel"; "auth_revoked"])) |}.
  intros s e its Hr Hs He. simpl in *. unfold watch_turn, consume, receive. rewrite Hs. destruct (pc_at (sy_pc s)); try done.
  apply negb_true_iff, bool_decide_eq_false in He. rewrite !elem_of_cons, elem_of_nil in He.
  destruct (is_change e); [by eexists|]. case_bool_decide; [by eexists|].
  rewrite !bool_decide_eq_false_2 by naive_solver. by eexists.
Defined.

(** Left alone, it takes the events of its stream one a turn, and is then current; only the
    server's own cancellation and a revoked token end the stream before that. *)
Theorem rtdb_watch_settles content evs es :
  let s := sys_run sends watch_turn (watch_start content) evs in
  (exists delivered, pc_at (sy_pc s) = Consuming delivered) -> sy_sub s = Some (map Ev es) ->
  Forall (fun e => e <> "cancel" /\ e <> "auth_revoked") es ->
  let s' := sys_run sends watch_turn s (repeat Turn (length es)) in
  last (sy_told s') = Some (read_value ref (Ok (sy_content s')))
  \/ exists err, last (sy_told s') = Some (Err (get_error ref err)).
Proof using Hopen Hsends J floor opens_with ref sends.
  intros s [d Hpc] Hsub Hes s'.
  assert (Hset : settled (H:=rtdb_rereader) s').
  { apply (draining_settles (H0:=rtdb_draining) es s); [simpl; by rewrite Hpc|done|]. apply forallb_forall.
    intros e He%list_elem_of_In. pose proof (proj1 (Forall_forall _ _) Hes e He) as [H1 H2]. simpl.
    apply negb_true_iff, bool_decide_eq_false. rewrite !elem_of_cons, elem_of_nil. intros [H|[H|[]]]; [by apply H1|by apply H2]. }
  assert (E : s' = sys_run sends watch_turn (watch_start content) (evs ++ repeat Turn (length es))).
  { unfold s', s, sys_run. by rewrite foldl_app. }
  rewrite E in Hset |- *. exact (rereader_is_current (H:=rtdb_rereader) (watch_start content) _ eq_refl Hset).
Qed.
End watch.

(** * Waits *)

Lemma nextReconnectBackoff_bounds d floor : 0 < floor -> floor <= d < 2 ^ 63 ->
  floor <= nextReconnectBackoff d floor <= Z.max floor reconnectBackoffCap.
Proof.
  intros Hf Hd. unfold nextReconnectBackoff.
  replace (if reconnectBackoffCap <? floor then floor else reconnectBackoffCap) with (Z.max floor reconnectBackoffCap)
    by (destruct (Z.ltb_spec reconnectBackoffCap floor); lia).
  destruct (Z.leb_spec (wrap_int 64 (d * 2)) 0); [simpl; lia|]. simpl.
  destruct (Z.ltb_spec (Z.max floor reconnectBackoffCap) (wrap_int 64 (d * 2))); [lia|]. split; [|done].
  enough (wrap_int 64 (d * 2) = d * 2) by lia. apply wrap_id. enough (d * 2 < 2 ^ 63) by lia.
  destruct (Z.ltb_spec (d * 2) (2 ^ 63)); [done|].
  unfold wrap_int in *. rewrite (Z.mod_small (d * 2) (2 ^ 64)) in * by lia.
  destruct (Z.ltb_spec (d * 2) (2 ^ (64 - 1))); lia.
Qed.

(** The waits between streams stay between the configured one and the larger of it and
    thirty seconds, whatever happens; with the jitter, each is slept for at least half of
    it and at most all of it. *)
Theorem rtdb_waits_are_bounded `{JSON} floor opens_with ref sends content evs :
  0 < floor < 2 ^ 63 ->
  let d := pc_backoff (sy_pc (sys_run sends (watch_turn floor opens_with ref) (watch_start floor content) evs)) in
  floor <= d <= Z.max floor reconnectBackoffCap /\
  forall r, 0 <= r <= d ÷ 2 -> d ÷ 2 <= reconnectJitter d r <= d.
Proof.
  intros Hf d.
  assert (Hd : floor <= d <= Z.max floor reconnectBackoffCap).
  { apply (sys_run_ind _ _ (fun s => floor <= pc_backoff (sy_pc s) <= Z.max floor reconnectBackoffCap)); [simpl; lia|].
    intros s ev Hs. destruct ev; simpl; try done. destruct (watch_turn floor opens_with ref s) as [s'|] eqn:Et; [|done]. simpl.
    unfold watch_turn, consume in Et. destruct (pc_at (sy_pc s)).
    - destruct (sy_fault s); injection Et as <-; done.
    - by injection Et as <-.
    - unfold receive in Et. destruct (sy_sub s) as [[|i its]|]; [done| |done]. destruct i as [e|err]; simpl in Et.
      + repeat case_match; injection Et as <-; simpl; try done; lia.
      + injection Et as <-. simpl. destruct delivered; lia.
    - injection Et as <-. simpl. apply nextReconnectBackoff_bounds; [lia|]. unfold reconnectBackoffCap, Second in *. lia.
    - done. }
  split; [done|]. intros r Hr. unfold reconnectJitter. destruct (Z.leb_spec d 0); [lia|].
  pose proof (Z.quot_rem' d 2). pose proof (Z.rem_bound_pos d 2). lia.
Qed.
End Rtdb.

(** * Three watches at work *)

Definition no_json : JSON := {| Unmarshal_object _ := None; Unmarshal_array _ := None; Unmarshal_string _ := None |}.
Definition key_ref (path : string) : Ref := MkRef "kv" path "" ∅ path.
Definition never (_ : error) : bool := false.
Definition is_gone (e : error) : bool := errors_Is e ErrNotFound.

(** Without globs a pattern matches its own text alone. *)
Definition literal (pattern channel : string) : bool := bool_decide (pattern = channel).

Definition redis_run evs :=
  sys_run (Redis.publishes literal 0 (key_ref "app"))
    (@Redis.watch_turn is_gone never never never never never never no_json (ESentinel ErrNotFound) (key_ref "app"))
    (Redis.watch_start (Some "a")) evs.
Definition redis_script : list (sys_event (option string)) := [Turn; Written (Some "b"); Written None; Turn; Written (Some "c"); Turn; Turn].

Lemma redis_watch_is_current_witness : last (sy_told (redis_run redis_script)) = Some (Ok (MkValue "c" (VersionHash "c") false 0 ∅)).
Proof.
  destruct (@Redis.redis_watch_is_current is_gone never never never never never never no_json (ESentinel ErrNotFound) literal 0
    (key_ref "app") (bool_decide_eq_true_2 _ eq_refl) (Some "a") redis_script) as [H|[err H]]; [reflexivity|reflexivity|exact H|].
  exfalso. vm_compute in H. discriminate H.
Defined.

Lemma redis_glob_key_is_not_watched_witness :
  (length (sy_told (sys_run (Redis.publishes (fun _ _ => false) 0 (key_ref "cfg[1]"))
    (@Redis.watch_turn is_gone never never never never never never no_json (ESentinel ErrNotFound) (key_ref "cfg[1]"))
    (Redis.watch_start (Some "a")) [Turn; Written (Some "b"); Turn])) <= 1)%nat.
Proof. apply Redis.redis_glob_key_is_not_watched; [done|]. repeat (apply Forall_cons; split; [done|]). apply Forall_nil_2. Defined.

Lemma redis_failed_read_is_not_repeated_witness :
  let s := MkSys (Some "b") None (Some []) Redis.Receiving [Err (EOpaque "dial")] in
  sy_told (sys_run (fun _ _ => [tt])
    (@Redis.watch_turn is_gone never never never never never never no_json (ESentinel ErrNotFound) (key_ref "app")) s [Turn; Fault None; Turn])
  = [Err (EOpaque "dial")].
Proof.
  apply (@Redis.redis_failed_read_is_not_repeated is_gone never never never never never never no_json (ESentinel ErrNotFound) (key_ref "app")
    (MkSys (Some "b") None (Some []) Redis.Receiving [Err (EOpaque "dial")])); [reflexivity|reflexivity|].
  repeat (apply Forall_cons; split; [done|]). apply Forall_nil_2.
Defined.

(** A document is its text here, with no version field. *)
Definition text_doc (d : string) : res string := Ok d.
Definition no_fields (_ : string) : res (gmap string Mongo.any) := Ok ∅.
Definition no_text (_ : gmap string Mongo.any) : res string := Ok "{}".
Definition no_oid (_ : string) : option string := None.
Definition no_code (_ : error) : option (Z -> bool) := None.

(** The $match stage, for the two conditions the provider writes. *)
Definition one_field (cond : string * Mongo.bval) (ev : Mongo.ChangeEvent string) : bool :=
  if bool_decide (cond.1 = "documentKey._id") then true else match Mongo.ce_full ev with Some _ => true | None => false end.

Definition mongo_turn := @Mongo.watch_turn string text_doc no_fields no_text is_gone no_code no_json (ESentinel ErrNotFound) "coll" "doc" (key_ref "coll/doc").

Lemma mongo_watch_is_current_witness :
  let s := sys_run (Mongo.sends no_oid one_field "" "doc" (Mongo.idValue no_oid "doc")) mongo_turn (Mongo.watch_start (Some "x")) [Turn; Written None; Turn] in
  sy_pc s = Mongo.Receiving /\ match last (sy_told s) with Some (Err e) => errors_Is e ErrNotFound = true | _ => False end.
Proof.
  cbv zeta. split; [reflexivity|].
  destruct (@Mongo.mongo_watch_is_current string text_doc no_fields no_text no_oid is_gone no_code no_json (ESentinel ErrNotFound) one_field
    "coll" "doc" (key_ref "coll/doc") (fun _ => eq_refl) (Some "x") [Turn; Written None; Turn]) as [H|[err H]]; [reflexivity|reflexivity| |].
  - unfold mongo_turn. rewrite H. reflexivity.
  - vm_compute. reflexivity.
Defined.

Lemma mongo_deletion_by_key_is_silent_witness :
  sy_told (sys_run (Mongo.sends no_oid one_field "name" "doc" (Mongo.BString "1")) mongo_turn (Mongo.watch_start (Some "x")) [Turn; Written None; Turn; Turn])
  = [@Mongo.valueFor string text_doc no_fields no_text no_json "x" (key_ref "coll/doc")].
Proof.
  exact (proj2 (proj2 (proj2 (@Mongo.mongo_deletion_by_key_is_silent string text_doc no_fields no_text no_oid is_gone no_code no_json
    (ESentinel ErrNotFound) one_field "coll" "name" "doc" (Mongo.BString "1") (key_ref "coll/doc") "x" ltac:(discriminate) (fun _ => eq_refl))))).
Defined.

Lemma mongo_watch_ends_with_its_stream_witness :
  let s := MkSys (Some "x") None (Some []) Mongo.Done [Err (EOpaque "stream")] in
  sy_told (sys_run (Mongo.sends no_oid one_field "" "doc" (Mongo.idValue no_oid "doc")) mongo_turn s [Written (Some "y"); Turn]) = [Err (EOpaque "stream")].
Proof.
  apply (@Mongo.mongo_watch_ends_with_its_stream string text_doc no_fields no_text no_oid is_gone no_code no_json (ESentinel ErrNotFound) one_field
    "coll" "doc" (key_ref "coll/doc") (MkSys (Some "x") None (Some []) Mongo.Done [Err (EOpaque "stream")])). reflexivity.
Defined.

(** A node that changes while its stream is down. *)
Definition put_always (_ _ : option (string * string)) : list string := ["put"].
Definition rtdb_run evs :=
  sys_run put_always (@Rtdb.watch_turn no_json (2 * Second) ["put"] (key_ref "node")) (Rtdb.watch_start (2 * Second) (Some ("1", "e1"))) evs.
Definition rtdb_script : list (sys_event (option (string * string))) :=
  [Turn; Turn; Turn; Broken (Some (EOpaque "EOF")); Turn; Written (Some ("2", "e2")); Turn; Turn].

Lemma rtdb_watch_is_current_witness :
  last (sy_told (rtdb_run (rtdb_script ++ [Turn]))) = Some (Ok (MkValue "2" "e2" false 0 ∅)).
Proof.
  destruct (@Rtdb.rtdb_watch_is_current no_json (2 * Second) ["put"] (key_ref "node") put_always eq_refl (fun _ _ => or_introl eq_refl)
    (Some ("1", "e1")) (rtdb_script ++ [Turn])%list) as [H|[err H]]; [by eexists|reflexivity|exact H|].
  exfalso. vm_compute in H. discriminate H.
Defined.

Lemma rtdb_watch_settles_witness :
  last (sy_told (sys_run put_always (@Rtdb.watch_turn no_json (2 * Second) ["put"] (key_ref "node")) (rtdb_run rtdb_script) [Turn]))
  = Some (Ok (MkValue "2" "e2" false 0 ∅)).
Proof.
  destruct (@Rtdb.rtdb_watch_settles no_json (2 * Second) ["put"] (key_ref "node") put_always eq_refl (fun _ _ => or_introl eq_refl)
    (Some ("1", "e1")) rtdb_script ["put"]) as [H|[err H]]; [by eexists|reflexivity| |exact H|].
  - apply Forall_cons. split; [done|apply Forall_nil_2].
  - exfalso. vm_compute in H. discriminate H.
Defined.

Lemma rtdb_waits_are_bounded_witness :
  Rtdb.pc_backoff (sy_pc (rtdb_run [Fault (Some (EOpaque "dial")); Turn; Turn; Turn; Turn; Turn; Turn; Turn; Turn; Turn; Turn])) <= Rtdb.reconnectBackoffCap.
Proof.
  etrans; [exact (proj2 (proj1 (@Rtdb.rtdb_waits_are_bounded no_json (2 * Second) ["put"] (key_ref "node") put_always (Some ("1", "e1"))
    [Fault (Some (EOpaque "dial")); Turn; Turn; Turn; Turn; Turn; Turn; Turn; Turn; Turn; Turn] ltac:(unfold Second; lia))))|].
  vm_compute. discriminate.
Defined.
