(* ===== verification/Carriers.v ===== *)
(** Two providers whose watch is handed the value with each event (src/providers: etcd,
    k8s), over the streams of [Backends]. The clients are parameters, with the errors
    they answer with; an object of Kubernetes is what the provider reads of it. *)

From S2P Require Import Prelude Errors GoStrings Ref Provider Decode GoNumbers Pointer Backends.
Open Scope string_scope.
Open Scope Z_scope.

Module Etcd.
(** The codes of gRPC the classification names. *)
Inductive code := PermissionDenied | Unauthenticated | Unavailable | DeadlineExceeded | ResourceExhausted | Unknown | OtherCode.
#[export] Instance code_eq_dec : EqDecision code.
Proof. solve_decision. Defined.

(** [mvccpb.KeyValue] and [clientv3.Event]. *)
Record KeyValue := MkKV { kv_Value : string; kv_ModRevision : Z }.
Inductive event_type := EventTypePut | EventTypeDelete.
Record Event := MkEvent { ev_Type : event_type; ev_Kv : option KeyValue }.

(** What the watch channel delivers: an error, or events, some of which may be nil. *)
Definition WatchResponse : Type := res (list (option Event)).

Section etcd.
(** [clientv3.New] over endpoints; [cli.Get]: the pairs of the answer, none for a nil
    answer; [status.Code] and the code behind an [rpctypes.EtcdError]. *)
Context {K : Type} (clientv3_New : list string -> res K) (Get : K -> string -> res (list KeyValue)).
Context (status_Code : error -> code) (as_EtcdError : error -> option code).
Context `{J : JSON}.

(** [type Provider struct]. *)
Record Provider := MkProvider { ed_endpoints : list string; ed_lazy : lazy K }.

Inductive Option_ := WithEndpoints (endpoints : list string) | WithClient (c : option K).
Definition apply_option (p : Provider) (o : Option_) : Provider :=
  match o with
  | WithEndpoints es => MkProvider es (ed_lazy p)
  | WithClient (Some c) => MkProvider (ed_endpoints p) (MkLazy (Some c) (lz_own (ed_lazy p)) (lz_closed (ed_lazy p)))
  | WithClient None => p
  end.
Definition New (opts : list Option_) : Provider := foldl apply_option (MkProvider [] (MkLazy None false false)) opts.

(** [func endpointsFromEnv() []string]. *)
Definition endpointsFromEnv (ETCD_ENDPOINTS : string) : list string :=
  if bool_decide (ETCD_ENDPOINTS = "") then []
  else filter (fun s => s <> "") (map TrimSpace (Split ETCD_ENDPOINTS ",")).

(** [func (p *Provider) conn() (etcdClient, error)]. *)
Definition conn (ETCD_ENDPOINTS : string) (p : Provider) : Provider * res K :=
  let '(l, c) :=
    lazy_get (EWrap "etcd: provider is closed" [ESentinel ErrUnavailable])
      (fun _ =>
         let eps := match ed_endpoints p with [] => endpointsFromEnv ETCD_ENDPOINTS | eps => eps end in
         match eps with
         | [] => Err (EOpaque "etcd: no endpoints configured (set ETCD_ENDPOINTS or use etcd.WithEndpoints)")
         | eps => match clientv3_New eps with Ok c => Ok c | Err err => Err (EWrap "etcd: build client" [err]) end
         end) (ed_lazy p) in
  (MkProvider (ed_endpoints p) l, c).

(** [func (p *Provider) Close() error]. *)
Definition Close (p : Provider) : Provider * option K :=
  let '(l, c) := lazy_close (ed_lazy p) in (MkProvider (ed_endpoints p) l, c).

(** [func classifyEtcd(err error) error]. *)
Definition classifyEtcd (err : error) : error :=
  let code := status_Code err in
  let code := if bool_decide (code = Unknown) then default code (as_EtcdError err) else code in
  match code with
  | PermissionDenied => with_kind ErrPermissionDenied err
  | Unauthenticated => with_kind ErrUnauthenticated err
  | Unavailable | DeadlineExceeded => with_kind ErrUnavailable err
  | ResourceExhausted => with_kind ErrRateLimited err
  | Unknown | OtherCode => err
  end.

(** [func valueFromKV(kv, ref)] and [func valueFor(resp, ref)]. *)
Definition errNotFound (ref : Ref) : error := EWrap ("etcd: key " ++ ref_Path ref) [ESentinel ErrNotFound].
Definition valueFromKV (kv : option KeyValue) (ref : Ref) : res Value :=
  match kv with
  | None => Err (errNotFound ref)
  | Some kv =>
      b ← select_part (kv_Value kv) ref; Ok (MkValue b (FormatInt (kv_ModRevision kv)) false 0 ∅)
  end.
Definition valueFor (kvs : list KeyValue) (ref : Ref) : res Value :=
  match kvs with [] => Err (errNotFound ref) | kv :: _ => valueFromKV (Some kv) ref end.

(** [func (p *Provider) Resolve(ctx, ref)]. *)
Definition Resolve (ETCD_ENDPOINTS : string) (canceled : option error) (p : Provider) (ref : Ref) : Provider * res Value :=
  match canceled with
  | Some err => (p, Err err)
  | None =>
      let '(p, cli) := conn ETCD_ENDPOINTS p in
      (p, cli ← cli;
          match Get cli (ref_Path ref) with
          | Err err => Err (EWrap ("etcd: get " ++ ref_Path ref) [classifyEtcd err])
          | Ok kvs => valueFor kvs ref
          end)
  end.

(** The goroutine of [func (p *Provider) Watch(ctx, ref)]: what it tells of one response. *)
Inductive watch_pc := Receiving | Done.

Definition tells (ref : Ref) (resp : WatchResponse) : list (res Value) :=
  match resp with
  | Err err => [Err (EWrap ("etcd: watch " ++ ref_Path ref) [classifyEtcd err])]
  | Ok events =>
      omap (fun ev =>
        match ev with
        | Some (MkEvent EventTypePut (Some kv)) => Some (valueFromKV (Some kv) ref)
        | _ => None
        end) events
  end.

Definition watch_turn (ref : Ref) (s : sys (option KeyValue) WatchResponse watch_pc) : option (sys (option KeyValue) WatchResponse watch_pc) :=
  match sy_pc s with
  | Receiving =>
      match receive s with
      | None => None
      | Some (End _, s) => Some (goto Done s)
      | Some (Ev resp, s) => Some (MkSys (sy_content s) (sy_fault s) (sy_sub s) Receiving (sy_told s ++ tells ref resp))
      end
  | Done => None
  end.

Definition watch_start (content : option KeyValue) : sys (option KeyValue) WatchResponse watch_pc := MkSys content None (Some []) Receiving [].

(** What etcd sends for one write of the key. *)
Definition sends (_ after : option KeyValue) : list WatchResponse :=
  [Ok [Some (match after with Some kv => MkEvent EventTypePut (Some kv) | None => MkEvent EventTypeDelete None end)]].

(** The pairs a run writes, in order. *)
Definition written (ev : sys_event (option KeyValue)) : option KeyValue := match ev with Written (Some kv) => Some kv | _ => None end.
Definition pending (ref : Ref) (its : list (item WatchResponse)) : list (res Value) :=
  flat_map (fun i => match i with Ev resp => tells ref resp | End _ => [] end) its.

Lemma pending_app ref a b : pending ref (a ++ b) = (pending ref a ++ pending ref b)%list.
Proof. unfold pending. by rewrite flat_map_app. Qed.

(** Every pair that is written from the subscription on is told, once and in the order of
    the writes: what was told, followed by what is on its way, is exactly that. A
    deletion is not told at all. *)
Theorem etcd_watch_tells_every_put ref content evs :
  Forall (fun ev => match ev with Broken _ => False | _ => True end) evs ->
  let s := sys_run sends (watch_turn ref) (watch_start content) evs in
  exists its, sy_sub s = Some its /\
    (sy_told s ++ pending ref its)%list = map (fun kv => valueFromKV (Some kv) ref) (omap written evs).
Proof.
  intros Hevs.
  assert (H : forall s pre, sy_pc s = Receiving -> Forall (fun i => match i with End _ => False | _ => True end) (default [] (sy_sub s)) ->
    (exists its, sy_sub s = Some its /\ (sy_told s ++ pending ref its)%list = pre) ->
    exists its, sy_sub (sys_run sends (watch_turn ref) s evs) = Some its /\
      (sy_told (sys_run sends (watch_turn ref) s evs) ++ pending ref its)%list
      = (pre ++ map (fun kv => valueFromKV (Some kv) ref) (omap written evs))%list).
  { induction Hevs as [|ev evs Hev Hevs IH]; intros s pre Hpc Hend (its & Hits & <-); simpl.
    { exists its. by rewrite app_nil_r. }
    rewrite Hits in Hend. simpl in Hend. destruct ev as [c|err|err|]; [| |done|]; simpl.
    - destruct (IH (sys_step sends (watch_turn ref) s (Written c)) (sy_told s ++ pending ref its ++ pending ref (map Ev (sends (sy_content s) c)))%list)
        as (q & Hq & E); [done| | |].
      + simpl. rewrite Hits. simpl. apply Forall_app. split; [done|]. by repeat constructor.
      + eexists. simpl. rewrite Hits. split; [done|]. by rewrite pending_app.
      + exists q. split; [exact Hq|]. simpl in E. rewrite E. rewrite <- !app_assoc. do 2 f_equal.
        by destruct c.
    - apply (IH (sys_step sends (watch_turn ref) s (Fault err))); [done|simpl; by rewrite Hits|]. by exists its.
    - unfold watch_turn, receive. rewrite Hpc, Hits. destruct its as [|[resp|err] its].
      + simpl. apply IH; [done|by rewrite Hits|]. by exists [].
      + simpl. apply IH; [done|by apply Forall_cons in Hend as [_ ?]|]. exists its. split; [done|]. simpl. by rewrite <- app_assoc.
      + by apply Forall_cons in Hend as [? _]. }
  apply (H (watch_start content) []); [done|constructor|]. by exists [].
Qed.

(** The value told last is the one of the key, once nothing is on its way - as long as the
    key was not deleted since: a deletion leaves the value of the deleted key standing. *)
Corollary etcd_deletion_is_silent ref content kv :
  let s := sys_run sends (watch_turn ref) (watch_start content) [Written (Some kv); Turn; Written None; Turn; Turn] in
  sy_content s = None /\ sy_sub s = Some [] /\ last (sy_told s) = Some (valueFromKV (Some kv) ref).
Proof. done. Qed.
End etcd.
End Etcd.

Module K8s.
Definition watchRetryDelay : Z := Second.

Inductive resourceKind := kindSecret | kindConfigMap.
#[export] Instance resourceKind_eq_dec : EqDecision resourceKind.
Proof. solve_decision. Defined.
Definition SchemeSecret : string := "k8s-secret".
Definition SchemeConfigMap : string := "k8s-cm".

(** What the provider reads of a Secret or a ConfigMap; a nil map is [None]. *)
Record Object := MkObject {
  ob_Namespace : string;
  ob_Name : string;
  ob_ResourceVersion : string;
  ob_Data : option (gmap string string);
  ob_BinaryData : gmap string string;
}.

(** [watch.Event]: the object is [None] when it is of another type. *)
Inductive event_type := Added | Modified | Deleted | ErrorEvent | Bookmark.
Record Event := MkEvent { ev_Type : event_type; ev_Object : option (resourceKind * Object) }.

(** The predicates of [apierrors] the classification uses. *)
Inductive reason :=
  | IsNotFound | IsForbidden | IsUnauthorized | IsTooManyRequests | IsServiceUnavailable | IsTimeout | IsServerTimeout | IsBadRequest | IsInvalid.

(** [func splitPath(path string) (ns, name string, err error)]. *)
Definition errPath : error := EWrap "k8s: ref path must be of the form <namespace>/<name>" [ESentinel ErrInvalid].
Definition splitPath (path : string) : res (string * string) :=
  match Cut path "/" with
  | Some (ns, name) =>
      if bool_decide (ns = "") || bool_decide (name = "") || has_byte "/" name then Err errPath else Ok (ns, name)
  | None => Err errPath
  end.

(** A chain of round trippers: the shared default, one that can close its idle
    connections, a wrapper, any other. *)
Inductive roundTripper := RtNil | RtDefault | RtCloser (id : nat) | RtWrapper (inner : roundTripper) | RtOther.

(** [func closeIdleConnectionsSafely(rt)]: the one whose connections it closes. *)
Fixpoint closeIdleConnectionsSafely (rt : roundTripper) : option nat :=
  match rt with
  | RtNil | RtDefault | RtOther => None
  | RtCloser id => Some id
  | RtWrapper inner => closeIdleConnectionsSafely inner
  end.

Section k8s.
(** A clientset with the round tripper behind it, where it has one; the factories; the
    requests; [encoding/json] of a map of strings. *)
Context {K : Type} (transport : K -> roundTripper) (defaultClient : unit -> res K).
Context (get : K -> resourceKind -> string -> string -> res Object).
Context (is_reason : reason -> error -> bool) (Marshal_strings : option (gmap string string) -> res string).

(** [type Provider struct]. *)
Record Provider := MkProvider {
  k8_kind : resourceKind;
  k8_client : option K;
  k8_clientErr : option error;
  k8_newClient : option (unit -> res K);
  k8_ownClient : bool;
  k8_closed : bool;
}.
Definition k8_scheme (p : Provider) : string := match k8_kind p with kindSecret => SchemeSecret | kindConfigMap => SchemeConfigMap end.

(** [type options struct], [type Option] and [newProvider]; [WithKubeconfig] is a factory. *)
Inductive Option_ := WithClient (c : option K) | WithClientFactory (fn : unit -> res K).
Definition newProvider (kind : resourceKind) (opts : list Option_) : Provider :=
  let '(client, fn) :=
    foldl (fun o opt => match opt with WithClient c => (c, o.2) | WithClientFactory fn => (o.1, Some fn) end) (None, None) opts in
  MkProvider kind client None fn false false.

(** [func (p *Provider) getClient() (kubernetes.Interface, error)]. *)
Definition getClient (p : Provider) : Provider * res K :=
  if k8_closed p then (p, Err (EWrap (k8_scheme p ++ ": provider is closed") [ESentinel ErrUnavailable]))
  else
    match k8_client p, k8_clientErr p with
    | Some c, _ => (p, Ok c)
    | None, Some err => (p, Err err)
    | None, None =>
        match default defaultClient (k8_newClient p) tt with
        | Err err => (MkProvider (k8_kind p) None (Some err) (k8_newClient p) (k8_ownClient p) false, Err err)
        | Ok c => (MkProvider (k8_kind p) (Some c) None (k8_newClient p) true false, Ok c)
        end
    end.

(** [func (p *Provider) Close() error], and the connections it closes. *)
Definition Close (p : Provider) : Provider * option nat :=
  match k8_ownClient p, k8_client p with
  | true, Some c =>
      (MkProvider (k8_kind p) None (k8_clientErr p) (k8_newClient p) true true, closeIdleConnectionsSafely (transport c))
  | own, c => (MkProvider (k8_kind p) c (k8_clientErr p) (k8_newClient p) own true, None)
  end.

(** [func secretValue(s, key)] and [func configMapValue(cm, key)]. *)
Definition errNoKey (scheme key : string) : error := EWrap (scheme ++ ": key " ++ key ++ " not present") [ESentinel ErrNotFound].
Definition secretValue (s : Object) (key : string) : res Value :=
  let data := default ∅ (ob_Data s) in
  if negb (bool_decide (key = "")) then
    match data !! key with
    | None => Err (errNoKey SchemeSecret key)
    | Some b => Ok (MkValue b (ob_ResourceVersion s) true 0 ∅)
    end
  else
    match Marshal_strings (Some data) with
    | Err err => Err (EWrap "k8s-secret: encoding secret data" [err])
    | Ok b => Ok (MkValue b (ob_ResourceVersion s) true 0 ∅)
    end.
Definition configMapValue (cm : Object) (key : string) : res Value :=
  if negb (bool_decide (key = "")) then
    match default ∅ (ob_Data cm) !! key, ob_BinaryData cm !! key with
    | Some b, _ | None, Some b => Ok (MkValue b (ob_ResourceVersion cm) false 0 ∅)
    | None, None => Err (errNoKey SchemeConfigMap key)
    end
  else
    match Marshal_strings (ob_Data cm) with
    | Err err => Err (EWrap "k8s-cm: encoding configmap data" [err])
    | Ok b => Ok (MkValue b (ob_ResourceVersion cm) false 0 ∅)
    end.
Definition object_value (kind : resourceKind) : Object -> string -> res Value :=
  match kind with kindSecret => secretValue | kindConfigMap => configMapValue end.

(** [func classifyK8s(err error) error] and [func mapGetError]. *)
Definition classifyK8s (err : error) : error :=
  if is_reason IsNotFound err then with_kind ErrNotFound err
  else if is_reason IsForbidden err then with_kind ErrPermissionDenied err
  else if is_reason IsUnauthorized err then with_kind ErrUnauthenticated err
  else if is_reason IsTooManyRequests err then with_kind ErrRateLimited err
  else if is_reason IsServiceUnavailable err || is_reason IsTimeout err || is_reason IsServerTimeout err then with_kind ErrUnavailable err
  else if is_reason IsBadRequest err || is_reason IsInvalid err then with_kind ErrInvalid err
  else err.
Definition mapGetError (scheme ns name : string) (err : error) : error :=
  if is_reason IsNotFound err then EWrap (scheme ++ ": " ++ ns ++ "/" ++ name ++ " not found") [ESentinel ErrNotFound; err]
  else EWrap (scheme ++ ": getting " ++ ns ++ "/" ++ name) [classifyK8s err].

(** [func (p *Provider) Resolve(ctx, ref)]. *)
Definition Resolve (canceled : option error) (p : Provider) (ref : Ref) : Provider * res Value :=
  match canceled, splitPath (ref_Path ref) with
  | Some err, _ | None, Err err => (p, Err err)
  | None, Ok (ns, name) =>
      let '(p, c) := getClient p in
      (p, c ← c;
          match get c (k8_kind p) ns name with
          | Err err => Err (mapGetError (k8_scheme p) ns name err)
          | Ok o => object_value (k8_kind p) o (ref_Key ref)
          end)
  end.

(** [func (p *Provider) eventValue(obj, name, key)]: [None] when it does not match. *)
Definition eventValue (kind : resourceKind) (obj : option (resourceKind * Object)) (name key : string) : option (res Value) :=
  match obj with
  | Some (k, o) => if bool_decide (k = kind) && bool_decide (ob_Name o = name) then Some (object_value kind o key) else None
  | None => None
  end.

(** A ConfigMap without data has a nil map, which encodes as null: what is resolved is
    then not an object, where it is one for a Secret without data. *)
Lemma empty_configmap_is_null o : Marshal_strings None = Ok "null" -> ob_Data o = None ->
  configMapValue o "" = Ok (MkValue "null" (ob_ResourceVersion o) false 0 ∅) /\
  secretValue o "" = match Marshal_strings (Some ∅) with
    | Ok b => Ok (MkValue b (ob_ResourceVersion o) true 0 ∅)
    | Err err => Err (EWrap "k8s-secret: encoding secret data" [err])
    end.
Proof. intros Hm Hd. unfold configMapValue, secretValue. simpl. by rewrite Hd, Hm. Qed.

(** What the first call answers, every later one does - the clientset, the error of a
    factory that failed, or that the provider is closed. *)
Lemma getClient_is_memoized p : let '(p', r) := getClient p in getClient p' = (p', r).
Proof.
  unfold getClient. destruct (k8_closed p) eqn:Ecl; [by rewrite Ecl|].
  destruct (k8_client p) eqn:Ec; [by rewrite Ecl, Ec|].
  destruct (k8_clientErr p) eqn:Ee; [by rewrite Ecl, Ec, Ee|].
  by destruct (default _ _ _).
Qed.
End k8s.

(** The goroutine of [func (p *Provider) Watch(ctx, ref)] with its [consume], for the
    object [ns/name]: opening a watch, the snapshot, the events, the wait before the next
    watch. The content is what the server holds of the object, [None] without it. *)
Inductive watch_pc := Opening | Snapshot | Consuming | Sleeping | Done.
Record Content := MkContent { ct_ResourceVersion : string; ct_Data : option (gmap string string); ct_BinaryData : gmap string string }.

Section watch.
Context (is_reason : reason -> error -> bool) (Marshal_strings : option (gmap string string) -> res string).
Context (kind : resourceKind) (ns name key : string) (not_found : error).
Definition scheme : string := match kind with kindSecret => SchemeSecret | kindConfigMap => SchemeConfigMap end.
Definition object (c : Content) : Object := MkObject ns name (ct_ResourceVersion c) (ct_Data c) (ct_BinaryData c).
Definition value (c : Content) : res Value := object_value Marshal_strings kind (object c) key.
Definition errDeleted : error := EWrap (scheme ++ ": " ++ name ++ " deleted") [ESentinel ErrNotFound].

(** What the snapshot reads; [not_found] is the error of the API. *)
Definition snapshot (fault : option error) (content : option Content) : res Value :=
  match fault, content with
  | Some err, _ => Err (mapGetError is_reason scheme ns name err)
  | None, None => Err (mapGetError is_reason scheme ns name not_found)
  | None, Some c => value c
  end.

(** The server, as its documentation has it: the events of a write, and those a watch
    without a resource version opens with. *)
Definition event_of (t : event_type) (c : Content) : Event := MkEvent t (Some (kind, object c)).
Definition sends (before after : option Content) : list Event :=
  match before, after with
  | None, Some c => [event_of Added c]
  | Some _, Some c => [event_of Modified c]
  | Some c, None => [event_of Deleted c]
  | None, None => []
  end.
Definition opens_with (content : option Content) : list Event := match content with Some c => [event_of Added c] | None => [] end.

(** [func (p *Provider) consume(ctx, results, ch, name, key)], one event of it. *)
Definition consume (s : sys (option Content) Event watch_pc) : option (sys (option Content) Event watch_pc) :=
  match receive s with
  | None => None
  | Some (End _, s) => Some (with_sub None (goto Sleeping s))
  | Some (Ev ev, s) =>
      match ev_Type ev with
      | Added | Modified =>
          match eventValue Marshal_strings kind (ev_Object ev) name key with
          | None => Some s
          | Some r => Some (tell r Consuming s)
          end
      | Deleted => Some (tell (Err errDeleted) Consuming s)
      | ErrorEvent => Some (with_sub None (goto Sleeping s))
      | Bookmark => Some s
      end
  end.

Definition watch_turn (s : sys (option Content) Event watch_pc) : option (sys (option Content) Event watch_pc) :=
  match sy_pc s with
  | Opening =>
      match sy_fault s with
      | Some err => Some (tell (Err (EWrap (scheme ++ ": watch " ++ ns ++ "/" ++ name) [classifyK8s is_reason err])) Sleeping s)
      | None => Some (with_sub (Some (map Ev (opens_with (sy_content s)))) (goto Snapshot s))
      end
  | Snapshot =>
      match snapshot (sy_fault s) (sy_content s) with
      | Ok v => Some (tell (Ok v) Consuming s)
      | Err err => if negb (errors_Is err ErrNotFound) then Some (tell (Err err) Consuming s) else Some (goto Consuming s)
      end
  | Consuming => consume s
  | Sleeping => Some (goto Opening s)
  | Done => None
  end.

Definition watch_start (content : option Content) : sys (option Content) Event watch_pc := MkSys content None None Opening [].

(** * What it has told *)

(** What the events on their way will tell, and whether the stream goes on. *)
Definition outcome (c : option Content) : res Value := match c with Some c => value c | None => Err errDeleted end.
Definition tells (i : item Event) : option (res Value) :=
  match i with
  | Ev ev =>
      match ev_Type ev with
      | Added | Modified => eventValue Marshal_strings kind (ev_Object ev) name key
      | Deleted => Some (Err errDeleted)
      | _ => None
      end
  | End _ => None
  end.
Definition goes_on (i : item Event) : bool :=
  match i with Ev ev => match ev_Type ev with ErrorEvent => false | _ => true end | End _ => false end.

(** While the stream goes on, the last event on its way is the present content; and with
    none on its way it was told, or there is no object. *)
Definition carried (its : list (item Event)) (content : option Content) (told : list (res Value)) : Prop :=
  match last (omap tells its) with
  | Some r => r = outcome content
  | None => content = None \/ last told = Some (outcome content)
  end.
Definition carrier_inv (s : sys (option Content) Event watch_pc) : Prop :=
  forall its, sy_sub s = Some its -> forallb goes_on its = true ->
  match sy_pc s with
  | Snapshot => match last (omap tells its) with Some r => r = outcome (sy_content s) | None => sy_content s = None end
  | Consuming => carried its (sy_content s) (sy_told s)
  | _ => True
  end.

Lemma eventValue_of c : eventValue Marshal_strings kind (Some (kind, object c)) name key = Some (value c).
Proof. unfold eventValue. by rewrite !bool_decide_eq_true_2 by done. Qed.

(** A write, seen from a stream that goes on. *)
Lemma sends_last its before after : omap tells (its ++ map Ev (sends before after))%list =
  (omap tells its ++ match before, after with None, None => [] | _, _ => [outcome after] end)%list.
Proof.
  rewrite omap_app. f_equal. destruct before as [b|], after as [a|]; cbn -[eventValue omap]; unfold omap, list_omap;
    cbn -[eventValue]; rewrite ?eventValue_of; done.
Qed.

Lemma carried_cons i its content told : carried (i :: its) content told ->
  carried its content (match tells i with Some r => told ++ [r] | None => told end)%list.
Proof.
  unfold carried. change (omap tells (i :: its)) with (match tells i with Some r => r :: omap tells its | None => omap tells its end).
  destruct (tells i) as [r|]; [|done]. rewrite last_cons. destruct (last (omap tells its)); [done|].
  intros ->. right. apply last_snoc.
Qed.

Lemma carrier_inv_step s ev : carrier_inv s ->
  carrier_inv (sys_step sends watch_turn s ev).
Proof.
  unfold carrier_inv. intros Hi. destruct ev as [c|err|err|]; simpl.
  - intros its Hits Hg. destruct (sy_sub s) as [q|] eqn:Eq; [|done]. injection Hits as <-.
    rewrite forallb_app in Hg. apply andb_true_iff in Hg as [Hg _]. specialize (Hi q eq_refl Hg).
    unfold carried in *. rewrite sends_last. destruct (sy_pc s); try done.
    + destruct (sy_content s), c; rewrite ?last_snoc; try done. rewrite app_nil_r. exact Hi.
    + destruct (sy_content s), c; rewrite ?last_snoc; try done. rewrite app_nil_r.
      destruct (last (omap tells q)); [done|]. by left.
  - exact Hi.
  - intros its Hits Hg. destruct (sy_sub s) as [q|] eqn:Eq; [|done]. injection Hits as <-.
    rewrite forallb_app in Hg. apply andb_true_iff in Hg as [_ Hg]. done.
  - destruct (watch_turn s) as [s'|] eqn:Et; [|exact Hi]. simpl. unfold watch_turn in Et. destruct (sy_pc s) eqn:Epc.
    + destruct (sy_fault s); injection Et as <-; simpl; [done|]. intros its [= <-] _.
      unfold opens_with. destruct (sy_content s) as [c|]; [|done]. unfold omap, list_omap. cbn -[eventValue]. by rewrite eventValue_of.
    + assert (Hs : sy_content s' = sy_content s /\ sy_sub s' = sy_sub s /\ sy_pc s' = Consuming).
      { destruct (snapshot _ _); [by injection Et as <-|]. destruct (negb _); by injection Et as <-. }
      destruct Hs as (Hc & Hq & ->). intros its Hits Hg. rewrite Hq in Hits. specialize (Hi its Hits Hg).
      unfold carried. rewrite Hc. destruct (last (omap tells its)); [done|]. by left.
    + unfold consume, receive in Et. destruct (sy_sub s) as [[|i q]|] eqn:Eq; [done| |done].
      destruct i as [ev|err]; [|by injection Et as <-].
      pose proof (fun Hg => carried_cons (Ev ev) q _ _ (Hi _ eq_refl Hg)) as Hq. cbn [forallb goes_on tells] in Hq. clear Hi.
      destruct (ev_Type ev); cbn [andb] in Hq; simpl in Et.
      1,2: destruct (eventValue _ _ _ _ _); injection Et as <-; simpl; rewrite ?Epc; intros its [= <-] Hg; by apply Hq.
      * injection Et as <-. simpl. intros its [= <-] Hg. by apply Hq.
      * by injection Et as <-.
      * injection Et as <-. simpl. rewrite Epc. intros its [= <-] Hg. by apply Hq.
    + injection Et as <-. done.
    + done.
Qed.

(** C39. A watch of an object that exists is current: once the goroutine waits on a stream and
    nothing is on its way, the present value was told last - across faults, ends of
    streams and new ones. *)
Theorem k8s_watch_is_current content evs c :
  let s := sys_run sends watch_turn (watch_start content) evs in
  sy_pc s = Consuming -> sy_sub s = Some [] -> sy_content s = Some c -> last (sy_told s) = Some (value c).
Proof.
  intros s Hpc Hsub Hc.
  assert (Hi : carrier_inv s).
  { apply (sys_run_ind _ _ carrier_inv); [|intros; by apply carrier_inv_step]. intros its Hits. done. }
  specialize (Hi [] Hsub eq_refl). rewrite Hpc, Hc in Hi. destruct Hi as [?|H]; [done|exact H].
Qed.

(** Turns of the goroutine, from where it is. *)
Lemma on_broken content err its told :
  sys_step sends watch_turn (MkSys content None (Some its) Consuming told) (Broken err) =
  MkSys content None (Some (its ++ [End err])%list) Consuming told.
Proof. done. Qed.

Lemma on_unsubscribed content content' pc told :
  sys_step sends watch_turn (MkSys content None None pc told) (Written content') = MkSys content' None None pc told.
Proof. done. Qed.

Lemma turn_opening content sub told :
  sys_step sends watch_turn (MkSys content None sub Opening told) Turn = MkSys content None (Some (map Ev (opens_with content))) Snapshot told.
Proof. done. Qed.

Lemma turn_snapshot c v sub told : value c = Ok v ->
  sys_step sends watch_turn (MkSys (Some c) None sub Snapshot told) Turn = MkSys (Some c) None sub Consuming (told ++ [Ok v]).
Proof. intros Hv. unfold sys_step, watch_turn, snapshot. cbn [sy_pc sy_fault sy_content]. by rewrite Hv. Qed.

Lemma turn_no_snapshot sub told : is_reason IsNotFound not_found = true ->
  sys_step sends watch_turn (MkSys None None sub Snapshot told) Turn = MkSys None None sub Consuming told.
Proof. intros Hn. unfold sys_step, watch_turn, snapshot. cbn [sy_pc sy_fault sy_content]. unfold mapGetError. by rewrite Hn. Qed.

Lemma turn_carried c v content its told : value c = Ok v ->
  sys_step sends watch_turn (MkSys content None (Some (Ev (event_of Added c) :: its)) Consuming told) Turn =
  MkSys content None (Some its) Consuming (told ++ [Ok v]).
Proof.
  intros Hv. unfold sys_step, watch_turn, consume, receive. cbn [sy_pc sy_sub event_of ev_Type ev_Object]. by rewrite eventValue_of, Hv.
Qed.

Lemma turn_ended content err its told :
  sys_step sends watch_turn (MkSys content None (Some (End err :: its)) Consuming told) Turn = MkSys content None None Sleeping told.
Proof. done. Qed.

Lemma turn_sleeping content sub told :
  sys_step sends watch_turn (MkSys content None sub Sleeping told) Turn = MkSys content None sub Opening told.
Proof. done. Qed.

Lemma turn_blocked content told :
  sys_step sends watch_turn (MkSys content None (Some []) Consuming told) Turn = MkSys content None (Some []) Consuming told.
Proof. done. Qed.

(** Between two streams, and between a stream and its snapshot, a deletion is lost: the
    snapshot says that the object is gone, and is not told. *)
Theorem k8s_deletion_between_streams_is_silent c v :
  is_reason IsNotFound not_found = true -> value c = Ok v ->
  let s := sys_run sends watch_turn (watch_start (Some c))
    [Turn; Turn; Turn; Broken None; Turn; Written None; Turn; Turn; Turn; Turn; Turn] in
  sy_content s = None /\ sy_pc s = Consuming /\ sy_sub s = Some [] /\ last (sy_told s) = Some (Ok v).
Proof.
  intros Hn Hv. unfold sys_run, watch_start. cbn [foldl]. rewrite turn_opening. cbn [opens_with map].
  rewrite (turn_snapshot _ v), (turn_carried _ v) by done.
  rewrite on_broken. cbn [app]. rewrite turn_ended, on_unsubscribed.
  rewrite turn_sleeping, turn_opening, turn_no_snapshot, !turn_blocked by done. by split_and!.
Qed.

(** The events a watch opens with may be older than the snapshot that is told before them:
    the value told goes back, for as long as they are on their way. *)
Theorem k8s_snapshot_is_overtaken a b va vb :
  value a = Ok va -> value b = Ok vb ->
  sy_told (sys_run sends watch_turn (watch_start (Some a)) [Turn; Written (Some b); Turn; Turn; Turn]) = [Ok vb; Ok va; Ok vb].
Proof.
  intros Ha Hb. unfold sys_run. cbn -[eventValue value object]. rewrite Hb. cbn -[eventValue value object].
  rewrite eventValue_of, Ha. cbn -[eventValue value object]. by rewrite eventValue_of, Hb.
Qed.
End watch.
End K8s.

(** * Two watches at work *)

Definition no_json : JSON := {| Unmarshal_object _ := None; Unmarshal_array _ := None; Unmarshal_string _ := None |}.
Definition key_ref (path : string) : Ref := MkRef "kv" path "" ∅ path.

Definition etcd_script : list (sys_event (option Etcd.KeyValue)) :=
  [Written (Some (Etcd.MkKV "a" 1)); Written None; Turn; Written (Some (Etcd.MkKV "b" 3)); Turn; Turn].

Lemma etcd_watch_tells_every_put_witness :
  sy_told (sys_run Etcd.sends (@Etcd.watch_turn (fun _ => Etcd.Unknown) (fun _ => None) no_json (key_ref "app"))
    (Etcd.watch_start None) etcd_script) = [Ok (MkValue "a" "1" false 0 ∅); Ok (MkValue "b" "3" false 0 ∅)].
Proof.
  destruct (@Etcd.etcd_watch_tells_every_put (fun _ => Etcd.Unknown) (fun _ => None) no_json (key_ref "app") None etcd_script)
    as (its & Hits & E); [repeat (apply Forall_cons; split; [done|]); apply Forall_nil_2|].
  injection Hits as <-. simpl in E. exact E.
Defined.

Definition k8s_reason (r : K8s.reason) (e : error) : bool := match r with K8s.IsNotFound => errors_Is e ErrNotFound | _ => false end.
Definition k8s_json (_ : option (gmap string string)) : res string := Ok "{}".
Definition k8s_turn := K8s.watch_turn k8s_reason k8s_json K8s.kindSecret "ns" "db" "user" (ESentinel ErrNotFound).
Definition k8s_sends := K8s.sends K8s.kindSecret "ns" "db".
Definition db_user (rv user : string) : K8s.Content := K8s.MkContent rv (Some {["user" := user]}) ∅.

Definition k8s_script : list (sys_event (option K8s.Content)) :=
  [Fault (Some (EOpaque "dial")); Turn; Fault None; Turn; Turn; Turn; Turn; Broken None; Turn; Written (Some (db_user "9" "root")); Turn; Turn; Turn; Turn].

Lemma k8s_watch_is_current_witness :
  last (sy_told (sys_run k8s_sends k8s_turn (K8s.watch_start (Some (db_user "4" "app"))) k8s_script)) = Some (Ok (MkValue "root" "9" true 0 ∅)).
Proof.
  unfold k8s_sends, k8s_turn.
  rewrite (K8s.k8s_watch_is_current k8s_reason k8s_json K8s.kindSecret "ns" "db" "user" (ESentinel ErrNotFound) (Some (db_user "4" "app"))
    k8s_script (db_user "9" "root") eq_refl eq_refl eq_refl). vm_compute. reflexivity.
Defined.

Lemma k8s_deletion_between_streams_is_silent_witness :
  last (sy_told (sys_run k8s_sends k8s_turn (K8s.watch_start (Some (db_user "4" "app")))
    [Turn; Turn; Turn; Broken None; Turn; Written None; Turn; Turn; Turn; Turn; Turn])) = Some (Ok (MkValue "app" "4" true 0 ∅)).
Proof.
  exact (proj2 (proj2 (proj2 (K8s.k8s_deletion_between_streams_is_silent k8s_reason k8s_json K8s.kindSecret "ns" "db" "user" (ESentinel ErrNotFound)
    (db_user "4" "app") (MkValue "app" "4" true 0 ∅) eq_refl eq_refl)))).
Defined.

Lemma k8s_snapshot_is_overtaken_witness :
  sy_told (sys_run k8s_sends k8s_turn (K8s.watch_start (Some (db_user "4" "app"))) [Turn; Written (Some (db_user "9" "root")); Turn; Turn; Turn])
  = [Ok (MkValue "root" "9" true 0 ∅); Ok (MkValue "app" "4" true 0 ∅); Ok (MkValue "root" "9" true 0 ∅)].
Proof.
  apply (K8s.k8s_snapshot_is_overtaken k8s_reason k8s_json K8s.kindSecret "ns" "db" "user" (ESentinel ErrNotFound)
    (db_user "4" "app") (db_user "9" "root")); reflexivity.
Defined.
