(* ===== verification/Middleware.v ===== *)
(** Provider decorators (src/middleware): batching, cache, failover, prefix, rate
    limit and audit. The closure of [Cache] and of [RateLimit] is a component of
    the world its provider runs in. *)

From S2P Require Import Prelude Errors GoStrings Ref Provider Resolve.
Open Scope string_scope.
Open Scope Z_scope.

(** * The wrapper *)

Section wrapper.
Context {W : Type}.

(** [func (w *wrapper) ResolveBatch(ctx, refs)]: the loop, with the map so far. *)
Fixpoint batch_resolve (resolve : Ref -> W -> W * res Value) (out : gmap string Value) (refs : list Ref) (w : W)
    : W * res (gmap string Value) :=
  match refs with
  | [] => (w, Ok out)
  | ref :: refs =>
      let '(w, got) := resolve ref w in
      match got with
      | Err err => if errors_Is err ErrNotFound then batch_resolve resolve out refs w else (w, Err err)
      | Ok v => batch_resolve resolve (<[ref_Raw ref := v]> out) refs w
      end
  end.

(** [func newWrapper(inner, resolve, mapRef)]: a wrapper is always a batch
    provider, and always watchable. *)
Definition newWrapper (inner : Provider W) (resolve : Ref -> W -> W * res Value) : Provider W :=
  MkProvider (prov_Scheme inner) resolve (Some (fun refs w => batch_resolve resolve ∅ refs w)) true.

(** * Failover *)

(** The loop of [Failover] over all its providers. *)
Fixpoint failover_loop (errs : list error) (all : list (Provider W)) (ref : Ref) (w : W) : W * res Value :=
  match all with
  | [] => (w, Err (EWrap "mamori/middleware: all providers failed" [EWrap "" errs]))
  | p :: all =>
      let '(w, got) := prov_Resolve p ref w in
      match got with
      | Ok v => (w, Ok v)
      | Err err =>
          if errors_Is err ErrNotFound then (w, Err err) else failover_loop (errs ++ [err])%list all ref w
      end
  end.

(** [func Failover(primary, replicas...)]. *)
Definition Failover (primary : Provider W) (replicas : list (Provider W)) : Provider W :=
  newWrapper primary (failover_loop [] (primary :: replicas)).

(** * Prefix *)

(** [func joinPath(prefix, path string) string]. *)
Definition prefix_joinPath (prefix path : string) : string :=
  let prefix := TrimSuffix prefix "/" in
  let path := TrimPrefix path "/" in
  if bool_decide (prefix = "") then path else prefix ++ "/" ++ path.

(** The [mapRef] of [Prefix]. *)
Definition prefix_ref (prefix : string) (ref : Ref) : Ref :=
  let out := MkRef (ref_Scheme ref) (prefix_joinPath prefix (ref_Path ref)) (ref_Key ref) (ref_Opts ref) (ref_Raw ref) in
  MkRef (ref_Scheme out) (ref_Path out) (ref_Key out) (ref_Opts out) (Ref_String out).

(** [func Prefix(prefix, inner)]. *)
Definition Prefix (prefix : string) (inner : Provider W) : Provider W :=
  newWrapper inner (fun ref w => prov_Resolve inner (prefix_ref prefix ref) w).

(** * Audit *)

(** A record of the audit log: the scheme and the redacted ref, and the version
    and sensitivity of a value, or the error. *)
Record audit_record := MkAudit {
  au_scheme : string;
  au_ref : string;
  au_outcome : (string * bool) + error;
}.

(** [func Audit(logger, inner)]; [log] writes a record. *)
Definition Audit (log : audit_record -> W -> W) (inner : Provider W) : Provider W :=
  newWrapper inner (fun ref w =>
    let '(w, got) := prov_Resolve inner ref w in
    (log (MkAudit (ref_Scheme ref) (Redacted ref)
       (match got with Ok v => inl (val_Version v, val_Sensitive v) | Err err => inr err end)) w, got)).
End wrapper.

(** * Cache *)

(** [type cacheEntry struct]. *)
Record cached := MkCached { ca_val : Value; ca_expires : Z }.

Section cache.
Context {W : Type} `{Env W}.

(** The world with the map of one [Cache] beside it. *)
Abbreviation cacheW := (gmap string cached * W)%type.

(** [func Cache(ttl, inner)]. *)
Definition cache_resolve (ttl : Z) (inner : Provider W) (ref : Ref) (w : cacheW) : cacheW * res Value :=
  let start := now w.2 in
  let fetch :=
    let '(w', got) := prov_Resolve inner ref w.2 in
    match got with
    | Err err => ((w.1, w'), Err err)
    | Ok v => ((<[ref_Raw ref := MkCached v (start + ttl)]> w.1, w'), Ok v)
    end in
  match w.1 !! ref_Raw ref with
  | Some e => if start <? ca_expires e then (w, Ok (ca_val e)) else fetch
  | None => fetch
  end.

(** The inner provider in the world with the state of a decorator. *)
Definition beside {S} (p : Provider W) : Provider (S * W) :=
  MkProvider (prov_Scheme p) (fun ref w => let '(w', got) := prov_Resolve p ref w.2 in ((w.1, w'), got)) None
    (prov_Watchable p).

Definition Cache (ttl : Z) (inner : Provider W) : Provider cacheW := newWrapper (beside inner) (cache_resolve ttl inner).
End cache.

(** * Rate limit *)

(** The reservation of [RateLimit]: when the call may start, and the next slot. *)
Definition reserve (interval now next : Z) : Z * Z :=
  if now <? next then (next, next + interval) else (now, now + interval).

(** [func RateLimit(rps, inner)], with [next] beside the world, for the interval
    [rps] gives (none when it is not positive); [After] is the select between the
    clock and the caller's context, with [ctx.Err()] when the context ends first. *)
Definition ratelimit_resolve {W} `{Env W} (After : Z -> W -> W * option error) (interval : Z) (inner : Provider W)
    (ref : Ref) (s : Z * W) : (Z * W) * res Value :=
  let ask := fun next w => let '(w, got) := prov_Resolve inner ref w in ((next, w), got) in
  if 0 <? interval then
    let '(start, next) := reserve interval (now s.2) s.1 in
    let wait := start - now s.2 in
    if 0 <? wait then
      let '(w, ended) := After wait s.2 in
      match ended with Some err => ((next, w), Err err) | None => ask next w end
    else ask next s.2
  else ask s.1 s.2.

Definition RateLimit {W} `{Env W} (After : Z -> W -> W * option error) (interval : Z) (inner : Provider W)
    : Provider (Z * W) := newWrapper (beside inner) (ratelimit_resolve After interval inner).

(** The calls of a limiter in the order they take its lock, each at its own
    time: when each may start. *)
Fixpoint reserve_all (interval next : Z) (calls : list Z) : list Z :=
  match calls with
  | [] => []
  | now :: calls => let '(start, next) := reserve interval now next in start :: reserve_all interval next calls
  end.

(** * Facts *)

Section facts.
Context {W : Type}.

(** A batch is its refs, one by one: what the decorated resolve finds, under the
    tag of each, and nothing for what it does not find. *)
Lemma batch_resolve_spec (resolve : Ref -> W -> W * res Value) (raw : Ref -> res Value) out refs w :
  (forall r w, (resolve r w).2 = raw r) -> (forall r1 r2, ref_Raw r1 = ref_Raw r2 -> raw r1 = raw r2) ->
  match (batch_resolve resolve out refs w).2 with
  | Ok got =>
      (forall r, r ∈ refs ->
         match raw r with
         | Ok v => got !! ref_Raw r = Some v
         | Err e => errors_Is e ErrNotFound = true /\ got !! ref_Raw r = out !! ref_Raw r
         end) /\
      (forall key, (forall r, r ∈ refs -> ref_Raw r <> key) -> got !! key = out !! key)
  | Err e => errors_Is e ErrNotFound = false /\ exists r, r ∈ refs /\ raw r = Err e
  end.
Proof.
  intros Hraw Htag. revert out w. induction refs as [|r refs IH]; intros out w; simpl.
  { split; [by intros ? ?%elem_of_nil|done]. }
  pose proof (Hraw r w) as Hr. destruct (resolve r w) as [w' got]. simpl in Hr. subst got.
  assert (Hin : forall r', r' ∈ r :: refs -> ref_Raw r' <> ref_Raw r -> r' ∈ refs).
  { intros r' [->|]%elem_of_cons; done. }
  destruct (raw r) as [v|e] eqn:Er.
  - specialize (IH (<[ref_Raw r := v]> out) w'). destruct (batch_resolve resolve _ refs w').2 as [got|e].
    + destruct IH as [IHin IHout]. split.
      * intros r' Hr'. destruct (decide (r' ∈ refs)) as [Hin'|Hnin].
        { specialize (IHin r' Hin'). destruct (raw r') as [v'|e'] eqn:Er'; [done|]. destruct IHin as [? ->].
          split; [done|]. rewrite lookup_insert_ne; [done|]. intros E. rewrite (Htag r r' E) in Er. congruence. }
        apply elem_of_cons in Hr' as [->|]; [|done]. rewrite Er.
        destruct (decide (Exists (fun r' => ref_Raw r' = ref_Raw r) refs)) as [Hex|Hex].
        { apply Exists_exists in Hex as (r' & Hr' & Et). specialize (IHin r' Hr').
          rewrite (Htag r' r Et), Er, Et in IHin. exact IHin. }
        rewrite IHout; [apply lookup_insert_eq|]. intros r' Hr' Et. apply Hex, Exists_exists. by exists r'.
      * intros key Hk. rewrite IHout by (intros r' Hr'; apply Hk; by constructor).
        apply lookup_insert_ne. apply Hk. constructor.
    + destruct IH as [? (r' & ? & ?)]. split; [done|]. exists r'. split; [by constructor|done].
  - destruct (errors_Is e ErrNotFound) eqn:En; simpl; [|split; [done|]; exists r; split; [constructor|done]].
    specialize (IH out w'). destruct (batch_resolve resolve out refs w').2 as [got|e'].
    + destruct IH as [IHin IHout]. split; [|intros key Hk; apply IHout; intros r' Hr'; apply Hk; by constructor].
      intros r' Hr'. destruct (decide (r' ∈ refs)) as [Hin'|Hnin]; [by apply IHin|].
      apply elem_of_cons in Hr' as [->|]; [|done]. rewrite Er. split; [done|].
      destruct (decide (Exists (fun r' => ref_Raw r' = ref_Raw r) refs)) as [Hex|Hex].
      { apply Exists_exists in Hex as (r' & Hr' & Et). specialize (IHin r' Hr').
        rewrite (Htag r' r Et), Er, Et in IHin. by destruct IHin. }
      apply IHout. intros r' Hr' Et. apply Hex, Exists_exists. by exists r'.
    + destruct IH as [? (r' & ? & ?)]. split; [done|]. exists r'. split; [by constructor|done].
Qed.

(** What the providers of a failover are asked, one after the other. *)
Fixpoint failover_answer (answers : list (res Value)) : option (res Value) :=
  match answers with
  | [] => None
  | Ok v :: _ => Some (Ok v)
  | Err e :: answers => if errors_Is e ErrNotFound then Some (Err e) else failover_answer answers
  end.

Lemma failover_loop_spec errs (all : list (Provider W)) (raws : list (Ref -> res Value)) ref w :
  Forall2 (fun p raw => forall w, (prov_Resolve p ref w).2 = raw ref) all raws ->
  Forall (fun e => errors_Is e ErrNotFound = false) errs ->
  match failover_answer (map (fun raw => raw ref) raws) with
  | Some got => (failover_loop errs all ref w).2 = got
  | None => exists e, (failover_loop errs all ref w).2 = Err e /\ errors_Is e ErrNotFound = false
  end.
Proof.
  intros Hall. revert errs w. induction Hall as [|p raw all raws Hp _ IH]; intros errs w He; simpl.
  - eexists. split; [done|]. simpl. rewrite orb_false_r. induction He as [|e errs He _ IHe]; [done|].
    simpl. by rewrite He.
  - pose proof (Hp w) as Hr. destruct (prov_Resolve p ref w) as [w' got]. simpl in Hr. subst got.
    destruct (raw ref) as [v|e]; [done|]. destruct (errors_Is e ErrNotFound) eqn:En; [done|].
    apply IH. apply Forall_app. split; [done|]. by apply Forall_singleton.
Qed.

(** The rewritten ref keeps the tag of the original whenever it has one: [String]
    returns [Raw] when it is set. *)
Lemma prefix_ref_Raw prefix ref : ref_Raw ref <> "" -> ref_Raw (prefix_ref prefix ref) = ref_Raw ref.
Proof. intros Hr. unfold prefix_ref, Ref_String. simpl. by rewrite bool_decide_eq_false_2. Qed.
End facts.

(** * Caching *)

Section fresh.
Context {W : Type} `{Env W} (ttl : Z) (inner : Provider W).

(** [asked w t ref v]: by the state [w], a resolve of [ref] that started at [t]
    has been answered with [v]. *)
Context (asked : W -> Z -> Ref -> Value -> Prop).

(** A history: it never forgets, and records every answer of the provider. *)
Record history : Prop := {
  hi_keeps : forall t r v r' w, asked w t r v -> asked (prov_Resolve inner r' w).1 t r v;
  hi_records : forall r w w' v, prov_Resolve inner r w = (w', Ok v) -> asked w' (now w) r v;
}.

(** Every entry is an answer to a ref of its tag, and expires [ttl] after it was
    asked for. *)
Definition cache_ok (w : gmap string cached * W) : Prop :=
  map_Forall (fun raw e => exists r, ref_Raw r = raw /\ asked w.2 (ca_expires e - ttl) r (ca_val e)) w.1.

Lemma cache_resolve_spec ref w w' got :
  history -> cache_ok w -> cache_resolve ttl inner ref w = (w', got) ->
  cache_ok w' /\
  match got with
  | Ok v => exists t r, ref_Raw r = ref_Raw ref /\ asked w'.2 t r v /\ (t = now w.2 \/ now w.2 < t + ttl)
  | Err err => (prov_Resolve inner ref w.2).2 = Err err
  end.
Proof.
  intros Hh Hok. unfold cache_resolve.
  assert (Hfetch : forall w' got, (let '(w1, got) := prov_Resolve inner ref w.2 in
      match got with Err err => ((w.1, w1), Err err)
      | Ok v => ((<[ref_Raw ref := MkCached v (now w.2 + ttl)]> w.1, w1), Ok v) end) = (w', got) ->
    cache_ok w' /\ match got with
      | Ok v => exists t r, ref_Raw r = ref_Raw ref /\ asked w'.2 t r v /\ (t = now w.2 \/ now w.2 < t + ttl)
      | Err err => (prov_Resolve inner ref w.2).2 = Err err end).
  { clear w' got. intros w' got. destruct (prov_Resolve inner ref w.2) as [w1 [v|err]] eqn:E; intros [= <- <-].
    - pose proof (hi_records Hh _ _ _ _ E) as Hr. split; [|exists (now w.2), ref; split_and!; [done|exact Hr|by left]].
      intros raw e Hraw. simpl in *. apply lookup_insert_Some in Hraw as [[<- <-]|[_ Hraw]].
      + exists ref. split; [done|]. simpl. by rewrite Z.add_simpl_r.
      + destruct (Hok raw e Hraw) as (r & Hr1 & Hr2). exists r. split; [done|].
        pose proof (hi_keeps Hh _ _ _ ref _ Hr2) as Hk. by rewrite E in Hk.
    - split; [|done]. intros raw e Hraw. simpl in *. destruct (Hok raw e Hraw) as (r & Hr1 & Hr2). exists r.
      split; [done|]. pose proof (hi_keeps Hh _ _ _ ref _ Hr2) as Hk. by rewrite E in Hk. }
  destruct (w.1 !! ref_Raw ref) as [e|] eqn:Ee; [|by apply Hfetch].
  destruct (Z.ltb_spec (now w.2) (ca_expires e)) as [Hlt|]; [|by apply Hfetch]. intros [= <- <-].
  split; [done|]. destruct (Hok _ e Ee) as (r & Hr1 & Hr2). exists (ca_expires e - ttl), r.
  split_and!; [done|done|right; lia].
Qed.

(** The states of the world with the cache: its own resolves, and changes of the
    world that the history survives. *)
Inductive cache_reach : gmap string cached * W -> Prop :=
  | cr_start w : cache_reach (∅, w)
  | cr_resolve w ref w' got : cache_reach w -> cache_resolve ttl inner ref w = (w', got) -> cache_reach w'
  | cr_world m w w' : cache_reach (m, w) -> (forall t r v, asked w t r v -> asked w' t r v) -> cache_reach (m, w').

Lemma cache_reach_ok w : history -> cache_reach w -> cache_ok w.
Proof.
  intros Hh. induction 1 as [w|w ref w' got _ IH Hr|m w w' _ IH Hk].
  - apply map_Forall_empty.
  - by eapply cache_resolve_spec.
  - intros raw e He. destruct (IH raw e He) as (r & ? & ?). exists r. simpl in *. auto.
Qed.
End fresh.

(** The reservations of a limiter from a free slot on. *)
Lemma reserve_all_spaced interval next calls : 0 <= interval ->
  (forall start, start ∈ reserve_all interval next calls -> next <= start \/ exists n, start = n /\ n ∈ calls /\ next <= n) /\
  ForallOrdPairs (fun s1 s2 => s1 + interval <= s2) (reserve_all interval next calls).
Proof.
  intros Hi. revert next. induction calls as [|n calls IH]; intros next; simpl.
  { split; [by intros ? ?%elem_of_nil|constructor]. }
  unfold reserve. destruct (Z.ltb_spec n next) as [Hlt|Hge].
  - destruct (IH (next + interval)) as [Hs Ho]. split.
    + intros start [->|Hin]%elem_of_cons; [left; lia|]. destruct (Hs start Hin) as [|(m & -> & _ & ?)]; left; lia.
    + constructor; [|done]. apply Forall_forall. intros start Hin.
      destruct (Hs start Hin) as [|(m & -> & _ & ?)]; lia.
  - destruct (IH (n + interval)) as [Hs Ho]. split.
    + intros start [->|Hin]%elem_of_cons; [left; lia|]. destruct (Hs start Hin) as [|(m & -> & _ & ?)]; left; lia.
    + constructor; [|done]. apply Forall_forall. intros start Hin.
      destruct (Hs start Hin) as [|(m & -> & _ & ?)]; lia.
Qed.

(** * Properties *)

(** A decorated provider keeps its promises. A failover over backends that
    do not move answers with the first value or the first authoritative absence,
    and otherwise with an error that is not an absence; and its batch, like that
    of every decorated provider, holds exactly what it resolves one by one. *)
Theorem Failover_is_lawful {W} (primary : Provider W) replicas raws ref refs w :
  Forall2 (fun p raw => forall r w, (prov_Resolve p r w).2 = raw r) (primary :: replicas) raws ->
  Forall (fun raw => forall r1 r2, ref_Raw r1 = ref_Raw r2 -> raw r1 = raw r2) raws ->
  let p := Failover primary replicas in
  match failover_answer (map (fun raw => raw ref) raws) with
  | Some got => (prov_Resolve p ref w).2 = got
  | None => exists e, (prov_Resolve p ref w).2 = Err e /\ errors_Is e ErrNotFound = false
  end /\
  (forall batch, prov_ResolveBatch p = Some batch ->
   match (batch refs w).2 with
   | Ok got =>
       forall r, r ∈ refs ->
       match (prov_Resolve p r w).2 with
       | Ok v => got !! ref_Raw r = Some v
       | Err e => errors_Is e ErrNotFound = true /\ got !! ref_Raw r = None
       end
   | Err e => errors_Is e ErrNotFound = false /\ exists r, r ∈ refs /\ (prov_Resolve p r w).2 = Err e
   end).
Proof.
  intros Hall Htag p. split.
  - apply (failover_loop_spec [] (primary :: replicas) raws ref w); [|constructor].
    eapply Forall2_impl; [exact Hall|]. auto.
  - intros batch [= <-].
    assert (Hst : forall errs (all : list (Provider W)) raws, Forall2 (fun p raw => forall r w, (prov_Resolve p r w).2 = raw r) all raws ->
      Forall (fun raw => forall r1 r2, ref_Raw r1 = ref_Raw r2 -> raw r1 = raw r2) raws ->
      forall r1 r2 w1 w2, ref_Raw r1 = ref_Raw r2 -> (failover_loop errs all r1 w1).2 = (failover_loop errs all r2 w2).2).
    { clear. intros errs all raws Hall. revert errs. induction Hall as [|p raw all raws Hp _ IH]; intros errs Ht r1 r2 w1 w2 E;
        [done|]. apply Forall_cons in Ht as [Ht Hts]. simpl.
      pose proof (Hp r1 w1) as H1. pose proof (Hp r2 w2) as H2. rewrite (Ht r1 r2 E) in H1.
      destruct (prov_Resolve p r1 w1) as [w1' g1], (prov_Resolve p r2 w2) as [w2' g2]. simpl in *. subst g1 g2.
      destruct (raw r2) as [v|e]; [done|]. destruct (errors_Is e ErrNotFound); [done|]. by apply IH. }
    pose proof (batch_resolve_spec (failover_loop [] (primary :: replicas))
      (fun r => (failover_loop [] (primary :: replicas) r w).2) ∅ refs w
      (fun r w' => Hst [] _ raws Hall Htag r r w' w eq_refl) (fun r1 r2 => Hst [] _ raws Hall Htag r1 r2 w w)) as Hb.
    destruct (batch_resolve _ ∅ refs w).2 as [got|e]; [|exact Hb]. destruct Hb as [Hin _]. intros r Hr.
    specialize (Hin r Hr).
    change (prov_Resolve p r w) with (failover_loop [] (primary :: replicas) r w).
    destruct (failover_loop _ _ r w).2; [done|]. by rewrite lookup_empty in Hin.
Qed.

(** A cached value is never older than its time to live. Whatever was
    resolved before, a resolve through the cache returns either what the backend
    answers now, errors included, or a value the backend gave for a ref of the same
    tag within the time to live. *)
Theorem Cache_is_fresh {W} `{Env W} ttl (inner : Provider W) asked ref w w' got :
  history inner asked -> cache_reach ttl inner asked w -> cache_resolve ttl inner ref w = (w', got) ->
  match got with
  | Ok v => exists t r, ref_Raw r = ref_Raw ref /\ asked w'.2 t r v /\ (t = now w.2 \/ now w.2 < t + ttl)
  | Err err => (prov_Resolve inner ref w.2).2 = Err err
  end.
Proof. intros Hh Hr Hg. eapply cache_resolve_spec; [done| |exact Hg]. by eapply cache_reach_ok. Qed.

(** Calls start at least an interval apart, whatever their number and times. *)
Lemma RateLimit_spaces interval calls : 0 <= interval ->
  ForallOrdPairs (fun s1 s2 => s1 + interval <= s2) (reserve_all interval 0 calls).
Proof. intros Hi. by apply reserve_all_spaced. Qed.

(** A call that gets through a limiter starts no earlier than its reservation,
    whatever the wait of the clock does, and takes one slot. *)
Lemma RateLimit_waits {W} `{Env W} (After : Z -> W -> W * option error) interval (inner : Provider W) ref next w s got :
  0 < interval -> (forall d w, (After d w).2 = None -> now w + d <= now (After d w).1) ->
  ratelimit_resolve After interval inner ref (next, w) = (s, got) ->
  let start := (reserve interval (now w) next).1 in
  s.1 = start + interval /\
  ((exists w0, start <= now w0 /\ prov_Resolve inner ref w0 = (s.2, got)) \/
   (exists w0 err, After (start - now w) w = (w0, Some err) /\ got = Err err)).
Proof.
  intros Hi Ha. unfold ratelimit_resolve. rewrite (proj2 (Z.ltb_lt 0 interval)) by done. cbn [fst snd].
  unfold reserve. destruct (Z.ltb_spec (now w) next) as [Hlt|Hge]; cbn [fst snd].
  - rewrite (proj2 (Z.ltb_lt _ _)) by lia. specialize (Ha (next - now w) w).
    destruct (After (next - now w) w) as [w1 [err|]] eqn:E; cbn [fst snd] in Ha.
    + intros [= <- <-]. split; [done|]. right. by exists w1, err.
    + destruct (prov_Resolve inner ref w1) as [w2 g] eqn:Er. intros [= <- <-]. split; [done|]. left.
      exists w1. split; [specialize (Ha eq_refl); lia|done].
  - rewrite Z.sub_diag. simpl. destruct (prov_Resolve inner ref w) as [w2 g] eqn:Er. intros [= <- <-].
    split; [done|]. left. by exists w.
Qed.

(** Tenants that share a cache share its values. Two prefixes over one
    cache: within the time to live, the second tenant's resolve of a tag is
    answered with the value the first tenant's prefix fetched, because the
    rewritten ref keeps the tag the cache is keyed by. *)
Theorem Prefix_shares_cache_entries {W} `{Env W} ttl (inner : Provider W) a b ref (w w' : gmap string cached * W) v w2 :
  ref_Raw ref <> "" -> w.1 !! ref_Raw ref = None ->
  prov_Resolve (Prefix a (Cache ttl inner)) ref w = (w', Ok v) -> now w2 < now w.2 + ttl ->
  prov_Resolve (Prefix b (Cache ttl inner)) ref (w'.1, w2) = ((w'.1, w2), Ok v).
Proof.
  intros Hraw Hnone Ha Hlt. simpl in *. unfold cache_resolve in *. cbn [fst snd] in *.
  rewrite prefix_ref_Raw in * by done. rewrite Hnone in Ha.
  destruct (prov_Resolve inner (prefix_ref a ref) w.2) as [w1 [v1|e]]; [|done]. injection Ha as <- <-. simpl.
  rewrite lookup_insert_eq. by rewrite (proj2 (Z.ltb_lt _ _)) by exact Hlt.
Qed.

(** * Instances *)

(** A world that is a clock. *)
#[local] Instance clock_env : Env Z := { now := fun w => w; observe := fun _ w => w; now_observe := fun _ _ => eq_refl }.

Definition kv (value : Ref -> string) : Provider Z :=
  MkProvider "kv" (fun r w => (w, Ok (MkValue (value r) "" false 0 ∅))) None false.
Definition down : Provider Z := MkProvider "kv" (fun r w => (w, Err (ESentinel ErrUnavailable))) None false.
Definition bare_ref : Ref := MkRef "kv" "db" "" ∅ "kv:db".

Lemma Failover_is_lawful_witness :
  (prov_Resolve (Failover down [kv ref_Raw]) bare_ref 0).2 = Ok (MkValue "kv:db" "" false 0 ∅).
Proof.
  apply (Failover_is_lawful down [kv ref_Raw]
    [fun _ => Err (ESentinel ErrUnavailable); fun r => Ok (MkValue (ref_Raw r) "" false 0 ∅)] bare_ref [] 0).
  - by repeat constructor.
  - repeat constructor. by intros r1 r2 ->.
Defined.

Lemma Cache_is_fresh_witness :
  exists t r, ref_Raw r = "kv:db" /\ val_Bytes (MkValue "kv:db" "" false 0 ∅) = ref_Raw r /\ (t = 3 \/ 3 < t + 10).
Proof.
  destruct (cache_resolve 10 (kv ref_Raw) bare_ref (∅, 3)) as [w' got] eqn:E.
  pose proof (Cache_is_fresh 10 (kv ref_Raw) (fun _ _ r v => val_Bytes v = ref_Raw r) bare_ref (∅, 3) w' got) as Hf.
  assert (Hg : got = Ok (MkValue "kv:db" "" false 0 ∅)) by (vm_compute in E; by injection E as _ <-).
  subst got. apply Hf; [|constructor|done]. split; [done|]. intros r w w0 v. simpl. by intros [= _ <-].
Defined.

Definition tenant_a_value : Value := MkValue "tenant-a/db" "" false 0 ∅.

Lemma Prefix_shares_cache_entries_witness :
  let m := {["kv:db" := MkCached tenant_a_value 10]} in
  prov_Resolve (Prefix "tenant-a" (Cache 10 (kv ref_Path))) bare_ref (∅, 0) = ((m, 0), Ok tenant_a_value) /\
  prov_Resolve (Prefix "tenant-b" (Cache 10 (kv ref_Path))) bare_ref (m, 5) = ((m, 5), Ok tenant_a_value).
Proof.
  intros m.
  assert (Ha : prov_Resolve (Prefix "tenant-a" (Cache 10 (kv ref_Path))) bare_ref (∅, 0) = ((m, 0), Ok tenant_a_value))
    by (by vm_compute).
  split; [exact Ha|].
  apply (Prefix_shares_cache_entries 10 (kv ref_Path) "tenant-a" "tenant-b" bare_ref (∅, 0) (m, 0) tenant_a_value 5);
    [done|by vm_compute|exact Ha|by vm_compute].
Defined.
