(* ===== verification/Builtin.v ===== *)
(** The built-in providers (src/builtin_env.go, builtin_file.go,
    builtin_dotenv.go, builtin_exec.go): the environment, files, variables of a
    dotenv file and commands, with the two parsers behind them. The file system,
    the environment and the processes are parameters. *)

From S2P Require Import Prelude Errors GoStrings Ref Provider GoNumbers.
Open Scope string_scope.
Open Scope Z_scope.

Definition squote : ascii := byte_of 39.
Definition dquote : ascii := byte_of 34.
Definition bslash : ascii := byte_of 92.
Definition newline : ascii := byte_of 10.

(** * Dotenv files *)

(** [strings.NewReplacer] over the five escapes of a double-quoted value: one
    pass from the left. *)
Fixpoint dotenv_unescape (s : string) : string :=
  match s with
  | EmptyString => ""
  | String c rest =>
      if ascii_eqb c bslash then
        match rest with
        | String d rest' =>
            if ascii_eqb d "n" then String newline (dotenv_unescape rest')
            else if ascii_eqb d "r" then String (byte_of 13) (dotenv_unescape rest')
            else if ascii_eqb d "t" then String (byte_of 9) (dotenv_unescape rest')
            else if ascii_eqb d dquote then String dquote (dotenv_unescape rest')
            else if ascii_eqb d bslash then String bslash (dotenv_unescape rest')
            else String c (dotenv_unescape rest)
        | EmptyString => String c ""
        end
      else String c (dotenv_unescape rest)
  end.

(** [strings.Index(v, " #")] and the text before it. *)
Fixpoint before_comment (s : string) : string :=
  match s with
  | EmptyString => ""
  | String c rest => if HasPrefix s " #" then "" else String c (before_comment rest)
  end.

Definition last_byte (s : string) : option ascii := match str_rev s with String c _ => Some c | EmptyString => None end.

Definition quoted_by (q : ascii) (v : string) : bool :=
  match v with
  | String c _ => (2 <=? String.length v)%nat && ascii_eqb c q && bool_decide (last_byte v = Some q)
  | EmptyString => false
  end.

(** [v[1 : len(v)-1]]. *)
Definition inner_text (v : string) : string := str_take (String.length v - 2) (str_drop 1 v).

(** [func parseDotenvValue(v string) string]. *)
Definition parseDotenvValue (v : string) : string :=
  if quoted_by squote v then inner_text v
  else if quoted_by dquote v then dotenv_unescape (inner_text v)
  else TrimSpace (before_comment v).

(** One line of the loop of [parseDotenv]. *)
Definition dotenv_line (out : gmap string string) (line : string) : gmap string string :=
  let line := TrimSpace line in
  if bool_decide (line = "") || HasPrefix line "#" then out
  else
    let line := TrimPrefix line "export " in
    match Cut line "=" with
    | None => out
    | Some (key, val) =>
        let key := TrimSpace key in
        if bool_decide (key = "") then out else <[key := parseDotenvValue (TrimSpace val)]> out
    end.

(** [func parseDotenv(b []byte) map[string]string]. *)
Definition parseDotenv (b : string) : gmap string string := foldl dotenv_line ∅ (Split b newline).

(** * Command lines *)

Definition errSplit (msg : string) : error := EWrap msg [ESentinel ErrInvalid].

(** The two states of [splitArgs]' loop: outside quotes, and inside a kind of
    quotes; [cur] is the argument read so far, [None] when there is none. *)
Inductive quoting := Outside | Single | Double.

Definition add_byte (c : ascii) (cur : option string) : option string := Some (default "" cur ++ String c "").

(** [func splitArgs(s string) ([]string, error)]. *)
Fixpoint split_loop (q : quoting) (cur : option string) (s : string) : res (list string) :=
  match s with
  | EmptyString =>
      match q with
      | Outside => Ok (match cur with Some a => [a] | None => [] end)
      | Single => Err (errSplit "unterminated single quote")
      | Double => Err (errSplit "unterminated double quote")
      end
  | String c s =>
      match q with
      | Single =>
          if ascii_eqb c squote then split_loop Outside cur s else split_loop Single (add_byte c cur) s
      | Double =>
          if ascii_eqb c bslash then
            match s with
            | String d s' => split_loop Double (add_byte d cur) s'
            | EmptyString => split_loop Double (add_byte c cur) s
            end
          else if ascii_eqb c dquote then split_loop Outside cur s
          else split_loop Double (add_byte c cur) s
      | Outside =>
          if ascii_eqb c squote then split_loop Single (Some (default "" cur)) s
          else if ascii_eqb c dquote then split_loop Double (Some (default "" cur)) s
          else if ascii_eqb c bslash then
            match s with
            | String d s' => split_loop Outside (add_byte d cur) s'
            | EmptyString => Err (errSplit "trailing backslash")
            end
          else if ascii_eqb c " " || ascii_eqb c (byte_of 9) || ascii_eqb c newline || ascii_eqb c (byte_of 13) then
            match cur with
            | Some a => cons a <$> split_loop Outside None s
            | None => split_loop Outside None s
            end
          else split_loop Outside (add_byte c cur) s
      end
  end.

Definition splitArgs (s : string) : res (list string) := split_loop Outside None s.

(** * The providers *)

(** A file system error: what [errors.Is] of the two conditions says of it. *)
Inductive fs_error := NotExist | Permission (err : error) | OtherFS (err : error).

(** [func classifyFileErr(path string, err error) error]. *)
Definition classifyFileErr (e : fs_error) : error :=
  match e with
  | NotExist => ESentinel ErrNotFound
  | Permission err => EWrap "mamori: file" [ESentinel ErrPermissionDenied; err]
  | OtherFS err => EWrap "mamori: file" [err]
  end.

(** What [os.Stat] reports of a file. *)
Record file_info := MkInfo { fi_Size : Z; fi_ModTime : Z }.

(** How a command ends: its output, or a failure, with its standard error;
    [Denied] is a failure that is [fs.ErrPermission]. *)
Inductive run_result := Ran (stdout : string) | Denied (err : error) | Failed (err : error) (stderr : string).

Section providers.
Context {W : Type}.
Context (LookupEnv : string -> W -> option string).
Context (Stat : string -> W -> file_info + fs_error) (ReadFile : string -> W -> string + fs_error).
Context (Run : string -> list string -> W -> W * run_result).

(** [func (envProvider) Resolve(_, ref)]. *)
Definition env_Resolve (ref : Ref) (w : W) : W * res Value :=
  (w, match LookupEnv (ref_Path ref) w with
      | None => Err (ESentinel ErrNotFound)
      | Some v => Ok (MkValue v (VersionHash v) false 0 ∅)
      end).

(** The version of a file: its size and modification time. *)
Definition file_version (info : file_info) : string :=
  FormatInt (fi_Size info) ++ "-" ++ FormatInt (fi_ModTime info).

(** [func (fileProvider) Resolve(_, ref)]. *)
Definition file_Resolve (ref : Ref) (w : W) : W * res Value :=
  (w, match Stat (ref_Path ref) w with
      | inr e => Err (classifyFileErr e)
      | inl info =>
          match ReadFile (ref_Path ref) w with
          | inr e => Err (classifyFileErr e)
          | inl b => Ok (MkValue b (file_version info) false 0 ∅)
          end
      end).

(** [func (dotenvProvider) Resolve(_, ref)]. *)
Definition dotenv_Resolve (ref : Ref) (w : W) : W * res Value :=
  (w, match Stat (ref_Path ref) w with
      | inr e => Err (classifyFileErr e)
      | inl info =>
          match ReadFile (ref_Path ref) w with
          | inr e => Err (classifyFileErr e)
          | inl b =>
              if bool_decide (ref_Key ref = "") then Ok (MkValue b (file_version info) false 0 ∅)
              else
                match parseDotenv b !! ref_Key ref with
                | None => Err (EWrap "mamori: dotenv: key not present" [ESentinel ErrNotFound])
                | Some v => Ok (MkValue v (file_version info) false 0 ∅)
                end
          end
      end).

(** [func (execProvider) Resolve(ctx, ref)]. *)
Definition exec_Resolve (ref : Ref) (w : W) : W * res Value :=
  match splitArgs (ref_Path ref) with
  | Err err => (w, Err (EWrap "mamori: exec" [err]))
  | Ok [] => (w, Err (EWrap "mamori: exec: empty command" [ESentinel ErrInvalid]))
  | Ok (cmd :: args) =>
      let '(w, out) := Run cmd args w in
      (w, match out with
          | Ran b => Ok (MkValue b (VersionHash b) true 0 ∅)
          | Denied err => Err (EWrap "mamori: exec" [ESentinel ErrPermissionDenied; err])
          | Failed err stderr => Err (EWrap stderr [err])
          end)
  end.

Definition envProvider : Provider W := MkProvider "env" env_Resolve None false.
Definition fileProvider : Provider W := MkProvider "file" file_Resolve None true.
Definition dotenvProvider : Provider W := MkProvider "dotenv" dotenv_Resolve None true.
Definition execProvider : Provider W := MkProvider "exec" exec_Resolve None false.
End providers.

(** * Writing what the parsers read *)

(** A shell-style single-quoted word: a quote inside is closed, escaped, and
    opened again. *)
Fixpoint quote_body (s : string) : string :=
  match s with
  | EmptyString => ""
  | String c s =>
      if ascii_eqb c squote then
        String squote (String bslash (String squote (String squote (quote_body s))))
      else String c (quote_body s)
  end.

Definition quote_arg (s : string) : string := String squote (quote_body s ++ String squote "").

(** A double-quoted dotenv value. *)
Fixpoint dotenv_escape (s : string) : string :=
  match s with
  | EmptyString => ""
  | String c s =>
      if ascii_eqb c newline then String bslash (String "n" (dotenv_escape s))
      else if ascii_eqb c dquote then String bslash (String dquote (dotenv_escape s))
      else if ascii_eqb c bslash then String bslash (String bslash (dotenv_escape s))
      else String c (dotenv_escape s)
  end.

Definition dotenv_quote (v : string) : string := String dquote (dotenv_escape v ++ String dquote "").

Definition dotenv_entry (kv : string * string) : string := "export " ++ kv.1 ++ "=" ++ dotenv_quote kv.2.

Definition dotenv_file (kvs : list (string * string)) : string := Join (map dotenv_entry kvs) (String newline "").

(** * Commands *)

Lemma split_quoted cur s rest :
  split_loop Single cur (quote_body s ++ String squote rest) =
  split_loop Outside (match s with EmptyString => cur | _ => Some (default "" cur ++ s) end) rest.
Proof.
  revert cur. induction s as [|c s IH]; intros cur.
  - change (quote_body "" ++ String squote rest) with (String squote rest). cbn [split_loop].
    by rewrite ascii_eqb_refl.
  - cbn [quote_body]. destruct (ascii_eqb c squote) eqn:Ec.
    + apply ascii_eqb_true in Ec as ->. rewrite !str_app_cons. cbn [split_loop].
      rewrite !ascii_eqb_refl. change (ascii_eqb bslash squote) with false. change (ascii_eqb bslash dquote) with false.
      cbv iota. rewrite IH. f_equal. unfold add_byte. destruct s; simpl; [done|].
      f_equal. by rewrite <- str_app_assoc.
    + rewrite str_app_cons. cbn [split_loop]. rewrite Ec, IH. f_equal. unfold add_byte.
      destruct s; simpl; [done|]. f_equal. by rewrite <- str_app_assoc.
Qed.

Lemma split_quote_arg a rest : split_loop Outside None (quote_arg a ++ rest) = split_loop Outside (Some a) rest.
Proof.
  unfold quote_arg. rewrite str_app_cons. cbn [split_loop]. rewrite ascii_eqb_refl. rewrite <- str_app_assoc.
  change (String squote "" ++ rest) with (String squote rest). rewrite split_quoted. by destruct a.
Qed.

(** * Dotenv values *)

Lemma dotenv_unescape_escape v : dotenv_unescape (dotenv_escape v) = v.
Proof.
  induction v as [|c v IH]; [done|]. cbn [dotenv_escape].
  destruct (ascii_eqb c newline) eqn:E1; [apply ascii_eqb_true in E1 as ->; cbn; by rewrite IH|].
  destruct (ascii_eqb c dquote) eqn:E2; [apply ascii_eqb_true in E2 as ->; cbn; by rewrite IH|].
  destruct (ascii_eqb c bslash) eqn:E3; [apply ascii_eqb_true in E3 as ->; cbn; by rewrite IH|].
  cbn [dotenv_unescape]. by rewrite E3, IH.
Qed.

Lemma last_byte_snoc s c : last_byte (s ++ String c "") = Some c.
Proof. unfold last_byte. rewrite str_rev_app. done. Qed.

Lemma inner_text_quoted q s : inner_text (String q (s ++ String q "")) = s.
Proof.
  unfold inner_text. cbn [str_drop String.length]. rewrite str_length_app. simpl. rewrite Nat.add_1_r. simpl.
  rewrite Nat.sub_0_r. induction s as [|c s IH]; [done|]. rewrite str_app_cons. simpl. by rewrite IH.
Qed.

Lemma quoted_by_quoted q s : quoted_by q (String q (s ++ String q "")) = true.
Proof.
  unfold quoted_by. rewrite ascii_eqb_refl. rewrite <- str_app_cons, last_byte_snoc, bool_decide_eq_true_2 by done.
  rewrite str_app_cons. cbn [String.length]. rewrite str_length_app. simpl. rewrite Nat.add_1_r. done.
Qed.

Lemma parseDotenvValue_quote v : parseDotenvValue (dotenv_quote v) = v.
Proof.
  unfold parseDotenvValue, dotenv_quote.
  assert (Hs : quoted_by squote (String dquote (dotenv_escape v ++ String dquote "")) = false).
  { unfold quoted_by. change (ascii_eqb dquote squote) with false. by rewrite andb_false_r. }
  rewrite Hs, quoted_by_quoted, inner_text_quoted. apply dotenv_unescape_escape.
Qed.

(** * Dotenv lines *)

Lemma rspace_width_dquote rest : rspace_width (String dquote rest) = 0%nat.
Proof.
  destruct rest as [|b [|c rest]]; [done|by destruct b as [[] [] [] [] [] [] [] []]|].
  assert (H : all_bytes (fun b => all_bytes (fun c => (rspace_width (String dquote (String b (String c ""))) =? 0)%nat)) = true)
    by (vm_compute; reflexivity).
  pose proof (all_bytes_spec _ (all_bytes_spec _ H b) c) as Hc. simpl in Hc. by apply Nat.eqb_eq in Hc.
Qed.

Lemma quoted_untrimmed c s : space_width (String c (s ++ String dquote "")) = 0%nat ->
  untrimmed (String c (s ++ String dquote "")).
Proof.
  intros Hc. split; [done|]. rewrite <- str_app_cons, str_rev_app.
  change (str_rev (String dquote "")) with (String dquote ""). rewrite str_app_cons. apply rspace_width_dquote.
Qed.

Lemma dotenv_escape_no_newline v : has_byte newline (dotenv_escape v) = false.
Proof.
  induction v as [|c v IH]; [done|]. cbn [dotenv_escape].
  destruct (ascii_eqb c newline) eqn:E1; [by cbn; rewrite IH|].
  destruct (ascii_eqb c dquote) eqn:E2; [by cbn; rewrite IH|].
  destruct (ascii_eqb c bslash) eqn:E3; [by cbn; rewrite IH|]. cbn [has_byte]. by rewrite E1, IH.
Qed.

(** The names a dotenv file can hold. *)
Definition dotenv_name (key : string) : Prop :=
  key <> "" /\ TrimSpace key = key /\ has_byte "=" key = false /\ has_byte newline key = false.

Lemma dotenv_entry_no_newline kv : dotenv_name kv.1 -> has_byte newline (dotenv_entry kv) = false.
Proof.
  intros (_ & _ & _ & Hn). unfold dotenv_entry, dotenv_quote. rewrite !has_byte_app, Hn. cbn [has_byte].
  rewrite has_byte_app, dotenv_escape_no_newline. done.
Qed.

Lemma dotenv_line_entry out kv : dotenv_name kv.1 -> dotenv_line out (dotenv_entry kv) = <[kv.1 := kv.2]> out.
Proof.
  destruct kv as [key v]. intros (Hne & Htrim & Heq & _). simpl in *. unfold dotenv_line, dotenv_entry. cbn [fst snd].
  assert (Hline : TrimSpace ("export " ++ key ++ "=" ++ dotenv_quote v) = "export " ++ key ++ "=" ++ dotenv_quote v).
  { apply TrimSpace_untrimmed. unfold dotenv_quote.
    replace ("export " ++ key ++ "=" ++ String dquote (dotenv_escape v ++ String dquote ""))
      with (String "e" (("xport " ++ key ++ "=" ++ String dquote (dotenv_escape v)) ++ String dquote "")).
    - by apply quoted_untrimmed.
    - repeat (rewrite <- str_app_assoc || rewrite str_app_cons). done. }
  rewrite Hline. rewrite bool_decide_eq_false_2 by done.
  change (HasPrefix ("export " ++ key ++ "=" ++ dotenv_quote v) "#") with false. cbn [orb].
  rewrite TrimPrefix_app. change ("=" ++ dotenv_quote v) with (String "=" (dotenv_quote v)).
  rewrite Cut_app by done. rewrite Htrim, bool_decide_eq_false_2 by done. f_equal.
  rewrite TrimSpace_untrimmed; [apply parseDotenvValue_quote|]. by apply quoted_untrimmed.
Qed.

Lemma dotenv_lines kvs out : Forall (fun kv => dotenv_name kv.1) kvs ->
  foldl dotenv_line out (map dotenv_entry kvs) = foldl (fun m kv => <[kv.1 := kv.2]> m) out kvs.
Proof.
  intros H. revert out. induction H as [|kv kvs Hkv _ IH]; intros out; simpl; [done|].
  by rewrite dotenv_line_entry.
Qed.

(** * Properties *)

(** Commands and dotenv files say what was written. Any argument vector,
    whatever its bytes, is what [splitArgs] returns for its shell-quoted text, and
    what it refuses it refuses as invalid; any list of variables, whatever their
    values, is what [parseDotenv] returns for the file that quotes them, the last
    line winning. *)
Theorem parsers_invert_quoting args kvs line e :
  Forall (fun kv => dotenv_name kv.1) kvs ->
  splitArgs (Join (map quote_arg args) " ") = Ok args /\
  (splitArgs line = Err e -> ErrorKind (Some e) = KindInvalid) /\
  parseDotenv (dotenv_file kvs) = foldl (fun m kv => <[kv.1 := kv.2]> m) ∅ kvs.
Proof.
  intros Hk. split_and!.
  - unfold splitArgs. induction args as [|a args IH]; [done|]. destruct args as [|b args].
    + change (Join (map quote_arg [a]) " ") with (quote_arg a). rewrite <- (str_app_nil_r (quote_arg a)).
      by rewrite split_quote_arg.
    + change (Join (map quote_arg (a :: b :: args)) " ")
        with (quote_arg a ++ String " " (Join (map quote_arg (b :: args)) " ")).
      rewrite split_quote_arg. cbn [split_loop]. change (ascii_eqb " " squote) with false.
      change (ascii_eqb " " dquote) with false. change (ascii_eqb " " bslash) with false. cbv iota. by rewrite IH.
  - unfold splitArgs. generalize Outside as q, (@None string) as cur. intros q cur. revert q cur e.
    assert (Hs : forall n line q cur e, (String.length line <= n)%nat -> split_loop q cur line = Err e ->
      ErrorKind (Some e) = KindInvalid).
    { induction n as [|n IH]; intros [|c s] q cur e Hn Hs; simpl in Hn; try lia.
      1,2: destruct q; [done|by injection Hs as <-..].
      cbn [split_loop] in Hs. destruct q.
      - repeat (case_match; try (eapply IH; [|exact Hs]; simpl in *; lia); try (by injection Hs as <-)).
        destruct (split_loop Outside None s) eqn:E; [done|]. injection Hs as <-. eapply IH; [|exact E]. lia.
      - case_match; (eapply IH; [|exact Hs]; lia).
      - repeat (case_match; try (eapply IH; [|exact Hs]; simpl in *; lia)). }
    intros q cur e. by apply (Hs (String.length line)).
  - unfold parseDotenv, dotenv_file. destruct kvs as [|kv kvs]; [by vm_compute|].
    rewrite Split_Join; [by apply dotenv_lines|done|].
    apply Forall_map. eapply Forall_impl; [exact Hk|]. intros kv' Hkv'. by apply dotenv_entry_no_newline.
Qed.

Lemma parsers_invert_quoting_witness :
  splitArgs (Join (map quote_arg ["sh"; "-c"; "echo 'hi'"; ""]) " ") = Ok ["sh"; "-c"; "echo 'hi'"; ""] /\
  ErrorKind (Some (errSplit "unterminated single quote")) = KindInvalid /\
  parseDotenv (dotenv_file [("API_KEY", String newline "#x"); ("B", " x")]) =
    <["B" := " x"]> (<["API_KEY" := String newline "#x"]> ∅).
Proof.
  destruct (parsers_invert_quoting ["sh"; "-c"; "echo 'hi'"; ""] [("API_KEY", String newline "#x"); ("B", " x")]
    "echo 'hi" (errSplit "unterminated single quote")) as (H1 & H2 & H3).
  - repeat constructor; by vm_compute.
  - split; [exact H1|]. split; [apply H2; by vm_compute|exact H3].
Defined.
