(* ===== verification/FileWatch.v ===== *)
(** Watching a file (src/builtin_file.go, [watchFilePath], shared by the file and
    dotenv providers) and the choice of a source (src/watchref.go): the loop over
    the events of fsnotify, which is the environment, with its debounce timer. *)

From S2P Require Import Prelude Errors GoStrings Ref Provider GoNumbers SSE.
Open Scope string_scope.
Open Scope Z_scope.

(** * filepath.Clean *)

(** The loop of [filepath.Clean] over the elements of a path, innermost first. *)
Definition clean_step (rooted : bool) (out : list string) (elem : string) : list string :=
  if bool_decide (elem = "") || bool_decide (elem = ".") then out
  else if bool_decide (elem = "..") then
    match out with
    | [] => if rooted then [] else [elem]
    | top :: rest => if bool_decide (top = "..") then elem :: out else rest
    end
  else elem :: out.

(** [filepath.Clean] on Unix. *)
Definition Clean (path : string) : string :=
  let rooted := HasPrefix path "/" in
  let out := Join (rev (foldl (clean_step rooted) [] (Split path "/"))) "/" in
  if rooted then "/" ++ out else if bool_decide (out = "") then "." else out.

(** * The loop *)

Definition watchDebounce : Z := 20 * Millisecond.

(** What the select of the loop receives: an event for a name, at a time; the
    debounce timer; an error of the watcher. *)
Inductive fs_event := FsEvent (name : string) (at_ : Z) | FsTimer | FsError (err : error).

Section watch.
Context {W : Type} `{Env W}.

(** [resolve], which reads the file in the world as it is. *)
Context (target : string) (resolve : W -> res Value).

Definition file_update (w : W) : Update :=
  match resolve w with Ok v => MkUpdate v None | Err err => MkUpdate zero_Value (Some err) end.

(** One turn of the loop: the deadline of [debounce], [None] when the channel is
    nil, and the update the turn sends. *)
Definition fs_step (debounce : option Z) (ev : fs_event) (w : W) : option (option Z * option Update) :=
  match ev with
  | FsEvent name t => Some (if bool_decide (Clean name = target) then Some (t + watchDebounce) else debounce, None)
  | FsTimer =>
      match debounce with
      | Some d => if d <=? now w then Some (None, Some (file_update w)) else None
      | None => None
      end
  | FsError err => Some (debounce, Some (MkUpdate zero_Value (Some err)))
  end.

(** A run of the goroutine of [watchFilePath] in a changing world: the world, its
    pending deadline, the time of the last event for the target, the reads so far,
    latest first, each with the world it was made in, and whether the file has
    changed since fsnotify last reported it. *)
Inductive file_watched : W -> option Z -> option Z -> list (W * res Value) -> bool -> Prop :=
  | wd_start w : file_watched w None None [(w, resolve w)] false
  | wd_world w w' debounce last reads owed owed' :
      file_watched w debounce last reads owed -> now w <= now w' ->
      (owed' = false -> owed = false /\ resolve w' = resolve w) -> file_watched w' debounce last reads owed'
  | wd_event w name debounce last reads owed debounce' up last' owed' :
      file_watched w debounce last reads owed -> fs_step debounce (FsEvent name (now w)) w = Some (debounce', up) ->
      (last', owed') = (if bool_decide (Clean name = target) then (Some (now w), false) else (last, owed)) ->
      file_watched w debounce' last' reads owed'
  | wd_error w err debounce last reads owed debounce' up :
      file_watched w debounce last reads owed -> fs_step debounce (FsError err) w = Some (debounce', up) ->
      file_watched w debounce' last reads owed
  | wd_timer w debounce last reads owed debounce' up :
      file_watched w debounce last reads owed -> fs_step debounce FsTimer w = Some (debounce', Some up) ->
      file_watched w debounce' last ((w, resolve w) :: reads) owed.
End watch.

(** [func watchFilePath(ctx, path, resolve)]: it fails when fsnotify has no
    watcher or cannot watch the directory, and otherwise starts with a read. *)
Definition watchFilePath {W} (newWatcher addDir : option error) (path : string) (resolve : W -> res Value) (w : W)
    : res (string * Update) :=
  match newWatcher with
  | Some err => Err err
  | None => match addDir with Some err => Err err | None => Ok (Clean path, file_update resolve w) end
  end.

(** [func watchRef(ctx, p, ref, o)]: the native watch [native] when the provider
    has one that starts, the poll loop otherwise. *)
Definition watchRef {W S} (p : Provider W) (native : res S) (poll : S) : S :=
  if prov_Watchable p then match native with Err _ => poll | Ok ch => ch end else poll.

(** * Facts *)

Section facts.
Context {W : Type} `{Env W} (target : string) (resolve : W -> res Value).

Lemma watched_inv w debounce last reads owed :
  file_watched target resolve w debounce last reads owed ->
  (debounce = None \/ exists t, last = Some t /\ debounce = Some (t + watchDebounce) /\ t <= now w) /\
  (owed = false -> debounce = None -> exists w0 rest, reads = (w0, resolve w) :: rest) /\
  Forall (fun read => read.2 = resolve read.1) reads /\ reads <> [].
Proof.
  induction 1 as [w|w w' d l rs o o' _ (Hd & Hc & Hr & Hn) Hle Ho|w name d l rs o d' up l' o' _ (Hd & Hc & Hr & Hn) Hs El
                 |w err d l rs o d' up _ IH Hs|w d l rs o d' up _ (Hd & Hc & Hr & Hn) Hs].
  - split_and!; [by left|by eauto|by repeat constructor|done].
  - split_and!; [|intros [Hf Hb]%Ho Hnone; rewrite Hb; by apply Hc|done|done].
    destruct Hd as [->|(t & -> & -> & ?)]; [by left|]. right. exists t. split_and!; [done|done|lia].
  - unfold fs_step in Hs. injection Hs as <- <-. case_bool_decide; injection El as -> ->; [|done].
    split_and!; [|by intros _ ?|done|done]. right. exists (now w). split_and!; [done|done|lia].
  - unfold fs_step in Hs. by injection Hs as <- <-.
  - unfold fs_step in Hs. destruct d as [d|]; [|done]. destruct (d <=? now w); [|done]. injection Hs as <- <-.
    split_and!; [by left|by eauto|by constructor|done].
Qed.
End facts.

(** * Properties *)

(** A watched file is current. Once every change of the file has been
    reported and no timer is pending, the last read of the watch is what a read
    gives now, whatever the order of events, errors and changes; a pending timer
    is due within the debounce of the last event for the file, and never fires
    before it, so that a burst of writes closer than the debounce is read once,
    after its end. *)
Theorem watched_file_is_current {W} `{Env W} target (resolve : W -> res Value) w debounce last reads owed :
  file_watched target resolve w debounce last reads owed ->
  (owed = false -> debounce = None -> exists w0 rest, reads = (w0, resolve w) :: rest) /\
  match debounce with
  | None => fs_step target resolve debounce FsTimer w = None
  | Some d =>
      exists t, last = Some t /\ d = t + watchDebounce /\
      (forall w', t + watchDebounce <= now w' -> fs_step target resolve debounce FsTimer w' = Some (None, Some (file_update resolve w'))) /\
      (forall w', now w' < t + watchDebounce -> fs_step target resolve debounce FsTimer w' = None)
  end.
Proof.
  intros Hw. destruct (watched_inv _ _ _ _ _ _ _ Hw) as (Hd & Hc & _). split; [done|].
  destruct Hd as [->|(t & -> & -> & _)]; [done|]. exists t. split_and!; [done|done|..]; intros w' Hw'; simpl.
  - by rewrite (proj2 (Z.leb_le _ _)).
  - by rewrite (proj2 (Z.leb_gt _ _)).
Qed.

(** * Instances *)

(** A world that is a clock and the contents of one file. *)
#[local] Instance file_env : Env (Z * string) := { now := fst; observe := fun _ w => w; now_observe := fun _ _ => eq_refl }.

Definition read_file (w : Z * string) : res Value := Ok (MkValue w.2 "" false 0 ∅).

Example Clean_mount : Clean "/etc/app/../secrets//./db/" = "/etc/secrets/db".
Proof. by vm_compute. Qed.

Lemma watched_file_is_current_witness :
  exists w0 rest, [((20000006, "new"), read_file (20000006, "new")); ((0, "old"), read_file (0, "old"))] =
    (w0, read_file (20000006, "new")) :: rest.
Proof.
  refine (proj1 (watched_file_is_current "/s/db" read_file (20000006, "new") None (Some 6) _ false _) eq_refl eq_refl).
  eapply (wd_timer _ _ _ (Some 20000006)); [|by vm_compute].
  apply (wd_world _ _ (6, "new") _ _ _ _ false); [|by vm_compute|done].
  apply (wd_event _ _ (6, "new") "/s/./db" None None _ true _ None); [|by vm_compute|by vm_compute].
  apply (wd_world _ _ (0, "old") _ _ _ _ false); [apply wd_start|by vm_compute|done].
Defined.
