(* ===== verification/LongPoll.v ===== *)
(** The long-poll loop (src/providers/httpcore/longpoll.go): held-open rounds, each
    bounded by a deadline past the hold the backend was asked for, whose outcomes
    all reach the watcher, with a floor between a failure and the next round. *)

From S2P Require Import Prelude Errors GoStrings Ref Provider GoNumbers SSE.
Open Scope string_scope.
Open Scope Z_scope.

(** * The loop *)

Definition DefaultLongPollHold : Z := 30 * Second.
Definition DefaultLongPollGrace : Z := 10 * Second.
Definition DefaultLongPollErrorPause : Z := 500 * Millisecond.

(** [type LongPollResult struct]. *)
Record LongPollResult := MkLongPoll { lr_Changed : bool; lr_Value : Value }.

(** [type LongPollConfig struct]: which hooks there are, and the durations. *)
Record LongPollConfig := MkLongPollConfig {
  lc_Round : bool;
  lc_Baseline : bool;
  lc_Hold : Z;
  lc_Grace : Z;
  lc_ErrorPause : Z;
}.

(** When the context of the watch ends in a turn, if it does: before the outcome
    is delivered, while the channel is full, or afterwards (in the pause, or at
    the check before the next round). *)
Inductive ending := BeforeDelivery | WhileEmitting | Afterwards.

#[export] Instance ending_eq_dec : EqDecision ending.
Proof. solve_decision. Defined.

(** One turn as the environment plays it. *)
Record lp_turn := MkLpTurn { lt_outcome : res LongPollResult; lt_end : option ending }.

(** What the goroutine does: a request with its client-side timeout and the hold
    it asks for (none for the baseline), an update sent, a pause. *)
Inductive lp_action := Asked (timeout : Z) (hold : option Z) | Emitted (u : Update) | Paused (d : Z).

(** The closure [deliver]: what it does, and whether the loop may continue. *)
Definition deliver_turn (pause : Z) (t : lp_turn) : list lp_action * bool :=
  let goes_on := bool_decide (lt_end t = None) in
  if bool_decide (lt_end t = Some BeforeDelivery) then ([], false)
  else
    match lt_outcome t with
    | Err err =>
        if bool_decide (lt_end t = Some WhileEmitting) then ([], false)
        else (Emitted (MkUpdate zero_Value (Some err)) :: (if goes_on then [Paused pause] else []), goes_on)
    | Ok r =>
        if negb (lr_Changed r) then ([], goes_on)
        else if bool_decide (lt_end t = Some WhileEmitting) then ([], false)
        else ([Emitted (MkUpdate (lr_Value r) None)], goes_on)
    end.

(** The loop over rounds; the flag tells whether the goroutine is still running
    after the turns the environment played. *)
Fixpoint lp_loop (hold grace pause : Z) (turns : list lp_turn) : list lp_action * bool :=
  match turns with
  | [] => ([], true)
  | t :: turns =>
      let '(acts, goes_on) := deliver_turn pause t in
      let asked := Asked (wrap_int 64 (hold + grace)) (Some hold) in
      if goes_on then
        let '(rest, running) := lp_loop hold grace pause turns in
        ((asked :: acts) ++ rest, running)%list
      else (asked :: acts, false)
  end.

Definition or_default (d dflt : Z) : Z := if d <=? 0 then dflt else d.

(** [func LongPoll(ctx, cfg)]; [first] is the turn of the baseline. *)
Definition LongPoll (cfg : LongPollConfig) (first : lp_turn) (turns : list lp_turn) : res (list lp_action * bool) :=
  if negb (lc_Round cfg) then Err (EWrap "httpcore: LongPollConfig.Round is required" [ESentinel ErrInvalid])
  else
    let hold := or_default (lc_Hold cfg) DefaultLongPollHold in
    let grace := or_default (lc_Grace cfg) DefaultLongPollGrace in
    let pause := or_default (lc_ErrorPause cfg) DefaultLongPollErrorPause in
    if lc_Baseline cfg then
      let '(acts, goes_on) := deliver_turn pause first in
      if goes_on then
        let '(rest, running) := lp_loop hold grace pause turns in
        Ok ((Asked grace None :: acts) ++ rest, running)%list
      else Ok (Asked grace None :: acts, false)
    else Ok (lp_loop hold grace pause turns).

(** * What a watcher of it sees *)

Lemma or_default_pos d dflt : 0 < dflt -> 0 < or_default d dflt.
Proof. unfold or_default. destruct (Z.leb_spec d 0); lia. Qed.

Definition emitted (a : lp_action) : option Update := match a with Emitted u => Some u | _ => None end.
Definition asked (a : lp_action) : bool := match a with Asked _ _ => true | _ => false end.
Definition paused_for (a : lp_action) : Z := match a with Paused d => d | _ => 0 end.
Definition is_failure (u : Update) : bool := match up_Err u with Some _ => true | None => false end.

(** The update an outcome stands for. *)
Definition outcome_update (t : lp_turn) : option Update :=
  match lt_outcome t with
  | Err err => Some (MkUpdate zero_Value (Some err))
  | Ok r => if lr_Changed r then Some (MkUpdate (lr_Value r) None) else None
  end.

Definition total_pause (acts : list lp_action) : Z := foldr (fun a d => paused_for a + d) 0 acts.

(** The turns that are played: up to the one in which the context ends. *)
Fixpoint played (turns : list lp_turn) : list lp_turn :=
  match turns with
  | [] => []
  | t :: turns => if bool_decide (lt_end t = None) then t :: played turns else [t]
  end.

(** The outcomes that are delivered: all the played ones, but for the last when
    the context ends before its update is taken. *)
Definition reported (t : lp_turn) : option Update :=
  if bool_decide (lt_end t = Some BeforeDelivery) || bool_decide (lt_end t = Some WhileEmitting) then None
  else outcome_update t.

Lemma total_pause_app a b : total_pause (a ++ b) = total_pause a + total_pause b.
Proof. unfold total_pause. induction a as [|x a IH]; simpl; lia. Qed.

Lemma deliver_spec pause t acts goes_on : 0 <= pause -> deliver_turn pause t = (acts, goes_on) ->
  goes_on = bool_decide (lt_end t = None) /\ omap emitted acts = option_list (reported t) /\
  filter (fun a => asked a = true) acts = [] /\
  total_pause acts = (if goes_on then pause * Z.of_nat (length (filter (fun u => is_failure u = true) (option_list (reported t)))) else 0).
Proof.
  intros Hp. unfold deliver_turn, reported, outcome_update. generalize zero_Value. intros zv. unfold total_pause.
  destruct t as [[[[] v]|err] [[]|]]; intros [= <- <-];
    (split; [reflexivity|]; split; [reflexivity|]; split; [reflexivity|]; simpl; lia).
Qed.

(** What the actions of a loop owe to the turns played. *)
Definition accounts (pause : Z) (turns : list lp_turn) (acts : list lp_action) (running : bool) : Prop :=
  running = forallb (fun t => bool_decide (lt_end t = None)) turns /\
  omap emitted acts = omap reported (played turns) /\
  length (filter (fun a => asked a = true) acts) = length (played turns) /\
  pause * (Z.of_nat (length (filter (fun u => is_failure u = true) (omap emitted acts))) - 1) <= total_pause acts.

Lemma accounts_cons pause t turns timeout hold acts goes_on rest running :
  0 <= pause -> deliver_turn pause t = (acts, goes_on) ->
  (if goes_on then accounts pause turns rest running else rest = [] /\ running = false) ->
  accounts pause (t :: turns) ((Asked timeout hold :: acts) ++ rest)%list running.
Proof.
  intros Hp Ed. destruct (deliver_spec _ _ _ _ Hp Ed) as (Hg & He & Ha & Ht). unfold accounts.
  change (omap emitted ((Asked timeout hold :: acts) ++ rest)%list) with (omap emitted (acts ++ rest)%list).
  change (total_pause ((Asked timeout hold :: acts) ++ rest)%list) with (total_pause (acts ++ rest)%list).
  change (filter (fun a => asked a = true) ((Asked timeout hold :: acts) ++ rest)%list)
    with (Asked timeout hold :: filter (fun a => asked a = true) (acts ++ rest)%list).
  rewrite omap_app, filter_app, Ha, total_pause_app, Ht, He. cbn [forallb played]. rewrite <- Hg. destruct goes_on.
  - intros (Hr & He' & Ha' & Ht'). split_and!; [done| | |].
    + rewrite He'. cbn. by destruct (reported t).
    + simpl. by rewrite Ha'.
    + rewrite filter_app, length_app. lia.
  - intros [-> ->]. split_and!; [done| |done|].
    + cbn. by destruct (reported t).
    + rewrite app_nil_r. assert (Hn : (length (filter (fun u => is_failure u = true) (option_list (reported t))) <= 1)%nat).
      { destruct (reported t) as [u|]; [|simpl; lia]. change (option_list (Some u)) with [u]. apply (length_filter _ [u]). }
      change (total_pause []) with 0. nia.
Qed.

Lemma lp_loop_spec hold grace pause turns acts running : 0 <= pause ->
  lp_loop hold grace pause turns = (acts, running) -> accounts pause turns acts running.
Proof.
  intros Hp. revert acts running. induction turns as [|t turns IH]; intros acts running; simpl.
  { intros [= <- <-]. split_and!; try done. cbn. unfold total_pause. cbn. lia. }
  destruct (deliver_turn pause t) as [acts1 goes_on] eqn:Ed. destruct goes_on.
  - destruct (lp_loop hold grace pause turns) as [rest run] eqn:El. intros [= <- <-].
    eapply accounts_cons; [done|exact Ed|by apply IH].
  - intros [= <- <-]. rewrite <- (app_nil_r (_ :: acts1)). by eapply accounts_cons.
Qed.

(** A round that fails and a round that recovers with nothing to report: the watcher is
    told of the failure and of nothing after it. *)
Lemma recovery_is_silent hold grace pause err v :
  omap emitted (lp_loop hold grace pause [MkLpTurn (Err err) None; MkLpTurn (Ok (MkLongPoll false v)) None]).1
  = [MkUpdate zero_Value (Some err)].
Proof. done. Qed.

(** The deadlines of the rounds. *)
Definition round_ok (hold timeout : Z) (a : lp_action) : Prop :=
  match a with Asked t (Some h) => h = hold /\ t = timeout | _ => True end.

Lemma deliver_round_ok hold timeout pause t acts goes_on : deliver_turn pause t = (acts, goes_on) -> Forall (round_ok hold timeout) acts.
Proof. unfold deliver_turn. destruct t as [[[[] v]|err] [[]|]]; intros [= <- <-]; repeat constructor. Qed.

Lemma lp_loop_round_ok hold grace pause turns acts running : lp_loop hold grace pause turns = (acts, running) ->
  Forall (round_ok hold (wrap_int 64 (hold + grace))) acts.
Proof.
  revert acts running. induction turns as [|t turns IH]; intros acts running; simpl; [by intros [= <- <-]|].
  destruct (deliver_turn pause t) as [acts1 goes_on] eqn:Ed. apply (deliver_round_ok hold (wrap_int 64 (hold + grace))) in Ed.
  destruct goes_on; [destruct (lp_loop hold grace pause turns) as [rest run]|]; intros [= <- <-]; constructor; try done.
  apply Forall_app. split; [done|by eapply IH].
Qed.

(** * Properties *)

(** A long poll reports everything and spins on nothing. The updates sent
    are the outcomes of the rounds played, in order - a failure, a changed value,
    nothing for an idle round - except the one whose delivery the context's end
    prevents; each round gives the backend the configured hold and the client
    strictly more; and the time paused grows with the failures sent, so a backend
    that fails at once is asked no more than once per pause. *)
Theorem LongPoll_reports_every_round cfg first turns acts running :
  or_default (lc_Hold cfg) DefaultLongPollHold + or_default (lc_Grace cfg) DefaultLongPollGrace < 2 ^ 63 ->
  LongPoll cfg first turns = Ok (acts, running) ->
  let all := (if lc_Baseline cfg then first :: turns else turns) in
  running = forallb (fun t => bool_decide (lt_end t = None)) all /\
  omap emitted acts = omap reported (played all) /\
  length (filter (fun a => asked a = true) acts) = length (played all) /\
  (forall timeout hold, Asked timeout (Some hold) ∈ acts -> 0 < hold < timeout) /\
  or_default (lc_ErrorPause cfg) DefaultLongPollErrorPause *
    (Z.of_nat (length (filter (fun u => is_failure u = true) (omap emitted acts))) - 1) <= total_pause acts.
Proof.
  intros Hsum. unfold LongPoll. destruct (lc_Round cfg); [|done]. cbn [negb].
  pose proof (or_default_pos (lc_Hold cfg) DefaultLongPollHold eq_refl) as Hhold.
  pose proof (or_default_pos (lc_Grace cfg) DefaultLongPollGrace eq_refl) as Hgrace.
  pose proof (or_default_pos (lc_ErrorPause cfg) DefaultLongPollErrorPause eq_refl) as Hpause.
  set (hold := or_default (lc_Hold cfg) _) in *. set (grace := or_default (lc_Grace cfg) _) in *.
  set (pause := or_default (lc_ErrorPause cfg) _) in *. clearbody hold grace pause. intros Hrun.
  set (all := if lc_Baseline cfg then first :: turns else turns).
  assert (Hboth : accounts pause all acts running /\ Forall (round_ok hold (wrap_int 64 (hold + grace))) acts).
  { subst all. destruct (lc_Baseline cfg).
    - destruct (deliver_turn pause first) as [acts1 goes_on] eqn:Ed.
      pose proof (deliver_round_ok hold (wrap_int 64 (hold + grace)) _ _ _ _ Ed) as Hok. destruct goes_on.
      + destruct (lp_loop hold grace pause turns) as [rest run] eqn:El. injection Hrun as <- <-. split.
        * eapply accounts_cons; [lia|exact Ed|]. eapply lp_loop_spec; [lia|exact El].
        * constructor; [done|]. apply Forall_app. split; [done|]. by eapply lp_loop_round_ok.
      + injection Hrun as <- <-. split; [|by constructor]. rewrite <- (app_nil_r (_ :: acts1)).
        eapply accounts_cons; [lia|exact Ed|done].
    - injection Hrun as El. split; [eapply lp_loop_spec; [lia|exact El]|by eapply lp_loop_round_ok]. }
  destruct Hboth as [(Hr & He & Ha & Ht) Hok].
  split; [exact Hr|]. split; [exact He|]. split; [exact Ha|]. split; [|exact Ht].
  intros timeout h Hin. rewrite Forall_forall in Hok. destruct (Hok _ Hin) as [-> ->].
  rewrite wrap_int_fits; [lia|done|]. unfold fits_int. change (2 ^ (64 - 1)) with (2 ^ 63).
  apply andb_true_iff. split; [apply Z.leb_le|apply Z.ltb_lt]; lia.
Qed.

(** * Instances *)

Definition idle_turn : lp_turn := MkLpTurn (Ok (MkLongPoll false zero_Value)) None.
Definition failed_turn : lp_turn := MkLpTurn (Err (ESentinel ErrUnavailable)) None.
Definition last_turn : lp_turn := MkLpTurn (Err (ESentinel CtxCanceled)) (Some BeforeDelivery).

Lemma LongPoll_reports_every_round_witness :
  exists acts, LongPoll (MkLongPollConfig true true 0 0 0) idle_turn [failed_turn; failed_turn; last_turn] = Ok (acts, false) /\
    length (omap emitted acts) = 2%nat /\ 500 * Millisecond <= total_pause acts.
Proof.
  destruct (LongPoll (MkLongPollConfig true true 0 0 0) idle_turn [failed_turn; failed_turn; last_turn])
    as [[acts running]|e] eqn:E; [|by vm_compute in E].
  destruct (LongPoll_reports_every_round (MkLongPollConfig true true 0 0 0) idle_turn [failed_turn; failed_turn; last_turn]
    acts running ltac:(vm_compute; reflexivity) E) as (Hr & He & _ & _ & Hp).
  exists acts. rewrite He in Hp. rewrite He. vm_compute in Hr. rewrite Hr. split; [reflexivity|]. split; [vm_compute; reflexivity|].
  etransitivity; [|exact Hp]. vm_compute. discriminate.
Defined.
