(* ===== verification/SourceTag.v ===== *)
(** The static reading of a config struct by the command line: the rules for
    source tags it repeats (src/cmd/mamori/internal/sourcetag, secretschemes.go),
    the walk of extract.go, the derived fields of derives.go, and how they agree
    with what the library does at run time ([Ref], [Fields]). *)

From S2P Require Import Prelude Errors GoStrings Ref Provider Decode GoNumbers Fields.
Open Scope string_scope.

(** * Source tags *)

(** [chainSchemeStart.MatchString(s)], the pattern [^[a-zA-Z][a-zA-Z0-9+.\-]*:]. *)
Definition chainSchemeStart (s : string) : bool :=
  match s with EmptyString => false | String c s => is_letter c && scheme_tail s end.

(** [func SplitChain(tag string) []string]. *)
Fixpoint SplitChain (tag : string) : list string :=
  match tag with
  | EmptyString => [""]
  | String c rest =>
      if ascii_eqb c "," && chainSchemeStart rest then "" :: SplitChain rest
      else match SplitChain rest with
           | [] => [String c ""]
           | p :: ps => String c p :: ps
           end
  end.

(** [func SchemeOf(ref string) (scheme string, ok bool)]. *)
Definition SchemeOf (ref : string) : option string :=
  match Cut (TrimSpace ref) ":" with
  | None => None
  | Some (s, _) => if bool_decide (s = "") then None else Some s
  end.

(** [strings.IndexAny(rest, "#?")] and the text before it. *)
Fixpoint before_opts (s : string) : string :=
  match s with
  | EmptyString => ""
  | String c s => if ascii_eqb c "#" || ascii_eqb c "?" then "" else String c (before_opts s)
  end.

(** [func refPath(ref string) string] (policy.go). *)
Definition refPath (ref : string) : string :=
  match SchemeOf ref with
  | None => ""
  | Some scheme => before_opts (TrimPrefix (TrimPrefix (TrimSpace ref) (scheme ++ ":")) "//")
  end.

(** [type SchemeSet map[string]struct{}]. *)
Definition SchemeSet := gset string.

Definition defaultSecretSchemes : list string :=
  [ "aws-sm"; "gcp-sm"; "azure-kv"; "vault"; "op"; "sops"; "doppler"; "infisical"; "hcp-vs"; "supabase"; "k8s-secret";
    "bitwarden-sm"; "heroku"; "aws-ps"; "exec"; "mamori" ].

(** [func (s SchemeSet) Add(schemes...)]. *)
Definition SchemeSet_Add (s : SchemeSet) (schemes : list string) : SchemeSet :=
  foldl (fun s scheme => if bool_decide (scheme = "") then s else s ∪ {[scheme]}) s schemes.

(** [func DefaultSecretSchemes() SchemeSet]. *)
Definition DefaultSecretSchemes : SchemeSet := SchemeSet_Add ∅ defaultSecretSchemes.

(** [schemeToken.MatchString]. *)
Fixpoint all_scheme_chars (s : string) : bool :=
  match s with EmptyString => true | String c s => scheme_char c && all_scheme_chars s end.
Definition schemeToken (s : string) : bool :=
  match s with EmptyString => false | String c s => is_letter c && all_scheme_chars s end.

(** The loop of [ParseSchemeList] over the comma-separated parts. *)
Fixpoint scheme_parts (parts : list string) : res (list string) :=
  match parts with
  | [] => Ok []
  | part :: parts =>
      let scheme := TrimSpace part in
      if bool_decide (scheme = "") then scheme_parts parts
      else if negb (schemeToken scheme) then Err (EOpaque "invalid scheme")
      else cons scheme <$> scheme_parts parts
  end.

(** [func ParseSchemeList(list string) ([]string, error)]. *)
Definition ParseSchemeList (l : string) : res (list string) := scheme_parts (Split l ",").

(** [func secretSchemeSet(cmd, list string)], with the set [Extract] uses for a
    nil one. *)
Definition secretSchemeSet (l : string) : res SchemeSet :=
  if bool_decide (l = "") then Ok DefaultSecretSchemes
  else (fun parsed => SchemeSet_Add DefaultSecretSchemes parsed) <$> ParseSchemeList l.

(** [func (s SchemeSet) FirstSensitiveScheme(tag string)]. *)
Definition FirstSensitiveScheme (s : SchemeSet) (tag : string) : option string :=
  foldr (fun part found =>
    match SchemeOf part with
    | Some candidate => if bool_decide (candidate ∈ s) then Some candidate else found
    | None => found
    end) None (SplitChain (TrimSpace tag)).

(** * Fields *)

(** [type FieldKind string]. *)
Inductive FieldKind := KindSource | KindDerived | KindValidate.
#[export] Instance FieldKind_eq_dec : EqDecision FieldKind.
Proof. solve_decision. Defined.

(** [type Field struct]. *)
Record Field := MkField {
  f_Path : string;
  f_Kind : FieldKind;
  f_GoType : string;
  f_Source : string;
  f_Refs : list string;
  f_Default : string;
  f_HasDefault : bool;
  f_Optional : bool;
  f_Sensitive : bool;
  f_OnFail : string;
  f_Validate : string;
}.
#[export] Instance Field_eq_dec : EqDecision Field.
Proof. solve_decision. Defined.

(** [type StructInfo struct]. *)
Record StructInfo := MkStructInfo {
  s_Package : string;
  s_TypeName : string;
  s_Fields : list Field;
  s_DerivesIncomplete : bool;
}.

Section walk.
(** [types.TypeString] with the short qualifier, and the secret-bearing schemes. *)
Context (TypeString : gtype -> string) (schemes : SchemeSet).

(** One field of the loop of [walkFields], with the recursive call. *)
Definition walk_static (walk : gtype -> string -> list Field) (prefix : string) (f : gfield) : list Field :=
  let '(name, exported, t, fty) := f in
  let path := dotted prefix name in
  let def := tag_Lookup t "default" in
  let hasDefault := bool_decide (is_Some def) in
  let optional := bool_decide (tag_Get t "optional" = "true") in
  let validate := tag_Get t "validate" in
  if negb exported then []
  else
    match tag_Lookup t "source" with
    | Some source =>
        [MkField path KindSource (TypeString fty) source (SplitChain source) (default "" def) hasDefault optional
           (is_secret fty || bool_decide (is_Some (FirstSensitiveScheme schemes source))) (tag_Get t "onfail") validate]
    | None =>
        if is_leaf_struct fty then walk fty path
        else if negb (bool_decide (validate = "")) then
          [MkField path KindValidate (TypeString fty) "" [] (default "" def) hasDefault optional (is_secret fty) "" validate]
        else []
    end.

(** [func walkFields(pkg, st, prefix, firstSensitive) []Field]. *)
Fixpoint walkFields (ty : gtype) (prefix : string) : list Field :=
  match ty with TStruct fs => flat_map (walk_static walkFields prefix) fs | _ => [] end.

(** * Derived fields *)

Definition as_derived (f : Field) : Field :=
  MkField (f_Path f) KindDerived (f_GoType f) (f_Source f) (f_Refs f) (f_Default f) (f_HasDefault f) (f_Optional f)
    (f_Sensitive f) (f_OnFail f) (f_Validate f).

(** The field [byPath] remembers for a path is the last one with it. *)
Fixpoint promote (walked : list Field) (p : string) : list Field :=
  match walked with
  | [] => []
  | f :: rest =>
      if bool_decide (f_Path f = p) && negb (bool_decide (p ∈ map f_Path rest)) && bool_decide (f_Kind f = KindValidate)
      then as_derived f :: rest
      else f :: promote rest p
  end.

(** [func fieldTypeByPath(t types.Type, path string)], on the segments of the path. *)
Fixpoint type_named (name : string) (fs : list gfield) : option gtype :=
  match fs with
  | [] => None
  | f :: fs => if bool_decide (f.1.1.1 = name) then Some f.2 else type_named name fs
  end.
Fixpoint fieldTypeByPath (ty : gtype) (segs : list string) : option gtype :=
  match segs with
  | [] => Some ty
  | seg :: segs => match ty with TStruct fs => type_named seg fs ≫= fun t => fieldTypeByPath t segs | _ => None end
  end.

(** The second loop of [derivedFields], with the paths seen so far. *)
Fixpoint derived_loop (ty : gtype) (seen : gset string) (paths : list string) : list Field :=
  match paths with
  | [] => []
  | p :: paths =>
      if bool_decide (p ∈ seen) then derived_loop ty seen paths
      else
        match fieldTypeByPath ty (Split p ".") with
        | None => derived_loop ty (seen ∪ {[p]}) paths
        | Some t =>
            MkField p KindDerived (TypeString t) "" [] "" false false (is_secret t) "" "" ::
              derived_loop ty (seen ∪ {[p]}) paths
        end
  end.

(** [func derivedFields(pkg, st, paths, walked) []Field]: the walked fields as it
    leaves them, and the ones it adds. *)
Definition derivedFields (ty : gtype) (paths : list string) (walked : list Field) : list Field * list Field :=
  (foldl promote walked paths, derived_loop ty (list_to_set (map f_Path walked)) paths).

(** The body of the loop of [Extract] for one struct. *)
Definition extract_struct (pkg name : string) (ty : gtype) (declared : list string) (incomplete : bool) : StructInfo :=
  let '(walked, derived) := derivedFields ty declared (walkFields ty "") in
  MkStructInfo pkg name (walked ++ derived) incomplete.
End walk.

(** * What the two readings agree on *)

(** A source tag both sides read alike: no surrounding space, no variable, and no
    space after a comma. *)
Definition starts_space (s : string) : bool := match s with EmptyString => false | String c _ => re_space c end.

Fixpoint unspaced (s : string) : bool :=
  match s with EmptyString => true | String c s => negb (ascii_eqb c "," && starts_space s) && unspaced s end.

Definition plain_source (s : string) : bool :=
  bool_decide (TrimSpace s = s) && negb (has_byte "$" s) && unspaced s.

(** Every source tag of a struct type is such a tag. *)
Fixpoint plain_type (ty : gtype) : bool :=
  match ty with
  | TStruct fs =>
      forallb (fun f => match tag_Lookup f.1.2 "source" with Some s => plain_source s | None => plain_type f.2 end) fs
  | _ => true
  end.

Lemma SplitChain_unspaced s : unspaced s = true -> SplitChain s = splitChain s.
Proof.
  induction s as [|c s IH]; [done|]. cbn [unspaced SplitChain splitChain]. intros [Hc Hs]%andb_true_iff.
  rewrite IH by done. assert (E : ascii_eqb c "," && chainSchemeStart s = ascii_eqb c "," && schemeStart s); [|by rewrite E].
  destruct (ascii_eqb c ","); [|done]. simpl in Hc. apply negb_true_iff in Hc.
  destruct s as [|d s]; [done|]. simpl in *. by rewrite Hc.
Qed.

Lemma before_opts_stop a c b : has_byte "#" a = false -> has_byte "?" a = false -> c = "#"%char \/ c = "?"%char ->
  before_opts (a ++ String c b) = a.
Proof.
  intros H1 H2 Hc. induction a as [|d a IH].
  - change ("" ++ String c b) with (String c b). cbn [before_opts]. by destruct Hc as [-> | ->].
  - rewrite str_app_cons. simpl in *. apply orb_false_iff in H1 as [H1 H1'], H2 as [H2 H2'].
    rewrite H1, H2. simpl. by rewrite IH.
Qed.

Lemma before_opts_all a : has_byte "#" a = false -> has_byte "?" a = false -> before_opts a = a.
Proof.
  induction a as [|d a IH]; [done|]. simpl. intros [H1 H1']%orb_false_iff [H2 H2']%orb_false_iff.
  rewrite H1, H2. simpl. by rewrite IH.
Qed.

(** The path both read: the text before the query, then before the key. *)
Lemma before_opts_cuts s :
  before_opts s = (default (from_option fst s (Cut s "?"), "") (Cut (from_option fst s (Cut s "?")) "#")).1.
Proof.
  destruct (Cut s "?") as [[a q]|] eqn:Eq; simpl.
  - apply Cut_Some in Eq as [-> Hq]. destruct (Cut a "#") as [[p k]|] eqn:Ek; simpl.
    + apply Cut_Some in Ek as [-> Hk]. rewrite <- str_app_assoc, str_app_cons.
      rewrite has_byte_app in Hq. apply orb_false_iff in Hq as [Hq _]. apply before_opts_stop; auto.
    + apply Cut_None in Ek. apply before_opts_stop; auto.
  - apply Cut_None in Eq. destruct (Cut s "#") as [[p k]|] eqn:Ek; simpl.
    + apply Cut_Some in Ek as [-> Hk]. rewrite has_byte_app in Eq. apply orb_false_iff in Eq as [Hq _].
      apply before_opts_stop; auto.
    + apply Cut_None in Ek. by apply before_opts_all.
Qed.

(** The command line reads the scheme and the path of a ref as the library does. *)
Lemma refPath_agrees part r : ParseRef part = Ok r -> SchemeOf part = Some (ref_Scheme r) /\ refPath part = ref_Path r.
Proof.
  unfold ParseRef. destruct (bool_decide (TrimSpace part = "")); [done|].
  destruct (Cut (TrimSpace part) ":") as [[scheme rem]|] eqn:Ec; [|done].
  case_bool_decide as Hs; [done|]. intros Hp.
  assert (Hscheme : SchemeOf part = Some scheme) by (unfold SchemeOf; rewrite Ec; by rewrite bool_decide_eq_false_2).
  assert (Hpath : refPath part = before_opts (TrimPrefix rem "//")).
  { unfold refPath. rewrite Hscheme. apply Cut_Some in Ec as [-> _]. change (String ":" rem) with (":" ++ rem).
    by rewrite str_app_assoc, TrimPrefix_app. }
  rewrite Hscheme, Hpath, before_opts_cuts. destruct (Cut (TrimPrefix rem "//") "?") as [[rest query]|]; simpl.
  - destruct (ParseQuery query) as [q|]; [|done]. destruct (default (rest, "") (Cut rest "#")) as [p k].
    by injection Hp as <-.
  - destruct (default (TrimPrefix rem "//", "") (Cut (TrimPrefix rem "//") "#")) as [p k]. by injection Hp as <-.
Qed.

(** * The walks *)

Section agree.
Context (gz : string -> option (string * bool)) (vars : gmap string string).
Context (TypeString : gtype -> string) (schemes : SchemeSet).

(** A field of the static walk describes a spec of the run-time walk. *)
Record describes (spec : fieldSpec) (f : Field) : Prop := {
  de_path : f_Path f = spec_Path spec;
  de_refs : map (fun ref => (SchemeOf ref, refPath ref)) (f_Refs f) =
            map (fun r => (Some (ref_Scheme r), ref_Path r)) (spec_Refs spec);
  de_default : f_Default f = spec_Default spec;
  de_hasDefault : f_HasDefault f = spec_HasDefault spec;
  de_optional : f_Optional f = spec_Optional spec;
  de_sensitive : spec_Sensitive spec = true -> f_Sensitive f = true;
  de_type : f_GoType f = TypeString (spec_Type spec);
}.

Lemma parse_parts_refs parts refs : parse_parts parts = Ok refs ->
  map (fun ref => (SchemeOf ref, refPath ref)) parts = map (fun r => (Some (ref_Scheme r), ref_Path r)) refs.
Proof.
  revert refs. induction parts as [|p parts IH]; intros refs; simpl; [by intros [= <-]|].
  destruct (ParseRef p) as [r|] eqn:Ep; [|done]. destruct (parse_parts parts) as [rs|]; [|done]. intros [= <-].
  destruct (refPath_agrees _ _ Ep) as [-> ->]. simpl. by rewrite (IH rs eq_refl).
Qed.

(** The refs of a plain tag, read by either. *)
Lemma plain_refs source refs : plain_source source = true -> ParseRefs source = Ok refs ->
  map (fun ref => (SchemeOf ref, refPath ref)) (SplitChain source) =
  map (fun r => (Some (ref_Scheme r), ref_Path r)) refs.
Proof.
  unfold plain_source. intros [[Ht%bool_decide_eq_true Hd]%andb_true_iff Hu]%andb_true_iff. unfold ParseRefs. rewrite Ht.
  destruct (bool_decide (source = "")); [done|]. intros Hp. rewrite SplitChain_unspaced by done. by apply parse_parts_refs.
Qed.

Lemma walk_leaf_describes path index t ty source spec :
  plain_source source = true -> walk_leaf gz vars path index t ty source = Ok spec ->
  describes spec
    (MkField path KindSource (TypeString ty) source (SplitChain source) (default "" (tag_Lookup t "default"))
       (bool_decide (is_Some (tag_Lookup t "default"))) (bool_decide (tag_Get t "optional" = "true"))
       (is_secret ty || bool_decide (is_Some (FirstSensitiveScheme schemes source))) (tag_Get t "onfail") (tag_Get t "validate")).
Proof.
  intros Hp. unfold walk_leaf.
  assert (Hx : expandRefVars source vars = Ok source).
  { unfold expandRefVars. unfold plain_source in Hp. apply andb_true_iff in Hp as [[_ Hd]%andb_true_iff _]. by rewrite Hd. }
  rewrite Hx. destruct (ParseRefs source) as [refs|] eqn:Er; [|done].
  destruct (check_pipelines gz path refs); [|done]. destruct (parse_onfail _ _ _) as [onFail|]; [|done].
  destruct (is_leaf_struct ty && _); [done|]. intros [= <-]. split; simpl; try done.
  - by apply (plain_refs source refs).
  - by intros ->.
Qed.

Lemma walk_describes ty : is_leaf_struct ty = true -> forall prefix index specs,
  plain_type ty = true -> walk_type gz vars ty prefix index = Ok specs ->
  Forall2 describes specs (filter (fun f => f_Kind f = KindSource) (walkFields TypeString schemes ty prefix)).
Proof.
  induction ty as [fs IH|ty Hty] using gtype_ind'; [|by rewrite Hty]. intros _ prefix index specs Hplain. simpl.
  generalize 0%nat as i. revert specs. simpl in Hplain. induction fs as [|f fs IHfs]; intros specs i; simpl.
  { intros [= <-]. constructor. }
  apply Forall_cons in IH as [IHf IHall]. simpl in Hplain. apply andb_true_iff in Hplain as [Hf Hplain].
  destruct (walk_field gz vars (walk_type gz vars) prefix index i f) as [s1|] eqn:Ef; [|done].
  destruct (walk_fields gz vars (walk_type gz vars) prefix index fs (S i)) as [s2|] eqn:Efs; [|done].
  intros [= <-]. rewrite filter_app. apply Forall2_app; [|by apply (IHfs IHall Hplain _ (S i))].
  destruct f as [[[name exported] t] fty]. unfold walk_field in Ef. unfold walk_static. simpl in *.
  destruct exported; simpl in *; [|by injection Ef as <-]. destruct (tag_Lookup t "source") as [source|].
  - destruct (walk_leaf _ _ _ _ _ _ _) as [spec|] eqn:El; [|done]. injection Ef as <-.
    rewrite filter_cons_True by done. constructor; [|constructor]. by eapply walk_leaf_describes.
  - destruct (is_leaf_struct fty) eqn:El; [by eapply IHf|]. injection Ef as <-. by destruct (bool_decide _).
Qed.
End agree.

(** * Properties *)

(** The command line sees what the library reads. For a config type whose
    source tags are plain - no surrounding space, no variable, no space after a
    comma - and whose walk at run time succeeds, the sourced fields [explain]
    lists are the specs of the library, one for one and in order: path, chain of
    schemes and paths, default, optional, type; a secret type is sensitive. *)
Theorem explain_agrees_with_runtime gz vars TypeString schemes ty specs :
  plain_type ty = true -> fieldSpecs gz vars ty = Ok specs ->
  Forall2 (describes TypeString) specs
    (filter (fun f => f_Kind f = KindSource) (walkFields TypeString schemes ty "")).
Proof.
  intros Hp Hs. apply (walk_describes gz vars TypeString schemes ty) with (index := []); [|done|done].
  unfold fieldSpecs in Hs. by destruct ty.
Qed.

(** With a space after the comma of a chain, which the library documents and
    accepts, the command line reads one ref of the first scheme: the refs after it
    are not listed, are granted nothing, and do not make the field sensitive. *)
Lemma spaced_chain_is_one_ref :
  let tag := "env:DB, aws-sm://prod/db" in
  (exists r1 r2, ParseRefs tag = Ok [r1; r2] /\ ref_Scheme r2 = "aws-sm" /\ ref_Path r2 = "prod/db") /\
  SplitChain tag = [tag] /\ SchemeOf tag = Some "env" /\
  FirstSensitiveScheme DefaultSecretSchemes tag = None /\
  FirstSensitiveScheme DefaultSecretSchemes "env:DB,aws-sm://prod/db" = Some "aws-sm".
Proof. split; [do 2 eexists; split; [vm_compute; reflexivity|done]|]. by vm_compute. Qed.

(** * Instances *)

Definition service_type : gtype :=
  TStruct [ ("Port", true, [("source", "env:PORT,aws-ps://svc/port"); ("default", "80")], TInt 64);
            ("note", false, [], TString);
            ("DB", true, [], TStruct [("Pass", true, [("source", "aws-sm://prod/db#pw?decode=base64")], TSecretString);
                                      ("Pool", true, [("validate", "min=1")], TInt 8)]) ].

Lemma explain_agrees_with_runtime_witness :
  exists specs, fieldSpecs (fun s => Some (s, true)) ∅ service_type = Ok specs /\
    map f_Path (filter (fun f => f_Kind f = KindSource) (walkFields (fun _ => "") DefaultSecretSchemes service_type "")) =
      map spec_Path specs.
Proof.
  destruct (fieldSpecs (fun s => Some (s, true)) ∅ service_type) as [specs|e] eqn:E; [|by vm_compute in E].
  exists specs. split; [done|].
  pose proof (explain_agrees_with_runtime (fun s => Some (s, true)) ∅ (fun _ => "") DefaultSecretSchemes service_type specs
    ltac:(by vm_compute) E) as H.
  clear E. revert H. generalize (filter (fun f => f_Kind f = KindSource) (walkFields (fun _ => "") DefaultSecretSchemes service_type "")).
  intros fs H. induction H as [|spec f specs' fs Hd _ IH]; [done|]. simpl. by rewrite (de_path _ _ _ Hd), IH.
Defined.
