(* ===== verification/PolicyDoc.v ===== *)
(** The least-privilege artifacts of [mamori policy] (src/cmd/mamori/policy.go):
    the refs of a set of config structs by scheme, and the IAM, GCP and
    ExternalSecret documents written from them. *)

From S2P Require Import Prelude Errors GoStrings Ref Provider Decode GoNumbers Fields GoPath SourceTag.
Open Scope string_scope.
Open Scope Z_scope.

(** * Refs by scheme *)

(** [type policyRefs map[string][]string]. *)
Abbreviation policyRefs := (gmap string (list string)).

(** The loop of [sortedUniqueStrings] over the sorted list. *)
Fixpoint unique_adjacent (prev : option string) (l : list string) : list string :=
  match l with
  | [] => []
  | v :: l => if bool_decide (prev = Some v) then unique_adjacent (Some v) l else v :: unique_adjacent (Some v) l
  end.

(** [func sortedUniqueStrings(in []string) []string]. *)
Definition sortedUniqueStrings (l : list string) : list string := unique_adjacent None (merge_sort str_le l).

Definition collect_ref (byScheme : policyRefs) (ref : string) : policyRefs :=
  match SchemeOf ref with
  | None => byScheme
  | Some scheme => <[scheme := (default [] (byScheme !! scheme) ++ [refPath ref])%list]> byScheme
  end.

Definition collect_field (byScheme : policyRefs) (f : Field) : policyRefs :=
  if bool_decide (f_Kind f = KindSource) then foldl collect_ref byScheme (f_Refs f) else byScheme.

(** [func collectPolicyRefs(structs []StructInfo) policyRefs]. *)
Definition collectPolicyRefs (structs : list StructInfo) : policyRefs :=
  sortedUniqueStrings <$> foldl (fun m s => foldl collect_field m (s_Fields s)) ∅ structs.

(** [refs[scheme]]. *)
Definition refs_of (refs : policyRefs) (scheme : string) : list string := default [] (refs !! scheme).

Definition awsSMScheme : string := "aws-sm".
Definition awsPSScheme : string := "aws-ps".
Definition gcpSMScheme : string := "gcp-sm".

(** * aws-iam *)

(** [type iamStatement struct] and [type iamPolicyDocument struct]. *)
Record iamStatement := MkStatement {
  iam_Sid : string;
  iam_Effect : string;
  iam_Action : list string;
  iam_Resource : list string;
}.
Record iamPolicyDocument := MkPolicy { iam_Version : string; iam_Statement : list iamStatement }.

Definition awsSecretsManagerGetSecretValue : string := "secretsmanager:GetSecretValue".
Definition awsSSMGetParameter : string := "ssm:GetParameter".
Definition awsSSMGetParameters : string := "ssm:GetParameters".

(** [func awsSecretARN] and [func awsParameterARN]. *)
Definition awsSecretARN (path : string) : string := "arn:aws:secretsmanager:*:*:secret:" ++ path.
Definition awsParameterARN (path : string) : string := "arn:aws:ssm:*:*:parameter/" ++ TrimPrefix path "/".

(** [func writeAWSIAMPolicy(stdout, stderr, refs)]: the document, and whether the
    note about an empty one goes to [stderr]. *)
Definition writeAWSIAMPolicy (refs : policyRefs) : iamPolicyDocument * bool :=
  let secrets := refs_of refs awsSMScheme in
  let params := refs_of refs awsPSScheme in
  let st1 :=
    match secrets with
    | [] => []
    | _ => [MkStatement "SecretsManagerGetSecretValue" "Allow" [awsSecretsManagerGetSecretValue] (map awsSecretARN secrets)]
    end in
  let st2 :=
    match params with
    | [] => []
    | _ => [MkStatement "SSMGetParameter" "Allow" [awsSSMGetParameter; awsSSMGetParameters] (map awsParameterARN params)]
    end in
  (MkPolicy "2012-10-17" (st1 ++ st2), bool_decide (st1 ++ st2 = [] :> list iamStatement)%list).

(** * gcp *)

Definition gcpSecretAccessorRole : string := "roles/secretmanager.secretAccessor".
Definition gcpProjectPlaceholder : string := "PROJECT".

(** [type gcpPolicyDocument struct]. *)
Record gcpPolicyDocument := MkGcpPolicy { gcp_Role : string; gcp_Resources : list string }.

(** [func gcpResourceName(path string) string]. *)
Definition gcpResourceName (path : string) : string :=
  match Cut path "/" with
  | Some (project, secret) =>
      if bool_decide (project = "") || bool_decide (secret = "")
      then "projects/" ++ gcpProjectPlaceholder ++ "/secrets/" ++ path
      else "projects/" ++ project ++ "/secrets/" ++ secret
  | None => "projects/" ++ gcpProjectPlaceholder ++ "/secrets/" ++ path
  end.

(** [func writeGCPPolicy(stdout, stderr, refs)]. *)
Definition writeGCPPolicy (refs : policyRefs) : gcpPolicyDocument * bool :=
  let resources := merge_sort str_le (map gcpResourceName (refs_of refs gcpSMScheme)) in
  (MkGcpPolicy gcpSecretAccessorRole resources, bool_decide (resources = [])).

(** * external-secret *)

(** [func basename(path string) string]. *)
Definition basename (path : string) : string := default "" (last (Split path "/")).

Definition secret_key_rune (r : Z) : bool :=
  ((97 <=? r) && (r <=? 122)) || ((65 <=? r) && (r <=? 90)) || ((48 <=? r) && (r <=? 57)) ||
  (r =? 45) || (r =? 95) || (r =? 46).

(** [func sanitizeSecretKey(s string) string], one rune at a time; the length of
    the string is enough fuel. *)
Fixpoint sanitize_loop (fuel : nat) (s : string) : string :=
  match fuel, s with
  | S fuel, String c _ =>
      let '(r, n) := DecodeRune s in
      String (if secret_key_rune r then c else "-"%char) (sanitize_loop fuel (str_drop n s))
  | _, _ => ""
  end.
Definition sanitizeSecretKey (s : string) : string := sanitize_loop (String.length s) s.

(** [type esDataEntry struct]. *)
Record esDataEntry := MkData { es_secretKey : string; es_remoteKey : string }.

(** The closure [add], over [seen] and [entries]. *)
Definition es_add (st : gmap string Z * list esDataEntry) (scheme remoteKey : string) : gmap string Z * list esDataEntry :=
  let base := sanitizeSecretKey (scheme ++ "-" ++ basename remoteKey) in
  let n := default 0 (st.1 !! base) in
  let key := if 0 <? n then base ++ "-" ++ FormatInt (n + 1) else base in
  (<[base := n + 1]> st.1, (st.2 ++ [MkData key remoteKey])%list).

(** The entries [writeExternalSecretManifest] renders. *)
Definition external_entries (refs : policyRefs) : list esDataEntry :=
  let st := foldl (fun st p => es_add st awsSMScheme p) (∅, []) (refs_of refs awsSMScheme) in
  let st := foldl (fun st p => es_add st awsPSScheme p) st (refs_of refs awsPSScheme) in
  let st := foldl (fun st p => es_add st gcpSMScheme (match Cut p "/" with Some (_, secret) => secret | None => p end))
    st (refs_of refs gcpSMScheme) in
  st.2.

(** [func yamlSafeBare(s string) bool] of a string that is not empty. *)
Definition yaml_indicators : list ascii :=
  ["-"; "?"; ":"; ","; "["; "]"; "{"; "}"; "#"; "&"; "*"; "!"; "|"; ">"; "'"; byte_of 34; "%"; "@"; "`"]%char.
Definition yamlSafeBare (s : string) : bool :=
  bool_decide (TrimSpace s = s) &&
  match s with EmptyString => false | String c _ => negb (bool_decide (c ∈ yaml_indicators)) end &&
  negb (has_byte ":" s || has_byte "#" s) &&
  negb (bool_decide (ToLower s ∈ ["null"; "~"; "true"; "false"; "yes"; "no"; "on"; "off"])).

(** The bytes [WriteRune] writes for the rune [r] of width [n] that [s] starts
    with: those of [s], or the three bytes of [RuneError] for an invalid one. *)
Definition rune_text (r : Z) (n : nat) (s : string) : string :=
  if (r =? RuneError) && (n =? 1)%nat then String (byte_of 239) (String (byte_of 191) (String (byte_of 189) ""))
  else str_take n s.

(** The loop of [yamlScalar] that escapes. *)
Fixpoint yaml_escape (fuel : nat) (s : string) : string :=
  match fuel, s with
  | S fuel, String c _ =>
      let '(r, n) := DecodeRune s in
      let rune := rune_text r n s in
      (if ascii_eqb c (byte_of 34) || ascii_eqb c backslash then String backslash rune else rune) ++
        yaml_escape fuel (str_drop n s)
  | _, _ => ""
  end.

(** [func yamlScalar(s string) string]. *)
Definition yamlScalar (s : string) : string :=
  if negb (bool_decide (s = "")) && yamlSafeBare s then s
  else String (byte_of 34) (yaml_escape (String.length s) s ++ String (byte_of 34) "").

Definition yaml_line (s : string) : string := s ++ String (byte_of 10) "".

(** [func renderExternalSecretYAML(entries)]. *)
Definition renderExternalSecretYAML (entries : list esDataEntry) : string :=
  String.concat "" (map yaml_line (
    ["apiVersion: external-secrets.io/v1"; "kind: ExternalSecret"; "metadata:"; "  name: mamori-managed-secrets"; "spec:";
     "  secretStoreRef:"; "    name: REPLACE_ME_SECRET_STORE"; "    kind: SecretStore"; "  target:";
     "    name: mamori-managed-secrets"] ++
    match entries with
    | [] => ["  data: []"]
    | _ =>
        "  data:" ::
        flat_map (fun e => [("    - secretKey: " ++ yamlScalar (es_secretKey e))%string; "      remoteRef:";
                            ("        key: " ++ yamlScalar (es_remoteKey e))%string]) entries
    end)%list).

(** [func writeExternalSecretManifest(stdout, stderr, refs)]. *)
Definition writeExternalSecretManifest (refs : policyRefs) : string * bool :=
  let entries := external_entries refs in
  (renderExternalSecretYAML entries, bool_decide (length entries = 0%nat)).

(** * The command *)

Definition formatAWSIAM : string := "aws-iam".
Definition formatGCP : string := "gcp".
Definition formatExternalSecret : string := "external-secret".
Definition supportedPolicyFormats : list string := [formatAWSIAM; formatGCP; formatExternalSecret].

(** [func isSupportedPolicyFormat(format string) bool]. *)
Definition isSupportedPolicyFormat (format : string) : bool := bool_decide (format ∈ supportedPolicyFormats).

(** [func wantsHelp(args []string) bool] (help.go). *)
Definition wantsHelp (args : list string) : bool := existsb (fun a => bool_decide (a ∈ ["-h"; "--help"; "-help"])) args.

(** A flag with one or two dashes, alone or with its value after an equals sign. *)
Definition flag_alone (name a : string) : bool := bool_decide (a = "--" ++ name) || bool_decide (a = "-" ++ name).
Definition flag_inline (name a : string) : option string :=
  if HasPrefix a ("--" ++ name ++ "=") then Some (TrimPrefix a ("--" ++ name ++ "="))
  else if HasPrefix a ("-" ++ name ++ "=") then Some (TrimPrefix a ("-" ++ name ++ "="))
  else None.

(** What [parsePolicyArgs] has read so far. *)
Record policy_args := MkPolicyArgs { pa_patterns : list string; pa_type : string; pa_format : string; pa_extra : string }.

Definition errUsage : error := EOpaque "mamori: usage".

(** The loop of [parsePolicyArgs], with [matchSecretSchemes] at each turn. *)
Fixpoint policy_args_loop (o : policy_args) (args : list string) : res policy_args :=
  match args with
  | [] => Ok o
  | a :: rest =>
      if flag_alone "secret-schemes" a then
        match rest with
        | [] => Err errUsage
        | v :: rest => policy_args_loop (MkPolicyArgs (pa_patterns o) (pa_type o) (pa_format o) v) rest
        end
      else match flag_inline "secret-schemes" a with
      | Some v => policy_args_loop (MkPolicyArgs (pa_patterns o) (pa_type o) (pa_format o) v) rest
      | None =>
          if flag_alone "type" a then
            match rest with
            | [] => Err errUsage
            | v :: rest => policy_args_loop (MkPolicyArgs (pa_patterns o) v (pa_format o) (pa_extra o)) rest
            end
          else match flag_inline "type" a with
          | Some v => policy_args_loop (MkPolicyArgs (pa_patterns o) v (pa_format o) (pa_extra o)) rest
          | None =>
              if flag_alone "format" a then
                match rest with
                | [] => Err errUsage
                | v :: rest => policy_args_loop (MkPolicyArgs (pa_patterns o) (pa_type o) v (pa_extra o)) rest
                end
              else match flag_inline "format" a with
              | Some v => policy_args_loop (MkPolicyArgs (pa_patterns o) (pa_type o) v (pa_extra o)) rest
              | None =>
                  if HasPrefix a "-" then Err errUsage
                  else policy_args_loop (MkPolicyArgs (pa_patterns o ++ [a]) (pa_type o) (pa_format o) (pa_extra o)) rest
              end
          end
      end
  end.

(** [func parsePolicyArgs(args)]. *)
Definition parsePolicyArgs (args : list string) : res (list string * string * string * SchemeSet) :=
  match policy_args_loop (MkPolicyArgs [] "" "" "") args with
  | Err e => Err e
  | Ok o => (fun schemes => (pa_patterns o, pa_type o, pa_format o, schemes)) <$> secretSchemeSet (pa_extra o)
  end.

(** What the command prints on [stdout]. *)
Inductive artifact := NoOutput | Help | IamPolicy (d : iamPolicyDocument) | GcpPolicy (d : gcpPolicyDocument) | Manifest (s : string).

(** [func policyCmd(args, stdout, stderr) int], over [Extract]. *)
Definition policyCmd (Extract : list string -> string -> SchemeSet -> res (list StructInfo)) (args : list string) : Z * artifact :=
  if wantsHelp args then (0, Help)
  else
    match parsePolicyArgs args with
    | Err _ => (1, NoOutput)
    | Ok (patterns, typeName, format, schemes) =>
        if negb (isSupportedPolicyFormat format) then (2, NoOutput)
        else
          match Extract patterns typeName schemes with
          | Err _ => (1, NoOutput)
          | Ok structs =>
              let refs := collectPolicyRefs structs in
              if bool_decide (format = formatAWSIAM) then (0, IamPolicy (writeAWSIAMPolicy refs).1)
              else if bool_decide (format = formatGCP) then (0, GcpPolicy (writeGCPPolicy refs).1)
              else (0, Manifest (writeExternalSecretManifest refs).1)
          end
    end.

(** * Facts *)

Lemma elem_of_unique_adjacent x prev l : x <> default "" prev \/ prev = None -> (x ∈ unique_adjacent prev l <-> x ∈ l).
Proof.
  revert prev. induction l as [|v l IH]; intros prev Hx; simpl; [done|]. case_bool_decide as Hp.
  - subst prev. simpl in Hx. destruct Hx as [Hx|]; [|done]. rewrite elem_of_cons, IH by (by left). naive_solver.
  - rewrite !elem_of_cons. destruct (decide (x = v)) as [->|Hne]; [naive_solver|]. rewrite IH by (by left). done.
Qed.

Lemma elem_of_sortedUnique x l : x ∈ sortedUniqueStrings l <-> x ∈ l.
Proof. unfold sortedUniqueStrings. rewrite elem_of_unique_adjacent by (by right). by rewrite merge_sort_Permutation. Qed.

Lemma sortedUnique_nil l : sortedUniqueStrings l = [] <-> l = [].
Proof.
  split; [|by intros ->]. intros E. destruct l as [|x l]; [done|].
  assert (Hx : x ∈ sortedUniqueStrings (x :: l)) by (apply elem_of_sortedUnique; constructor). rewrite E in Hx.
  by apply elem_of_nil in Hx.
Qed.

Lemma unique_adjacent_hd prev l v : Sorted str_le (option_list prev ++ l)%list -> v ∈ unique_adjacent prev l ->
  match prev with Some p => str_le p v /\ p <> v | None => True end.
Proof.
  intros Hs. apply Sorted_StronglySorted in Hs; [|apply _]. revert prev Hs v. induction l as [|x l IH]; intros prev Hs v; simpl.
  { by intros ?%elem_of_nil. }
  destruct prev as [p|]; simpl in *; [|done]. apply StronglySorted_inv in Hs as [Hs Hp]. apply Forall_cons in Hp as [Hpx Hp].
  case_bool_decide as E.
  - injection E as <-. intros Hv. apply (IH (Some p)); done.
  - intros [->|Hv]%elem_of_cons; [split; [done|congruence]|].
    destruct (IH (Some x) Hs v Hv) as [H1 H2]. split; [by etransitivity|]. intros ->.
    apply E. f_equal. by apply (anti_symm str_le).
Qed.

Lemma unique_adjacent_NoDup prev l : Sorted str_le (option_list prev ++ l)%list -> NoDup (unique_adjacent prev l).
Proof.
  revert prev. induction l as [|x l IH]; intros prev Hs; simpl; [constructor|]. case_bool_decide as E.
  - subst prev. simpl in Hs. apply Sorted_inv in Hs as [Hs _]. apply (IH (Some x)). exact Hs.
  - assert (Hs' : Sorted str_le (x :: l)) by (destruct prev; [by apply Sorted_inv in Hs as [? _]|done]).
    constructor; [|apply (IH (Some x)); exact Hs']. intros Hin.
    by destruct (unique_adjacent_hd (Some x) l x Hs' Hin).
Qed.

Lemma sortedUnique_NoDup l : NoDup (sortedUniqueStrings l).
Proof. apply (unique_adjacent_NoDup None). apply Sorted_merge_sort; apply _. Qed.

(** The refs a set of structs names: the scheme and the path of each source ref. *)
Definition named (structs : list StructInfo) (scheme path : string) : Prop :=
  exists s f ref, s ∈ structs /\ f ∈ s_Fields s /\ f_Kind f = KindSource /\ ref ∈ f_Refs f /\
    SchemeOf ref = Some scheme /\ refPath ref = path.

Lemma collect_refs_spec refs m scheme path :
  path ∈ refs_of (foldl collect_ref m refs) scheme <->
  path ∈ refs_of m scheme \/ exists ref, ref ∈ refs /\ SchemeOf ref = Some scheme /\ refPath ref = path.
Proof.
  revert m. induction refs as [|ref refs IH]; intros m; simpl; [set_solver|]. rewrite IH.
  assert (Hone : path ∈ refs_of (collect_ref m ref) scheme <->
    path ∈ refs_of m scheme \/ (SchemeOf ref = Some scheme /\ refPath ref = path)).
  { unfold collect_ref. destruct (SchemeOf ref) as [sc|] eqn:E; [|naive_solver]. unfold refs_of.
    destruct (decide (sc = scheme)) as [->|Hne].
    - rewrite lookup_insert_eq. simpl. rewrite elem_of_app, list_elem_of_singleton. naive_solver.
    - rewrite lookup_insert_ne by done. naive_solver. }
  rewrite Hone. split; [|].
  - intros [[?|[? ?]]|(r & ? & ?)]; [by left|right; exists ref|right; exists r]; set_solver.
  - intros [?|(r & [->|?]%elem_of_cons & ? & ?)]; [by left; left|by left; right|right; eauto].
Qed.

Lemma collect_fields_spec fs m scheme path :
  path ∈ refs_of (foldl collect_field m fs) scheme <->
  path ∈ refs_of m scheme \/
  exists f ref, f ∈ fs /\ f_Kind f = KindSource /\ ref ∈ f_Refs f /\ SchemeOf ref = Some scheme /\ refPath ref = path.
Proof.
  revert m. induction fs as [|f fs IH]; intros m; simpl; [set_solver|]. rewrite IH. unfold collect_field.
  case_bool_decide as Hk; [rewrite collect_refs_spec|]; split.
  - intros [[?|(r & ? & ? & ?)]|(g & r & ? & ?)]; [by left|right; exists f, r|right; exists g, r]; set_solver.
  - intros [?|(g & r & [->|?]%elem_of_cons & ? & ? & ? & ?)]; [by left; left|left; right; eauto|right; eauto 10].
  - intros [?|(g & r & ? & ?)]; [by left|right; exists g, r; set_solver].
  - intros [?|(g & r & [->|?]%elem_of_cons & ? & ? & ? & ?)]; [by left|done|right; eauto 10].
Qed.

Lemma collect_structs_spec structs m scheme path :
  path ∈ refs_of (foldl (fun m s => foldl collect_field m (s_Fields s)) m structs) scheme <->
  path ∈ refs_of m scheme \/ named structs scheme path.
Proof.
  unfold named. revert m. induction structs as [|s structs IH]; intros m; simpl; [set_solver|].
  rewrite IH, collect_fields_spec. split.
  - intros [[?|(f & r & ? & ?)]|(s' & f & r & ? & ?)]; [by left|right; exists s, f, r|right; exists s', f, r]; set_solver.
  - intros [?|(s' & f & r & [->|?]%elem_of_cons & ? & ? & ? & ? & ?)]; [by left; left|left; right; eauto 10|right; eauto 12].
Qed.

(** Every scheme's bucket holds exactly the paths named, each once. *)
Lemma collectPolicyRefs_spec structs scheme :
  (forall path, path ∈ refs_of (collectPolicyRefs structs) scheme <-> named structs scheme path) /\
  NoDup (refs_of (collectPolicyRefs structs) scheme).
Proof.
  assert (E : refs_of (collectPolicyRefs structs) scheme =
    sortedUniqueStrings (refs_of (foldl (fun m s => foldl collect_field m (s_Fields s)) ∅ structs) scheme)).
  { unfold refs_of, collectPolicyRefs. rewrite lookup_fmap. by destruct (_ !! scheme). }
  rewrite E. split; [|apply sortedUnique_NoDup]. intros path. rewrite elem_of_sortedUnique, collect_structs_spec.
  unfold refs_of. rewrite lookup_empty. set_solver.
Qed.

(** ** Sourced fields of an extracted struct *)

Abbreviation sourced := (filter (fun f => f_Kind f = KindSource)).

Lemma promote_sourced walked p : sourced (promote walked p) = sourced walked.
Proof.
  induction walked as [|f walked IH]; [done|]. cbn [promote].
  destruct (bool_decide (f_Path f = p) && _ && bool_decide (f_Kind f = KindValidate)) eqn:E.
  - apply andb_true_iff in E as [_ Hk%bool_decide_eq_true]. rewrite !filter_cons.
    rewrite decide_False by done. by rewrite decide_False by (rewrite Hk; done).
  - rewrite !filter_cons, IH. done.
Qed.

Lemma derived_loop_sourced TypeString ty seen paths : sourced (derived_loop TypeString ty seen paths) = [].
Proof.
  revert seen. induction paths as [|p paths IH]; intros seen; [done|]. cbn [derived_loop].
  case_bool_decide; [done|]. destruct (fieldTypeByPath ty (Split p ".")); [|done]. rewrite filter_cons. simpl. apply IH.
Qed.

(** One config struct of a program: package, name, type, declared derive paths. *)
Record config_struct := MkConfig { cs_pkg : string; cs_name : string; cs_type : gtype; cs_declared : list string }.

Section runtime.
Context (gz : string -> option (string * bool)) (vars : gmap string string).
Context (TypeString : gtype -> string) (schemes : SchemeSet).

Definition extracted (c : config_struct) : StructInfo :=
  extract_struct TypeString schemes (cs_pkg c) (cs_name c) (cs_type c) (cs_declared c) false.

Lemma extracted_sourced c : sourced (s_Fields (extracted c)) = sourced (walkFields TypeString schemes (cs_type c) "").
Proof.
  unfold extracted, extract_struct, derivedFields. simpl. rewrite filter_app, derived_loop_sourced, app_nil_r.
  generalize (walkFields TypeString schemes (cs_type c) ""). induction (cs_declared c) as [|p ps IH]; intros w; [done|].
  simpl. by rewrite IH, promote_sourced.
Qed.

(** The specs a program loads, and the refs they read at run time. *)
Definition loads (configs : list config_struct) (specss : list (list fieldSpec)) : Prop :=
  Forall2 (fun c specs => plain_type (cs_type c) = true /\ fieldSpecs gz vars (cs_type c) = Ok specs) configs specss.

Definition reads (specss : list (list fieldSpec)) (r : Ref) : Prop :=
  exists specs spec, specs ∈ specss /\ spec ∈ specs /\ r ∈ spec_Refs spec.

Lemma described_refs specs fs scheme path : Forall2 (describes TypeString) specs fs ->
  (exists f ref, f ∈ fs /\ ref ∈ f_Refs f /\ SchemeOf ref = Some scheme /\ refPath ref = path) <->
  (exists spec r, spec ∈ specs /\ r ∈ spec_Refs spec /\ ref_Scheme r = scheme /\ ref_Path r = path).
Proof.
  assert (Hone : forall spec f, describes TypeString spec f ->
    (exists ref, ref ∈ f_Refs f /\ SchemeOf ref = Some scheme /\ refPath ref = path) <->
    (exists r, r ∈ spec_Refs spec /\ ref_Scheme r = scheme /\ ref_Path r = path)).
  { intros spec f [_ Hr _ _ _ _ _]. split.
    - intros (ref & Hin & Hs & Hp).
      assert (Hm : (SchemeOf ref, refPath ref) ∈ map (fun ref => (SchemeOf ref, refPath ref)) (f_Refs f))
        by (by apply (list_elem_of_fmap_2 (fun ref => (SchemeOf ref, refPath ref)))).
      rewrite Hr in Hm. apply list_elem_of_fmap in Hm as (r & E & Hr'). exists r. split; [done|]. rewrite Hs, Hp in E.
      by injection E as <- <-.
    - intros (r & Hin & Hs & Hp).
      assert (Hm : (Some (ref_Scheme r), ref_Path r) ∈ map (fun r => (Some (ref_Scheme r), ref_Path r)) (spec_Refs spec))
        by (by apply (list_elem_of_fmap_2 (fun r => (Some (ref_Scheme r), ref_Path r)))).
      rewrite <- Hr in Hm. apply list_elem_of_fmap in Hm as (ref & E & Hr'). exists ref. split; [done|].
      injection E as E1 E2. by rewrite <- E1, <- E2, Hs, Hp. }
  induction 1 as [|spec f specs fs Hd _ IH].
  - split; intros (? & ? & H & _); by apply elem_of_nil in H.
  - specialize (Hone _ _ Hd). split.
    + intros (g & ref & [->|Hg]%elem_of_cons & H).
      * destruct (proj1 Hone) as (r & ? & ?); [by exists ref|]. exists spec, r. split; [constructor|done].
      * destruct (proj1 IH) as (sp & r & ? & ?); [by exists g, ref|]. exists sp, r. split; [by constructor|done].
    + intros (sp & r & [->|Hsp]%elem_of_cons & H).
      * destruct (proj2 Hone) as (ref & ? & ?); [by exists r|]. exists f, ref. split; [constructor|done].
      * destruct (proj2 IH) as (g & ref & ? & ?); [by exists sp, r|]. exists g, ref. split; [by constructor|done].
Qed.

Lemma named_reads configs specss scheme path : loads configs specss ->
  named (map extracted configs) scheme path <-> exists r, reads specss r /\ ref_Scheme r = scheme /\ ref_Path r = path.
Proof.
  assert (Hstruct : forall c specs, plain_type (cs_type c) = true -> fieldSpecs gz vars (cs_type c) = Ok specs ->
    (exists f ref, f ∈ s_Fields (extracted c) /\ f_Kind f = KindSource /\ ref ∈ f_Refs f /\ SchemeOf ref = Some scheme /\
       refPath ref = path) <->
    (exists spec r, spec ∈ specs /\ r ∈ spec_Refs spec /\ ref_Scheme r = scheme /\ ref_Path r = path)).
  { intros c specs Hp Hs. rewrite <- (described_refs specs (sourced (s_Fields (extracted c)))).
    - setoid_rewrite list_elem_of_filter. naive_solver.
    - rewrite extracted_sourced. unfold fieldSpecs in Hs.
      apply (walk_describes gz vars TypeString schemes (cs_type c)) with (index := []); [|done|done]. by destruct (cs_type c). }
  unfold named, reads. induction 1 as [|c specs configs specss [Hp Hs] _ IH]; simpl.
  { split; [intros (? & ? & ? & H & _)|intros (? & (? & ? & H & _) & _)]; by apply elem_of_nil in H. }
  specialize (Hstruct c specs Hp Hs). split.
  - intros (s & f & ref & [->|Hin]%elem_of_cons & H).
    + destruct (proj1 Hstruct) as (spec & r & ? & ? & ? & ?); [by exists f, ref|]. exists r. split; [|done].
      exists specs, spec. split; [constructor|done].
    + destruct (proj1 IH) as (r & (sps & sp & ? & ?) & ?); [by exists s, f, ref|]. exists r. split; [|done].
      exists sps, sp. split; [by constructor|done].
  - intros (r & (sps & sp & [->|Hin]%elem_of_cons & Hsp & Hr) & Hsc & Hpa).
    + destruct (proj2 Hstruct) as (f & ref & ? & ? & ? & ? & ?); [by exists sp, r|]. exists (extracted c), f, ref.
      split; [constructor|done].
    + destruct (proj2 IH) as (s & f & ref & ? & ?); [exists r; split; [by exists sps, sp|done]|]. exists s, f, ref.
      split; [by constructor|done].
Qed.
End runtime.

(** ** The three documents *)

Definition gcp_secret (path : string) : string := match Cut path "/" with Some (_, secret) => secret | None => path end.

Lemma es_add_remote {A} scheme (f : A -> string) (l : list A) st :
  map es_remoteKey (foldl (fun st p => es_add st scheme (f p)) st l).2 = (map es_remoteKey st.2 ++ map f l)%list.
Proof.
  revert st. induction l as [|p l IH]; intros st; simpl; [by rewrite app_nil_r|]. rewrite IH. unfold es_add. simpl.
  by rewrite map_app, <- app_assoc.
Qed.

Lemma external_entries_remote refs :
  map es_remoteKey (external_entries refs) =
  (refs_of refs awsSMScheme ++ refs_of refs awsPSScheme ++ map gcp_secret (refs_of refs gcpSMScheme))%list.
Proof.
  unfold external_entries. rewrite (es_add_remote gcpSMScheme gcp_secret).
  rewrite (es_add_remote awsPSScheme (fun p => p)), (es_add_remote awsSMScheme (fun p => p)). simpl.
  by rewrite !map_id, app_assoc.
Qed.

(** What an IAM document allows. *)
Definition allows (d : iamPolicyDocument) (action resource : string) : Prop :=
  exists st, st ∈ iam_Statement d /\ iam_Effect st = "Allow" /\ action ∈ iam_Action st /\ resource ∈ iam_Resource st.

Lemma writeAWSIAMPolicy_allows refs action resource :
  allows (writeAWSIAMPolicy refs).1 action resource <->
  (action = awsSecretsManagerGetSecretValue /\ exists p, p ∈ refs_of refs awsSMScheme /\ resource = awsSecretARN p) \/
  ((action = awsSSMGetParameter \/ action = awsSSMGetParameters) /\
   exists p, p ∈ refs_of refs awsPSScheme /\ resource = awsParameterARN p).
Proof.
  assert (Hst : forall sid actions (f : string -> string) l,
    (exists st, st ∈ (match l with [] => [] | _ => [MkStatement sid "Allow" actions (map f l)] end) /\
       iam_Effect st = "Allow" /\ action ∈ iam_Action st /\ resource ∈ iam_Resource st) <->
    action ∈ actions /\ exists p, p ∈ l /\ resource = f p).
  { intros sid actions f l. destruct l as [|x l].
    - split; [intros (? & H & _); by apply elem_of_nil in H|intros (_ & ? & H & _); by apply elem_of_nil in H].
    - setoid_rewrite list_elem_of_singleton. split.
      + intros (st & -> & _ & Ha & Hr). split; [done|]. apply list_elem_of_fmap in Hr as (p & -> & Hp). by exists p.
      + intros (Ha & p & Hp & ->). eexists. split; [done|]. split; [done|]. split; [done|].
        by apply (list_elem_of_fmap_2 f). }
  unfold allows, writeAWSIAMPolicy. cbn [fst iam_Statement]. setoid_rewrite elem_of_app.
  pose proof (Hst "SecretsManagerGetSecretValue" [awsSecretsManagerGetSecretValue] awsSecretARN (refs_of refs awsSMScheme)) as H1.
  pose proof (Hst "SSMGetParameter" [awsSSMGetParameter; awsSSMGetParameters] awsParameterARN (refs_of refs awsPSScheme)) as H2.
  rewrite list_elem_of_singleton in H1. rewrite elem_of_cons, list_elem_of_singleton in H2. rewrite <- H1, <- H2. naive_solver.
Qed.

(** * Properties *)

(** ** Resources, as the backends name them *)

(** The ARN of a parameter is that of its absolute name. *)
Definition absolute (name : string) : string :=
  match name with String "/" _ => name | _ => String "/" name end.

(** A gcp-sm path names a project and a secret, or a secret of the project to be filled in. *)
Inductive gcp_names : string -> string -> string -> Prop :=
  | gcp_of_project project secret :
      project <> "" -> has_byte "/" project = false -> secret <> "" ->
      gcp_names (project ++ String "/" secret) project secret
  | gcp_of_placeholder path :
      (forall project secret, project <> "" -> has_byte "/" project = false -> secret <> "" ->
         path <> project ++ String "/" secret) ->
      gcp_names path "PROJECT" path.

(** What follows the first slash of a path, and a path without one. *)
Inductive after_slash : string -> string -> Prop :=
  | after_first head rest : has_byte "/" head = false -> after_slash (head ++ String "/" rest) rest
  | after_none path : has_byte "/" path = false -> after_slash path path.

Lemma awsParameterARN_absolute path : awsParameterARN path = "arn:aws:ssm:*:*:parameter" ++ absolute path.
Proof.
  unfold awsParameterARN, absolute, TrimPrefix. destruct path as [|c path]; [done|]. simpl.
  destruct c as [[] [] [] [] [] [] [] []]; try done. by destruct path.
Qed.

Lemma gcpResourceName_names path resource :
  resource = gcpResourceName path <->
  exists project secret, gcp_names path project secret /\ resource = "projects/" ++ project ++ "/secrets/" ++ secret.
Proof.
  assert (Hfun : forall project secret, gcp_names path project secret ->
    gcpResourceName path = "projects/" ++ project ++ "/secrets/" ++ secret).
  { unfold gcpResourceName. intros project secret [pr se Hp Hs Hn|p Hp].
    - by rewrite Cut_app, !bool_decide_eq_false_2 by done.
    - destruct (Cut p "/") as [[pr se]|] eqn:Ec; [|done]. apply Cut_Some in Ec as [-> Hs].
      case_bool_decide; [done|]. case_bool_decide; [done|]. by destruct (Hp pr se). }
  split; [|by intros (pr & se & H%Hfun & ->)]. intros ->.
  assert (Hn : exists project secret, gcp_names path project secret); [|destruct Hn as (pr & se & Hn); eauto].
  destruct (Cut path "/") as [[pr se]|] eqn:Ec.
  - apply Cut_Some in Ec as [-> Hs]. destruct (decide (pr = "")) as [->|Hp]; [|destruct (decide (se = "")) as [->|He]].
    + eexists _, _. apply gcp_of_placeholder. intros [|c p] s Hp Hs' _ E; [done|].
      simpl in E. injection E as <- _. by simpl in Hs'.
    + eexists _, _. apply gcp_of_placeholder. intros p s Hp' Hs' He E.
      pose proof (Cut_app pr "/" "" Hs) as C. rewrite E, Cut_app in C by done. by simplify_eq.
    + by eexists _, _; constructor.
  - apply Cut_None in Ec. exists "PROJECT", path. apply gcp_of_placeholder. intros p s _ _ _ ->.
    by rewrite has_byte_app in Ec; apply orb_false_iff in Ec as [_ ?].
Qed.

Lemma gcp_secret_after path key : key = gcp_secret path <-> after_slash path key.
Proof.
  unfold gcp_secret. split.
  - intros ->. destruct (Cut path "/") as [[h r]|] eqn:Ec.
    + apply Cut_Some in Ec as [-> ?]. by constructor.
    + apply Cut_None in Ec. by constructor.
  - intros [h r Hh|p Hp]; [by rewrite Cut_app|]. by rewrite (proj2 (Cut_None _ _)).
Qed.


(** Two entries of a manifest can get one key of the Secret: the number that tells
    a repeated name apart can spell another name. *)
Lemma external_secret_key_collision :
  map es_secretKey (external_entries {["aws-sm" := ["a/db"; "b/db"; "c/db-2"]]}) = ["aws-sm-db"; "aws-sm-db-2"; "aws-sm-db-2"].
Proof. by vm_compute. Qed.

(** A path of digits is written bare, which YAML reads as a number. *)
Lemma yamlScalar_number : yamlScalar "12345" = "12345".
Proof. by vm_compute. Qed.

(** * Instances *)

Definition service_config : config_struct := MkConfig "svc" "Config" service_type ["DB.Pool"].

