(* ===== verification/SurfaceDiff.v ===== *)
(** Comparing two configuration surfaces, [mamori diff] (src/cmd/mamori/diffmodel.go,
    diff.go, and the text helpers of diffrender.go): what changed between two
    extracted sets of structs, and the exit code that gates a merge on it. *)

From S2P Require Import Prelude Errors GoStrings Ref Provider Decode GoNumbers Fields GoPath SourceTag PolicyDoc.
Open Scope string_scope.
Open Scope Z_scope.

(** * The model of a diff *)

(** [type ChangeKind string]. *)
Inductive ChangeKind := ChangeAdded | ChangeRemoved | ChangeModified | ChangeMoved.
#[export] Instance ChangeKind_eq_dec : EqDecision ChangeKind.
Proof. solve_decision. Defined.

Definition attrAbsent : string := "(none)".

(** [type AttrChange], [type RefChange], [type FieldDiff], [type StructDiff]. *)
Record AttrChange := MkAttrChange { ac_Name : string; ac_Base : string; ac_Head : string }.
Record RefChange := MkRefChange { rc_Kind : ChangeKind; rc_Ref : string; rc_BasePos : Z; rc_HeadPos : Z }.
Record FieldDiff := MkFieldDiff {
  fd_Path : string;
  fd_Kind : ChangeKind;
  fd_Attrs : list AttrChange;
  fd_Refs : list RefChange;
  fd_BecameSensitive : bool;
  fd_Field : option Field;
}.
Record StructDiff := MkStructDiff { sd_Package : string; sd_TypeName : string; sd_Kind : ChangeKind; sd_Fields : list FieldDiff }.

(** [type PrivilegeDelta struct] and [type Diff struct]. *)
Record PrivilegeDelta := MkDelta { pd_Added : gmap string (list string); pd_Removed : gmap string (list string) }.
Record Diff := MkDiff { df_Structs : list StructDiff; df_Privilege : PrivilegeDelta }.

(** [func (d Diff) Empty() bool] and [func (d Diff) PrivilegeGrew() bool]. *)
Definition Empty (d : Diff) : bool :=
  bool_decide (length (df_Structs d) = 0%nat) && bool_decide (pd_Added (df_Privilege d) = ∅) &&
  bool_decide (pd_Removed (df_Privilege d) = ∅).
Definition PrivilegeGrew (d : Diff) : bool := negb (bool_decide (pd_Added (df_Privilege d) = ∅)).

(** * Chains, attributes, fields *)

(** [func firstIndexOf(chain []string) map[string]int], from position [i]. *)
Fixpoint first_index_from (i : Z) (chain : list string) : gmap string Z :=
  match chain with [] => ∅ | r :: chain => <[r := i]> (first_index_from (i + 1) chain) end.
Definition firstIndexOf (chain : list string) : gmap string Z := first_index_from 0 chain.

(** The keys of two maps, sorted. *)
Definition union_keys {A B} (a : gmap string A) (b : gmap string B) : list string :=
  merge_sort str_le (elements (dom a ∪ dom b)).

Definition ref_change (base head : gmap string Z) (r : string) : option RefChange :=
  match base !! r, head !! r with
  | Some b, None => Some (MkRefChange ChangeRemoved r b (-1))
  | None, Some h => Some (MkRefChange ChangeAdded r (-1) h)
  | Some b, Some h => if bool_decide (b = h) then None else Some (MkRefChange ChangeMoved r b h)
  | None, None => None
  end.

(** [func diffChain(base, head []string) []RefChange]. *)
Definition diffChain (base head : list string) : list RefChange :=
  let basePos := firstIndexOf base in
  let headPos := firstIndexOf head in
  omap (ref_change basePos headPos) (union_keys basePos headPos).

(** [func defaultAttr(f Field) string]. *)
Definition defaultAttr (f : Field) : string := if f_HasDefault f then f_Default f else attrAbsent.

Definition FormatBool (b : bool) : string := if b then "true" else "false".

Definition attr_change (name b h : string) : list AttrChange := if bool_decide (b = h) then [] else [MkAttrChange name b h].

(** [func diffAttrs(base, head Field) []AttrChange]. *)
Definition diffAttrs (base head : Field) : list AttrChange :=
  (attr_change "GoType" (f_GoType base) (f_GoType head) ++
   attr_change "Default" (defaultAttr base) (defaultAttr head) ++
   attr_change "Optional" (FormatBool (f_Optional base)) (FormatBool (f_Optional head)) ++
   attr_change "Sensitive" (FormatBool (f_Sensitive base)) (FormatBool (f_Sensitive head)) ++
   attr_change "OnFail" (f_OnFail base) (f_OnFail head) ++
   attr_change "Validate" (f_Validate base) (f_Validate head))%list.

(** [func indexFields(in []Field) map[string]Field]: the first of a path. *)
Fixpoint indexFields (fs : list Field) : gmap string Field :=
  match fs with [] => ∅ | f :: fs => <[f_Path f := f]> (indexFields fs) end.

(** One turn of the loop of [diffFields]. *)
Definition diff_field (base head : gmap string Field) (p : string) : option FieldDiff :=
  match base !! p, head !! p with
  | Some b, None => Some (MkFieldDiff p ChangeRemoved [] [] false (Some b))
  | None, Some h => Some (MkFieldDiff p ChangeAdded [] [] false (Some h))
  | Some b, Some h =>
      match diffAttrs b h, diffChain (f_Refs b) (f_Refs h) with
      | [], [] => None
      | attrs, refs => Some (MkFieldDiff p ChangeModified attrs refs (negb (f_Sensitive b) && f_Sensitive h) None)
      end
  | None, None => None
  end.

(** [func diffFields(base, head []Field) []FieldDiff]. *)
Definition diffFields (base head : list Field) : list FieldDiff :=
  let baseByPath := indexFields base in
  let headByPath := indexFields head in
  omap (diff_field baseByPath headByPath) (union_keys baseByPath headByPath).

(** * Structs and privileges *)

(** [type structKey struct], and the order of [sort.Slice]. *)
Definition structKey : Type := string * string.
Definition key_le (a b : structKey) : Prop := (a.1 <> b.1 /\ str_le a.1 b.1) \/ (a.1 = b.1 /\ str_le a.2 b.2).
#[export] Instance key_le_dec : RelDecision key_le.
Proof. intros a b. unfold key_le, str_le. apply _. Defined.

(** [func indexStructs(in []StructInfo) map[structKey]StructInfo]. *)
Fixpoint indexStructs (l : list StructInfo) : gmap (string * string) StructInfo :=
  match l with [] => ∅ | s :: l => <[(s_Package s, s_TypeName s) := s]> (indexStructs l) end.

(** One turn of the loop of [computeDiff]. *)
Definition diff_struct (base head : gmap (string * string) StructInfo) (k : string * string) : option StructDiff :=
  match base !! k, head !! k with
  | Some _, None => Some (MkStructDiff k.1 k.2 ChangeRemoved [])
  | None, Some _ => Some (MkStructDiff k.1 k.2 ChangeAdded [])
  | Some b, Some h =>
      match diffFields (s_Fields b) (s_Fields h) with
      | [] => None
      | fields => Some (MkStructDiff k.1 k.2 ChangeModified fields)
      end
  | None, None => None
  end.

(** [func missingFrom(want, have []string) []string]. *)
Definition missingFrom (want have : list string) : list string := filter (fun w => w ∉ have) want.

(** The buckets of [want] that have something [have] lacks, over the schemes of
    [unionSchemes]. *)
Definition gained (want have : gmap string (list string)) (schemes : list string) : gmap string (list string) :=
  foldl (fun m scheme =>
    match missingFrom (refs_of want scheme) (refs_of have scheme) with [] => m | added => <[scheme := added]> m end) ∅ schemes.

(** [func computePrivilegeDelta(base, head []StructInfo) PrivilegeDelta]. *)
Definition computePrivilegeDelta (base head : list StructInfo) : PrivilegeDelta :=
  let baseRefs := collectPolicyRefs base in
  let headRefs := collectPolicyRefs head in
  let schemes := union_keys baseRefs headRefs in
  MkDelta (gained headRefs baseRefs schemes) (gained baseRefs headRefs schemes).

(** [func computeDiff(base, head []StructInfo) Diff]. *)
Definition computeDiff (base head : list StructInfo) : Diff :=
  let baseByKey := indexStructs base in
  let headByKey := indexStructs head in
  let keys := merge_sort key_le (elements (dom baseByKey ∪ dom headByKey)) in
  MkDiff (omap (diff_struct baseByKey headByKey) keys) (computePrivilegeDelta base head).

(** * The command *)

(** [type diffOptions struct]. *)
Record diffOptions := MkDiffOptions {
  do_baseFile : string;
  do_headFile : string;
  do_jsonOut : bool;
  do_markdown : bool;
  do_exitCode : string;
  do_policyFormat : string;
}.

(** The loop of [parseDiffArgs], with the operands so far. *)
Fixpoint diff_args_loop (o : diffOptions) (operands : list string) (args : list string) : res (diffOptions * list string) :=
  match args with
  | [] => Ok (o, operands)
  | a :: rest =>
      if flag_alone "json" a then
        diff_args_loop (MkDiffOptions "" "" true (do_markdown o) (do_exitCode o) (do_policyFormat o)) operands rest
      else if flag_alone "markdown" a then
        diff_args_loop (MkDiffOptions "" "" (do_jsonOut o) true (do_exitCode o) (do_policyFormat o)) operands rest
      else if flag_alone "exit-code" a then
        diff_args_loop (MkDiffOptions "" "" (do_jsonOut o) (do_markdown o) "any" (do_policyFormat o)) operands rest
      else match flag_inline "exit-code" a with
      | Some v => diff_args_loop (MkDiffOptions "" "" (do_jsonOut o) (do_markdown o) v (do_policyFormat o)) operands rest
      | None =>
          match flag_inline "policy-format" a with
          | Some v => diff_args_loop (MkDiffOptions "" "" (do_jsonOut o) (do_markdown o) (do_exitCode o) v) operands rest
          | None =>
              if flag_alone "policy-format" a then
                match rest with
                | [] => Err errUsage
                | v :: rest =>
                    diff_args_loop (MkDiffOptions "" "" (do_jsonOut o) (do_markdown o) (do_exitCode o) v) operands rest
                end
              else if bool_decide (a = "-") then diff_args_loop o (operands ++ [a]) rest
              else if HasPrefix a "-" then Err errUsage
              else diff_args_loop o (operands ++ [a]) rest
          end
      end
  end.

(** [func parseDiffArgs(args []string) (diffOptions, error)]. *)
Definition parseDiffArgs (args : list string) : res diffOptions :=
  match diff_args_loop (MkDiffOptions "" "" false false "" "") [] args with
  | Err e => Err e
  | Ok (o, [base; head]) =>
      if bool_decide (base = "-") && bool_decide (head = "-") then Err errUsage
      else if do_jsonOut o && do_markdown o then Err errUsage
      else if negb (bool_decide (do_exitCode o ∈ [""; "any"; "privilege"])) then Err errUsage
      else if negb (bool_decide (do_policyFormat o ∈ "" :: supportedPolicyFormats)) then Err errUsage
      else Ok (MkDiffOptions base head (do_jsonOut o) (do_markdown o) (do_exitCode o) (do_policyFormat o))
  | Ok _ => Err errUsage
  end.

(** [func (c *diffConfig) run(args, stdout, stderr) int], over [loadExplainJSON]:
    the exit code, and the diff that is rendered. *)
Definition diff_run (loadExplainJSON : string -> res (list StructInfo)) (args : list string) : Z * option Diff :=
  if wantsHelp args then (0, None)
  else
    match parseDiffArgs args with
    | Err _ => (1, None)
    | Ok opts =>
        match loadExplainJSON (do_baseFile opts) with
        | Err _ => (1, None)
        | Ok base =>
            match loadExplainJSON (do_headFile opts) with
            | Err _ => (1, None)
            | Ok head =>
                let d := computeDiff base head in
                let code :=
                  if bool_decide (do_exitCode opts = "any") then (if negb (Empty d) then 2 else 0)
                  else if bool_decide (do_exitCode opts = "privilege") then (if PrivilegeGrew d then 2 else 0)
                  else 0 in
                (code, Some d)
            end
        end
    end.

(** * Rendering *)

(** [func sanitizeControl(s string) string]: [strings.Map], one rune at a time. *)
Fixpoint sanitize_control_loop (fuel : nat) (s : string) : string :=
  match fuel, s with
  | S fuel, String _ _ =>
      let '(r, n) := DecodeRune s in
      (if (r =? 127) || (r <? 32) then " " else rune_text r n s) ++ sanitize_control_loop fuel (str_drop n s)
  | _, _ => ""
  end.
Definition sanitizeControl (s : string) : string := sanitize_control_loop (String.length s) s.

Definition tick : ascii := "`"%char.

(** The longest run of backticks of a line, [run] being the one before it. *)
Fixpoint longest_run (run : nat) (l : string) : nat :=
  match l with
  | EmptyString => run
  | String c l => if ascii_eqb c tick then longest_run (S run) l else Nat.max run (longest_run 0 l)
  end.

(** [func mdFence(lines []string) string]: the number of backticks. *)
Definition mdFence (lines : list string) : nat :=
  let longest := foldr (fun l n => Nat.max (longest_run 0 l) n) 0%nat lines in
  if (3 <=? longest)%nat then S longest else 3.

(** [func concreteGrant(scheme, path, policyFormat string) string]. *)
Definition concreteGrant (scheme path policyFormat : string) : string :=
  if bool_decide (policyFormat = formatAWSIAM) then
    if bool_decide (scheme = awsSMScheme) then "secretsmanager:GetSecretValue on " ++ awsSecretARN path
    else if bool_decide (scheme = awsPSScheme) then "ssm:GetParameter on " ++ awsParameterARN path else ""
  else if bool_decide (policyFormat = formatGCP) then
    if bool_decide (scheme = gcpSMScheme) then gcpSecretAccessorRole ++ " on " ++ gcpResourceName path else ""
  else if bool_decide (policyFormat = formatExternalSecret) then
    if bool_decide (scheme ∈ [awsSMScheme; awsPSScheme; gcpSMScheme]) then "ExternalSecret remoteRef.key " ++ path else ""
  else "".

(** [func privilegeSide(byScheme, marker, policyFormat) []string]. *)
Definition privilegeSide (byScheme : gmap string (list string)) (marker policyFormat : string) : list string :=
  flat_map (fun scheme =>
    map (fun path =>
      let grant := concreteGrant scheme (sanitizeControl path) policyFormat in
      marker ++ " " ++ sanitizeControl scheme ++ "  " ++ sanitizeControl path ++
        (if bool_decide (grant = "") then "" else "  " ++ grant)) (refs_of byScheme scheme)) (sorted_keys byScheme).

(** [func privilegeLines(d PrivilegeDelta, policyFormat string) []string]. *)
Definition privilegeLines (d : PrivilegeDelta) (policyFormat : string) : list string :=
  (privilegeSide (pd_Added d) "+" policyFormat ++ privilegeSide (pd_Removed d) "-" policyFormat)%list.

(** * Facts *)

Lemma omap_nil {A B} (f : A -> option B) l : omap f l = [] <-> forall x, x ∈ l -> f x = None.
Proof.
  induction l as [|x l IH]; simpl; [split; [by intros _ ? ?%elem_of_nil|done]|].
  change (list_omap A B f l) with (omap f l) in *. split.
  - destruct (f x) eqn:E; [done|]. intros H y [->|Hy]%elem_of_cons; [done|]. by apply IH.
  - intros H. rewrite (H x) by constructor. apply IH. intros y Hy. apply H. by constructor.
Qed.

Lemma elem_of_union_keys {A B} (a : gmap string A) (b : gmap string B) k :
  k ∈ union_keys a b <-> is_Some (a !! k) \/ is_Some (b !! k).
Proof. unfold union_keys. by rewrite merge_sort_Permutation, elem_of_elements, elem_of_union, !elem_of_dom. Qed.

(** A comparison key by key finds nothing exactly when the two maps, seen through
    what is compared, are equal. *)
Lemma no_difference {K A V D} `{Countable K} (view : A -> V) (d : gmap K A -> gmap K A -> K -> option D) (a b : gmap K A) keys :
  (forall k, k ∈ keys <-> is_Some (a !! k) \/ is_Some (b !! k)) ->
  (forall k, d a b k = None <-> match a !! k, b !! k with
     | Some x, Some y => view x = view y | None, None => True | _, _ => False end) ->
  omap (d a b) keys = [] <-> view <$> a = view <$> b.
Proof.
  intros Hk Hd. rewrite omap_nil. split.
  - intros Hn. apply map_eq. intros k. rewrite !lookup_fmap. destruct (decide (k ∈ keys)) as [Hin|Hout].
    + specialize (Hn k Hin). rewrite Hd in Hn. destruct (a !! k), (b !! k); simpl; try done. by rewrite Hn.
    + rewrite Hk in Hout. destruct (a !! k) eqn:Ea; [by destruct Hout; left|].
      destruct (b !! k) eqn:Eb; [by destruct Hout; right|done].
  - intros E k _. rewrite Hd. apply (f_equal (fun m => m !! k)) in E. rewrite !lookup_fmap in E.
    destruct (a !! k), (b !! k); simpl in E; try done. by injection E.
Qed.

Lemma FormatBool_inj a b : FormatBool a = FormatBool b -> a = b.
Proof. by destruct a, b. Qed.

(** What the comparison of two fields looks at. *)
Definition view (f : Field) : string * string * bool * bool * string * string * gmap string Z :=
  (f_GoType f, defaultAttr f, f_Optional f, f_Sensitive f, f_OnFail f, f_Validate f, firstIndexOf (f_Refs f)).

Lemma diffChain_nil base head : diffChain base head = [] <-> firstIndexOf base = firstIndexOf head.
Proof.
  unfold diffChain. rewrite (no_difference (fun i : Z => i) (fun a b => ref_change a b)).
  - by rewrite !map_fmap_id.
  - apply elem_of_union_keys.
  - intros k. unfold ref_change. destruct (_ !! k), (_ !! k); try done. by case_bool_decide.
Qed.

Lemma diffAttrs_nil a b : diffAttrs a b = [] <->
  f_GoType a = f_GoType b /\ defaultAttr a = defaultAttr b /\ f_Optional a = f_Optional b /\
  f_Sensitive a = f_Sensitive b /\ f_OnFail a = f_OnFail b /\ f_Validate a = f_Validate b.
Proof.
  assert (Ha : forall n x y, attr_change n x y = [] <-> x = y).
  { intros n x y. unfold attr_change. by case_bool_decide. }
  unfold diffAttrs. rewrite !app_nil, !Ha. split.
  - intros (? & ? & H1%FormatBool_inj & H2%FormatBool_inj & ? & ?). done.
  - intros (-> & -> & -> & -> & -> & ->). done.
Qed.

Lemma diffFields_nil base head : diffFields base head = [] <-> view <$> indexFields base = view <$> indexFields head.
Proof.
  unfold diffFields. apply no_difference; [apply elem_of_union_keys|]. intros k. unfold diff_field.
  destruct (indexFields base !! k) as [b|], (indexFields head !! k) as [h|]; try done. unfold view.
  pose proof (diffAttrs_nil b h) as Ha. pose proof (diffChain_nil (f_Refs b) (f_Refs h)) as Hc.
  destruct (diffAttrs b h) as [|x l].
  - destruct (diffChain (f_Refs b) (f_Refs h)) as [|y l'].
    + split; [|done]. intros _. destruct (proj1 Ha eq_refl) as (-> & -> & -> & -> & -> & ->). by rewrite (proj1 Hc eq_refl).
    + split; [done|]. intros [= ? ? ? ? ? ? E]. by apply Hc in E.
  - split; [done|]. intros [= E1 E2 E3 E4 E5 E6 _]. assert (Hnil : x :: l = []) by (apply Ha; done). done.
Qed.

(** The surface of a set of structs: by package and name, then by path, what is
    compared of each field. *)
Definition surface (structs : list StructInfo) :=
  (fun s => view <$> indexFields (s_Fields s)) <$> indexStructs structs.

Lemma structs_nil base head : df_Structs (computeDiff base head) = [] <-> surface base = surface head.
Proof.
  unfold computeDiff, surface. cbn [df_Structs]. apply no_difference.
  - intros k. by rewrite merge_sort_Permutation, elem_of_elements, elem_of_union, !elem_of_dom.
  - intros k. unfold diff_struct. destruct (indexStructs base !! k) as [b|], (indexStructs head !! k) as [h|]; try done.
    rewrite <- diffFields_nil. by destruct (diffFields (s_Fields b) (s_Fields h)).
Qed.

(** The privileges gained: exactly what one side has and the other has not. *)
Lemma refs_of_gained want have schemes scheme :
  refs_of (gained want have schemes) scheme =
  if decide (scheme ∈ schemes) then missingFrom (refs_of want scheme) (refs_of have scheme) else [].
Proof.
  induction schemes as [|sc schemes IH] using rev_ind; [done|]. unfold gained in *. rewrite foldl_snoc.
  set (m := foldl _ ∅ schemes) in *. clearbody m. destruct (decide (sc = scheme)) as [->|Hne].
  - rewrite decide_True by (apply elem_of_app; right; constructor).
    destruct (missingFrom (refs_of want scheme) (refs_of have scheme)) as [|x l].
    + rewrite IH. destruct (decide (scheme ∈ schemes)); reflexivity.
    + unfold refs_of. by rewrite lookup_insert_eq.
  - assert (E : refs_of (match missingFrom (refs_of want sc) (refs_of have sc) with [] => m | added => <[sc := added]> m end) scheme
        = refs_of m scheme).
    { destruct (missingFrom (refs_of want sc) (refs_of have sc)) as [|x l]; [done|]. unfold refs_of. by rewrite lookup_insert_ne. }
    rewrite E, IH. destruct (decide (scheme ∈ schemes)) as [Hi|Hn].
    + rewrite decide_True; [done|]. apply elem_of_app. by left.
    + rewrite decide_False; [done|]. intros [?|Hl]%elem_of_app; [done|]. apply list_elem_of_singleton in Hl. congruence.
Qed.

Lemma gained_spec want have schemes scheme path :
  path ∈ refs_of (gained want have schemes) scheme <->
  scheme ∈ schemes /\ path ∈ refs_of want scheme /\ path ∉ refs_of have scheme.
Proof.
  rewrite refs_of_gained. destruct (decide (scheme ∈ schemes)) as [Hi|Hn].
  - unfold missingFrom. rewrite list_elem_of_filter. naive_solver.
  - split; [by intros ?%elem_of_nil|naive_solver].
Qed.

Lemma gained_empty want have schemes : (forall scheme, is_Some (want !! scheme) -> scheme ∈ schemes) ->
  gained want have schemes = ∅ <-> forall scheme path, path ∈ refs_of want scheme -> path ∈ refs_of have scheme.
Proof.
  intros Hs. split.
  - intros E scheme path Hp. destruct (decide (path ∈ refs_of have scheme)) as [|Hn]; [done|].
    assert (Hin : path ∈ refs_of (gained want have schemes) scheme).
    { apply gained_spec. split; [|done]. apply Hs. unfold refs_of in Hp. destruct (want !! scheme); [done|].
      by apply elem_of_nil in Hp. }
    rewrite E in Hin. by apply elem_of_nil in Hin.
  - intros Hall. unfold gained. assert (Hnil : forall scheme, missingFrom (refs_of want scheme) (refs_of have scheme) = []).
    { intros scheme. unfold missingFrom. destruct (filter _ _) as [|x l] eqn:E; [done|].
      assert (Hx : x ∈ filter (fun w => w ∉ refs_of have scheme) (refs_of want scheme)) by (rewrite E; constructor).
      apply list_elem_of_filter in Hx as [Hn Hx]. by destruct Hn; apply Hall. }
    induction schemes as [|sc schemes IH] using rev_ind; [done|]. rewrite foldl_snoc, Hnil.
    clear IH Hs. induction schemes as [|sc' schemes IH] using rev_ind; [done|]. by rewrite foldl_snoc, Hnil.
Qed.

Lemma delta_spec base head scheme path :
  (path ∈ refs_of (pd_Added (computePrivilegeDelta base head)) scheme <->
     named head scheme path /\ ~ named base scheme path) /\
  (path ∈ refs_of (pd_Removed (computePrivilegeDelta base head)) scheme <->
     named base scheme path /\ ~ named head scheme path).
Proof.
  unfold computePrivilegeDelta. cbn [pd_Added pd_Removed]. rewrite !gained_spec, elem_of_union_keys.
  rewrite !(proj1 (collectPolicyRefs_spec _ _)).
  assert (Hin : forall structs, named structs scheme path -> is_Some (collectPolicyRefs structs !! scheme)).
  { intros structs Hn. apply collectPolicyRefs_spec in Hn. unfold refs_of in Hn.
    destruct (collectPolicyRefs structs !! scheme); [done|]. by apply elem_of_nil in Hn. }
  pose proof (Hin base). pose proof (Hin head). naive_solver.
Qed.

Lemma no_gain base head :
  (pd_Added (computePrivilegeDelta base head) = ∅ <-> forall scheme path, named head scheme path -> named base scheme path) /\
  (pd_Removed (computePrivilegeDelta base head) = ∅ <-> forall scheme path, named base scheme path -> named head scheme path).
Proof.
  unfold computePrivilegeDelta. cbn [pd_Added pd_Removed].
  rewrite !gained_empty by (intros scheme Hs; apply elem_of_union_keys; auto).
  setoid_rewrite (fun structs scheme => proj1 (collectPolicyRefs_spec structs scheme)). done.
Qed.

Lemma Empty_spec base head :
  Empty (computeDiff base head) = true <->
  surface base = surface head /\ forall scheme path, named base scheme path <-> named head scheme path.
Proof.
  unfold Empty. rewrite !andb_true_iff, !bool_decide_eq_true, length_zero_iff_nil, structs_nil.
  change (df_Privilege (computeDiff base head)) with (computePrivilegeDelta base head).
  destruct (no_gain base head) as [-> ->]. naive_solver.
Qed.

(** No line of the block closes its fence. *)
Lemma longest_run_ge run l : (run <= longest_run run l)%nat.
Proof.
  revert run. induction l as [|c l IH]; intros run; simpl; [lia|]. destruct (ascii_eqb c tick); [|lia].
  specialize (IH (S run)). lia.
Qed.

Lemma longest_run_ticks n run a c :
  (n + (if bool_decide (a = "") then run else 0) <= longest_run run (a ++ Nat.iter n (String tick) c))%nat.
Proof.
  revert run. induction a as [|x a IH]; intros run.
  - change ("" ++ Nat.iter n (String tick) c) with (Nat.iter n (String tick) c). rewrite bool_decide_eq_true_2 by done.
    revert run. induction n as [|n IHn]; intros run; [apply longest_run_ge|].
    specialize (IHn (S run)). cbn [Nat.iter longest_run]. change (ascii_eqb tick tick) with true. cbv iota. simpl in IHn |- *. lia.
  - rewrite str_app_cons. simpl. destruct (ascii_eqb x tick).
    + specialize (IH (S run)). case_bool_decide; lia.
    + specialize (IH 0%nat). case_bool_decide; lia.
Qed.

Lemma mdFence_not_closed lines line a c :
  line ∈ lines -> line = a ++ Nat.iter (mdFence lines) (String tick) c -> False.
Proof.
  intros Hin ->. pose proof (longest_run_ticks (mdFence lines) 0 a c) as Hr. unfold mdFence in *.
  set (longest := foldr _ 0%nat lines) in *.
  assert (Hl : (longest_run 0 (a ++ Nat.iter (if (3 <=? longest)%nat then S longest else 3) (String tick) c) <= longest)%nat).
  { generalize dependent (a ++ Nat.iter (if (3 <=? longest)%nat then S longest else 3) (String tick) c). intros l Hin _.
    subst longest. induction lines as [|l' lines IH]; [by apply elem_of_nil in Hin|]. simpl.
    apply elem_of_cons in Hin as [->|Hin]; [lia|]. specialize (IH Hin). lia. }
  destruct (Nat.leb_spec 3 longest); lia.
Qed.

(** * Properties *)

(** A merge gate that misses nothing. For two versions of a program with
    plain tags, whose specs the library loads: the delta lists exactly the backend
    paths that the new version reads and the old did not, and conversely; with
    [--exit-code=privilege] the command exits 2 exactly when there is such a path;
    with [--exit-code] exactly when the surface - structs, paths, types, defaults,
    flags, rules, chains in order - or the set of paths differs; and 0 otherwise. *)
Theorem diff_gates_exactly gz vars TypeString schemes load args opts base head base_specs head_specs :
  loads gz vars base base_specs -> loads gz vars head head_specs ->
  wantsHelp args = false -> parseDiffArgs args = Ok opts ->
  load (do_baseFile opts) = Ok (map (extracted TypeString schemes) base) ->
  load (do_headFile opts) = Ok (map (extracted TypeString schemes) head) ->
  let reads_path := fun specss scheme path => exists r, reads specss r /\ ref_Scheme r = scheme /\ ref_Path r = path in
  exists code d, diff_run load args = (code, Some d) /\
    (forall scheme path, path ∈ refs_of (pd_Added (df_Privilege d)) scheme <->
       reads_path head_specs scheme path /\ ~ reads_path base_specs scheme path) /\
    (forall scheme path, path ∈ refs_of (pd_Removed (df_Privilege d)) scheme <->
       reads_path base_specs scheme path /\ ~ reads_path head_specs scheme path) /\
    (code = 0 \/ code = 2) /\
    (code = 0 <->
       (do_exitCode opts = "privilege" -> forall scheme path, reads_path head_specs scheme path -> reads_path base_specs scheme path) /\
       (do_exitCode opts = "any" ->
          surface (map (extracted TypeString schemes) base) = surface (map (extracted TypeString schemes) head) /\
          forall scheme path, reads_path base_specs scheme path <-> reads_path head_specs scheme path)).
Proof.
  intros Hb Hh Hhelp Hargs Hlb Hlh reads_path. unfold diff_run. rewrite Hhelp, Hargs, Hlb, Hlh.
  assert (Hnb : forall scheme path, named (map (extracted TypeString schemes) base) scheme path <-> reads_path base_specs scheme path)
    by (intros; by eapply named_reads).
  assert (Hnh : forall scheme path, named (map (extracted TypeString schemes) head) scheme path <-> reads_path head_specs scheme path)
    by (intros; by eapply named_reads).
  set (b := map _ base) in *. set (h := map _ head) in *. eexists _, _. split; [done|].
  split; [intros; rewrite (proj1 (delta_spec b h scheme path)), Hnb, Hnh; done|].
  split; [intros; rewrite (proj2 (delta_spec b h scheme path)), Hnb, Hnh; done|].
  pose proof (Empty_spec b h) as He. setoid_rewrite Hnb in He. setoid_rewrite Hnh in He.
  pose proof (proj1 (no_gain b h)) as Hg. setoid_rewrite Hnb in Hg. setoid_rewrite Hnh in Hg.
  case_bool_decide as Hany; [|case_bool_decide as Hpriv].
  - split; [destruct (negb _); auto|]. rewrite Hany. rewrite <- He. destruct (Empty (computeDiff b h)); simpl; naive_solver.
  - split; [destruct (PrivilegeGrew _); auto|]. rewrite Hpriv.
    unfold PrivilegeGrew. change (df_Privilege (computeDiff b h)) with (computePrivilegeDelta b h). rewrite <- Hg.
    case_bool_decide; simpl; naive_solver.
  - split; [by left|]. naive_solver.
Qed.

(** A field that gains a default spelled [(none)] does not show as changed. *)
Lemma default_none_is_invisible :
  diffFields [MkField "A" KindSource "string" "env:A" ["env:A"] "" false false false "" ""]
             [MkField "A" KindSource "string" "env:A" ["env:A"] "(none)" true false false "" ""] = [].
Proof. by vm_compute. Qed.

(** * Instances *)

Definition grown_type : gtype :=
  TStruct [ ("Port", true, [("source", "env:PORT,aws-ps://svc/port"); ("default", "80")], TInt 64);
            ("Pass", true, [("source", "aws-sm://prod/db#pw")], TSecretString) ].
Definition old_type : gtype :=
  TStruct [ ("Port", true, [("source", "env:PORT,aws-ps://svc/port"); ("default", "80")], TInt 64) ].

Definition gate_load (file : string) : res (list StructInfo) :=
  Ok (map (extracted (fun _ => "") DefaultSecretSchemes)
        [MkConfig "svc" "Config" (if bool_decide (file = "base.json") then old_type else grown_type) []]).

Lemma diff_gates_exactly_witness :
  exists d, diff_run gate_load ["base.json"; "head.json"; "--exit-code=privilege"] = (2, Some d) /\
    "prod/db" ∈ refs_of (pd_Added (df_Privilege d)) "aws-sm".
Proof.
  destruct (fieldSpecs (fun s => Some (s, true)) ∅ old_type) as [bs|e] eqn:Eb; [|by vm_compute in Eb].
  destruct (fieldSpecs (fun s => Some (s, true)) ∅ grown_type) as [hs|e] eqn:Eh; [|by vm_compute in Eh].
  destruct (diff_gates_exactly (fun s => Some (s, true)) ∅ (fun _ => "") DefaultSecretSchemes gate_load
    ["base.json"; "head.json"; "--exit-code=privilege"] (MkDiffOptions "base.json" "head.json" false false "privilege" "")
    [MkConfig "svc" "Config" old_type []] [MkConfig "svc" "Config" grown_type []] [bs] [hs])
    as (code & d & Hrun & Hadd & _);
    [apply Forall2_cons; split; [split; [by vm_compute|exact Eb]|apply Forall2_nil; exact I]
    |apply Forall2_cons; split; [split; [by vm_compute|exact Eh]|apply Forall2_nil; exact I]
    |reflexivity|vm_compute; reflexivity|reflexivity|reflexivity|].
  exists d. split.
  - assert (Hcode : code = 2) by (apply (f_equal fst) in Hrun; vm_compute in Hrun; by symmetry).
    by rewrite Hcode in Hrun.
  - rewrite Hadd. split.
      * vm_compute in Eh. injection Eh as <-. eexists. split; [|split].
        -- eexists _, _. split; [constructor|]. split; [right; constructor|constructor].
        -- done.
        -- done.
      * intros (r & (specs & spec & [->|Hn]%elem_of_cons & Hs & Hr) & Hsc & _); [|by apply elem_of_nil in Hn].
        vm_compute in Eb. injection Eb as <-. apply elem_of_cons in Hs as [->|Hs]; [|by apply elem_of_nil in Hs].
        simpl in Hr. rewrite !elem_of_cons, elem_of_nil in Hr. by destruct Hr as [-> | [-> | []]].
Defined.
