(* ===== verification/Clock.v ===== *)
(** The fake clock (src/clock.go): the clock of the tests, of mamoritest and of the
    conformance suite, moved by hand. Each method is a function on the state behind
    its lock; the sends of [Advance], made outside the lock, are steps of their own. *)

From S2P Require Import Prelude.
Open Scope Z_scope.

(** * The clock *)

(** [type waiter struct]: a timer that has not fired and has not been stopped. *)
Record waiter := MkWaiter { w_id : nat; w_deadline : Z }.

(** [type fakeTicker struct]. *)
Record fakeTicker := MkTicker { t_id : nat; t_interval : Z; t_next : Z; t_stopped : bool }.

(** [type blocker struct]: a [BlockUntil] call that waits; [bl_id] is its identity. *)
Record blocker := MkBlocker { bl_id : nat; bl_want : nat }.

(** [type FakeClock struct], with the messages in the channels of its timers and
    tickers (each holds one), and the blockers whose channel is closed. *)
Record FakeClock := MkClock {
  c_now : Z;
  c_waiters : list waiter;
  c_tickers : list fakeTicker;
  c_blockers : list blocker;
  c_nextID : nat;
  c_chans : gmap nat Z;
  c_released : gset nat;
}.

(** [func NewFakeClock(start)], for a start that is not the zero time. *)
Definition NewFakeClock (start : Z) : FakeClock := MkClock start [] [] [] 0 ∅ ∅.

(** [func (c *FakeClock) notifyBlockersLocked()]. *)
Definition notifyBlockers (c : FakeClock) : FakeClock :=
  let n := length (c_waiters c) in
  let reached := filter (fun b => (bl_want b <= n)%nat) (c_blockers c) in
  MkClock (c_now c) (c_waiters c) (c_tickers c) (filter (fun b => ~ (bl_want b <= n)%nat) (c_blockers c)) (c_nextID c)
    (c_chans c) (c_released c ∪ list_to_set (map bl_id reached)).

(** [func (c *FakeClock) NewTimer(d)]: the timer's id is its channel. *)
Definition NewTimer (d : Z) (c : FakeClock) : FakeClock * nat :=
  let id := S (c_nextID c) in
  if d <=? 0 then
    (MkClock (c_now c) (c_waiters c) (c_tickers c) (c_blockers c) id (<[id := c_now c]> (c_chans c)) (c_released c), id)
  else
    (notifyBlockers
       (MkClock (c_now c) (c_waiters c ++ [MkWaiter id (c_now c + d)]) (c_tickers c) (c_blockers c) id (c_chans c)
          (c_released c)), id).

(** [func (c *FakeClock) NewTicker(d)]; it panics on an interval that is not
    positive. *)
Definition NewTicker (d : Z) (c : FakeClock) : option (FakeClock * nat) :=
  if d <=? 0 then None
  else
    let id := S (c_nextID c) in
    Some (MkClock (c_now c) (c_waiters c) (c_tickers c ++ [MkTicker id d (c_now c + d) false]) (c_blockers c) id
            (c_chans c) (c_released c), id).

(** [func (c *FakeClock) removeWaiter(id int) bool], the [Stop] of a timer. *)
Fixpoint remove_waiter (id : nat) (ws : list waiter) : option (list waiter) :=
  match ws with
  | [] => None
  | w :: ws => if bool_decide (w_id w = id) then Some ws else cons w <$> remove_waiter id ws
  end.
Definition removeWaiter (id : nat) (c : FakeClock) : FakeClock * bool :=
  match remove_waiter id (c_waiters c) with
  | Some ws => (MkClock (c_now c) ws (c_tickers c) (c_blockers c) (c_nextID c) (c_chans c) (c_released c), true)
  | None => (c, false)
  end.

(** [func (c *FakeClock) stopTicker(id int)]. *)
Definition stopTicker (id : nat) (c : FakeClock) : FakeClock :=
  MkClock (c_now c) (c_waiters c)
    (map (fun t => if bool_decide (t_id t = id) then MkTicker (t_id t) (t_interval t) (t_next t) true else t) (c_tickers c))
    (c_blockers c) (c_nextID c) (c_chans c) (c_released c).

(** The critical section of [BlockUntil]: it returns at once, or waits as the
    blocker [id]. *)
Definition BlockUntil (id n : nat) (c : FakeClock) : FakeClock * bool :=
  if (n <=? length (c_waiters c))%nat then (c, true)
  else
    (MkClock (c_now c) (c_waiters c) (c_tickers c) (c_blockers c ++ [MkBlocker id n]) (c_nextID c) (c_chans c)
       (c_released c), false).

(** What a waiting [BlockUntil] returns when its context ends: [removeBlocker],
    then the check of the channel. *)
Definition block_timeout (id : nat) (c : FakeClock) : FakeClock * bool :=
  (MkClock (c_now c) (c_waiters c) (c_tickers c) (filter (fun b => bl_id b <> id) (c_blockers c)) (c_nextID c) (c_chans c)
     (c_released c), bool_decide (id ∈ c_released c)).

(** * Advancing *)

(** The events [Advance] collects: the send of a timer, or of a tick. *)
Inductive clock_event := Fire (id : nat) (at_ : Z) | Tick (id : nat) (at_ : Z).
Definition ev_at (e : clock_event) : Z := match e with Fire _ t => t | Tick _ t => t end.

(** The loop over one ticker: its ticks up to the target, and its next one. *)
Fixpoint ticks (fuel : nat) (interval target next : Z) : list Z * Z :=
  match fuel with
  | O => ([], next)
  | S fuel =>
      if next <=? target then
        let '(l, n) := ticks fuel interval target (next + interval) in (next :: l, n)
      else ([], next)
  end.

(** A tick every nanosecond is the most there can be. *)
Definition tick_fuel (target next : Z) : nat := Z.to_nat (target - next + 1).

Definition ticker_events (target : Z) (t : fakeTicker) : list clock_event :=
  if t_stopped t then [] else map (Tick (t_id t)) (ticks (tick_fuel target (t_next t)) (t_interval t) target (t_next t)).1.

Definition ticker_after (target : Z) (t : fakeTicker) : fakeTicker :=
  if t_stopped t then t
  else MkTicker (t_id t) (t_interval t) (ticks (tick_fuel target (t_next t)) (t_interval t) target (t_next t)).2 false.

(** [sort.SliceStable] by time. *)
Fixpoint insert_event (e : clock_event) (l : list clock_event) : list clock_event :=
  match l with
  | [] => [e]
  | x :: l => if ev_at e <=? ev_at x then e :: x :: l else x :: insert_event e l
  end.
Definition sort_events (l : list clock_event) : list clock_event := foldr insert_event [] l.

(** The critical section of [Advance]. *)
Definition advance (d : Z) (c : FakeClock) : FakeClock * list clock_event :=
  let target := c_now c + d in
  let timers := map (fun w => Fire (w_id w) (w_deadline w)) (filter (fun w => w_deadline w <= target) (c_waiters c)) in
  let events := (timers ++ flat_map (ticker_events target) (c_tickers c))%list in
  (MkClock target (filter (fun w => ~ w_deadline w <= target) (c_waiters c)) (map (ticker_after target) (c_tickers c))
     (c_blockers c) (c_nextID c) (c_chans c) (c_released c), sort_events events).

(** One send, outside the lock: a timer's would block on a full channel ([None]),
    a tick is dropped. *)
Definition fire (e : clock_event) (c : FakeClock) : option FakeClock :=
  let put := fun id at_ =>
    MkClock (c_now c) (c_waiters c) (c_tickers c) (c_blockers c) (c_nextID c) (<[id := at_]> (c_chans c)) (c_released c) in
  match e with
  | Fire id t => match c_chans c !! id with None => Some (put id t) | Some _ => None end
  | Tick id t => match c_chans c !! id with None => Some (put id t) | Some _ => Some c end
  end.

Fixpoint fire_all (es : list clock_event) (c : FakeClock) : option FakeClock :=
  match es with [] => Some c | e :: es => match fire e c with Some c => fire_all es c | None => None end end.

(** [func (c *FakeClock) Advance(d)], with nobody in between. *)
Definition Advance (d : Z) (c : FakeClock) : option FakeClock := let '(c, es) := advance d c in fire_all es c.

(** * The clock among its users *)

(** The messages [Advance] calls still have to send, call by call, beside the clock. *)
Record world := MkWorld { w_clock : FakeClock; w_sends : list (list clock_event) }.

(** One critical section of one call, one send, or one receive by a user. *)
Inductive clock_step : world -> world -> Prop :=
  | S_timer d c es : clock_step (MkWorld c es) (MkWorld (NewTimer d c).1 es)
  | S_ticker d c es c' id : NewTicker d c = Some (c', id) -> clock_step (MkWorld c es) (MkWorld c' es)
  | S_stop id c es : clock_step (MkWorld c es) (MkWorld (removeWaiter id c).1 es)
  | S_stop_ticker id c es : clock_step (MkWorld c es) (MkWorld (stopTicker id c) es)
  | S_block id n c es : clock_step (MkWorld c es) (MkWorld (BlockUntil id n c).1 es)
  | S_timeout id c es : clock_step (MkWorld c es) (MkWorld (block_timeout id c).1 es)
  | S_advance d c es : 0 <= d -> clock_step (MkWorld c es) (MkWorld (advance d c).1 ((advance d c).2 :: es))
  | S_send e l pre post c c' : fire e c = Some c' ->
      clock_step (MkWorld c (pre ++ (e :: l) :: post)%list) (MkWorld c' (pre ++ l :: post)%list)
  | S_receive id c es :
      clock_step (MkWorld c es)
        (MkWorld (MkClock (c_now c) (c_waiters c) (c_tickers c) (c_blockers c) (c_nextID c) (delete id (c_chans c)) (c_released c)) es).

(** The timers a list of messages fires. *)
Fixpoint fired (es : list clock_event) : list nat :=
  match es with [] => [] | Fire id _ :: es => id :: fired es | Tick _ _ :: es => fired es end.

(** The tickers a list of messages ticks. *)
Fixpoint ticked (es : list clock_event) : list nat :=
  match es with [] => [] | Fire _ _ :: es => ticked es | Tick id _ :: es => id :: ticked es end.

(** What holds whenever the lock is free. *)
Record clock_ok (c : FakeClock) : Prop := {
  ok_future : Forall (fun w => c_now c < w_deadline w) (c_waiters c);
  ok_tickers : Forall (fun t => 0 < t_interval t /\ (t_stopped t = false -> c_now c < t_next t)) (c_tickers c);
  ok_blockers : Forall (fun b => (length (c_waiters c) < bl_want b)%nat) (c_blockers c);
}.

(** The timers that can still be sent to, and the tickers. *)
Definition live_timers (w : world) : list nat := (map w_id (c_waiters (w_clock w)) ++ fired (concat (w_sends w)))%list.
Definition live_tickers (w : world) : list nat := (map t_id (c_tickers (w_clock w)) ++ ticked (concat (w_sends w)))%list.

(** Every timer's channel belongs to that timer: it waits, or is about to be sent
    to, or has been sent to, at most once. *)
Record world_ok (w : world) : Prop := {
  ok_clock : clock_ok (w_clock w);
  ok_once : NoDup (live_timers w);
  ok_empty : forall id, id ∈ live_timers w -> c_chans (w_clock w) !! id = None;
  ok_ids : forall id, id ∈ live_timers w \/ id ∈ live_tickers w -> (id <= c_nextID (w_clock w))%nat;
  ok_apart : forall id, id ∈ live_timers w -> id ∉ live_tickers w;
  ok_chans : forall id, is_Some (c_chans (w_clock w) !! id) -> (id <= c_nextID (w_clock w))%nat;
}.

(** * Events in order *)

Lemma insert_perm e l : insert_event e l ≡ₚ e :: l.
Proof. induction l as [|x l IH]; simpl; [done|]. case_match; [done|]. rewrite IH. apply Permutation_swap. Qed.

Lemma sort_perm l : sort_events l ≡ₚ l.
Proof. induction l as [|e l IH]; simpl; [done|]. by rewrite insert_perm, IH. Qed.

Definition in_order : list clock_event -> Prop := StronglySorted (fun a b => ev_at a <= ev_at b).

Lemma insert_in_order e l : in_order l -> in_order (insert_event e l).
Proof.
  induction l as [|x l IH]; intros H; simpl; [repeat constructor|].
  inversion H as [|? ? Hl Hx]; subst. destruct (Z.leb_spec (ev_at e) (ev_at x)).
  - constructor; [done|]. constructor; [done|]. eapply Forall_impl; [exact Hx|]. simpl; lia.
  - constructor; [by apply IH|]. rewrite insert_perm. constructor; [lia|done].
Qed.

Lemma sort_in_order l : in_order (sort_events l).
Proof. induction l; simpl; [constructor|]. by apply insert_in_order. Qed.

(** Inserting does not cross a threshold. *)
Lemma insert_split T e (A B : list clock_event) :
  Forall (fun x => ev_at x <= T) A -> Forall (fun x => T < ev_at x) B ->
  insert_event e (A ++ B)%list = (if ev_at e <=? T then insert_event e A ++ B else A ++ insert_event e B)%list.
Proof.
  intros HA HB. induction HA as [|x A Hx HA IH]; simpl.
  - destruct (Z.leb_spec (ev_at e) T); [|done]. destruct HB as [|b B Hb]; simpl; [done|].
    destruct (Z.leb_spec (ev_at e) (ev_at b)); [done|lia].
  - rewrite IH. destruct (Z.leb_spec (ev_at e) T), (Z.leb_spec (ev_at e) (ev_at x)); simpl; try done. lia.
Qed.

(** A stable sort can be cut at any time. *)
Lemma sort_split T l :
  sort_events l = (sort_events (filter (fun e => (ev_at e <= T)%Z) l) ++ sort_events (filter (fun e => ~ (ev_at e <= T)%Z) l))%list.
Proof.
  induction l as [|e l IH]; simpl; [done|]. rewrite IH, (insert_split T).
  - rewrite !filter_cons. destruct (Z.leb_spec (ev_at e) T); repeat case_decide; try lia; done.
  - rewrite sort_perm. apply Forall_forall. intros x [? _]%list_elem_of_filter; done.
  - rewrite sort_perm. apply Forall_forall. intros x [? _]%list_elem_of_filter; lia.
Qed.

(** * Ticks *)

Lemma ticks_enough i T f f' next : 0 < i -> (tick_fuel T next <= f)%nat -> (tick_fuel T next <= f')%nat ->
  ticks f i T next = ticks f' i T next.
Proof.
  unfold tick_fuel. intros Hi. revert f' next. induction f as [|f IH]; intros f' next Hf Hf'.
  - destruct f'; simpl; [done|]. destruct (Z.leb_spec next T); [lia|done].
  - destruct f' as [|f']; simpl; destruct (Z.leb_spec next T); try lia; try done. by rewrite (IH f') by lia.
Qed.

(** Every tick until the target is in the list, at its time. *)
Lemma ticks_are i T f next t : 0 < i -> (tick_fuel T next <= f)%nat ->
  t ∈ (ticks f i T next).1 <-> exists k, 0 <= k /\ t = next + k * i /\ t <= T.
Proof.
  unfold tick_fuel. intros Hi. revert next. induction f as [|f IH]; intros next Hf; simpl.
  - rewrite elem_of_nil. split; [done|]. intros (k & ? & -> & ?). nia.
  - destruct (Z.leb_spec next T).
    + specialize (IH (next + i) ltac:(lia)). destruct (ticks f i T (next + i)) as [l n]. simpl in *.
      rewrite elem_of_cons, IH. split.
      * intros [->|(k & ? & -> & ?)]; [exists 0|exists (k + 1)]; lia.
      * intros (k & ? & -> & ?). destruct (decide (k = 0)) as [->|]; [left; lia|right; exists (k - 1); lia].
    + simpl. rewrite elem_of_nil. split; [done|]. intros (k & ? & -> & ?). nia.
Qed.

Lemma ticks_next i T f next : 0 < i -> (tick_fuel T next <= f)%nat -> T < (ticks f i T next).2.
Proof.
  unfold tick_fuel. intros Hi. revert next. induction f as [|f IH]; intros next Hf; simpl; [lia|].
  destruct (Z.leb_spec next T); [|done].
  specialize (IH (next + i) ltac:(lia)). destruct (ticks f i T (next + i)). done.
Qed.

(** The ticks of one advance are those of two. *)
Lemma ticks_split i T1 T2 f1 f2 f3 next : 0 < i -> T1 <= T2 ->
  (tick_fuel T1 next <= f1)%nat -> (tick_fuel T2 next <= f2)%nat -> (tick_fuel T2 (ticks f1 i T1 next).2 <= f3)%nat ->
  filter (fun t => (t <= T1)%Z) (ticks f2 i T2 next).1 = (ticks f1 i T1 next).1
  /\ filter (fun t => ~ (t <= T1)%Z) (ticks f2 i T2 next).1 = (ticks f3 i T2 (ticks f1 i T1 next).2).1
  /\ (ticks f2 i T2 next).2 = (ticks f3 i T2 (ticks f1 i T1 next).2).2.
Proof.
  intros Hi HT. revert f1 next. induction f2 as [|f2 IH]; intros f1 next H1 H2 H3.
  - assert (T2 < next) by (unfold tick_fuel in H2; lia).
    assert (ticks f1 i T1 next = ([], next)) as Ef1
      by (destruct f1; simpl; [done|]; destruct (Z.leb_spec next T1); [lia|done]).
    rewrite Ef1 in *. simpl in *. destruct f3; simpl; [done|]. destruct (Z.leb_spec next T2); [lia|done].
  - destruct (Z.leb_spec next T1) as [Hn|Hn].
    + destruct f1 as [|f1]; [unfold tick_fuel in H1; lia|]. simpl in *.
      destruct (Z.leb_spec next T1); [|lia]. destruct (Z.leb_spec next T2); [|lia].
      specialize (IH f1 (next + i)). destruct (ticks f1 i T1 (next + i)) as [l1 n1].
      destruct (ticks f2 i T2 (next + i)) as [l2 n2]. simpl in *.
      destruct IH as (Ha & Hb & Hc); [unfold tick_fuel in *; lia..|done|].
      rewrite !filter_cons. repeat case_decide; try lia. by rewrite Ha.
    + assert (ticks f1 i T1 next = ([], next)) as Ef1
        by (destruct f1; simpl; [done|]; destruct (Z.leb_spec next T1); [lia|done]).
      rewrite Ef1 in *. cbn [fst snd] in *. rewrite (ticks_enough i T2 (S f2) f3 next) by done.
      assert (forall t, t ∈ (ticks f3 i T2 next).1 -> ~ t <= T1) as Hgt
        by (intros t (k & ? & -> & _)%ticks_are; [nia|done..]).
      split_and!; [by apply filter_none|by apply filter_all|done].
Qed.

(** * Advancing in one step or in two *)

Lemma ticker_split T1 T2 t : 0 < t_interval t -> T1 <= T2 ->
  filter (fun e => (ev_at e <= T1)%Z) (ticker_events T2 t) = ticker_events T1 t
  /\ filter (fun e => ~ (ev_at e <= T1)%Z) (ticker_events T2 t) = ticker_events T2 (ticker_after T1 t)
  /\ ticker_after T2 t = ticker_after T2 (ticker_after T1 t).
Proof.
  intros Hi HT. unfold ticker_events, ticker_after. destruct (t_stopped t) eqn:E; simpl; [by rewrite E|].
  destruct (ticks_split (t_interval t) T1 T2 (tick_fuel T1 (t_next t)) (tick_fuel T2 (t_next t))
    (tick_fuel T2 (ticks (tick_fuel T1 (t_next t)) (t_interval t) T1 (t_next t)).2) (t_next t)) as (Ha & Hb & Hc); try done.
  rewrite !filter_map. simpl. rewrite <- Ha, <- Hb, Hc. done.
Qed.

Lemma advance_compose d1 d2 c : clock_ok c -> 0 <= d1 -> 0 <= d2 ->
  advance (d1 + d2) c =
    let '(c1, es1) := advance d1 c in let '(c2, es2) := advance d2 c1 in (c2, (es1 ++ es2)%list).
Proof.
  intros [_ Ht _] H1 H2. unfold advance. simpl. set (T1 := c_now c + d1).
  replace (c_now c + (d1 + d2)) with (T1 + d2) by lia.
  assert (T1 <= T1 + d2) as HT by lia. revert HT. generalize (T1 + d2) as T2. intros T2 HT.
  assert (Forall (fun t => 0 < t_interval t) (c_tickers c)) as Hpos
    by (eapply Forall_impl; [exact Ht|]; naive_solver).
  clear Ht. f_equal; [f_equal|].
  - rewrite (filter_filter_iff _ _ (fun w => ~ w_deadline w <= T2)); [done|]. intros; lia.
  - rewrite map_map. apply map_ext_Forall. eapply Forall_impl; [exact Hpos|]. intros t Hi. simpl.
    by apply (ticker_split T1 T2).
  - rewrite (sort_split T1). f_equal; f_equal; rewrite filter_app, filter_flat_map; f_equal.
    1, 3: rewrite filter_map; simpl; f_equal.
    + rewrite (filter_filter_iff _ _ (fun w => w_deadline w <= T1)); [done|]. intros; lia.
    + rewrite (filter_filter_iff _ _ (fun w => T1 < w_deadline w <= T2)) by (intros; lia).
      rewrite (filter_filter_iff _ _ (fun w => T1 < w_deadline w <= T2)) by (intros; lia). done.
    + induction Hpos as [|t ts Hi _ IH]; simpl; [done|]. by rewrite IH, (proj1 (ticker_split T1 T2 t Hi HT)).
    + induction Hpos as [|t ts Hi _ IH]; simpl; [done|].
      by rewrite IH, (proj1 (proj2 (ticker_split T1 T2 t Hi HT))).
Qed.

(** * The invariant *)

Lemma remove_waiter_split id ws ws' : remove_waiter id ws = Some ws' ->
  exists w l l', w_id w = id /\ ws = (l ++ w :: l')%list /\ ws' = (l ++ l')%list.
Proof.
  revert ws'. induction ws as [|w ws IH]; intros ws'; simpl; [done|]. case_bool_decide as E.
  - intros [= <-]. by exists w, [], ws.
  - intros (l0 & Hr & ->)%fmap_Some. destruct (IH l0 Hr) as (x & l & l' & ? & -> & ->). by exists x, (w :: l), l'.
Qed.

Lemma notify_ok c :
  Forall (fun w => c_now c < w_deadline w) (c_waiters c) ->
  Forall (fun t => 0 < t_interval t /\ (t_stopped t = false -> c_now c < t_next t)) (c_tickers c) ->
  clock_ok (notifyBlockers c).
Proof.
  intros Hw Ht. split; [done..|]. apply Forall_forall. intros b [Hb _]%list_elem_of_filter. simpl. lia.
Qed.

Lemma NewTimer_ok d c : clock_ok c -> clock_ok (NewTimer d c).1.
Proof.
  intros [Hw Ht Hb]. unfold NewTimer. destruct (Z.leb_spec d 0); simpl; [by split|].
  apply notify_ok; simpl; [|done]. apply Forall_app. split; [done|]. constructor; [simpl; lia|constructor].
Qed.

Lemma removeWaiter_ok id c : clock_ok c -> clock_ok (removeWaiter id c).1.
Proof.
  intros [Hw Ht Hb]. unfold removeWaiter. destruct (remove_waiter id (c_waiters c)) as [ws|] eqn:E; [|by split].
  destruct (remove_waiter_split _ _ _ E) as (w & l & l' & _ & Ews & ->). rewrite Ews in *. split; simpl; [|done|].
  - apply Forall_app in Hw as [? Hw]. inversion Hw; subst. by apply Forall_app.
  - eapply Forall_impl; [exact Hb|]. intros b. simpl. rewrite !length_app. simpl. lia.
Qed.

Lemma BlockUntil_ok id n c : clock_ok c -> clock_ok (BlockUntil id n c).1.
Proof.
  intros [Hw Ht Hb]. unfold BlockUntil. destruct (Nat.leb_spec n (length (c_waiters c))); [by split|].
  split; simpl; [done..|]. apply Forall_app. split; [done|]. by repeat constructor.
Qed.

Lemma advance_ok d c : 0 <= d -> clock_ok c -> clock_ok (advance d c).1.
Proof.
  intros Hd [Hw Ht Hb]. split; simpl.
  - apply Forall_forall. intros w [? _]%list_elem_of_filter. lia.
  - apply Forall_map. eapply Forall_impl; [exact Ht|]. intros t [Hi Hn]. unfold ticker_after. simpl.
    destruct (t_stopped t) eqn:E; simpl; [by rewrite E|]. split; [done|]. intros _. by apply ticks_next.
  - eapply Forall_impl; [exact Hb|]. intros b Hlt. simpl in *.
    eapply Nat.le_lt_trans; [apply length_filter|done].
Qed.

Lemma fire_ok e c c' : fire e c = Some c' -> clock_ok c -> clock_ok c'.
Proof. intros Hf [Hw Ht Hb]. destruct e; simpl in Hf; repeat case_match; simplify_eq/=; by split. Qed.

Lemma step_clock_ok w w' : clock_step w w' -> clock_ok (w_clock w) -> clock_ok (w_clock w').
Proof.
  destruct 1 as [| | | | | | |e l pre post c c' Hf|]; simpl; intros Hok.
  - by apply NewTimer_ok.
  - unfold NewTicker in H. destruct (Z.leb_spec d 0); simplify_eq. destruct Hok. split; simpl; [done| |done].
    apply Forall_app. split; [done|]. repeat constructor; simpl; lia.
  - by apply removeWaiter_ok.
  - destruct Hok as [Hw Ht Hb]. split; simpl; [done| |done]. apply Forall_map. eapply Forall_impl; [exact Ht|].
    intros t [? ?]. simpl. case_bool_decide; simpl; [done|]. by split.
  - by apply BlockUntil_ok.
  - destruct Hok as [Hw Ht Hb]. split; simpl; [done..|]. apply Forall_forall. intros b [_ ?]%list_elem_of_filter.
    rewrite Forall_forall in Hb. by apply Hb.
  - by apply advance_ok.
  - eauto using fire_ok.
  - by destruct Hok.
Qed.

(** * Every timer is sent to once *)

Lemma fired_app l l' : fired (l ++ l')%list = (fired l ++ fired l')%list.
Proof. induction l as [|[]]; simpl; by f_equal. Qed.
Lemma ticked_app l l' : ticked (l ++ l')%list = (ticked l ++ ticked l')%list.
Proof. induction l as [|[]]; simpl; by f_equal. Qed.

#[local] Instance fired_perm : Proper ((≡ₚ) ==> (≡ₚ)) fired.
Proof. induction 1 as [|[] l l' _ IH|[] [] l|]; simpl; try done; [by rewrite IH|constructor|by etrans]. Qed.
#[local] Instance ticked_perm : Proper ((≡ₚ) ==> (≡ₚ)) ticked.
Proof. induction 1 as [|[] l l' _ IH|[] [] l|]; simpl; try done; [by rewrite IH|constructor|by etrans]. Qed.

Lemma fired_ticks id l : fired (map (Tick id) l) = [].
Proof. by induction l. Qed.
Lemma ticked_ticks id l x : x ∈ ticked (map (Tick id) l) -> x = id.
Proof. induction l; simpl; set_solver. Qed.
Lemma fired_fires ws : fired (map (fun w => Fire (w_id w) (w_deadline w)) ws) = map w_id ws.
Proof. induction ws; simpl; by f_equal. Qed.
Lemma ticked_fires ws : ticked (map (fun w => Fire (w_id w) (w_deadline w)) ws) = [].
Proof. by induction ws. Qed.

Lemma fired_tickers T ts : fired (flat_map (ticker_events T) ts) = [].
Proof.
  induction ts as [|t ts IH]; simpl; [done|]. rewrite fired_app, IH, app_nil_r. unfold ticker_events.
  destruct (t_stopped t); [done|apply fired_ticks].
Qed.
Lemma ticked_tickers T ts x : x ∈ ticked (flat_map (ticker_events T) ts) -> x ∈ map t_id ts.
Proof.
  induction ts as [|t ts IH]; simpl; [done|]. rewrite ticked_app, elem_of_app. intros [Hx|Hx]; [|set_solver].
  revert Hx. unfold ticker_events. destruct (t_stopped t); simpl; [set_solver|]. intros ->%ticked_ticks. set_solver.
Qed.

Lemma filter_partition (P : waiter -> Prop) `{forall x, Decision (P x)} ws :
  ws ≡ₚ (filter (fun w => ~ P w) ws ++ filter P ws)%list.
Proof.
  induction ws as [|w ws IH]; [done|]. rewrite !filter_cons. case_decide; case_decide; try tauto; simpl.
  - by constructor.
  - rewrite <- Permutation_middle. by constructor.
Qed.

(** Advancing moves timers from those that wait to those about to be sent to. *)
Lemma advance_timers d c es :
  live_timers (MkWorld (advance d c).1 ((advance d c).2 :: es)) ≡ₚ live_timers (MkWorld c es).
Proof.
  unfold live_timers. simpl. rewrite fired_app, sort_perm, fired_app, fired_tickers, app_nil_r, fired_fires, app_assoc.
  apply Permutation_app_tail. rewrite <- map_app. apply Permutation_map. symmetry. apply filter_partition.
Qed.

Lemma advance_tickers d c es x :
  x ∈ live_tickers (MkWorld (advance d c).1 ((advance d c).2 :: es)) -> x ∈ live_tickers (MkWorld c es).
Proof.
  unfold live_tickers. simpl. rewrite ticked_app, sort_perm, ticked_app, ticked_fires, !elem_of_app.
  assert (map t_id (map (ticker_after (c_now c + d)) (c_tickers c)) = map t_id (c_tickers c)) as ->.
  { rewrite map_map. apply map_ext. intros t. unfold ticker_after. by destruct (t_stopped t). }
  intros [?|[[?|?%ticked_tickers]|?]]; set_solver.
Qed.

Lemma submseteq_NoDup {A} (l l' : list A) : l ⊆+ l' -> NoDup l' -> NoDup l.
Proof. intros [k ->]%submseteq_Permutation. by intros [? _]%NoDup_app. Qed.

(** What a step keeps that makes no timer and no ticker. *)
Lemma world_ok_weaken w w' :
  world_ok w -> clock_ok (w_clock w') -> live_timers w' ⊆+ live_timers w ->
  (forall id, id ∈ live_tickers w' -> id ∈ live_tickers w) -> c_nextID (w_clock w) = c_nextID (w_clock w') ->
  (forall id, is_Some (c_chans (w_clock w') !! id) -> is_Some (c_chans (w_clock w) !! id)
     \/ (id ∈ live_timers w /\ id ∉ live_timers w') \/ id ∈ live_tickers w) -> world_ok w'.
Proof.
  intros [_ Hone Hemp Hids Hap Hch] Hc Hsub Htk Hn Hch'.
  assert (forall id, id ∈ live_timers w' -> id ∈ live_timers w) as Hin by (intros id Hid; by eapply elem_of_submseteq).
  split; rewrite <- ?Hn; [done|by eapply submseteq_NoDup| |naive_solver..].
  intros id Hid. destruct (c_chans (w_clock w') !! id) eqn:E; [|done]. exfalso.
  destruct (Hch' id) as [[? Hs]|[[_ ?]|?]]; [by rewrite E| |done|naive_solver].
  rewrite Hemp in Hs by auto. done.
Qed.

(** What a step keeps that makes one, under a new number. *)
Lemma world_ok_new w w' :
  world_ok w -> clock_ok (w_clock w') -> c_nextID (w_clock w') = S (c_nextID (w_clock w)) ->
  live_timers w' ≡ₚ live_timers w /\ live_tickers w' ≡ₚ live_tickers w
    /\ (forall id, is_Some (c_chans (w_clock w') !! id) -> is_Some (c_chans (w_clock w) !! id) \/ id = S (c_nextID (w_clock w)))
  \/ live_timers w' ≡ₚ S (c_nextID (w_clock w)) :: live_timers w /\ live_tickers w' ≡ₚ live_tickers w
    /\ c_chans (w_clock w') = c_chans (w_clock w)
  \/ live_timers w' ≡ₚ live_timers w /\ live_tickers w' ≡ₚ S (c_nextID (w_clock w)) :: live_tickers w
    /\ c_chans (w_clock w') = c_chans (w_clock w) ->
  world_ok w'.
Proof.
  intros [_ Hone Hemp Hids Hap Hch] Hc Hn Hcase.
  assert (S (c_nextID (w_clock w)) ∉ live_timers w) as Hnt by (intros Hx; specialize (Hids _ (or_introl Hx)); lia).
  assert (S (c_nextID (w_clock w)) ∉ live_tickers w) as Hnk by (intros Hx; specialize (Hids _ (or_intror Hx)); lia).
  assert (c_chans (w_clock w) !! S (c_nextID (w_clock w)) = None) as Hnc
    by (destruct (c_chans (w_clock w) !! S (c_nextID (w_clock w))) eqn:E; [specialize (Hch _ ltac:(eauto)); lia|done]).
  assert (forall id, id ∈ live_timers w \/ id ∈ live_tickers w -> (id <= S (c_nextID (w_clock w)))%nat) as Hle
    by (intros id Hid; specialize (Hids id Hid); lia).
  destruct Hcase as [(Ht & Hk & Hs)|[(Ht & Hk & Hs)|(Ht & Hk & Hs)]]; split; rewrite ?Ht, ?Hn; try done.
  - intros id. rewrite Ht. intros Hid. destruct (c_chans (w_clock w') !! id) eqn:E; [|done]. exfalso.
    destruct (Hs id) as [[? Hx]| ->]; [by rewrite E|by rewrite Hemp in Hx|done].
  - intros id. rewrite Ht, Hk. apply Hle.
  - intros id. rewrite Ht, Hk. apply Hap.
  - intros id [Hx%Hch| ->]%Hs; lia.
  - by constructor.
  - intros id. rewrite Ht, Hs, elem_of_cons. intros [->|?]; auto.
  - intros id. rewrite Ht, Hk, elem_of_cons. intros [[->|?]|?]; auto.
  - intros id. rewrite Ht, Hk, elem_of_cons. intros [->|?]; auto.
  - intros id. rewrite Hs. intros Hx%Hch. lia.
  - intros id. rewrite Ht, Hs. auto.
  - intros id. rewrite Ht, Hk, elem_of_cons. intros [?|[->|?]]; auto.
  - intros id. rewrite Ht, Hk, elem_of_cons. intros Hx [->|?]; [done|]. by apply (Hap id).
  - intros id. rewrite Hs. intros Hx%Hch. lia.
Qed.

Lemma NewTimer_world d c es : world_ok (MkWorld c es) -> world_ok (MkWorld (NewTimer d c).1 es).
Proof.
  intros Hw. apply (world_ok_new _ _ Hw); [apply NewTimer_ok; by destruct Hw| |];
    unfold NewTimer, live_timers, live_tickers; destruct (Z.leb_spec d 0); simpl; try done.
  - left. split_and!; try done. intros id. rewrite lookup_insert. case_decide; auto.
  - right; left. split_and!; try done. rewrite map_app, <- app_assoc. simpl. by rewrite Permutation_middle.
Qed.

Lemma NewTicker_world d c c' id es : NewTicker d c = Some (c', id) -> world_ok (MkWorld c es) -> world_ok (MkWorld c' es).
Proof.
  intros E Hw. apply (world_ok_new _ _ Hw).
  - apply (step_clock_ok _ _ (S_ticker _ _ es _ _ E)). by destruct Hw.
  - unfold NewTicker in E. by case_match; simplify_eq/=.
  - right; right. unfold NewTicker, live_timers, live_tickers in *. case_match; simplify_eq/=. split_and!; try done.
    rewrite map_app, <- app_assoc. simpl. by rewrite Permutation_middle.
Qed.

Lemma concat_send (e : clock_event) l pre post :
  concat (pre ++ (e :: l) :: post)%list ≡ₚ e :: concat (pre ++ l :: post)%list.
Proof. rewrite !concat_app. simpl. by rewrite <- Permutation_middle. Qed.

Lemma send_world e l pre post c c' :
  fire e c = Some c' -> world_ok (MkWorld c (pre ++ (e :: l) :: post)) -> world_ok (MkWorld c' (pre ++ l :: post)).
Proof.
  intros Hf Hw. assert (clock_ok c') as Hc' by (eapply fire_ok; [done|by destruct Hw]).
  assert (c_waiters c' = c_waiters c /\ c_tickers c' = c_tickers c /\ c_nextID c' = c_nextID c) as (Ew & Et & En)
    by (destruct e; simpl in Hf; case_match; inversion Hf; subst; done).
  pose proof (fired_perm _ _ (concat_send e l pre post)) as Hfp. pose proof (ticked_perm _ _ (concat_send e l pre post)) as Htp.
  assert (live_timers (MkWorld c (pre ++ (e :: l) :: post)) ≡ₚ fired [e] ++ live_timers (MkWorld c' (pre ++ l :: post))) as Ht.
  { unfold live_timers. simpl. rewrite Hfp, Ew. destruct e; simpl; [by rewrite Permutation_middle|done]. }
  assert (live_tickers (MkWorld c (pre ++ (e :: l) :: post)) ≡ₚ ticked [e] ++ live_tickers (MkWorld c' (pre ++ l :: post))) as Hk.
  { unfold live_tickers. simpl. rewrite Htp, Et. destruct e; simpl; [done|by rewrite Permutation_middle]. }
  apply (world_ok_weaken _ _ Hw); simpl; [done|rewrite Ht; by apply submseteq_inserts_l|intros x Hx; rewrite Hk, elem_of_app; by right|done|].
  destruct Hw as [_ Hone _ _ _ _]. rewrite Ht in Hone. intros id Hid. rewrite Ht, Hk, !elem_of_app.
  destruct e as [x t|x t]; simpl in Hf, Hone |- *; case_match; simplify_eq/=; auto;
    rewrite lookup_insert in Hid; case_decide; auto; subst; [|set_solver].
  inversion Hone; subst. right; left. set_solver.
Qed.

Lemma step_world_ok w w' : clock_step w w' -> world_ok w -> world_ok w'.
Proof.
  intros Hs Hw. assert (clock_ok (w_clock w')) as Hc by (apply (step_clock_ok _ _ Hs); by destruct Hw).
  destruct Hs as [| | id c es|id c es|id n c es|id c es|d c es Hd|e l pre post c c' Hf|id c es].
  - by apply NewTimer_world.
  - by eapply NewTicker_world.
  - apply (world_ok_weaken _ _ Hw Hc); unfold removeWaiter, live_timers, live_tickers in *; simpl;
      destruct (remove_waiter id (c_waiters c)) as [ws|] eqn:E; simpl; auto.
    destruct (remove_waiter_split _ _ _ E) as (w & l & l' & _ & -> & ->).
    apply submseteq_app; [|done]. rewrite !map_app. simpl. rewrite <- Permutation_middle. by apply submseteq_cons.
  - apply (world_ok_weaken _ _ Hw Hc); unfold live_timers, live_tickers in *; simpl; auto.
    rewrite map_map. intros x. erewrite map_ext; [done|]. intros t. simpl. by case_bool_decide.
  - apply (world_ok_weaken _ _ Hw Hc); unfold BlockUntil, live_timers, live_tickers in *; case_match; simpl; auto.
  - apply (world_ok_weaken _ _ Hw Hc); unfold live_timers, live_tickers in *; simpl; auto.
  - apply (world_ok_weaken _ _ Hw Hc); [by rewrite advance_timers|apply advance_tickers|done|auto].
  - by eapply send_world.
  - apply (world_ok_weaken _ _ Hw Hc); unfold live_timers, live_tickers in *; simpl; auto.
    intros x. rewrite lookup_delete_is_Some. tauto.
Qed.

(** * What the users of the clock rely on *)

Lemma new_clock_ok start : world_ok (MkWorld (NewFakeClock start) []).
Proof.
  split; unfold live_timers, live_tickers; simpl; try set_solver; [by repeat constructor|constructor|].
  intros id [? Hx]. by rewrite lookup_empty in Hx.
Qed.

Lemma clock_reachable_ok start w : rtc clock_step (MkWorld (NewFakeClock start) []) w -> world_ok w.
Proof.
  intros Hr. assert (world_ok (MkWorld (NewFakeClock start) [])) as H0 by apply new_clock_ok. revert H0.
  induction Hr; eauto using step_world_ok.
Qed.

(** In every interleaving of the clock's methods, of the sends of its [Advance]
    calls and of the receives of its users: no send of [Advance] ever blocks, a
    timer that waits has its deadline ahead, and no [BlockUntil] is left waiting
    while the timers it waits for are pending (no lost wake-up). *)
Theorem clock_never_stuck start w : rtc clock_step (MkWorld (NewFakeClock start) []) w ->
  (forall es e l, es ∈ w_sends w -> es = e :: l -> is_Some (fire e (w_clock w)))
  /\ Forall (fun x => c_now (w_clock w) < w_deadline x) (c_waiters (w_clock w))
  /\ Forall (fun b => (length (c_waiters (w_clock w)) < bl_want b)%nat) (c_blockers (w_clock w)).
Proof.
  intros Hr. destruct (clock_reachable_ok _ _ Hr) as [[Hw _ Hb] _ Hemp _ _ _]. split_and!; [|done..].
  intros es [id t|id t] l Hin ->; simpl; [|case_match; by eexists].
  rewrite Hemp; [by eexists|]. unfold live_timers. apply elem_of_app; right.
  apply list_elem_of_split in Hin as (pre & post & ->). rewrite concat_send. simpl. set_solver.
Qed.

Lemma clock_never_stuck_witness :
  is_Some (fire (Fire 1 5) (advance 5 (NewTimer 5 (NewFakeClock 0)).1).1).
Proof.
  assert (rtc clock_step (MkWorld (NewFakeClock 0) [])
    (MkWorld (advance 5 (NewTimer 5 (NewFakeClock 0)).1).1 [(advance 5 (NewTimer 5 (NewFakeClock 0)).1).2])) as Hr.
  { eapply rtc_l; [apply (S_timer 5)|]. apply rtc_once, S_advance. lia. }
  destruct (clock_never_stuck _ _ Hr) as [H _]. eapply (H [Fire 1 5] _ []); [by left|reflexivity].
Defined.

(** Advancing twice is advancing once by the sum: the same clock and the same
    messages in the same order, whatever deadlines and ticks lie in between. *)
Theorem advance_is_additive start w d1 d2 : rtc clock_step (MkWorld (NewFakeClock start) []) w -> 0 <= d1 -> 0 <= d2 ->
  advance (d1 + d2) (w_clock w) =
    let '(c1, es1) := advance d1 (w_clock w) in let '(c2, es2) := advance d2 c1 in (c2, (es1 ++ es2)%list).
Proof. intros Hr. apply advance_compose. by destruct (clock_reachable_ok _ _ Hr). Qed.
