(* ===== verification/Transport.v ===== *)
(** The transport layer of the config server (src/server/transport.go) with the
    teardown of src/server/resolve.go: the listeners [Serve] binds, the socket files
    they own, and [Close], on a host where other processes take over the same socket
    paths and the kernel reuses inode numbers. *)

From S2P Require Import Prelude Errors Provider Auth Server.
Open Scope string_scope.
Open Scope nat_scope.

(** * The host *)

(** Socket files by path, each an inode number, and the inodes an open listener
    holds. A number is allocated while a path or a listener refers to it, and can be
    given to a new file as soon as none does. *)
Record os_state := MkOs { os_names : gmap string nat; os_held : gset nat }.

Definition os_allocated (o : os_state) (ino : nat) : Prop := ino ∈ os_held o ∪ (map_img (os_names o) : gset nat).

(** [os.Remove], [net.Listen] on a free path, [os.Stat], and the [Close] of a
    listener. *)
Definition os_Remove (path : string) (o : os_state) : os_state := MkOs (delete path (os_names o)) (os_held o).
Definition os_Listen (path : string) (ino : nat) (o : os_state) : os_state :=
  MkOs (<[path := ino]> (os_names o)) ({[ino]} ∪ os_held o).
Definition os_Stat (path : string) (o : os_state) : option nat := os_names o !! path.
Definition os_Close (ino : nat) (o : os_state) : os_state := MkOs (os_names o) (os_held o ∖ {[ino]}).

(** * The HTTP servers *)

(** The timeouts of every listener, in nanoseconds, and the [ConnContext] of the
    Unix ones: the peer credentials of the connection, when they can be read. *)
Definition transportReadHeaderTimeout : Z := 10000000000.
Definition transportReadTimeout : Z := 15000000000.
Definition transportIdleTimeout : Z := 60000000000.

Record http_server := MkHTTPServer {
  hs_ReadHeaderTimeout : Z;
  hs_ReadTimeout : Z;
  hs_IdleTimeout : Z;
  hs_ConnContext : res Ucred -> option Ucred;
}.

(** [func (s *Server) newHTTPServer(handler, capturePeerCred)]. *)
Definition newHTTPServer (capturePeerCred : bool) : http_server :=
  MkHTTPServer transportReadHeaderTimeout transportReadTimeout transportIdleTimeout
    (fun read => if capturePeerCred then match read with Ok cred => Some cred | Err _ => None end else None).

(** The options of a TCP listener, in the order they were given, and what [TCP]
    makes of them. *)
Inductive TCPOption := TLS (cfg : bool) | InsecureNoTLS.
Definition apply_tcp_option (spec : tcpSpec) (o : TCPOption) : tcpSpec :=
  match o with
  | TLS cfg => MkTcp (tcp_addr spec) cfg (tcp_insecureNoTLS spec)
  | InsecureNoTLS => MkTcp (tcp_addr spec) (tcp_tls spec) true
  end.
Definition tcp_spec (addr : string) (opts : list TCPOption) : tcpSpec :=
  foldl apply_tcp_option (MkTcp addr false false) opts.

(** * Binding *)

(** [type unixSpec struct]; the mode is what the host's [Chmod] gets. *)
Record unixSpec := MkUnix { us_path : string; us_mode : Z }.

(** [type listenerEntry struct]: the path, the identity of the socket file, the
    inode of the listener's own socket (none for TCP), whether the listener is still
    open, whether its http.Server was shut down, and that server. *)
Record listenerEntry := MkEntry {
  le_unixPath : string;
  le_unixFile : option nat;
  le_ino : option nat;
  le_open : bool;
  le_shut : bool;
  le_srv : http_server;
}.

(** What the host answers to the calls of one bind. *)
Record bind_outcome := MkOutcome {
  bo_remove : option error;
  bo_listen : res nat;
  bo_chmod : option error;
  bo_stat : bool;
}.

Definition errBind (what at_ : string) (e : error) : error := EWrap ("mamori/server: " ++ what ++ at_) [e].

(** [func bindUnix(spec unixSpec)]: a listener whose [Chmod] fails is closed while it
    still unlinks on close. *)
Definition bindUnix (spec : unixSpec) (b : bind_outcome) (o : os_state) : os_state * res listenerEntry :=
  match bo_remove b with
  | Some e => (o, Err (errBind "unix: remove stale socket " (us_path spec) e))
  | None =>
      let o := os_Remove (us_path spec) o in
      match bo_listen b with
      | Err e => (o, Err (errBind "unix: listen on " (us_path spec) e))
      | Ok ino =>
          let o := os_Listen (us_path spec) ino o in
          match bo_chmod b with
          | Some e => (os_Close ino (os_Remove (us_path spec) o), Err (errBind "unix: chmod " (us_path spec) e))
          | None => (o, Ok (MkEntry (us_path spec) (if bo_stat b then os_Stat (us_path spec) o else None) (Some ino) true false (newHTTPServer true)))
          end
      end
  end.

(** [func bindTCP(spec tcpSpec)]. *)
Definition bindTCP (spec : tcpSpec) (b : bind_outcome) : res listenerEntry :=
  match bo_listen b with
  | Err e => Err (errBind "tcp: listen on " (tcp_addr spec) e)
  | Ok _ => Ok (MkEntry "" None None true false (newHTTPServer false))
  end.

(** [func removeOwnedSocket(path string, owned os.FileInfo)]. *)
Definition removeOwnedSocket (path : string) (owned : option nat) (o : os_state) : os_state :=
  match owned with
  | None => o
  | Some ino =>
      match os_Stat path o with
      | None => o
      | Some current => if bool_decide (current = ino) then os_Remove path o else o
      end
  end.

(** * The goroutines *)

(** Where a call of [teardown] is: the cancellation of the serving context, the
    snapshot of the entries, the unlinks, the shutdowns, the raw closes, the wait for
    the listeners, the cancellation of the watches, and the wait for them. *)
Inductive teardown_phase :=
  | PhCancel
  | PhSnapshot
  | PhUnlink (n : nat) (todo : list nat)
  | PhShutdown (n : nat)
  | PhCloseAll (n : nat)
  | PhWaitListeners
  | PhResolve
  | PhWaitWatches
  | PhDone.
#[export] Instance teardown_phase_eq_dec : EqDecision teardown_phase.
Proof. solve_decision. Defined.

(** Where [Serve] is, and which of its returns it took: the checks at its start, a
    bind that failed, a [Close] that came meanwhile, or the results of its listeners. *)
Inductive serve_return := Refused | BindFailed | ClosedMeanwhile | ListenersDone.
Inductive serve_pc :=
  | ServeIdle
  | Binding_ (unix : list unixSpec) (tcp : list tcpSpec)
  | SelfTeardown (ph : teardown_phase)
  | Waiting (entries : nat)
  | Served (by_ : serve_return) (result : option error).

(** Nobody is a peer on a TCP connection, nor when the credentials cannot be read. *)
Lemma tcp_has_no_peer UIDs GIDs b spec e read r : bindTCP spec b = Ok e ->
  exists msg, Authenticate (peerCred UIDs GIDs)
    (MkRequest (rq_Method r) (rq_Path r) (rq_Header r) (rq_TLS r) (hs_ConnContext (le_srv e) read)) = Err (EOpaque msg).
Proof. unfold bindTCP. destruct (bo_listen b); intros [= <-]. by eexists. Qed.

(** Plaintext is never a default: without [InsecureNoTLS] the last [TLS] decides. *)
Lemma tcp_spec_plaintext addr opts : tcp_insecureNoTLS (tcp_spec addr opts) = true <-> InsecureNoTLS ∈ opts.
Proof.
  unfold tcp_spec. assert (forall spec, tcp_insecureNoTLS (foldl apply_tcp_option spec opts) = true <->
    tcp_insecureNoTLS spec = true \/ InsecureNoTLS ∈ opts) as H.
  { induction opts as [|[cfg|] opts IH]; intros spec; simpl; rewrite ?IH, ?elem_of_cons; [set_solver| |]; simpl; naive_solver. }
  rewrite H. simpl. naive_solver.
Qed.

Section transport.
Context {W : Type}.

(** A server on its host: the state of Server.v, the entries, [Serve], the [Close]
    that won the transition, the goroutines serving an entry, what they sent on the
    channel of results, whether the serving context is live; the files of the host,
    the sockets other processes listen on, and whether a listener failed by itself. *)
Record host := MkHost {
  h_run : running W;
  h_unixSpecs : list unixSpec;
  h_entries : list listenerEntry;
  h_serve : serve_pc;
  h_close : option teardown_phase;
  h_goroutines : list nat;
  h_results : list (option error);
  h_serving : bool;
  h_os : os_state;
  h_others : gset nat;
  h_failed : bool;
}.

Definition set_run (r : running W) (h : host) : host :=
  MkHost r (h_unixSpecs h) (h_entries h) (h_serve h) (h_close h) (h_goroutines h) (h_results h) (h_serving h) (h_os h)
    (h_others h) (h_failed h).
Definition set_serve (pc : serve_pc) (h : host) : host :=
  MkHost (h_run h) (h_unixSpecs h) (h_entries h) pc (h_close h) (h_goroutines h) (h_results h) (h_serving h) (h_os h)
    (h_others h) (h_failed h).
Definition set_close (ph : option teardown_phase) (h : host) : host :=
  MkHost (h_run h) (h_unixSpecs h) (h_entries h) (h_serve h) ph (h_goroutines h) (h_results h) (h_serving h) (h_os h)
    (h_others h) (h_failed h).
Definition set_serving (b : bool) (h : host) : host :=
  MkHost (h_run h) (h_unixSpecs h) (h_entries h) (h_serve h) (h_close h) (h_goroutines h) (h_results h) b (h_os h)
    (h_others h) (h_failed h).
Definition set_os (o : os_state) (h : host) : host :=
  MkHost (h_run h) (h_unixSpecs h) (h_entries h) (h_serve h) (h_close h) (h_goroutines h) (h_results h) (h_serving h) o
    (h_others h) (h_failed h).
Definition set_entries (es : list listenerEntry) (h : host) : host :=
  MkHost (h_run h) (h_unixSpecs h) es (h_serve h) (h_close h) (h_goroutines h) (h_results h) (h_serving h) (h_os h)
    (h_others h) (h_failed h).

(** [func (s *Server) addEntry(e *listenerEntry)]. *)
Definition addEntry (e : listenerEntry) (h : host) : host := set_entries (h_entries h ++ [e])%list h.

(** [func (s *Server) Addrs() []net.Addr]; an address is what the entry is bound to. *)
Definition Addrs (h : host) : list string := map le_unixPath (h_entries h).

(** Closing the listener of an entry; harmless when it is closed already. *)
Definition close_entry (i : nat) (h : host) : host :=
  match h_entries h !! i with
  | Some e =>
      if le_open e then
        set_os (match le_ino e with Some ino => os_Close ino (h_os h) | None => h_os h end)
          (set_entries (<[i := MkEntry (le_unixPath e) (le_unixFile e) (le_ino e) false (le_shut e) (le_srv e)]> (h_entries h)) h)
      else h
  | None => h
  end.

Definition mark_shut (n : nat) (h : host) : host :=
  set_entries (imap (fun i e => if (i <? n)%nat then MkEntry (le_unixPath e) (le_unixFile e) (le_ino e) (le_open e) true (le_srv e) else e)
                 (h_entries h)) h.

(** One turn of [func (s *Server) teardown()] with [closeTransports] in it; [None]
    while it waits. *)
Definition teardown_turn (ph : teardown_phase) (h : host) : option (teardown_phase * host) :=
  match ph with
  | PhCancel => Some (PhSnapshot, set_serving false h)
  | PhSnapshot =>
      match length (h_entries h) with
      | O => Some (PhResolve, h)
      | n => Some (PhUnlink n (seq 0 n), h)
      end
  | PhUnlink n [] => Some (PhShutdown n, h)
  | PhUnlink n (i :: todo) =>
      Some (PhUnlink n todo,
        match h_entries h !! i with
        | Some e =>
            if bool_decide (le_unixPath e = "") then h else set_os (removeOwnedSocket (le_unixPath e) (le_unixFile e) (h_os h)) h
        | None => h
        end)
  | PhShutdown n =>
      Some (PhCloseAll n, foldr close_entry (mark_shut n h) (filter (fun i => i < n) (h_goroutines h)))
  | PhCloseAll n => Some (PhWaitListeners, foldr close_entry h (seq 0 n))
  | PhWaitListeners => match ru_listeners (h_run h) with O => Some (PhResolve, h) | S _ => None end
  | PhResolve =>
      if ru_started (h_run h) then Some (PhWaitWatches, set_run (cancel (h_run h)) h) else Some (PhDone, h)
  | PhWaitWatches => if bool_decide (ru_watchers (h_run h) = ∅) then Some (PhDone, h) else None
  | PhDone => None
  end.

(** One turn of [func (s *Server) Serve(ctx)]; [None] while it waits, and when it
    has returned. *)
Definition serve_turn (b : bind_outcome) (h : host) : option host :=
  let s := sv_config (ru_server (h_run h)) in
  match h_serve h with
  | ServeIdle =>
      if sv_noAuth s && sv_hasTCP s then Some (set_serve (Served Refused (Some errNoAuthOnTCP)) h)
      else
        match server_start (h_run h) with
        | (_, Some e) => Some (set_serve (Served Refused (Some e)) h)
        | (r, None) => Some (set_serving true (set_serve (Binding_ (h_unixSpecs h) (sv_tcpSpecs s)) (set_run r h)))
        end
  | Binding_ (spec :: unix) tcp =>
      let '(o, r) := bindUnix spec b (h_os h) in
      match r with
      | Err e => Some (set_serve (Served BindFailed (Some e)) (set_os o h))
      | Ok e => Some (set_serve (Binding_ unix tcp) (addEntry e (set_os o h)))
      end
  | Binding_ [] (spec :: tcp) =>
      match bindTCP spec b with
      | Err e => Some (set_serve (Served BindFailed (Some e)) h)
      | Ok e => Some (set_serve (Binding_ [] tcp) (addEntry e h))
      end
  | Binding_ [] [] =>
      let n := length (h_entries h) in
      match beginListening n (h_run h) with
      | (_, false) => Some (set_serve (SelfTeardown PhCancel) h)
      | (r, true) =>
          Some (MkHost r (h_unixSpecs h) (h_entries h) (Waiting n) (h_close h) (seq 0 n) (h_results h) (h_serving h) (h_os h)
                  (h_others h) (h_failed h))
      end
  | SelfTeardown PhDone => Some (set_serve (Served ClosedMeanwhile (Some errClosed)) h)
  | SelfTeardown ph => '(ph', h') ← teardown_turn ph h; Some (set_serve (SelfTeardown ph') h')
  | Waiting O => Some (set_serve (Served ListenersDone None) h)
  | Waiting (S n) =>
      match h_results h with
      | [] => None
      | r :: rs =>
          Some (MkHost (h_run h) (h_unixSpecs h) (h_entries h) (match r with None => Waiting n | Some e => Served ListenersDone (Some e) end)
                  (h_close h) (h_goroutines h) rs (h_serving h) (h_os h) (h_others h) (h_failed h))
      end
  | Served _ _ => None
  end.

(** One turn of the [func (s *Server) Close() error] that wins the transition. *)
Definition close_turn (h : host) : option host :=
  match h_close h with
  | None => Some (set_close (Some PhCancel) (set_run (Close (h_run h)) h))
  | Some ph => '(ph', h') ← teardown_turn ph h; Some (set_close (Some ph') h')
  end.

(** The goroutine of an entry returns: its server was shut down, or its listener
    failed. It closes its listener, reports, and counts itself out. *)
Definition listener_returns (i : nat) (result : option error) (h : host) : option host :=
  match h_entries h !! i with
  | Some e =>
      if bool_decide (i ∈ h_goroutines h) && bool_decide (is_Some result <-> le_shut e = false) then
        let h := close_entry i h in
        Some (MkHost (set_listeners (pred (ru_listeners (h_run h))) (h_run h)) (h_unixSpecs h) (h_entries h) (h_serve h)
                (h_close h) (filter (fun j => j <> i) (h_goroutines h)) (h_results h ++ [result])%list (h_serving h) (h_os h)
                (h_others h) (h_failed h || match result with Some _ => true | None => false end))
      else None
  | None => None
  end.

(** Another process: it takes over a path (removing what is there), or closes a
    listener of its own, or removes a path. *)
Definition other_binds (path : string) (ino : nat) (h : host) : host :=
  MkHost (h_run h) (h_unixSpecs h) (h_entries h) (h_serve h) (h_close h) (h_goroutines h) (h_results h) (h_serving h)
    (os_Listen path ino (os_Remove path (h_os h))) ({[ino]} ∪ h_others h) (h_failed h).
Definition other_closes (ino : nat) (h : host) : host :=
  MkHost (h_run h) (h_unixSpecs h) (h_entries h) (h_serve h) (h_close h) (h_goroutines h) (h_results h) (h_serving h)
    (os_Close ino (h_os h)) (h_others h ∖ {[ino]}) (h_failed h).

(** Another process removes a file. *)
Definition other_removes (path : string) (h : host) : host := set_os (os_Remove path (h_os h)) h.

(** A bind gets an inode number nobody uses. *)
Definition bind_fresh (b : bind_outcome) (h : host) : Prop :=
  match h_serve h with
  | Binding_ (spec :: _) _ => forall ino, bo_listen b = Ok ino -> ~ os_allocated (os_Remove (us_path spec) (h_os h)) ino
  | _ => True
  end.

Inductive host_step : host -> host -> Prop :=
  | H_serve b h h' : bind_fresh b h -> serve_turn b h = Some h' -> host_step h h'
  | H_close h h' : close_turn h = Some h' -> host_step h h'
  | H_listener i r h h' : listener_returns i r h = Some h' -> host_step h h'
  | H_update name now up r h : server_step (h_run h) (SvUpdate name now up) = Some r -> host_step h (set_run r h)
  | H_watch name r h : server_step (h_run h) (SvWatchReturns name) = Some r -> host_step h (set_run r h)
  | H_other_binds path ino h : ~ os_allocated (os_Remove path (h_os h)) ino -> host_step h (other_binds path ino h)
  | H_other_closes ino h : ino ∈ h_others h -> host_step h (other_closes ino h)
  | H_other_removes path h : host_step h (other_removes path h).

(** A constructed server on a host where other processes listen already. *)
Definition start_host (s : server W) (specs : list unixSpec) (o : os_state) : host :=
  MkHost (idle s) specs [] ServeIdle None [] [] false o (os_held o) false.

(** * Whose sockets the host holds *)

(** The inodes of the server's open listeners are its own. *)
Record os_ok (h : host) : Prop := {
  ok_others : h_others h ⊆ os_held (h_os h);
  ok_entry : forall i e ino, h_entries h !! i = Some e -> le_ino e = Some ino ->
    le_open e = true -> ino ∈ os_held (h_os h) /\ ino ∉ h_others h;
  ok_distinct : forall i j e e' ino, h_entries h !! i = Some e -> h_entries h !! j = Some e' ->
    le_ino e = Some ino -> le_ino e' = Some ino -> le_open e = true -> le_open e' = true -> i = j;
  ok_file : forall i e, h_entries h !! i = Some e -> le_unixFile e = None \/ le_unixFile e = le_ino e;
}.

(** Closing listeners and marking entries, and nothing else. *)
Record winds_down (h h' : host) : Prop := {
  wd_length : length (h_entries h') = length (h_entries h);
  wd_entry : forall i e', h_entries h' !! i = Some e' -> exists e, h_entries h !! i = Some e
    /\ le_unixPath e' = le_unixPath e /\ le_unixFile e' = le_unixFile e /\ le_ino e' = le_ino e
    /\ (le_open e' = true -> le_open e = true) /\ (le_shut e = true -> le_shut e' = true);
  wd_listeners : ru_listeners (h_run h') <= ru_listeners (h_run h);
  wd_closed : ru_closed (h_run h') = ru_closed (h_run h);
  wd_serve : h_serve h' = h_serve h;
  wd_goroutines : forall i, i ∈ h_goroutines h' -> i ∈ h_goroutines h;
}.

#[local] Instance winds_down_refl : Reflexive winds_down.
Proof. intros h. split; try done. intros i e He. exists e. by split_and!. Qed.

#[local] Instance winds_down_trans : Transitive winds_down.
Proof.
  intros h1 h2 h3 [L1 E1 N1 C1 S1 G1] [L2 E2 N2 C2 S2 G2]. split; [congruence| |lia|congruence|congruence|auto].
  intros i e3 He. destruct (E2 i e3 He) as (e2 & He2 & ? & ? & ? & ? & ?).
  destruct (E1 i e2 He2) as (e1 & He1 & ? & ? & ? & ? & ?). exists e1. split_and!; [done|congruence..|auto|auto].
Qed.

(** What a change of the entries alone keeps. *)
Record same_outside (h h' : host) : Prop := {
  so_run : h_run h' = h_run h;
  so_serve : h_serve h' = h_serve h;
  so_close : h_close h' = h_close h;
  so_goroutines : h_goroutines h' = h_goroutines h;
  so_others : h_others h' = h_others h;
  so_names : os_names (h_os h') = os_names (h_os h);
  so_failed : h_failed h' = h_failed h;
}.
#[local] Instance same_outside_refl : Reflexive same_outside.
Proof. by split. Qed.
#[local] Instance same_outside_trans : Transitive same_outside.
Proof. intros ??? [] []. split; congruence. Qed.

Lemma close_entry_same i h : same_outside h (close_entry i h).
Proof. unfold close_entry. destruct (h_entries h !! i); [|done]. case_match; [|done]. split; try done. simpl. by case_match. Qed.

Lemma close_entry_lookup i j h :
  h_entries (close_entry i h) !! j =
    (fun e => if decide (i = j) then MkEntry (le_unixPath e) (le_unixFile e) (le_ino e) false (le_shut e) (le_srv e) else e) <$> h_entries h !! j.
Proof.
  unfold close_entry. destruct (decide (i = j)) as [<-|Hij].
  - destruct (h_entries h !! i) as [[? ? ? [] ?]|] eqn:E; simpl; rewrite ?E; [|done..].
    rewrite list_lookup_insert_eq; [done|]. by eapply lookup_lt_Some.
  - destruct (h_entries h !! i) as [e|] eqn:E; simpl; [|by destruct (h_entries h !! j)].
    destruct (le_open e); simpl; [rewrite list_lookup_insert_ne by done|]; by destruct (h_entries h !! j).
Qed.

Lemma close_entry_length i h : length (h_entries (close_entry i h)) = length (h_entries h).
Proof. unfold close_entry. destruct (h_entries h !! i); [|done]. case_match; [|done]. simpl. apply length_insert. Qed.

Lemma close_entry_winds i h : winds_down h (close_entry i h).
Proof.
  destruct (close_entry_same i h) as [Er Es _ Eg _ _ _]. split; rewrite ?Er, ?Es, ?Eg; try done; [apply close_entry_length|].
  intros j e'. rewrite close_entry_lookup. intros (e & He & ->)%fmap_Some. exists e. by destruct (decide (i = j)).
Qed.

Lemma mark_shut_lookup n h j :
  h_entries (mark_shut n h) !! j =
    (fun e => if j <? n then MkEntry (le_unixPath e) (le_unixFile e) (le_ino e) (le_open e) true (le_srv e) else e) <$> h_entries h !! j.
Proof. unfold mark_shut. simpl. apply list_lookup_imap. Qed.

Lemma mark_shut_winds n h : winds_down h (mark_shut n h).
Proof.
  split; try done; [apply length_imap|].
  intros j e'. rewrite mark_shut_lookup. intros (e & He & ->)%fmap_Some. exists e. by destruct (j <? n).
Qed.

Lemma close_all_winds l h : winds_down h (foldr close_entry h l) /\ same_outside h (foldr close_entry h l).
Proof.
  induction l as [|i l [IH1 IH2]]; simpl; [done|].
  split; (etrans; [eassumption|]); [apply close_entry_winds|apply close_entry_same].
Qed.

Lemma close_all_closed l h i e : h_entries (foldr close_entry h l) !! i = Some e -> i ∈ l -> le_open e = false.
Proof.
  revert e. induction l as [|j l IH]; intros e; simpl; [set_solver|]. rewrite close_entry_lookup.
  intros (e0 & He & ->)%fmap_Some. destruct (decide (j = i)); [done|]. intros [?|?]%elem_of_cons; [done|]. by apply IH.
Qed.

(** * The invariants are kept by the pieces of a step *)

Lemma close_entry_os i h : os_ok h -> os_ok (close_entry i h).
Proof.
  intros [Ho He Hd Hf]. destruct (close_entry_same i h) as [_ _ _ _ Eo _ _].
  assert (forall ino, ino ∈ os_held (h_os h) -> (forall e, h_entries h !! i = Some e -> le_open e = true -> le_ino e <> Some ino) ->
    ino ∈ os_held (h_os (close_entry i h))) as Hheld.
  { intros ino Hin Hne. unfold close_entry. destruct (h_entries h !! i) as [e|] eqn:E; [|done].
    destruct (le_open e) eqn:Eo'; [|done]. simpl. destruct (le_ino e) as [k|] eqn:Ek; [|done].
    simpl. specialize (Hne e eq_refl Eo'). set_solver. }
  split; rewrite ?Eo.
  - intros ino Hin. apply Hheld; [by apply Ho|]. intros e Hi Hop Hk. destruct (He i e ino Hi Hk Hop) as [_ Hno]. done.
  - intros j e ino. rewrite close_entry_lookup. intros (e0 & H0 & ->)%fmap_Some. destruct (decide (i = j)); [done|].
    intros Hk Hop. destruct (He j e0 ino H0 Hk Hop) as [Hin Hno]. split; [|done]. apply Hheld; [done|].
    intros e' Hi Hop' Hk'. assert (i = j) by (by eapply Hd). done.
  - intros j k e e' ino. rewrite !close_entry_lookup. intros (e0 & H0 & ->)%fmap_Some (e1 & H1 & ->)%fmap_Some.
    destruct (decide (i = j)), (decide (i = k)); try done. apply (Hd j k); done.
  - intros j e. rewrite close_entry_lookup. intros (e0 & H0 & ->)%fmap_Some. specialize (Hf j e0 H0).
    by destruct (decide (i = j)).
Qed.

Lemma mark_shut_os n h : os_ok h -> os_ok (mark_shut n h).
Proof.
  intros [Ho He Hd Hf]. split; [done| | |].
  - intros j e ino. rewrite mark_shut_lookup. intros (e0 & H0 & ->)%fmap_Some. destruct (j <? n); simpl; eauto.
  - intros j k e e' ino. rewrite !mark_shut_lookup. intros (e0 & H0 & ->)%fmap_Some (e1 & H1 & ->)%fmap_Some.
    destruct (j <? n), (k <? n); simpl; eauto.
  - intros j e. rewrite mark_shut_lookup. intros (e0 & H0 & ->)%fmap_Some. destruct (j <? n); simpl; eauto.
Qed.

Lemma close_all_os l h : os_ok h -> os_ok (foldr close_entry h l).
Proof. intros H. induction l; simpl; [done|]. by apply close_entry_os. Qed.

(** * What a teardown has done at each phase *)

Definition all_shut (h : host) : Prop := forall i e, h_entries h !! i = Some e -> le_shut e = true.
Definition all_closed (h : host) : Prop := forall i e, h_entries h !! i = Some e -> le_open e = false.

Definition torn (ph : teardown_phase) (h : host) : Prop :=
  match ph with
  | PhCancel | PhSnapshot => True
  | PhUnlink n _ | PhShutdown n => n = length (h_entries h)
  | PhCloseAll n => n = length (h_entries h) /\ all_shut h
  | PhWaitListeners => all_shut h /\ all_closed h
  | PhResolve | PhWaitWatches | PhDone => all_shut h /\ all_closed h /\ ru_listeners (h_run h) = 0
  end.

Lemma winds_all_shut h h' : winds_down h h' -> all_shut h -> all_shut h'.
Proof. intros [_ E _ _ _ _] H i e' He. destruct (E i e' He) as (e & He0 & _ & _ & _ & _ & Hs). eauto. Qed.

Lemma winds_all_closed h h' : winds_down h h' -> all_closed h -> all_closed h'.
Proof.
  intros [_ E _ _ _ _] H i e' He. destruct (E i e' He) as (e & He0 & _ & _ & _ & Hs & _).
  specialize (H i e He0). destruct (le_open e'); [|done]. rewrite Hs in H by done. done.
Qed.

Lemma torn_winds ph h h' : winds_down h h' -> torn ph h -> torn ph h'.
Proof.
  intros Hw. pose proof (winds_all_shut _ _ Hw). pose proof (winds_all_closed _ _ Hw). destruct Hw as [L _ N _ _ _].
  destruct ph; simpl; rewrite ?L; try tauto; intros (? & ? & ?); split_and!; auto; lia.
Qed.

Lemma remove_owned_names path f o :
  os_held (removeOwnedSocket path f o) = os_held o
  /\ forall p i, os_names o !! p = Some i -> f <> Some i -> os_names (removeOwnedSocket path f o) !! p = Some i.
Proof.
  unfold removeOwnedSocket, os_Stat. destruct f as [ino|]; [|done]. destruct (os_names o !! path) as [c|] eqn:E; [|done].
  case_bool_decide as Hc; [|done]. subst. split; [done|]. simpl. intros p i Hp Hne.
  rewrite lookup_delete_ne; [done|]. intros ->. congruence.
Qed.

(** A change of files and of nothing else. *)
Lemma set_os_ok o h : os_held (h_os h) ⊆ os_held o -> os_ok h -> os_ok (set_os o h).
Proof. intros Hs [Ho He Hd Hf]. split; simpl; [set_solver| |done..]. intros i e ino Hi Hk Hop. destruct (He i e ino Hi Hk Hop). set_solver. Qed.

(** What only reads the entries, the files and the other processes. *)
Lemma os_ok_eq h h' : h_entries h' = h_entries h -> h_os h' = h_os h -> h_others h' = h_others h -> os_ok h -> os_ok h'.
Proof. intros Ee Eo Et [Ho He Hd Hf]. split; rewrite ?Ee, ?Eo, ?Et; done. Qed.

Lemma winds_down_eq h h' : h_entries h' = h_entries h -> h_serve h' = h_serve h -> h_goroutines h' = h_goroutines h ->
  ru_listeners (h_run h') = ru_listeners (h_run h) -> ru_closed (h_run h') = ru_closed (h_run h) -> winds_down h h'.
Proof. intros Ee Es Eg El Ec. split; rewrite ?Ee, ?Es, ?Eg, ?El, ?Ec; try done. intros i e ?. exists e. by split_and!. Qed.

Lemma teardown_turn_spec ph h ph' h' : teardown_turn ph h = Some (ph', h') ->
  winds_down h h' /\ h_close h' = h_close h /\ h_others h' = h_others h /\ h_failed h' = h_failed h
  /\ h_goroutines h' = h_goroutines h /\ ru_listeners (h_run h') = ru_listeners (h_run h) /\ (os_ok h -> os_ok h')
  /\ (torn ph h -> (h_entries h = [] -> ru_listeners (h_run h) = 0) -> torn ph' h').
Proof.
  destruct ph as [| |n [|i todo]|n|n| | | |]; simpl; intros E; simplify_eq/=.
  - split_and!; try done; [by apply winds_down_eq|by apply os_ok_eq].
  - destruct (h_entries h) eqn:Ee; simplify_eq/=; split_and!; try done.
    + intros _ H0. unfold all_shut, all_closed. rewrite Ee. split_and!; [by intros ? ? ?%list_elem_of_lookup_2%elem_of_nil..|auto].
    + by rewrite Ee.
  - by split_and!.
  - destruct (h_entries h !! i) as [e|] eqn:Ee; [|by split_and!]. case_bool_decide; [by split_and!|].
    destruct (remove_owned_names (le_unixPath e) (le_unixFile e) (h_os h)) as [Hh _].
    split_and!; try done; [by apply winds_down_eq|intros Hok; apply set_os_ok; [by rewrite Hh|done]].
  - destruct (close_all_winds (filter (fun i => i < n) (h_goroutines h)) (mark_shut n h)) as [Hw [Er _ Ec Eg Eo _ Ef]].
    assert (winds_down h (foldr close_entry (mark_shut n h) (filter (fun i => i < n) (h_goroutines h)))) as Hw'
      by (etrans; [apply mark_shut_winds|exact Hw]).
    split_and!; try done; [by rewrite Er|intros; by apply close_all_os, mark_shut_os|].
    intros -> _. split; [by rewrite (wd_length _ _ Hw')|]. apply (winds_all_shut _ _ Hw).
    intros i e. rewrite mark_shut_lookup. intros (e0 & H0 & ->)%fmap_Some.
    apply lookup_lt_Some in H0. by rewrite (proj2 (Nat.ltb_lt _ _) H0).
  - destruct (close_all_winds (seq 0 n) h) as [Hw [Er _ Ec Eg Eo _ Ef]]. split_and!; try done; [by rewrite Er|intros; by apply close_all_os|].
    intros [-> Hs] _. split; [by apply (winds_all_shut _ _ Hw)|]. intros i e He. eapply close_all_closed; [exact He|].
    apply lookup_lt_Some in He. rewrite (wd_length _ _ Hw) in He. apply elem_of_seq. lia.
  - destruct (ru_listeners (h_run h)) eqn:El; simplify_eq. split_and!; try done. intros [? ?] _. by split_and!.
  - destruct (ru_started (h_run h)); simplify_eq; split_and!; try done; [by apply winds_down_eq|by apply os_ok_eq].
  - case_bool_decide; simplify_eq. by split_and!.
Qed.

(** An unlink spares other processes as long as the listener is open. *)
Lemma teardown_keeps_others ph h ph' h' : os_ok h -> teardown_turn ph h = Some (ph', h') ->
  (forall n i todo e, ph = PhUnlink n (i :: todo) -> h_entries h !! i = Some e -> le_open e = true) ->
  forall p ino, os_names (h_os h) !! p = Some ino -> ino ∈ h_others h -> os_names (h_os h') !! p = Some ino.
Proof.
  intros [_ He _ Hf] E Hopen p ino Hp Hin. destruct ph as [| |n [|i todo]|n|n| | | |]; simpl in E; simplify_eq/=; try done.
  - repeat case_match; by simplify_eq.
  - destruct (h_entries h !! i) as [e|] eqn:Ee; [|done]. case_bool_decide; [done|]. simpl.
    apply remove_owned_names; [done|]. intros Ef. specialize (Hopen n i todo e eq_refl Ee).
    destruct (Hf i e Ee) as [?|Hk]; [congruence|]. rewrite Ef in Hk. by destruct (He i e ino Ee (eq_sym Hk) Hopen).
  - destruct (close_all_winds (filter (fun i => i < n) (h_goroutines h)) (mark_shut n h)) as [_ [_ _ _ _ _ En _]]. by rewrite En.
  - destruct (close_all_winds (seq 0 n) h) as [_ [_ _ _ _ _ En _]]. by rewrite En.
  - repeat case_match; by simplify_eq.
  - repeat case_match; by simplify_eq.
  - repeat case_match; by simplify_eq.
Qed.

(** Whether a listener may have been closed on the way to a [Close]'s unlinks. *)
Definition tears_itself (pc : serve_pc) : bool :=
  match pc with SelfTeardown _ | Served ClosedMeanwhile _ => true | _ => false end.
Definition before_unlinked (ph : option teardown_phase) : bool :=
  match ph with None | Some (PhCancel | PhSnapshot | PhUnlink _ _ | PhShutdown _) => true | _ => false end.

Definition serve_ok (h : host) : Prop :=
  match h_serve h with
  | ServeIdle | Served Refused _ => h_entries h = [] /\ h_goroutines h = []
  | Binding_ _ _ | Served BindFailed _ => h_goroutines h = []
  | SelfTeardown ph => h_goroutines h = [] /\ torn ph h
  | Served ClosedMeanwhile _ => h_goroutines h = [] /\ torn PhDone h
  | Waiting _ | Served ListenersDone _ => forall ph, h_close h = Some ph -> torn ph h
  end.

Record host_ok (h : host) : Prop := {
  ho_os : os_ok h;
  ho_closed : is_Some (h_close h) -> ru_closed (h_run h) = true;
  ho_count : ru_listeners (h_run h) = length (h_goroutines h);
  ho_nodup : NoDup (h_goroutines h);
  ho_range : forall i, i ∈ h_goroutines h -> i < length (h_entries h);
  ho_serve : serve_ok h;
  ho_intact : h_failed h = false -> tears_itself (h_serve h) = false -> before_unlinked (h_close h) = true ->
    forall i e, h_entries h !! i = Some e -> le_open e = true /\ le_shut e = false;
}.

(** * The invariant is kept *)

Lemma bindUnix_ok spec b o o' r : bindUnix spec b o = (o', r) ->
  (forall ino, bo_listen b = Ok ino -> ~ os_allocated (os_Remove (us_path spec) o) ino) ->
  os_held o ⊆ os_held o' /\ forall e, r = Ok e ->
    le_open e = true /\ le_shut e = false /\ (le_unixFile e = None \/ le_unixFile e = le_ino e)
    /\ exists ino, le_ino e = Some ino /\ ino ∉ os_held o /\ ino ∈ os_held o'.
Proof.
  unfold bindUnix. intros E Hfresh. destruct (bo_remove b); simplify_eq; [done|]. destruct (bo_listen b) as [ino|]; simplify_eq; [|done].
  assert (ino ∉ os_held o) as Hnew by (intros Hin; apply (Hfresh ino); [done|by apply elem_of_union_l]).
  destruct (bo_chmod b); simplify_eq/=; split; try set_solver. intros e [= <-]. simpl. split_and!; try done.
  - destruct (bo_stat b); [right|by left]. unfold os_Stat. simpl. by rewrite lookup_insert_eq.
  - exists ino. set_solver.
Qed.

Lemma addEntry_os e o h : os_ok h -> os_held (h_os h) ⊆ os_held o ->
  (le_unixFile e = None \/ le_unixFile e = le_ino e) ->
  (forall ino, le_ino e = Some ino -> ino ∉ os_held (h_os h) /\ ino ∈ os_held o) -> os_ok (addEntry e (set_os o h)).
Proof.
  intros [Ho He Hd Hf] Hs Hfe Hi. split; simpl.
  - set_solver.
  - intros i e' ino [Hl|[-> <-]]%lookup_snoc_Some Hk Hop; [|destruct (Hi ino Hk); set_solver].
    destruct (He i e' ino (proj2 Hl) Hk Hop). set_solver.
  - intros i j e1 e2 ino [[? H1]|[-> <-]]%lookup_snoc_Some [[? H2]|[-> <-]]%lookup_snoc_Some Hk1 Hk2 Hp1 Hp2; [by eapply Hd| | |done].
    + destruct (He i e1 ino H1 Hk1 Hp1), (Hi ino Hk2). done.
    + destruct (He j e2 ino H2 Hk2 Hp2), (Hi ino Hk1). done.
  - intros i e' [[? Hl]|[-> <-]]%lookup_snoc_Some; eauto.
Qed.

Lemma listener_returns_spec i r h h' : listener_returns i r h = Some h' ->
  exists e, h_entries h !! i = Some e /\ i ∈ h_goroutines h /\ (is_Some r <-> le_shut e = false)
  /\ h' = MkHost (set_listeners (pred (ru_listeners (h_run h))) (h_run h)) (h_unixSpecs h) (h_entries (close_entry i h)) (h_serve h)
             (h_close h) (filter (fun j => j <> i) (h_goroutines h)) (h_results h ++ [r])%list (h_serving h)
             (h_os (close_entry i h)) (h_others h) (h_failed h || match r with Some _ => true | None => false end).
Proof.
  unfold listener_returns. destruct (h_entries h !! i) as [e|] eqn:Ee; [|done].
  destruct (bool_decide (i ∈ h_goroutines h)) eqn:Ei; [|done].
  destruct (bool_decide (is_Some r <-> le_shut e = false)) eqn:Er; [|done].
  apply bool_decide_eq_true in Ei, Er. simpl. intros [= <-]. exists e. split_and!; [done..|].
  unfold close_entry. rewrite Ee. by destruct (le_open e).
Qed.

Lemma listener_returns_ok i r h h' : listener_returns i r h = Some h' -> host_ok h -> host_ok h'.
Proof.
  intros (e & Ee & Ei & Er & ->)%listener_returns_spec [Hos Hcl Hct Hnd Hrg Hsv Hin].
  set (h' := MkHost _ _ _ _ _ _ _ _ _ _ _).
  pose proof (length_filter_remove i (h_goroutines h) Hnd Ei) as Hlen.
  destruct (close_entry_winds i h) as [Wl We _ _ _ _].
  assert (winds_down h h') as Hw.
  { split; simpl; try done; [lia|]. intros j. rewrite list_elem_of_filter. tauto. }
  split; simpl; try done.
  - apply (os_ok_eq (close_entry i h)); try done; [|by apply close_entry_os].
    by rewrite (so_others _ _ (close_entry_same i h)).
  - rewrite Hct, Hlen. done.
  - by apply NoDup_filter.
  - intros j Hj. rewrite Wl. apply Hrg. by apply list_elem_of_filter in Hj as [_ ?].
  - unfold serve_ok in *. simpl. destruct (h_serve h) as [| |ph|n|[] o];
      repeat match goal with H : _ /\ h_goroutines h = [] |- _ => destruct H as [_ H] | H : h_goroutines h = [] /\ _ |- _ => destruct H as [H _] end;
      try (rewrite Hsv in Ei; set_solver);
      intros ph Hph; apply (torn_winds _ _ _ Hw); by apply Hsv.
  - intros [Hfl Hnr]%orb_false_iff Ht Hb j e' Hj.
    destruct (Hin Hfl Ht Hb i e Ee) as [_ Hs]. apply Er in Hs as [? ->]. done.
Qed.

Lemma teardown_intact ph h ph' h' : teardown_turn ph h = Some (ph', h') -> before_unlinked (Some ph') = true ->
  before_unlinked (Some ph) = true /\ h_entries h' = h_entries h.
Proof.
  destruct ph as [| |n [|i todo]|n|n| | | |]; simpl; intros E; simplify_eq/=; try done; repeat case_match; by simplify_eq/=.
Qed.

Lemma close_turn_ok h h' : close_turn h = Some h' -> host_ok h -> host_ok h'.
Proof.
  unfold close_turn. intros E [Hos Hcl Hct Hnd Hrg Hsv Hin]. destruct (h_close h) as [ph|] eqn:Ec.
  - destruct (teardown_turn ph h) as [[ph' h1]|] eqn:Et; simplify_eq/=.
    destruct (teardown_turn_spec _ _ _ _ Et) as (Hw & Hc & Ho & Hf & Hg & Hl & Hok & Htorn).
    assert (h_entries h = [] -> ru_listeners (h_run h) = 0) as Hempty.
    { intros Ee. rewrite Hct. destruct (h_goroutines h) as [|i l]; [done|].
      specialize (Hrg i ltac:(left)). rewrite Ee in Hrg. simpl in Hrg. lia. }
    split; simpl; rewrite ?Hg, ?Hl, ?(wd_length _ _ Hw), ?(wd_serve _ _ Hw); try done.
    + apply (os_ok_eq h1); auto.
    + intros _. rewrite (wd_closed _ _ Hw). apply Hcl. eauto.
    + unfold serve_ok in *. simpl. rewrite (wd_serve _ _ Hw), Hg. simpl.
      pose proof (fun p => torn_winds p _ _ Hw) as Hmono.
      destruct (h_serve h) as [| |ph0|n|[] o]; try done.
      * destruct Hsv as [Hnil ?]. split; [|done]. apply length_zero_iff_nil. by rewrite (wd_length _ _ Hw), Hnil.
      * destruct Hsv. split; [done|]. by apply Hmono.
      * intros ? [= <-]. auto.
      * destruct Hsv as [Hnil ?]. split; [|done]. apply length_zero_iff_nil. by rewrite (wd_length _ _ Hw), Hnil.
      * destruct Hsv. split; [done|]. by apply (Hmono PhDone).
      * intros ? [= <-]. auto.
    + rewrite Hf. intros Hfl Ht Hb. destruct (teardown_intact _ _ _ _ Et Hb) as [Hb' Ee]. rewrite Ee. by apply Hin.
  - simplify_eq. split; simpl; try done.
    + by apply (os_ok_eq h).
    + unfold serve_ok in *. simpl. destruct (h_serve h) as [| |ph0|n|[] o]; try done; by intros ? [= <-].
Qed.

Lemma server_start_ok (r r' : running W) : server_start r = (r', None) ->
  ru_closed r = false /\ ru_closed r' = false /\ ru_listeners r' = ru_listeners r.
Proof. unfold server_start. repeat case_match; intros [= <-]; by split_and!. Qed.

Lemma beginListening_ok n (r r' : running W) : beginListening n r = (r', true) ->
  ru_closed r = false /\ ru_closed r' = false /\ ru_listeners r' = ru_listeners r + n.
Proof. unfold beginListening. case_match; intros [= <-]; by split_and!. Qed.

(** [Serve] that returns, or moves on without touching an entry. *)
Lemma set_serve_ok pc h : host_ok h -> serve_ok (set_serve pc h) ->
  (tears_itself pc = false -> tears_itself (h_serve h) = false) -> host_ok (set_serve pc h).
Proof.
  intros [Hos Hcl Hct Hnd Hrg Hsv Hin] Hsv' Ht. split; simpl; try done; [by apply (os_ok_eq h)|]. intros Hf Hs Hb. by apply Hin; auto.
Qed.

Lemma set_os_host_ok o h : host_ok h -> os_held (h_os h) ⊆ os_held o -> host_ok (set_os o h).
Proof. intros [Hos Hcl Hct Hnd Hrg Hsv Hin] Hs. split; try done. by apply set_os_ok. Qed.

Lemma addEntry_ok e o h : host_ok h -> os_held (h_os h) ⊆ os_held o -> h_goroutines h = [] ->
  (exists us ts, h_serve h = Binding_ us ts) -> le_open e = true -> le_shut e = false ->
  (le_unixFile e = None \/ le_unixFile e = le_ino e) ->
  (forall ino, le_ino e = Some ino -> ino ∉ os_held (h_os h) /\ ino ∈ os_held o) -> host_ok (addEntry e (set_os o h)).
Proof.
  intros [Hos Hcl Hct Hnd Hrg Hsv Hin] Hs Hg (us & ts & Es) Ho Hsh Hfe Hi. split; simpl; try done.
  - by apply addEntry_os.
  - rewrite Hg. set_solver.
  - unfold serve_ok in *. simpl. by rewrite Es in *.
  - intros Hf Ht Hb i e' [[? Hl]|[-> <-]]%lookup_snoc_Some; [by eapply Hin|done].
Qed.

Lemma serve_turn_ok b h h' : bind_fresh b h -> serve_turn b h = Some h' -> host_ok h -> host_ok h'.
Proof.
  unfold bind_fresh, serve_turn. intros Hfresh E Hok. pose proof (ho_serve _ Hok) as Hsv. unfold serve_ok in Hsv.
  destruct (h_serve h) as [|[|us uss] tcp|ph|n|by_ res] eqn:Es; [| | | | |done].
  - destruct (_ && _); simplify_eq; [by apply set_serve_ok; [|unfold serve_ok|rewrite Es]|].
    destruct (server_start (h_run h)) as [r [e|]] eqn:Er; simplify_eq; [by apply set_serve_ok; [|unfold serve_ok|rewrite Es]|].
    destruct (server_start_ok _ _ Er) as (Hc & Hc' & Hl). destruct Hok as [Hos Hcl Hct Hnd Hrg _ Hin].
    destruct Hsv as [He Hg]. split; simpl; try done.
    + by apply (os_ok_eq h).
    + intros Hx. rewrite Hcl in Hc by done. done.
    + by rewrite Hl.
    + intros _ _ _ i e. by rewrite He.
  - destruct tcp as [|spec tcp].
    + destruct (beginListening (length (h_entries h)) (h_run h)) as [r []] eqn:Er; simplify_eq.
      * destruct (beginListening_ok _ _ _ Er) as (Hc & Hc' & Hl). destruct Hok as [Hos Hcl Hct Hnd Hrg _ Hin].
        assert (h_close h = None) as Ec by (destruct (h_close h); [|done]; rewrite Hcl in Hc by done; done).
        split; simpl; try done.
        -- by apply (os_ok_eq h).
        -- by rewrite Ec; intros [].
        -- by rewrite Hl, Hct, Hsv, length_seq.
        -- apply NoDup_seq.
        -- intros i [_ Hi]%elem_of_seq. done.
        -- unfold serve_ok. simpl. by rewrite Ec.
        -- intros Hf _ Hb. rewrite Es in Hin. by apply Hin.
      * by apply set_serve_ok; [|unfold serve_ok|rewrite Es].
    + destruct (bindTCP spec b) as [e|e] eqn:Eb; simplify_eq; [|by apply set_serve_ok; [|unfold serve_ok|rewrite Es]].
      unfold bindTCP in Eb. destruct (bo_listen b); simplify_eq. apply set_serve_ok; unfold serve_ok; simpl; [|done|by rewrite Es].
      apply (addEntry_ok _ (h_os h)); try done; eauto.
  - destruct (bindUnix us b (h_os h)) as [o r] eqn:Eb. destruct (bindUnix_ok _ _ _ _ _ Eb Hfresh) as [Hs Hr].
    destruct r as [e|e]; simplify_eq.
    + destruct (Hr e eq_refl) as (H1 & H2 & H3 & ino & H4 & H5 & H6). apply set_serve_ok; unfold serve_ok; simpl; [|done|by rewrite Es].
      apply addEntry_ok; eauto. intros k. rewrite H4. intros [= <-]. done.
    + apply set_serve_ok; unfold serve_ok; simpl; [by apply set_os_host_ok|done|by rewrite Es].
  - destruct (decide (ph = PhDone)) as [->|Hd].
    + simplify_eq. by apply set_serve_ok; [|unfold serve_ok|rewrite Es].
    + destruct Hsv as [Hg Ht]. assert (exists ph' h1, teardown_turn ph h = Some (ph', h1) /\ h' = set_serve (SelfTeardown ph') h1) as
        (ph' & h1 & Et & ->) by (destruct ph; try done; simpl in E |- *; repeat case_match; simplify_eq/=; eauto).
      destruct (teardown_turn_spec _ _ _ _ Et) as (Hw & Hc & Ho & Hf & Hg' & Hl & Hok' & Htorn).
      destruct Hok as [Hos Hcl Hct Hnd Hrg _ Hin].
      split; simpl; rewrite ?Hg', ?Hl, ?Hc, ?(wd_length _ _ Hw), ?(wd_closed _ _ Hw); try done.
      * apply (os_ok_eq h1); auto.
      * unfold serve_ok. simpl. rewrite Hg'. split; [done|]. apply Htorn; [done|]. by rewrite Hct, Hg.
  - destruct n as [|n]; [simplify_eq; by apply set_serve_ok; [|unfold serve_ok|rewrite Es]|].
    destruct (h_results h) as [|r rs]; simplify_eq. destruct Hok as [Hos Hcl Hct Hnd Hrg _ Hin].
    split; simpl; try done; [by apply (os_ok_eq h)|destruct r; exact Hsv|].
    intros Hf _ Hb. apply Hin; [done|by rewrite Es|done].
Qed.

Lemma other_binds_ok path ino h : ~ os_allocated (os_Remove path (h_os h)) ino -> host_ok h -> host_ok (other_binds path ino h).
Proof.
  unfold os_allocated. simpl. intros Hnew [[Ho He Hd Hf] Hcl Hct Hnd Hrg Hsv Hin]. split; try done. split; simpl; [set_solver| |done..].
  intros i e k Hi Hk Hop. destruct (He i e k Hi Hk Hop). set_solver.
Qed.

Lemma other_closes_ok ino h : ino ∈ h_others h -> host_ok h -> host_ok (other_closes ino h).
Proof.
  intros Hino [[Ho He Hd Hf] Hcl Hct Hnd Hrg Hsv Hin]. split; try done. split; simpl; [set_solver| |done..].
  intros i e k Hi Hk Hop. destruct (He i e k Hi Hk Hop). set_solver.
Qed.

Lemma set_run_ok r h : ru_closed r = ru_closed (h_run h) -> ru_listeners r = ru_listeners (h_run h) -> host_ok h -> host_ok (set_run r h).
Proof.
  intros Ec El [Hos Hcl Hct Hnd Hrg Hsv Hin]. split; simpl; rewrite ?Ec, ?El; try done; [by apply (os_ok_eq h)|].
  unfold serve_ok, torn in *. simpl. rewrite El. destruct (h_serve h); done.
Qed.

Lemma host_step_ok h h' : host_step h h' -> host_ok h -> host_ok h'.
Proof.
  intros Hs Hok. destruct Hs as [b h h' Hb E|h h' E|i r h h' E|name now up r h E|name r h E|path ino h Hn|ino h Hin|path h].
  - by eapply serve_turn_ok.
  - by eapply close_turn_ok.
  - by eapply listener_returns_ok.
  - simpl in E. case_bool_decide; simplify_eq. by apply set_run_ok.
  - simpl in E. case_bool_decide; simplify_eq. by apply set_run_ok.
  - by apply other_binds_ok.
  - by apply other_closes_ok.
  - by apply set_os_host_ok.
Qed.

Lemma start_host_ok s specs o : host_ok (start_host s specs o).
Proof.
  split; simpl; try done; try set_solver. constructor.
Qed.

Lemma host_reachable_ok s specs o h : rtc host_step (start_host s specs o) h -> host_ok h.
Proof.
  intros Hr. assert (host_ok (start_host s specs o)) as H0 by apply start_host_ok. revert H0.
  induction Hr; eauto using host_step_ok.
Qed.

(** * What Close promises *)


(** When [Close] has returned and [Serve] too, unless [Serve] failed to bind:
    every listener is closed and every goroutine that served one has returned, in
    every interleaving of the two with the listeners and with other processes. *)
Theorem close_is_complete s specs o h by_ result : rtc host_step (start_host s specs o) h ->
  h_close h = Some PhDone -> h_serve h = Served by_ result -> by_ <> BindFailed ->
  (forall i e, h_entries h !! i = Some e -> le_open e = false) /\ h_goroutines h = [] /\ ru_listeners (h_run h) = 0.
Proof.
  intros Hr Hc Hs Hb. destruct (host_reachable_ok _ _ _ _ Hr) as [_ _ Hct _ _ Hsv _]. unfold serve_ok in Hsv. rewrite Hs in Hsv.
  rewrite Hct. destruct by_; try done.
  - destruct Hsv as [-> ->]. by split_and!.
  - destruct Hsv as [-> (_ & ? & _)]. by split_and!.
  - destruct (Hsv _ Hc) as (_ & ? & Hl). rewrite Hct in Hl. apply length_zero_iff_nil in Hl as ->. by split_and!.
Qed.

(** How much of a [Close] is left. *)
Definition close_left (h : host) : nat :=
  length (h_goroutines h) + size (ru_watchers (h_run h)) +
  match h_close h with
  | None => 0
  | Some PhCancel => 8 + length (h_entries h)
  | Some PhSnapshot => 7 + length (h_entries h)
  | Some (PhUnlink _ todo) => 6 + length todo
  | Some (PhShutdown _) => 5
  | Some (PhCloseAll _) => 4
  | Some PhWaitListeners => 3
  | Some PhResolve => 2
  | Some PhWaitWatches => 1
  | Some PhDone => 0
  end.

Lemma teardown_left ph h ph' h' : h_close h = Some ph -> teardown_turn ph h = Some (ph', h') ->
  close_left (set_close (Some ph') h') < close_left h.
Proof.
  intros Ec E. destruct (teardown_turn_spec _ _ _ _ E) as ([Hl _ _ _ _ _] & _ & _ & _ & Hg & _).
  assert (ru_watchers (h_run h') = ru_watchers (h_run h)) as Hw.
  { destruct ph as [| |n [|i todo]|n|n| | | |]; simpl in E; repeat case_match; simplify_eq/=; try done.
    - destruct (close_all_winds (filter (fun i => i < n) (h_goroutines h)) (mark_shut n h)) as [_ [Er _ _ _ _ _ _]]. by rewrite Er.
    - destruct (close_all_winds (seq 0 n) h) as [_ [Er _ _ _ _ _ _]]. by rewrite Er. }
  unfold close_left. rewrite Ec. simpl. rewrite Hg, Hw, Hl.
  destruct ph as [| |n [|i todo]|n|n| | | |]; simpl in E; repeat case_match; simplify_eq/=; try lia.
  rewrite length_seq. lia.
Qed.

(** A [Close] that waits has a goroutine to wait for, and that one can return. *)
Lemma close_progress h : host_ok h -> is_Some (h_close h) -> h_close h <> Some PhDone ->
  exists h', host_step h h' /\ is_Some (h_close h') /\ close_left h' < close_left h.
Proof.
  intros Hok [ph Ec] Hnd. destruct (teardown_turn ph h) as [[ph' h']|] eqn:Et.
  - exists (set_close (Some ph') h'). split_and!; [|done|by eapply teardown_left]. apply H_close. unfold close_turn. by rewrite Ec, Et.
  - destruct ph as [| |n [|i todo]|n|n| | | |]; simpl in Et; try done; try (by repeat case_match).
    + destruct Hok as [_ _ Hct _ Hrg Hsv _]. destruct (ru_listeners (h_run h)) eqn:El; [done|].
      destruct (h_goroutines h) as [|i l] eqn:Eg; [done|].
      assert (all_shut h) as Hshut.
      { unfold serve_ok in Hsv. rewrite Eg in Hsv. destruct (h_serve h) as [| |ph|n0|[] r]; try done; try (by destruct Hsv); by destruct (Hsv _ Ec). }
      destruct (lookup_lt_is_Some_2 (h_entries h) i) as [e Ee]; [apply Hrg; left|].
      assert (listener_returns i None h <> None) as Hret.
      { unfold listener_returns. rewrite Ee. rewrite !bool_decide_eq_true_2; [done| |rewrite Eg; left].
        rewrite (Hshut i e Ee). split; [by intros []|done]. }
      destruct (listener_returns i None h) as [h'|] eqn:E; [|done]. exists h'. split_and!; [by eapply H_listener| |].
      * apply listener_returns_spec in E as (? & _ & _ & _ & ->). simpl. by rewrite Ec.
      * apply listener_returns_spec in E as (? & _ & _ & _ & ->). unfold close_left. simpl. rewrite Ec, Eg.
        rewrite filter_cons_False by tauto. pose proof (length_filter (fun j => j <> i) l). simpl. lia.
    + case_bool_decide as Hw; [done|]. destruct (set_choose_L _ Hw) as [name Hn].
      exists (set_run (set_watchers (ru_watchers (h_run h) ∖ {[name]}) (h_run h)) h). split_and!; [|by eexists|].
      * eapply H_watch. simpl. by rewrite bool_decide_eq_true_2.
      * unfold close_left. simpl. rewrite Ec, size_difference by set_solver. rewrite size_singleton.
        assert (size (ru_watchers (h_run h)) <> 0) by (intros Hz%size_empty_inv; apply Hw; by apply leibniz_equiv). lia.
Qed.

(** [Close] never gets stuck: from wherever it is, in any interleaving, the turns
    left to it and the returns of the goroutines it waits for bring it to its end. *)
Theorem close_completes s specs o h : rtc host_step (start_host s specs o) h -> is_Some (h_close h) ->
  exists h', rtc host_step h h' /\ h_close h' = Some PhDone.
Proof.
  intros Hr Hc. apply host_reachable_ok in Hr. remember (close_left h) as n eqn:En. revert h En Hr Hc.
  induction (lt_wf n) as [n _ IH]. intros h -> Hok Hc.
  destruct (decide (h_close h = Some PhDone)) as [|Hd]; [by exists h|].
  destruct (close_progress h Hok Hc Hd) as (h1 & Hs & Hc1 & Hlt).
  destruct (IH _ Hlt h1 eq_refl (host_step_ok _ _ Hs Hok) Hc1) as (h2 & Hr & Hd2).
  exists h2. split; [by eapply rtc_l|done].
Qed.

(** A [Serve] that comes after a [Close] binds nothing. *)
Lemma serve_refused_after_close b h h' : ru_closed (h_run h) = true -> h_serve h = ServeIdle -> serve_turn b h = Some h' ->
  h_entries h' = h_entries h /\ h_os h' = h_os h /\ exists e, h_serve h' = Served Refused (Some e).
Proof. unfold serve_turn, server_start. intros -> ->. case_match; intros [= <-]; eauto. Qed.

(** * Runs *)

Inductive host_event :=
  | TServe (b : bind_outcome)
  | TClose
  | TListener (i : nat) (r : option error)
  | TOther (path : string) (ino : nat).

Definition free (o : os_state) (ino : nat) : bool := bool_decide (ino ∉ os_held o ∪ (map_img (os_names o) : gset nat)).

Definition host_turn (ev : host_event) (h : host) : option host :=
  match ev with
  | TServe b =>
      if match h_serve h, bo_listen b with
         | Binding_ (spec :: _) _, Ok ino => free (os_Remove (us_path spec) (h_os h)) ino
         | _, _ => true
         end
      then serve_turn b h else None
  | TClose => close_turn h
  | TListener i r => listener_returns i r h
  | TOther path ino => if free (os_Remove path (h_os h)) ino then Some (other_binds path ino h) else None
  end.

Fixpoint host_turns (evs : list host_event) (h : host) : option host :=
  match evs with [] => Some h | ev :: evs => h' ← host_turn ev h; host_turns evs h' end.

Lemma host_turn_step ev h h' : host_turn ev h = Some h' -> host_step h h'.
Proof.
  unfold host_turn, free. destruct ev as [b| |i r|path ino].
  - destruct (h_serve h) as [|[|spec us] ts|ph|n|x y] eqn:Es; intros E;
      try (apply (H_serve b); [unfold bind_fresh; by rewrite Es|done]).
    destruct (bo_listen b) as [ino|e] eqn:Eb; [case_bool_decide; [|done]|];
      (apply (H_serve b); [unfold bind_fresh; rewrite Es, Eb|done]); [|done]. by intros ? [= <-].
  - apply H_close.
  - apply H_listener.
  - case_bool_decide as Hf; [|done]. intros [= <-]. by apply H_other_binds.
Qed.

Lemma host_turns_rtc evs h h' : host_turns evs h = Some h' -> rtc host_step h h'.
Proof.
  revert h. induction evs as [|ev evs IH]; intros h; simpl; [by intros [= <-]|].
  destruct (host_turn ev h) as [h1|] eqn:E; [|done]. simpl. intros Hr. eapply rtc_l; [by eapply host_turn_step|by apply IH].
Qed.
End transport.
Arguments host : clear implicits.

(** * What the ownership check does not cover *)

Definition two_sockets : list unixSpec := [MkUnix "/s" 384; MkUnix "/t" 384].
Definition bare_server : server unit := MkServer zero_config ∅.
Definition no_sockets : os_state := MkOs ∅ ∅.
Definition gets (ino : nat) : bind_outcome := MkOutcome None (Ok ino) None true.
Definition start_bare : host unit := start_host bare_server two_sockets no_sockets.
Definition after (evs : list host_event) : host unit := default start_bare (host_turns evs start_bare).

Lemma after_reachable evs : (if host_turns evs start_bare then true else false) = true -> rtc host_step start_bare (after evs).
Proof. unfold after. destruct (host_turns evs start_bare) as [h|] eqn:E; [|done]. intros _. by eapply host_turns_rtc. Qed.

(** [Close] comes while [Serve] binds its second socket: it unlinks and closes the
    first; the next server takes over the path and gets the inode number; then
    [Serve], in its own teardown, finds its recorded identity at the path and deletes
    the live socket of the next server. *)
Definition double_teardown : list host_event :=
  [TServe (gets 0); TServe (gets 1); TClose; TClose; TClose; TClose; TClose; TClose; TClose; TOther "/s" 1;
   TServe (gets 2); TServe (gets 0); TServe (gets 0); TServe (gets 0)].

Lemma second_teardown_strands_successor : exists h h',
  rtc host_step start_bare h /\ serve_turn (gets 0) h = Some h' /\ h_failed h = false
  /\ os_names (h_os h) !! "/s" = Some 1 /\ 1 ∈ h_others h' /\ os_names (h_os h') !! "/s" = None.
Proof.
  exists (after double_teardown), (after (double_teardown ++ [TServe (gets 0)])).
  split_and!; [apply after_reachable; by vm_compute|by vm_compute..].
Qed.

(** A listener that failed is closed long before [Close] looks at its path: the
    identity [Close] compares with is free for the next server's socket. *)
Definition failed_listener : list host_event :=
  [TServe (gets 0); TServe (gets 1); TServe (gets 2); TServe (gets 0); TListener 0 (Some (EOpaque "accept")); TOther "/s" 1;
   TClose; TClose; TClose].

Lemma failed_listener_strands_successor : exists h h',
  rtc host_step start_bare h /\ close_turn h = Some h' /\ tears_itself (h_serve h) = false
  /\ os_names (h_os h) !! "/s" = Some 1 /\ 1 ∈ h_others h' /\ os_names (h_os h') !! "/s" = None.
Proof.
  exists (after failed_listener), (after (failed_listener ++ [TClose])).
  split_and!; [apply after_reachable; by vm_compute|by vm_compute..].
Qed.

(** A bind that fails after a [Close] has found nothing to close returns with the
    listeners bound until then: [Close] is done, and a later one does nothing. *)
Definition bind_after_close : list host_event :=
  [TServe (gets 0); TClose; TClose; TClose; TClose; TClose; TServe (gets 1); TServe (MkOutcome None (Err (EOpaque "in use")) None true)].

Lemma bind_failure_after_close_leaks : exists h e,
  rtc host_step start_bare h /\ h_close h = Some PhDone /\ h_serve h = Served BindFailed (Some e)
  /\ map le_open (h_entries h) = [true] /\ os_names (h_os h) !! "/s" = Some 1.
Proof.
  exists (after bind_after_close), (errBind "unix: listen on " "/t" (EOpaque "in use")).
  split_and!; [apply after_reachable; by vm_compute|by vm_compute..].
Qed.

(** * Witnesses *)

(** Both sockets bound, and [Close] on its way. *)
Definition closing : list host_event :=
  [TServe (gets 0); TServe (gets 1); TServe (gets 2); TServe (gets 0); TClose; TClose; TClose].
Definition closed_down : list host_event :=
  (closing ++ [TClose; TClose; TClose; TClose; TClose; TListener 0 None; TListener 1 None; TClose; TClose; TClose;
    TServe (gets 0); TServe (gets 0); TServe (gets 0)])%list.


Lemma close_is_complete_witness : h_goroutines (after closed_down) = [].
Proof.
  apply (close_is_complete bare_server two_sockets no_sockets (after closed_down) ListenersDone None);
    [apply after_reachable; by vm_compute|by vm_compute..|done].
Defined.

Lemma close_completes_witness : exists h', rtc host_step (after closing) h' /\ h_close h' = Some PhDone.
Proof.
  apply (close_completes bare_server two_sockets no_sockets); [apply after_reachable; by vm_compute|by eexists].
Defined.
