(* ===== verification/Jwt.v ===== *)
(** The JWT authenticator (src/x/authjwt/authjwt.go): the key constructors with the
    algorithms they fix, [New], and [Authenticate] over the JWT library, which is an
    interface: its parser, and what the library promises of a token it accepts. *)

From S2P Require Import Prelude Errors GoStrings Ref Auth.
Open Scope string_scope.

(** * The library *)

(** The concrete types behind [jwt.SigningMethod]. *)
Inductive signing_method := SigningMethodHMAC | SigningMethodRSA | SigningMethodRSAPSS | SigningMethodECDSA | SigningMethodEd25519 | other_method.

(** Key material, a constructor per Go type a keyfunc returns. *)
Inductive key_material := SecretBytes (secret : string) | RSAKey (key : string) | ECDSAKey (key : string) | EdKey (key : string).

(** A decoded claim: a string, a []string, a []any, or anything else. *)
Inductive claim := ClaimString (s : string) | ClaimStrings (l : list string) | ClaimArray (l : list claim) | ClaimOther.
Definition MapClaims : Type := gmap string claim.

(** [jwt.Token] as a keyfunc reads it, and [jwt.Keyfunc]. *)
Record token := MkToken { tk_alg : string; tk_Method : signing_method }.
Definition Keyfunc : Type := token -> res key_material.

(** The parser options: the valid methods, the issuer and the audiences required;
    an expiration is required throughout. *)
Record parser_options := MkOptions {
  po_methods : list string;
  po_issuer : option string;
  po_audiences : list string;
}.

(** The algorithms of the library by the type of their method. *)
Definition method_of (alg : string) : signing_method :=
  if bool_decide (alg ∈ ["HS256"; "HS384"; "HS512"]) then SigningMethodHMAC
  else if bool_decide (alg ∈ ["RS256"; "RS384"; "RS512"]) then SigningMethodRSA
  else if bool_decide (alg ∈ ["PS256"; "PS384"; "PS512"]) then SigningMethodRSAPSS
  else if bool_decide (alg ∈ ["ES256"; "ES384"; "ES512"]) then SigningMethodECDSA
  else if bool_decide (alg = "EdDSA") then SigningMethodEd25519
  else other_method.

(** The issuer a set of claims names, and its audiences: one string, or several. *)
Definition claim_iss (c : MapClaims) : option string :=
  match c !! "iss" with Some (ClaimString s) => Some s | _ => None end.
Definition claim_strings (l : list claim) : list string :=
  omap (fun i => match i with ClaimString s => Some s | _ => None end) l.
Definition claim_aud (c : MapClaims) : list string :=
  match c !! "aud" with
  | Some (ClaimString s) => [s]
  | Some (ClaimStrings l) => l
  | Some (ClaimArray l) => claim_strings l
  | _ => []
  end.

(** [jwt.ParseWithClaims] at one moment, with what the library documents: a token is
    accepted when its header names a valid method, the keyfunc gives a key, and its
    signature verifies with that method and that key; its expiration is set and has
    not passed; its issuer and audience are as required. [decodes] relates a token's
    text to its header and claims, [verifies] checks a signature, [unexpired] reads
    "exp" against the clock. *)
Class jwt_library := {
  ParseWithClaims : string -> Keyfunc -> parser_options -> res MapClaims;
  decodes : string -> token -> MapClaims -> Prop;
  verifies : string -> string -> key_material -> Prop;
  unexpired : MapClaims -> Prop;
  decodes_method text t c : decodes text t c -> tk_Method t = method_of (tk_alg t);
  Parse_accepts text kf o c : ParseWithClaims text kf o = Ok c ->
    exists t k, decodes text t c /\ tk_alg t ∈ po_methods o /\ kf t = Ok k /\ verifies text (tk_alg t) k /\ unexpired c
      /\ (forall iss, po_issuer o = Some iss -> claim_iss c = Some iss)
      /\ (po_audiences o <> [] -> exists aud, aud ∈ po_audiences o /\ aud ∈ claim_aud c);
  Parse_error text kf o e : ParseWithClaims text kf o = Err e -> errors_Is e ErrForbidden = false;
}.

(** * Keys *)

(** [type KeyOption struct]; the zero one has no keyfunc. *)
Record KeyOption := MkKey { ko_keyfunc : option Keyfunc; ko_algorithms : list string }.
Definition ko_isZero (k : KeyOption) : bool := match ko_keyfunc k with None => true | Some _ => false end.
Definition zero_KeyOption : KeyOption := MkKey None [].

Definition errMethod (for_ : string) : error := EOpaque ("authjwt: unexpected signing method for " ++ for_).

Definition HMAC (secret : string) : KeyOption :=
  MkKey (Some (fun t => match tk_Method t with SigningMethodHMAC => Ok (SecretBytes secret) | _ => Err (errMethod "an HMAC key") end))
    ["HS256"; "HS384"; "HS512"].

Definition RSAPublicKey (key : string) : KeyOption :=
  MkKey (Some (fun t => match tk_Method t with
                        | SigningMethodRSA | SigningMethodRSAPSS => Ok (RSAKey key)
                        | _ => Err (errMethod "an RSA key")
                        end))
    ["RS256"; "RS384"; "RS512"; "PS256"; "PS384"; "PS512"].

Definition ECDSAPublicKey (key : string) : KeyOption :=
  MkKey (Some (fun t => match tk_Method t with SigningMethodECDSA => Ok (ECDSAKey key) | _ => Err (errMethod "an ECDSA key") end))
    ["ES256"; "ES384"; "ES512"].

Definition EdDSAPublicKey (key : string) : KeyOption :=
  MkKey (Some (fun t => match tk_Method t with SigningMethodEd25519 => Ok (EdKey key) | _ => Err (errMethod "an EdDSA key") end))
    ["EdDSA"].

(** * Construction *)

(** [type Config struct]. *)
Record jwt_Config := MkJwtConfig {
  jc_Key : KeyOption;
  jc_Keyfunc : option Keyfunc;
  jc_Algorithms : list string;
  jc_Issuer : string;
  jc_Audiences : list string;
  jc_SubjectClaim : string;
  jc_Claims : list string;
  jc_Realm : string;
}.

(** [type jwtAuth struct]. *)
Record jwtAuth := MkJwtAuth {
  ja_keyfunc : Keyfunc;
  ja_algorithms : list string;
  ja_issuer : string;
  ja_audiences : list string;
  ja_subjectClaim : string;
  ja_claims : list string;
  ja_realm : string;
}.

(** [func New(cfg Config) (mamori.Authenticator, error)]. *)
Definition jwt_New (cfg : jwt_Config) : res jwtAuth :=
  let build := fun kf algs =>
    Ok (MkJwtAuth kf algs (jc_Issuer cfg) (jc_Audiences cfg)
          (if bool_decide (jc_SubjectClaim cfg = "") then "sub" else jc_SubjectClaim cfg) (jc_Claims cfg) (jc_Realm cfg)) in
  match ko_keyfunc (jc_Key cfg), jc_Keyfunc cfg with
  | Some _, Some _ => Err (EOpaque "authjwt: Config must set exactly one of Key or Keyfunc, not both")
  | None, None => Err (EOpaque "authjwt: Config requires a key source")
  | Some kf, None =>
      match jc_Algorithms cfg with
      | _ :: _ => Err (EOpaque "authjwt: Algorithms must not be set together with Key")
      | [] => build kf (ko_algorithms (jc_Key cfg))
      end
  | None, Some kf =>
      match jc_Algorithms cfg with
      | [] => Err (EOpaque "authjwt: Keyfunc requires Algorithms to be set explicitly")
      | algs => build kf algs
      end
  end.

(** * Requests *)

(** [func bearerToken(r *http.Request) (string, error)]. *)
Definition jwt_bearerToken (r : request) : res string :=
  let header := rq_Header r "Authorization" in
  if bool_decide (header = "") then Err (EOpaque "authjwt: missing authorization header")
  else
    match Cut header " " with
    | None => Err (EOpaque "authjwt: authorization header is not a bearer token")
    | Some (scheme, token) =>
        if negb (bool_decide (ToLower scheme = "bearer")) then
          Err (EOpaque "authjwt: authorization header is not a bearer token")
        else
          let token := TrimSpace token in
          if bool_decide (token = "") then Err (EOpaque "authjwt: empty bearer token") else Ok token
    end.

(** [func subjectFromClaims(claims, name)]. *)
Definition subjectFromClaims (claims : MapClaims) (name : string) : string :=
  match claims !! name with Some (ClaimString s) => s | _ => "" end.

Definition scopeClaimNames : list string := ["scope"; "scp"].

(** [func claimValues(name string, v any) []string]. *)
Definition claimValues (name : string) (v : claim) : list string :=
  match v with
  | ClaimString s => if bool_decide (name ∈ scopeClaimNames) then strings_Fields s else [s]
  | ClaimStrings l => l
  | ClaimArray l => claim_strings l
  | ClaimOther => []
  end.

(** [func attrsFromClaims(claims, names)]. *)
Definition attrs_step (claims : MapClaims) (attrs : gmap string (list string)) (name : string) : gmap string (list string) :=
  match claims !! name with
  | None => attrs
  | Some v => match claimValues name v with [] => attrs | values => <[name := values]> attrs end
  end.
Definition attrsFromClaims (claims : MapClaims) (names : list string) : gmap string (list string) :=
  foldl (attrs_step claims) ∅ names.

Section authenticate.
Context `{lib : jwt_library} (Quote : string -> string).

(** [func (a *jwtAuth) Authenticate(r)] and [Challenge]; [Quote] is the %q verb. *)
Definition jwt_Authenticate (a : jwtAuth) (r : request) : res Identity :=
  match jwt_bearerToken r with
  | Err e => Err e
  | Ok text =>
      let opts := MkOptions (ja_algorithms a) (if bool_decide (ja_issuer a = "") then None else Some (ja_issuer a)) (ja_audiences a) in
      match ParseWithClaims text (ja_keyfunc a) opts with
      | Err e => Err (EWrap "authjwt: invalid token: " [e])
      | Ok claims => Ok (MkIdentity (subjectFromClaims claims (ja_subjectClaim a)) (attrsFromClaims claims (ja_claims a)))
      end
  end.

Definition jwt_Challenge (a : jwtAuth) : string :=
  if bool_decide (ja_realm a = "") then "Bearer" else "Bearer realm=" ++ Quote (ja_realm a).

Definition jwt_Authenticator (a : jwtAuth) : Authenticator := MkAuth (jwt_Authenticate a) (Some (jwt_Challenge a)).
End authenticate.

(** * What is accepted *)

Lemma jwt_New_ok cfg a : jwt_New cfg = Ok a ->
  ja_issuer a = jc_Issuer cfg /\ ja_audiences a = jc_Audiences cfg /\ ja_claims a = jc_Claims cfg /\
  (ko_keyfunc (jc_Key cfg) = Some (ja_keyfunc a) /\ ja_algorithms a = ko_algorithms (jc_Key cfg) /\ jc_Keyfunc cfg = None
   \/ ko_keyfunc (jc_Key cfg) = None /\ jc_Keyfunc cfg = Some (ja_keyfunc a) /\ ja_algorithms a = jc_Algorithms cfg
      /\ jc_Algorithms cfg <> []).
Proof. unfold jwt_New. repeat case_match; intros [= <-]; simpl; split_and!; auto. Qed.

Lemma attrsFromClaims_spec claims names name vs :
  attrsFromClaims claims names !! name = Some vs <->
  name ∈ names /\ vs <> [] /\ exists v, claims !! name = Some v /\ claimValues name v = vs.
Proof.
  unfold attrsFromClaims. assert (forall attrs, foldl (attrs_step claims) attrs names !! name = Some vs <->
    name ∈ names /\ vs <> [] /\ (exists v, claims !! name = Some v /\ claimValues name v = vs)
    \/ attrs !! name = Some vs /\ (name ∈ names -> forall v, claims !! name = Some v -> claimValues name v <> [] -> claimValues name v = vs)) as H.
  { induction names as [|n names IH]; intros attrs; simpl; [set_solver|]. rewrite IH. clear IH. unfold attrs_step. setoid_rewrite elem_of_cons.
    destruct (decide (name = n)) as [->|Hne].
    - destruct (claims !! n) as [v|] eqn:E; [|naive_solver]. destruct (claimValues n v) as [|x l] eqn:Ev; [naive_solver|].
      rewrite lookup_insert_eq. split; [naive_solver|]. intros [(_ & Hvs & v' & [= <-] & Ev')|[Ha Hb]].
      + right. rewrite Ev in Ev'. subst. split; [done|]. intros _ v' [= <-] _. done.
      + right. split; [|naive_solver]. f_equal. rewrite <- Ev. apply Hb; [by left|done|by rewrite Ev].
    - assert ((match claims !! n with None => attrs | Some v => match claimValues n v with [] => attrs | values => <[n:=values]> attrs end end) !! name
        = attrs !! name) as -> by (repeat case_match; try done; by rewrite lookup_insert_ne). naive_solver. }
  rewrite H, lookup_empty. naive_solver.
Qed.

(** The key options there are. *)
Inductive key_option : KeyOption -> Prop :=
  | Key_none : key_option zero_KeyOption
  | Key_HMAC s : key_option (HMAC s)
  | Key_RSA k : key_option (RSAPublicKey k)
  | Key_ECDSA k : key_option (ECDSAPublicKey k)
  | Key_EdDSA k : key_option (EdDSAPublicKey k).

(** A key of the configured family, for an algorithm of that family. *)
Definition key_fits (ko : KeyOption) (alg : string) (k : key_material) : Prop :=
  match k, method_of alg with
  | SecretBytes s, SigningMethodHMAC => ko = HMAC s
  | RSAKey p, (SigningMethodRSA | SigningMethodRSAPSS) => ko = RSAPublicKey p
  | ECDSAKey p, SigningMethodECDSA => ko = ECDSAPublicKey p
  | EdKey p, SigningMethodEd25519 => ko = EdDSAPublicKey p
  | _, _ => False
  end.

Lemma keyfunc_fits ko kf t k : key_option ko -> ko_keyfunc ko = Some kf -> kf t = Ok k -> tk_Method t = method_of (tk_alg t) ->
  key_fits ko (tk_alg t) k.
Proof.
  intros Hko E Ek Em. unfold key_fits. rewrite <- Em. destruct Hko; simplify_eq/=; destruct (tk_Method t); by simplify_eq/=.
Qed.

Section accepted.
Context `{lib : jwt_library}.

(** C30. A request is authenticated only by a bearer token whose signature the
    library verified with key material of the configured family and an algorithm of
    that family - so no token, whatever its "alg" says ("none", or HS256 under a
    public key), has a key of another family used on it -, unexpired, from the
    configured issuer and for a configured audience; and the identity carries the
    claims that were asked for and no others. *)
Theorem jwt_no_algorithm_confusion cfg a r id : key_option (jc_Key cfg) -> jwt_New cfg = Ok a -> jwt_Authenticate a r = Ok id ->
  exists text t c k, jwt_bearerToken r = Ok text /\ decodes text t c /\ verifies text (tk_alg t) k /\ unexpired c
    /\ match jc_Keyfunc cfg with
       | None => key_fits (jc_Key cfg) (tk_alg t) k /\ tk_alg t ∈ ko_algorithms (jc_Key cfg)
       | Some kf => kf t = Ok k /\ tk_alg t ∈ jc_Algorithms cfg
       end
    /\ (jc_Issuer cfg <> "" -> claim_iss c = Some (jc_Issuer cfg))
    /\ (jc_Audiences cfg <> [] -> exists aud, aud ∈ jc_Audiences cfg /\ aud ∈ claim_aud c)
    /\ (forall name vs, id_Attrs id !! name = Some vs -> name ∈ jc_Claims cfg /\ exists v, c !! name = Some v /\ claimValues name v = vs).
Proof.
  intros Hko Hnew. unfold jwt_Authenticate. destruct (jwt_bearerToken r) as [text|] eqn:Et; [|done].
  destruct (ParseWithClaims _ _ _) as [c|] eqn:Ep; [|done]. intros [= <-].
  destruct (Parse_accepts _ _ _ _ Ep) as (t & k & Hd & Ha & Hk & Hv & Hu & Hi & Haud). simpl in *.
  destruct (jwt_New_ok _ _ Hnew) as (Ei & Eau & Ec & Hsrc). rewrite Ei, Eau in *.
  exists text, t, c, k. split_and!; try done.
  - destruct Hsrc as [(Ek & Eal & ->)|(_ & -> & Eal & _)]; rewrite Eal in Ha; [|done].
    split; [|done]. eapply keyfunc_fits; try done. by eapply decodes_method.
  - intros Hne. apply Hi. by rewrite bool_decide_eq_false_2.
  - intros name vs (Hn & _ & Hx)%attrsFromClaims_spec. by rewrite Ec in Hn.
Qed.

(** Every refusal is unauthenticated, never forbidden: the handlers answer 401. *)
Lemma jwt_refusal_is_unauthenticated a r e : jwt_Authenticate a r = Err e -> errors_Is e ErrForbidden = false.
Proof.
  unfold jwt_Authenticate. destruct (jwt_bearerToken r) as [text|e'] eqn:Et.
  - destruct (ParseWithClaims _ _ _) as [c|e'] eqn:Ep; intros [= <-]. simpl. rewrite orb_false_r. by eapply Parse_error.
  - intros [= <-]. unfold jwt_bearerToken in Et. repeat case_match; by simplify_eq.
Qed.
End accepted.

(** * A library, to try it on *)

#[export] Instance key_material_eq_dec : EqDecision key_material.
Proof. solve_decision. Defined.
#[export] Instance signing_method_eq_dec : EqDecision signing_method.
Proof. solve_decision. Defined.

Definition demo_claims : MapClaims := {[ "sub" := ClaimString "ada"; "scope" := ClaimString "read  write"; "iss" := ClaimString "idp" ]}.
Definition demo_token : token := MkToken "RS256" SigningMethodRSA.
Definition demo_accepts (text : string) (kf : Keyfunc) (o : parser_options) : bool :=
  bool_decide (text = "t.o.k") && bool_decide ("RS256" ∈ po_methods o)
  && match kf demo_token with Ok k => bool_decide (k = RSAKey "public") | Err _ => false end
  && bool_decide (po_issuer o = Some "idp") && bool_decide (po_audiences o = []).

Program Definition demo_library : jwt_library := {|
  ParseWithClaims := fun text kf o => if demo_accepts text kf o then Ok demo_claims else Err (EOpaque "invalid");
  decodes := fun text t c => text = "t.o.k" /\ t = demo_token /\ c = demo_claims;
  verifies := fun text alg k => text = "t.o.k" /\ alg = "RS256" /\ k = RSAKey "public";
  unexpired := fun c => c = demo_claims;
|}.
Next Obligation. by intros ? ? ? (_ & -> & _). Qed.
Next Obligation.
  unfold demo_accepts. intros text kf o c H.
  destruct (bool_decide (text = "t.o.k")) eqn:E1; [|done]. destruct (bool_decide ("RS256" ∈ po_methods o)) eqn:E2; [|done].
  destruct (kf demo_token) as [k|] eqn:Ek; [|done]. destruct (bool_decide (k = RSAKey "public")) eqn:E3; [|done].
  destruct (bool_decide (po_issuer o = Some "idp")) eqn:E4; [|done]. destruct (bool_decide (po_audiences o = [])) eqn:E5; [|done].
  apply bool_decide_eq_true in E1, E2, E3, E4, E5. simplify_eq/=. exists demo_token, (RSAKey "public").
  split_and!; try done. naive_solver.
Qed.
Next Obligation. intros text kf o e. simpl. case_match; by intros [= <-]. Qed.

Definition demo_config : jwt_Config := MkJwtConfig (RSAPublicKey "public") None [] "idp" [] "" ["scope"; "groups"] "".
Definition demo_request : request :=
  MkRequest "GET" "/" (fun h => if bool_decide (h = "Authorization") then "bearer  t.o.k " else "") None None.

Example demo_identity : match jwt_New demo_config with
  | Ok a => jwt_Authenticate (lib := demo_library) a demo_request = Ok (MkIdentity "ada" {[ "scope" := ["read"; "write"] ]})
  | Err _ => False end.
Proof. vm_compute. reflexivity. Qed.

Lemma jwt_no_algorithm_confusion_witness : exists text alg k, verifies (jwt_library := demo_library) text alg k /\ k = RSAKey "public".
Proof.
  destruct (jwt_New demo_config) as [a|] eqn:Ea; [|discriminate].
  assert (jwt_Authenticate (lib := demo_library) a demo_request = Ok (MkIdentity "ada" {[ "scope" := ["read"; "write"] ]})) as Hr
    by (injection Ea as <-; vm_compute; reflexivity).
  destruct (jwt_no_algorithm_confusion (lib := demo_library) demo_config a demo_request _ (Key_RSA "public") Ea Hr)
    as (text & t & c & k & _ & _ & Hv & _). exists text, (tk_alg t), k. split; [exact Hv|]. by destruct Hv as (_ & _ & ->).
Defined.
