(* ===== verification/Control.v ===== *)
(** The control commands among their callers (src/pin.go, src/refresh.go, the
    reentrancy mark of src/preapply.go): Pin, PinCurrent, Unpin and Refresh as the
    goroutines that send them, wait and give up, around the loop that answers. *)

From S2P Require Import Prelude Errors GoStrings Ref Provider GoNumbers Fields Config Status EngineState Engine Loop Demo Watcher.
Open Scope string_scope.
Open Scope Z_scope.

(** * Goroutine numbers *)

Definition goroutineIDPrefix : string := "goroutine ".

(** The digits of [goroutineID]: at most nineteen, which cannot overflow 64 bits;
    [None] where it answers 0. *)
Fixpoint id_loop (n : nat) (id : Z) (line : string) : option (Z * nat) :=
  match line with
  | EmptyString => Some (id, n)
  | String c line =>
      if negb (is_digit c) then Some (id, n)
      else if (n =? 19)%nat then None
      else id_loop (S n) (id * 10 + digit_val c) line
  end.

(** [func goroutineID() uint64], on the 40 bytes [runtime.Stack] wrote. *)
Definition goroutineID (stack : string) : Z :=
  let line := str_take 40 stack in
  if (String.length line <=? String.length goroutineIDPrefix)%nat || negb (HasPrefix line goroutineIDPrefix) then 0
  else
    match id_loop 0 0 (str_drop (String.length goroutineIDPrefix) line) with
    | None => 0
    | Some (_, O) => 0
    | Some (id, _) => id
    end.

(** [func armReentrancy(mark) func()], on the goroutine [gid]: what it stores in the
    mark, and the function that unmarks it. *)
Definition armReentrancy (gid mark : Z) : Z * (Z -> Z) := let prev := mark in (gid, fun _ => prev).

(** * Callbacks *)

(** The user code that the reconciler goroutine runs inline, and whether the place that
    runs it arms the mark around it: [runPreApply], the derive loop of [buildCandidate]
    and [emitErr] do; the decode hooks and the validator run as they are. *)
Inductive callback := PreApplyHook | DeriveHook | OnErrorCallback | DecodeHook | Validator.
Definition arms (cb : callback) : bool :=
  match cb with PreApplyHook | DeriveHook | OnErrorCallback => true | DecodeHook | Validator => false end.

(** A callback that runs, with the call it has deferred. *)
Record frame := MkFrame { fr_callback : callback; fr_disarm : Z -> Z }.
Definition enter (gid : Z) (cb : callback) (mark : Z) : Z * frame :=
  if arms cb then let '(m, disarm) := armReentrancy gid mark in (m, MkFrame cb disarm) else (mark, MkFrame cb id).

(** * Calls *)

(** A call of one of the four methods: its goroutine, its command, what its own
    context's [Err] says (the context-less three never end), and where it is. *)
Inductive call_pc := Sending | AwaitReply | Returned (rep : pinReply).
Record caller := MkCaller { cl_gid : Z; cl_cmd : pinCmd; cl_ctx : option error; cl_pc : call_pc }.
Definition waiting (cl : caller) : Prop := match cl_pc cl with Returned _ => False | _ => True end.

(** What the methods answer. *)
Definition Pin_result (rep : pinReply) : option error := reply_err rep.
Definition PinCurrent_result (rep : pinReply) : nat := reply_version rep.
Definition Refresh_result (rep : pinReply) : option error := reply_err rep.

(** [func (w *Watcher[T]) Pinned() (uint64, bool)], on the published report. *)
Definition Pinned (rep : option Report) : nat * bool :=
  match rep with
  | None => (0%nat, false)
  | Some rep => if rep_Pinned rep then (rep_Snapshot rep, true) else (0%nat, false)
  end.

(** Where the reconciler goroutine is: in its select, in the handler of a command,
    or gone (its loop returned, or a hook ended the goroutine). *)
Inductive rec_pc := RecSelect | RecHandling (i : nat) | RecGone.

Section control.
Context {W T View : Type} `{Env W} `{Config T View}.
(** The number of the reconciler goroutine, and the callbacks whose code issues commands. *)
Context (P : params W T) (rec_gid : Z) (commands : callback -> bool).
(** Commands come from no callback but the three that [ErrReentrantCall] names. *)
Hypothesis Hcommands : forall cb, commands cb = true -> cb ∈ [PreApplyHook; DeriveHook; OnErrorCallback].

(** The loop, its goroutine, the callbacks that run on it, innermost first, the
    reentrancy mark [inCallback], [w.ctx], the calls, the reply channels, and the commands
    answered so far, oldest first. *)
Record control := MkControl {
  ct_loop : loop_state W T;
  ct_rec : rec_pc;
  ct_mark : Z;
  ct_frames : list frame;
  ct_done : bool;
  ct_calls : gmap nat caller;
  ct_replies : gmap nat pinReply;
  ct_log : list (nat * pinCmd * pinReply);
}.

Definition closed_reply : pinReply := MkReply 0 (Some (ESentinel errWatcherClosed)).
Definition reentrant_reply : pinReply := MkReply 0 (Some (ESentinel ErrReentrantCall)).

(** The guard of [sendPinCtx]. *)
Definition reentrant (m : Z) (gid : Z) : bool := negb (m =? 0) && (m =? gid).
Definition sendPin (gid : Z) (cmd : pinCmd) (ctx : option error) (m : Z) : caller :=
  MkCaller gid cmd ctx (if reentrant m gid then Returned reentrant_reply else Sending).

(** The cases of its first select that are ready, the send apart, and those of its
    second; [w.ctx.Done()] looks at the reply once more. *)
Definition ready_send (c : control) (cl : caller) : list pinReply :=
  ((if ct_done c then [closed_reply] else []) ++
   match cl_ctx cl with Some e => [MkReply 0 (Some e)] | None => [] end)%list.
Definition ready_reply (c : control) (i : nat) (cl : caller) : list pinReply :=
  (match ct_replies c !! i with Some rep => [rep] | None => [] end ++
   match cl_ctx cl with Some e => [MkReply 0 (Some e)] | None => [] end ++
   if ct_done c then [default closed_reply (ct_replies c !! i)] else [])%list.

Definition set_call (i : nat) (cl : caller) (c : control) : control :=
  MkControl (ct_loop c) (ct_rec c) (ct_mark c) (ct_frames c) (ct_done c) (<[i := cl]> (ct_calls c)) (ct_replies c) (ct_log c).
Definition at_pc (pc : call_pc) (cl : caller) : caller := MkCaller (cl_gid cl) (cl_cmd cl) (cl_ctx cl) pc.

(** The command is on the unbuffered channel: the goroutine has it. *)
Definition deliver (i : nat) (cl : caller) (c : control) : control :=
  MkControl (ct_loop c) (RecHandling i) (ct_mark c) (ct_frames c) (ct_done c) (<[i := at_pc AwaitReply cl]> (ct_calls c)) (ct_replies c) (ct_log c).

(** The handler has run and sent its reply. *)
Definition answered (i : nat) (cmd : pinCmd) (rep : pinReply) (l : loop_state W T) (c : control) : control :=
  MkControl l RecSelect (ct_mark c) (ct_frames c) (ct_done c) (ct_calls c) (<[i := rep]> (ct_replies c)) (ct_log c ++ [(i, cmd, rep)])%list.

Definition set_loop (l : loop_state W T) (c : control) : control :=
  MkControl l (ct_rec c) (ct_mark c) (ct_frames c) (ct_done c) (ct_calls c) (ct_replies c) (ct_log c).
Definition set_rec (r : rec_pc) (c : control) : control :=
  MkControl (ct_loop c) r (ct_mark c) (ct_frames c) (ct_done c) (ct_calls c) (ct_replies c) (ct_log c).
Definition set_frames (m : Z) (fs : list frame) (c : control) : control :=
  MkControl (ct_loop c) (ct_rec c) m fs (ct_done c) (ct_calls c) (ct_replies c) (ct_log c).
Definition set_done (c : control) : control :=
  MkControl (ct_loop c) (ct_rec c) (ct_mark c) (ct_frames c) true (ct_calls c) (ct_replies c) (ct_log c).

(** The goroutine is inside a call of its own. *)
Definition in_call (gid : Z) (c : control) : Prop := exists i cl, ct_calls c !! i = Some cl /\ waiting cl /\ cl_gid cl = gid.

(** The steps. The only user code of the reconciler goroutine is the innermost callback
    it runs, so a call from that goroutine comes from there; and a goroutine that waits
    in a call does nothing else: the callback that made it does not return. *)
Inductive control_step : control -> control -> Prop :=
  | C_call i gid cmd ctx c : ct_calls c !! i = None -> ~ in_call gid c ->
      (gid = rec_gid -> exists f, head (ct_frames c) = Some f /\ commands (fr_callback f) = true) ->
      control_step c (set_call i (sendPin gid cmd ctx (ct_mark c)) c)
  | C_deliver i cl c : ct_calls c !! i = Some cl -> cl_pc cl = Sending -> ct_rec c = RecSelect ->
      ct_frames c = [] -> l_running (ct_loop c) = true -> control_step c (deliver i cl c)
  | C_give_up i cl rep c : ct_calls c !! i = Some cl -> cl_pc cl = Sending -> rep ∈ ready_send c cl ->
      control_step c (set_call i (at_pc (Returned rep) cl) c)
  | C_return i cl rep c : ct_calls c !! i = Some cl -> cl_pc cl = AwaitReply -> rep ∈ ready_reply c i cl ->
      control_step c (set_call i (at_pc (Returned rep) cl) c)
  | C_answer i cl l rep c : ct_rec c = RecHandling i -> ct_calls c !! i = Some cl -> ct_frames c = [] ->
      loop_step P (ct_loop c) (LControl (cl_cmd cl)) = Some (l, Some rep) ->
      control_step c (answered i (cl_cmd cl) rep l c)
  | C_loop ev l c : ct_rec c = RecSelect -> ct_frames c = [] -> loop_step P (ct_loop c) ev = Some (l, None) -> control_step c (set_loop l c)
  | C_callback cb m f c : ct_rec c <> RecGone -> ~ in_call rec_gid c -> enter rec_gid cb (ct_mark c) = (m, f) ->
      control_step c (set_frames m (f :: ct_frames c) c)
  | C_callback_done f fs c : ct_frames c = f :: fs -> ~ in_call rec_gid c ->
      control_step c (set_frames (fr_disarm f (ct_mark c)) fs c)
  | C_gone c : ct_frames c = [] -> ct_rec c <> RecSelect \/ l_running (ct_loop c) = false -> control_step c (set_rec RecGone c)
  | C_ctx_done i cl e c : ct_calls c !! i = Some cl -> cl_cmd cl = refresh -> cl_ctx cl = None -> e <> ESentinel errWatcherClosed ->
      control_step c (set_call i (MkCaller (cl_gid cl) (cl_cmd cl) (Some e) (cl_pc cl)) c)
  | C_close c : control_step c (set_done c).

(** A watcher whose loop has just started. *)
Definition start_control (l : loop_state W T) : control := MkControl l RecSelect 0 [] false ∅ ∅ [].

(** * What a command does *)

Lemma control_only cmd (l : loop_state W T) ev l' : loop_step P l ev = Some (l', Some cmd) -> exists c, ev = LControl c.
Proof. destruct ev; simpl; intros E; repeat case_match; simplify_eq; eauto. Qed.

(** An answered command is one step of the loop. *)
Lemma replies_snoc l evs rs l1 ev rep l2 :
  replies P l evs rs l1 -> loop_step P l1 ev = Some (l2, rep) -> replies P l (evs ++ [ev]) (rs ++ [rep]) l2.
Proof. induction 1; intros E; simpl; econstructor; eauto. constructor. Qed.

(** The commands of a run, each with its reply. *)
Fixpoint answers (evs : list (loop_event W)) (rs : list (option pinReply)) : list (pinCmd * pinReply) :=
  match evs, rs with
  | LControl cmd :: evs, Some rep :: rs => (cmd, rep) :: answers evs rs
  | _ :: evs, _ :: rs => answers evs rs
  | _, _ => []
  end.

Lemma answers_snoc l evs rs l1 ev rep : replies P l evs rs l1 ->
  answers (evs ++ [ev]) (rs ++ [rep]) =
    (answers evs rs ++ match ev, rep with LControl cmd, Some rep => [(cmd, rep)] | _, _ => [] end)%list.
Proof.
  induction 1 as [l|l ev' reply l1 evs rs l2 E _ IH]; simpl; [by destruct ev, rep|].
  rewrite IH. by destruct ev', reply.
Qed.

(** * The invariant *)

(** Why a call returned what it returned. *)
Definition outcome (c : control) (i : nat) (cl : caller) (rep : pinReply) : Prop :=
  (i, cl_cmd cl, rep) ∈ ct_log c
  \/ rep = closed_reply /\ ct_done c = true
  \/ (exists e, cl_ctx cl = Some e /\ rep = MkReply 0 (Some e))
  \/ rep = reentrant_reply /\ cl_gid cl = rec_gid /\ i ∉ (ct_log c).*1.*1.

(** The mark names the goroutine in every callback that arms it, and what the deferred
    calls put back as the callbacks return leads to no mark at all. *)
Fixpoint marked (m : Z) (fs : list frame) : Prop :=
  match fs with
  | [] => m = 0
  | f :: fs => (if arms (fr_callback f) then m = rec_gid else fr_disarm f m = m) /\ marked (fr_disarm f m) fs
  end.

Lemma marked_values m fs : marked m fs -> m = 0 \/ m = rec_gid.
Proof.
  revert m. induction fs as [|f fs IH]; intros m; simpl; [by left|]. intros [Hf Hfs]. destruct (arms (fr_callback f)); [by right|].
  apply IH. by rewrite Hf in Hfs.
Qed.

Lemma enter_marked cb m fs m' f : marked m fs -> enter rec_gid cb m = (m', f) -> marked m' (f :: fs).
Proof. unfold enter, armReentrancy. intros Hm. destruct (arms cb) eqn:E; intros [= <- <-]; simpl; by rewrite E. Qed.

(** Inside a callback that may issue commands the mark is armed. *)
Lemma calling_marked m fs f : marked m fs -> head fs = Some f -> commands (fr_callback f) = true -> m = rec_gid.
Proof using Hcommands.
  destruct fs as [|f' fs]; [done|]. intros [Hf _] [= ->] Hc. apply Hcommands in Hc.
  rewrite !elem_of_cons, elem_of_nil in Hc. by destruct Hc as [E|[E|[E|[]]]]; rewrite E in Hf.
Qed.

Record control_ok (l0 : loop_state W T) (c : control) : Prop := {
  co_serial : exists evs rs, replies P l0 evs rs (ct_loop c) /\ answers evs rs = map (fun x => (x.1.2, x.2)) (ct_log c);
  co_once : NoDup (ct_log c).*1.*1;
  co_log : forall i cmd rep, (i, cmd, rep) ∈ ct_log c -> exists cl, ct_calls c !! i = Some cl /\ cl_cmd cl = cmd
    /\ cl_pc cl <> Sending /\ ct_replies c !! i = Some rep;
  co_reply : forall i rep, ct_replies c !! i = Some rep -> exists cmd, (i, cmd, rep) ∈ ct_log c;
  co_handling : forall i, ct_rec c = RecHandling i -> ct_replies c !! i = None /\ exists cl, ct_calls c !! i = Some cl /\ cl_pc cl <> Sending
    /\ cl_gid cl <> rec_gid;
  co_self : forall i cl, ct_calls c !! i = Some cl -> cl_gid cl = rec_gid -> cl_pc cl = Returned reentrant_reply;
  co_await : forall i cl, ct_calls c !! i = Some cl -> cl_pc cl = AwaitReply -> ct_replies c !! i = None ->
    ct_rec c = RecHandling i \/ ct_rec c = RecGone;
  co_returned : forall i cl rep, ct_calls c !! i = Some cl -> cl_pc cl = Returned rep -> outcome c i cl rep;
  co_frames : marked (ct_mark c) (ct_frames c);
}.

Lemma co_waiting l0 c : control_ok l0 c -> forall i cl, ct_calls c !! i = Some cl -> waiting cl -> cl_gid cl <> rec_gid.
Proof. intros Hok i cl Hi Hw Hg. unfold waiting in Hw. by rewrite (co_self _ _ Hok i cl Hi Hg) in Hw. Qed.

(** A change of one call, or of what surrounds the calls, that moves it on. *)
Lemma outcome_mono c c' i cl rep : (exists l, ct_log c' = (ct_log c ++ l)%list /\ (cl_gid cl = rec_gid -> i ∉ l.*1.*1)) ->
  (ct_done c = true -> ct_done c' = true) -> outcome c i cl rep -> outcome c' i cl rep.
Proof.
  intros (l & El & Hl) Hd [Hx|[[? ?]|[?|(? & ? & Hn)]]]; unfold outcome; rewrite El.
  - left. set_solver.
  - right; left. auto.
  - by right; right; left.
  - right; right; right. split_and!; [done..|]. rewrite !fmap_app, not_elem_of_app. auto.
Qed.

Lemma outcome_same c c' i cl rep : ct_log c' = ct_log c -> (ct_done c = true -> ct_done c' = true) -> outcome c i cl rep -> outcome c' i cl rep.
Proof. intros El. apply outcome_mono. exists []. split; [by rewrite app_nil_r|]. intros _. simpl. set_solver. Qed.

Lemma set_call_ok l0 c i cl cl' : control_ok l0 c ->
  ct_calls c !! i = Some cl -> cl_cmd cl' = cl_cmd cl -> cl_gid cl' = cl_gid cl -> cl_pc cl' <> Sending \/ cl_pc cl = Sending ->
  (forall rep, cl_pc cl = Returned rep -> cl_pc cl' = Returned rep) -> (cl_pc cl' = AwaitReply -> cl_pc cl = AwaitReply) ->
  (forall rep, cl_pc cl' = Returned rep -> outcome c i cl' rep) -> control_ok l0 (set_call i cl' c).
Proof.
  intros [Hs Ho Hl Hr Hh Hw Ha Ht Hm] Ei Ec Eg Hp Hwt Haw Hout. split; simpl; try done.
  - intros j cmd rep (x & Hx & Hc & Hp' & Hrep)%Hl. destruct (decide (i = j)) as [<-|Hne].
    + rewrite lookup_insert_eq. exists cl'. split_and!; try done; [congruence|]. destruct Hp; [done|congruence].
    + rewrite lookup_insert_ne by done. by exists x.
  - intros j Hj. destruct (Hh j Hj) as (Hno & x & Hx & Hp' & Hg'). split; [done|]. destruct (decide (i = j)) as [<-|Hne].
    + rewrite lookup_insert_eq. exists cl'. split_and!; [done|destruct Hp; [done|congruence]|congruence].
    + rewrite lookup_insert_ne by done. by exists x.
  - intros j x. rewrite lookup_insert_Some. intros [[<- <-]|[_ ?]] Hgx; [apply Hwt, (Hw i); congruence|eauto].
  - intros j x. rewrite lookup_insert_Some. intros [[<- <-]|[_ ?]]; eauto.
  - intros j x rep. rewrite lookup_insert_Some. intros [[<- <-]|[_ Hx]] Hrep.
    + apply (outcome_same c); [done|done|by apply Hout].
    + apply (outcome_same c); [done|done|by eapply Ht].
Qed.

Lemma send_ok l0 i gid cmd ctx c : rec_gid <> 0 -> control_ok l0 c -> ct_calls c !! i = None ->
  (gid = rec_gid -> exists f, head (ct_frames c) = Some f /\ commands (fr_callback f) = true) -> control_ok l0 (set_call i (sendPin gid cmd ctx (ct_mark c)) c).
Proof.
  intros Hz [Hs Ho Hl Hr Hh Hw Ha Ht Hm] Ei Hgid.
  assert (i ∉ (ct_log c).*1.*1) as Hno.
  { intros ([j cmd'] & -> & ([[j' cmd''] rep] & [= <- <-] & Hx)%list_elem_of_fmap)%list_elem_of_fmap.
    apply Hl in Hx as (? & Hx & _). simpl in *. congruence. }
  assert (forall j x, ct_calls c !! j = Some x -> i <> j) as Hne by (intros j x Hx ->; congruence).
  assert (reentrant (ct_mark c) gid = true <-> gid = rec_gid) as Hre.
  { unfold reentrant. rewrite andb_true_iff, negb_true_iff, Z.eqb_eq, Z.eqb_neq. split; [destruct (marked_values _ _ Hm); lia|].
    intros E. destruct (Hgid E) as (f & Hf & Hc). pose proof (calling_marked _ _ _ Hm Hf Hc). lia. }
  split; simpl; try done.
  - intros j cmd' rep (x & Hx & ?)%Hl. exists x. rewrite lookup_insert_ne by eauto. done.
  - intros j Hj. destruct (Hh j Hj) as (Hn & x & Hx & ?). split; [done|]. exists x. rewrite lookup_insert_ne by eauto. done.
  - intros j x. rewrite lookup_insert_Some. intros [[<- <-]|[_ ?]]; [|eauto]. unfold sendPin. simpl.
    intros E. by rewrite (proj2 Hre E).
  - intros j x. rewrite lookup_insert_Some. intros [[<- <-]|[_ ?]]; [|eauto]. unfold sendPin. simpl. by destruct (reentrant _ _).
  - intros j x rep. rewrite lookup_insert_Some. intros [[<- <-]|[_ Hx]] Hrep.
    + unfold sendPin in Hrep. simpl in Hrep. destruct (reentrant _ _) eqn:E; simplify_eq. right; right; right. split_and!; [done|by apply Hre|done].
    + apply (outcome_same c); [done|done|by eapply Ht].
Qed.

Lemma answer_ok l0 i cl l rep c : control_ok l0 c -> ct_rec c = RecHandling i -> ct_calls c !! i = Some cl ->
  loop_step P (ct_loop c) (LControl (cl_cmd cl)) = Some (l, Some rep) -> control_ok l0 (answered i (cl_cmd cl) rep l c).
Proof.
  intros [Hs Ho Hl Hr Hh Hw Ha Ht Hm] Erec Ei Hstep. destruct (Hh i Erec) as (Hno & x & Hx & Hp & Hg). simplify_eq.
  assert (i ∉ (ct_log c).*1.*1) as Hnew.
  { intros ([j cmd'] & -> & ([[j' cmd''] r] & [= <- <-] & Hin)%list_elem_of_fmap)%list_elem_of_fmap.
    apply Hl in Hin as (? & _ & _ & _ & Hrep). simpl in *. congruence. }
  split; simpl; try done.
  - destruct Hs as (evs & rs & Hrun & Hans). exists (evs ++ [LControl (cl_cmd cl)])%list, (rs ++ [Some rep])%list.
    split; [by eapply replies_snoc|]. rewrite (answers_snoc _ _ _ _ _ _ Hrun), Hans, map_app. done.
  - rewrite !fmap_app. simpl. apply NoDup_app. split_and!; [done| |apply NoDup_singleton]. set_solver.
  - intros j cmd r [Hin|E]%elem_of_app.
    + destruct (Hl _ _ _ Hin) as (y & Hy & ? & ? & Hrj). exists y. split_and!; try done.
      rewrite lookup_insert_ne; [done|]. intros <-. congruence.
    + apply list_elem_of_singleton in E. simplify_eq. exists cl. by rewrite lookup_insert_eq.
  - intros j r. rewrite lookup_insert_Some. intros [[<- <-]|[_ Hin]].
    + exists (cl_cmd cl). set_solver.
    + destruct (Hr _ _ Hin) as [cmd ?]. exists cmd. set_solver.
  - intros j y Hy Hpy. rewrite lookup_insert_None. intros [Hn Hne]. destruct (Ha j y Hy Hpy Hn) as [E|E]; [|congruence].
    rewrite Erec in E. congruence.
  - intros j y r Hy Hr'. apply (outcome_mono c); [|done|by eapply Ht].
    exists [(i, cl_cmd cl, rep)]. split; [done|]. simpl. intros Egid ->%list_elem_of_singleton. congruence.
Qed.

Lemma deliver_ok l0 i cl c : control_ok l0 c -> ct_calls c !! i = Some cl -> cl_pc cl = Sending -> ct_rec c = RecSelect ->
  control_ok l0 (deliver i cl c).
Proof.
  intros Hok Ei Hp Hrec. assert (cl_gid cl <> rec_gid) as Hg by (eapply co_waiting; [done..|]; unfold waiting; by rewrite Hp).
  destruct Hok as [Hs Ho Hl Hr Hh Hw Ha Ht Hm].
  assert (ct_replies c !! i = None) as Hno.
  { destruct (ct_replies c !! i) as [rep|] eqn:E; [|done]. destruct (Hr _ _ E) as [cmd Hin].
    destruct (Hl _ _ _ Hin) as (x & Hx & _ & Hnp & _). congruence. }
  split; simpl; try done.
  - intros j cmd rep (x & Hx & Hc & Hp' & Hrep)%Hl. destruct (decide (i = j)) as [<-|Hne]; [congruence|].
    rewrite lookup_insert_ne by done. by exists x.
  - intros j [= <-]. split; [done|]. rewrite lookup_insert_eq. by exists (at_pc AwaitReply cl).
  - intros j x. rewrite lookup_insert_Some. intros [[<- <-]|[_ ?]]; [done|eauto].
  - intros j x. rewrite lookup_insert_Some. intros [[<- <-]|[_ Hx]] Hpx Hn; [by left|].
    destruct (Ha j x Hx Hpx Hn); congruence.
  - intros j x rep. rewrite lookup_insert_Some. intros [[<- <-]|[_ Hx]] Hrep; [done|].
    apply (outcome_same c); [done|done|by eapply Ht].
Qed.

(** What happens around the calls. *)
Lemma around_ok l0 c l m fs : control_ok l0 c ->
  (exists evs rs, replies P l0 evs rs l /\ answers evs rs = map (fun x => (x.1.2, x.2)) (ct_log c)) ->
  marked m fs -> control_ok l0 (set_frames m fs (set_loop l c)).
Proof. intros [Hs Ho Hl Hr Hh Hw Ha Ht Hm] Hs' Hm'. by split. Qed.

Lemma ready_reply_outcome l0 i cl rep c : control_ok l0 c -> ct_calls c !! i = Some cl -> rep ∈ ready_reply c i cl ->
  outcome c i (at_pc (Returned rep) cl) rep.
Proof.
  intros Hok Hi Hrep. unfold outcome. simpl.
  assert (forall r, ct_replies c !! i = Some r -> (i, cl_cmd cl, r) ∈ ct_log c) as Hlog.
  { intros r Hr. destruct (co_reply _ _ Hok _ _ Hr) as [cmd Hin]. destruct (co_log _ _ Hok _ _ _ Hin) as (x & Hx & <- & _). by simplify_eq. }
  unfold ready_reply in Hrep. rewrite !elem_of_app in Hrep.
  destruct (ct_replies c !! i) as [r|] eqn:E; simpl in Hrep.
  - specialize (Hlog r eq_refl). destruct Hrep as [?|[?|?]]; repeat case_match; set_solver.
  - destruct Hrep as [?|[?|?]]; repeat case_match; set_solver.
Qed.

Lemma control_step_ok l0 c c' : rec_gid <> 0 -> control_step c c' -> control_ok l0 c -> control_ok l0 c'.
Proof.
  intros Hz Hstep Hok. destruct Hstep as [i gid cmd ctx c Hi _ Hgid|i cl c Hi Hp Hrec Hsv Hrun|i cl rep c Hi Hp Hrep|i cl rep c Hi Hp Hrep
    |i cl l rep c Hrec Hi Hsv Hl|ev l c Hrec Hsv Hl|cb m f c Hrec _ He|f fs c Hfs _|c Hsv Hg|i cl e c Hi _ Hc He|c].
  - by apply send_ok.
  - by apply deliver_ok.
  - apply (set_call_ok _ _ _ cl); try done; [by right|congruence|]. simpl. intros ? [= <-]. unfold outcome. simpl.
    unfold ready_send in Hrep. apply elem_of_app in Hrep as [Hx|Hx]; case_match; set_solver.
  - apply (set_call_ok _ _ _ cl); try done; [by left|congruence|]. simpl. intros ? [= <-]. by eapply ready_reply_outcome.
  - by apply answer_ok.
  - apply (around_ok l0 c l (ct_mark c) (ct_frames c)); [done| |by destruct Hok]. destruct (co_serial _ _ Hok) as (evs & rs & Hrun & Hans).
    exists (evs ++ [ev])%list, (rs ++ [None])%list. split; [by eapply replies_snoc|].
    rewrite (answers_snoc _ _ _ _ _ _ Hrun), Hans. simpl. destruct ev; by rewrite app_nil_r.
  - apply (around_ok l0 c (ct_loop c) m (f :: ct_frames c)); [done|by destruct Hok|]. eapply enter_marked; [|exact He]. by destruct Hok.
  - apply (around_ok l0 c (ct_loop c) (fr_disarm f (ct_mark c)) fs); [done|by destruct Hok|].
    pose proof (co_frames _ _ Hok) as Hm. rewrite Hfs in Hm. by destruct Hm.
  - destruct Hok as [Hs Ho Hl Hr Hh Hw Ha Ht Hm]. split; simpl; try done. intros i cl Hi Hp Hn. by right.
  - apply (set_call_ok _ _ _ cl); try done; [destruct (cl_pc cl); [by right|by left..]|].
    simpl. intros rep Hrep. destruct (co_returned _ _ Hok _ _ _ Hi Hrep) as [?|[?|[(? & ? & _)|?]]]; unfold outcome; simpl; [naive_solver|naive_solver|congruence|naive_solver].
  - destruct Hok as [Hs Ho Hl Hr Hh Hw Ha Ht Hm]. split; simpl; try done. intros i cl rep Hi Hp.
    apply (outcome_same c); [done|done|by eapply Ht].
Qed.

Lemma start_ok l0 : control_ok l0 (start_control l0).
Proof.
  split; simpl; try done; try set_solver; try constructor; try done.
  exists [], []. split; [constructor|done].
Qed.

Lemma control_reachable_ok l0 c : rec_gid <> 0 -> rtc control_step (start_control l0) c -> control_ok l0 c.
Proof.
  intros Hz Hr. assert (control_ok l0 (start_control l0)) as H0' by apply start_ok. revert H0'.
  induction Hr; eauto using control_step_ok.
Qed.

(** * Serial commands *)

(** Whatever goroutines call Pin, PinCurrent, Unpin and Refresh, and however
    their waits end: the reconciler runs their commands one after the other, as
    steps of its loop, each at most once; a call returns the reply of its own
    command, or - when it was refused, gave up, or the watcher was closed - exactly
    the error that says so, and a call refused as reentrant ran nothing. *)
Theorem commands_are_serial l0 c : rec_gid <> 0 -> rtc control_step (start_control l0) c ->
  (exists evs rs, replies P l0 evs rs (ct_loop c) /\ answers evs rs = map (fun x => (x.1.2, x.2)) (ct_log c))
  /\ NoDup (ct_log c).*1.*1
  /\ forall i cl rep, ct_calls c !! i = Some cl -> cl_pc cl = Returned rep -> outcome c i cl rep.
Proof. intros Hz Hr. by destruct (control_reachable_ok _ _ Hz Hr). Qed.

(** * Nobody waits forever *)

Lemma control_answerable l cmd : l_running l = true ->
  exists l' rep, loop_step P l (LControl cmd) = Some (l', Some rep) /\ l_running l' = true.
Proof. intros Hl. simpl. rewrite Hl. simpl. destruct (handlePin P cmd (l_engine l)) as [e rep]. eauto. Qed.

Lemma callbacks_return c : ~ in_call rec_gid c -> exists m, rtc control_step c (set_frames m [] c).
Proof.
  remember (ct_frames c) as fs eqn:Ef. revert c Ef. induction fs as [|f fs IH]; intros c Ef Hc.
  - exists (ct_mark c). replace (set_frames (ct_mark c) [] c) with c; [done|]. destruct c; simpl in *. by subst.
  - destruct (IH (set_frames (fr_disarm f (ct_mark c)) fs c) eq_refl Hc) as (m & Hr). exists m. eapply rtc_l; [by eapply C_callback_done|exact Hr].
Qed.

Lemma not_in_call l0 c : control_ok l0 c -> ~ in_call rec_gid c.
Proof. intros Hok (i & cl & Hi & Hw & Hg). by eapply co_waiting. Qed.

(** The command of a delivered call is answered, once the callbacks return. *)
Lemma handler_answers l0 i c : rec_gid <> 0 -> control_ok l0 c -> ct_rec c = RecHandling i -> l_running (ct_loop c) = true ->
  exists c' rep, rtc control_step c c' /\ ct_rec c' = RecSelect /\ l_running (ct_loop c') = true /\ ct_frames c' = []
    /\ ct_calls c' = ct_calls c /\ ct_replies c' = <[i := rep]> (ct_replies c) /\ (forall j r, ct_replies c !! j = Some r -> ct_replies c' !! j = Some r).
Proof.
  intros Hz Hok Hrec Hrun. destruct (co_handling _ _ Hok i Hrec) as (Hno & cl & Hi & _).
  destruct (callbacks_return c (not_in_call _ _ Hok)) as (m & Hr). destruct (control_answerable (ct_loop c) (cl_cmd cl) Hrun) as (l & rep & Hl & Hrun').
  exists (answered i (cl_cmd cl) rep l (set_frames m [] c)), rep. split_and!; try done.
  - eapply rtc_r; [exact Hr|]. by eapply C_answer.
  - intros j r Hj. simpl. rewrite lookup_insert_ne; [done|]. intros ->. congruence.
Qed.

(** The goroutine comes back to its select, and a call it had taken has its reply. *)
Lemma reach_select l0 i cl c : rec_gid <> 0 -> control_ok l0 c -> ct_calls c !! i = Some cl ->
  ct_rec c <> RecGone -> l_running (ct_loop c) = true ->
  exists c1, rtc control_step c c1 /\ ct_rec c1 = RecSelect /\ l_running (ct_loop c1) = true /\ ct_frames c1 = []
    /\ ct_calls c1 = ct_calls c /\ (cl_pc cl = AwaitReply -> is_Some (ct_replies c1 !! i)).
Proof.
  intros Hz Hok Hi Hng Hrun. destruct (ct_rec c) as [|j|] eqn:Erec; [| |done].
  - destruct (callbacks_return c (not_in_call _ _ Hok)) as (m & Hr). exists (set_frames m [] c). split_and!; try done. intros Hp.
    simpl. destruct (ct_replies c !! i) eqn:E; [done|]. by destruct (co_await _ _ Hok i cl Hi Hp E); congruence.
  - destruct (handler_answers l0 j c Hz Hok Erec Hrun) as (c1 & rep & Hr & Hsel & Hrun1 & Hsv & Hcalls & Hrep & Hkeep).
    exists c1. split_and!; try done. intros Hp. destruct (ct_replies c !! i) as [r|] eqn:E; [exists r; by apply Hkeep|].
    destruct (co_await _ _ Hok i cl Hi Hp E) as [E'|E']; [|congruence]. rewrite Erec in E'. injection E' as ->.
    exists rep. by rewrite Hrep, lookup_insert_eq.
Qed.

Lemma can_return l0 i cl rep c : rec_gid <> 0 -> rtc control_step (start_control l0) c -> ct_calls c !! i = Some cl ->
  cl_pc cl = AwaitReply -> ct_replies c !! i = Some rep ->
  exists c' cl', rtc control_step c c' /\ ct_calls c' !! i = Some cl' /\ cl_pc cl' = Returned rep /\ (i, cl_cmd cl, rep) ∈ ct_log c'.
Proof.
  intros Hz Hr Hi Hp Hrep. pose proof (control_reachable_ok _ _ Hz Hr) as Hok.
  exists (set_call i (at_pc (Returned rep) cl) c), (at_pc (Returned rep) cl). split_and!; [|simpl; by rewrite lookup_insert_eq|done|].
  - apply rtc_once. eapply C_return; [done..|]. unfold ready_reply. rewrite Hrep. set_solver.
  - simpl. destruct (co_reply _ _ Hok _ _ Hrep) as [cmd Hin]. destruct (co_log _ _ Hok _ _ _ Hin) as (x & Hx & <- & _). by simplify_eq.
Qed.

(** C7. No call waits for itself. User code that runs on the reconciler goroutine runs in
    callbacks, however they nest; when commands come from the three callbacks that
    [ErrReentrantCall] names, each such call has been refused as reentrant at once. As
    long as the loop runs, every call that waits can come to its end with the reply of
    its command; and once the watcher is closed it can return, even when the loop is
    gone or a hook never returned. *)
Theorem commands_never_hang l0 c : rec_gid <> 0 -> rtc control_step (start_control l0) c ->
  (forall i cl, ct_calls c !! i = Some cl -> cl_gid cl = rec_gid -> cl_pc cl = Returned reentrant_reply)
  /\ (forall i cl, ct_calls c !! i = Some cl -> waiting cl ->
      (ct_done c = true -> exists rep, control_step c (set_call i (at_pc (Returned rep) cl) c))
      /\ (ct_rec c <> RecGone -> l_running (ct_loop c) = true ->
          exists c' cl' rep, rtc control_step c c' /\ ct_calls c' !! i = Some cl' /\ cl_pc cl' = Returned rep /\ (i, cl_cmd cl, rep) ∈ ct_log c')).
Proof.
  intros Hz Hr. pose proof (control_reachable_ok _ _ Hz Hr) as Hok. split; [apply Hok|]. intros i cl Hi Hw. split.
  - intros Hd. destruct (cl_pc cl) eqn:Ep; [| |by unfold waiting in Hw; rewrite Ep in Hw].
    + exists closed_reply. eapply C_give_up; [done..|]. unfold ready_send. rewrite Hd. set_solver.
    + exists (default closed_reply (ct_replies c !! i)). eapply C_return; [done..|]. unfold ready_reply. rewrite Hd, !elem_of_app. right; right. by left.
  - intros Hng Hrun. destruct (reach_select l0 i cl c Hz Hok Hi Hng Hrun) as (c1 & Hr1 & Hsel & Hrun1 & Hsv & Hcalls & Haw).
    assert (rtc control_step (start_control l0) c1) as Hr1' by (by etrans).
    destruct (cl_pc cl) eqn:Ep; [| |by unfold waiting in Hw; rewrite Ep in Hw].
    + assert (rtc control_step c (deliver i cl c1)) as Hr2.
      { eapply rtc_r; [exact Hr1|]. eapply C_deliver; try done. by rewrite Hcalls. }
      assert (rtc control_step (start_control l0) (deliver i cl c1)) as Hr2' by (etrans; [exact Hr|exact Hr2]).
      destruct (handler_answers l0 i _ Hz (control_reachable_ok _ _ Hz Hr2') eq_refl Hrun1) as (c3 & rep & Hr3 & _ & _ & _ & Hc3 & Hrep & _).
      destruct (can_return l0 i (at_pc AwaitReply cl) rep c3) as (c' & cl' & ? & ? & ? & ?); try done.
      * etrans; [exact Hr2'|exact Hr3].
      * rewrite Hc3. simpl. by rewrite lookup_insert_eq.
      * by rewrite Hrep, lookup_insert_eq.
      * exists c', cl', rep. split_and!; try done. etrans; [exact Hr2|]. by etrans; [exact Hr3|].
    + destruct Haw as [rep Hrep]; [done|]. destruct (can_return l0 i cl rep c1) as (c' & cl' & ? & ? & ? & ?); try done; [by rewrite Hcalls|].
      exists c', cl', rep. split_and!; try done. by etrans.
Qed.
End control.

(** * A callback without a mark *)

(** Where commands do come from a callback that arms nothing - a validator, a decode hook
    -, a call from it is not refused: the goroutine waits for itself, and until the watcher
    is closed nothing makes the call return. *)
Section unmarked.
Context {W T View : Type} `{Env W} `{Config T View}.
Context (P : params W T) (rec_gid : Z) (commands : callback -> bool).

Definition stuck (i : nat) (cmd : pinCmd) (c : control (W := W) (T := T)) : Prop :=
  ct_frames c <> [] /\ exists cl, ct_calls c !! i = Some cl /\ cl_gid cl = rec_gid /\ cl_pc cl = Sending /\ cl_ctx cl = None /\ cl_cmd cl = cmd.

Lemma stuck_step i cmd0 c c' : cmd0 <> refresh -> control_step P rec_gid commands c c' -> stuck i cmd0 c -> ct_done c' = true \/ stuck i cmd0 c'.
Proof.
  intros Hcmd0 Hstep (Hf & cl & Hi & Hg & Hp & Hx & Hc).
  assert (Hin : in_call rec_gid c) by (exists i, cl; split_and!; [done|unfold waiting; by rewrite Hp|done]).
  destruct Hstep as [j gid cmd ctx c Hj Hn Hgid|j cl' c Hj Hpj Hrec Hsv Hrun|j cl' rep c Hj Hpj Hrep|j cl' rep c Hj Hpj Hrep
    |j cl' l rep c Hrec Hj Hsv Hl|ev l c Hrec Hsv Hl|cb m f c Hrec Hn He|f fs c Hfs Hn|c Hsv Hrec|j cl' e c Hj Hcj Hctx He|c]; try done.
  - right. split; [done|]. exists cl. split_and!; try done. simpl. rewrite lookup_insert_ne; [done|]. intros ->. congruence.
  - destruct (decide (j = i)) as [->|Hne].
    + left. simplify_eq. unfold ready_send in Hrep. rewrite Hx, app_nil_r in Hrep. simpl. destruct (ct_done c); [done|set_solver].
    + right. split; [done|]. exists cl. split_and!; try done. simpl. by rewrite lookup_insert_ne.
  - right. split; [done|]. exists cl. split_and!; try done. simpl. rewrite lookup_insert_ne; [done|]. intros ->. congruence.
  - right. split; [done|]. exists cl. split_and!; try done. simpl. rewrite lookup_insert_ne; [done|]. intros ->. congruence.
  - by left.
Qed.

Lemma done_stays c c' : control_step P rec_gid commands c c' -> ct_done c = true -> ct_done c' = true.
Proof. by destruct 1. Qed.

Lemma stuck_forever i cmd0 c c' : cmd0 <> refresh -> rtc (control_step P rec_gid commands) c c' -> stuck i cmd0 c ->
  ct_done c' = true \/ stuck i cmd0 c'.
Proof.
  intros Hcmd0 Hr. assert (ct_done c = true \/ stuck i cmd0 c -> ct_done c' = true \/ stuck i cmd0 c') as H2; [|by auto].
  induction Hr as [|c c1 c2 Hs _ IH]; [done|]. intros [Hd|Hst]; apply IH; [left; by eapply done_stays|by eapply stuck_step].
Qed.

(** The call of such a callback stays where it is, in every execution in which the watcher
    is not closed. *)
Theorem unmarked_callback_hangs l0 cb : commands cb = true -> arms cb = false ->
  exists c, rtc (control_step P rec_gid commands) (start_control l0) c /\
    forall c', rtc (control_step P rec_gid commands) c c' -> ct_done c' = false ->
    exists cl, ct_calls c' !! 0%nat = Some cl /\ cl_cmd cl = pinCurrent /\ cl_pc cl = Sending.
Proof.
  intros Hc Ha. pose (f := MkFrame cb id).
  exists (set_call 0 (sendPin rec_gid pinCurrent None 0) (set_frames 0 [f] (start_control l0))). split.
  - assert (Hno : forall gid (c : control (W := W) (T := T)), ct_calls c = ∅ -> ~ in_call gid c).
    { intros gid c E (i & cl & Hi & _). by rewrite E, lookup_empty in Hi. }
    eapply rtc_l; [apply (C_callback _ _ _ cb 0 f); [done|by apply Hno|]|].
    { unfold enter. by rewrite Ha. }
    apply rtc_once. apply (C_call _ _ _ 0 rec_gid pinCurrent None); [apply lookup_empty|by apply Hno|]. intros _. by exists f.
  - intros c' Hr Hd. destruct (stuck_forever 0 pinCurrent _ c' ltac:(done) Hr) as [?|(_ & cl & Hi & _ & Hp & _ & Hcl)]; [|congruence|].
    + split; [done|]. eexists. split_and!; [apply lookup_insert_eq|done..].
    + by exists cl.
Qed.
End unmarked.

(** * Goroutine numbers read back *)

Lemma id_loop_digits k acc s v t : digits acc s = Some v -> (k + String.length s <= 19)%nat ->
  id_loop k acc (s ++ String " " t) = Some (v, (k + String.length s)%nat).
Proof.
  revert k acc. induction s as [|c s IH]; intros k acc; cbn [digits String.length].
  - intros [= <-] _. change ("" ++ String " " t) with (String " " t). simpl. by rewrite Nat.add_0_r.
  - destruct (is_digit c) eqn:Ec; [|done]. intros Hd Hk. rewrite str_app_cons. cbn [id_loop]. rewrite Ec. simpl negb. cbv iota.
    destruct (Nat.eqb_spec k 19); [lia|]. rewrite (IH (S k)) by (done || lia). f_equal. f_equal. lia.
Qed.

Lemma str_take_app_add p s k : str_take (String.length p + k) (p ++ s) = p ++ str_take k s.
Proof. induction p as [|c p IH]; [done|]. rewrite str_app_cons. cbn [String.length Nat.add str_take]. by rewrite IH. Qed.

Lemma FormatUint_short n : 0 <= n < 10 ^ 19 -> FormatUint n <> "" /\ (String.length (FormatUint n) <= 19)%nat.
Proof.
  intros Hn. destruct (format_digits_spec 20 n "" ltac:(lia) ltac:(lia)) as (ds & k & Hf & Hne & _ & Hz & _ & Hacc).
  unfold FormatUint. rewrite Hf, str_app_nil_r. split; [done|].
  assert (digits 0 ds = Some n) as Hd by (specialize (Hacc 0 ""); by rewrite str_app_nil_r in Hacc).
  destruct (digits_length ds n Hne (fun t E => proj2 (Hz t E)) Hd) as [_ Hlow].
  destruct (Nat.le_gt_cases (String.length ds) 19) as [|Hgt]; [done|]. exfalso.
  specialize (Hlow ltac:(lia)). assert (10 ^ 19 <= 10 ^ (Z.of_nat (String.length ds) - 1)) by (apply Z.pow_le_mono_r; lia). lia.
Qed.

(** The number the runtime prints is the number [goroutineID] reads, from 40 bytes,
    for every number of at most nineteen digits. *)
Lemma goroutineID_reads_back n rest : 0 <= n < 10 ^ 19 -> goroutineID (goroutineIDPrefix ++ FormatUint n ++ String " " rest) = n.
Proof.
  intros Hn. destruct (FormatUint_short n Hn) as [Hne Hlen]. destruct (FormatUint_spec n ltac:(lia)) as [Hd _].
  unfold goroutineID.
  assert (str_take 40 (goroutineIDPrefix ++ FormatUint n ++ String " " rest) =
    goroutineIDPrefix ++ FormatUint n ++ String " " (str_take (29 - String.length (FormatUint n)) rest)) as ->.
  { change 40%nat with (String.length goroutineIDPrefix + 30)%nat. rewrite str_take_app_add. f_equal.
    replace 30%nat with (String.length (FormatUint n) + S (29 - String.length (FormatUint n)))%nat by lia.
    by rewrite str_take_app_add. }
  rewrite HasPrefix_app, str_drop_app. simpl negb. rewrite orb_false_r.
  destruct (Nat.leb_spec (String.length (goroutineIDPrefix ++ FormatUint n ++ String " " (str_take (29 - String.length (FormatUint n)) rest)))
    (String.length goroutineIDPrefix)) as [Hle|_].
  - rewrite !str_length_app in Hle. simpl in Hle. lia.
  - rewrite (id_loop_digits 0 0 _ n) by (done || lia). destruct (FormatUint n); [done|]. done.
Qed.

(** No run of bytes makes the number overflow 64 bits. *)
Lemma goroutineID_fits stack : 0 <= goroutineID stack < 2 ^ 64.
Proof.
  assert (forall line k id v m, id_loop k id line = Some (v, m) -> (k <= 19)%nat -> 0 <= id < 10 ^ Z.of_nat k ->
    (m <= 19)%nat /\ 0 <= v < 10 ^ Z.of_nat m) as Hloop.
  { induction line as [|c line IH]; intros k id v m; simpl; [intros [= <- <-]; auto|].
    destruct (is_digit c) eqn:Ec; simpl; [|intros [= <- <-]; auto]. destruct (Nat.eqb_spec k 19); [done|].
    intros Hl Hk Hid. eapply IH; [exact Hl|lia|].
    unfold is_digit, in_range in Ec. apply andb_true_iff in Ec as [E1%Nat.leb_le E2%Nat.leb_le]. unfold digit_val.
    rewrite Nat2Z.inj_succ, Z.pow_succ_r by lia. lia. }
  unfold goroutineID. case_match; [lia|]. destruct (id_loop 0 0 _) as [[id [|m]]|] eqn:E; [lia| |lia].
  destruct (Hloop _ _ _ _ _ E ltac:(lia) ltac:(simpl; lia)) as [Hm [H1 H2]].
  assert (10 ^ Z.of_nat (S m) <= 10 ^ 19) by (apply Z.pow_le_mono_r; lia). lia.
Qed.

(** [Pin] of a number no snapshot has is refused and pins nothing; [Pinned] answers
    zero exactly when nothing is pinned, since versions start at one. *)
Lemma Pinned_zero rep : (forall r, rep = Some r -> rep_Pinned r = true -> rep_Snapshot r <> 0%nat) ->
  (Pinned rep).1 = 0%nat <-> (Pinned rep).2 = false.
Proof. unfold Pinned. intros Hv. destruct rep as [r|]; [|done]. destruct (rep_Pinned r) eqn:E; simpl; [|done]. specialize (Hv r eq_refl E). done. Qed.

(** * Witnesses *)

(** Commands from the three callbacks that may be asked about them. *)
Definition documented (cb : callback) : bool :=
  match cb with PreApplyHook | DeriveHook | OnErrorCallback => true | _ => false end.
Lemma documented_ok cb : documented cb = true -> cb ∈ [PreApplyHook; DeriveHook; OnErrorCallback].
Proof. destruct cb; [set_solver..|done|done]. Qed.

Lemma not_calling {W T View : Type} `{Env W} `{Config T View} gid (c : control (W := W) (T := T)) :
  map_Forall (fun _ cl => cl_gid cl <> gid \/ ~ waiting cl) (ct_calls c) -> ~ in_call gid c.
Proof. intros Hc (i & cl & Hi & Hw & Hg). by destruct (Hc i cl Hi). Qed.

(** PinCurrent from goroutine 7, on the reconciler goroutine 3, of a demo watcher. *)
Definition pinning (l0 : loop_state demo_world gval) : option (pinReply * control (W := demo_world) (T := gval)) :=
  match loop_step demo l0 (LControl pinCurrent) with
  | Some (l, Some rep) =>
      let cl := sendPin 7 pinCurrent None 0 in
      Some (rep, set_call 0 (at_pc (Returned rep) (at_pc AwaitReply cl))
        (answered 0 pinCurrent rep l (deliver 0 cl (set_call 0 cl (start_control l0)))))
  | _ => None
  end.

Lemma pinning_reachable l0 rep c : l_running l0 = true -> pinning l0 = Some (rep, c) ->
  rtc (control_step demo 3 documented) (start_control l0) c /\ ct_calls c !! 0%nat = Some (at_pc (Returned rep) (sendPin 7 pinCurrent None 0)).
Proof.
  intros Hrun. unfold pinning. destruct (loop_step demo l0 (LControl pinCurrent)) as [[l [r|]]|] eqn:E; [|done..].
  intros [= <- <-]. split; [|simpl; by rewrite lookup_insert_eq].
  eapply rtc_l; [apply (C_call _ _ _ 0 7 pinCurrent None); [apply lookup_empty|apply not_calling, map_Forall_empty|done]|].
  eapply rtc_l; [eapply (C_deliver _ _ _ 0); [apply lookup_insert_eq|done..]|].
  eapply rtc_l; [eapply (C_answer _ _ _ 0); [done|apply lookup_insert_eq|done|exact E]|].
  eapply rtc_once. eapply C_return; [apply lookup_insert_eq|done|].
  unfold ready_reply. simpl. rewrite lookup_insert_eq. set_solver.
Qed.

Lemma commands_are_serial_witness :
  match demo_watch demo demo_start_world with
  | Some l0 => match pinning l0 with
      | Some (rep, c) => PinCurrent_result rep = 1%nat /\ outcome 3 c 0 (at_pc (Returned rep) (sendPin 7 pinCurrent None 0)) rep
      | None => False end
  | None => False
  end.
Proof.
  assert (match demo_watch demo demo_start_world with
    | Some l0 => l_running l0 && match pinning l0 with Some (rep, c) => bool_decide (reply_version rep = 1%nat) | None => false end
    | None => false end = true) as Hc by (vm_compute; reflexivity).
  destruct (demo_watch demo demo_start_world) as [l0|]; [|discriminate]. apply andb_true_iff in Hc as [Hrun Hp].
  destruct (pinning l0) as [[rep c]|] eqn:E; [|discriminate]. apply bool_decide_eq_true in Hp.
  destruct (pinning_reachable l0 rep c Hrun E) as [Hr Hcall]. split; [exact Hp|].
  destruct (commands_are_serial demo 3 documented documented_ok l0 c ltac:(lia) Hr) as (_ & _ & Hout). by eapply Hout.
Defined.

(** A hook of the gate runs, an OnError callback runs inside it and returns, and the hook,
    which goes on, pins and is refused; then goroutine 7 pins. *)
Definition asked_inside (l0 : loop_state demo_world gval) : control (W := demo_world) (T := gval) :=
  set_call 1 (sendPin 7 pinCurrent None 3)
    (set_call 0 (sendPin 3 pinCurrent None 3) (set_frames 3 [MkFrame PreApplyHook (fun _ => 0)] (start_control l0))).

Lemma asked_inside_reachable l0 : rtc (control_step demo 3 documented) (start_control l0) (asked_inside l0).
Proof.
  eapply rtc_l; [apply (C_callback _ _ _ PreApplyHook 3 (MkFrame PreApplyHook (fun _ => 0))); [done|apply not_calling, map_Forall_empty|reflexivity]|].
  eapply rtc_l; [apply (C_callback _ _ _ OnErrorCallback 3 (MkFrame OnErrorCallback (fun _ => 3))); [done|apply not_calling, map_Forall_empty|reflexivity]|].
  eapply rtc_l; [eapply C_callback_done; [reflexivity|apply not_calling, map_Forall_empty]|].
  eapply rtc_l; [apply (C_call _ _ _ 0 3 pinCurrent None); [apply lookup_empty|apply not_calling, map_Forall_empty|]|].
  { intros _. by exists (MkFrame PreApplyHook (fun _ => 0)). }
  apply rtc_once. apply (C_call _ _ _ 1 7 pinCurrent None); [reflexivity|apply not_calling|done].
  apply map_Forall_insert_2; [by left|apply map_Forall_empty].
Qed.

Lemma commands_never_hang_witness :
  match demo_watch demo demo_start_world with
  | Some l0 => (exists cl, ct_calls (asked_inside l0) !! 0%nat = Some cl /\ cl_pc cl = Returned reentrant_reply)
      /\ exists c' cl' rep, rtc (control_step demo 3 documented) (asked_inside l0) c' /\ ct_calls c' !! 1%nat = Some cl' /\ cl_pc cl' = Returned rep
  | None => False
  end.
Proof.
  assert (match demo_watch demo demo_start_world with Some l0 => l_running l0 | None => false end = true) as Hc
    by (vm_compute; reflexivity).
  destruct (demo_watch demo demo_start_world) as [l0|]; [|discriminate].
  destruct (commands_never_hang demo 3 documented documented_ok l0 (asked_inside l0) ltac:(lia) (asked_inside_reachable l0)) as [Hself Hwait].
  assert (H1 : ct_calls (asked_inside l0) !! 1%nat = Some (sendPin 7 pinCurrent None 3)) by apply lookup_insert_eq.
  assert (H0 : ct_calls (asked_inside l0) !! 0%nat = Some (sendPin 3 pinCurrent None 3)) by reflexivity.
  split; [exists (sendPin 3 pinCurrent None 3); split; [exact H0|by apply (Hself 0%nat)]|].
  destruct (Hwait 1%nat _ H1 I) as [_ H]. destruct (H ltac:(done) Hc) as (c' & cl' & rep & Hr & Hi & Hp & _). by exists c', cl', rep.
Defined.
