(* ===== verification/Schema.v ===== *)
(** JSON Schemas from config structs, [mamori schema] (src/cmd/mamori/schema.go): the
    tree that nests dotted field paths again, the translation of types, defaults and
    validate tags, and the arguments of the command. *)

From S2P Require Import Prelude Errors GoStrings Ref Provider Decode GoNumbers Fields Pointer SourceTag PolicyDoc.
Open Scope string_scope.
Open Scope Z_scope.

(** * Validate tags *)

(** [func parseValidateRules(tag string) map[string]string]. *)
Definition rule_of (part : string) : string * string :=
  match Cut part "=" with
  | Some (name, param) => (TrimSpace name, param)
  | None => (TrimSpace part, "")
  end.
Definition parseValidateRules (tag : string) : gmap string string :=
  if bool_decide (tag = "") then ∅
  else foldl (fun rules part => let '(name, param) := rule_of part in <[name := param]> rules) ∅ (Split tag ",").

(** [func hasValidateRule(tag, name string) bool] and [func firstRule(rules, names...)]. *)
Definition hasValidateRule (tag name : string) : bool := bool_decide (is_Some (parseValidateRules tag !! name)).
Fixpoint firstRule (rules : gmap string string) (names : list string) : option string :=
  match names with
  | [] => None
  | name :: names => match rules !! name with Some v => Some v | None => firstRule rules names end
  end.

(** [func isRequiredField(f Field) bool]. *)
Definition isRequiredField (f : Field) : bool :=
  hasValidateRule (f_Validate f) "required" || (negb (f_Optional f) && negb (f_HasDefault f)).

(** * Types *)

(** [func mapScalarGoType(goType string) string]. *)
Definition mapScalarGoType (goType : string) : string :=
  if bool_decide (goType ∈ ["string"; "secret.String"]) then "string"
  else if bool_decide (goType ∈ ["secret.Bytes"; "[]byte"]) then "string"
  else if bool_decide (goType = "bool") then "boolean"
  else if bool_decide (goType ∈ ["float32"; "float64"]) then "number"
  else if bool_decide (goType ∈ ["int"; "int8"; "int16"; "int32"; "int64"; "uint"; "uint8"; "uint16"; "uint32"; "uint64"; "uintptr"; "byte"; "rune"])
  then "integer"
  else "string".

(** A typed default: a number, a float by its bits, or the text. *)
Inductive default_value := DefaultInt (n : Z) | DefaultFloat (x : Z) | DefaultText (s : string).

(** [type property struct]; [type orderedProperties struct] is its list of pairs, in
    the order the keys were first set. *)
Inductive property := MkProperty {
  pr_Type : string;
  pr_Items : option property;
  pr_Properties : option (list (string * property));
  pr_Required : list string;
  pr_Enum : list string;
  pr_Minimum : option Z;
  pr_Maximum : option Z;
  pr_MinLength : option Z;
  pr_MaxLength : option Z;
  pr_Default : option default_value;
}.

Definition typed (ty : string) (items : option property) : property := MkProperty ty items None [] [] None None None None None.

(** [func goTypeToProperty(goType string) property]; every slice is two bytes
    shorter. *)
Fixpoint goType_loop (fuel : nat) (goType : string) : property :=
  match fuel with
  | O => typed (mapScalarGoType goType) None
  | S fuel =>
      if negb (bool_decide (goType = "[]byte")) && HasPrefix goType "[]" then typed "array" (Some (goType_loop fuel (TrimPrefix goType "[]")))
      else typed (mapScalarGoType goType) None
  end.
Definition goTypeToProperty (goType : string) : property := goType_loop (String.length goType) goType.

Section schema.
(** [strconv.ParseFloat(s, 64)]. *)
Context (ParseFloat : string -> option Z).

(** [func typedDefault(raw, jsonType string) any]. *)
Definition typedDefault (raw jsonType : string) : default_value :=
  if bool_decide (jsonType = "integer") then match ParseInt raw with Some n => DefaultInt n | None => DefaultText raw end
  else if bool_decide (jsonType = "number") then match ParseFloat raw with Some x => DefaultFloat x | None => DefaultText raw end
  else DefaultText raw.

(** [func fieldToProperty(f Field) property]. *)
Definition fieldToProperty (f : Field) : property :=
  let prop := goTypeToProperty (f_GoType f) in
  let rules := parseValidateRules (f_Validate f) in
  let numeric := bool_decide (pr_Type prop ∈ ["integer"; "number"]) in
  let text := bool_decide (pr_Type prop = "string") in
  MkProperty (pr_Type prop) (pr_Items prop) (pr_Properties prop) (pr_Required prop)
    match rules !! "oneof" with Some v => strings_Fields v | None => [] end
    (if numeric then firstRule rules ["gte"; "min"] ≫= ParseFloat else None)
    (if numeric then firstRule rules ["lte"; "max"] ≫= ParseFloat else None)
    (if text then rules !! "min" ≫= Atoi else None)
    (if text then rules !! "max" ≫= Atoi else None)
    (if f_HasDefault f then Some (typedDefault (f_Default f) (pr_Type prop)) else None).

(** * The tree *)

(** [type builderNode struct]: the children by key, in first-seen order. *)
Inductive builderNode := MkNode { bn_children : list (string * builderNode); bn_field : option Field }.
Definition newBuilderNode : builderNode := MkNode [] None.

(** Changing the child [seg], made first if there is none. *)
Fixpoint upsert (seg : string) (change : builderNode -> builderNode) (l : list (string * builderNode)) : list (string * builderNode) :=
  match l with
  | [] => [(seg, change newBuilderNode)]
  | (k, child) :: l => if bool_decide (k = seg) then (k, change child) :: l else (k, child) :: upsert seg change l
  end.

(** [func (n *builderNode) insert(segments []string, f Field)]; a path has a segment. *)
Fixpoint insert_at (segments : list string) (f : Field) (n : builderNode) : builderNode :=
  match segments with
  | [] => MkNode (bn_children n) (Some f)
  | seg :: segments => MkNode (upsert seg (insert_at segments f) (bn_children n)) (bn_field n)
  end.

Definition requires (child : builderNode) : bool := match bn_field child with Some f => isRequiredField f | None => false end.

(** [func (n *builderNode) toProperty() property]. *)
Fixpoint toProperty (n : builderNode) : property :=
  match n with
  | MkNode _ (Some f) => fieldToProperty f
  | MkNode children None =>
      MkProperty "object" None (Some (map (fun kc => (kc.1, toProperty kc.2)) children))
        (merge_sort str_le (map fst (filter (fun kc => requires kc.2 = true) children))) [] None None None None None
  end.

(** [type schemaDoc struct] and [func structSchema(s StructInfo) schemaDoc]. *)
Record schemaDoc := MkDoc {
  sd_Schema : string;
  sd_Title : string;
  sd_Type : string;
  sd_Properties : option (list (string * property));
  sd_Required : list string;
}.
Definition jsonSchemaDialect : string := "https://json-schema.org/draft/2020-12/schema".

Definition segs_of (f : Field) : list string := Split (f_Path f) ".".
Definition build_tree (fields : list Field) : builderNode :=
  foldl (fun root f => insert_at (segs_of f) f root) newBuilderNode fields.

Definition structSchema (s : StructInfo) : schemaDoc :=
  let prop := toProperty (build_tree (s_Fields s)) in
  MkDoc jsonSchemaDialect (s_Package s ++ "." ++ s_TypeName s) (pr_Type prop) (pr_Properties prop) (pr_Required prop).

(** [func writeSchema(stdout, stderr, structs) int], before the JSON encoder: one
    document, or a list of them. *)
Definition writeSchema (structs : list StructInfo) : schemaDoc + list schemaDoc :=
  match map structSchema structs with [doc] => inl doc | docs => inr docs end.
End schema.

(** * The command *)

(** [func parseSchemaArgs(args)], with [matchSecretSchemes] at each turn. *)
Record schema_args := MkSchemaArgs { sa_patterns : list string; sa_type : string; sa_extra : string }.
Fixpoint schema_args_loop (o : schema_args) (args : list string) : res schema_args :=
  match args with
  | [] => Ok o
  | a :: rest =>
      if flag_alone "secret-schemes" a then
        match rest with [] => Err errUsage | v :: rest => schema_args_loop (MkSchemaArgs (sa_patterns o) (sa_type o) v) rest end
      else match flag_inline "secret-schemes" a with
      | Some v => schema_args_loop (MkSchemaArgs (sa_patterns o) (sa_type o) v) rest
      | None =>
          if flag_alone "type" a then
            match rest with [] => Err errUsage | v :: rest => schema_args_loop (MkSchemaArgs (sa_patterns o) v (sa_extra o)) rest end
          else match flag_inline "type" a with
          | Some v => schema_args_loop (MkSchemaArgs (sa_patterns o) v (sa_extra o)) rest
          | None =>
              if HasPrefix a "-" then Err errUsage
              else schema_args_loop (MkSchemaArgs (sa_patterns o ++ [a]) (sa_type o) (sa_extra o)) rest
          end
      end
  end.
Definition parseSchemaArgs (args : list string) : res (list string * string * SchemeSet) :=
  match schema_args_loop (MkSchemaArgs [] "" "") args with
  | Err e => Err e
  | Ok o => (fun schemes => (sa_patterns o, sa_type o, schemes)) <$> secretSchemeSet (sa_extra o)
  end.

(** [func schemaCmd(args, stdout, stderr) int], over [Extract]: the exit code, and what
    is printed when it is not the help or an error. *)
Definition schemaCmd (ParseFloat : string -> option Z) (Extract : list string -> string -> SchemeSet -> res (list StructInfo))
    (args : list string) : Z * option (schemaDoc + list schemaDoc) :=
  if wantsHelp args then (0, None)
  else
    match parseSchemaArgs args with
    | Err _ => (1, None)
    | Ok (patterns, typeName, schemes) =>
        match Extract patterns typeName schemes with
        | Err _ => (1, None)
        | Ok structs => (0, Some (writeSchema ParseFloat structs))
        end
    end.

(** * What the tree holds *)

Definition child_of (n : builderNode) (k : string) : option builderNode :=
  snd <$> find (fun kc => bool_decide (kc.1 = k)) (bn_children n).
Fixpoint node_at (n : builderNode) (segs : list string) : option builderNode :=
  match segs with [] => Some n | seg :: segs => child_of n seg ≫= fun c => node_at c segs end.
Definition field_at (n : builderNode) (segs : list string) : option Field := node_at n segs ≫= bn_field.

Lemma child_upsert seg change n k f :
  child_of (MkNode (upsert seg change (bn_children n)) f) k =
    if decide (k = seg) then Some (change (default newBuilderNode (child_of n seg))) else child_of n k.
Proof.
  unfold child_of. simpl. induction (bn_children n) as [|[x c] l IH]; simpl.
  - destruct (decide (k = seg)) as [->|Hne]; [by rewrite bool_decide_eq_true_2|by rewrite bool_decide_eq_false_2 by congruence].
  - destruct (decide (x = seg)) as [->|Hx].
    + rewrite bool_decide_eq_true_2 by done. simpl. destruct (decide (k = seg)) as [->|Hk]; [by rewrite bool_decide_eq_true_2|].
      by rewrite !bool_decide_eq_false_2 by congruence.
    + rewrite (bool_decide_eq_false_2 (x = seg)) by done. simpl. destruct (decide (k = seg)) as [->|Hk].
      * rewrite (bool_decide_eq_false_2 (x = seg)) by done. exact IH.
      * destruct (decide (x = k)) as [->|Hxk]; [by rewrite bool_decide_eq_true_2|].
        by rewrite (bool_decide_eq_false_2 (x = k)) by done.
Qed.

(** Inserting a field sets the field at its path and at no other. *)
Lemma field_at_insert segs f n q : field_at (insert_at segs f n) q = if decide (q = segs) then Some f else field_at n q.
Proof.
  revert n q. induction segs as [|seg segs IH]; intros n [|k q]; unfold field_at in *; simpl; try done.
  rewrite child_upsert. destruct (decide (k = seg)) as [->|Hk].
  - simpl. rewrite IH. destruct (decide (q = segs)) as [->|Hq].
    + by rewrite decide_True.
    + rewrite decide_False by congruence. destruct (child_of n seg) as [c|]; [done|]. simpl. by destruct q.
  - rewrite decide_False by congruence. done.
Qed.

(** A node is on the way to an inserted field. *)
Lemma node_at_insert segs f n q m : node_at (insert_at segs f n) q = Some m ->
  q `prefix_of` segs \/ is_Some (node_at n q).
Proof.
  revert n q. induction segs as [|seg segs IH]; intros n [|k q]; simpl; try (intros _; by right).
  - intros Hm. right. by exists m.
  - rewrite child_upsert. destruct (decide (k = seg)) as [->|Hk]; simpl; [|by right; eexists].
    intros [Hp|Hs]%IH; [left; by apply prefix_cons|]. destruct (child_of n seg) as [c|]; [by right|].
    simpl in Hs. destruct q; [left; apply prefix_cons, prefix_nil|by destruct Hs].
Qed.

Lemma node_at_insert_keeps segs f n q : is_Some (node_at n q) -> is_Some (node_at (insert_at segs f n) q).
Proof.
  revert n q. induction segs as [|seg segs IH]; intros n [|k q]; simpl; try done.
  rewrite child_upsert. destruct (decide (k = seg)) as [->|Hk]; [|done]. simpl.
  destruct (child_of n seg) as [c|]; simpl; [apply IH|by intros []].
Qed.

Lemma field_at_build fields q : NoDup (map segs_of fields) ->
  field_at (build_tree fields) q = find (fun f => bool_decide (segs_of f = q)) fields.
Proof.
  unfold build_tree. assert (forall n, NoDup (map segs_of fields) ->
    field_at (foldl (fun root f => insert_at (segs_of f) f root) n fields) q =
      match find (fun f => bool_decide (segs_of f = q)) fields with Some f => Some f | None => field_at n q end) as Hgen.
  { induction fields as [|f fields IH]; intros n; simpl; [done|]. intros Hnd. inversion Hnd as [|? ? Hf Hnd']; subst.
    rewrite IH by done. rewrite field_at_insert. destruct (decide (q = segs_of f)) as [->|Hq].
    - rewrite bool_decide_eq_true_2 by done. destruct (find _ fields) as [g|] eqn:Eg; [|done].
      apply find_some in Eg as [Hin Hg%bool_decide_eq_true]. exfalso. apply Hf. rewrite <- Hg. by apply list_elem_of_fmap_2, list_elem_of_In.
    - rewrite bool_decide_eq_false_2 by congruence. done. }
  intros Hnd. rewrite (Hgen newBuilderNode Hnd). destruct (find _ _); [done|]. unfold field_at. by destruct q.
Qed.

Lemma node_at_build fields q m : node_at (build_tree fields) q = Some m -> q <> [] ->
  exists f, f ∈ fields /\ q `prefix_of` segs_of f.
Proof.
  unfold build_tree. intros Hm Hq. assert (forall n, is_Some (node_at (foldl (fun root f => insert_at (segs_of f) f root) n fields) q) ->
    is_Some (node_at n q) \/ exists f, f ∈ fields /\ q `prefix_of` segs_of f) as Hgen.
  { clear Hm. induction fields as [|f fields IH]; intros n; simpl; [by left|]. intros [[m' Hx]|(g & ? & ?)]%IH.
    - apply node_at_insert in Hx as [?|?]; [right; exists f; set_solver|by left].
    - right. exists g. set_solver. }
  destruct (Hgen newBuilderNode) as [[m' Hx]|?]; [by eexists| |done]. by destruct q.
Qed.

(** * What the schema says *)

Section described.
Context (ParseFloat : string -> option Z).

(** The property a path of names leads to. *)
Fixpoint prop_at (p : property) (segs : list string) : option property :=
  match segs with
  | [] => Some p
  | seg :: segs =>
      match pr_Properties p with
      | Some props => (snd <$> find (fun kp => bool_decide (kp.1 = seg)) props) ≫= fun q => prop_at q segs
      | None => None
      end
  end.

Lemma goType_no_properties fuel t : pr_Properties (goType_loop fuel t) = None.
Proof. destruct fuel; simpl; [done|]. by case_match. Qed.

Lemma field_no_properties f : pr_Properties (fieldToProperty ParseFloat f) = None.
Proof. apply goType_no_properties. Qed.

Lemma find_map_snd {A B} (g : A -> B) (l : list (string * A)) k :
  snd <$> find (fun kp => bool_decide (kp.1 = k)) (map (fun kc => (kc.1, g kc.2)) l) =
    g <$> (snd <$> find (fun kc => bool_decide (kc.1 = k)) l).
Proof. induction l as [|[x a] l IH]; simpl; [done|]. by case_bool_decide. Qed.

(** Following a path in the schema is following it in the tree, up to the first
    field on the way. *)
Lemma prop_at_tree n segs : (forall q, q `prefix_of` segs -> q <> segs -> field_at n q = None) ->
  prop_at (toProperty ParseFloat n) segs = toProperty ParseFloat <$> node_at n segs.
Proof.
  revert n. induction segs as [|seg segs IH]; intros [children field] Hno; [done|].
  specialize (Hno [] (prefix_nil _)) as Hroot. unfold field_at in Hroot. simpl in Hroot. rewrite Hroot in * by done. simpl.
  rewrite find_map_snd. unfold child_of. simpl.
  destruct (find (fun kc => bool_decide (kc.1 = seg)) children) as [[k c]|] eqn:Ef; simpl; [|done].
  apply IH. intros q Hq Hne. specialize (Hno (seg :: q) (prefix_cons _ _ _ Hq) ltac:(congruence)).
  unfold field_at in Hno. simpl in Hno. unfold child_of in Hno. simpl in Hno. by rewrite Ef in Hno.
Qed.

(** No field is inside another. *)
Definition flat (fields : list Field) : Prop :=
  NoDup (map segs_of fields) /\ forall f g, f ∈ fields -> g ∈ fields -> segs_of f `prefix_of` segs_of g -> segs_of f = segs_of g.

Lemma flat_find fields f : flat fields -> f ∈ fields -> find (fun g => bool_decide (segs_of g = segs_of f)) fields = Some f.
Proof.
  intros [Hnd _]. induction fields as [|g fields IH]; [set_solver|]. inversion Hnd as [|? ? Hg Hnd']; subst. simpl.
  intros [->|Hin]%elem_of_cons; [by rewrite bool_decide_eq_true_2|].
  case_bool_decide as Hb; [|auto]. exfalso. apply Hg. rewrite Hb. by apply list_elem_of_fmap_2.
Qed.

Lemma flat_above fields q f : flat fields -> f ∈ fields -> q `prefix_of` segs_of f -> q <> segs_of f ->
  field_at (build_tree fields) q = None.
Proof.
  intros [Hnd Hpre] Hf Hq Hne. rewrite field_at_build by done.
  destruct (find _ fields) as [g|] eqn:Eg; [|done]. apply find_some in Eg as [Hin Hg%bool_decide_eq_true]. subst q.
  exfalso. apply Hne, Hpre; [by apply list_elem_of_In|done|done].
Qed.

Lemma node_at_app n q r : node_at n (q ++ r) = node_at n q ≫= fun m => node_at m r.
Proof. revert n. induction q as [|k q IH]; intros n; simpl; [done|]. destruct (child_of n k); simpl; [apply IH|done]. Qed.

Lemma prop_at_node n q p : prop_at (toProperty ParseFloat n) q = Some p ->
  exists m, node_at n q = Some m /\ p = toProperty ParseFloat m.
Proof.
  revert n. induction q as [|k q IH]; intros n; [intros [= <-]; by exists n|].
  destruct n as [cs [f|]]; cbn [prop_at toProperty]; [by rewrite field_no_properties|]. simpl. rewrite find_map_snd. unfold child_of. simpl.
  destruct (find (fun kc => bool_decide (kc.1 = k)) cs) as [[k' c]|]; simpl; [apply IH|done].
Qed.

Lemma prop_at_below s q p : flat (s_Fields s) -> prop_at (toProperty ParseFloat (build_tree (s_Fields s))) q = Some p -> q <> [] ->
  exists f, f ∈ s_Fields s /\ q `prefix_of` segs_of f /\ (q <> segs_of f -> pr_Type p = "object").
Proof.
  intros Hflat (m & Hm & ->)%prop_at_node Hq. destruct (node_at_build _ _ _ Hm Hq) as (f & Hf & Hpre).
  exists f. split_and!; [done..|]. intros Hne. pose proof (flat_above _ q f Hflat Hf Hpre Hne) as Hn.
  unfold field_at in Hn. rewrite Hm in Hn. destruct m as [cs [g|]]; [done|]. done.
Qed.

(** Every node lists a key once. *)
Definition keys_ok (n : builderNode) : Prop := forall q m, node_at n q = Some m -> NoDup (map fst (bn_children m)).

Lemma upsert_keys seg change l : map fst (upsert seg change l) = if decide (seg ∈ map fst l) then map fst l else (map fst l ++ [seg])%list.
Proof.
  induction l as [|[k c] l IH]; simpl; [done|]. destruct (decide (k = seg)) as [->|Hk].
  - rewrite bool_decide_eq_true_2 by done. simpl. rewrite decide_True; [done|]. set_solver.
  - rewrite bool_decide_eq_false_2 by done. simpl. rewrite IH. repeat case_decide; set_solver.
Qed.

Lemma upsert_NoDup seg change l : NoDup (map fst l) -> NoDup (map fst (upsert seg change l)).
Proof. rewrite upsert_keys. intros Hl. case_decide as Hd; [done|]. apply NoDup_app. split_and!; [done|set_solver|apply NoDup_singleton]. Qed.

Lemma insert_keys segs f n : keys_ok n -> keys_ok (insert_at segs f n).
Proof.
  revert n. induction segs as [|seg segs IH]; intros n Hn q m.
  - destruct q as [|k q]; simpl; [intros [= <-]; apply (Hn [] n eq_refl)|]. intros Hm. by apply (Hn (k :: q)).
  - destruct q as [|k q]; simpl.
    + intros [= <-]. simpl. apply upsert_NoDup, (Hn [] n eq_refl).
    + rewrite child_upsert. destruct (decide (k = seg)) as [->|Hk].
      * simpl. apply IH. intros q' m'. destruct (child_of n seg) as [c|] eqn:Ec; simpl.
        -- intros Hm'. apply (Hn (seg :: q')). simpl. by rewrite Ec.
        -- destruct q'; simpl; [intros [= <-]; constructor|done].
      * intros Hm. apply (Hn (k :: q)). done.
Qed.

Lemma build_keys fields : keys_ok (build_tree fields).
Proof.
  unfold build_tree. assert (keys_ok newBuilderNode) as H0 by (intros [|k q] m; simpl; [intros [= <-]; constructor|done]).
  revert H0. generalize newBuilderNode. induction fields as [|f fields IH]; intros n Hn; simpl; [done|]. by apply IH, insert_keys.
Qed.

Lemma NoDup_keys {A} (l : list (string * A)) k a b : NoDup (map fst l) -> (k, a) ∈ l -> (k, b) ∈ l -> a = b.
Proof.
  induction l as [|[x c] l IH]; simpl; [set_solver|]. intros Hnd. inversion Hnd as [|? ? Hx Hnd']; subst.
  assert (forall y, (x, y) ∉ l) as Hno by (intros y Hy; apply Hx; by apply (list_elem_of_fmap_2 fst) in Hy).
  rewrite !elem_of_cons. intros [E1|Ha] [E2|Hb]; simplify_eq; try done; [by apply Hno in Hb|by apply Hno in Ha|auto].
Qed.

Lemma requires_child cs k f : NoDup (map fst cs) ->
  (child_of (MkNode cs None) k ≫= fun c => bn_field c) = Some f ->
  (k ∈ map fst (filter (fun kc => requires kc.2 = true) cs) <-> isRequiredField f = true).
Proof.
  unfold child_of. simpl. intros Hnd Hf. destruct (find _ cs) as [[k' c]|] eqn:Ef; simpl in Hf; [|done].
  apply find_some in Ef as [Hin Hk%bool_decide_eq_true]. simpl in Hk. subst k'. apply list_elem_of_In in Hin.
  rewrite list_elem_of_fmap. split.
  - intros ([k' c'] & -> & [Hreq Hin']%list_elem_of_filter). simpl in *.
    assert (c' = c) as -> by (by eapply NoDup_keys). unfold requires in Hreq. by rewrite Hf in Hreq.
  - intros Hreq. exists (k, c). split; [done|]. apply list_elem_of_filter. split; [|done]. simpl. unfold requires. by rewrite Hf.
Qed.

(** The schema of a struct describes its fields and nothing else: every path of
    a field leads to that field's own property, and every path that leads anywhere
    is that of a field or of an object around one; and an object requires exactly
    those of its own fields that have no default and are not optional, or that their
    validate tag requires. *)
Theorem schema_describes_fields s : flat (s_Fields s) ->
  let root := toProperty ParseFloat (build_tree (s_Fields s)) in
  (forall f, f ∈ s_Fields s -> prop_at root (segs_of f) = Some (fieldToProperty ParseFloat f))
  /\ (forall q p, prop_at root q = Some p -> q <> [] -> exists f, f ∈ s_Fields s /\ q `prefix_of` segs_of f
        /\ (q <> segs_of f -> pr_Type p = "object"))
  /\ (forall q k f p, f ∈ s_Fields s -> segs_of f = (q ++ [k])%list -> prop_at root q = Some p ->
        (k ∈ pr_Required p <-> isRequiredField f = true)).
Proof.
  intros Hflat root. assert (forall f, f ∈ s_Fields s -> field_at (build_tree (s_Fields s)) (segs_of f) = Some f) as Hself
    by (intros f Hf; rewrite field_at_build by apply Hflat; by apply flat_find).
  split_and!.
  - intros f Hf. unfold root. rewrite prop_at_tree by (intros q Hq Hne; by eapply flat_above).
    specialize (Hself f Hf). unfold field_at in Hself. destruct (node_at _ (segs_of f)) as [[cs o]|]; simpl in Hself; [by subst|done].
  - intros q p Hp Hq. by apply prop_at_below.
  - intros q k f p Hf Eq Hp. specialize (Hself f Hf) as Hfk. rewrite Eq in Hfk.
    assert (q `prefix_of` segs_of f /\ q <> segs_of f) as [Hpre Hne].
    { rewrite Eq. split; [by exists [k]|]. intros E. apply (f_equal length) in E. rewrite length_app in E. simpl in E. lia. }
    unfold root in Hp. rewrite prop_at_tree in Hp.
    2: { intros q' Hq' Hne'. eapply flat_above; try done; [by etrans|]. intros ->. apply Hne'. by apply (anti_symm prefix). }
    destruct (node_at (build_tree (s_Fields s)) q) as [[cs o]|] eqn:En; simpl in Hp; [|done].
    assert (o = None) as ->.
    { pose proof (flat_above _ q f Hflat Hf Hpre Hne) as Hn. unfold field_at in Hn. by rewrite En in Hn. }
    injection Hp as <-. simpl. rewrite merge_sort_Permutation.
    unfold field_at in Hfk. rewrite node_at_app, En in Hfk. simpl in Hfk. apply requires_child; [exact (build_keys _ _ _ En)|]. by destruct (child_of _ k).
Qed.
End described.

(** * The walk over a struct type is flat *)

(** Two paths, none of them inside the other. *)
Definition beside (a b : list string) : Prop := ~ a `prefix_of` b /\ ~ b `prefix_of` a.

Section walked.
Context (TypeString : gtype -> string) (schemes : SchemeSet).

Definition walked_at (pre ns : list string) (f : Field) : Prop :=
  ns <> [] /\ Forall plain_name ns /\ f_Path f = Join (pre ++ ns)%list ".".

(** The fields of one struct field, under its name. *)
Lemma walk_static_at pre f : Forall plain_name pre -> plain_name f.1.1.1 ->
  (forall pre, Forall plain_name pre -> exists nss, Forall2 (walked_at pre) nss (walkFields TypeString schemes f.2 (Join pre ".")) /\
     ForallOrdPairs beside nss) ->
  exists nss, Forall2 (walked_at pre) (map (cons f.1.1.1) nss) (walk_static TypeString schemes (walkFields TypeString schemes) (Join pre ".") f) /\
    ForallOrdPairs beside (map (cons f.1.1.1) nss).
Proof.
  destruct f as [[[name exported] t] fty]. simpl. intros Hpre Hname IH.
  assert (forall x, f_Path x = dotted (Join pre ".") name -> Forall2 (walked_at pre) (map (cons name) [[]]) [x]) as Hone.
  { intros x Hx. constructor; [|constructor]. split_and!; [done|by constructor; [|constructor]|]. by rewrite Hx, dotted_Join. }
  assert (ForallOrdPairs beside (map (cons name) [[]])) as Hone' by (repeat constructor).
  assert (ForallOrdPairs beside (map (cons name) [])) as Hnil by constructor.
  destruct exported; simpl; [|by exists []; split; [constructor|]].
  destruct (tag_Lookup t "source"); [by exists [[]]; split; [apply Hone|]|].
  destruct (is_leaf_struct fty); [|case_match; [by exists [[]]; split; [apply Hone|]|by exists []; split; [constructor|]]].
  destruct (IH (pre ++ [name])%list) as (nss & Hnss & Hb); [apply Forall_app; by split; [|constructor; [|constructor]]|].
  exists nss. split.
  - rewrite dotted_Join by done. apply Forall2_fmap_l. eapply Forall2_impl; [exact Hnss|]. intros ns x (Hne & Hns & Hx).
    split_and!; [done|by constructor|]. rewrite Hx, <- app_assoc. done.
  - apply ForallOrdPairs_map. eapply ForallOrdPairs_impl; [|exact Hb]. intros a b [H1 H2]. split; by intros ?%prefix_cons_inv_2.
Qed.

Lemma walk_flat_at ty : wf_type ty -> forall pre, Forall plain_name pre ->
  exists nss, Forall2 (walked_at pre) nss (walkFields TypeString schemes ty (Join pre ".")) /\ ForallOrdPairs beside nss
    /\ match ty with TStruct fs => Forall (fun ns => exists n ns', ns = n :: ns' /\ n ∈ map (fun f => f.1.1.1) fs) nss | _ => True end.
Proof.
  induction ty as [fs IH|ty Hty] using gtype_ind'; intros Hwf pre Hpre.
  2:{ exists []. split_and!; [|constructor|by destruct ty]. destruct ty; try done; constructor. }
  destruct Hwf as [Hnd Hall]. simpl. induction IH as [|f fs Hf _ IHfs]; [exists []; repeat constructor|].
  destruct Hall as (Hname & Hft & Hall). inversion Hnd as [|? ? Hnew Hnd']; subst.
  destruct (IHfs Hnd' Hall) as (nss & H1 & H2 & H3).
  destruct (walk_static_at pre f Hpre Hname) as (ms & M1 & M2).
  { intros pre' Hpre'. destruct (Hf Hft pre' Hpre') as (l & ? & ? & _). by exists l. }
  exists (map (cons f.1.1.1) ms ++ nss)%list. split_and!.
  - by apply Forall2_app.
  - apply ForallOrdPairs_app; [done..|]. intros x y Hx Hy. rewrite Forall_forall in H3.
    apply list_elem_of_fmap in Hx as (x' & -> & _). apply H3 in Hy as (n & y' & -> & Hn).
    assert (f.1.1.1 <> n) by (intros Ef; apply Hnew; by rewrite Ef). split; by intros ?%prefix_cons_inv_1.
  - apply Forall_app. split.
    + apply Forall_forall. intros x (x' & -> & _)%list_elem_of_fmap. exists f.1.1.1, x'. split; [done|by left].
    + eapply Forall_impl; [exact H3|]. intros ns (n & ns' & -> & Hn). exists n, ns'. split; [done|by right].
Qed.

(** What the walk finds in a Go struct type can be nested again. *)
Lemma walk_flat ty : wf_type ty -> flat (walkFields TypeString schemes ty "").
Proof.
  intros Hwf. destruct (walk_flat_at ty Hwf [] (Forall_nil_2 _)) as (nss & H1 & H2 & _).
  change (Join [] ".") with "" in H1.
  assert (map segs_of (walkFields TypeString schemes ty "") = nss) as Hsegs.
  { clear H2. induction H1 as [|ns x nss l (Hne & Hns & Hx) _ IH]; [done|]. simpl. rewrite IH. f_equal.
    unfold segs_of. rewrite Hx. simpl. apply Split_Join; [done|]. eapply Forall_impl; [exact Hns|]. by intros ? []. }
  assert (forall a b, a ∈ nss -> b ∈ nss -> a `prefix_of` b -> a = b) as Hpre.
  { clear -H2. induction H2 as [|x l Hx _ IH]; [set_solver|]. rewrite Forall_forall in Hx.
    intros a b [->|Ha]%elem_of_cons [->|Hb]%elem_of_cons Hp; [done| | |auto]; exfalso.
    - by destruct (Hx b Hb).
    - by destruct (Hx a Ha). }
  split.
  - rewrite Hsegs. apply ForallOrdPairs_ne_NoDup. eapply ForallOrdPairs_impl; [|exact H2]. by intros a b [Hab _] ->.
  - intros f g Hf Hg. apply Hpre; rewrite <- Hsegs; by apply list_elem_of_fmap_2.
Qed.
End walked.

(** * What it gets wrong *)

Definition int_field (validate : string) : Field := MkField "Level" KindSource "int" "env:LEVEL" ["env:LEVEL"] "" false false false "" validate.

(** The values of [oneof] are written as strings whatever the type is: no integer is
    one of them, so no document with the field satisfies the schema. *)
Example oneof_integer_unsatisfiable P :
  let p := fieldToProperty P (int_field "oneof=1 2 3") in pr_Type p = "integer" /\ pr_Enum p = ["1"; "2"; "3"].
Proof. split; vm_compute; reflexivity. Qed.

(** A derived field has no source, and is required all the same. *)
Example derived_field_is_required :
  isRequiredField (MkField "DSN" KindDerived "string" "" [] "" false false false "" "") = true.
Proof. vm_compute. reflexivity. Qed.

(** A hook that writes a whole nested struct hides the fields in it. *)
Definition hidden_struct : StructInfo :=
  let ty := TStruct [("DB", true, [], TStruct [("Host", true, [("source", "env:HOST")], TString)])] in
  extract_struct (fun t => match t with TString => "string" | _ => "DB" end) DefaultSecretSchemes "p" "Config" ty ["DB"] false.
Example derived_struct_hides_fields P :
  map f_Path (s_Fields hidden_struct) = ["DB.Host"; "DB"] /\
  prop_at (toProperty P (build_tree (s_Fields hidden_struct))) ["DB"; "Host"] = None.
Proof. split; vm_compute; reflexivity. Qed.

(** * Witness *)

Definition demo_struct : StructInfo :=
  MkStructInfo "p" "Config"
    [MkField "DB.Host" KindSource "string" "env:HOST" ["env:HOST"] "" false false false "" "min=3";
     MkField "DB.Port" KindSource "int" "env:PORT" ["env:PORT"] "5432" true false false "" "gte=1,lte=65535"] false.

Lemma schema_describes_fields_witness :
  prop_at (toProperty (fun _ => None) (build_tree (s_Fields demo_struct))) ["DB"; "Port"]
    = Some (MkProperty "integer" None None [] [] None None None None (Some (DefaultInt 5432))).
Proof.
  assert (flat (s_Fields demo_struct)) as Hflat.
  { split; [refine (proj1 (bool_decide_eq_true (NoDup (map segs_of (s_Fields demo_struct)))) _); vm_compute; reflexivity|].
    intros f g Hf Hg Hp. simpl in Hf, Hg.
    apply elem_of_cons in Hf as [->|Hf]; [|apply list_elem_of_singleton in Hf as ->];
      (apply elem_of_cons in Hg as [->|Hg]; [|apply list_elem_of_singleton in Hg as ->]); try reflexivity;
      destruct Hp as [k Hk]; vm_compute in Hk; discriminate Hk. }
  destruct (schema_describes_fields (fun _ => None) demo_struct Hflat) as [Hf _].
  exact (Hf (MkField "DB.Port" KindSource "int" "env:PORT" ["env:PORT"] "5432" true false false "" "gte=1,lte=65535") ltac:(right; left)).
Defined.
