(* ===== verification/Admin.v ===== *)
(** The admin endpoint (src/handler.go, src/adminhttp.go): the options of [Handler],
    its two routes behind the ServeMux of net/http, authentication, and the server
    [Watch] runs for it. *)

From S2P Require Import Prelude Errors GoStrings Ref Provider Status Auth FileWatch.
Open Scope string_scope.
Open Scope Z_scope.

(** * Options *)

(** [type HandlerOption func( *handlerOptions)], one constructor each; a middleware is
    known by its number. *)
Inductive HandlerOption := HandlerPrefix (prefix : string) | WithAuth_ (a : option Authenticator) | HandlerMiddleware (mw : nat).

(** [type handlerOptions struct]. *)
Record handlerOptions := MkHandlerOptions {
  ho_prefix : string;
  ho_auth : option Authenticator;
  ho_authSet : bool;
  ho_middleware : list nat;
}.

(** The body of each option; a second [WithAuth] panics. *)
Definition apply_handler_option (o : handlerOptions) (opt : HandlerOption) : option handlerOptions :=
  match opt with
  | HandlerPrefix prefix => Some (MkHandlerOptions (TrimSuffix prefix "/") (ho_auth o) (ho_authSet o) (ho_middleware o))
  | WithAuth_ a => if ho_authSet o then None else Some (MkHandlerOptions (ho_prefix o) a true (ho_middleware o))
  | HandlerMiddleware mw => Some (MkHandlerOptions (ho_prefix o) (ho_auth o) (ho_authSet o) (ho_middleware o ++ [mw])%list)
  end.
Fixpoint apply_handler_options (o : handlerOptions) (opts : list HandlerOption) : option handlerOptions :=
  match opts with [] => Some o | opt :: opts => apply_handler_option o opt ≫= fun o => apply_handler_options o opts end.

Definition no_handler_options : handlerOptions := MkHandlerOptions "" None false [].

(** * Responses *)

(** [type healthzBody struct]: the status, and the fields when they are told. *)
Record healthzBody := MkHealthz { hb_Status : string; hb_Fields : list string }.

(** What a response carries: the report, the healthz body, an error text as JSON, or
    the text net/http writes on its own. *)
Inductive admin_body := BodyReport (rep : Report) | BodyHealthz (b : healthzBody) | BodyError (e : string) | BodyText (s : string).
Record admin_response := MkAdminResponse { ar_status : Z; ar_challenge : option string; ar_location : option string; ar_body : admin_body }.

(** [func writeJSON(rw, status, v)]. *)
Definition writeJSON (status : Z) (b : admin_body) : admin_response := MkAdminResponse status None None b.

Section handler.
(** The status net/http redirects with (301 or 307, by its version), and what
    [w.Status()] and [w.Health()] answer. *)
Context (redirected : Z) (status : Report) (health : option error).

(** [func authOK(rw, r, o) bool]: [None], or the response it writes. *)
Definition authOK (o : handlerOptions) (r : request) : option admin_response :=
  match ho_auth o with
  | None => None
  | Some a =>
      match Authenticate a r with
      | Ok _ => None
      | Err err =>
          if errors_Is err ErrForbidden then Some (writeJSON 403 (BodyError "forbidden"))
          else Some (MkAdminResponse 401 (Challenge a) None (BodyError "unauthorized"))
      end
  end.

Definition authed (o : handlerOptions) (r : request) : bool :=
  match ho_auth o with
  | None => true
  | Some a => match Authenticate a r with Ok _ => true | Err _ => false end
  end.

(** [errors.As(err, &he)] for a [*HealthError]: its fields. *)
Fixpoint as_HealthError (err : error) : option (list string) :=
  match err with
  | HealthError fields => Some fields
  | EWrap _ causes =>
      (fix first (l : list error) : option (list string) :=
         match l with [] => None | c :: l => match as_HealthError c with Some f => Some f | None => first l end end) causes
  | ProviderError _ _ e | ValidationError e | DeriveError e | PreApplyError e | StaleError _ e => as_HealthError e
  | _ => None
  end.

(** [func serveHealthz(rw, r, w, o)]. *)
Definition serveHealthz (o : handlerOptions) (r : request) : admin_response :=
  match health with
  | None => writeJSON 200 (BodyHealthz (MkHealthz "ok" []))
  | Some err =>
      writeJSON 503 (BodyHealthz (MkHealthz "unhealthy" (if authed o r then default [] (as_HealthError err) else [])))
  end.

(** [cleanPath] of net/http. *)
Definition cleanPath (p : string) : string :=
  if bool_decide (p = "") then "/"
  else
    let p := if HasPrefix p "/" then p else "/" ++ p in
    let np := Clean p in
    if HasSuffix p "/" && negb (bool_decide (np = "/")) then np ++ "/" else np.

(** The mux with the patterns "GET /{$}" and "GET /healthz": a GET pattern also
    matches HEAD, a path that is not clean is redirected (not for CONNECT), and another method on a
    path that a pattern names is not allowed. *)
Definition mux (o : handlerOptions) (r : request) : admin_response :=
  let clean := if bool_decide (rq_Method r = "CONNECT") then rq_Path r else cleanPath (rq_Path r) in
  if negb (bool_decide (clean = rq_Path r)) then MkAdminResponse redirected None (Some clean) (BodyText "redirect")
  else if bool_decide (clean ∈ ["/"; "/healthz"]) then
    if negb (bool_decide (rq_Method r ∈ ["GET"; "HEAD"])) then MkAdminResponse 405 None None (BodyText "Method Not Allowed")
    else if bool_decide (clean = "/") then match authOK o r with Some resp => resp | None => writeJSON 200 (BodyReport status) end
    else serveHealthz o r
  else MkAdminResponse 404 None None (BodyText "404 page not found").

(** [http.StripPrefix]. *)
Definition StripPrefix (prefix : string) (h : request -> admin_response) (r : request) : admin_response :=
  let p := TrimPrefix (rq_Path r) prefix in
  if (String.length p <? String.length (rq_Path r))%nat
  then h (MkRequest (rq_Method r) p (rq_Header r) (rq_TLS r) (rq_PeerCred r))
  else MkAdminResponse 404 None None (BodyText "404 page not found").

(** [func Handler(w, opts...) http.Handler], inside its middleware. *)
Definition Handler (o : handlerOptions) (r : request) : admin_response :=
  if bool_decide (ho_prefix o = "") then mux o r else StripPrefix (ho_prefix o) (mux o) r.
End handler.

(** The middleware around it, the first given outermost. *)
Definition wrap_middleware {H} (apply : nat -> H -> H) (o : handlerOptions) (h : H) : H := foldr apply h (ho_middleware o).

(** * The server of Watch *)

Definition adminReadHeaderTimeout : Z := 10 * Second.
Definition adminReadTimeout : Z := 15 * Second.
Definition adminIdleTimeout : Z := 60 * Second.
Definition adminShutdownGrace : Z := 5 * Second.

(** [type http.Server] as [startAdminHTTP] fills it, and the listener. *)
Record admin_server := MkAdminServer { as_addr : string; as_tls : bool; as_opts : handlerOptions; as_timeouts : Z * Z * Z }.

(** [func startAdminHTTP(w, o) error]: [None] is the panic of a second [WithAuth]. *)
Definition startAdminHTTP (listen : string -> res string) (addr : string) (opts : list HandlerOption) (tls : bool)
    : option (res admin_server) :=
  match listen addr with
  | Err e => Some (Err (EWrap ("mamori: admin http: listen on " ++ addr) [e]))
  | Ok bound =>
      (fun o => Ok (MkAdminServer bound tls o (adminReadHeaderTimeout, adminReadTimeout, adminIdleTimeout)))
        <$> apply_handler_options no_handler_options opts
  end.

(** What the serving goroutine tells [OnError] when [Serve] returns. *)
Definition serve_error (result : option error) (is_closed : error -> bool) : option error :=
  match result with
  | Some e => if is_closed e then None else Some (EWrap "mamori: admin http server" [e])
  | None => None
  end.

(** * What it reveals *)

(** The parts of a response that come from the configuration. *)
Definition reveals (resp : admin_response) : option (Report + list string) :=
  match ar_body resp with
  | BodyReport rep => Some (inl rep)
  | BodyHealthz b => match hb_Fields b with [] => None | fields => Some (inr fields) end
  | BodyError _ | BodyText _ => None
  end.

(** The request the authenticator of a mounted handler sees. *)
Definition inner_request (o : handlerOptions) (r : request) : request :=
  if bool_decide (ho_prefix o = "") then r
  else MkRequest (rq_Method r) (TrimPrefix (rq_Path r) (ho_prefix o)) (rq_Header r) (rq_TLS r) (rq_PeerCred r).

Lemma mux_denied c st h st' h' o r : authed o r = false -> is_Some h <-> is_Some h' ->
  mux c st h o r = mux c st' h' o r /\ reveals (mux c st h o r) = None.
Proof.
  intros Ha Hh. unfold mux, authOK, serveHealthz. unfold authed in *. destruct (ho_auth o) as [a|]; [|done].
  destruct (Authenticate a r) as [|e]; [done|].
  destruct h as [e1|], h' as [e2|]; [|by destruct (proj1 Hh ltac:(by eexists))|by destruct (proj2 Hh ltac:(by eexists))|];
    repeat case_match; simplify_eq/=; done.
Qed.

(** A caller who does not authenticate learns one bit: whatever the path, the
    method and the mount, the answer is the same for any two states of the watcher
    that are both healthy or both unhealthy, and holds neither the report nor the
    failing fields; only GET and HEAD on the two routes are ever answered with
    them. *)
Theorem admin_reveals_one_bit c st h st' h' o r : is_Some h <-> is_Some h' ->
  (authed o (inner_request o r) = false -> Handler c st h o r = Handler c st' h' o r /\ reveals (Handler c st h o r) = None)
  /\ (reveals (Handler c st h o r) <> None -> rq_Method r ∈ ["GET"; "HEAD"] /\ rq_Path (inner_request o r) ∈ ["/"; "/healthz"]).
Proof.
  intros Hh. unfold Handler, inner_request, StripPrefix. case_bool_decide as Hp.
  - split; [intros Ha; by apply mux_denied|]. unfold mux. repeat case_match; intros Hr; try done; bool_norm; split; congruence.
  - split; [intros Ha; case_match; [by apply mux_denied|done]|].
    case_match; [|done]. unfold mux. simpl. repeat case_match; intros Hr; try done; bool_norm; split; congruence.
Qed.

(** An authenticator that turns every caller away. *)
Definition deny_all : Authenticator := MkAuth (fun _ => Err (ESentinel ErrUnauthenticated)) None.

(** The theorem at two unhealthy states behind [deny_all], and the open handler's
    answer, which does name the failing field. *)
Lemma admin_reveals_one_bit_witness :
  let st := MkReport [] 0 0 false false 0 SourceNone None in
  let st' := MkReport [] 7 9 true false 1 SourceBackend None in
  let r := MkRequest "GET" "/healthz" (fun _ => "") None None in
  let o := MkHandlerOptions "" (Some deny_all) true [] in
  Handler 307 st (Some (HealthError ["db.password"])) o r = Handler 307 st' (Some (HealthError ["api.key"])) o r
  /\ reveals (Handler 307 st (Some (HealthError ["db.password"])) no_handler_options r) = Some (inr ["db.password"]).
Proof.
  split; [|vm_compute; reflexivity].
  refine (proj1 (proj1 (admin_reveals_one_bit 307 _ _ _ _ _ _ _) _)); [split; eauto|vm_compute; reflexivity].
Defined.

(** A probe needs no credential: /healthz is never 401 or 403. *)
Lemma healthz_is_never_denied c st h o r : rq_Path (inner_request o r) = "/healthz" -> rq_Method r = "GET" ->
  ho_prefix o = "" -> ar_status (Handler c st h o r) = if h then 503 else 200.
Proof.
  unfold inner_request, Handler, mux, serveHealthz. intros Hp Hm Ho. rewrite Ho in *. simpl in Hp |- *. rewrite Hp, Hm.
  change (cleanPath "/healthz") with "/healthz". by destruct h.
Qed.

(** A method the routes do not have is answered with 405 and not, as the comment of
    [Handler] and the documentation say of every other method, with 404. *)
Example wrong_method_is_405 c st h :
  ar_status (Handler c st h no_handler_options (MkRequest "POST" "/" (fun _ => "") None None)) = 405.
Proof. vm_compute. reflexivity. Qed.

(** Mounted at a prefix, the handler answers the prefix itself with a redirect to
    the root of the server, outside its mount. *)
Example bare_prefix_leaves_the_mount c st h :
  ar_location (Handler c st h (MkHandlerOptions "/admin" None false []) (MkRequest "GET" "/admin" (fun _ => "") None None)) = Some "/".
Proof. vm_compute. reflexivity. Qed.
