(* ===== verification/Secret.v ===== *)
(** Secret values (src/secret/secret.go): a header over a shared backing array, what
    cloning and wiping do to every copy of it, and what the renderers of the
    standard library make of one. [String] and [Bytes] are the same structure with
    the same methods; a header stands for a value of either. *)

From Stdlib Require Import Ascii String.
From S2P Require Import Prelude GoStrings.
From stdpp Require Import fin_maps gmap.
Open Scope string_scope.

(** * The heap *)

(** The backing arrays, by address. *)
Abbreviation heap := (gmap nat (list ascii)).

(** A slice of one. *)
Record slice := MkSlice { sl_array : nat; sl_off : nat; sl_len : nat }.
#[export] Instance slice_eq_dec : EqDecision slice.
Proof. solve_decision. Defined.

(** [type String struct] and [type Bytes struct]: the slice, [None] when it is nil. *)
Abbreviation secret := (option slice).

(** A slice lies within its array. *)
Definition in_heap (h : heap) (s : secret) : Prop :=
  match s with
  | None => True
  | Some sl => exists bs, h !! sl_array sl = Some bs /\ (sl_off sl + sl_len sl <= length bs)%nat
  end.

Definition read (h : heap) (sl : slice) : list ascii :=
  take (sl_len sl) (drop (sl_off sl) (default [] (h !! sl_array sl))).

(** [make] with a copy: a fresh array holding the bytes. *)
Definition alloc (h : heap) (bs : list ascii) : heap * slice :=
  let a := fresh (dom h) in (<[a := bs]> h, MkSlice a 0 (length bs)).

(** * The methods *)

(** [func NewString(s string) String]. *)
Definition NewString (h : heap) (s : string) : heap * secret :=
  let '(h, sl) := alloc h (list_ascii_of_string s) in (h, Some sl).

(** [func NewStringBytes(b []byte) String], which takes the slice of its caller. *)
Definition NewStringBytes (b : secret) : secret := b.

(** [func (s String) Reveal() string]. *)
Definition Reveal (h : heap) (s : secret) : list ascii := match s with None => [] | Some sl => read h sl end.

(** [func (s String) RevealBytes() []byte]: the slice itself. *)
Definition RevealBytes (s : secret) : secret := s.

(** [func (s String) IsZero() bool]. *)
Definition secret_len (s : secret) : nat := match s with None => 0%nat | Some sl => sl_len sl end.
Definition Secret_IsZero (s : secret) : bool := bool_decide (secret_len s = 0%nat).

(** [func (s String) Clone() String]. *)
Definition Clone (h : heap) (s : secret) : heap * secret :=
  match s with
  | Some sl => if bool_decide (sl_len sl = 0%nat) then (h, None) else let '(h', sl') := alloc h (read h sl) in (h', Some sl')
  | None => (h, None)
  end.

(** The loop of [Zero] over the [n] indexes from [i]. *)
Fixpoint zero_from (i n : nat) (bs : list ascii) : list ascii :=
  match n with O => bs | S n => zero_from (S i) n (<[i := "000"%char]> bs) end.

(** [func (s *String) Zero()]: the bytes are cleared and this copy becomes nil. *)
Definition Zero (h : heap) (s : secret) : heap * secret :=
  match s with
  | None => (h, None)
  | Some sl => (alter (zero_from (sl_off sl) (sl_len sl)) (sl_array sl) h, None)
  end.

(** * Rendering *)

Definition secret_Redacted : string := "[REDACTED]".
(** [String()] and [GoString()]. *)
Definition secret_String : string := secret_Redacted.
Definition secret_GoString : string := secret_Redacted.
(** [MarshalJSON()]. *)
Definition dquote : string := String "034"%char "".
Definition secret_MarshalJSON : string := dquote ++ secret_Redacted ++ dquote.
(** [LogValue()]. *)
Definition secret_LogValue : string := secret_Redacted.

(** What a print makes of the value: a text, or a walk that reaches the bytes. *)
Inductive rendering := Text (s : string) | Walked (verb : ascii) (bs : list ascii).
#[export] Instance rendering_eq_dec : EqDecision rendering.
Proof. solve_decision. Defined.

Definition hex_of (upper : bool) (s : string) : string :=
  let digit n := match String.get n (if upper then "0123456789ABCDEF" else "0123456789abcdef") with Some c => String c "" | None => "" end in
  String.concat "" (map (fun c => let n := Ascii.nat_of_ascii c in digit (n / 16)%nat ++ digit (n mod 16)%nat) (list_ascii_of_string s)).

(** [pp.fmtString] of package fmt, for a text with nothing to escape. *)
Definition fmtString (s : string) (verb : ascii) : string :=
  if bool_decide (verb = "x"%char) then hex_of false s
  else if bool_decide (verb = "X"%char) then hex_of true s
  else if bool_decide (verb = "q"%char) then dquote ++ s ++ dquote
  else s.

(** [pp.handleMethods] and [pp.printValue] of package fmt on a secret, printed
    itself or found in a structure: the methods are called when reflection may
    ([can_interface], false below an unexported field), [GoString] for %#v and
    [String] for the verbs a string has; otherwise the fields are walked. *)
Definition string_verbs : list ascii := ["v"; "s"; "x"; "X"; "q"]%char.
Definition render (can_interface sharpV : bool) (verb : ascii) (h : heap) (s : secret) : rendering :=
  if can_interface && (sharpV || bool_decide (verb ∈ string_verbs))
  then Text (if sharpV then secret_GoString else fmtString secret_String verb)
  else Walked verb (Reveal h s).

(** * Lemmas *)

Lemma length_zero_from n : forall i bs, length (zero_from i n bs) = length bs.
Proof. induction n as [|n IH]; intros i bs; [done|]. simpl. by rewrite IH, length_insert. Qed.

Lemma zero_from_before n : forall i bs, take i (zero_from i n bs) = take i bs.
Proof.
  induction n as [|n IH]; intros i bs; [done|]. simpl.
  transitivity (take i (take (S i) (zero_from (S i) n (<[i:="000"%char]> bs)))); [rewrite take_take; f_equal; lia|].
  rewrite IH, take_take. rewrite Nat.min_l by lia. by rewrite take_insert_ge by lia.
Qed.

Lemma zero_from_after n : forall i bs, drop (i + n) (zero_from i n bs) = drop (i + n) bs.
Proof.
  induction n as [|n IH]; intros i bs; [done|]. simpl. replace (i + S n)%nat with (S i + n)%nat by lia.
  rewrite IH. by rewrite drop_insert_lt by lia.
Qed.

Lemma zero_from_lookup n : forall i bs k, zero_from i n bs !! k =
  if bool_decide (i <= k < i + n)%nat then (fun _ => "000"%char) <$> bs !! k else bs !! k.
Proof.
  induction n as [|n IH]; intros i bs k; simpl; [case_bool_decide; [lia|done]|].
  rewrite IH. destruct (decide (k = i)) as [->|Hk].
  - rewrite bool_decide_eq_false_2 by lia. rewrite bool_decide_eq_true_2 by lia.
    destruct (bs !! i) eqn:E; [by rewrite list_lookup_insert_eq by (by eapply lookup_lt_Some)|].
    rewrite list_insert_ge by (by apply lookup_ge_None). by rewrite E.
  - rewrite list_lookup_insert_ne by done. repeat case_bool_decide; try done; lia.
Qed.

Lemma read_lookup h sl k bs : h !! sl_array sl = Some bs ->
  read h sl !! k = if bool_decide (k < sl_len sl)%nat then bs !! (sl_off sl + k)%nat else None.
Proof.
  intros E. unfold read. rewrite E. simpl. case_bool_decide.
  - by rewrite lookup_take_lt, lookup_drop by lia.
  - by rewrite lookup_take_ge by lia.
Qed.

Lemma length_Reveal h s : in_heap h s -> length (Reveal h s) = secret_len s.
Proof.
  destruct s as [sl|]; [|done]. intros (bs & E & Hl). simpl. unfold read. rewrite E. simpl.
  rewrite length_take, length_drop. lia.
Qed.

(** A slice of another array is left alone by a wipe, and by an allocation. *)
Lemma Reveal_Zero_ne h s t : (forall sl tl, s = Some sl -> t = Some tl -> sl_array sl <> sl_array tl) ->
  Reveal (Zero h s).1 t = Reveal h t.
Proof.
  intros Hne. destruct s as [sl|], t as [tl|]; try done. simpl. unfold read. by rewrite lookup_alter_ne by (by eapply Hne).
Qed.

Lemma Reveal_alloc h bs t : in_heap h t -> Reveal (alloc h bs).1 t = Reveal h t.
Proof.
  destruct t as [tl|]; [|done]. intros (b & E & _). simpl. unfold read. rewrite lookup_insert_ne; [done|].
  intros Hf. apply (is_fresh (dom h)). rewrite Hf. apply elem_of_dom. by eexists.
Qed.

Lemma read_fresh h bs : read (alloc h bs).1 (alloc h bs).2 = bs.
Proof. unfold alloc, read. simpl. rewrite lookup_insert_eq. simpl. rewrite drop_0. by rewrite firstn_all. Qed.

(** * Cloning and wiping *)

(** C34. A clone holds the same bytes and is its caller's to wipe: after [Zero] of a
    clone, every secret that existed before, the original included, still reveals
    what it did, the array of the clone holds nothing but zeros, and the wiped copy
    is empty. *)
Theorem clone_is_yours_to_wipe h s t : in_heap h s -> in_heap h t ->
  let '(h1, c) := Clone h s in
  let '(h2, c') := Zero h1 c in
  Reveal h1 c = Reveal h s /\ Reveal h2 t = Reveal h t /\ c' = None
  /\ (forall sl, c = Some sl -> Forall (eq "000"%char) (default [] (h2 !! sl_array sl))).
Proof.
  intros Hs Ht. pose proof (length_Reveal h s Hs) as Hl. destruct s as [sl|]; [|done]. simpl in Hl |- *.
  case_bool_decide as Hz.
  { rewrite Hz in Hl. apply nil_length_inv in Hl. by rewrite Hl. }
  pose proof (read_fresh h (read h sl)) as Hr. pose proof (Reveal_alloc h (read h sl) t Ht) as Ha.
  unfold alloc in *. simpl in *. repeat split; try done.
  - pose proof (Reveal_Zero_ne (<[fresh (dom h) := read h sl]> h) (Some (MkSlice (fresh (dom h)) 0 (length (read h sl)))) t) as Hn.
    cbn in Hn. rewrite <- Ha. apply Hn.
    intros ? tl [= <-] -> Hf. destruct Ht as (b & E & _). apply (is_fresh (dom h)). simpl in Hf. rewrite Hf.
    apply elem_of_dom. by eexists.
  - intros ? [= <-]. simpl. rewrite lookup_alter_eq, lookup_insert_eq. simpl. apply Forall_lookup. intros k x.
    rewrite zero_from_lookup. case_bool_decide as Hk.
    + destruct (read h sl !! k); simpl; congruence.
    + intros E. apply lookup_lt_Some in E. lia.
Qed.

(** What the comment of [Zero] warns of: every copy of a header reads through to the
    same bytes, so wiping one leaves the others revealing zeros. *)
Theorem zero_reaches_every_copy h s : in_heap h s ->
  Reveal (Zero h s).1 s = replicate (secret_len s) "000"%char.
Proof.
  destruct s as [sl|]; [|done]. intros (bs & E & Hl). apply list_eq. intros k. simpl.
  rewrite (read_lookup _ _ _ (zero_from (sl_off sl) (sl_len sl) bs)) by (by rewrite lookup_alter_eq, E).
  case_bool_decide as Hk.
  - rewrite zero_from_lookup, bool_decide_eq_true_2, lookup_replicate_2 by lia.
    destruct (lookup_lt_is_Some_2 bs (sl_off sl + k)) as [x ->]; [lia|done].
  - symmetry. apply lookup_ge_None. rewrite length_replicate. lia.
Qed.

(** * Redaction *)

(** Where the methods of a secret are called, what is printed does not depend on
    the secret: %v, %+v, %s, %q, %x, %X and %#v of any two secrets in any two heaps
    are the same text. *)
Theorem rendering_reveals_nothing sharpV verb h s h' s' :
  sharpV = true \/ verb ∈ string_verbs -> render true sharpV verb h s = render true sharpV verb h' s'.
Proof. intros [->|Hv]; [done|]. unfold render. by rewrite (bool_decide_eq_true_2 _ Hv), orb_true_r. Qed.

(** The other verbs do not call the methods, and reflection may not call them below
    an unexported field: there the bytes are printed, although the comment of
    [String] says that fmt verbs do not expose them. *)
Example numeric_verb_walks_the_bytes :
  let '(h, s) := NewString ∅ "hunter2" in
  render true false "d"%char h s = Walked "d"%char (list_ascii_of_string "hunter2")
  /\ render false false "v"%char h s = Walked "v"%char (list_ascii_of_string "hunter2").
Proof. vm_compute. done. Qed.

(** * Witnesses *)

Lemma clone_is_yours_to_wipe_witness :
  let '(h0, s) := NewString ∅ "hunter2" in
  let '(h1, c) := Clone h0 s in
  Reveal (Zero h1 c).1 s = list_ascii_of_string "hunter2".
Proof.
  pose proof (clone_is_yours_to_wipe (NewString ∅ "hunter2").1 (NewString ∅ "hunter2").2 (NewString ∅ "hunter2").2) as H.
  destruct H as (_ & H & _); [eexists; split; [vm_compute; reflexivity|simpl; lia]..|]. exact H.
Defined.

Lemma zero_reaches_every_copy_witness :
  let '(h0, s) := NewString ∅ "pw" in Reveal (Zero h0 s).1 s = ["000"; "000"]%char.
Proof.
  apply (zero_reaches_every_copy (NewString ∅ "pw").1 (NewString ∅ "pw").2).
  eexists. split; [vm_compute; reflexivity|simpl; lia].
Defined.

Lemma rendering_reveals_nothing_witness :
  render true false "x"%char (NewString ∅ "a").1 (NewString ∅ "a").2 = render true false "x"%char ∅ None.
Proof. apply rendering_reveals_nothing. right. vm_compute. set_solver. Defined.
