(* ===== verification/PollHealth.v ===== *)
(** The polling adapter (src/poll.go) behind the reconciler (src/reconciler.go), as
    the health endpoint (src/status.go) sees it: a poll that succeeds with the value
    it had is not told to the reconciler, which confirms a field, and forgets its
    error, only when it is told of one. *)

From S2P Require Import Prelude Errors Ref Provider Fields Config Poll Status EngineState Engine Loop Demo.
Open Scope string_scope.
Open Scope Z_scope.

(** A turn whose answer is a success that does not count as a change. *)
Definition steady (v : Value) (ev : poll_event) : Prop := exists u, pe_answer ev = Ok u /\ changed v u = false.

(** The updates of a source, as the reconciler receives them. *)
Definition deliver_polls {W} (i pos : nat) (ups : list Update) : list (loop_event W) := map (LUpdate i pos) ups.

Lemma steady_polls_are_silent frac_positive interval turns : forall ps,
  ps_haveLast ps = true -> Forall (steady (ps_last ps)) turns ->
  (poll_loop frac_positive interval ps turns).2 = [].
Proof.
  induction turns as [|ev turns IH]; intros ps Hh Hf; [done|]. apply Forall_cons in Hf as [(u & Hu & Hc) Hf].
  simpl. rewrite Hu. unfold poll_answer. rewrite Hh, Hc. simpl.
  specialize (IH (MkPoll (ps_last ps) true (bo_reset (ps_bo ps))) eq_refl Hf).
  destruct (poll_loop _ _ _ turns) as [[st ds] ups]. exact IH.
Qed.

(** An unhealthy row makes the watcher unhealthy. *)
Lemma unhealthy_row_counts rep now stale maxAge f :
  f ∈ rep_Fields rep -> fieldUnhealthy (refresh_field now stale f) = true -> Health rep now stale maxAge <> None.
Proof.
  intros Hf Hu. unfold Health.
  assert (Hb : List.filter fieldUnhealthy (rep_Fields (Status rep now stale maxAge)) <> []).
  { simpl. rewrite <- forallb_filter_nil, forallb_forall. intros Hall. specialize (Hall (refresh_field now stale f)).
    rewrite Hu in Hall. discriminate Hall. apply in_map. by apply list_elem_of_In. }
  destruct (List.filter _ _) as [|b bs]; [done|]. simpl. by destruct (bootstrapExpired _ _).
Qed.

(** A source that is polled successfully without moving does nothing for the
    health of its field. However many turns answer, the reconciler is told nothing
    and stays in its state, so a field whose last update is older than the staleness
    bound is reported stale, and one whose last update was an error that needs
    action is reported failing, while the backend has been answering all along. *)
Theorem steady_source_is_never_confirmed {W T View} `{Env W} `{Config T View} (P : params W T) l i pos
    frac_positive interval ps turns f now stale maxAge :
  ps_haveLast ps = true -> Forall (steady (ps_last ps)) turns ->
  let ups := (poll_loop frac_positive interval ps turns).2 in
  run P l (deliver_polls i pos ups) = Some l
  /\ (f ∈ rep_Fields (e_report (l_engine l)) ->
      terminal_kind (fs_LastKind f) = true \/ (fs_LastOK f <> 0 /\ 0 < stale < Sub now (fs_LastOK f)) ->
      Health (e_report (l_engine l)) now stale maxAge <> None).
Proof.
  intros Hh Hs ups. unfold ups. rewrite (steady_polls_are_silent frac_positive interval turns ps Hh Hs).
  split; [done|]. intros Hf Hbad. apply (unhealthy_row_counts _ _ _ _ f Hf). unfold fieldUnhealthy, refresh_field, IsZero.
  destruct Hbad as [Hk|[Hz Hlt]].
  - destruct (Z.eqb_spec (fs_LastOK f) 0); simpl; by rewrite Hk.
  - destruct (Z.eqb_spec (fs_LastOK f) 0); [done|]. simpl. destruct (terminal_kind _); [done|].
    apply andb_true_iff. rewrite !Z.ltb_lt. lia.
Qed.

(** * A run of it *)

Definition stale_after (d : Z) : params demo_world gval :=
  {| p_specs := p_specs demo; p_provider := p_provider demo; p_gzip := p_gzip demo; p_fraction := p_fraction demo;
     p_derives := p_derives demo; p_preApply := p_preApply demo; p_validate := p_validate demo;
     p_hasOnError := true; p_debounce := p_debounce demo; p_stale := d; p_queueDepth := 2; p_historyN := 1;
     p_bootstrap := None; p_sha256 := p_sha256 demo; p_typeName := p_typeName demo; p_writeSnapshot := p_writeSnapshot demo |}.

Definition alice : Value := demo_value "alice" "1".
Definition answer_at (t : Z) (r : res Value) : poll_event := MkTurn (t * Second) (30 * Second) r.

(** What the goroutine of [pollWatch] tells of a source that answers these, at an
    interval of 30 seconds. *)
Definition told (first : res Value) (answers : list (res Value)) : list Update :=
  (pollWatch false (30 * Second) (newBackoff 0 0) first (map (answer_at 1000) answers)).2.

(** The watcher's health at a time, after the polls of the user's name. *)
Definition health_after (stale : Z) (first : res Value) (answers : list (res Value)) (t : Z) : option (option error) :=
  (fun l => Health (e_report (l_engine l)) t stale 0) <$> demo_end (stale_after stale) (deliver_polls 0 0 (told first answers)).

(** Two hours of polls, each answered with the same value, under a bound of one
    hour: the field is reported stale, although the readiness probe is meant to turn
    "from the last success". *)
Example steady_source_goes_stale :
  health_after (3600 * Second) (Ok alice) (repeat (Ok alice) 240) (8200 * Second) = Some (Some (HealthError ["User"; "Pass"])).
Proof. vm_compute. reflexivity. Qed.

(** One denied poll between two good ones of the same value: the field is reported as
    denied from then on, until the value changes. *)
Example one_denial_is_never_forgotten :
  health_after 0 (Ok alice) (Err (ESentinel ErrPermissionDenied) :: repeat (Ok alice) 1000) (31000 * Second) = Some (Some (HealthError ["User"])).
Proof. vm_compute. reflexivity. Qed.

(** A change that follows does clear it. *)
Example a_change_clears_the_denial :
  health_after 0 (Ok alice) (Err (ESentinel ErrPermissionDenied) :: [Ok alice; Ok (demo_value "bob" "2")]) (2000 * Second) = Some None.
Proof. vm_compute. reflexivity. Qed.

(** The theorem at the watcher of the first example. *)
Lemma steady_source_is_never_confirmed_witness :
  match demo_watch (stale_after (3600 * Second)) demo_start_world with
  | Some l => Health (e_report (l_engine l)) (8200 * Second) (3600 * Second) 0 <> None
  | None => False
  end.
Proof.
  assert (Hc : match demo_watch (stale_after (3600 * Second)) demo_start_world with
    | Some l => existsb (fun f => fs_LastOK f =? 1000 * Second) (rep_Fields (e_report (l_engine l))) | None => false end = true)
    by (vm_compute; reflexivity).
  destruct (demo_watch _ demo_start_world) as [l|]; [|discriminate Hc].
  apply existsb_exists in Hc as (f & Hin & Hf%Z.eqb_eq). apply list_elem_of_In in Hin.
  destruct (steady_source_is_never_confirmed (stale_after (3600 * Second)) l 0 0 false (30 * Second)
    (MkPoll alice true (newBackoff 0 0)) [answer_at 1030 (Ok alice)] f (8200 * Second) (3600 * Second) 0) as [_ Hh];
    [done|repeat constructor; by eexists|].
  apply Hh; [done|]. right. rewrite Hf. by vm_compute.
Defined.
