(* ===== verification/Consul.v ===== *)
(** The Consul provider (src/providers/consul/consul.go): its lazy client, the
    resolve, the classification of an answer and the loop of blocking queries. The
    API of the Consul client is a function from a key and the query options to an
    answer. *)

From S2P Require Import Prelude Errors GoStrings Ref Provider Decode GoNumbers Pointer.
Open Scope string_scope.
Open Scope Z_scope.

Definition consul_defaultWaitTime : Z := 300 * Second.
Definition watchErrBackoff : Z := 500 * Millisecond.

(** [api.KVPair] and [api.QueryOptions], as far as they are used; the index a query
    answers with is [meta.LastIndex], [None] without a [meta]. *)
Record KVPair := MkKVPair { kp_Value : string; kp_ModifyIndex : Z }.
Record QueryOptions := MkQuery { q_WaitIndex : Z; q_WaitTime : Z }.
Definition kv_answer : Type := res (option KVPair * option Z).

(** * Construction *)

Section construction.
(** [api.NewClient] over the default configuration of the environment, with an
    address and a token when they are set. *)
Context {K : Type} (NewClient : string -> string -> res K).

(** [type Provider struct]. *)
Record consul_Provider := MkConsul { cp_address : string; cp_token : string; cp_waitTime : Z; cp_kv : option K }.

(** [type Option func( *Provider)]. *)
Inductive consul_Option :=
  | WithAddress (address : string) | WithToken (token : string) | WithWaitTime (d : Z) | WithClient (c : option K).

Definition apply_consul_option (p : consul_Provider) (o : consul_Option) : consul_Provider :=
  match o with
  | WithAddress a => MkConsul a (cp_token p) (cp_waitTime p) (cp_kv p)
  | WithToken t => MkConsul (cp_address p) t (cp_waitTime p) (cp_kv p)
  | WithWaitTime d => MkConsul (cp_address p) (cp_token p) d (cp_kv p)
  | WithClient (Some c) => MkConsul (cp_address p) (cp_token p) (cp_waitTime p) (Some c)
  | WithClient None => p
  end.

(** [func New(opts ...Option) *Provider]. *)
Definition consul_New (opts : list consul_Option) : consul_Provider :=
  foldl apply_consul_option (MkConsul "" "" consul_defaultWaitTime None) opts.

(** [func (p *Provider) client() (kvAPI, error)], under its mutex. *)
Definition consul_client (p : consul_Provider) : consul_Provider * res K :=
  match cp_kv p with
  | Some kv => (p, Ok kv)
  | None =>
      match NewClient (cp_address p) (cp_token p) with
      | Err err => (p, Err (EWrap "consul: build client" [err]))
      | Ok c => (MkConsul (cp_address p) (cp_token p) (cp_waitTime p) (Some c), Ok c)
      end
  end.
End construction.
Arguments MkConsul {K}.
Arguments cp_waitTime {K}.
Arguments cp_kv {K}.

Section consul.
(** [errors.As(err, &se)] for an [api.StatusError]: its code; and encoding/json. *)
Context (as_StatusError : error -> option Z) `{JSON}.

(** [func classifyConsul(err error) error]. *)
Definition classifyConsul (err : error) : error :=
  match as_StatusError err with
  | None => err
  | Some code =>
      let wrap s := EWrap "" [ESentinel s; err] in
      if code =? 403 then wrap ErrPermissionDenied
      else if code =? 401 then wrap ErrUnauthenticated
      else if code =? 429 then wrap ErrRateLimited
      else if 500 <=? code then wrap ErrUnavailable
      else if code =? 400 then wrap ErrInvalid
      else err
  end.

(** [func valueFor(pair, ref) (mamori.Value, error)]. *)
Definition consul_valueFor (pr : option KVPair) (ref : Ref) : res Value :=
  match pr with
  | None => Err (EWrap ("consul: key " ++ ref_Path ref) [ESentinel ErrNotFound])
  | Some pr =>
      let value b := MkValue b (FormatUint (kp_ModifyIndex pr)) false 0 ∅ in
      if bool_decide (ref_Key ref = "") then Ok (value (kp_Value pr))
      else sel ← SelectKey (kp_Value pr) (ref_Key ref); Ok (value sel)
  end.

(** [func (p *Provider) Resolve(ctx, ref)]; [canceled] is [ctx.Err()]. *)
Definition consul_Resolve {K} (NewClient : string -> string -> res K) (Get : K -> string -> QueryOptions -> kv_answer)
    (canceled : option error) (p : consul_Provider) (ref : Ref) : consul_Provider * res Value :=
  match canceled with
  | Some err => (p, Err err)
  | None =>
      let '(p, kv) := consul_client NewClient p in
      (p, kv ← kv;
          match Get kv (ref_Path ref) (MkQuery 0 0) with
          | Err err => Err (EWrap ("consul: get " ++ ref_Path ref) [classifyConsul err])
          | Ok (pr, _) => consul_valueFor pr ref
          end)
  end.

(** * The watch *)

(** What the goroutine of [Watch] does: a query, an update from an answer, an error
    of the query and the pause after it. *)
Inductive consul_action := ActGet (q : QueryOptions) | ActUpdate (r : res Value) | ActError (err : error) | ActPause (d : Z).

Section watch.
Context (waitTime : Z) (ref : Ref).

(** One turn of the loop, [lastIndex] and what was done so far before it. A turn cut
    off by the cancellation is not one. *)
Definition consul_turn (st : Z * list consul_action) (a : kv_answer) : Z * list consul_action :=
  let '(lastIndex, done) := st in
  let done := (done ++ [ActGet (MkQuery lastIndex waitTime)])%list in
  match a with
  | Err err =>
      (lastIndex, (done ++ [ActError (EWrap ("consul: watch " ++ ref_Path ref) [classifyConsul err]); ActPause watchErrBackoff])%list)
  | Ok (pr, meta) =>
      let newIndex := default lastIndex meta in
      if newIndex <? lastIndex then (0, done)
      else if negb (lastIndex =? 0) && (newIndex =? lastIndex) then (lastIndex, done)
      else (newIndex, (done ++ [ActUpdate (consul_valueFor pr ref)])%list)
  end.

(** [func (p *Provider) Watch(ctx, ref)]: the loop over the answers that come before
    the cancellation. *)
Definition consul_Watch (answers : list kv_answer) : Z * list consul_action := foldl consul_turn (0, []) answers.

(** * What a watcher learns *)

(** The answers that are not errors, and what was told of them. *)
Definition kv_success (a : kv_answer) : option (option KVPair * Z) :=
  match a with Ok (pr, meta) => Some (pr, default 0 meta) | Err _ => None end.
Definition told_of (a : consul_action) : option (res Value) := match a with ActUpdate r => Some r | _ => None end.

(** A server that answers with positive indexes and does not change an entry without
    moving its index. *)
Definition faithful (oks : list (option KVPair * Z)) : Prop :=
  Forall (fun o => 0 < o.2) oks
  /\ forall l p q i l', oks = (l ++ (p, i) :: (q, i) :: l')%list -> p = q.
Definition has_meta (a : kv_answer) : Prop := match a with Ok (_, None) => False | _ => True end.

Lemma consul_turn_success st pr idx :
  consul_turn st (Ok (pr, Some idx)) =
  let done := (st.2 ++ [ActGet (MkQuery st.1 waitTime)])%list in
  if idx <? st.1 then (0, done)
  else if negb (st.1 =? 0) && (idx =? st.1) then (st.1, done) else (idx, (done ++ [ActUpdate (consul_valueFor pr ref)])%list).
Proof. by destruct st. Qed.

Lemma faithful_snoc oks o : faithful (oks ++ [o])%list ->
  faithful oks /\ 0 < o.2 /\ forall l p, oks = (l ++ [(p, o.2)])%list -> p = o.1.
Proof.
  intros [Hf Hs]. apply Forall_app in Hf as [Hf [Ho _]%Forall_cons]. split_and!; [split|done|].
  - done.
  - intros l p q i l' ->. apply (Hs l p q i (l' ++ [o])%list). by rewrite <- app_assoc.
  - intros l p ->. destruct o as [q i]. simpl. apply (Hs l p q i []). by rewrite <- app_assoc.
Qed.

(** C33. A watcher of a Consul entry is told what the server answers: at any moment the
    last update told is that of the last successful answer, and the next query blocks
    on its index; the one exception is an answer whose index went backwards, which is
    not told itself, but then the next query does not block, so that its answer is.
    Nothing is told of an entry before an answer, and each query error is told with
    a pause after it. *)
Theorem consul_watch_tracks answers :
  Forall has_meta answers -> faithful (omap kv_success answers) ->
  let '(lastIndex, done) := consul_Watch answers in
  let told := omap told_of done in
  match last (omap kv_success answers) with
  | None => lastIndex = 0 /\ told = []
  | Some (pr, idx) =>
      (lastIndex = idx /\ last told = Some (consul_valueFor pr ref))
      \/ (lastIndex = 0 /\ exists l prev, omap kv_success answers = (l ++ [prev; (pr, idx)])%list /\ idx < prev.2)
  end.
Proof.
  induction answers as [|a answers IH] using rev_ind; [done|].
  intros [Hm [Ha _]%Forall_cons]%Forall_app. unfold consul_Watch. rewrite foldl_app, omap_app. simpl.
  change (foldl consul_turn (0, []) answers) with (consul_Watch answers).
  destruct a as [[pr [idx|]]|err]; [|done|]; simpl.
  - intros [Hf [Hpos Hsame]]%faithful_snoc. specialize (IH Hm Hf). simpl in Hpos, Hsame.
    rewrite consul_turn_success. destruct (consul_Watch answers) as [li done]. simpl. rewrite last_snoc.
    destruct (last (omap kv_success answers)) as [[p i]|] eqn:El.
    + apply last_Some in El as [l El]. destruct IH as [[-> Ht]|[-> _]].
      * destruct (Z.ltb_spec idx i).
        { right. split; [done|]. exists l, (p, i). rewrite El, <- app_assoc. done. }
        destruct (Z.eqb_spec i 0), (Z.eqb_spec idx i); simpl; rewrite ?omap_app; simpl; rewrite ?last_snoc; left; try done.
        subst idx. rewrite app_nil_r. split; [done|]. by rewrite Ht, (Hsame l p El).
      * destruct (Z.ltb_spec idx 0); [lia|]. simpl. rewrite !omap_app. simpl. rewrite last_snoc. by left.
    + destruct IH as [-> Ht]. destruct (Z.ltb_spec idx 0); [lia|]. simpl. rewrite !omap_app. simpl. rewrite last_snoc. by left.
  - rewrite app_nil_r. intros Hf. specialize (IH Hm Hf). destruct (consul_Watch answers) as [li done]. simpl.
    rewrite !omap_app. simpl. by rewrite !app_nil_r.
Qed.

(** A turn that learns nothing tells nothing: after an error, an answer with the index
    the watch stands at leaves that error the last thing told. *)
Lemma error_then_same_index_is_silent i err pr done :
  0 < i ->
  let '(i', done') := foldl consul_turn (i, done) [Err err; Ok (pr, Some i)] in
  i' = i /\ omap told_of done' = omap told_of done.
Proof.
  intros Hi. simpl. rewrite Z.ltb_irrefl, Z.eqb_refl. destruct (Z.eqb_spec i 0); [lia|]. simpl.
  rewrite !omap_app. simpl. by rewrite !app_nil_r.
Qed.
End watch.

(** The kinds of the answers of the HTTP API; any other error keeps its own kind. *)
Lemma classifyConsul_spec err s : errors_Is err s = false ->
  errors_Is (classifyConsul err) s =
  match as_StatusError err with
  | Some code =>
      bool_decide ((code = 403 /\ s = ErrPermissionDenied) \/ (code = 401 /\ s = ErrUnauthenticated)
        \/ (code = 429 /\ s = ErrRateLimited) \/ (500 <= code /\ s = ErrUnavailable) \/ (code = 400 /\ s = ErrInvalid))
  | None => false
  end.
Proof.
  intros Hn. unfold classifyConsul. destruct (as_StatusError err) as [code|]; [|done].
  destruct (Z.eqb_spec code 403); [|destruct (Z.eqb_spec code 401); [|destruct (Z.eqb_spec code 429);
    [|destruct (Z.leb_spec 500 code); [|destruct (Z.eqb_spec code 400)]]]]; simpl; rewrite ?Hn, ?orb_false_r;
    repeat case_bool_decide; try done; naive_solver lia.
Qed.
End consul.

(** * The client *)

(** The client is built once: after a call that got one, every later call answers with
    it and builds nothing; after a failed call the next one tries again. *)
Lemma consul_client_is_built_once {K} (NewClient NewClient' : string -> string -> res K) p :
  let '(p', r) := consul_client NewClient p in
  match r with
  | Ok kv => consul_client NewClient' p' = (p', Ok kv) /\ cp_waitTime p' = cp_waitTime p
  | Err _ => p' = p
  end.
Proof. unfold consul_client. destruct (cp_kv p) eqn:E; [by rewrite E|]. destruct (NewClient _ _); done. Qed.

(** * Witness *)

Definition no_json : JSON := {| Unmarshal_object _ := None; Unmarshal_array _ := None; Unmarshal_string _ := None |}.

(** An entry that changes, fails, is restored at a lower index and is read again. *)
Definition entry_at (b : string) (i : Z) : kv_answer := Ok (Some (MkKVPair b i), Some i).
Definition restored_entry : list kv_answer := [entry_at "a" 7; entry_at "a" 7; Err (EOpaque "dial"); entry_at "b" 3; entry_at "b" 3].
Definition app_ref : Ref := MkRef "consul" "app" "" ∅ "consul://app".

Lemma consul_watch_tracks_witness :
  last (omap told_of (@consul_Watch (fun _ => None) no_json consul_defaultWaitTime app_ref restored_entry).2)
  = Some (Ok (MkValue "b" "3" false 0 ∅)).
Proof.
  pose proof (@consul_watch_tracks (fun _ => None) no_json consul_defaultWaitTime app_ref restored_entry) as H.
  assert (Hw : (@consul_Watch (fun _ => None) no_json consul_defaultWaitTime app_ref restored_entry).1 = 3) by (vm_compute; reflexivity).
  destruct (@consul_Watch _ _ _ _ _) as [li done]. simpl in Hw. subst li. unfold restored_entry, entry_at in H.
  destruct H as [[_ Ht]|[Hl _]]; [| |exact Ht|discriminate Hl].
  - repeat (apply Forall_cons; split; [done|]). apply Forall_nil_2.
  - split; [repeat (apply Forall_cons; split; [done|]); apply Forall_nil_2|].
    intros l p q i l' E. do 5 (destruct l as [|? l]; simplify_eq/=; try done).
Defined.
