(* ===== verification/Bitwarden.v ===== *)
(** The Bitwarden Secrets Manager provider (src/providers/bitwarden): the ciphertext
    format and its authenticated decryption, the access token, the session that trades
    it for a bearer token and the organization key, and the resolve. SHA-256, AES,
    base64 encoding and encoding/json are parameters; clearing buffers after use is
    not modelled. *)

From S2P Require Import Prelude Errors GoStrings Ref Provider Decode Base64 GoNumbers Pointer HttpCore TokenCache.
Open Scope string_scope.
Open Scope Z_scope.

(** * Keys *)

Definition ivSize : nat := 16.
Definition macSize : nat := 32.
Definition encKeySize : nat := 32.
Definition macKeySize : nat := 32.
Definition symKeySize : nat := encKeySize + macKeySize.
Definition BlockSize : nat := 16.

Definition errInvalid (msg : string) : error := EWrap ("bitwarden: " ++ msg) [ESentinel ErrInvalid].

(** [type symKey struct]: the material its closures read, [None] for the zero value. *)
Record symKey := MkSymKey { sk_buf : option string }.
Definition sk_enc (buf : string) : string := str_take encKeySize buf.
Definition sk_mac (buf : string) : string := str_drop encKeySize buf.

(** [func newSymKey(material []byte) (symKey, error)]. *)
Definition newSymKey (material : string) : res symKey :=
  if negb (bool_decide (String.length material = symKeySize)) then Err (errInvalid "symmetric key length")
  else Ok (MkSymKey (Some material)).

(** * Ciphertexts *)

(** [type encString struct]. *)
Record encString := MkEnc { es_iv : string; es_data : string; es_mac : string }.

(** [func decodeFixed(s, want, what)]. *)
Definition decodeFixed (s : string) (want : nat) (what : string) : res string :=
  match base64_DecodeString b64_alphabet s with
  | None => Err (errInvalid ("EncString " ++ what ++ " is not valid base64"))
  | Some b => if negb (bool_decide (String.length b = want)) then Err (errInvalid ("EncString " ++ what ++ " length")) else Ok b
  end.

(** [func parseEncString(s string) (encString, error)]. *)
Definition parseEncString (s : string) : res encString :=
  match Cut s "." with
  | None => Err (errInvalid "ciphertext carries no EncString type prefix")
  | Some (encType, rest) =>
      if bool_decide (encType = "2") then
        match Split rest "|" with
        | [p0; p1; p2] =>
            iv ← decodeFixed p0 ivSize "iv";
            mac ← decodeFixed p2 macSize "mac";
            match base64_DecodeString b64_alphabet p1 with
            | None => Err (errInvalid "EncString data is not valid base64")
            | Some data =>
                if bool_decide (String.length data = 0%nat) || negb (bool_decide (String.length data mod BlockSize = 0)%nat)
                then Err (errInvalid "EncString data length")
                else Ok (MkEnc iv data mac)
            end
        | _ => Err (errInvalid "type 2 EncString parts, want 3 (iv|data|mac)")
        end
      else if bool_decide (encType = "0") then Err (errInvalid "EncString type 0 is unauthenticated")
      else if bool_decide (encType = "7") then Err (EWrap "bitwarden: EncString type 7 cannot be decrypted" [ESentinel ErrUnavailable])
      else Err (errInvalid "unsupported EncString type")
  end.

(** [func errBadPadding() error]. *)
Definition errBadPadding : error := errInvalid "decrypted buffer has invalid PKCS#7 padding".

(** The loop of [unpadPKCS7] over the padding. *)
Fixpoint pad_diff (padLen diff : Z) (b : string) : Z :=
  match b with
  | EmptyString => diff
  | String c b => pad_diff padLen (Z.lor diff (Z.lxor (Z.of_nat (nat_of_ascii c)) padLen)) b
  end.

(** [func unpadPKCS7(b []byte) ([]byte, error)]. *)
Definition unpadPKCS7 (b : string) : res string :=
  let n := String.length b in
  if bool_decide (n = 0%nat) || negb (bool_decide (n mod BlockSize = 0)%nat) then Err (errInvalid "decrypted buffer length")
  else
    let padLen := match String.get (n - 1) b with Some c => nat_of_ascii c | None => 0%nat end in
    if bool_decide (padLen = 0%nat) || (BlockSize <? padLen)%nat || (n <? padLen)%nat then Err errBadPadding
    else if negb (pad_diff (Z.of_nat padLen) 0 (str_drop (n - padLen) b) =? 0) then Err errBadPadding
    else Ok (str_take (n - padLen) b).

Section crypto.
(** HMAC-SHA256 of a key and a message, and AES-256-CBC decryption under a key and an
    initialization vector. *)
Context (HMAC : string -> string -> string) (CBC_decrypt : string -> string -> string -> string).

(** [func (k symKey) decrypt(c encString) ([]byte, error)]. *)
Definition bw_decrypt (k : symKey) (c : encString) : res string :=
  match sk_buf k with
  | None => Err (errInvalid "decryption key is not initialized")
  | Some buf =>
      if negb (bool_decide (HMAC (sk_mac buf) (es_iv c ++ es_data c) = es_mac c))
      then Err (errInvalid "ciphertext failed its HMAC-SHA256 integrity check")
      else if negb (bool_decide (String.length (sk_enc buf) = encKeySize)) then Err (errInvalid "AES-256 cipher")
      else unpadPKCS7 (CBC_decrypt (sk_enc buf) (es_iv c) (es_data c))
  end.

(** * The access token *)

Definition accessTokenVersion : string := "0".
Definition accessTokenSecretSize : nat := 16.
Definition accessTokenKeyName : string := "accesstoken".
Definition accessTokenKeyInfo : string := "sm-access-token".

(** [crypto/hkdf.Extract] of a secret and a salt, and [Expand] to a length. *)
Context (hkdf_Extract : string -> string -> res string) (hkdf_Expand : string -> string -> nat -> res string).

(** [func deriveShareableKey(secret, name, info)]. *)
Definition deriveShareableKey (secret name info : string) : res symKey :=
  match hkdf_Extract secret ("bitwarden-" ++ name) with
  | Err err => Err (EWrap "bitwarden: key derivation failed at HKDF-Extract" [ESentinel ErrInvalid; err])
  | Ok prk =>
      match hkdf_Expand prk info symKeySize with
      | Err err => Err (EWrap "bitwarden: key derivation failed at HKDF-Expand" [ESentinel ErrInvalid; err])
      | Ok material => newSymKey material
      end
  end.

(** [func deriveAccessTokenKey(secret)]. *)
Definition deriveAccessTokenKey (secret : string) : res symKey := deriveShareableKey secret accessTokenKeyName accessTokenKeyInfo.

(** [type accessToken struct]. *)
Record accessToken := MkAccessToken { at_id : string; at_clientSecret : string; at_key : symKey }.

(** The loop of [isUUID] from the index [i]. *)
Definition is_hex_byte (c : ascii) : bool := is_digit c || in_range 97 102 c || in_range 65 70 c.
Fixpoint uuid_loop (i : nat) (s : string) : bool :=
  match s with
  | EmptyString => true
  | String c s =>
      (if bool_decide (i ∈ [8; 13; 18; 23]%nat) then ascii_eqb c "-" else is_hex_byte c) && uuid_loop (S i) s
  end.

(** [func isUUID(s string) bool]. *)
Definition isUUID (s : string) : bool := bool_decide (String.length s = 36%nat) && uuid_loop 0 s.

(** [func parseAccessToken(raw string) (accessToken, error)]. *)
Definition parseAccessToken (raw : string) : res accessToken :=
  let raw := TrimSpace raw in
  if bool_decide (raw = "") then Err (errInvalid "access token is empty")
  else
    match Cut raw ":" with
    | None => Err (errInvalid "access token carries no ':' and so no encryption key")
    | Some (head, keyB64) =>
        match Split head "." with
        | [version; id; clientSecret] =>
            if negb (bool_decide (version = accessTokenVersion)) then Err (errInvalid "access token version")
            else if negb (isUUID id) then Err (errInvalid "access token identifier is not a UUID")
            else if bool_decide (clientSecret = "") then Err (errInvalid "access token carries an empty client secret")
            else
              match base64_DecodeString b64_alphabet keyB64 with
              | None => Err (errInvalid "access token encryption key is not valid base64")
              | Some secret =>
                  if negb (bool_decide (String.length secret = accessTokenSecretSize)) then Err (errInvalid "access token encryption key length")
                  else key ← deriveAccessTokenKey secret; Ok (MkAccessToken id clientSecret key)
              end
        | _ => Err (errInvalid "access token parts before the ':', want 3")
        end
    end.

(** * The session *)

(** [json.Unmarshal] of the identity response (the token, its life, the payload), of
    the decrypted payload (the key) and of a secret (its value and its date). *)
Context (identity_json : string -> option (string * Z * string)) (claims_json : string -> option string)
  (secret_json : string -> option (string * string)).

(** [func unwrapOrgKey(tokenKey, payload)]. *)
Definition unwrapOrgKey (tokenKey : symKey) (payload : string) : res symKey :=
  match parseEncString payload with
  | Err err => Err (EWrap "bitwarden: identity encrypted_payload" [err])
  | Ok enc =>
      match bw_decrypt tokenKey enc with
      | Err err => Err (EWrap "bitwarden: decrypting the identity encrypted_payload failed" [err])
      | Ok plaintext =>
          match claims_json plaintext with
          | None => Err (errInvalid "decrypted identity payload is not JSON")
          | Some encryptionKey =>
              if bool_decide (encryptionKey = "") then Err (errInvalid "decrypted identity payload carried no encryptionKey")
              else
                match base64_DecodeString b64_alphabet encryptionKey with
                | None => Err (errInvalid "organization key is not valid base64")
                | Some raw => newSymKey raw
                end
          end
      end
  end.

(** [type session struct], the part behind the lock: the token cache of the OAuth2
    grant, over a bearer token paired with its organization key; and the steps of
    [ensure] among concurrent callers. *)
Definition session : Type := oauth2Auth (string * symKey).
Definition errWaiting : error := EWrap "bitwarden: waiting for the access token exchange" [ESentinel ErrUnavailable; ESentinel CtxCanceled].
Definition ensure_step (leeway : Z) := token_step (A := string * symKey) leeway errWaiting.

Section provider.
Context {W : Type} `{Env W} (session_of : W -> session) (set_session : session -> W -> W).
Context (request_ok : sent -> bool) (leeway : Z) (accessTok : W -> string) (identity : core_Client W).

(** [url.Values.Encode] of the form. *)
Definition bw_form (tok : accessToken) : string :=
  Encode (<["grant_type" := ["client_credentials"]]> (<["scope" := ["api.secrets"]]>
    (<["client_id" := [at_id tok]]> (<["client_secret" := [at_clientSecret tok]]> ∅)))).

Definition bw_token_request (tok : accessToken) : core_Request :=
  MkCoreRequest "POST" "connect/token" ∅
    [("Content-Type", "application/x-www-form-urlencoded"); ("Accept", "application/json"); ("Device-Type", "21")] (bw_form tok) "" "".

(** What [exchange] makes of the identity response at the time [t]. *)
Definition bw_read_identity (tok : accessToken) (t : Z) (resp : res core_Response) : res ((string * symKey) * Z) :=
  match resp with
  | Err err => Err (EWrap ("bitwarden: access token exchange for machine account " ++ at_id tok ++ " failed") [err])
  | Ok resp =>
      match identity_json (re_Body resp) with
      | None => Err (EWrap "bitwarden: identity response is not JSON" [ESentinel ErrInvalid; EOpaque "json"])
      | Some (token, expiresIn, payload) =>
          if bool_decide (token = "") then Err (EWrap "bitwarden: identity response carried no access_token" [ESentinel ErrUnauthenticated])
          else if bool_decide (payload = "") then Err (EWrap "bitwarden: identity response carried no encrypted_payload" [ESentinel ErrUnauthenticated])
          else
            orgKey ← unwrapOrgKey (at_key tok) payload;
            Ok ((token, orgKey), if 0 <? expiresIn then t + wrap_int 64 (expiresIn * Second) else t + leeway * 2)
      end
  end.

(** [func (s *session) exchange(ctx)]. *)
Definition bw_exchange (w : W) : W * res ((string * symKey) * Z) :=
  match parseAccessToken (accessTok w) with
  | Err err => (w, Err err)
  | Ok tok => let '(w, resp) := core_Do request_ok identity (bw_token_request tok) w in (w, bw_read_identity tok (now w) resp)
  end.

(** [func (s *session) ensure(ctx)] for a caller that no other joins. *)
Definition bw_ensure (w : W) : W * res (string * symKey) :=
  match live leeway (now w) (session_of w) with
  | Some tok => (w, Ok tok)
  | None =>
      let '(w, r) := bw_exchange w in
      match r with
      | Err err => (w, Err err)
      | Ok (tok, expires) => (set_session (MkTokens (Some tok) expires None) w, Ok tok)
      end
  end.

(** [func (s *session) Apply(ctx, req) error]. *)
Definition bw_Apply (req : sent) (w : W) : W * res sent :=
  let '(w, r) := bw_ensure w in
  (w, match r with
      | Err err => Err err
      | Ok (tok, _) => Ok (MkSent (se_Method req) (se_URL req) (Header_Set (se_Header req) "Authorization" ("Bearer " ++ tok)) (se_Body req))
      end).

(** * Resolving *)

(** [strings.Trim(s, "/")]. *)
Fixpoint trim_left_slashes (s : string) : string :=
  match s with String c s' => if ascii_eqb c "/" then trim_left_slashes s' else s | EmptyString => "" end.
Definition Trim_slashes (s : string) : string := str_rev (trim_left_slashes (str_rev (trim_left_slashes s))).

(** [func secretID(ref mamori.Ref) (string, error)]. *)
Definition secretID (ref : Ref) : res string :=
  let id := Trim_slashes (ref_Path ref) in
  if bool_decide (id = "") then Err (errInvalid "ref names no secret")
  else if has_byte "/" id then Err (errInvalid "ref has more than one path segment")
  else if negb (isUUID id) then Err (errInvalid "ref does not name a UUID")
  else Ok id.

(** [func selectError(id, key, err) error]. *)
Definition selectError (id key : string) (err : error) : error :=
  if errors_Is err ErrNotFound
  then EWrap ("bitwarden: secret " ++ id ++ ": " ++ key ++ " is not present in the decrypted value") [ESentinel ErrNotFound]
  else EWrap ("bitwarden: secret " ++ id ++ ": cannot select " ++ key ++ " from the decrypted value") [ESentinel ErrInvalid].

(** [type Provider struct]: the API client applies the session to its requests. *)
Record bw_Provider := MkBitwarden { bp_api : core_Client W; bp_err : option error; bp_closed : bool }.

(** What [Resolve] makes of a secret it read. *)
Definition bw_open (json : JSON) (orgKey : symKey) (id : string) (ref : Ref) (resp : core_Response) : res Value :=
  let wrap := fun err => EWrap ("bitwarden: secret " ++ id) [err] in
  match secret_json (re_Body resp) with
  | None => Err (EWrap ("bitwarden: secret " ++ id ++ ": response is not JSON") [ESentinel ErrInvalid; EOpaque "json"])
  | Some (value, revisionDate) =>
      if bool_decide (value = "") then Err (EWrap ("bitwarden: secret " ++ id ++ ": response carried no value") [ESentinel ErrNotFound])
      else
        enc ← res_wrap wrap (parseEncString value);
        plaintext ← res_wrap wrap (bw_decrypt orgKey enc);
        match SelectKey plaintext (ref_Key ref) with
        | Err err => Err (selectError id (ref_Key ref) err)
        | Ok out => Ok (MkValue out (if bool_decide (revisionDate = "") then value else revisionDate) true 0 ∅)
        end
  end.

(** [func (p *Provider) Resolve(ctx, ref)]. *)
Definition bw_Resolve (json : JSON) (p : bw_Provider) (ref : Ref) (w : W) : W * res Value :=
  if bp_closed p then (w, Err (EWrap "bitwarden: provider is closed" [ESentinel ErrUnavailable]))
  else
    match bp_err p, secretID ref with
    | Some err, _ | None, Err err => (w, Err err)
    | None, Ok id =>
        let '(w, r) := bw_ensure w in
        match r with
        | Err err => (w, Err err)
        | Ok (_, orgKey) =>
            let '(w, resp) := core_Do request_ok (bp_api p) (MkCoreRequest "" ("secrets/" ++ id) ∅ [] "" "" "") w in
            (w, match resp with
                | Err err => Err (EWrap ("bitwarden: secret " ++ id) [err])
                | Ok resp => bw_open json orgKey id ref resp
                end)
        end
    end.

(** [func (p *Provider) Close() error]. *)
Definition bw_Close (p : bw_Provider) : bw_Provider := MkBitwarden (bp_api p) (bp_err p) true.
End provider.
End crypto.

(** * Construction *)

Definition defaultIdentityURL : string := "https://identity.bitwarden.com".
Definition defaultAPIURL : string := "https://api.bitwarden.com".

(** [func checkScheme(what, raw, allowInsecure) error]; [url_scheme] is the scheme
    [url.Parse] finds. *)
Definition checkScheme (url_scheme : string -> res string) (raw : string) (allowInsecure : bool) : option error :=
  match url_scheme raw with
  | Err err => Some (EWrap "bitwarden: not a URL" [ESentinel ErrInvalid; err])
  | Ok scheme =>
      if bool_decide (scheme = "https") then None
      else if bool_decide (scheme = "http") then
        (if allowInsecure then None else Some (errInvalid "http:// exposes the access token and every secret it fetches"))
      else Some (errInvalid "scheme is not http or https")
  end.

(** * The reference: sealing a secret *)

(** PKCS#7: between one and sixteen bytes, each holding their number. *)
Fixpoint repeat_byte (n : nat) (c : ascii) : string := match n with O => "" | S n => String c (repeat_byte n c) end.
Definition pad_of (n : nat) : string := repeat_byte n (ascii_of_nat n).
Definition padPKCS7 (p : string) : string := p ++ pad_of (BlockSize - String.length p mod BlockSize).

(** Encrypt, then authenticate what was encrypted. *)
Definition seal (HMAC : string -> string -> string) (CBC_encrypt : string -> string -> string -> string) (buf iv p : string) : string :=
  let data := CBC_encrypt (sk_enc buf) iv (padPKCS7 p) in
  "2." ++ base64_Encode iv ++ "|" ++ base64_Encode data ++ "|" ++ base64_Encode (HMAC (sk_mac buf) (iv ++ data)).

(** ** Padding *)

Lemma length_repeat_byte n c : String.length (repeat_byte n c) = n.
Proof. induction n; simpl; congruence. Qed.

Lemma pad_diff_zero padLen b : forall diff, pad_diff padLen diff b = 0 <->
  diff = 0 /\ forall n c, String.get n b = Some c -> Z.of_nat (nat_of_ascii c) = padLen.
Proof.
  induction b as [|c b IH]; intros diff; cbn [pad_diff].
  - split; [intros ->; by split|tauto].
  - rewrite IH, Z.lor_eq_0_iff, Z.lxor_eq_0_iff. split.
    + intros [[-> Hc] Hb]. split; [done|]. intros [|n] c'; simpl; [congruence|apply Hb].
    + intros [-> Hb]. split_and!; [done|by apply (Hb 0%nat)|]. intros n c' Hc. by apply (Hb (S n)).
Qed.

Lemma get_repeat_byte k c : forall n x, String.get n (repeat_byte k c) = Some x -> x = c.
Proof. induction k as [|k IH]; intros [|n] x; simpl; [done..|congruence|apply IH]. Qed.

Lemma all_same_bytes c s : (forall n x, String.get n s = Some x -> x = c) -> s = repeat_byte (String.length s) c.
Proof.
  induction s as [|a s IH]; intros Hs; [done|]. simpl. rewrite (Hs 0%nat a eq_refl), <- IH; [done|]. intros n. apply (Hs (S n)).
Qed.

Lemma get_app_r s t n : String.get (String.length s + n) (s ++ t) = String.get n t.
Proof. induction s as [|c s IH]; [done|]. apply IH. Qed.

Lemma get_pad_of n : (0 < n)%nat -> String.get (n - 1) (pad_of n) = Some (ascii_of_nat n).
Proof.
  intros Hn. destruct (String.get (n - 1) (pad_of n)) as [c|] eqn:E; [by rewrite (get_repeat_byte _ _ _ _ E)|].
  exfalso. assert (Hg : forall s k, (k < String.length s)%nat -> String.get k s <> None).
  { intros s. induction s as [|a s IH]; simpl; [lia|]. intros [|k] Hk; [done|]. apply IH. lia. }
  apply (Hg (pad_of n) (n - 1)%nat); [|done]. unfold pad_of. rewrite length_repeat_byte. lia.
Qed.

(** A buffer is unpadded exactly when it is a whole number of blocks that ends in one
    to sixteen bytes of their own number, and what is left is what precedes them. *)
Lemma unpadPKCS7_spec b p :
  unpadPKCS7 b = Ok p <-> exists n, (1 <= n <= BlockSize)%nat /\ b = p ++ pad_of n /\ (String.length b mod BlockSize = 0)%nat.
Proof.
  unfold unpadPKCS7. split.
  - destruct (bool_decide _ || negb _) eqn:E1; [done|]. apply orb_false_iff in E1 as [E1 E1'%negb_false_iff%bool_decide_eq_true].
    set (padLen := match String.get _ b with Some c => nat_of_ascii c | None => 0%nat end).
    destruct (_ || _) eqn:E2; [done|]. rewrite !orb_false_iff, bool_decide_eq_false, !Nat.ltb_ge in E2. destruct E2 as [[Hp Hp16] Hpn].
    destruct (negb _) eqn:E3; [done|]. apply negb_false_iff, Z.eqb_eq, pad_diff_zero in E3 as [_ Hall].
    intros [= <-]. exists padLen. split; [lia|]. split; [|done].
    rewrite <- (str_take_drop (String.length b - padLen) b) at 1. f_equal.
    assert (Hlen : String.length (str_drop (String.length b - padLen) b) = padLen).
    { pose proof (str_take_drop (String.length b - padLen) b) as Hb. apply (f_equal String.length) in Hb.
      rewrite str_length_app, length_str_take in Hb. lia. }
    unfold pad_of. rewrite <- Hlen at 2. apply all_same_bytes. intros n x Hx. symmetry. apply ascii_of_nat_eq.
    apply Hall in Hx. lia.
  - intros (n & Hn & -> & Hmod).
    assert (Hlen : String.length (p ++ pad_of n) = (String.length p + n)%nat).
    { rewrite str_length_app. unfold pad_of. by rewrite length_repeat_byte. }
    rewrite Hlen in *. rewrite (bool_decide_eq_false_2 (_ = 0%nat)) by lia. rewrite (bool_decide_eq_true_2 _ Hmod). cbn [negb orb].
    replace (String.length p + n - 1)%nat with (String.length p + (n - 1))%nat by lia.
    rewrite get_app_r, get_pad_of by lia. unfold BlockSize in *.
    cbv zeta. rewrite nat_ascii_embedding by lia. rewrite bool_decide_eq_false_2 by lia.
    replace (16 <? n)%nat with false by (symmetry; apply Nat.ltb_ge; lia).
    replace (String.length p + n <? n)%nat with false by (symmetry; apply Nat.ltb_ge; lia). simpl.
    replace (String.length p + n - n)%nat with (String.length p) by lia.
    rewrite str_drop_app, str_take_app. destruct (Z.eqb_spec (pad_diff (Z.of_nat n) 0 (pad_of n)) 0) as [|Hd]; [done|].
    exfalso. apply Hd, pad_diff_zero. split; [done|]. intros k c Hc. rewrite (get_repeat_byte _ _ _ _ Hc), nat_ascii_embedding; lia.
Qed.

(** * Properties *)

(** What [parseEncString] and [decrypt] make of a ciphertext. *)
Definition bw_unseal (HMAC : string -> string -> string) (CBC_decrypt : string -> string -> string -> string) (k : symKey) (s : string) : res string :=
  parseEncString s ≫= bw_decrypt HMAC CBC_decrypt k.

Lemma Split_three a b c : has_byte "|" a = false -> has_byte "|" b = false -> has_byte "|" c = false ->
  Split (a ++ "|" ++ b ++ "|" ++ c) "|" = [a; b; c].
Proof.
  intros Ha Hb Hc. change ("|" ++ b ++ "|" ++ c) with (String "|" (b ++ String "|" c)).
  by rewrite !Split_app, Split_no_sep.
Qed.

Lemma decodeFixed_encode b n what : String.length b = n -> decodeFixed (base64_Encode b) n what = Ok b.
Proof. intros Hb. unfold decodeFixed. rewrite base64_decode_encode. by rewrite bool_decide_eq_true_2. Qed.

(** What is accepted is of type 2, with a vector, a tag and a whole number of blocks:
    the block cipher never sees a buffer it would panic on. *)
Lemma parseEncString_accepts s c : parseEncString s = Ok c ->
  (exists rest, s = "2." ++ rest) /\ String.length (es_iv c) = ivSize /\ String.length (es_mac c) = macSize
  /\ (0 < String.length (es_data c))%nat /\ (String.length (es_data c) mod BlockSize = 0)%nat.
Proof.
  unfold parseEncString. destruct (Cut s ".") as [[ty rest]|] eqn:Ec; [|done]. apply Cut_Some in Ec as [-> _].
  case_bool_decide as Ht; [subst ty|by repeat case_bool_decide].
  destruct (Split rest "|") as [|p0 [|p1 [|p2 [|]]]]; try done. unfold decodeFixed.
  destruct (base64_DecodeString b64_alphabet p0) as [iv|]; [|done]. case_bool_decide as Hiv; [|done]. simpl.
  destruct (base64_DecodeString b64_alphabet p2) as [mac|]; [|done]. case_bool_decide as Hmac; [|done]. simpl.
  destruct (base64_DecodeString b64_alphabet p1) as [data|]; [|done].
  destruct (bool_decide _ || negb _) eqn:Ed; [done|]. apply orb_false_iff in Ed as [Hz%bool_decide_eq_false Hm%negb_false_iff%bool_decide_eq_true].
  intros [= <-]. simpl. split_and!; try done; [by exists rest|lia].
Qed.

(** A sealed secret opens: whatever the cipher and the authentication code, a
    plaintext of any length that is padded, encrypted, authenticated and encoded
    comes back whole. *)
Theorem sealed_secret_opens HMAC CBC_encrypt CBC_decrypt buf iv p :
  String.length buf = symKeySize -> String.length iv = ivSize ->
  (forall k m, String.length (HMAC k m) = macSize) ->
  (forall k v x, (String.length x mod BlockSize = 0)%nat ->
     CBC_decrypt k v (CBC_encrypt k v x) = x /\ String.length (CBC_encrypt k v x) = String.length x) ->
  bw_unseal HMAC CBC_decrypt (MkSymKey (Some buf)) (seal HMAC CBC_encrypt buf iv p) = Ok p.
Proof.
  intros Hbuf Hiv Hmac Hcbc. unfold bw_unseal, seal, parseEncString.
  set (k := (BlockSize - String.length p mod BlockSize)%nat).
  assert (Hk : (1 <= k <= BlockSize)%nat) by (unfold k, BlockSize; lia).
  assert (Hpad : String.length (padPKCS7 p) = (String.length p + k)%nat).
  { unfold padPKCS7, pad_of. by rewrite str_length_app, length_repeat_byte. }
  assert (Hmod : (String.length (padPKCS7 p) mod BlockSize = 0)%nat) by (rewrite Hpad; unfold k, BlockSize in *; lia).
  destruct (Hcbc (sk_enc buf) iv (padPKCS7 p) Hmod) as [Hdec Hlen].
  set (data := CBC_encrypt _ _ _) in *. change ("2." ++ ?r) with ("2" ++ String "." r). rewrite Cut_app by done.
  rewrite bool_decide_eq_true_2 by done.
  rewrite Split_three by apply base64_Encode_clean.
  rewrite decodeFixed_encode by done. simpl. rewrite decodeFixed_encode by done. simpl. rewrite base64_decode_encode.
  rewrite Hlen. rewrite (bool_decide_eq_false_2 (_ = 0%nat)) by lia. rewrite (bool_decide_eq_true_2 _ Hmod). simpl.
  unfold bw_decrypt. simpl. rewrite bool_decide_eq_true_2 by done. simpl.
  rewrite bool_decide_eq_true_2 by (unfold sk_enc; rewrite length_str_take, Hbuf; done). simpl. rewrite Hdec.
  apply unpadPKCS7_spec. by exists k.
Qed.

(** C31. Nothing unauthenticated is decrypted. A ciphertext whose tag is not that of
    its vector and data under the key is refused with an answer in which the cipher
    has no part, so nothing about the padding can be learned from it; and a
    ciphertext that opens is of the authenticated type, carries the right tag, and
    gives what the cipher gives less a valid padding. *)
Theorem only_authentic_ciphertexts_open HMAC CBC_decrypt CBC_decrypt' buf s :
  match parseEncString s with
  | Err err => bw_unseal HMAC CBC_decrypt (MkSymKey (Some buf)) s = Err err
  | Ok c =>
      let tag := HMAC (sk_mac buf) (es_iv c ++ es_data c) in
      (tag <> es_mac c -> exists err, errors_Is err ErrInvalid = true
         /\ bw_unseal HMAC CBC_decrypt (MkSymKey (Some buf)) s = Err err
         /\ bw_unseal HMAC CBC_decrypt' (MkSymKey (Some buf)) s = Err err)
      /\ (forall p, bw_unseal HMAC CBC_decrypt (MkSymKey (Some buf)) s = Ok p ->
            (exists rest, s = "2." ++ rest) /\ tag = es_mac c
            /\ exists n, (1 <= n <= BlockSize)%nat /\ CBC_decrypt (sk_enc buf) (es_iv c) (es_data c) = p ++ pad_of n)
  end.
Proof.
  unfold bw_unseal. destruct (parseEncString s) as [c|err] eqn:Ep; [|done]. cbn [mbind res_bind]. unfold bw_decrypt. cbn [sk_buf].
  split.
  - intros Ht. rewrite bool_decide_eq_false_2 by exact Ht.
    by exists (errInvalid "ciphertext failed its HMAC-SHA256 integrity check").
  - intros p. case_bool_decide as Ht; [|done]. simpl. case_bool_decide; [|done]. simpl.
    intros (n & Hn & Hb & _)%unpadPKCS7_spec. destruct (parseEncString_accepts _ _ Ep) as [Hr _]. split; [done|]. split; [done|].
    exists n. by split.
Qed.

(** A ref that does not name one secret is refused before anything is asked, and never
    as an absence, which would let a default stand in for a mistyped ref. *)
Theorem malformed_ref_is_not_absent {W} `{Env W} HMAC CBC ex ep ij cj sj session_of (set_session : session -> W -> W) ok leeway tok
    (identity : core_Client W) json p ref w err :
  bp_err p = None -> bp_closed p = false -> secretID ref = Err err ->
  bw_Resolve HMAC CBC ex ep ij cj sj session_of set_session ok leeway tok identity json p ref w = (w, Err err)
  /\ errors_Is err ErrInvalid = true /\ errors_Is err ErrNotFound = false.
Proof.
  intros He Hc Hs. unfold bw_Resolve. rewrite He, Hc, Hs. split; [done|]. revert Hs. unfold secretID.
  repeat case_match; intros Hs; try done; by injection Hs as <-.
Qed.

(** The Authorization header and the key: a session that has a live pair hands out
    that pair and asks nothing. *)
Lemma live_session_asks_nothing {W} `{Env W} HMAC CBC ex ep ij cj session_of (set_session : session -> W -> W) ok leeway accessTok
    (identity : core_Client W) w tok :
  live leeway (now w) (session_of w) = Some tok ->
  bw_ensure HMAC CBC ex ep ij cj session_of set_session ok leeway accessTok identity w = (w, Ok tok).
Proof. intros Hl. unfold bw_ensure. by rewrite Hl. Qed.

(** * Witnesses *)

(** A toy authentication code and cipher that satisfy the hypotheses. *)
Definition toy_mac (k m : string) : string := repeat_byte macSize (ascii_of_nat (String.length m mod 7)).
Definition toy_key : string := repeat_byte symKeySize "k".

Lemma sealed_secret_opens_witness :
  bw_unseal toy_mac (fun _ _ x => x) (MkSymKey (Some toy_key)) (seal toy_mac (fun _ _ x => x) toy_key (repeat_byte ivSize "i") "hunter2") = Ok "hunter2".
Proof.
  apply sealed_secret_opens; [done|done|intros k m; apply length_repeat_byte|done].
Defined.

Lemma malformed_ref_is_not_absent_witness :
  errors_Is (errInvalid "ref does not name a UUID") ErrNotFound = false.
Proof.
  pose (E := {| now := fun _ : unit => 0; observe := fun _ w => w; now_observe := fun _ _ => eq_refl |}).
  exact (proj2 (proj2 (@malformed_ref_is_not_absent unit E (fun k m => m) (fun _ _ x => x) (fun s _ => Ok s) (fun s _ _ => Ok s)
    (fun _ => None) (fun _ => None) (fun _ => None) (fun _ => MkTokens None 0 None) (fun _ w => w) (fun _ => true) 30 (fun _ => "")
    (echo 200 "") {| Unmarshal_object _ := None; Unmarshal_array _ := None; Unmarshal_string _ := None |}
    (MkBitwarden (echo 200 "") None false) (MkRef "bitwarden-sm" "db/" "" ∅ "") tt _ eq_refl eq_refl eq_refl))).
Defined.
