(* ===== verification/Sql.v ===== *)
(** The SQL providers (src/providers/postgres, src/providers/mysql,
    src/providers/sqlite): the allowlist behind every identifier that is written into
    a statement, the statements, their rows, and the watches of two of them. The
    drivers are parameters: what a statement with its bound key answers, and what an
    error of theirs is. *)

From S2P Require Import Prelude Errors GoStrings Ref Provider Decode GoNumbers GoPath Pointer FileWatch Backends.
Open Scope string_scope.
Open Scope Z_scope.

(** * Identifiers *)

(** [identRe], the same in the three packages: a letter or an underscore, then letters,
    digits and underscores, from end to end. *)
Definition ident_start (c : ascii) : bool := is_letter c || ascii_eqb c "_".
Definition ident_byte (c : ascii) : bool := ident_start c || is_digit c.
Fixpoint bytes_all (P : ascii -> bool) (s : string) : bool :=
  match s with EmptyString => true | String c s => P c && bytes_all P s end.

(** [func validIdent(s string) bool]. *)
Definition validIdent (s : string) : bool :=
  match s with EmptyString => false | String c s => ident_start c && bytes_all ident_byte s end.

(** What a query answers: the value column, and the version column where the statement
    has one. *)
Definition rows : Type := string -> string -> res (string * string).

Module Postgres.
(** [func validTable(s string) bool]. *)
Definition validTable (s : string) : bool :=
  match Cut s "." with
  | None => validIdent s
  | Some (schema, table) => if has_byte "." table then false else validIdent schema && validIdent table
  end.

(** [type Provider struct]; a backend is a number, the pool the provider built itself
    the one it owns. *)
Record Provider := MkProvider {
  pg_dsn : string;
  pg_keyCol : string;
  pg_valCol : string;
  pg_versionCol : string;
  pg_channel : string;
  pg_sensitive : bool;
  pg_be : option nat;
  pg_ownPool : option nat;
  pg_closed : bool;
}.

(** The options that [New] takes, and [New]. *)
Inductive Option_ := WithDSN (s : string) | WithPool (be : nat) | WithKeyColumn (s : string) | WithValueColumn (s : string)
  | WithVersionColumn (s : string) | WithChannel (s : string) | WithSensitive (b : bool).
Definition apply_option (p : Provider) (o : Option_) : Provider :=
  let '(MkProvider dsn k v ver ch sens be own closed) := p in
  match o with
  | WithDSN s => MkProvider s k v ver ch sens be own closed
  | WithPool b => MkProvider dsn k v ver ch sens (Some b) own closed
  | WithKeyColumn s => MkProvider dsn s v ver ch sens be own closed
  | WithValueColumn s => MkProvider dsn k s ver ch sens be own closed
  | WithVersionColumn s => MkProvider dsn k v s ch sens be own closed
  | WithChannel s => MkProvider dsn k v ver s sens be own closed
  | WithSensitive b => MkProvider dsn k v ver ch b be own closed
  end.
Definition New (opts : list Option_) : Provider :=
  let '(MkProvider dsn k v ver ch sens be own closed) :=
    foldl apply_option (MkProvider "" "key" "value" "" "mamori_config" false None None false) opts in
  MkProvider dsn (default_to "key" k) (default_to "value" v) ver (default_to "mamori_config" ch) sens be own closed.

(** [func (p *Provider) backendFor(ctx)]; [connect] is [pgxpool.New]. *)
Definition backendFor (DATABASE_URL : string) (connect : string -> res nat) (p : Provider) : Provider * res nat :=
  if pg_closed p then (p, Err (EWrap "postgres: provider is closed" [ESentinel ErrUnavailable]))
  else
    match pg_be p with
    | Some be => (p, Ok be)
    | None =>
        let dsn := default_to DATABASE_URL (pg_dsn p) in
        if bool_decide (dsn = "") then (p, Err (EOpaque "postgres: no DSN configured"))
        else
          match connect dsn with
          | Err err => (p, Err (EWrap "postgres: connect" [err]))
          | Ok be =>
              (MkProvider (pg_dsn p) (pg_keyCol p) (pg_valCol p) (pg_versionCol p) (pg_channel p) (pg_sensitive p) (Some be) (Some be) false,
               Ok be)
          end
    end.

(** [func (p *Provider) Close() error]: the pool it closes, when it is its own. *)
Definition Close (p : Provider) : Provider * option nat :=
  (MkProvider (pg_dsn p) (pg_keyCol p) (pg_valCol p) (pg_versionCol p) (pg_channel p) (pg_sensitive p) None None true, pg_ownPool p).

Definition errUnsafeIdentifier (what : string) : error := EWrap ("postgres: " ++ what) [EOpaque "unsafe SQL identifier rejected"].

(** [func (p *Provider) plan(ref) (sql, keyval string, err error)]. *)
Definition plan (p : Provider) (ref : Ref) : res (string * string) :=
  match Cut (ref_Path ref) "/" with
  | None => Err (EOpaque "postgres: ref must be postgres://<table>/<key>")
  | Some (table, keyval) =>
      if bool_decide (table = "") || bool_decide (keyval = "") then Err (EOpaque "postgres: ref must be postgres://<table>/<key>")
      else
        let keyCol := default_to (pg_keyCol p) (Ref_Opt ref "key_col") in
        let valCol := default_to (pg_valCol p) (Ref_Opt ref "val_col") in
        if negb (validTable table) then Err (errUnsafeIdentifier "table")
        else if negb (validIdent keyCol) then Err (errUnsafeIdentifier "key_col")
        else if negb (validIdent valCol) then Err (errUnsafeIdentifier "val_col")
        else if negb (bool_decide (pg_versionCol p = "")) && negb (validIdent (pg_versionCol p)) then Err (errUnsafeIdentifier "version column")
        else
          Ok (if negb (bool_decide (pg_versionCol p = ""))
              then "SELECT " ++ valCol ++ ", " ++ pg_versionCol p ++ "::text FROM " ++ table ++ " WHERE " ++ keyCol ++ " = $1"
              else "SELECT " ++ valCol ++ " FROM " ++ table ++ " WHERE " ++ keyCol ++ " = $1", keyval)
  end.

Section queries.
(** [errors.As] for a [*pgconn.PgError]: its SQLSTATE; [errors.Is(err, pgx.ErrNoRows)]. *)
Context `{JSON} (as_PgError : error -> option string) (is_no_rows : error -> bool).

(** [func classifyPostgres(err error) error]. *)
Definition classifyPostgres (err : error) : error :=
  match as_PgError err with
  | None => err
  | Some code =>
      if bool_decide (code = "42501") then with_kind ErrPermissionDenied err
      else if bool_decide (code ∈ ["28P01"; "28000"]) then with_kind ErrUnauthenticated err
      else if bool_decide (code ∈ ["53300"; "57P03"; "08006"; "08001"; "08004"]) then with_kind ErrUnavailable err
      else err
  end.

(** [func mapScanErr(keyval, err) error]. *)
Definition mapScanErr (keyval : string) (err : error) : error :=
  if is_no_rows err then EWrap ("postgres: key " ++ keyval ++ " not found") [ESentinel ErrNotFound]
  else EWrap ("postgres: query key " ++ keyval) [classifyPostgres err].

(** [func (p *Provider) resolveWith(ctx, be, sql, keyval, ref)]. *)
Definition resolveWith (p : Provider) (query : rows) (sql keyval : string) (ref : Ref) : res Value :=
  match query sql keyval with
  | Err err => Err (mapScanErr keyval err)
  | Ok (raw, ver) =>
      let ver := if negb (bool_decide (pg_versionCol p = "")) then ver else VersionHash raw in
      b ← select_part raw ref; Ok (MkValue b ver (pg_sensitive p) 0 ∅)
  end.

(** [func (p *Provider) Resolve(ctx, ref)]. *)
Definition Resolve (DATABASE_URL : string) (connect : string -> res nat) (query : nat -> rows) (canceled : option error)
    (p : Provider) (ref : Ref) : Provider * res Value :=
  match canceled, plan p ref with
  | Some err, _ | None, Err err => (p, Err err)
  | None, Ok (sql, keyval) =>
      let '(p, be) := backendFor DATABASE_URL connect p in
      (p, be ← be; resolveWith p (query be) sql keyval ref)
  end.

(** What the goroutine of [Watch] does: an update from a query, the error of a wait,
    and the pause after it. *)
Inductive action := ActUpdate (r : res Value) | ActError (err : error) | ActPause (d : Z).
Definition watchErrBackoff : Z := 500 * Millisecond.

(** One turn: what [sub.Wait] returned, and what the query answers when it is made. *)
Definition watch_turn (p : Provider) (sql keyval : string) (ref : Ref) (ev : option error * rows) : list action :=
  match ev.1 with
  | Some werr => [ActError (EWrap ("postgres: watch " ++ ref_Path ref) [werr]); ActPause watchErrBackoff]
  | None => [ActUpdate (resolveWith p ev.2 sql keyval ref)]
  end.

(** [func (p *Provider) Watch(ctx, ref)]: its checks, the subscription, which is made
    before the baseline is read, and the turns before the cancellation. *)
Definition Watch (DATABASE_URL : string) (connect : string -> res nat) (listen : nat -> string -> option error)
    (p : Provider) (ref : Ref) (first : rows) (evs : list (option error * rows)) : Provider * res (list action) :=
  match plan p ref with
  | Err err => (p, Err err)
  | Ok (sql, keyval) =>
      if negb (validIdent (pg_channel p)) then (p, Err (errUnsafeIdentifier "channel"))
      else
        let '(p, be) := backendFor DATABASE_URL connect p in
        (p, be ← be;
            match listen be (pg_channel p) with
            | Some err => Err (EWrap ("postgres: listen " ++ pg_channel p) [err])
            | None => Ok (ActUpdate (resolveWith p first sql keyval ref) :: flat_map (watch_turn p sql keyval ref) evs)
            end)
  end.
End queries.
End Postgres.

Module Mysql.
(** [type Provider struct]: the pool behind [q] is a number; [opened] and [openErr]
    remember one attempt to open it. *)
Record Provider := MkProvider {
  my_dsn : string;
  my_versionCol : string;
  my_sensitive : bool;
  my_q : option nat;
  my_ownDB : bool;
  my_opened : bool;
  my_openErr : error;
  my_closed : bool;
}.
Definition set_open (q : option nat) (err : error) (p : Provider) : Provider :=
  MkProvider (my_dsn p) (my_versionCol p) (my_sensitive p) q (if q then true else my_ownDB p) true err (my_closed p).

(** The options that [New] takes, and [New]; a nil pool is ignored. *)
Inductive Option_ := WithDSN (s : string) | WithDB (db : option nat) | WithVersionColumn (s : string) | WithSensitive (b : bool).
Definition apply_option (p : Provider) (o : Option_) : Provider :=
  let '(MkProvider dsn ver sens q own opened err closed) := p in
  match o with
  | WithDSN s => MkProvider s ver sens q own opened err closed
  | WithDB (Some db) => MkProvider dsn ver sens (Some db) own opened err closed
  | WithDB None => p
  | WithVersionColumn s => MkProvider dsn s sens q own opened err closed
  | WithSensitive b => MkProvider dsn ver b q own opened err closed
  end.
Definition New (opts : list Option_) : Provider := foldl apply_option (MkProvider "" "" false None false false (EOpaque "") false) opts.

(** [func splitPath(path string) (table, key string, err error)]. *)
Definition splitPath (path : string) : res (string * string) :=
  let path := TrimPrefix path "/" in
  match Cut path "/" with
  | Some (table, key) =>
      if bool_decide (table = "") || bool_decide (key = "") then Err (EOpaque "path must be <table>/<key>") else Ok (table, key)
  | None => Err (EOpaque "path must be <table>/<key>")
  end.

(** [func quoteIdent(kind, ident string) (string, error)]. *)
Definition quoteIdent (kind ident : string) : res string :=
  if negb (validIdent ident) then Err (EOpaque ("mamori/mysql: invalid " ++ kind)) else Ok ("`" ++ ident ++ "`").

(** [func (p *Provider) resolveDSN() string]. *)
Definition resolveDSN (DATABASE_URL MYSQL_DSN : string) (p : Provider) : string :=
  default_to (default_to MYSQL_DSN DATABASE_URL) (my_dsn p).

(** [func (p *Provider) getQueryer() (queryer, error)]; [parse] is [ParseDSN], [connect]
    is [sql.Open]. *)
Definition getQueryer (DATABASE_URL MYSQL_DSN : string) (parse : string -> option error) (connect : string -> res nat) (p : Provider)
    : Provider * res nat :=
  if my_closed p then (p, Err (EWrap "mamori/mysql: provider is closed" [ESentinel ErrUnavailable]))
  else
    match my_q p with
    | Some q => (p, Ok q)
    | None =>
        if my_opened p then (p, Err (my_openErr p))
        else
          let dsn := resolveDSN DATABASE_URL MYSQL_DSN p in
          let fail err := (set_open None err p, Err err) in
          if bool_decide (dsn = "") then fail (EOpaque "mamori/mysql: no DSN configured")
          else
            match parse dsn with
            | Some err => fail (EWrap "mamori/mysql: invalid DSN" [err])
            | None =>
                match connect dsn with
                | Err err => fail (EWrap "mamori/mysql: opening database" [err])
                | Ok q => (set_open (Some q) (my_openErr p) p, Ok q)
                end
            end
    end.

(** [func (p *Provider) Close() error]: the pool it closes, when it opened it. *)
Definition Close (p : Provider) : Provider * option nat :=
  if my_closed p then (p, None)
  else
    (MkProvider (my_dsn p) (my_versionCol p) (my_sensitive p) (my_q p) (my_ownDB p) (my_opened p) (my_openErr p) true,
     if my_ownDB p then my_q p else None).

(** The statement of [Resolve], with the table and the key it is about. *)
Definition statement (p : Provider) (ref : Ref) : res (string * string * string) :=
  match splitPath (ref_Path ref) with
  | Err err => Err (EWrap "mamori/mysql: ref" [err])
  | Ok (table, key) =>
      tableQ ← quoteIdent "table name" table;
      keyColQ ← quoteIdent "key_col" (default_to "key" (Ref_Opt ref "key_col"));
      valColQ ← quoteIdent "val_col" (default_to "value" (Ref_Opt ref "val_col"));
      verColQ ← (if bool_decide (my_versionCol p = "") then Ok "" else quoteIdent "version column" (my_versionCol p));
      let cols := if bool_decide (verColQ = "") then valColQ else valColQ ++ ", " ++ verColQ in
      Ok ("SELECT " ++ cols ++ " FROM " ++ tableQ ++ " WHERE " ++ keyColQ ++ " = ?", table, key)
  end.

Section queries.
(** [errors.As] for a [*mysqldriver.MySQLError]: its number; [errors.Is(err, sql.ErrNoRows)]. *)
Context `{JSON} (as_MySQLError : error -> option Z) (is_no_rows : error -> bool).

(** [func classifyMySQL(err error) error]. *)
Definition classifyMySQL (err : error) : error :=
  match as_MySQLError err with
  | None => err
  | Some n =>
      if bool_decide (n ∈ [1044; 1142]) then with_kind ErrPermissionDenied err
      else if n =? 1045 then with_kind ErrUnauthenticated err
      else if bool_decide (n ∈ [1040; 1203]) then with_kind ErrUnavailable err
      else err
  end.

(** What [Resolve] makes of the row. *)
Definition read_row (p : Provider) (table key : string) (ref : Ref) (r : res (string * string)) : res Value :=
  match r with
  | Err err =>
      if is_no_rows err then Err (EWrap ("mamori/mysql: key " ++ key ++ " not found in table " ++ table) [ESentinel ErrNotFound])
      else Err (EWrap ("mamori/mysql: querying table " ++ table) [classifyMySQL err])
  | Ok (value, version) =>
      out ← select_part value ref;
      Ok (MkValue out (if bool_decide (version = "") then VersionHash value else version) (my_sensitive p) 0
            (<["table" := table]> (<["key" := key]> ∅)))
  end.

(** [func (p *Provider) Resolve(ctx, ref)]. *)
Definition Resolve (DATABASE_URL MYSQL_DSN : string) (parse : string -> option error) (connect : string -> res nat) (query : nat -> rows)
    (p : Provider) (ref : Ref) : Provider * res Value :=
  match statement p ref with
  | Err err => (p, Err err)
  | Ok (stmt, table, key) =>
      let '(p, q) := getQueryer DATABASE_URL MYSQL_DSN parse connect p in
      (p, q ← q; read_row p table key ref (query q stmt key))
  end.
End queries.
End Mysql.

Module Sqlite.
(** [type Provider struct] and its options. *)
Record Provider := MkProvider {
  sq_path : string;
  sq_dataSource : string;
  sq_versionCol : string;
  sq_sensitive : bool;
  sq_debounce : Z;
  sq_closed : bool;
}.
Definition defaultDebounce : Z := 150 * Millisecond.
Inductive Option_ := WithPath (s : string) | WithDSN (s : string) | WithVersionColumn (s : string) | WithSensitive (b : bool) | WithDebounce (d : Z).
Definition apply_option (p : Provider) (o : Option_) : Provider :=
  let '(MkProvider path dsn ver sens d closed) := p in
  match o with
  | WithPath s => MkProvider s dsn ver sens d closed
  | WithDSN s => MkProvider path s ver sens d closed
  | WithVersionColumn s => MkProvider path dsn s sens d closed
  | WithSensitive b => MkProvider path dsn ver b d closed
  | WithDebounce n => MkProvider path dsn ver sens n closed
  end.
(** [func New(opts ...Option) *Provider]. *)
Definition New (opts : list Option_) : Provider := foldl apply_option (MkProvider "" "" "" false defaultDebounce false) opts.

(** [func (p *Provider) filePath() string] and [dsn()]. *)
Definition filePath (SQLITE_PATH : string) (p : Provider) : string := default_to SQLITE_PATH (sq_path p).
Definition dsn (SQLITE_PATH : string) (p : Provider) : res string :=
  if negb (bool_decide (sq_dataSource p = "")) then Ok (sq_dataSource p)
  else
    let path := filePath SQLITE_PATH p in
    if bool_decide (path = "") then Err (EOpaque "sqlite: no database configured")
    else Ok ("file:" ++ path ++ "?_pragma=busy_timeout(5000)").

(** [func (p *Provider) Close() error]. *)
Definition Close (p : Provider) : Provider :=
  MkProvider (sq_path p) (sq_dataSource p) (sq_versionCol p) (sq_sensitive p) (sq_debounce p) true.

(** A scanned column, by its storage class; a real and a time come with the text the
    standard library formats them to. *)
Inductive column := Null | Blob (b : string) | Text (s : string) | Integer (n : Z) | Real (formatted : string) | Bool (b : bool) | Time (formatted : string).

(** [func toBytes(v any) []byte]. *)
Definition toBytes (v : column) : string :=
  match v with
  | Null => ""
  | Blob s | Text s | Real s | Time s => s
  | Integer n => FormatInt n
  | Bool b => if b then "1" else "0"
  end.

(** The statement of [query], with the table and the key it is about. The three names
    are checked in the order of a map; which of several bad ones is named in the error
    is not told apart. *)
Definition statement (p : Provider) (ref : Ref) : res (string * string * string) :=
  match Cut (ref_Path ref) "/" with
  | None => Err (EOpaque "sqlite: path must be <table>/<key>")
  | Some (table, key) =>
      if bool_decide (table = "") || bool_decide (key = "") then Err (EOpaque "sqlite: path must be <table>/<key>")
      else
        let keyCol := default_to "key" (Ref_Opt ref "key_col") in
        let valCol := default_to "value" (Ref_Opt ref "val_col") in
        if negb (validIdent table && validIdent keyCol && validIdent valCol) then Err (EOpaque "sqlite: invalid identifier")
        else if negb (bool_decide (sq_versionCol p = "")) && negb (validIdent (sq_versionCol p)) then Err (EOpaque "sqlite: invalid version column identifier")
        else
          let cols := if bool_decide (sq_versionCol p = "") then valCol else valCol ++ ", " ++ sq_versionCol p in
          Ok ("SELECT " ++ cols ++ " FROM " ++ table ++ " WHERE " ++ keyCol ++ " = ? LIMIT 1", table, key)
  end.

Section queries.
(** [errors.As] for a [*msqlite.Error]: its code; [errors.Is(err, sql.ErrNoRows)]. *)
Context `{JSON} (as_sqlite_Error : error -> option Z) (is_no_rows : error -> bool).

(** [func classifySqlite(err error) error]. *)
Definition classifySqlite (err : error) : error :=
  match as_sqlite_Error err with
  | None => err
  | Some n =>
      if bool_decide (n ∈ [3; 8]) then with_kind ErrPermissionDenied err
      else if bool_decide (n ∈ [5; 6; 14]) then with_kind ErrUnavailable err
      else if n =? 23 then with_kind ErrUnauthenticated err
      else err
  end.

(** [func (p *Provider) scanErr(table, key, err) error]. *)
Definition scanErr (table key : string) (err : error) : error :=
  if is_no_rows err then EWrap ("sqlite: " ++ table ++ "/" ++ key) [ESentinel ErrNotFound]
  else EWrap ("sqlite: query " ++ table) [classifySqlite err].

(** [func (p *Provider) query(ctx, qu, ref)]. *)
Definition query (p : Provider) (qu : string -> string -> res (column * column)) (ref : Ref) : res Value :=
  match statement p ref with
  | Err err => Err err
  | Ok (stmt, table, key) =>
      match qu stmt key with
      | Err err => Err (scanErr table key err)
      | Ok (rawVal, rawVer) =>
          let valBytes := toBytes rawVal in
          let version := if bool_decide (sq_versionCol p = "") then VersionHash valBytes else toBytes rawVer in
          out ← select_part valBytes ref; Ok (MkValue out version (sq_sensitive p) 0 ∅)
      end
  end.

(** [func (p *Provider) Resolve(ctx, ref)]; [connect] is [sql.Open], which connects to
    nothing yet. *)
Definition Resolve (SQLITE_PATH : string) (connect : string -> option error) (qu : string -> string -> string -> res (column * column))
    (canceled : option error) (p : Provider) (ref : Ref) : res Value :=
  if sq_closed p then Err (EWrap "sqlite: provider is closed" [ESentinel ErrUnavailable])
  else
    match canceled with
    | Some err => Err err
    | None =>
        d ← dsn SQLITE_PATH p;
        match connect d with
        | Some err => Err (EWrap "sqlite: open" [err])
        | None => query p (qu d) ref
        end
    end.
End queries.

(** [func relevant(name, target string) bool]. *)
Definition relevant (name target : string) : bool :=
  let n := Clean name in bool_decide (n = target) || HasPrefix n (target ++ "-").

(** A turn of the goroutine of [Watch]: the deadline of its timer, [None] when it is
    not armed, and the update it sends. *)
Definition watch_step {W} `{Env W} (p : Provider) (target : string) (resolve : W -> res Value) (timer : option Z) (ev : fs_event) (w : W)
    : option (option Z * option Update) :=
  let debounce := if sq_debounce p <=? 0 then defaultDebounce else sq_debounce p in
  match ev with
  | FsEvent name t => Some (if relevant name target then Some (t + debounce) else timer, None)
  | FsTimer =>
      match timer with
      | Some d => if d <=? now w then Some (None, Some (file_update resolve w)) else None
      | None => None
      end
  | FsError err => Some (timer, Some (MkUpdate zero_Value (Some err)))
  end.

(** [func (p *Provider) Watch(ctx, ref)] up to its goroutine: the file it watches and
    the baseline. *)
Definition Watch {W} `{Env W} (SQLITE_PATH : string) (newWatcher addDir : option error) (p : Provider) (resolve : W -> res Value) (w : W)
    : res (string * Update) :=
  if sq_closed p then Err (EWrap "sqlite: provider is closed" [ESentinel ErrUnavailable])
  else
    let path := filePath SQLITE_PATH p in
    if bool_decide (path = "") then Err (EOpaque "sqlite: cannot watch without a file path")
    else
      match newWatcher, addDir with
      | Some err, _ | None, Some err => Err err
      | None, None => Ok (Clean path, file_update resolve w)
      end.
End Sqlite.

(** * No statement but the planned one *)

(** The bytes a statement may hold: no quote, no semicolon, no parenthesis, no comment
    mark, no backslash. *)
Definition statement_byte (c : ascii) : bool :=
  ident_byte c || existsb (ascii_eqb c) [" "; ","; "."; ":"; "="; "$"; "?"; "`"]%char.
Definition plain_statement (s : string) : bool := bytes_all statement_byte s.

Lemma bytes_all_app P s t : bytes_all P (s ++ t) = bytes_all P s && bytes_all P t.
Proof. induction s as [|c s IH]; [done|]. rewrite str_app_cons. simpl. by rewrite IH, andb_assoc. Qed.

Lemma bytes_all_weaken (P Q : ascii -> bool) s : (forall c, P c = true -> Q c = true) -> bytes_all P s = true -> bytes_all Q s = true.
Proof. intros HPQ. induction s as [|c s IH]; [done|]. simpl. rewrite !andb_true_iff. naive_solver. Qed.

Lemma validIdent_plain s : validIdent s = true -> plain_statement s = true.
Proof.
  destruct s as [|c s]; [done|]. simpl. intros [Hc Hs]%andb_true_iff. unfold plain_statement. simpl. apply andb_true_iff. split.
  - unfold statement_byte, ident_byte. by rewrite Hc.
  - revert Hs. apply bytes_all_weaken. intros x Hx. unfold statement_byte. by rewrite Hx.
Qed.

Lemma validTable_plain s : Postgres.validTable s = true -> plain_statement s = true.
Proof.
  unfold Postgres.validTable. destruct (Cut s ".") as [[schema table]|] eqn:E; [|apply validIdent_plain].
  apply Cut_Some in E as [-> _]. destruct (has_byte "." table); [done|]. intros [H1 H2]%andb_true_iff.
  apply validIdent_plain in H1, H2. unfold plain_statement in *. rewrite bytes_all_app, H1. exact H2.
Qed.

Lemma Cut_slash table key : has_byte "/" table = false -> Cut (table ++ "/" ++ key) "/" = Some (table, key).
Proof. apply Cut_app. Qed.

Definition with_path (ref : Ref) (path : string) : Ref := MkRef (ref_Scheme ref) path (ref_Key ref) (ref_Opts ref) (ref_Raw ref).

Lemma quoteIdent_Ok kind s q : Mysql.quoteIdent kind s = Ok q -> validIdent s = true /\ q = "`" ++ s ++ "`".
Proof. unfold Mysql.quoteIdent. destruct (validIdent s); simpl; [|done]. by intros [= <-]. Qed.

(** A statement is its words, each plain. *)
Ltac plain_words := unfold plain_statement in *; rewrite ?bytes_all_app;
  repeat match goal with H : bytes_all statement_byte _ = true |- _ => rewrite H end; reflexivity.

(** C32. What is asked of a database is only ever the statement the provider means: a
    statement is made of letters, digits, underscores, spaces and the marks of its
    template, with no quote, semicolon, parenthesis or comment, whatever the ref and
    the options say; and the key is not part of it, since the same statement is asked
    for every other key, which travels beside it. *)
Theorem keys_are_never_in_the_statement ref sql table key :
  (forall p, Postgres.plan p ref = Ok (sql, key) -> plain_statement sql = true
     /\ exists table, forall key', key' <> "" -> Postgres.plan p (with_path ref (table ++ "/" ++ key')) = Ok (sql, key'))
  /\ (forall p, Mysql.statement p ref = Ok (sql, table, key) -> plain_statement sql = true
     /\ forall key', key' <> "" -> Mysql.statement p (with_path ref (table ++ "/" ++ key')) = Ok (sql, table, key'))
  /\ (forall p, Sqlite.statement p ref = Ok (sql, table, key) -> plain_statement sql = true
     /\ forall key', key' <> "" -> Sqlite.statement p (with_path ref (table ++ "/" ++ key')) = Ok (sql, table, key')).
Proof.
  split_and!; intros p.
  - unfold Postgres.plan. destruct (Cut (ref_Path ref) "/") as [[t k]|] eqn:Ec; [|done]. apply Cut_Some in Ec as [_ Ht].
    destruct (bool_decide (t = "") || _) eqn:E0; [done|]. apply orb_false_iff in E0 as [E0 _].
    destruct (Postgres.validTable t) eqn:E1; [|done]. destruct (validIdent (default_to (Postgres.pg_keyCol p) _)) eqn:E2; [|done].
    destruct (validIdent (default_to (Postgres.pg_valCol p) _)) eqn:E3; [|done]. simpl.
    destruct (_ && _) eqn:E4; [done|]. intros [= <- <-]. split.
    + apply validTable_plain in E1. apply validIdent_plain in E2, E3.
      case_bool_decide as Hv; simpl; [plain_words|]. simpl in E4. apply negb_false_iff, validIdent_plain in E4. plain_words.
    + exists t. intros key' Hk. simpl. rewrite (Cut_slash t key' Ht), E0, (bool_decide_eq_false_2 _ Hk). simpl.
      unfold Ref_Opt in *. simpl. by rewrite ?E1, ?E2, ?E3, ?E4.
  - unfold Mysql.statement. destruct (Mysql.splitPath (ref_Path ref)) as [[t k]|] eqn:Es; [|done]. simpl.
    destruct (Mysql.quoteIdent "table name" t) as [tq|] eqn:E1; [|done]. simpl.
    destruct (Mysql.quoteIdent "key_col" _) as [kq|] eqn:E2; [|done]. simpl.
    destruct (Mysql.quoteIdent "val_col" _) as [vq|] eqn:E3; [|done]. simpl.
    destruct (if bool_decide (Mysql.my_versionCol p = "") then Ok "" else _) as [rq|] eqn:E4; [|done]. simpl.
    intros [= <- <- <-]. split.
    + apply quoteIdent_Ok in E1 as [E1%validIdent_plain ->], E2 as [E2%validIdent_plain ->], E3 as [E3%validIdent_plain ->].
      destruct (bool_decide (rq = "")) eqn:Hr; [plain_words|].
      destruct (bool_decide (Mysql.my_versionCol p = "")) eqn:Hv; [by simplify_eq|]. apply quoteIdent_Ok in E4 as [E4%validIdent_plain ->]. plain_words.
    + intros key' Hk.
      assert (Hs : Mysql.splitPath (t ++ "/" ++ key') = Ok (t, key')).
      { apply quoteIdent_Ok in E1 as [Hi _]. revert Es. unfold Mysql.splitPath.
        destruct (Cut (TrimPrefix (ref_Path ref) "/") "/") as [[t0 k0]|] eqn:Ec; [|done]. apply Cut_Some in Ec as [_ Ht].
        destruct (bool_decide (t0 = "") || _) eqn:E0; [done|]. intros [= <- <-]. apply orb_false_iff in E0 as [E0 _].
        assert (Hp : TrimPrefix (t0 ++ "/" ++ key') "/" = t0 ++ "/" ++ key').
        { destruct t0 as [|c t0]; [done|]. unfold TrimPrefix. rewrite str_app_cons. simpl in Ht |- *.
          apply orb_false_iff in Ht as [Hc _]. rewrite (ascii_eqb_ne "/" c); [done|]. intros <-. by rewrite ascii_eqb_refl in Hc. }
        rewrite Hp, (Cut_slash t0 key' Ht), E0, (bool_decide_eq_false_2 _ Hk). done. }
      simpl. rewrite Hs. unfold Ref_Opt in *. simpl. rewrite E1. simpl. rewrite E2. simpl. rewrite E3. simpl. by rewrite ?E4.
  - unfold Sqlite.statement. destruct (Cut (ref_Path ref) "/") as [[t k]|] eqn:Ec; [|done]. apply Cut_Some in Ec as [_ Ht].
    destruct (bool_decide (t = "") || _) eqn:E0; [done|]. apply orb_false_iff in E0 as [E0 _].
    destruct (validIdent t && _ && _) eqn:E1; [|done]. simpl.
    destruct (negb (bool_decide _) && negb _) eqn:E4; [done|]. intros [= <- <- <-]. split.
    + rewrite !andb_true_iff in E1. destruct E1 as [[E1%validIdent_plain E2%validIdent_plain] E3%validIdent_plain].
      case_bool_decide as Hv; [plain_words|]. simpl in E4. apply negb_false_iff, validIdent_plain in E4. plain_words.
    + intros key' Hk. simpl. rewrite (Cut_slash t key' Ht), E0, (bool_decide_eq_false_2 _ Hk). simpl.
      unfold Ref_Opt in *. simpl. by rewrite ?E1, ?E4.
Qed.

(** * Closed means closed *)

(** After [Close] no provider answers a ref or reaches a database: a resolve is refused
    as unavailable, or for what is wrong with the ref, and asks nothing. *)
Theorem closed_is_terminal `{JSON} ref :
  (forall as_err no_rows url connect connect' query query' p, exists err,
     Postgres.Resolve as_err no_rows url connect query None (Postgres.Close p).1 ref = ((Postgres.Close p).1, Err err)
     /\ Postgres.Resolve as_err no_rows url connect' query' None (Postgres.Close p).1 ref = ((Postgres.Close p).1, Err err))
  /\ (forall as_err no_rows url url' parse connect connect' query query' p, exists err,
     Mysql.Resolve as_err no_rows url url' parse connect query (Mysql.Close p).1 ref = ((Mysql.Close p).1, Err err)
     /\ Mysql.Resolve as_err no_rows url url' parse connect' query' (Mysql.Close p).1 ref = ((Mysql.Close p).1, Err err))
  /\ (forall as_err no_rows path connect qu c p, exists err,
     errors_Is err ErrUnavailable = true /\ Sqlite.Resolve as_err no_rows path connect qu c (Sqlite.Close p) ref = Err err)
  /\ (forall p, (Postgres.Close (Postgres.Close p).1).2 = None) /\ (forall p, (Mysql.Close (Mysql.Close p).1).2 = None).
Proof.
  split_and!.
  - intros. unfold Postgres.Resolve. destruct (Postgres.plan _ ref) as [[sql k]|err]; [|by exists err]. simpl. by eexists.
  - intros. unfold Mysql.Resolve. destruct (Mysql.statement _ ref) as [[[sql t] k]|err]; [|by exists err].
    assert (Hc : Mysql.my_closed (Mysql.Close p).1 = true) by (unfold Mysql.Close; by destruct (Mysql.my_closed p) eqn:E).
    unfold Mysql.getQueryer. rewrite Hc. simpl. by eexists.
  - intros. eexists; split; [|reflexivity]; done.
  - done.
  - intros p. unfold Mysql.Close. by destruct (Mysql.my_closed p) eqn:E; simpl; rewrite ?E.
Qed.

(** * The listener *)

(** A wait that fails is not followed by anything that could make the next one succeed:
    the loop waits on the connection it subscribed with. When that connection is lost
    every wait fails, and from then on the watch has only errors to tell, however the
    row changes; it neither subscribes again nor reads the row. *)
Lemma lost_listener_tells_only_errors `{JSON} as_err no_rows p sql keyval ref evs :
  Forall (fun ev : option error * rows => is_Some ev.1) evs ->
  Forall (fun a => match a with Postgres.ActUpdate _ => False | _ => True end)
    (flat_map (Postgres.watch_turn as_err no_rows p sql keyval ref) evs).
Proof.
  induction 1 as [|[[werr|] q] evs [? Hw] _ IH]; [constructor| |done]. simpl. by repeat constructor.
Qed.

(** * Witness *)

Lemma keys_are_never_in_the_statement_witness :
  Postgres.plan (Postgres.New []) (MkRef "postgres" "app.config/it's" "" ∅ "") = Ok ("SELECT value FROM app.config WHERE key = $1", "it's")
  /\ plain_statement "SELECT value FROM app.config WHERE key = $1" = true.
Proof.
  split; [vm_compute; reflexivity|].
  apply (proj1 (keys_are_never_in_the_statement (MkRef "postgres" "app.config/it's" "" ∅ "") _ "" "it's") (Postgres.New [])).
  vm_compute. reflexivity.
Defined.
