(* ===== verification/Nacos.v ===== *)
(** The Nacos provider (src/providers/nacos): its construction and coordinates, the
    read, the login behind it, and the watch, which asks a listener to compare digests
    and runs over the long-poll loop. MD5 and encoding/json are parameters. *)

From S2P Require Import Prelude Errors GoStrings Ref Provider Decode GoNumbers GoPath Pointer HttpCore LongPoll.
Open Scope string_scope.
Open Scope Z_scope.

(** * Construction *)

Definition defaultServerAddr : string := "http://127.0.0.1:8848".
Definition defaultContextPath : string := "/nacos".
Definition defaultGroup : string := "DEFAULT_GROUP".
Definition defaultHold : Z := 30 * Second.

(** [func firstNonEmpty(vals ...string) string]. *)
Fixpoint firstNonEmpty (vals : list string) : string :=
  match vals with [] => "" | v :: vals => if negb (bool_decide (v = "")) then v else firstNonEmpty vals end.

(** [type Provider struct]; an HTTP client is known by its number. *)
Record nacos_Provider (W : Type) := MkNacos {
  np_serverAddr : string;
  np_contextPath : string;
  np_namespace : string;
  np_group : string;
  np_username : string;
  np_password : string;
  np_httpClient : option nat;
  np_auth : option (sent -> W -> W * res sent);
  np_hold : Z;
  np_maxBody : Z;
  np_client : option (core_Client W);
  np_buildErr : option error;
  np_builds : nat;
  np_closed : bool;
}.
Arguments MkNacos {W}.
Arguments np_serverAddr {W}.
Arguments np_contextPath {W}.
Arguments np_namespace {W}.
Arguments np_group {W}.
Arguments np_username {W}.
Arguments np_password {W}.
Arguments np_httpClient {W}.
Arguments np_auth {W}.
Arguments np_hold {W}.
Arguments np_maxBody {W}.
Arguments np_client {W}.
Arguments np_buildErr {W}.
Arguments np_builds {W}.
Arguments np_closed {W}.

(** The options that [New] takes, and [New]. *)
Inductive nacos_Option (W : Type) :=
  | NWithServerAddr (s : string) | NWithContextPath (s : string) | NWithNamespace (s : string) | NWithGroup (s : string)
  | NWithCredentials (username password : string) | NWithAuth (a : option (sent -> W -> W * res sent)) | NWithHTTPClient (c : option nat)
  | NWithLongPollTimeout (d : Z) | NWithMaxBody (n : Z).
Arguments NWithServerAddr {W}.
Arguments NWithContextPath {W}.
Arguments NWithNamespace {W}.
Arguments NWithGroup {W}.
Arguments NWithCredentials {W}.
Arguments NWithAuth {W}.
Arguments NWithHTTPClient {W}.
Arguments NWithLongPollTimeout {W}.
Arguments NWithMaxBody {W}.

Definition apply_nacos_option {W} (p : nacos_Provider W) (o : nacos_Option W) : nacos_Provider W :=
  let '(MkNacos addr path ns g u pw hc auth hold mb c e b cl) := p in
  match o with
  | NWithServerAddr s => MkNacos s path ns g u pw hc auth hold mb c e b cl
  | NWithContextPath s => MkNacos addr s ns g u pw hc auth hold mb c e b cl
  | NWithNamespace s => MkNacos addr path s g u pw hc auth hold mb c e b cl
  | NWithGroup s => MkNacos addr path ns s u pw hc auth hold mb c e b cl
  | NWithCredentials s t => MkNacos addr path ns g s t hc auth hold mb c e b cl
  | NWithAuth a => MkNacos addr path ns g u pw hc a hold mb c e b cl
  | NWithHTTPClient h => MkNacos addr path ns g u pw h auth hold mb c e b cl
  | NWithLongPollTimeout d => MkNacos addr path ns g u pw hc auth d mb c e b cl
  | NWithMaxBody n => MkNacos addr path ns g u pw hc auth hold n c e b cl
  end.
Definition nacos_New {W} (opts : list (nacos_Option W)) : nacos_Provider W :=
  foldl apply_nacos_option (MkNacos "" "" "" "" "" "" None None defaultHold 0 None None 0 false) opts.

Definition set_built {W} (c : option (core_Client W)) (e : option error) (p : nacos_Provider W) : nacos_Provider W :=
  MkNacos (np_serverAddr p) (np_contextPath p) (np_namespace p) (np_group p) (np_username p) (np_password p) (np_httpClient p)
    (np_auth p) (np_hold p) (np_maxBody p) c e (S (np_builds p)) (np_closed p).

(** [func (p *Provider) Close() error], but for the idle connections it releases. *)
Definition nacos_Close {W} (p : nacos_Provider W) : nacos_Provider W :=
  MkNacos (np_serverAddr p) (np_contextPath p) (np_namespace p) (np_group p) (np_username p) (np_password p) (np_httpClient p)
    (np_auth p) (np_hold p) (np_maxBody p) (np_client p) (np_buildErr p) (np_builds p) true.

(** [func baseURL(addr, contextPath string) string]. *)
Fixpoint trim_slashes_left (s : string) : string :=
  match s with String c s' => if ascii_eqb c "/" then trim_slashes_left s' else s | EmptyString => "" end.
Definition baseURL (addr contextPath : string) : string :=
  TrimSuffix addr "/" ++ "/" ++ str_rev (trim_slashes_left (str_rev (trim_slashes_left contextPath))).

(** [func (p *Provider) watchSafeClient() *http.Client]: the client of the caller, or
    the [Timeout] of a new one. *)
Definition watchSafeClient {W} (p : nacos_Provider W) : nat + Z :=
  match np_httpClient p with
  | Some c => inl c
  | None => inr (wrap_int 64 (wrap_int 64 ((if np_hold p <=? 0 then defaultHold else np_hold p) + DefaultLongPollGrace) + 5 * Second))
  end.

Section provider.
(** The environment variables, and what an HTTP client sends through. *)
Context {W : Type} (Getenv : string -> string) (transport : nat + Z -> sent -> W -> W * res received).
Context (url_Parse : string -> option URL) (default_client : sent -> W -> W * res received) (request_ok : sent -> bool).

(** [newTokenAuth], below: an authenticator from the base URL and the credentials. *)
Context (newTokenAuth : string -> string -> string -> option nat -> res (sent -> W -> W * res sent)).

(** [func (p *Provider) core() (a client, or an error)]. *)
Definition nacos_core (p : nacos_Provider W) : nacos_Provider W * res (core_Client W) :=
  if np_closed p then (p, Err (EWrap "nacos: provider is closed" [ESentinel ErrUnavailable]))
  else
    match np_client p, np_buildErr p with
    | Some c, _ => (p, Ok c)
    | None, Some err => (p, Err err)
    | None, None =>
        let addr := firstNonEmpty [np_serverAddr p; Getenv "NACOS_SERVER_ADDR"; defaultServerAddr] in
        let ctxPath := firstNonEmpty [np_contextPath p; Getenv "NACOS_CONTEXT_PATH"; defaultContextPath] in
        let user := firstNonEmpty [np_username p; Getenv "NACOS_USERNAME"] in
        let pass := firstNonEmpty [np_password p; Getenv "NACOS_PASSWORD"] in
        let fail err := (set_built None (Some err) p, Err err) in
        let auth :=
          match np_auth p with
          | Some a => Ok (Some a)
          | None =>
              if negb (bool_decide (user = "")) && negb (bool_decide (pass = ""))
              then Some <$> newTokenAuth (baseURL addr ctxPath) user pass (np_httpClient p)
              else if negb (bool_decide (user = "")) || negb (bool_decide (pass = ""))
              then Err (EWrap "nacos: username and password must be set together" [ESentinel ErrInvalid])
              else Ok None
          end in
        match auth with
        | Err err => fail err
        | Ok auth =>
            match core_New url_Parse default_client
              (MkCoreConfig (baseURL addr ctxPath) (Some (transport (watchSafeClient p))) auth (np_maxBody p) "mamori-nacos" None) with
            | Err err => fail (EWrap "nacos: server address" [err])
            | Ok c => (set_built (Some c) None p, Ok c)
            end
        end
    end.

(** * Coordinates *)

(** [type coordinates struct], and its [String]. *)
Record coordinates := MkCoordinates { co_group : string; co_dataID : string }.
Definition coordinates_String (c : coordinates) : string := "dataId=" ++ co_dataID c ++ " group=" ++ co_group c.

Definition errNacosInvalid (msg : string) : error := EWrap ("nacos: " ++ msg) [ESentinel ErrInvalid].

(** [func (p *Provider) coordinatesFor(ref mamori.Ref) (coordinates, error)]. *)
Definition coordinatesFor (p : nacos_Provider W) (ref : Ref) : res coordinates :=
  let path := TrimPrefix (ref_Path ref) "/" in
  if bool_decide (path = "") then Err (errNacosInvalid "ref names no dataId")
  else
    let check group dataID :=
      if bool_decide (dataID = "") then Err (errNacosInvalid "ref names no dataId")
      else if bool_decide (group = "") then Err (errNacosInvalid "ref names an empty group")
      else Ok (MkCoordinates group dataID) in
    match Cut path "/" with
    | None => check (firstNonEmpty [np_group p; Getenv "NACOS_GROUP"; defaultGroup]) path
    | Some (group, dataID) =>
        if has_byte "/" dataID then Err (errNacosInvalid "ref has more than two path segments") else check group dataID
    end.

(** [func (p *Provider) tenant() string]. *)
Definition tenant (p : nacos_Provider W) : string := firstNonEmpty [np_namespace p; Getenv "NACOS_NAMESPACE"].

(** * The read *)

(** [func (p *Provider) configQuery(c coordinates) url.Values]. *)
Definition configQuery (p : nacos_Provider W) (c : coordinates) : Values :=
  let q : Values := <["dataId" := [co_dataID c]]> (<["group" := [co_group c]]> ∅) in
  if bool_decide (tenant p = "") then q else <["tenant" := [tenant p]]> q.

(** [func (p *Provider) fetch(ctx, c)]. *)
Definition nacos_fetch (p : nacos_Provider W) (c : coordinates) (w : W) : nacos_Provider W * W * res string :=
  let '(p, client) := nacos_core p in
  match client with
  | Err err => (p, w, Err err)
  | Ok client =>
      let '(w, resp) := core_Do request_ok client (MkCoreRequest "" "v1/cs/configs" (configQuery p c) [] "" "" "") w in
      (p, w, match resp with
             | Err err => Err (EWrap ("nacos: read " ++ coordinates_String c) [err])
             | Ok resp => Ok (re_Body resp)
             end)
  end.

(** [func (p *Provider) value(body, ref)]. *)
Definition nacos_value (json : JSON) (body : string) (ref : Ref) : res Value :=
  b ← (if bool_decide (ref_Key ref = "") then Ok body
       else res_wrap (fun err => EWrap "nacos: selecting" [err]) (SelectKey body (ref_Key ref)));
  Ok (MkValue b (VersionHash b) false 0 ∅).

(** [func (p *Provider) Resolve(ctx, ref)]. *)
Definition nacos_Resolve (json : JSON) (canceled : option error) (p : nacos_Provider W) (ref : Ref) (w : W)
    : nacos_Provider W * W * res Value :=
  match canceled, coordinatesFor p ref with
  | Some err, _ | None, Err err => (p, w, Err err)
  | None, Ok c =>
      let '(p, w, body) := nacos_fetch p c w in
      (p, w, body ← body; nacos_value json body ref)
  end.

(** * The listener *)

Definition wordSeparator : ascii := "002".
Definition lineSeparator : ascii := "001".

(** The probe of [listen]. *)
Definition nacos_probe (c : coordinates) (md5sum t : string) : string :=
  Join ([co_dataID c; co_group c; md5sum] ++ (if bool_decide (t = "") then [] else [t])) (String wordSeparator "")
    ++ String lineSeparator "".

(** One entry of the listener's answer, and [func changedConfigs(body, c, tenant) bool]. *)
Definition entry_names (c : coordinates) (t entry : string) : bool :=
  match Split entry wordSeparator with
  | dataID :: group :: rest =>
      bool_decide (dataID = co_dataID c) && bool_decide (group = co_group c)
      && match rest with
         | tn :: _ => bool_decide (t = "") || bool_decide (tn = t)
         | [] => true
         end
  | _ => false
  end.
Definition changedConfigs (body : string) (c : coordinates) (t : string) : bool :=
  let raw := TrimSpace body in
  if bool_decide (raw = "") then false
  else
    let decoded := default raw (QueryUnescape raw) in
    existsb (fun entry => negb (bool_decide (entry = "")) && entry_names c t entry) (Split decoded lineSeparator).

(** [func (p *Provider) listen(ctx, c, md5sum, hold)]. *)
Definition nacos_listen (p : nacos_Provider W) (c : coordinates) (md5sum : string) (hold : Z) (w : W) : nacos_Provider W * W * res bool :=
  let '(p, client) := nacos_core p in
  match client with
  | Err err => (p, w, Err err)
  | Ok client =>
      let form := Encode (<["Listening-Configs" := [nacos_probe c md5sum (tenant p)]]> ∅) in
      let '(w, resp) := core_Do request_ok client
        (MkCoreRequest "POST" "v1/cs/configs/listener" ∅
           [("Content-Type", "application/x-www-form-urlencoded"); ("Long-Pulling-Timeout", FormatInt (Z.quot hold Millisecond))] form "" "") w in
      (p, w, match resp with
             | Err err => Err (EWrap ("nacos: listen " ++ coordinates_String c) [err])
             | Ok resp => Ok (changedConfigs (re_Body resp) c (tenant p))
             end)
  end.
End provider.

(** * The watch *)

Section watch.
(** The two requests of a watch, on a world: [p.fetch] and [p.listen] with the digest
    that is known; [contentMD5] and [p.value]. *)
Context {W : Type} (fetch : W -> W * res string) (listen : string -> W -> W * res bool).
Context (md5_hex : string -> string) (value : string -> res Value).

(** [func contentMD5(body []byte) string]. *)
Definition contentMD5 (body : string) : string := if bool_decide (body = "") then "" else md5_hex body.

(** The closure [observe]: the world, the digest that is known afterwards, and the
    outcome. *)
Definition observe (known : string) (w : W) : W * string * res LongPollResult :=
  let '(w, body) := fetch w in
  match body with
  | Err err => if errors_Is err ErrNotFound then (w, "", Ok (MkLongPoll false zero_Value)) else (w, known, Err err)
  | Ok body =>
      (w, contentMD5 body, match value body with Err err => Err err | Ok v => Ok (MkLongPoll true v) end)
  end.

(** The closure [Round]. *)
Definition nacos_round (known : string) (w : W) : W * string * res LongPollResult :=
  let '(w, changed) := listen known w in
  match changed with
  | Err err => (w, known, Err err)
  | Ok false => (w, known, Ok (MkLongPoll false zero_Value))
  | Ok true => observe known w
  end.

(** The rounds, one after the other, each with what the context does in its turn and
    with what else happens in the world before the next one. *)
Fixpoint nacos_rounds (known : string) (w : W) (turns : list (option ending * (W -> W))) : W * string * list lp_turn :=
  match turns with
  | [] => (w, known, [])
  | (e, between) :: turns =>
      let '(w, known, outcome) := nacos_round known (between w) in
      let '(w, known, rest) := nacos_rounds known w turns in
      (w, known, MkLpTurn outcome e :: rest)
  end.

(** [func (p *Provider) Watch(ctx, ref)], once the coordinates and the client are
    there. *)
Definition nacos_Watch (hold : Z) (first : option ending) (turns : list (option ending * (W -> W))) (w : W)
    : res (list lp_action * bool) :=
  let '(w, known, outcome) := observe "" w in
  let '(_, _, rest) := nacos_rounds known w turns in
  LongPoll (MkLongPollConfig true true hold 0 0) (MkLpTurn outcome first) rest.
End watch.

(** * The login *)

Definition tokenRefreshMargin : Z := 60 * Second.

(** [type tokenAuth struct], the part behind the lock. *)
Record tokenAuth := MkTokenAuth { ta_token : option string; ta_expiry : Z }.

(** [func (t *tokenAuth) cached() (string, bool)] at a time, and [store]. *)
Definition ta_cached (now : Z) (t : tokenAuth) : option string :=
  match ta_token t with
  | None => None
  | Some tok => if IsZero (ta_expiry t) || (ta_expiry t <? now + tokenRefreshMargin) then None else Some tok
  end.
Definition ta_store (tok : string) (expiry : Z) : tokenAuth := MkTokenAuth (Some tok) expiry.

Section login.
Context {W : Type} `{Env W} (auth_of : W -> tokenAuth) (set_auth : tokenAuth -> W -> W).
(** [json.Unmarshal] of the two fields of the answer, and the login client. *)
Context (login_json : string -> option (string * Z)) (request_ok : sent -> bool) (lc : core_Client W).

(** The closure [login] of [newTokenAuth]. *)
Definition nacos_login (username password : string) (w : W) : W * res (string * Z) :=
  let body := Encode (<["username" := [username]]> (<["password" := [password]]> ∅)) in
  let '(w, resp) := core_Do request_ok lc
    (MkCoreRequest "POST" "v1/auth/login" ∅ [("Content-Type", "application/x-www-form-urlencoded")] body "" "") w in
  (w, match resp with
      | Err err => Err (EWrap "nacos: login" [err])
      | Ok resp =>
          match login_json (re_Body resp) with
          | None => Err (EWrap "nacos: login response is not JSON" [ESentinel ErrUnavailable; EOpaque "json"])
          | Some (tok, tokenTTL) =>
              if bool_decide (tok = "") then Err (EWrap "nacos: login returned no accessToken" [ESentinel ErrUnauthenticated])
              else
                let ttl := wrap_int 64 (tokenTTL * Second) in
                Ok (tok, if ttl <=? 0 then 0 else now w + ttl)
          end
      end).

(** [func (t *tokenAuth) Apply(ctx, req) error]. *)
Definition nacos_Apply (username password : string) (req : sent) (w : W) : W * res sent :=
  let '(w, tok) :=
    match ta_cached (now w) (auth_of w) with
    | Some tok => (w, Ok tok)
    | None =>
        let '(w, r) := nacos_login username password w in
        match r with
        | Err err => (w, Err err)
        | Ok (fresh, expiry) => (set_auth (ta_store fresh expiry) w, Ok fresh)
        end
    end in
  (w, match tok with
      | Err err => Err err
      | Ok tok =>
          let u := se_URL req in
          let q := <["accessToken" := [tok]]> (Query (u_RawQuery u)) in
          Ok (MkSent (se_Method req) (MkURL (u_Origin u) (u_Path u) (Encode q)) (se_Header req) (se_Body req))
      end).

(** [func newTokenAuth(base, username, password, hc)], given its login client. *)
Definition newTokenAuth_of (lc_or_err : option error) (username password : string) : res (sent -> W -> W * res sent) :=
  if bool_decide (username = "") || bool_decide (password = "") then Err (EWrap "nacos: username and password are both required" [ESentinel ErrInvalid])
  else match lc_or_err with Some err => Err (EWrap "nacos: login endpoint" [err]) | None => Ok (nacos_Apply username password) end.

(** A token is not used within the margin of its expiry, and a server that states no
    life for it is asked every time. *)
Lemma ta_cached_spec t n tok : ta_cached n t = Some tok <->
  ta_token t = Some tok /\ ta_expiry t <> 0 /\ n + tokenRefreshMargin <= ta_expiry t.
Proof.
  unfold ta_cached, IsZero. destruct (ta_token t); [|naive_solver].
  destruct (Z.eqb_spec (ta_expiry t) 0), (Z.ltb_spec (ta_expiry t) (n + tokenRefreshMargin)); simpl; naive_solver lia.
Qed.
End login.

(** * The answer of the listener *)

(** What the server answers for one configuration that moved: the record, escaped. *)
Definition server_names (dataID group t : string) : string :=
  QueryEscape (Join ([dataID; group] ++ (if bool_decide (t = "") then [] else [t])) (String wordSeparator "") ++ String lineSeparator "").

(** A graphic ASCII byte. *)
Definition graphic (c : ascii) : bool := in_range 33 126 c.
Fixpoint graphic_all (s : string) : bool := match s with EmptyString => true | String c s => graphic c && graphic_all s end.

Lemma graphic_no_space c rest : graphic c = true -> space_width (String c rest) = 0%nat.
Proof. destruct c as [[][][][][][][][]]; intros Hg; try discriminate Hg; reflexivity. Qed.

Lemma graphic_rspace s : graphic_all s = true -> rspace_width s = 0%nat.
Proof.
  destruct s as [|a s]; [done|]. simpl. intros [Ha Hs]%andb_true_iff.
  assert (Hsp : forall c, graphic c = true -> ascii_space c = false /\ ascii_eqb c (byte_of 194) = false).
  { intros c Hc. destruct c as [[][][][][][][][]]; try discriminate Hc; by split. }
  unfold rspace_width. rewrite (proj1 (Hsp a Ha)). destruct s as [|b s]; [done|]. simpl in Hs. apply andb_true_iff in Hs as [Hb Hs].
  rewrite (proj2 (Hsp b Hb)). cbn [andb]. destruct s as [|c s]; [done|]. simpl in Hs. apply andb_true_iff in Hs as [Hc _].
  pose proof (graphic_no_space c (String b (String a "")) Hc) as Hw. unfold space_width in Hw. by rewrite Hw.
Qed.

Lemma graphic_all_app s t : graphic_all (s ++ t) = graphic_all s && graphic_all t.
Proof. induction s as [|c s IH]; [done|]. rewrite str_app_cons. simpl. by rewrite IH, andb_assoc. Qed.

Lemma graphic_all_rev s : graphic_all s = true -> graphic_all (str_rev s) = true.
Proof.
  induction s as [|c s IH]; [done|]. simpl. intros [Hc Hs]%andb_true_iff. rewrite str_rev_cons, graphic_all_app. simpl.
  by rewrite (IH Hs), Hc.
Qed.

Lemma graphic_untrimmed s : graphic_all s = true -> TrimSpace s = s.
Proof.
  intros Hs. apply TrimSpace_untrimmed. split; [|by apply graphic_rspace, graphic_all_rev].
  destruct s as [|c s]; [done|]. simpl in Hs. apply andb_true_iff in Hs as [Hc _]. by apply graphic_no_space.
Qed.

Lemma graphic_QueryEscape s : graphic_all (QueryEscape s) = true.
Proof.
  induction s as [|c s IH]; [done|]. rewrite QueryEscape_cons, graphic_all_app, IH, andb_true_r.
  clear. revert c. by apply all_bytes_spec.
Qed.

(** What the server says of a configuration is understood: the record it writes for
    the configuration that was asked about, escaped as it comes, is a change; a record
    of any other group or dataId, or of another namespace, is not, and neither is an
    empty answer. The names are free of the two control characters that separate
    them. *)
Theorem listener_answer_is_understood c t dataID group t' :
  let free s := has_byte wordSeparator s = false /\ has_byte lineSeparator s = false in
  free dataID -> free group -> free t' -> dataID <> "" ->
  changedConfigs (server_names dataID group t') c t =
    bool_decide (dataID = co_dataID c) && bool_decide (group = co_group c) && (bool_decide (t' = "") || bool_decide (t = "") || bool_decide (t' = t))
  /\ changedConfigs "" c t = false.
Proof.
  intros free [Hd1 Hd2] [Hg1 Hg2] [Ht1 Ht2] Hne. split; [|done]. unfold changedConfigs, server_names.
  rewrite graphic_untrimmed by apply graphic_QueryEscape. rewrite QueryUnescape_QueryEscape. change (default ?x (Some ?y)) with y.
  set (rec := Join _ _).
  assert (Hrec : rec <> "" /\ has_byte lineSeparator rec = false
    /\ Split rec wordSeparator = ([dataID; group] ++ if bool_decide (t' = "") then [] else [t'])%list).
  { unfold rec. split_and!.
    - destruct dataID; [done|]. by case_bool_decide.
    - case_bool_decide; cbn [app Join]; rewrite !has_byte_app, Hd2, Hg2, ?Ht2; reflexivity.
    - apply Split_Join; [done|]. case_bool_decide; repeat constructor; done. }
  destruct Hrec as (Hne' & Hl & Hs).
  rewrite bool_decide_eq_false_2.
  2:{ intros Hq. assert (Hu : QueryUnescape (QueryEscape (rec ++ String lineSeparator "")) = Some "") by (by rewrite Hq).
      rewrite QueryUnescape_QueryEscape in Hu. by destruct rec. }
  rewrite (Split_app rec lineSeparator "") by done. cbn [Split existsb]. rewrite bool_decide_eq_false_2 by done.
  unfold entry_names. rewrite Hs. cbn [negb andb orb]. rewrite orb_false_r.
  case_bool_decide as Et; cbn [app]; [by rewrite !andb_true_r|]. done.
Qed.

(** * What a watcher learns *)

Section current.
Context {W : Type} (fetch : W -> W * res string) (listen : string -> W -> W * res bool).
Context (md5_hex : string -> string) (V : string -> Value) (content : W -> option string).

(** The digest of what the server holds, the one [contentMD5] gives. *)
Definition digest (b : option string) : string := default "" (contentMD5 md5_hex <$> b).

(** A server: a read answers with what it holds, and a listener that is asked about a
    digest says that nothing moved only while that is the digest of what it holds. *)
Record nacos_server : Prop := {
  read_is_current : forall w w' r, fetch w = (w', r) ->
    match r with Ok b => content w' = Some b | Err e => errors_Is e ErrNotFound = true -> content w' = None end;
  silence_is_truthful : forall k w w', listen k w = (w', Ok false) -> digest (content w') = k;
}.

(** The last value told. *)
Fixpoint last_told (told : option Value) (outs : list (res LongPollResult)) : option Value :=
  match outs with
  | [] => told
  | Ok r :: outs => last_told (if lr_Changed r then Some (lr_Value r) else told) outs
  | Err _ :: outs => last_told told outs
  end.

Lemma last_told_app told l1 l2 : last_told told (l1 ++ l2) = last_told (last_told told l1) l2.
Proof. revert told. induction l1 as [|[r|e] l1 IH]; intros told; simpl; [done|apply IH..]. Qed.

(** The digest that is known is of a value that was told. *)
Definition known_told (known : string) (told : option Value) : Prop :=
  known = "" \/ exists b, contentMD5 md5_hex b = known /\ told = Some (V b).

Let value := fun b => Ok (V b).

Lemma observe_known known told w w' known' out : nacos_server -> known_told known told ->
  observe fetch md5_hex value known w = (w', known', out) ->
  known_told known' (last_told told [out]) /\ (is_ok out = true -> known' = digest (content w')).
Proof.
  intros Hs Hk. unfold observe. destruct (fetch w) as [w1 [b|e]] eqn:Ef.
  - intros [= <- <- <-]. apply (read_is_current Hs) in Ef. simpl. split; [right; by exists b|]. intros _. by rewrite Ef.
  - apply (read_is_current Hs) in Ef. destruct (errors_Is e ErrNotFound); intros [= <- <- <-]; simpl; [|done].
    split; [by left|]. intros _. by rewrite Ef.
Qed.

Lemma round_known known told w w' known' out : nacos_server -> known_told known told ->
  nacos_round fetch listen md5_hex value known w = (w', known', out) ->
  known_told known' (last_told told [out]) /\ (is_ok out = true -> known' = digest (content w')).
Proof.
  intros Hs Hk. unfold nacos_round. destruct (listen known w) as [w1 [[]|e]] eqn:El.
  - by apply observe_known.
  - intros [= <- <- <-]. apply (silence_is_truthful Hs) in El. simpl. split; [done|]. by rewrite El.
  - intros [= <- <- <-]. by split.
Qed.

Lemma rounds_known turns : forall known told w w' known' rest out0, nacos_server -> known_told known told ->
  (is_ok out0 = true -> known = digest (content w)) ->
  nacos_rounds fetch listen md5_hex value known w turns = (w', known', rest) ->
  known_told known' (last_told told (map lt_outcome rest))
  /\ (is_ok (default out0 (last (map lt_outcome rest))) = true -> known' = digest (content w')).
Proof.
  induction turns as [|[e between] turns IH]; intros known told w w' known' rest out0 Hs Hk H0; simpl.
  { intros [= <- <- <-]. done. }
  destruct (nacos_round _ _ _ _ known (between w)) as [[w1 known1] out] eqn:Er.
  destruct (nacos_rounds _ _ _ _ known1 w1 turns) as [[w2 known2] rest2] eqn:Es. intros [= <- <- <-].
  destruct (round_known _ told _ _ _ _ Hs Hk Er) as [Hk1 Hd1].
  destruct (IH _ _ _ _ _ _ out Hs Hk1 Hd1 Es) as [Hk2 Hd2].
  cbn [map]. change (lt_outcome (MkLpTurn out e) :: ?l) with ([out] ++ l)%list. rewrite last_told_app. split; [done|].
  intros Ho. apply Hd2. cbn [app] in Ho. revert Ho. destruct (map lt_outcome rest2) as [|x l]; [done|].
  rewrite last_cons_cons. destruct (last (x :: l)) eqn:E; [done|by apply last_None in E].
Qed.

(** A Nacos watch has no gap. After its baseline and any number of rounds, with the
    configuration changing between them, during them and while they fail, a round
    that succeeds, even with nothing to report, leaves the watcher with the content
    the server holds: the last value told is of that content. The digest is taken to
    tell contents apart, and a configuration that is gone, or empty, is not told. *)
Theorem nacos_watch_has_no_gap w turns :
  nacos_server -> (forall b b', contentMD5 md5_hex b = contentMD5 md5_hex b' -> b = b') ->
  let '(w0, known0, out0) := observe fetch md5_hex value "" w in
  let '(w', known', rest) := nacos_rounds fetch listen md5_hex value known0 w0 turns in
  let outs := out0 :: map lt_outcome rest in
  is_ok (default out0 (last outs)) = true ->
  forall b, content w' = Some b -> b <> "" -> last_told None outs = Some (V b).
Proof.
  intros Hs Hinj. destruct (observe _ _ _ "" w) as [[w0 known0] out0] eqn:E0.
  destruct (nacos_rounds _ _ _ _ known0 w0 turns) as [[w' known'] rest] eqn:Er. intros outs Ho b Hb Hne.
  destruct (observe_known "" None _ _ _ _ Hs (or_introl eq_refl) E0) as [Hk0 Hd0].
  destruct (rounds_known _ _ _ _ _ _ _ out0 Hs Hk0 Hd0 Er) as [Hk Hd]. unfold outs in *.
  change (out0 :: ?l) with ([out0] ++ l)%list. rewrite last_told_app.
  assert (Hdig : known' = contentMD5 md5_hex b).
  { rewrite Hd; [by rewrite Hb|]. destruct (map lt_outcome rest) as [|x l]; [done|].
    rewrite last_cons_cons in Ho. destruct (last (x :: l)) eqn:E; [done|by apply last_None in E]. }
  destruct Hk as [Hk|(b' & Hb' & Ht)].
  - exfalso. apply Hne, Hinj. rewrite <- Hdig, Hk. done.
  - rewrite Ht. do 2 f_equal. apply Hinj. congruence.
Qed.
End current.

(** * Witnesses *)

(** A server that is the content it holds, with the content as its own digest. *)
Definition toy_fetch (w : option string) : option string * res string :=
  (w, match w with Some b => Ok b | None => Err (ESentinel ErrNotFound) end).
Definition toy_listen (k : string) (w : option string) : option string * res bool :=
  (w, Ok (negb (bool_decide (k = default "" w)))).
Definition toy_value (b : string) : Value := MkValue b (VersionHash b) false 0 ∅.
Definition toy_turns : list (option ending * (option string -> option string)) :=
  [(None, fun w => w); (None, fun _ => Some "debug"); (None, fun w => w)].

(** Created after the baseline, and told. *)
Lemma nacos_watch_has_no_gap_witness :
  let '(w0, known0, out0) := observe toy_fetch (fun b => b) (fun b => Ok (toy_value b)) "" None in
  let '(w', known', rest) := nacos_rounds toy_fetch toy_listen (fun b => b) (fun b => Ok (toy_value b)) known0 w0 toy_turns in
  last_told None (out0 :: map lt_outcome rest) = Some (toy_value "debug").
Proof.
  refine (nacos_watch_has_no_gap toy_fetch toy_listen (fun b => b) toy_value (fun w => w) None toy_turns _ _ eq_refl "debug" eq_refl _).
  - split; [intros w w' r [= <- <-]; by destruct w|].
    intros k w w' [= <- Hk]. apply negb_false_iff, bool_decide_eq_true in Hk as ->. unfold digest. destruct w as [b|]; [|done].
    simpl. unfold contentMD5. by case_bool_decide.
  - intros b b'. unfold contentMD5. repeat case_bool_decide; congruence.
  - done.
Defined.

Lemma listener_answer_is_understood_witness :
  changedConfigs (server_names "app.json" "prod" "") (MkCoordinates "prod" "app.json") "ns" = true.
Proof.
  by rewrite (proj1 (listener_answer_is_understood (MkCoordinates "prod" "app.json") "ns" "app.json" "prod" "" (conj eq_refl eq_refl)
    (conj eq_refl eq_refl) (conj eq_refl eq_refl) (fun H => ltac:(discriminate H)))).
Defined.
