(* ===== verification/GoAst.v ===== *)
(** Syntax trees of Go programs as the command line reads them (go/ast, go/types, the
    parts cmd/mamori looks at), and the calls of WithDerive it finds in them
    (src/cmd/mamori/derives.go, the first half of internal/vetcheck/derives.go). *)

From S2P Require Import Prelude Errors GoStrings Ref Provider Decode GoNumbers.
Open Scope string_scope.
Open Scope Z_scope.

(** * Types *)

(** [types.Type], as far as it is looked into: a named type is its package, if it has
    one, and its name; what it is declared to be is asked of the type checker. *)
#[universes(template=no)]
Inductive gotype :=
  | Basic_String
  | Basic_Byte
  | Basic_Other (kind : nat)
  | Slice (elem : gotype)
  | Pointer (elem : gotype)
  | Named (pkg : option string) (name : string)
  | Alias (actual : gotype)
  | Struct (fields : list (string * gotype))
  | OtherType.

(** [types.Unalias]. *)
Fixpoint Unalias (t : gotype) : gotype := match t with Alias t => Unalias t | _ => t end.

(** * Trees *)

(** [ast.Node]. Every node has a number, which stands for its address: it is what the
    maps of the type checker are keyed by, and so has every name a field or a parameter
    declares. A function literal has its parameters, its results and its statements.
    [Other] is every node the code only passes through: a block, a composite literal, a
    condition. *)
#[universes(template=no)]
Inductive node :=
  | Ident (id : nat) (Name : string)
  | BasicLit (id : nat) (Value : string)
  | SelectorExpr (id : nat) (X : node) (Sel_id : nat) (Sel : string)
  | IndexExpr (id : nat) (X Index : node)
  | ParenExpr (id : nat) (X : node)
  | StarExpr (id : nat) (X : node)
  | BinaryExpr (id : nat) (X Y : node)
  | CallExpr (id : nat) (Fun : node) (Args : list node)
  | AssignStmt (id : nat) (Lhs Rhs : list node)
  | FuncLit (id : nat) (Params : list (list (nat * string) * node)) (Results Body : list node)
  | StructType (id : nat) (Fields : list (list (nat * string) * option string * node))
  | Other (id : nat) (Children : list node).

Definition node_id (n : node) : nat :=
  match n with
  | Ident id _ | BasicLit id _ | SelectorExpr id _ _ _ | IndexExpr id _ _ | ParenExpr id _ | StarExpr id _
  | BinaryExpr id _ _ | CallExpr id _ _ | AssignStmt id _ _ | FuncLit id _ _ _ | StructType id _ | Other id _ => id
  end.

(** The order in which [ast.Inspect] visits a node and what is below it. The selected
    name of a selector is an identifier of its own. *)
Fixpoint Inspect (n : node) : list node :=
  n ::
  match n with
  | Ident _ _ | BasicLit _ _ => []
  | SelectorExpr _ x sid s => (Inspect x ++ [Ident sid s])%list
  | IndexExpr _ x i => (Inspect x ++ Inspect i)%list
  | ParenExpr _ x | StarExpr _ x => Inspect x
  | BinaryExpr _ x y => (Inspect x ++ Inspect y)%list
  | CallExpr _ f args => (Inspect f ++ flat_map Inspect args)%list
  | AssignStmt _ lhs rhs => (flat_map Inspect lhs ++ flat_map Inspect rhs)%list
  | FuncLit _ params results body =>
      (flat_map (fun p => map (fun nm => Ident nm.1 nm.2) p.1 ++ Inspect p.2) params ++
       flat_map Inspect results ++ flat_map Inspect body)%list
  | StructType _ fields => flat_map (fun f => map (fun nm => Ident nm.1 nm.2) f.1.1 ++ Inspect f.2)%list fields
  | Other _ children => flat_map Inspect children
  end.

(** * What the type checker knows *)

(** A function object: its package, if any, and its name. *)
Record func_object := MkFunc { fn_Pkg : option string; fn_Name : string }.

(** [types.Info] as the code reads it: [Uses] at the functions, [Instances],
    [TypeOf], and [Types], whose value is nil for what is not a constant; and the
    underlying types of the named ones. *)
Record types_Info := MkInfo {
  info_Uses : nat -> option func_object;
  info_Instances : nat -> option (list gotype);
  info_TypeOf : nat -> option gotype;
  info_Types : nat -> option (option string);
  info_Underlying : option string -> string -> gotype;
}.

(** [Type.Underlying]. *)
Definition Underlying (info : types_Info) (t : gotype) : gotype :=
  match Unalias t with Named pkg name => info_Underlying info pkg name | t => t end.

(** The runes [constant.Value.String] keeps of a quoted text, before it cuts it. *)
Definition constant_maxLen : nat := 72.

(** [strconv.Unquote(tv.Value.String())] of a string constant: [String] gives a
    shortened text when the quoted one is longer than [constant_maxLen], and what has
    lost its closing quote is not unquoted. [quote] is [strconv.Quote], counted in
    runes. *)
Definition constant_path (quoted_runes : string -> nat) (value : string) : option string :=
  if (constant_maxLen <? quoted_runes value)%nat then None else Some value.

(** [const mamoriPkgPath]. *)
Definition mamoriPkgPath : string := "github.com/xavidop/mamori".

(** [func fieldByName(st *types.Struct, name string)]. *)
Fixpoint fieldByName (fields : list (string * gotype)) (name : string) : option gotype :=
  match fields with
  | [] => None
  | (n, t) :: fields => if bool_decide (n = name) then Some t else fieldByName fields name
  end.

(** The loop of [fieldTypeByPath]. *)
Fixpoint field_path_loop (info : types_Info) (cur : gotype) (parts : list string) : option gotype :=
  match parts with
  | [] => Some cur
  | part :: parts =>
      match Underlying info cur with
      | Struct fields =>
          match fieldByName fields part with
          | Some next => field_path_loop info next parts
          | None => None
          end
      | _ => None
      end
  end.

(** [func fieldTypeByPath(t types.Type, path string)]. *)
Definition fieldTypeByPath (info : types_Info) (t : gotype) (path : string) : option gotype :=
  field_path_loop info t (Split path ".").

(** * Calls of WithDerive *)

(** The identifier a callee resolves through: alone, selected, or with an explicit
    type argument. *)
Definition callee_ident (f : node) : option nat :=
  match f with
  | Ident id _ => Some id
  | SelectorExpr _ _ sid _ => Some sid
  | IndexExpr _ (Ident id _) _ => Some id
  | IndexExpr _ (SelectorExpr _ _ sid _) _ => Some sid
  | _ => None
  end.

(** [func withDeriveTypeArg(pkg, call)]: the package and the name of T. *)
Definition withDeriveTypeArg (info : types_Info) (f : node) : option (string * string) :=
  match callee_ident f with
  | None => None
  | Some id =>
      match info_Uses info id with
      | Some (MkFunc (Some pkg) name) =>
          if bool_decide (name = "WithDerive") && bool_decide (pkg = mamoriPkgPath) then
            match info_Instances info id with
            | Some (Named (Some tpkg) tname :: _) => Some (tpkg, tname)
            | _ => None
            end
          else None
      | _ => None
      end
  end.

(** [func derivesKey(named *types.Named) string]. *)
Definition derivesKey (named : string * string) : string := named.1 ++ "." ++ named.2.

Section find.
Context (quoted_runes : string -> nat).

(** What one argument after the hook declares: nothing that can be read, or a path. *)
Definition declared_path (info : types_Info) (a : node) : option string :=
  match info_Types info (node_id a) with
  | Some (Some value) => constant_path quoted_runes value
  | _ => None
  end.

(** The state of [findDerives]: the declared paths and the incomplete types. *)
Record derives := MkDerives { dv_declared : gmap string (list string); dv_incomplete : gset string }.

(** The loop over the arguments of one call. *)
Definition derive_arg (info : types_Info) (named : string * string) (d : derives) (a : node) : derives :=
  let key := derivesKey named in
  match declared_path info a with
  | None => MkDerives (dv_declared d) (dv_incomplete d ∪ {[key]})
  | Some path =>
      if fieldTypeByPath info (Named (Some named.1) named.2) path then
        MkDerives (<[key := (default [] (dv_declared d !! key) ++ [path])%list]> (dv_declared d)) (dv_incomplete d)
      else d
  end.

(** The function [findDerives] gives [ast.Inspect]. *)
Definition derive_node (info : types_Info) (d : derives) (n : node) : derives :=
  match n with
  | CallExpr _ f args =>
      match withDeriveTypeArg info f with
      | Some named => foldl (derive_arg info named) d (tail args)
      | None => d
      end
  | _ => d
  end.

(** [func findDerives(pkgs)]: the trees of each package, with what the type checker
    knows of it. *)
Definition findDerives (pkgs : list (types_Info * list node)) : derives :=
  foldl (fun d p => foldl (derive_node p.1) d (flat_map Inspect p.2)) (MkDerives ∅ ∅) pkgs.
End find.
