(* ===== verification/Vet.v ===== *)
(** The analyzer of [mamori vet] (src/cmd/mamori/internal/vetcheck): fields that hold a
    secret in plain text, and derive hooks that launder one into a plain field; and
    the command around it (src/cmd/mamori/vet.go). *)

From S2P Require Import Prelude Errors GoStrings Ref Provider Decode GoNumbers Fields SourceTag PolicyDoc GoAst.
Open Scope string_scope.
Open Scope Z_scope.

(** * Plain types *)

(** [func plainSecretKind(t types.Type) (kind string, ok bool)]. An alias is not looked
    through, unlike in [namedReceiver]. *)
Definition plainSecretKind (t : gotype) : option string :=
  match t with
  | Basic_String => Some "string"
  | Slice Basic_Byte => Some "[]byte"
  | _ => None
  end.

(** * Source tags *)

(** What [pass.Reportf] is told: where, of which field or path, the scheme of a source
    tag, and the plain type. *)
Record diagnostic := MkDiagnostic { dg_pos : nat; dg_field : string; dg_scheme : option string; dg_kind : string }.

(** A field of a struct literal: its names, its tag as it is written, its type. *)
Abbreviation ast_field := (list (nat * string) * option string * node)%type.

(** [func fieldName(field *ast.Field) string]; [ExprString] renders the type of an
    embedded field. *)
Definition fieldName (ExprString : node -> string) (field : ast_field) : string :=
  match field.1.1 with
  | [] => "(embedded " ++ ExprString field.2 ++ ")"
  | names => Join (map (fun n => String (byte_of 34) (n.2 ++ String (byte_of 34) "")) names) ", "
  end.

Section analyzer.
Context (ExprString : node -> string) (Unquote : string -> option string) (quoted_runes : string -> nat).
(** [reflect.StructTag] as a lookup, and the types of one package. *)
Context (parse_tag : string -> tags) (info : types_Info).

(** [func checkField(pass, field, schemes)]; the literal of the tag is [strconv.Unquote]d. *)
Definition checkField (schemes : SchemeSet) (pos : nat) (field : ast_field) : list diagnostic :=
  match field.1.2 ≫= Unquote with
  | None => []
  | Some tagContents =>
      match tag_Lookup (parse_tag tagContents) "source" with
      | None => []
      | Some source =>
          match FirstSensitiveScheme schemes source with
          | None => []
          | Some scheme =>
              match info_TypeOf info (node_id field.2) ≫= plainSecretKind with
              | None => []
              | Some kind => [MkDiagnostic pos (fieldName ExprString field) (Some scheme) kind]
              end
          end
      end
  end.

(** * Revealed secrets *)

(** [const secretPkgPath]. *)
Definition secretPkgPath : string := "github.com/xavidop/mamori/secret".

(** [func namedReceiver(t types.Type) *types.Named]: its package. *)
Definition namedReceiver (t : gotype) : option (option string * string) :=
  match Unalias t with
  | Pointer e => match Unalias e with Named pkg name => Some (pkg, name) | _ => None end
  | Named pkg name => Some (pkg, name)
  | _ => None
  end.

(** [func isRevealCall(pass, call) bool], of the callee. *)
Definition isRevealCall (f : node) : bool :=
  match f with
  | SelectorExpr _ x _ sel =>
      bool_decide (sel ∈ ["Reveal"; "RevealBytes"]) &&
      match info_TypeOf info (node_id x) ≫= namedReceiver with
      | Some (Some pkg, _) => bool_decide (pkg = secretPkgPath)
      | _ => false
      end
  | _ => false
  end.

(** The visit of [revealsAny]. *)
Definition reveals_node (tainted : gset string) (n : node) : bool :=
  match n with
  | CallExpr _ f _ => isRevealCall f
  | Ident _ name => bool_decide (name ∈ tainted)
  | _ => false
  end.

(** [func revealsAny(pass, exprs, tainted) bool]. *)
Definition revealsAny (exprs : list node) (tainted : gset string) : bool :=
  existsb (fun e => existsb (reveals_node tainted) (Inspect e)) exprs.

(** The right-hand sides that feed the i-th left-hand side of an assignment. *)
Definition feeding (lhs rhs : list node) (i : nat) : list node :=
  if (length rhs =? length lhs)%nat then take 1 (drop i rhs) else rhs.

(** The loop of [revealedLocals] over one assignment. *)
Fixpoint taint_lhs (lhs rhs : list node) (i : nat) (rest : list node) (tainted : gset string) : gset string :=
  match rest with
  | [] => tainted
  | l :: rest =>
      taint_lhs lhs rhs (S i) rest
        match l with
        | Ident _ name =>
            if bool_decide (name = "_") then tainted
            else if revealsAny (feeding lhs rhs i) tainted then tainted ∪ {[name]} else tainted
        | _ => tainted
        end
  end.
Definition taint_node (tainted : gset string) (n : node) : gset string :=
  match n with AssignStmt _ lhs rhs => taint_lhs lhs rhs 0 lhs tainted | _ => tainted end.

(** [func revealedLocals(pass, hook) map[string]bool], on the body of the hook. *)
Definition revealedLocals (body : list node) : gset string := foldl taint_node ∅ (flat_map Inspect body).

(** * What a hook writes *)

(** [func hookParamName(hook) (string, bool)], on the parameter lists of a literal. *)
Definition hookParamName (params : list (list (nat * string) * node)) : option string :=
  match params with
  | ((_, name) :: _, _) :: _ => if bool_decide (name = "_") then None else Some name
  | _ => None
  end.

(** The loop of [fieldPathOf]: the parts collected so far, innermost first. *)
Fixpoint field_path_of (cur : node) (recv : string) (parts : list string) : option string :=
  match cur with
  | SelectorExpr _ x _ sel => field_path_of x recv (sel :: parts)
  | ParenExpr _ x | StarExpr _ x => field_path_of x recv parts
  | Ident _ name =>
      if negb (bool_decide (name = recv)) || bool_decide (parts = []) then None else Some (Join parts ".")
  | _ => None
  end.

(** [func fieldPathOf(expr, recv) (string, bool)]. *)
Definition fieldPathOf (expr : node) (recv : string) : option string := field_path_of expr recv [].

(** [type hookWrite struct]. *)
Record hookWrite := MkWrite { hw_pos : nat; hw_rhs : list node }.

(** The loop of [hookWrites] over one assignment, its entries in their order. *)
Fixpoint write_lhs (recv : string) (pos : nat) (lhs rhs : list node) (i : nat) (rest : list node) : list (string * hookWrite) :=
  match rest with
  | [] => []
  | l :: rest =>
      match fieldPathOf l recv with
      | Some path => [(path, MkWrite pos (feeding lhs rhs i))]
      | None => []
      end ++ write_lhs recv pos lhs rhs (S i) rest
  end%list.
Definition write_node (recv : string) (n : node) : list (string * hookWrite) :=
  match n with AssignStmt pos lhs rhs => write_lhs recv pos lhs rhs 0 lhs | _ => [] end.

(** [func hookWrites(hook) map[string][]hookWrite]: the entries of the map. *)
Definition hookWrites (params : list (list (nat * string) * node)) (body : list node) : list (string * hookWrite) :=
  match hookParamName params with
  | None => []
  | Some recv => flat_map (write_node recv) (flat_map Inspect body)
  end.

(** [writes[path]]. *)
Definition writes_of (writes : list (string * hookWrite)) (path : string) : list hookWrite :=
  map snd (filter (fun pw => pw.1 = path) writes).

(** * The rules *)

(** [func withDeriveCall(pass, call)]: the type, the parameters and the body of the
    hook, and the paths that can be read. *)
Definition withDeriveCall (f : node) (args : list node) : option (gotype * list (list (nat * string) * node) * list node * list string) :=
  match withDeriveTypeArg info f, args with
  | Some (pkg, name), FuncLit _ params _ body :: rest =>
      Some (Named (Some pkg) name, params, body, omap (declared_path quoted_runes info) rest)
  | _, _ => None
  end.

(** The loop of [checkDerives], for one declared path: at most one diagnostic. *)
Definition check_path (t : gotype) (writes : list (string * hookWrite)) (tainted : gset string) (path : string) : list diagnostic :=
  match fieldTypeByPath info t path ≫= plainSecretKind with
  | None => []
  | Some kind =>
      match filter (fun w => revealsAny (hw_rhs w) tainted = true) (writes_of writes path) with
      | [] => []
      | w :: _ => [MkDiagnostic (hw_pos w) path None kind]
      end
  end.

(** [func checkDerives(pass, call)]. *)
Definition checkDerives (f : node) (args : list node) : list diagnostic :=
  match withDeriveCall f args with
  | None => []
  | Some (t, params, body, writePaths) =>
      match hookWrites params body with
      | [] => []
      | writes => flat_map (check_path t writes (revealedLocals body)) writePaths
      end
  end.

(** [func secretSchemes() (sourcetag.SchemeSet, error)]. *)
Definition secretSchemes (extraSchemes : string) : res SchemeSet :=
  (fun extra => SchemeSet_Add DefaultSecretSchemes extra) <$> ParseSchemeList extraSchemes.

(** What [run] does at one node. *)
Definition vet_node (schemes : SchemeSet) (n : node) : list diagnostic :=
  match n with
  | StructType id fields => flat_map (checkField schemes id) fields
  | CallExpr _ f args => checkDerives f args
  | _ => []
  end.

(** [func run(pass *analysis.Pass) (any, error)], on the files of the package. *)
Definition vet_run (extraSchemes : string) (files : list node) : res (list diagnostic) :=
  (fun schemes => flat_map (vet_node schemes) (flat_map Inspect files)) <$> secretSchemes extraSchemes.
End analyzer.

(** * The command *)

(** [func parseVetArgs(args)]: the patterns and the scheme list. *)
Fixpoint vet_args_loop (patterns : list string) (schemes : string) (args : list string) : res (list string * string) :=
  match args with
  | [] => Ok (patterns, schemes)
  | a :: rest =>
      if flag_alone "secret-schemes" a then
        match rest with
        | [] => Err errUsage
        | v :: rest => vet_args_loop patterns v rest
        end
      else
        match flag_inline "secret-schemes" a with
        | Some v => vet_args_loop patterns v rest
        | None => if HasPrefix a "-" then Err errUsage else vet_args_loop (patterns ++ [a])%list schemes rest
        end
  end.
Definition parseVetArgs (args : list string) : res (list string * string) :=
  match vet_args_loop [] "" args with
  | Err e => Err e
  | Ok (patterns, schemes) => (fun _ => (patterns, schemes)) <$> ParseSchemeList schemes
  end.

(** [func vetCmd(args, stdout, stderr) int]. [load] is [packages.Load] with the errors
    of the packages, and [analyze] the driver of x/tools over the analyzer with its
    flag set: the diagnostics of a package, or its error. *)
Definition vetCmd {P} (load : list string -> res (list P)) (analyze : string -> P -> res (list diagnostic)) (args : list string)
    : Z * list diagnostic :=
  if wantsHelp args then (0, [])
  else
    match parseVetArgs args with
    | Err _ => (1, [])
    | Ok (patterns, schemes) =>
        match load (if bool_decide (patterns = []) then ["./..."] else patterns) with
        | Err _ => (1, [])
        | Ok pkgs =>
            let acts := map (analyze schemes) pkgs in
            let found := flat_map (fun act => match act with Ok ds => ds | Err _ => [] end) acts in
            (if forallb is_ok acts && bool_decide (length found = 0%nat) then 0 else 1, found)
        end
    end.

(** [func isVetToolInvocation(args []string) bool]. *)
Definition isVetToolInvocation (args : list string) : bool :=
  existsb (fun a => bool_decide (a = "-flags") || bool_decide (a = "-V") || HasPrefix a "-V=") args ||
  match last args with Some a => HasSuffix a ".cfg" | None => false end.
