(* ===== verification/Laundering.v ===== *)
(** What the analyzer of [mamori vet] is worth: derive hooks as programs over the
    fields of a configuration, and the proof that a hook it is silent about does not
    put the content of a secret into a plain field; what it sees of a source tag; the
    calls of WithDerive that are listed; and the places where it is blind. *)

From S2P Require Import Prelude Errors GoStrings Ref Provider Decode GoNumbers Fields SourceTag PolicyDoc GoAst Vet.
Open Scope string_scope.
Open Scope Z_scope.

(** * Hooks as programs *)

(** A value in a hook: a text, or a secret with its content. *)
Inductive hval := Plain (s : string) | Secret (content : string).

Record hook_state := MkHookState { hs_fields : gmap string hval; hs_locals : gmap string hval }.

Section hooks.
Context (info : types_Info) (recv : string) (T : gotype).

(** [secret.NewString]. *)
Definition is_NewString (f : node) : bool :=
  match callee_ident f ≫= info_Uses info with
  | Some (MkFunc (Some pkg) name) => bool_decide (pkg = secretPkgPath) && bool_decide (name = "NewString")
  | _ => false
  end.

(** The expressions of a straight-line hook: literals, locals, fields of its parameter,
    concatenations, [x.Reveal()] and [secret.NewString(x)]. *)
Fixpoint eval (st : hook_state) (n : node) : option hval :=
  match fieldPathOf n recv with
  | Some path => hs_fields st !! path
  | None =>
      match n with
      | BasicLit _ v => Some (Plain v)
      | Ident _ x => hs_locals st !! x
      | ParenExpr _ x => eval st x
      | BinaryExpr _ x y =>
          match eval st x, eval st y with Some (Plain a), Some (Plain b) => Some (Plain (a ++ b)) | _, _ => None end
      | CallExpr _ f args =>
          match args with
          | [] =>
              match f with
              | SelectorExpr _ x _ _ =>
                  if isRevealCall info f then match eval st x with Some (Secret s) => Some (Plain s) | _ => None end else None
              | _ => None
              end
          | [a] => if is_NewString f then match eval st a with Some (Plain s) => Some (Secret s) | _ => None end else None
          | _ => None
          end
      | _ => None
      end
  end.

(** The types of package secret, and the types [string] and [[]byte], under whatever
    alias. *)
Definition is_secret_type (t : gotype) : bool :=
  match Unalias t with
  | Named (Some pkg) name => bool_decide (pkg = secretPkgPath) && bool_decide (name ∈ ["String"; "Bytes"])
  | _ => false
  end.

Definition is_text_type (t : gotype) : bool :=
  match Unalias t with
  | Basic_String => true
  | Slice e => match Unalias e with Basic_Byte => true | _ => false end
  | _ => false
  end.

(** What the compiler refuses of an assignment to a field: a text where the type is a
    secret, and a secret where it is a text. A field of any other type - a named type, an
    interface - may take either: what is left to the compiler there is not restricted
    here. *)
Definition fits_field (path : string) (v : hval) : bool :=
  match fieldTypeByPath info T path, v with
  | Some t, Plain _ => negb (is_secret_type t)
  | Some t, Secret _ => negb (is_text_type t)
  | None, _ => false
  end.

(** A field whose type is spelled as one of those the analyzer tells apart: string,
    []byte, or a type of package secret. *)
Definition plainly_typed (path : string) : Prop :=
  exists t, fieldTypeByPath info T path = Some t /\ (is_Some (plainSecretKind t) \/ is_secret_type t = true).

Definition assign_one (st : hook_state) (l : node) (v : hval) : option hook_state :=
  match fieldPathOf l recv with
  | Some path => if fits_field path v then Some (MkHookState (<[path := v]> (hs_fields st)) (hs_locals st)) else None
  | None =>
      match l with
      | Ident _ x =>
          if bool_decide (x = recv) then None
          else if bool_decide (x = "_") then Some st
          else Some (MkHookState (hs_fields st) (<[x := v]> (hs_locals st)))
      | _ => None
      end
  end.
Fixpoint assign_all (st : hook_state) (lhs : list node) (vs : list hval) : option hook_state :=
  match lhs, vs with
  | [], [] => Some st
  | l :: lhs, v :: vs => assign_one st l v ≫= fun st => assign_all st lhs vs
  | _, _ => None
  end.

(** A body: assignments, the right-hand sides first, and a last [return nil]. *)
Fixpoint exec (st : hook_state) (body : list node) : option hook_state :=
  match body with
  | AssignStmt _ lhs rhs :: body => mapM (eval st) rhs ≫= fun vs => assign_all st lhs vs ≫= fun st => exec st body
  | [Other _ [Ident _ name]] => if bool_decide (name = "nil") then Some st else None
  | _ => None
  end.
End hooks.

(** A hook on the fields of a configuration. *)
Definition run_hook (info : types_Info) (t : gotype) (params : list (list (nat * string) * node)) (body : list node)
    (fields : gmap string hval) : option (gmap string hval) :=
  hookParamName params ≫= fun recv => hs_fields <$> exec info recv t (MkHookState fields ∅) body.

(** * What cannot be told apart *)

(** Two values that differ at most in the content of a secret, or in a text that is
    allowed to depend on one. *)
Definition rel (revealed : bool) (v v' : hval) : Prop :=
  match v, v' with
  | Plain a, Plain b => revealed = false -> a = b
  | Secret _, Secret _ => True
  | _, _ => False
  end.

(** The same plain texts, and secrets in the same places. *)
Definition same_but_secrets (m m' : gmap string hval) : Prop := forall k, option_Forall2 (rel false) (m !! k) (m' !! k).

Definition rel_state (tainted : gset string) (st st' : hook_state) : Prop :=
  same_but_secrets (hs_fields st) (hs_fields st') /\
  forall k, option_Forall2 (rel (bool_decide (k ∈ tainted))) (hs_locals st !! k) (hs_locals st' !! k).

Lemma rel_weaken b b' v v' : (b = true -> b' = true) -> rel b v v' -> rel b' v v'.
Proof. destruct v, v'; simpl; try done. intros H Hr ->. apply Hr. by destruct b; [specialize (H eq_refl)|]. Qed.

Lemma rel_option_weaken b b' (o o' : option hval) :
  (b = true -> b' = true) -> option_Forall2 (rel b) o o' -> option_Forall2 (rel b') o o'.
Proof. intros H. destruct 1; constructor. by eapply rel_weaken. Qed.

Lemma rel_state_weaken t t' st st' : t ⊆ t' -> rel_state t st st' -> rel_state t' st st'.
Proof.
  intros Ht [Hf Hl]. split; [done|]. intros k. eapply rel_option_weaken; [|apply Hl].
  rewrite !bool_decide_eq_true. set_solver.
Qed.

(** * Taint only grows *)

Section taint.
Context (info : types_Info).

Lemma reveals_node_mono t t' n : t ⊆ t' -> reveals_node info t n = true -> reveals_node info t' n = true.
Proof. destruct n; simpl; try done. rewrite !bool_decide_eq_true. set_solver. Qed.

Lemma revealsAny_mono es t t' : t ⊆ t' -> revealsAny info es t = true -> revealsAny info es t' = true.
Proof.
  intros Ht. unfold revealsAny. rewrite !existsb_exists. intros (e & He & H). exists e. split; [done|].
  apply existsb_exists in H as (n & Hn & H). apply existsb_exists. exists n. split; [done|]. by eapply reveals_node_mono.
Qed.

Lemma taint_lhs_grows lhs rhs i rest t : t ⊆ taint_lhs info lhs rhs i rest t.
Proof.
  revert i t. induction rest as [|l rest IH]; intros i t; simpl; [done|].
  etrans; [|apply IH]. destruct l; repeat case_match; set_solver.
Qed.

Lemma taint_grows t ns : t ⊆ foldl (taint_node info) t ns.
Proof.
  revert t. induction ns as [|n ns IH]; intros t; simpl; [done|]. etrans; [|apply IH].
  destruct n; try done. apply taint_lhs_grows.
Qed.

(** An assigned local is tainted as soon as what feeds it is. *)
Lemma taint_lhs_taints lhs rhs i rest t j id x :
  rest !! j = Some (Ident id x) -> x <> "_" -> revealsAny info (feeding lhs rhs (i + j)) t = true ->
  x ∈ taint_lhs info lhs rhs i rest t.
Proof.
  revert i t j. induction rest as [|l rest IH]; intros i t [|j] Hj Hx Hr; simplify_eq/=.
  - rewrite Nat.add_0_r in Hr. rewrite bool_decide_eq_false_2, Hr by done. by apply taint_lhs_grows, elem_of_union_r, elem_of_singleton.
  - apply (IH (S i) _ j Hj Hx). replace (S i + j)%nat with (i + S j)%nat by lia.
    eapply revealsAny_mono; [|exact Hr]. destruct l; repeat case_match; set_solver.
Qed.

Lemma feeding_one lhs rhs i r : length rhs = length lhs -> rhs !! i = Some r -> feeding lhs rhs i = [r].
Proof.
  intros Hl Hr. unfold feeding. rewrite (proj2 (Nat.eqb_eq _ _) Hl). by rewrite (drop_S _ _ _ Hr).
Qed.

(** * Expressions *)

Context (recv : string).

Lemma revealsAny_one n t : revealsAny info [n] t = existsb (reveals_node info t) (Inspect n).
Proof. unfold revealsAny. simpl. by rewrite orb_false_r. Qed.

(** An expression depends on a secret only where the analyzer says it may. *)
Lemma eval_rel t st st' n : rel_state t st st' ->
  option_Forall2 (rel (revealsAny info [n] t)) (eval info recv st n) (eval info recv st' n).
Proof.
  intros [Hf Hl]. assert (Hw : forall (n : node) path, fieldPathOf n recv = Some path ->
    option_Forall2 (rel (revealsAny info [n] t)) (hs_fields st !! path) (hs_fields st' !! path)).
  { intros n' path _. by eapply rel_option_weaken; [|apply Hf]. }
  revert n. fix IH 1. intros n. destruct (fieldPathOf n recv) as [path|] eqn:Ep.
  { destruct n; cbn [eval]; rewrite ?Ep; try done; by apply Hw. }
  destruct n as [id x|id v|id x sid sel|id x i|id x|id x|id x y|id f args|id lhs rhs|id ps rs body|id fs|id cs];
    cbn [eval]; rewrite Ep; try by constructor.
  - rewrite revealsAny_one. simpl. rewrite orb_false_r. apply Hl.
  - pose proof (IH x) as Hx. rewrite revealsAny_one in Hx |- *. simpl. done.
  - pose proof (IH x) as Hx. pose proof (IH y) as Hy. rewrite revealsAny_one in Hx, Hy |- *. simpl. rewrite existsb_app.
    destruct Hx as [[a|a] [a'|a'] Hx|], Hy as [[b|b] [b'|b'] Hy|]; try done; constructor. simpl in *.
    intros [Ha Hb]%orb_false_iff. by rewrite (Hx Ha), (Hy Hb).
  - destruct args as [|a [|b args]]; [| |by constructor].
    + destruct f as [| |fid x sid sel| | | | | | | | |]; try by constructor.
      destruct (isRevealCall info (SelectorExpr fid x sid sel)) eqn:Er; [|by constructor].
      pose proof (IH x) as Hx. rewrite (revealsAny_one (CallExpr _ _ _)). cbn [Inspect existsb reveals_node]. rewrite Er.
      destruct Hx as [[s|s] [s'|s'] Hx|]; try done; by constructor.
    + destruct (is_NewString info f); [|by constructor].
      pose proof (IH a) as Ha. destruct Ha as [[s|s] [s'|s'] Ha|]; try done; by constructor.
Qed.
End taint.

(** * Assignments *)

Section hook.
Context (info : types_Info) (recv : string) (T : gotype).

(** What an assignment may do: a plain field takes only what does not depend on a
    secret, and a local that takes what does is tainted. *)
Definition allowed (t : gset string) (l : node) (revealed : bool) : Prop :=
  match fieldPathOf l recv with
  | Some path => plainly_typed info T path /\
                 (is_Some (fieldTypeByPath info T path ≫= plainSecretKind) -> revealed = false)
  | None => forall id x, l = Ident id x -> x <> "_" -> revealed = true -> x ∈ t
  end.

Lemma assign_one_rel t st st' l b v v' : allowed t l b -> rel b v v' -> rel_state t st st' ->
  option_Forall2 (rel_state t) (assign_one info recv T st l v) (assign_one info recv T st' l v').
Proof.
  unfold allowed, assign_one. intros Ha Hv [Hf Hl]. destruct (fieldPathOf l recv) as [path|].
  - destruct Ha as [(ty & Et & Hty) Ha]. unfold fits_field. rewrite Et in Ha |- *. simpl in Ha.
    assert (Hins : forall u u', rel false u u' -> option_Forall2 (rel_state t)
      (Some (MkHookState (<[path := u]> (hs_fields st)) (hs_locals st)))
      (Some (MkHookState (<[path := u']> (hs_fields st')) (hs_locals st')))).
    { intros u u' Hu. constructor. split; [|done]. intros k. simpl. destruct (decide (k = path)) as [->|].
      - rewrite !lookup_insert_eq. by constructor.
      - rewrite !lookup_insert_ne by done. apply Hf. }
    destruct v as [s|s], v' as [s'|s']; try done.
    + destruct (is_secret_type ty); simpl; [constructor|]. apply Hins. destruct Hty as [Hk|]; [|done].
      by rewrite (Ha Hk) in Hv.
    + destruct (is_text_type ty); simpl; [constructor|]. by apply Hins.
  - destruct l as [id x| | | | | | | | | | |]; try by constructor. case_bool_decide; [by constructor|].
    case_bool_decide as Hx; [by constructor|]. constructor. split; [done|]. intros k. simpl.
    destruct (decide (k = x)) as [->|].
    + rewrite !lookup_insert_eq. constructor. eapply rel_weaken; [|exact Hv]. intros Hb. apply bool_decide_eq_true. by eapply Ha.
    + rewrite !lookup_insert_ne by done. apply Hl.
Qed.

Lemma assign_all_rel t lhs bs vs vs' st st' : length bs = length lhs ->
  (forall i l b, lhs !! i = Some l -> bs !! i = Some b -> allowed t l b) ->
  Forall2 (fun b p => rel b p.1 p.2) bs (zip vs vs') -> length vs = length vs' ->
  rel_state t st st' ->
  option_Forall2 (rel_state t) (assign_all info recv T st lhs vs) (assign_all info recv T st' lhs vs').
Proof.
  revert bs vs vs' st st'. induction lhs as [|l lhs IH]; intros [|b bs] [|v vs] [|v' vs'] st st'; simpl;
    intros Hlen Ha Hv Hl Hs; simplify_eq; try (by inversion Hv); try (by constructor).
  inversion Hv as [|? ? ? ? Hv1 Hv2]; subst.
  destruct (assign_one_rel t st st' l b v v' (Ha 0%nat l b eq_refl eq_refl) Hv1 Hs) as [s1 s1' H1|]; simpl; [|constructor].
  apply (IH bs); try done; try lia. intros i l' b' Hi Hb. by apply (Ha (S i)).
Qed.

(** The values of the right-hand sides. *)
Lemma mapM_rel t st st' rhs : rel_state t st st' ->
  match mapM (eval info recv st) rhs, mapM (eval info recv st') rhs with
  | Some vs, Some vs' =>
      length vs = length rhs /\ length vs' = length rhs /\
      Forall2 (fun b p => rel b p.1 p.2) (map (fun r => revealsAny info [r] t) rhs) (zip vs vs')
  | None, None => True
  | _, _ => False
  end.
Proof.
  intros Hs. induction rhs as [|r rhs IH]; simpl; [by repeat constructor|].
  destruct (eval_rel info recv t st st' r Hs) as [v v' Hv|]; simpl; [|done].
  destruct (mapM (eval info recv st) rhs) as [vs|], (mapM (eval info recv st') rhs) as [vs'|]; simpl; try done.
  destruct IH as (H1 & H2 & H3). split_and!; [lia|lia|]. by constructor.
Qed.

(** * Bodies *)

(** What the silence of the analyzer gives for every assignment of a body, with the
    taint of the whole hook. *)
Definition quiet (t : gset string) (n : node) : Prop :=
  match n with
  | AssignStmt _ lhs rhs => forall i l r path, lhs !! i = Some l -> rhs !! i = Some r -> length rhs = length lhs ->
      fieldPathOf l recv = Some path -> plainly_typed info T path /\ (is_Some (fieldTypeByPath info T path ≫= plainSecretKind) -> revealsAny info [r] t = false)
  | _ => True
  end.

Lemma exec_rel body t tall st st' :
  Forall (quiet tall) body -> foldl (taint_node info) t (flat_map Inspect body) ⊆ tall -> rel_state t st st' ->
  option_Forall2 (fun s s' => same_but_secrets (hs_fields s) (hs_fields s'))
    (exec info recv T st body) (exec info recv T st' body).
Proof.
  revert t st st'. induction body as [|n body IH]; intros t st st' Hq Ht Hs; [by constructor|].
  apply Forall_cons in Hq as [Hn Hq].
  destruct n as [| | | | | | | |id lhs rhs| | |id cs]; try by constructor.
  - cbn [exec]. pose proof (mapM_rel t st st' rhs Hs) as Hm.
    destruct (mapM (eval info recv st) rhs) as [vs|], (mapM (eval info recv st') rhs) as [vs'|]; simpl; try done; [|by constructor].
    destruct Hm as (H1 & H2 & H3). cbn [flat_map] in Ht. rewrite foldl_app in Ht. cbn [Inspect foldl taint_node] in Ht.
    set (t1 := taint_lhs info lhs rhs 0 lhs t) in *.
    set (t2 := foldl (taint_node info) t1 (flat_map Inspect lhs ++ flat_map Inspect rhs)%list) in *.
    assert (G1 : t ⊆ t1) by apply taint_lhs_grows. assert (G2 : t1 ⊆ t2) by apply taint_grows.
    assert (G3 : t2 ⊆ tall) by (etrans; [apply taint_grows|exact Ht]).
    assert (Ha : option_Forall2 (rel_state t2) (assign_all info recv T st lhs vs) (assign_all info recv T st' lhs vs')).
    { destruct (decide (length rhs = length lhs)) as [Hlen|Hlen].
      - apply (assign_all_rel t2 lhs (map (fun r => revealsAny info [r] t) rhs)); [by rewrite length_map| |done|lia|].
        2: { eapply rel_state_weaken; [|exact Hs]. set_solver. }
        intros i l b Hi Hb. rewrite list_lookup_fmap in Hb. destruct (rhs !! i) as [r|] eqn:Er; [|done]. injection Hb as <-.
        unfold allowed. destruct (fieldPathOf l recv) as [path|] eqn:Ep.
        + destruct (Hn i l r path Hi Er Hlen Ep) as [Htyped Hn']. split; [done|]. intros Hk. specialize (Hn' Hk).
          destruct (revealsAny info [r] t) eqn:E; [|done]. rewrite (revealsAny_mono info [r] t tall) in Hn'; [done|set_solver|done].
        + intros id' x -> Hx Hr. apply G2. eapply (taint_lhs_taints info lhs rhs 0 lhs t i); try done.
          simpl. by rewrite (feeding_one lhs rhs i r).
      - assert (forall s (l : list node) (ws : list hval), length l <> length ws -> assign_all info recv T s l ws = None) as Hno.
        { clear. intros s l. revert s. induction l as [|x l IH]; intros s [|w ws]; simpl; try done; try (by intros []).
          intros Hne. destruct (assign_one _ _ _ _ _ _); simpl; [|done]. apply IH. lia. }
        rewrite !Hno by lia. constructor. }
    destruct Ha as [s s' Hss|]; simpl; [|constructor]. apply (IH t2); done.
  - cbn [exec]. destruct cs as [|[id' name| | | | | | | | | | |] [|? ?]]; try by constructor.
    destruct body; [|by constructor]. case_bool_decide; constructor. apply Hs.
Qed.
End hook.

(** What the silence of [checkDerives] says of an assignment of the body. *)
Lemma silent_is_quiet info quoted_runes f args t params body paths recv :
  withDeriveCall quoted_runes info f args = Some (t, params, body, paths) -> hookParamName params = Some recv ->
  checkDerives quoted_runes info f args = [] ->
  Forall (fun pw => pw.1 ∈ paths /\ plainly_typed info t pw.1) (hookWrites params body) ->
  Forall (quiet info recv t (revealedLocals info body)) body.
Proof.
  intros Hc Hr Hd Hp. apply Forall_forall. intros n Hn. destruct n as [| | | | | | | |pos lhs rhs| | |]; try done.
  intros i l r path Hi Hri Hlen Hpath.
  assert (Hw : (path, MkWrite pos [r]) ∈ hookWrites params body).
  { unfold hookWrites. rewrite Hr. apply list_elem_of_In, in_flat_map. exists (AssignStmt pos lhs rhs). split.
    - apply in_flat_map. exists (AssignStmt pos lhs rhs). split; [by apply list_elem_of_In|by left].
    - simpl. assert (G : forall k rest, rest !! k = Some l -> forall j, feeding lhs rhs (j + k) = [r] ->
        In (path, MkWrite pos [r]) (write_lhs recv pos lhs rhs j rest)).
      { clear -Hpath. intros k rest. revert k. induction rest as [|l' rest IH]; intros [|k] Hk j Hf; simplify_eq/=.
        - rewrite Hpath, Nat.add_0_r in *. rewrite Hf. by left.
        - apply in_or_app. right. apply (IH k); [done|]. replace (S j + k)%nat with (j + S k)%nat by lia. done. }
      apply (G i); [done|]. simpl. by apply feeding_one. }
  destruct (proj1 (Forall_forall _ _) Hp _ Hw) as [Hin Htyped]. simpl in Hin, Htyped. split; [done|]. intros [kind Hk]. clear Hp Htyped.
  unfold checkDerives in Hd. rewrite Hc in Hd. destruct (hookWrites params body) as [|w0 writes] eqn:Ew; [by apply not_elem_of_nil in Hw|].
  rewrite <- Ew in *. clear Ew w0 writes.
  assert (Hz : check_path info t (hookWrites params body) (revealedLocals info body) path = []).
  { destruct (check_path _ _ _ _ path) as [|d ds] eqn:E; [done|]. exfalso. eapply (in_nil (a := d)). rewrite <- Hd.
    apply in_flat_map. exists path. split; [by apply list_elem_of_In|]. rewrite E. by left. }
  unfold check_path in Hz. rewrite Hk in Hz.
  destruct (filter _ (writes_of _ path)) as [|w ws] eqn:Ef; [|done].
  destruct (revealsAny info [r] (revealedLocals info body)) eqn:E; [|done].
  assert (Hbad : MkWrite pos [r] ∈ @nil hookWrite); [|by apply not_elem_of_nil in Hbad].
  rewrite <- Ef. apply list_elem_of_filter. split; [done|]. unfold writes_of. apply list_elem_of_In, in_map_iff.
  exists (path, MkWrite pos [r]). split; [done|]. apply list_elem_of_In, list_elem_of_filter. done.
Qed.

(** * Properties *)


(** ** A hook *)

(** type Config struct { User string; Pass, Safe secret.String; Name string }, and a
    call of WithDerive on it: the identifiers 1 and 2 are WithDerive and NewString, 3 is
    the field Pass, 4 and 5 are the declared paths. *)
Definition demo_info : types_Info :=
  MkInfo (fun id => match id with
            | 1%nat => Some (MkFunc (Some mamoriPkgPath) "WithDerive")
            | 2%nat => Some (MkFunc (Some secretPkgPath) "NewString")
            | _ => None end)
    (fun id => if (id =? 1)%nat then Some [Named (Some "app") "Config"] else None)
    (fun id => if (id =? 3)%nat then Some (Named (Some secretPkgPath) "String") else None)
    (fun id => match id with 4%nat => Some (Some "Safe") | 5%nat => Some (Some "Name") | _ => None end)
    (fun _ name => if bool_decide (name = "Config")
       then Struct [("User", Basic_String); ("Pass", Named (Some secretPkgPath) "String");
                    ("Safe", Named (Some secretPkgPath) "String"); ("Name", Basic_String)]
       else OtherType).

Definition demo_field (name : string) : node := SelectorExpr 0 (Ident 0 "c") 0 name.
Definition demo_reveal : node := CallExpr 0 (SelectorExpr 0 (SelectorExpr 3 (Ident 0 "c") 0 "Pass") 0 "Reveal") [].
(** plain := c.Pass.Reveal(); c.Safe = secret.NewString("pg://" + plain); c.Name = "u-" + last; return nil *)
Definition demo_body (last : node) : list node :=
  [ AssignStmt 10 [Ident 0 "plain"] [demo_reveal];
    AssignStmt 11 [demo_field "Safe"]
      [CallExpr 0 (SelectorExpr 0 (Ident 0 "secret") 2 "NewString") [BinaryExpr 0 (BasicLit 0 "pg://") (Ident 0 "plain")]];
    AssignStmt 12 [demo_field "Name"] [BinaryExpr 0 (BasicLit 0 "u-") last];
    Other 13 [Ident 0 "nil"] ].
Definition demo_params : list (list (nat * string) * node) := [([(0%nat, "c")], StarExpr 0 (Ident 0 "Config"))].
Definition demo_args (last : node) : list node :=
  [FuncLit 0 demo_params [Ident 0 "error"] (demo_body last); BasicLit 4 "Safe"; BasicLit 5 "Name"].
Definition demo_fields (pass : string) : gmap string hval := {["User" := Plain "ana"; "Pass" := Secret pass]}.

Lemma demo_writes :
  Forall (fun pw => pw.1 ∈ ["Safe"; "Name"] /\ plainly_typed demo_info (Named (Some "app") "Config") pw.1)
    (hookWrites demo_params (demo_body (demo_field "User"))).
Proof.
  assert (Hp : forall path ty, fieldTypeByPath demo_info (Named (Some "app") "Config") path = Some ty ->
    (is_Some (plainSecretKind ty) \/ is_secret_type ty = true) -> plainly_typed demo_info (Named (Some "app") "Config") path)
    by (intros; by eexists).
  assert (Hw : map fst (hookWrites demo_params (demo_body (demo_field "User"))) = ["Safe"; "Name"]) by (by vm_compute).
  apply Forall_forall. intros pw Hin. assert (Hp1 : pw.1 ∈ ["Safe"; "Name"]) by (rewrite <- Hw; by apply list_elem_of_fmap_2).
  split; [done|]. repeat (apply elem_of_cons in Hp1 as [->|Hp1]); [| |by apply elem_of_nil in Hp1].
  - apply (Hp _ (Named (Some secretPkgPath) "String")); [by vm_compute|by right].
  - apply (Hp _ Basic_String); [by vm_compute|left; by eexists].
Qed.


(** The same hook with the password in the name is reported, at the assignment. *)
Example laundering_is_reported :
  checkDerives String.length demo_info (Ident 1 "WithDerive") (demo_args (Ident 0 "plain")) = [MkDiagnostic 12 "Name" None "string"].
Proof. vm_compute. reflexivity. Qed.

(** ** Where it is blind *)

(** A write path of more than seventy characters is not read: the text of a long
    constant is shortened, and the call is then a call without that path. *)
Lemma long_path_is_not_checked quoted_runes info a value :
  info_Types info (node_id a) = Some (Some value) -> (72 < quoted_runes value)%nat -> declared_path quoted_runes info a = None.
Proof. intros Ha Hl. unfold declared_path, constant_path. rewrite Ha. unfold constant_maxLen. by case_match eqn:E; [|apply Nat.ltb_ge in E; lia]. Qed.

(** A field whose type is an alias of string, type text = string, holds plain text
    like any other, and is not reported. *)
Lemma alias_is_not_plain : plainSecretKind (Alias Basic_String) = None /\ Unalias (Alias Basic_String) = Basic_String.
Proof. done. Qed.

(** So the hook that puts the password in the name, which is reported above, is not when
    Name is declared with such an alias, and the name tells the password. *)
Definition alias_info : types_Info :=
  MkInfo (info_Uses demo_info) (info_Instances demo_info) (info_TypeOf demo_info) (info_Types demo_info)
    (fun _ name => if bool_decide (name = "Config")
       then Struct [("User", Basic_String); ("Pass", Named (Some secretPkgPath) "String");
                    ("Safe", Named (Some secretPkgPath) "String"); ("Name", Alias Basic_String)]
       else OtherType).

Lemma alias_hook_leaks :
  checkDerives String.length alias_info (Ident 1 "WithDerive") (demo_args (Ident 0 "plain")) = [] /\
  forall pass, (run_hook alias_info (Named (Some "app") "Config") demo_params (demo_body (Ident 0 "plain"))
    (demo_fields pass) ≫= lookup "Name") = Some (Plain ("u-" ++ pass)).
Proof. split; [by vm_compute|]. intros pass. reflexivity. Qed.

(** * Source tags, as explain and as vet read them *)

(** The plain types of the decoder, in either universe. *)
Definition plain_type_of (t : gtype) : option gotype :=
  match t with TString => Some Basic_String | TByteSlice => Some (Slice Basic_Byte) | _ => None end.

(** [explain] and [vet] agree: an exported field with a source tag and a plain type is
    listed as sensitive exactly when its declaration is reported. *)
Theorem vet_agrees_with_explain ExprString Unquote parse_tag info TypeString schemes walk prefix pos name id t lit type fty gt source :
  Unquote lit = Some t -> tag_Lookup (parse_tag t) "source" = Some source ->
  plain_type_of fty = Some gt -> info_TypeOf info (node_id type) = Some gt ->
  checkField ExprString Unquote parse_tag info schemes pos ([(id, name)], Some lit, type) <> [] <->
  map f_Sensitive (walk_static TypeString schemes walk prefix (name, true, parse_tag t, fty)) = [true].
Proof.
  intros Hu Ht Hp Hty. unfold checkField, walk_static. simpl. rewrite Hu. simpl. rewrite Ht, Hty. simpl.
  assert (Hk : is_Some (plainSecretKind gt) /\ is_secret fty = false) by (by destruct fty; simplify_eq/=; split; try eexists).
  destruct Hk as [[kind ->] ->]. simpl. destruct (FirstSensitiveScheme schemes source); simpl; by split.
Qed.

Lemma vet_agrees_with_explain_witness :
  checkField (fun _ => "") Some (fun s => [("source", s)]) (MkInfo (fun _ => None) (fun _ => None) (fun _ => Some Basic_String)
    (fun _ => None) (fun _ _ => OtherType)) DefaultSecretSchemes 7 ([(1%nat, "Pass")], Some "env:P,aws-sm://db#pw", Ident 9 "string") <> [].
Proof.
  apply (vet_agrees_with_explain (fun _ => "") Some (fun s => [("source", s)]) _ (fun _ => "") DefaultSecretSchemes (fun _ _ => []) "" 7
    "Pass" 1%nat "env:P,aws-sm://db#pw" "env:P,aws-sm://db#pw" (Ident 9 "string") TString Basic_String "env:P,aws-sm://db#pw");
    try reflexivity; by vm_compute.
Defined.

(** * The calls that are listed *)

Lemma foldl_flat_map {A B S} (f : S -> B -> S) (g : A -> list B) s (l : list A) :
  foldl f s (flat_map g l) = foldl (fun s x => foldl f s (g x)) s l.
Proof. revert s. induction l as [|x l IH]; intros s; simpl; [done|]. by rewrite foldl_app, IH. Qed.

Lemma foldl_extend {A S} (f g : S -> A -> S) s (l : list A) : (forall s x, f s x = g s x) -> foldl f s l = foldl g s l.
Proof. intros H. revert s. induction l as [|x l IH]; intros s; simpl; [done|]. by rewrite H, IH. Qed.

(** The arguments that come after the hook of a call of WithDerive. *)
Definition node_args (info : types_Info) (n : node) : list (types_Info * (string * string) * node) :=
  match n with
  | CallExpr _ f args => match withDeriveTypeArg info f with Some named => map (fun a => (info, named, a)) (tail args) | None => [] end
  | _ => []
  end.
Definition derive_args (pkgs : list (types_Info * list node)) : list (types_Info * (string * string) * node) :=
  flat_map (fun p => flat_map (node_args p.1) (flat_map Inspect p.2)) pkgs.

Lemma findDerives_args q pkgs :
  findDerives q pkgs = foldl (fun d e => derive_arg q e.1.1 e.1.2 d e.2) (MkDerives ∅ ∅) (derive_args pkgs).
Proof.
  unfold findDerives, derive_args. rewrite foldl_flat_map. apply foldl_extend. intros d [info files]. cbn [fst snd].
  rewrite (foldl_flat_map _ (node_args info)). apply foldl_extend. intros d' n. destruct n as [| | | | | | |id f args| | | |]; try done. simpl.
  destruct (withDeriveTypeArg info f) as [named|]; [|done]. generalize (tail args) as l. intros l. revert d'.
  induction l as [|a l IH]; intros d'; simpl; [done|]. apply IH.
Qed.

(** A path is declared for a type exactly when some call, in whatever package, has it
    as an argument that can be read and names a field of the type; and a type is marked
    incomplete exactly when some argument of such a call cannot be read - so a listing
    without the mark has every path there is. *)
Theorem findDerives_spec q pkgs key path :
  (path ∈ default [] (dv_declared (findDerives q pkgs) !! key) <->
   exists info named a, (info, named, a) ∈ derive_args pkgs /\ derivesKey named = key /\
     declared_path q info a = Some path /\ is_Some (fieldTypeByPath info (Named (Some named.1) named.2) path)) /\
  (key ∈ dv_incomplete (findDerives q pkgs) <->
   exists info named a, (info, named, a) ∈ derive_args pkgs /\ derivesKey named = key /\ declared_path q info a = None).
Proof.
  rewrite findDerives_args. generalize (derive_args pkgs) as l. intros l.
  induction l as [|[[info named] a] l [IH1 IH2]] using rev_ind.
  { cbn [foldl dv_declared dv_incomplete]. rewrite lookup_empty. split; (split; [set_solver|]); intros (? & ? & ? & H%not_elem_of_nil & _); done. }
  rewrite foldl_snoc. set (d := foldl _ _ l) in *. unfold derive_arg at 1 2. cbn [fst snd].
  destruct (declared_path q info a) as [p|] eqn:Ep; [destruct (fieldTypeByPath info _ p) as [ft|] eqn:Ef|]; cbn [dv_declared dv_incomplete].
  - split.
    + destruct (decide (derivesKey named = key)) as [Hk|Hk].
      * rewrite Hk, lookup_insert_eq. simpl. rewrite elem_of_app, IH1, list_elem_of_singleton. split.
        -- intros [(i & n & x & H & H')|E]; [exists i, n, x; set_solver|subst path; exists info, named, a; rewrite Ef; set_solver].
        -- intros (i & n & x & H & H1 & H2 & H3). apply elem_of_app in H as [H|H]; [left; naive_solver|].
           apply list_elem_of_singleton in H. simplify_eq. by right.
      * rewrite lookup_insert_ne, IH1 by done. split; [intros (i & n & x & H & H'); exists i, n, x; set_solver|].
        intros (i & n & x & H & H1 & H2). apply elem_of_app in H as [H|H]; [naive_solver|].
        apply list_elem_of_singleton in H. by simplify_eq.
    + rewrite IH2. split; [intros (i & n & x & H & H'); exists i, n, x; set_solver|].
      intros (i & n & x & H & H1 & H2). apply elem_of_app in H as [H|H]; [naive_solver|].
      apply list_elem_of_singleton in H. simplify_eq.
  - rewrite IH1, IH2. split; (split; [intros (i & n & x & H & H'); exists i, n, x; set_solver|]).
    + intros (i & n & x & H & H1 & H2 & [y H3]). apply elem_of_app in H as [H|H]; [naive_solver|].
      apply list_elem_of_singleton in H. simplify_eq.
    + intros (i & n & x & H & H1 & H2). apply elem_of_app in H as [H|H]; [naive_solver|].
      apply list_elem_of_singleton in H. simplify_eq.
  - rewrite IH1, elem_of_union, IH2, elem_of_singleton. split.
    + split; [intros (i & n & x & H & H'); exists i, n, x; set_solver|].
      intros (i & n & x & H & H1 & H2 & H3). apply elem_of_app in H as [H|H]; [naive_solver|].
      apply list_elem_of_singleton in H. simplify_eq.
    + split; [intros [(i & n & x & H & H')|E]; [exists i, n, x; set_solver|exists info, named, a; set_solver]|].
      intros (i & n & x & H & H1 & H2). apply elem_of_app in H as [H|H]; [left; naive_solver|].
      apply list_elem_of_singleton in H. simplify_eq. by right.
Qed.
