(* ===== verification/Explain.v ===== *)
(** The extraction engine of the command line over whole packages (src/cmd/mamori/
    extract.go), the explain command (explain.go), and the comparison of doctor with a
    live report (runCompare of doctor.go). *)

From S2P Require Import Prelude Errors GoStrings Ref Provider Decode GoNumbers Fields Resolve Config Status Bootstrap EngineState Engine SourceTag PolicyDoc SurfaceDiff GoAst Loop EngineFacts Invariant Load LoadFacts Demo.
Open Scope string_scope.
Open Scope Z_scope.

(** * Packages *)

(** A loaded package: its path; its files, each with the struct types it declares - at
    which position, under which name, and the type - in the order [ast.Inspect] meets
    them; its trees and what the type checker knows of them. *)
Record go_package := MkPackage {
  pkg_PkgPath : string;
  pkg_Files : list (string * list (nat * string * gtype));
  pkg_Syntax : list node;
  pkg_Info : types_Info;
}.

(** [type namedStruct struct]. *)
Record namedStruct := MkNamedStruct { ns_name : string; ns_typ : gtype; ns_file : string; ns_pos : nat }.

(** [func hasSourceTaggedField(st *types.Struct) bool]. *)
Definition hasSourceTaggedField (st : gtype) : bool :=
  match st with
  | TStruct fs => existsb (fun f => f.1.1.2 && bool_decide (is_Some (tag_Lookup f.1.2 "source"))) fs
  | _ => false
  end.

(** The visit of [taggedStructs] at the type declarations of one file: a name that was
    found already, or has no tagged field, is passed over. *)
Fixpoint tagged_visit (file : string) (specs : list (nat * string * gtype)) (seen : gset string) : gset string * list namedStruct :=
  match specs with
  | [] => (seen, [])
  | (pos, name, st) :: specs =>
      if bool_decide (name ∈ seen) || negb (hasSourceTaggedField st) then tagged_visit file specs seen
      else
        let '(seen, found) := tagged_visit file specs (seen ∪ {[name]}) in
        (seen, MkNamedStruct name st file pos :: found)
  end.
Fixpoint tagged_files (files : list (string * list (nat * string * gtype))) (seen : gset string) : list namedStruct :=
  match files with
  | [] => []
  | (file, specs) :: files => let '(seen, found) := tagged_visit file specs seen in (found ++ tagged_files files seen)%list
  end.

(** The order of the sort: by file, then by position. *)
Definition declared_before (a b : namedStruct) : Prop :=
  if bool_decide (ns_file a = ns_file b) then (ns_pos a <= ns_pos b)%nat else str_le (ns_file a) (ns_file b).
#[export] Instance declared_before_dec : RelDecision declared_before.
Proof. intros a b. unfold declared_before. destruct (bool_decide (ns_file a = ns_file b)); apply _. Defined.

(** [func taggedStructs(pkg *packages.Package) []namedStruct]. *)
Definition taggedStructs (pkg : go_package) : list namedStruct := merge_sort declared_before (tagged_files (pkg_Files pkg) ∅).

Definition path_before (a b : go_package) : Prop := str_le (pkg_PkgPath a) (pkg_PkgPath b).
#[export] Instance path_before_dec : RelDecision path_before.
Proof. intros a b. unfold path_before. apply _. Defined.

Section extract.
Context (TypeString : gtype -> string) (quoted_runes : string -> nat).
(** [packages.Load], with the errors of the packages. *)
Context (Load : list string -> res (list go_package)).

(** [func loadPackages(patterns)]. *)
Definition loadPackages (patterns : list string) : res (list go_package) := merge_sort path_before <$> Load patterns.

(** [func Extract(patterns, typeName, schemes)]. *)
Definition Extract (patterns : list string) (typeName : string) (schemes : SchemeSet) : res (list StructInfo) :=
  match loadPackages patterns with
  | Err e => Err e
  | Ok sorted =>
      let d := findDerives quoted_runes (map (fun pkg => (pkg_Info pkg, pkg_Syntax pkg)) sorted) in
      Ok (flat_map (fun pkg => flat_map (fun s =>
            if negb (bool_decide (typeName = "")) && negb (bool_decide (ns_name s = typeName)) then []
            else
              let key := pkg_PkgPath pkg ++ "." ++ ns_name s in
              [extract_struct TypeString schemes (pkg_PkgPath pkg) (ns_name s) (ns_typ s)
                 (default [] (dv_declared d !! key)) (bool_decide (key ∈ dv_incomplete d))]) (taggedStructs pkg)) sorted)
  end.

(** * explain *)

(** [func withoutValidateOnly(structs []StructInfo) []StructInfo]. *)
Definition withoutValidateOnly (structs : list StructInfo) : list StructInfo :=
  map (fun s => MkStructInfo (s_Package s) (s_TypeName s) (filter (fun f => f_Kind f <> KindValidate) (s_Fields s)) (s_DerivesIncomplete s))
    structs.

(** What [parseExplainArgs] has read so far. *)
Record explain_args := MkExplainArgs { ea_patterns : list string; ea_type : string; ea_json : bool; ea_extra : string }.

Fixpoint explain_args_loop (o : explain_args) (args : list string) : res explain_args :=
  match args with
  | [] => Ok o
  | a :: rest =>
      if flag_alone "secret-schemes" a then
        match rest with
        | [] => Err errUsage
        | v :: rest => explain_args_loop (MkExplainArgs (ea_patterns o) (ea_type o) (ea_json o) v) rest
        end
      else match flag_inline "secret-schemes" a with
      | Some v => explain_args_loop (MkExplainArgs (ea_patterns o) (ea_type o) (ea_json o) v) rest
      | None =>
          if flag_alone "json" a then explain_args_loop (MkExplainArgs (ea_patterns o) (ea_type o) true (ea_extra o)) rest
          else if flag_alone "type" a then
            match rest with
            | [] => Err errUsage
            | v :: rest => explain_args_loop (MkExplainArgs (ea_patterns o) v (ea_json o) (ea_extra o)) rest
            end
          else match flag_inline "type" a with
          | Some v => explain_args_loop (MkExplainArgs (ea_patterns o) v (ea_json o) (ea_extra o)) rest
          | None =>
              if HasPrefix a "-" then Err errUsage
              else explain_args_loop (MkExplainArgs (ea_patterns o ++ [a]) (ea_type o) (ea_json o) (ea_extra o)) rest
          end
      end
  end.

(** [func parseExplainArgs(args)]. *)
Definition parseExplainArgs (args : list string) : res (list string * string * bool * SchemeSet) :=
  match explain_args_loop (MkExplainArgs [] "" false "") args with
  | Err e => Err e
  | Ok o => (fun schemes => (ea_patterns o, ea_type o, ea_json o, schemes)) <$> secretSchemeSet (ea_extra o)
  end.

(** [func writeExplainTable(stdout, structs)]: for each struct its banner, the cells of
    its rows, and whether the note on incomplete derives follows. *)
Definition explain_row (f : Field) : list string :=
  [f_Path f; f_GoType f; Join (f_Refs f) ", "; (if f_HasDefault f then f_Default f else "-");
   FormatBool (f_Optional f); FormatBool (f_Sensitive f)].
Definition explainHeader : list string := ["FIELD"; "TYPE"; "CHAIN"; "DEFAULT"; "OPTIONAL"; "SENSITIVE"].
Definition writeExplainTable (structs : list StructInfo) : list (string * list (list string) * bool) :=
  map (fun s => (s_Package s ++ "." ++ s_TypeName s, explainHeader :: map explain_row (s_Fields s), s_DerivesIncomplete s)) structs.

(** What the command prints on [stdout]. *)
Inductive explanation := ExplainNothing | ExplainHelp | ExplainJSON (structs : list StructInfo) | ExplainTable (t : list (string * list (list string) * bool)).

(** [func explainCmd(args, stdout, stderr) int]. *)
Definition explainCmd (args : list string) : Z * explanation :=
  if wantsHelp args then (0, ExplainHelp)
  else
    match parseExplainArgs args with
    | Err _ => (1, ExplainNothing)
    | Ok (patterns, typeName, jsonOut, schemes) =>
        match Extract patterns typeName schemes with
        | Err _ => (1, ExplainNothing)
        | Ok structs =>
            let structs := withoutValidateOnly structs in
            (0, if jsonOut then ExplainJSON structs else ExplainTable (writeExplainTable structs))
        end
    end.

(** * doctor --compare *)

(** The field paths of the source, and those of the live report: a derived field is on
    neither side. *)
Definition source_paths (structs : list StructInfo) : gset string :=
  list_to_set (flat_map (fun s => map f_Path (filter (fun f => f_Kind f = KindSource) (s_Fields s))) structs).
Definition live_rows (rep : Report) : list FieldStatus := filter (fun f => fs_Derived f = false) (rep_Fields rep).
Definition live_paths (rep : option Report) : gset string :=
  match rep with Some rep => list_to_set (map fs_Path (live_rows rep)) | None => ∅ end.

(** [func runCompare(stdout, stderr, patterns, rep, schemes)]: what is only in the
    source, and what is only live, both sorted; or the error of the extraction. *)
Definition runCompare (patterns : list string) (rep : option Report) (schemes : SchemeSet) : res (list string * list string) :=
  (fun structs =>
     let source := source_paths structs in
     let live := live_paths rep in
     (merge_sort str_le (elements (source ∖ live)), merge_sort str_le (elements (live ∖ source)))) <$> Extract patterns "" schemes.
End extract.

(** * Facts *)

(** The paths the two walks give are the same, whatever the source tags hold. *)
Lemma walk_paths gz vars TypeString schemes ty : is_leaf_struct ty = true -> forall prefix index specs,
  walk_type gz vars ty prefix index = Ok specs ->
  map f_Path (sourced (walkFields TypeString schemes ty prefix)) = map spec_Path specs.
Proof.
  induction ty as [fs IH|ty Hty] using gtype_ind'; [|by rewrite Hty]. intros _ prefix index specs. simpl.
  generalize 0%nat as i. revert specs. induction fs as [|f fs IHfs]; intros specs i; simpl; [by intros [= <-]|].
  apply Forall_cons in IH as [IHf IHall].
  destruct (walk_field gz vars (walk_type gz vars) prefix index i f) as [s1|] eqn:Ef; [|done].
  destruct (walk_fields gz vars (walk_type gz vars) prefix index fs (S i)) as [s2|] eqn:Efs; [|done].
  intros [= <-]. rewrite filter_app, !map_app, (IHfs IHall _ _ Efs). f_equal.
  destruct f as [[[name exported] t] fty]. unfold walk_field in Ef. unfold walk_static. simpl in *.
  destruct exported; simpl in *; [|by injection Ef as <-]. destruct (tag_Lookup t "source") as [source|].
  - destruct (walk_leaf _ _ _ _ _ _ _) as [spec|] eqn:El; [|done]. injection Ef as <-. rewrite filter_cons_True by done. simpl.
    f_equal. unfold walk_leaf in El. by repeat case_match; simplify_eq/=.
  - destruct (is_leaf_struct fty) eqn:El; [by eapply IHf|]. injection Ef as <-. by destruct (bool_decide _).
Qed.

Lemma extracted_paths gz vars TypeString schemes pkg name ty declared incomplete specs : fieldSpecs gz vars ty = Ok specs ->
  map f_Path (sourced (s_Fields (extract_struct TypeString schemes pkg name ty declared incomplete))) = map spec_Path specs.
Proof.
  intros Hs. assert (Hl : is_leaf_struct ty = true) by (unfold fieldSpecs in Hs; by destruct ty).
  rewrite <- (walk_paths gz vars TypeString schemes ty Hl "" [] specs Hs). f_equal.
  apply (extracted_sourced TypeString schemes (MkConfig pkg name ty declared)).
Qed.

Section reports.
Context {W T View : Type} `{Env W} `{Config T View}.
Context (P : params W T).

(** The rows of a watcher's report that are not derived are those of its specs. *)
Lemma report_rows e now stale maxAge :
  map fs_Path (live_rows (Status (buildReport P e) now stale maxAge)) = map spec_Path (p_specs P).
Proof.
  unfold live_rows, Status, buildReport. cbn [rep_Fields]. rewrite map_app, filter_app, map_app.
  assert (Hd : forall l, filter (fun f => fs_Derived f = false) (map (refresh_field now stale) (omap (derived_status (e_lastGood e)) l)) = []).
  { intros l. induction l as [|p l IH]; [done|]. simpl. unfold derived_status. destruct (cfg_view _ p); simpl; [|done].
    rewrite filter_cons_False; [done|]. unfold refresh_field. simpl. done. }
  rewrite Hd. simpl. rewrite app_nil_r. generalize (clock_now e). intros t.
  assert (G : forall specs (f : nat -> fieldSpec -> FieldStatus),
    (forall i s, fs_Path (f i s) = spec_Path s /\ fs_Derived (f i s) = false) ->
    map fs_Path (filter (fun f => fs_Derived f = false) (map (refresh_field now stale) (imap f specs))) = map spec_Path specs).
  { induction specs as [|s specs IH]; intros f Hf; [done|]. simpl. destruct (Hf 0%nat s) as [Hp Hd'].
    assert (E : fs_Path (refresh_field now stale (f 0%nat s)) = spec_Path s /\ fs_Derived (refresh_field now stale (f 0%nat s)) = false)
      by (unfold refresh_field; by case_match).
    destruct E as [E1 E2]. rewrite filter_cons_True by done. simpl. rewrite E1. f_equal. apply (IH (fun i => f (S i))). intros i s'. apply Hf. }
  apply G. intros i s. unfold field_status. by destruct (e_lastOK e !! spec_Path s).
Qed.
End reports.

(** * Properties *)

Section properties.
Context (TypeString : gtype -> string) (quoted_runes : string -> nat) (Load : list string -> res (list go_package)).

(** What --compare prints is the difference of the two sides: a path is reported as
    only in the source exactly when some struct the patterns load has it as a sourced
    field and no row that is not derived reports it, and the other way round; both
    lists are sorted and without repetition. *)
Theorem compare_spec patterns rep schemes structs a b :
  Extract TypeString quoted_runes Load patterns "" schemes = Ok structs ->
  runCompare TypeString quoted_runes Load patterns rep schemes = Ok (a, b) ->
  let in_source p := exists s f, s ∈ structs /\ f ∈ s_Fields s /\ f_Kind f = KindSource /\ f_Path f = p in
  let in_live p := exists r f, rep = Some r /\ f ∈ rep_Fields r /\ fs_Derived f = false /\ fs_Path f = p in
  (forall p, (p ∈ a <-> in_source p /\ ~ in_live p) /\ (p ∈ b <-> in_live p /\ ~ in_source p)) /\
  Sorted str_le a /\ Sorted str_le b /\ NoDup a /\ NoDup b.
Proof.
  intros He. unfold runCompare. rewrite He. cbn [fmap res_fmap]. intros [= <- <-]. cbv zeta.
  assert (Hs : forall p, p ∈ source_paths structs <-> exists s f, s ∈ structs /\ f ∈ s_Fields s /\ f_Kind f = KindSource /\ f_Path f = p).
  { intros p. unfold source_paths. rewrite elem_of_list_to_set, list_elem_of_In, in_flat_map. split.
    - intros (s & Hs & (f & <- & Hf)%in_map_iff). apply list_elem_of_In, list_elem_of_filter in Hf as [Hk Hf].
      exists s, f. split_and!; try done. by apply list_elem_of_In.
    - intros (s & f & Hs & Hf & Hk & <-). exists s. split; [by apply list_elem_of_In|]. apply in_map_iff. exists f. split; [done|].
      apply list_elem_of_In, list_elem_of_filter. done. }
  assert (Hl : forall p, p ∈ live_paths rep <-> exists r f, rep = Some r /\ f ∈ rep_Fields r /\ fs_Derived f = false /\ fs_Path f = p).
  { intros p. unfold live_paths. destruct rep as [r|]; [|split; [by intros ?%elem_of_empty|naive_solver]].
    rewrite elem_of_list_to_set, list_elem_of_In, in_map_iff. unfold live_rows. split.
    - intros (f & <- & Hf%list_elem_of_In). apply list_elem_of_filter in Hf as [Hd Hf]. by exists r, f.
    - intros (r' & f & [= <-] & Hf & Hd & <-). exists f. split; [done|]. apply list_elem_of_In, list_elem_of_filter. done. }
  split_and!; try apply (Sorted_merge_sort _).
  - intros p. rewrite !merge_sort_Permutation, !elem_of_elements, !elem_of_difference, Hs, Hl. done.
  - rewrite merge_sort_Permutation. apply NoDup_elements.
  - rewrite merge_sort_Permutation. apply NoDup_elements.
Qed.

(** A healthy comparison is quiet: when the patterns load the config struct of the
    running watcher and no other struct with a source tag of its own, whatever else it
    declares and derives, the report the watcher serves at any moment shows no drift. *)
Theorem compare_is_quiet {W T View : Type} `{Env W} `{Config T View} (P : params W T) gz vars patterns pkg s schemes e now stale maxAge :
  Load patterns = Ok [pkg] -> taggedStructs pkg = [s] -> fieldSpecs gz vars (ns_typ s) = Ok (p_specs P) ->
  runCompare TypeString quoted_runes Load patterns (Some (Status (buildReport P e) now stale maxAge)) schemes = Ok ([], []).
Proof.
  intros Hload Htag Hs. unfold runCompare, Extract, loadPackages. rewrite Hload. cbn [fmap res_fmap id].
  change (merge_sort path_before [pkg]) with [pkg]. cbn [flat_map]. rewrite Htag. cbn [flat_map]. rewrite !app_nil_r.
  rewrite (bool_decide_eq_true_2 ("" = "")) by done. cbn [negb andb].
  assert (E : source_paths [extract_struct TypeString schemes (pkg_PkgPath pkg) (ns_name s) (ns_typ s)
      (default [] (dv_declared (findDerives quoted_runes (map (fun pkg => (pkg_Info pkg, pkg_Syntax pkg)) [pkg])) !! (pkg_PkgPath pkg ++ "." ++ ns_name s)))
      (bool_decide ((pkg_PkgPath pkg ++ "." ++ ns_name s) ∈ dv_incomplete (findDerives quoted_runes (map (fun pkg => (pkg_Info pkg, pkg_Syntax pkg)) [pkg]))))]
    = live_paths (Some (Status (buildReport P e) now stale maxAge))).
  { unfold source_paths, live_paths. cbn [flat_map]. rewrite app_nil_r, report_rows. f_equal. by apply (extracted_paths gz vars). }
  rewrite E. f_equal. by rewrite difference_diag_L.
Qed.
End properties.

(** * Instances *)

Definition plain_info : types_Info := MkInfo (fun _ => None) (fun _ => None) (fun _ => None) (fun _ => None) (fun _ _ => OtherType).
Definition file_package (types : list (nat * string * gtype)) : go_package := MkPackage "app" [("config.go", types)] [] plain_info.

(** The comparison of the demo watcher, whose config derives the field DSN, with its
    source. *)
Lemma compare_is_quiet_witness :
  let pkg := file_package [(10%nat, "Config", demo_type); (90%nat, "helper", TStruct [("n", false, [], TInt 64)])] in
  runs_to (demo_params onFailKeepLast None) [update 0 "bob" "2"] (fun l =>
    runCompare (fun _ => "") String.length (fun _ => Ok [pkg]) ["./..."]
      (Some (Status (buildReport (demo_params onFailKeepLast None) (l_engine l)) 0 0 0)) DefaultSecretSchemes = Ok ([], [])).
Proof.
  intros pkg. unfold runs_to. destruct (demo_end _ _) as [l|] eqn:E; [|by vm_compute in E].
  apply (compare_is_quiet (fun _ => "") String.length (fun _ => Ok [pkg]) (demo_params onFailKeepLast None) (fun _ => None) ∅ _ pkg
    (MkNamedStruct "Config" demo_type "config.go" 10)); [done|by vm_compute|by vm_compute].
Defined.

(** A config whose nested struct is a named type of the loaded packages with source
    tags of its own is compared twice, once as part of the config and once alone: the
    same watcher, in step with its source, is reported to lack a field. *)
Definition nested_type : gtype := TStruct [("Password", true, [("source", "sm:redis")], TSecretString)].
Definition outer_type : gtype := TStruct [("Port", true, [("source", "env:PORT")], TInt 64); ("Redis", true, [], nested_type)].

Lemma nested_struct_drifts now :
  let row p := MkFieldStatus p "" "" "" 0 0 false None "" false false in
  let rep := MkReport [row "Port"; row "Redis.Password"] 1 1 false true now SourceNone None in
  map fs_Path (live_rows rep) = map spec_Path (match fieldSpecs (fun _ => None) ∅ outer_type with Ok specs => specs | Err _ => [] end) /\
  runCompare (fun _ => "") String.length (fun _ => Ok [file_package [(10%nat, "Redis", nested_type); (40%nat, "Config", outer_type)]])
    ["./..."] (Some rep) DefaultSecretSchemes = Ok (["Password"], []).
Proof. intros row rep. split; [vm_compute; reflexivity|]. vm_compute. reflexivity. Qed.
