(* ===== verification/Live.v ===== *)
(** The live commands (src/cmd/mamori): the flags they share (flags.go), the client of
    the admin endpoint (client.go), doctor and status (doctor.go, status.go), and the
    dispatch of main (main.go). *)

From S2P Require Import Prelude Errors GoStrings Ref Provider Decode GoNumbers Base64 HttpAuth Fields Resolve Config Status Auth Admin Bootstrap EngineState Engine SourceTag PolicyDoc SurfaceDiff GoAst Vet Explain Client.
Open Scope string_scope.
Open Scope Z_scope.

(** * The flag package *)

(** [flag.FlagSet]: the kind of each flag that is defined. *)
Inductive flag_kind := FlagString | FlagBool | FlagDuration.

Definition errFlag : error := EOpaque "flag".

Section flag.
Context (fraction : Z -> Z -> Z -> Z) (formal : string -> option flag_kind).

(** [Value.Set] of a flag. *)
Definition flag_set (k : flag_kind) (value : string) : bool :=
  match k with
  | FlagString => true
  | FlagBool => bool_decide (is_Some (ParseBool value))
  | FlagDuration => bool_decide (is_Some (ParseDuration fraction value))
  end.

(** The name and the value of an argument that is a flag; [None] ends the flags. *)
Definition flag_arg (s : string) : option (res (string * option string)) :=
  if (String.length s <? 2)%nat || negb (HasPrefix s "-") || bool_decide (s = "--") then None
  else
    let name := str_drop (if HasPrefix s "--" then 2 else 1) s in
    Some (if bool_decide (name = "") || HasPrefix name "-" || HasPrefix name "=" then Err errFlag
          else match Cut name "=" with Some (n, v) => Ok (n, Some v) | None => Ok (name, None) end).

(** [FlagSet.Parse]: the texts the flags are set to. *)
Fixpoint flag_Parse (args : list string) (values : gmap string string) : res (gmap string string) :=
  match args with
  | [] => Ok values
  | a :: rest =>
      match flag_arg a with
      | None => Ok values
      | Some (Err e) => Err e
      | Some (Ok (name, inline)) =>
          match formal name with
          | None => Err errFlag
          | Some FlagBool =>
              let v := default "true" inline in
              if flag_set FlagBool v then flag_Parse rest (<[name := v]> values) else Err errFlag
          | Some k =>
              match inline, rest with
              | Some v, _ => if flag_set k v then flag_Parse rest (<[name := v]> values) else Err errFlag
              | None, v :: rest => if flag_set k v then flag_Parse rest (<[name := v]> values) else Err errFlag
              | None, [] => Err errFlag
              end
          end
      end
  end.
End flag.

Definition flag_text (values : gmap string string) (name : string) : string := default "" (values !! name).
Definition flag_bool (values : gmap string string) (name : string) : bool :=
  default false (values !! name ≫= ParseBool).

(** * flags.go *)

(** [type liveFlags struct]. *)
Record liveFlags := MkLiveFlags {
  lf_endpoint : string;
  lf_insecure : bool;
  lf_bearer : string;
  lf_bearerFile : string;
  lf_basic : string;
  lf_basicFile : string;
  lf_clientCert : string;
  lf_clientKey : string;
}.

(** [func (f *liveFlags) register(fs)]: the flags it defines, and what they are bound to. *)
Definition live_formal (name : string) : option flag_kind :=
  if bool_decide (name ∈ ["endpoint"; "bearer"; "bearer-file"; "basic"; "basic-file"; "client-cert"; "client-key"]) then Some FlagString
  else if bool_decide (name = "insecure") then Some FlagBool
  else None.
Definition live_flags (v : gmap string string) : liveFlags :=
  MkLiveFlags (flag_text v "endpoint") (flag_bool v "insecure") (flag_text v "bearer") (flag_text v "bearer-file")
    (flag_text v "basic") (flag_text v "basic-file") (flag_text v "client-cert") (flag_text v "client-key").

(** [strings.TrimRight(s, " \t\r\n")]. *)
Definition credential_space (c : ascii) : bool := existsb (ascii_eqb c) [" "%char; byte_of 9; byte_of 13; byte_of 10].
Fixpoint drop_space (s : string) : string :=
  match s with String c t => if credential_space c then drop_space t else s | EmptyString => "" end.
Definition TrimRightSpace (s : string) : string := str_rev (drop_space (str_rev s)).

Section credentials.
(** Files and standard input, read to their end, and [tls.LoadX509KeyPair]. *)
Context (read_file : string -> res string) (stdin : res string) (LoadX509KeyPair : string -> string -> res certificate).

(** [func (f *liveFlags) resolveValue(value, file string) (string, error)]. *)
Definition resolveValue (value file : string) : res string :=
  if negb (bool_decide (value = "")) then Ok value
  else TrimRightSpace <$> (if bool_decide (file = "-") then stdin else read_file file).

(** [func (f *liveFlags) resolveCredential()]: the header, and the client certificate. *)
Definition resolveCredential (f : liveFlags) : res (string * option certificate) :=
  let bearerSet := negb (bool_decide (lf_bearer f = "")) || negb (bool_decide (lf_bearerFile f = "")) in
  let basicSet := negb (bool_decide (lf_basic f = "")) || negb (bool_decide (lf_basicFile f = "")) in
  if bearerSet && basicSet then Err (EOpaque "mamori: --bearer/--bearer-file and --basic/--basic-file are mutually exclusive")
  else
    match
      if bearerSet then res_wrap (fun e => EWrap "mamori: reading bearer token" [e])
        ((fun token => "Bearer " ++ token) <$> resolveValue (lf_bearer f) (lf_bearerFile f))
      else if basicSet then res_wrap (fun e => EWrap "mamori: reading basic credentials" [e])
        ((fun userPass => "Basic " ++ base64_Encode userPass) <$> resolveValue (lf_basic f) (lf_basicFile f))
      else Ok ""
    with
    | Err e => Err e
    | Ok header =>
        match bool_decide (lf_clientCert f = ""), bool_decide (lf_clientKey f = "") with
        | true, true => Ok (header, None)
        | false, false =>
            match LoadX509KeyPair (lf_clientCert f) (lf_clientKey f) with
            | Err e => Err (EWrap "mamori: loading client certificate" [e])
            | Ok cert => Ok (header, Some cert)
            end
        | _, _ => Err (EOpaque "mamori: --client-cert and --client-key must both be set")
        end
    end.
End credentials.

(** * client.go *)

Definition exitHealthy : Z := 0.
Definition exitUnhealthy : Z := 1.
Definition exitNotAdminAPI : Z := 2.
Definition exitUnreachable : Z := 3.
Definition exitUnauthorized : Z := 4.
Definition dummyUnixHost : string := "unix".

(** [func parseEndpoint(endpoint, insecure)]: the base URL, and the socket the transport
    dials. [url.Parse] gives the scheme and the path. *)
Definition parseEndpoint (url_Parse : string -> option (string * string)) (endpoint : string) (insecure : bool) : res (string * option string) :=
  if bool_decide (endpoint = "") then Err (EOpaque "mamori: empty --endpoint")
  else
    match url_Parse endpoint with
    | None => Err (EOpaque "mamori: parsing --endpoint")
    | Some (sch, path) =>
        if bool_decide (sch = "unix") then
          if bool_decide (path = "") then Err (EOpaque "mamori: unix endpoint has no socket path")
          else Ok ("http://" ++ dummyUnixHost, Some path)
        else if bool_decide (sch = "https") then Ok (TrimRightSlash endpoint, None)
        else if bool_decide (sch = "http") then
          if negb insecure then Err (EOpaque "mamori: plaintext --endpoint refused")
          else Ok (TrimRightSlash endpoint, None)
        else Err (EOpaque "mamori: unsupported --endpoint scheme")
    end.

(** [var reportFields] and [var reportOptionalFields]. *)
Definition reportFields : list string := ["Fields"; "Snapshot"; "Live"; "Pinned"; "Healthy"; "GeneratedAt"].
Definition reportOptionalFields : list string := ["Source"; "Bootstrap"].

(** What a reader of a report can tell: the text of an error, and not the error. *)
Definition read_row (text : error -> string) (f : FieldStatus) : FieldStatus :=
  MkFieldStatus (fs_Path f) (fs_Scheme f) (fs_Ref f) (fs_Version f) (fs_LastOK f) (fs_Age f) (fs_Stale f)
    (match fs_LastError f with Some e => if bool_decide (text e = "") then None else Some (EOpaque (text e)) | None => None end)
    (fs_LastKind f) (fs_Sensitive f) (fs_Derived f).
Definition read_report (text : error -> string) (rep : Report) : Report :=
  MkReport (map (read_row text) (rep_Fields rep)) (rep_Snapshot rep) (rep_Live rep) (rep_Pinned rep) (rep_Healthy rep)
    (rep_GeneratedAt rep) (rep_Source rep) (rep_Bootstrap rep).

(** The keys of a report on the wire: two of them are omitted when they are empty. *)
Definition report_keys (rep : Report) : list string :=
  (reportFields ++ (if bool_decide (rep_Source rep = SourceNone) then [] else ["Source"]) ++
   (if rep_Bootstrap rep then ["Bootstrap"] else []))%list.

(** encoding/json, as both ends of the admin endpoint use it: [Encode], [Unmarshal] into a map (its
    keys), and into a Report - a Source that is neither constant being as good as none
    to a reader. [report_wire] are the reports that survive: texts in UTF-8, dates in range. *)
Class ReportJSON (text : error -> string) := {
  report_wire : Report -> Prop;
  Encode_report : Report -> string;
  Unmarshal_keys : string -> res (list string);
  Unmarshal_report : string -> res Report;
  keys_of_report rep : report_wire rep ->
    exists keys, Unmarshal_keys (Encode_report rep) = Ok keys /\ forall k, k ∈ keys <-> k ∈ report_keys rep;
  report_of_report rep : report_wire rep -> Unmarshal_report (Encode_report rep) = Ok (read_report text rep);
}.

Section live.
Context (text : error -> string) `{J : ReportJSON text}.

(** [func decodeReport(body []byte) ( *mamori.Report, error)]. *)
Definition decodeReport (body : string) : res Report :=
  match Unmarshal_keys body with
  | Err e => Err (EWrap "response body is not a JSON object" [e])
  | Ok raw =>
      if negb (forallb (fun k => bool_decide (k ∈ raw)) reportFields) then Err (EOpaque "response body is missing a top-level field")
      else if negb (forallb (fun k => bool_decide (k ∈ reportFields) || bool_decide (k ∈ reportOptionalFields)) raw) then
        Err (EOpaque "response body has an unexpected top-level field")
      else res_wrap (fun e => EWrap "decoding response body as mamori.Report" [e]) (Unmarshal_report body)
  end.

(** What is sent: over which socket, with which certificate, to which URL, and the
    Authorization header, if it is not empty. *)
Record live_request := MkLiveRequest { lr_Socket : option string; lr_Cert : option certificate; lr_URL : string; lr_Authorization : string }.

(** [type fetchResult struct]. *)
Record fetchResult := MkFetch { fr_body : option string; fr_rep : option Report; fr_exit : Z; fr_err : option error }.
Definition failed_fetch (body : option string) (exit : Z) (err : error) : fetchResult := MkFetch body None exit (Some err).

Context (url_Parse : string -> option (string * string)).
Context (read_file : string -> res string) (stdin : res string) (LoadX509KeyPair : string -> string -> res certificate).

(** [func doFetch(ctx, f liveFlags) fetchResult]. [Do] is [http.Client.Do] within its
    timeout: the status, and what [io.ReadAll] makes of the body. *)
Definition doFetch (Do : live_request -> res (Z * res string)) (f : liveFlags) : fetchResult :=
  match parseEndpoint url_Parse (lf_endpoint f) (lf_insecure f) with
  | Err err => failed_fetch None exitUnreachable err
  | Ok (baseURL, socket) =>
      match resolveCredential read_file stdin LoadX509KeyPair f with
      | Err err => failed_fetch None exitUnreachable err
      | Ok (header, cert) =>
          if bool_decide (url_Parse (baseURL ++ "/") = None) then failed_fetch None exitUnreachable (EOpaque "mamori: building request")
          else
            match Do (MkLiveRequest socket cert (baseURL ++ "/") header) with
            | Err err => failed_fetch None exitUnreachable (EWrap "mamori: connecting" [err])
            | Ok (_, Err err) => failed_fetch None exitUnreachable (EWrap "mamori: reading response" [err])
            | Ok (status, Ok body) =>
                if status =? 200 then
                  match decodeReport body with
                  | Err derr => failed_fetch (Some body) exitNotAdminAPI (EOpaque "mamori: returned 200 but the body is not a mamori admin Report")
                  | Ok rep => MkFetch (Some body) (Some rep) (if rep_Healthy rep then exitHealthy else exitUnhealthy) None
                  end
                else if status =? 404 then failed_fetch (Some body) exitNotAdminAPI (EOpaque "mamori: returned 404 on GET /")
                else if status =? 401 then failed_fetch (Some body) exitUnauthorized (EOpaque "mamori: returned 401")
                else failed_fetch (Some body) exitNotAdminAPI (EOpaque "mamori: returned unexpected status")
            end
      end
  end.

(** [func fetchReport(ctx, f)]. *)
Definition fetchReport (Do : live_request -> res (Z * res string)) (f : liveFlags) : option Report * Z * option error :=
  let r := doFetch Do f in (fr_rep r, fr_exit r, fr_err r).
End live.

(** * Rendering *)

(** [Duration.Round(time.Second)], with the saturation of the package. *)
Definition max_Duration : Z := 2 ^ 63 - 1.
Definition min_Duration : Z := - 2 ^ 63.
Definition Round_second (d : Z) : Z :=
  let r := Z.rem d Second in
  if d <? 0 then
    let r := - r in
    if r + r <? Second then d + r
    else let d1 := wrap_int 64 (d - Second + r) in if d1 <? d then d1 else min_Duration
  else
    if r + r <? Second then d - r
    else let d1 := wrap_int 64 (d + Second - r) in if d <? d1 then d1 else max_Duration.

(** The nine digits of a fraction of a second without their trailing zeros. *)
Fixpoint frac_digits (fuel : nat) (v : Z) (printed : bool) (acc : string) : string :=
  match fuel with
  | O => if printed then "." ++ acc else acc
  | S fuel =>
      let digit := v mod 10 in
      let printed := printed || negb (digit =? 0) in
      frac_digits fuel (v / 10) printed (if printed then FormatInt digit ++ acc else acc)
  end.

(** [Duration.String] of a duration that is zero or a second at least, as rounding
    leaves it. *)
Definition duration_String (d : Z) : string :=
  let u := Z.abs d in
  let total := u / Second in
  let m := total / 60 in
  let secs := FormatInt (total mod 60) ++ frac_digits 9 (u mod Second) false "" ++ "s" in
  (if d <? 0 then "-" else "") ++
  (if m =? 0 then secs
   else let h := m / 60 in
        (if h =? 0 then "" else FormatInt h ++ "h") ++ FormatInt (m mod 60) ++ "m" ++ secs).

Section render.
Context (text : error -> string) (RFC3339 : Z -> string).

(** The row of one field of [writeReportTable]. *)
Definition dash (s : string) : string := if bool_decide (s = "") then "-" else s.
Definition report_row (f : FieldStatus) : list string :=
  [fs_Path f; fs_Scheme f; fs_Ref f; fs_Version f; FormatBool (fs_Stale f); dash (fs_LastKind f);
   dash (match fs_LastError f with Some e => text e | None => "" end); FormatBool (fs_Sensitive f); FormatBool (fs_Derived f)].
Definition reportHeader : list string :=
  ["PATH"; "SCHEME"; "REF"; "VERSION"; "STALE"; "LAST_KIND"; "LAST_ERROR"; "SENSITIVE"; "DERIVED"].

Definition newline : string := String (byte_of 10) "".

(** The summary under the table. *)
Definition report_summary (rep : Report) : string :=
  newline ++ (if rep_Healthy rep then "HEALTHY" else "UNHEALTHY") ++ ": " ++ FormatInt (Z.of_nat (length (rep_Fields rep))) ++
  " field(s), snapshot " ++ FormatInt (Z.of_nat (rep_Snapshot rep)) ++ " (live " ++ FormatInt (Z.of_nat (rep_Live rep)) ++ ")" ++
  (if rep_Pinned rep then ", pinned" else "") ++ ", generated " ++ RFC3339 (rep_GeneratedAt rep) ++ newline.

(** [func bootstrapProblemSuffix(bs) string]. *)
Definition bootstrapProblemSuffix (bs : BootstrapStatus) : string :=
  if bool_decide (bs_Problem bs = "") then "" else " (" ++ bs_Problem bs ++ ")".

(** [func writeBootstrapLine(stdout, rep)]. *)
Definition writeBootstrapLine (rep : Report) : string :=
  match rep_Bootstrap rep with
  | None => ""
  | Some bs =>
      let age := duration_String (Round_second (bs_Age bs)) in
      (if bool_decide (rep_Source rep = SourceBootstrapCache) then
         "BOOTSTRAP CACHE: serving a snapshot written " ++ age ++ " ago; the backend has not been reached for every field since this process started"
       else if negb (bs_Present bs) then "bootstrap cache: no snapshot" ++ bootstrapProblemSuffix bs
       else if negb (bs_FingerprintMatch bs) then
         "bootstrap cache: snapshot written " ++ age ++ " ago, but for a DIFFERENT config struct, so it cannot be restored" ++ bootstrapProblemSuffix bs
       else if bs_Restored bs then
         "bootstrap cache: this process booted from a snapshot and has since resolved every field live; snapshot written " ++ age ++ " ago, matching this config"
       else "bootstrap cache: snapshot written " ++ age ++ " ago, matching this config") ++ newline
  end.

(** [func writeReportTable(stdout, rep)]: the cells, and the text under them. *)
Definition writeReportTable (rep : Report) : list (list string) * string :=
  (reportHeader :: map report_row (rep_Fields rep), report_summary rep ++ writeBootstrapLine rep).
End render.

(** [func writeDoctorJSON(stdout, res)]: what was received, and a newline if it has none. *)
Definition writeDoctorJSON (res : fetchResult) : string :=
  match fr_body res with
  | None => ""
  | Some body => if HasSuffix body newline then body else body ++ newline
  end.

(** * The commands *)

(** What a live command prints: its help or usage; or the body as it came or the table
    of the report, the error, and the comparison. *)
Inductive live_output :=
  | LiveHelp
  | LiveUsage
  | LiveReport (shown : string + list (list string) * string) (err : option error) (compared : option (res (list string * list string))).

Section commands.
Context (text : error -> string) `{J : ReportJSON text} (RFC3339 : Z -> string) (fraction : Z -> Z -> Z -> Z).
Context (url_Parse : string -> option (string * string)).
Context (read_file : string -> res string) (stdin : res string) (LoadX509KeyPair : string -> string -> res certificate).
Context (TypeString : gtype -> string) (quoted_runes : string -> nat) (Load : list string -> res (list go_package)).

Definition shown_report (res : fetchResult) : string + list (list string) * string :=
  inr (match fr_rep res with Some rep => writeReportTable text RFC3339 rep | None => ([], "") end).

(** [func doctorCmd(args, stdout, stderr) int]. *)
Definition doctor_formal (name : string) : option flag_kind :=
  if bool_decide (name = "json") then Some FlagBool
  else if bool_decide (name ∈ ["compare"; "secret-schemes"]) then Some FlagString
  else live_formal name.
Definition doctorCmd (Do : live_request -> res (Z * res string)) (args : list string) : Z * live_output :=
  if wantsHelp args then (0, LiveHelp)
  else
    match flag_Parse fraction doctor_formal args ∅ with
    | Err _ => (2, LiveUsage)
    | Ok v =>
        match secretSchemeSet (flag_text v "secret-schemes") with
        | Err _ => (2, LiveUsage)
        | Ok schemes =>
            let res := doFetch text url_Parse read_file stdin LoadX509KeyPair Do (live_flags v) in
            (fr_exit res,
             LiveReport (if flag_bool v "json" then inl (writeDoctorJSON res) else shown_report res) (fr_err res)
               (if bool_decide (flag_text v "compare" = "") then None
                else Some (runCompare TypeString quoted_runes Load (strings_Fields (flag_text v "compare")) (fr_rep res) schemes)))
        end
    end.

Definition defaultStatusInterval : Z := 2 * Second.

(** What happens to a watching status: its ticker fires, or it is interrupted. *)
Inductive status_event := StatusTick | StatusInterrupt.
#[export] Instance status_event_eq_dec : EqDecision status_event.
Proof. solve_decision. Defined.

(** The loop of [watchStatus], with one answer of the endpoint for each rendering: what
    it has rendered, and its exit code once it has one. *)
Fixpoint status_loop (fetch : nat -> fetchResult) (n : nat) (evs : list status_event) : list live_output * option Z :=
  match evs with
  | [] => ([], None)
  | StatusInterrupt :: _ => ([], Some 0)
  | StatusTick :: evs =>
      let '(out, code) := status_loop fetch (S n) evs in
      (LiveReport (shown_report (fetch n)) (fr_err (fetch n)) None :: out, code)
  end.

(** [func watchStatus(stdout, stderr, lf, interval) int]: [None] is the panic of
    [time.NewTicker], which comes after the first rendering. *)
Definition watchStatus (fetch : nat -> fetchResult) (interval : Z) (evs : list status_event) : option (list live_output * option Z) :=
  if interval <=? 0 then None
  else
    let '(out, code) := status_loop fetch 1 evs in
    Some (LiveReport (shown_report (fetch 0%nat)) (fr_err (fetch 0%nat)) None :: out, code).

(** [func statusCmd(args, stdout, stderr) int]; with --watch, how it watches is what
    [watchStatus] is given. *)
Definition status_formal (name : string) : option flag_kind :=
  if bool_decide (name = "watch") then Some FlagBool else if bool_decide (name = "interval") then Some FlagDuration else live_formal name.
Inductive status_run := StatusOnce (code : Z) (out : live_output) | StatusWatching (lf : liveFlags) (interval : Z).
Definition statusCmd (Do : live_request -> res (Z * res string)) (args : list string) : status_run :=
  if wantsHelp args then StatusOnce 0 LiveHelp
  else
    match flag_Parse fraction status_formal args ∅ with
    | Err _ => StatusOnce 2 LiveUsage
    | Ok v =>
        if negb (flag_bool v "watch") then
          let res := doFetch text url_Parse read_file stdin LoadX509KeyPair Do (live_flags v) in
          StatusOnce (fr_exit res) (LiveReport (shown_report res) (fr_err res) None)
        else StatusWatching (live_flags v) (match v !! "interval" with Some d => default 0 (ParseDuration fraction d) | None => defaultStatusInterval end)
    end.
End commands.

(** [func run(args []string) int]: which command runs on which arguments. *)
Inductive dispatch := PrintUsage (code : Z) | PrintVersion | RunCommand (name : string) (args : list string).
Definition run_command (args : list string) : dispatch :=
  match args with
  | [] => PrintUsage 2
  | name :: rest =>
      if bool_decide (name ∈ ["help"; "-h"; "--help"]) then PrintUsage 0
      else if bool_decide (name ∈ ["version"; "--version"]) then PrintVersion
      else if bool_decide (name ∈ ["explain"; "schema"; "policy"; "diff"; "vet"; "doctor"; "status"]) then RunCommand name rest
      else PrintUsage 2
  end.

(** [func main()]: a tool of go vet, or a command. *)
Definition main_dispatch (args : list string) : option dispatch :=
  if isVetToolInvocation args then None else Some (run_command args).

Example duration_String_hour : duration_String (Round_second (3725 * Second + 400 * Millisecond)) = "1h2m5s".
Proof. vm_compute. reflexivity. Qed.
Example duration_String_max : duration_String (Round_second max_Duration) = "2562047h47m16.854775807s".
Proof. vm_compute. reflexivity. Qed.

(** * The endpoint *)

(** A process whose admin handler is mounted at its prefix, over a network that carries
    requests faithfully: [tls] and [peer] are what its side learns of the connection,
    [url_path] the path of a URL. *)
Section served.
Context (text : error -> string) `{J : ReportJSON text}.
Context (url_Parse : string -> option (string * string)) (url_path : string -> string).
Context (read_file : string -> res string) (stdin : res string) (LoadX509KeyPair : string -> string -> res certificate).
Context (tls : live_request -> option (list certificate)) (peer : live_request -> option Ucred).
Context (redirected : Z) (o : handlerOptions) (other_body : admin_body -> string).

Definition arriving (q : live_request) : request :=
  MkRequest "GET" (url_path (lr_URL q)) (fun k => if bool_decide (k = "Authorization") then lr_Authorization q else "") (tls q) (peer q).
Definition admin_Do (status : Report) (health : option error) (q : live_request) : res (Z * res string) :=
  let resp := Handler redirected status health o (arriving q) in
  Ok (ar_status resp, Ok (match ar_body resp with BodyReport rep => Encode_report rep | b => other_body b end)).

Lemma decodeReport_report rep : report_wire rep -> decodeReport text (Encode_report rep) = Ok (read_report text rep).
Proof.
  intros Hw. unfold decodeReport. destruct (keys_of_report rep Hw) as (keys & -> & Hk). rewrite report_of_report by done.
  assert (H1 : forallb (fun k => bool_decide (k ∈ keys)) reportFields = true).
  { apply forallb_forall. intros k Hin%list_elem_of_In. apply bool_decide_eq_true, Hk. unfold report_keys. set_solver. }
  assert (H2 : forallb (fun k => bool_decide (k ∈ reportFields) || bool_decide (k ∈ reportOptionalFields)) keys = true).
  { apply forallb_forall. intros k Hin%list_elem_of_In. apply orb_true_iff. rewrite !bool_decide_eq_true.
    apply Hk in Hin. unfold report_keys in Hin. apply elem_of_app in Hin as [Hin|Hin]; [by left|right].
    unfold reportOptionalFields. apply elem_of_app in Hin as [Hin|Hin]; repeat case_match; set_solver. }
  by rewrite H1, H2.
Qed.

(** What the mounted handler does with GET of its root. *)
Lemma root_answer status health r : rq_Method r = "GET" -> rq_Path r = ho_prefix o ++ "/" ->
  Handler redirected status health o r =
    match authOK o (MkRequest "GET" "/" (rq_Header r) (rq_TLS r) (rq_PeerCred r)) with
    | Some resp => resp
    | None => writeJSON 200 (BodyReport status)
    end.
Proof.
  intros Hm Hp. assert (Hmux : forall r', rq_Method r' = "GET" -> rq_Path r' = "/" -> mux redirected status health o r' =
      match authOK o r' with Some resp => resp | None => writeJSON 200 (BodyReport status) end).
  { intros r' Hm' Hp'. unfold mux. rewrite Hm', Hp'. reflexivity. }
  unfold Handler. case_bool_decide as Hpre.
  - rewrite Hpre in Hp. simpl in Hp. rewrite Hmux by done. destruct r; simpl in *. by subst.
  - unfold StripPrefix. rewrite Hp, TrimPrefix_app, str_length_app. simpl String.length.
    rewrite (proj2 (Nat.ltb_lt _ _)); [|destruct (ho_prefix o); [done|simpl; lia]]. rewrite Hm. by apply Hmux.
Qed.

(** C10. doctor's exit code is the health of the watcher, or says why it cannot be told.
    Against a process that serves a watcher's report under any authentication, with an
    endpoint that is well formed and credentials that can be read: a caller the handler
    lets in gets exactly the report and exits 0 when the watcher is healthy and 1 when it
    is not; one it forbids exits 2; any other it refuses exits 4. *)
Theorem doctor_exit_is_health f base socket header cert rep now stale maxAge :
  parseEndpoint url_Parse (lf_endpoint f) (lf_insecure f) = Ok (base, socket) ->
  resolveCredential read_file stdin LoadX509KeyPair f = Ok (header, cert) ->
  url_Parse (base ++ "/") <> None -> url_path (base ++ "/") = ho_prefix o ++ "/" ->
  report_wire (Status rep now stale maxAge) ->
  let q := MkLiveRequest socket cert (base ++ "/") header in
  let caller := MkRequest "GET" "/" (rq_Header (arriving q)) (tls q) (peer q) in
  let res := doFetch text url_Parse read_file stdin LoadX509KeyPair
    (admin_Do (Status rep now stale maxAge) (Health rep now stale maxAge)) f in
  match from_option (fun a => Authenticate a caller) (Ok zero_Identity) (ho_auth o) with
  | Ok _ =>
      fr_exit res = (if Health rep now stale maxAge then 1 else 0) /\
      fr_rep res = Some (read_report text (Status rep now stale maxAge)) /\
      fr_body res = Some (Encode_report (Status rep now stale maxAge)) /\ fr_err res = None
  | Err e => fr_rep res = None /\ fr_exit res = (if errors_Is e ErrForbidden then 2 else 4)
  end.
Proof.
  intros Hp Hc Hu Hpath Hw. cbv zeta. unfold doFetch. rewrite Hp, Hc, bool_decide_eq_false_2 by done.
  unfold admin_Do. rewrite root_answer by done. unfold authOK. cbn [rq_Header rq_TLS rq_PeerCred arriving].
  assert (Hh : rep_Healthy (Status rep now stale maxAge) = negb (bool_decide (is_Some (Health rep now stale maxAge)))).
  { destruct (Health_spec rep now stale maxAge) as [Hs _]. destruct (Health rep now stale maxAge) as [e|].
    - rewrite bool_decide_eq_true_2 by (by eexists). destruct (rep_Healthy _); [by specialize (proj2 Hs eq_refl)|done].
    - rewrite (proj1 Hs eq_refl). by rewrite bool_decide_eq_false_2 by (by intros []). }
  destruct (ho_auth o) as [a|]; simpl from_option; [destruct (Authenticate a _) as [id|e]|].
  - cbn [writeJSON ar_status ar_body]. change (200 =? 200) with true. cbv iota. rewrite decodeReport_report by done.
    cbn [fr_exit fr_rep fr_body fr_err read_report rep_Healthy]. rewrite Hh. by destruct (Health rep now stale maxAge).
  - destruct (errors_Is e ErrForbidden); by cbn.
  - cbn [writeJSON ar_status ar_body]. change (200 =? 200) with true. cbv iota. rewrite decodeReport_report by done.
    cbn [fr_exit fr_rep fr_body fr_err read_report rep_Healthy]. rewrite Hh. by destruct (Health rep now stale maxAge).
Qed.
End served.

(** * Credentials *)

Lemma drop_space_app a b : drop_space a = "" -> drop_space (a ++ b) = drop_space b.
Proof. induction a as [|c a IH]; [done|]. simpl. destruct (credential_space c); [done|]. done. Qed.

(** White space after a token that does not end in some is what is trimmed. *)
Lemma TrimRightSpace_app token space : TrimRightSpace token = token -> TrimRightSpace space = "" -> TrimRightSpace (token ++ space) = token.
Proof.
  unfold TrimRightSpace. intros Ht Hs. rewrite str_rev_app, drop_space_app; [done|].
  by rewrite <- (str_rev_involutive (drop_space _)), Hs.
Qed.

(** A credential kept in a file, with whatever line ending the editor left, is the one
    the endpoint expects: with --bearer-file the scheme [BearerToken] lets the request in
    exactly when the file holds its token, and with --basic-file the scheme [BasicAuth]
    exactly when it holds its user and password. *)
Theorem credential_file_authenticates read_file stdin load f path content space want user r :
  lf_clientCert f = "" -> lf_clientKey f = "" -> path <> "" -> path <> "-" -> want <> "" -> has_byte ":" user = false ->
  read_file path = Ok (content ++ space) -> TrimRightSpace content = content -> TrimRightSpace space = "" ->
  (forall header cert, resolveCredential read_file stdin load f = Ok (header, cert) -> cert = None /\ rq_Header r "Authorization" = header) ->
  (lf_bearer f = "" -> lf_bearerFile f = path -> lf_basic f = "" -> lf_basicFile f = "" ->
     is_ok (Authenticate (bearerToken want) r) = true <-> content = want) /\
  (lf_basic f = "" -> lf_basicFile f = path -> lf_bearer f = "" -> lf_bearerFile f = "" ->
     forall gotUser gotPass, has_byte ":" gotUser = false -> content = gotUser ++ ":" ++ gotPass ->
     is_ok (Authenticate (basicAuth user want) r) = true <-> gotUser = user /\ gotPass = want).
Proof.
  intros Hc Hk Hpath Hdash Hw Hu Hfile Hcontent Hspace Hr. unfold resolveCredential, resolveValue in Hr. rewrite Hc, Hk in Hr. split.
  - intros H1 H2 H3 H4. rewrite H1, H2, H3, H4 in Hr. rewrite (bool_decide_eq_false_2 (path = "")), (bool_decide_eq_false_2 (path = "-")) in Hr by done.
    simpl in Hr. rewrite Hfile in Hr. simpl in Hr. rewrite TrimRightSpace_app in Hr by done.
    destruct (Hr _ _ eq_refl) as [_ Hh]. split.
    + destruct (Authenticate (bearerToken want) r) as [id|] eqn:E; [|done]. apply bearerToken_spec in E as (_ & E & _).
      rewrite Hh in E. by apply (inj (String.append "Bearer ")) in E.
    + intros ->. by rewrite (proj2 (bearerToken_spec want r (subject "bearer"))).
  - intros H1 H2 H3 H4 gotUser gotPass Hg ->. rewrite H1, H2, H3, H4 in Hr.
    rewrite (bool_decide_eq_false_2 (path = "")), (bool_decide_eq_false_2 (path = "-")) in Hr by done.
    simpl in Hr. rewrite Hfile in Hr. cbn [fmap res_fmap res_wrap] in Hr. rewrite TrimRightSpace_app in Hr by done.
    destruct (Hr _ _ eq_refl) as [_ Hh]. apply BasicAuth_header_encoded in Hh; [|done]. split.
    + destruct (Authenticate (basicAuth user want) r) as [id|] eqn:E; [|done]. apply basicAuth_spec in E as (_ & E & _).
      rewrite Hh in E. by injection E as <- <-.
    + intros [-> ->]. by rewrite (proj2 (basicAuth_spec user want r (subject user))).
Qed.

(** A request that may carry a credential: over a socket, to an endpoint with TLS, or to
    one the caller said may be in the clear. *)
Definition may_be_sent (url_Parse : string -> option (string * string)) (f : liveFlags) (q : live_request) : Prop :=
  is_Some (lr_Socket q) \/
  (exists path, url_Parse (lf_endpoint f) = Some ("https", path) /\ lr_URL q = TrimRightSlash (lf_endpoint f) ++ "/") \/
  lf_insecure f = true.

(** Nothing is sent in the clear unless --insecure allows it: what the command does
    depends on the network only through such requests, at most one of them. *)
Theorem nothing_in_the_clear text `{J : ReportJSON text} url_Parse read_file stdin load f Do Do' :
  (forall q, may_be_sent url_Parse f q -> Do q = Do' q) ->
  doFetch text url_Parse read_file stdin load Do f = doFetch text url_Parse read_file stdin load Do' f.
Proof.
  intros HDo. unfold doFetch. destruct (parseEndpoint url_Parse (lf_endpoint f) (lf_insecure f)) as [[base socket]|] eqn:Ep; [|done].
  destruct (resolveCredential read_file stdin load f) as [[header cert]|]; [|done]. case_bool_decide; [done|].
  rewrite (HDo (MkLiveRequest socket cert (base ++ "/") header)); [done|]. unfold may_be_sent. cbn [lr_Socket lr_URL].
  unfold parseEndpoint in Ep. case_bool_decide; [done|]. destruct (url_Parse (lf_endpoint f)) as [[sch path]|]; [|done].
  repeat (case_bool_decide; simplify_eq/=); try (left; by eexists); [right; left; by eexists|].
  destruct (lf_insecure f); simplify_eq/=. by right; right.
Qed.

(** * Watching *)

Definition ticks_before (evs : list status_event) : nat :=
  (fix go (evs : list status_event) : nat :=
     match evs with StatusTick :: evs => S (go evs) | _ => O end) evs.

Lemma status_loop_renders text RFC3339 fetch n evs :
  length (status_loop text RFC3339 fetch n evs).1 = ticks_before evs /\
  (status_loop text RFC3339 fetch n evs).2 = (if bool_decide (StatusInterrupt ∈ evs) then Some 0 else None).
Proof.
  revert n. induction evs as [|[|] evs IH]; intros n; simpl; [done| |done].
  specialize (IH (S n)). destruct (status_loop text RFC3339 fetch (S n) evs) as [out code]. simpl in *.
  destruct IH as [-> ->]. split; [done|]. repeat case_bool_decide; set_solver.
Qed.

(** With --watch, a positive interval and any answers of the endpoint, the exit code is
    0 once interrupted and there is none before, and the report has been rendered once
    at the start and once for each tick; an interval that is not positive, which the
    flags accept, panics. *)
Theorem watching_status text RFC3339 fetch interval evs :
  (0 < interval -> exists out, watchStatus text RFC3339 fetch interval evs =
     Some (out, if bool_decide (StatusInterrupt ∈ evs) then Some 0 else None) /\ length out = S (ticks_before evs)) /\
  (interval <= 0 -> watchStatus text RFC3339 fetch interval evs = None).
Proof.
  unfold watchStatus. split; intros Hi.
  - rewrite (proj2 (Z.leb_gt _ _)) by done. destruct (status_loop_renders text RFC3339 fetch 1 evs) as [H1 H2].
    destruct (status_loop text RFC3339 fetch 1 evs) as [out code]. simpl in *. subst. eexists. split; [done|]. simpl. lia.
  - by rewrite (proj2 (Z.leb_le _ _)) by done.
Qed.

(** * Instances *)

(** A report on the wire: a codec for the two reports of a watcher of one field, well
    and failing. *)
Definition one_field (kind : Kind) : Report :=
  MkReport [MkFieldStatus "DB.Pass" "sm" "sm:db" "3" 0 0 false None kind true false] 1 1 false true 5 SourceNone None.
Definition demo_status (kind : Kind) : Report := Status (one_field kind) 7 0 0.
Definition demo_wire (rep : Report) : Prop := rep = demo_status "" \/ rep = demo_status KindNotFound.
#[export] Instance demo_json : ReportJSON (fun _ => "error").
Proof.
  refine {| report_wire := demo_wire;
            Encode_report rep := if rep_Healthy rep then "{well}" else "{failing}";
            Unmarshal_keys s := if bool_decide (s ∈ ["{well}"; "{failing}"]) then Ok reportFields else Err (EOpaque "json");
            Unmarshal_report s := if bool_decide (s = "{well}") then Ok (demo_status "") else Ok (demo_status KindNotFound) |}.
  - intros rep [->| ->]; (eexists; split; [reflexivity|done]).
  - intros rep [->| ->]; reflexivity.
Defined.

Definition demo_url_Parse (s : string) : option (string * string) :=
  if HasPrefix s "https://" then Some ("https", str_drop 17 s) else if HasPrefix s "http://" then Some ("http", str_drop 16 s) else None.
Definition demo_path (s : string) : string := str_drop 17 s.
Definition demo_file (path : string) : res string :=
  if bool_decide (path = "/run/token") then Ok ("s3cret" ++ newline) else Err (EOpaque "no such file").
Definition demo_flags : liveFlags := MkLiveFlags "https://host:9090" false "" "/run/token" "" "" "" "".
Definition token_options : handlerOptions := MkHandlerOptions "" (Some (bearerToken "s3cret")) true [].

(** A failing watcher behind a bearer token, asked with the token of a file: exit 1 and
    its report; the same endpoint with another token: exit 4. *)
Lemma doctor_exit_is_health_witness :
  fr_exit (doFetch (fun _ => "error") demo_url_Parse demo_file (Err (EOpaque "stdin")) (fun _ _ => Err (EOpaque "pem"))
    (admin_Do (fun _ => "error") demo_path (fun _ => Some []) (fun _ => None) 307 token_options (fun _ => "{}")
      (demo_status KindNotFound) (Health (one_field KindNotFound) 7 0 0)) demo_flags) = 1.
Proof.
  refine (proj1 (doctor_exit_is_health (fun _ => "error") demo_url_Parse demo_path demo_file (Err (EOpaque "stdin")) (fun _ _ => Err (EOpaque "pem"))
    (fun _ => Some []) (fun _ => None) 307 token_options (fun _ => "{}") demo_flags "https://host:9090" None "Bearer s3cret" None
    (one_field KindNotFound) 7 0 0 _ _ _ _ _)); first [by vm_compute|vm_compute; discriminate|unfold report_wire; simpl; by right].
Defined.

Example wrong_token_exits_4 :
  fr_exit (doFetch (fun _ => "error") demo_url_Parse demo_file (Err (EOpaque "stdin")) (fun _ _ => Err (EOpaque "pem"))
    (admin_Do (fun _ => "error") demo_path (fun _ => Some []) (fun _ => None) 307 token_options (fun _ => "{}")
      (demo_status KindNotFound) (Health (one_field KindNotFound) 7 0 0))
    (MkLiveFlags "https://host:9090" false "guess" "" "" "" "" "")) = 4.
Proof. vm_compute. reflexivity. Qed.

Lemma credential_file_authenticates_witness :
  is_ok (Authenticate (bearerToken "s3cret")
    (MkRequest "GET" "/" (fun k => if bool_decide (k = "Authorization") then "Bearer s3cret" else "") None None)) = true.
Proof.
  refine (proj2 (proj1 (credential_file_authenticates demo_file (Err (EOpaque "stdin")) (fun _ _ => Err (EOpaque "pem")) demo_flags
    "/run/token" "s3cret" newline "s3cret" "ana" _ _ _ _ _ _ _ _ _ _ _) _ _ _ _) _); try (by vm_compute).
  intros header cert. vm_compute. by intros [= <- <-].
Defined.

(** A plaintext endpoint is given up before anything is sent, even by a network that
    would answer. *)
Lemma nothing_in_the_clear_witness :
  fr_exit (doFetch (fun _ => "error") demo_url_Parse demo_file (Err (EOpaque "stdin")) (fun _ _ => Err (EOpaque "pem"))
    (fun q => match lr_Socket q with None => Ok (401, Ok "") | Some _ => Err (EOpaque "refused") end)
    (MkLiveFlags "http://host:9090" false "s3cret" "" "" "" "" "")) = 3.
Proof.
  rewrite (nothing_in_the_clear (fun _ => "error") demo_url_Parse demo_file _ _ _ _ (fun _ => Err (EOpaque "refused"))); [by vm_compute|].
  intros q [[s Hs]|[(path & Hp & _)|H]]; [by rewrite Hs|by vm_compute in Hp|done].
Defined.

Lemma watching_status_witness : exists out, watchStatus (fun _ => "") (fun _ => "") (fun _ => failed_fetch None 3 (EOpaque "refused")) Second
    [StatusTick; StatusTick; StatusInterrupt] = Some (out, Some 0) /\ length out = 3%nat.
Proof. apply (proj1 (watching_status (fun _ => "") (fun _ => "") (fun _ => failed_fetch None 3 (EOpaque "refused")) Second
  [StatusTick; StatusTick; StatusInterrupt])). done. Defined.
