(* ===== verification/Polled.v ===== *)
(** Providers over the HTTP core (src/providers: https, doppler, supabase, hcp-vault-
    secrets, posthog): they ask one request for a ref, read a value out of the answer,
    and are polled. What they share is the interface [HttpProvider]. *)

From S2P Require Import Prelude Errors GoStrings Ref Provider Decode GoNumbers Base64 Pointer GoPath Client SSE HttpCore Revalidate HttpAuth Backends.
Open Scope string_scope.
Open Scope Z_scope.

(** * What they share *)

(** [http.Client]: its [Do], and whether its transport is one of its own. *)
Record http_client (W : Type) := MkHttpClient { hc_Do : sent -> W -> W * res received; hc_Transport : bool }.
Arguments MkHttpClient {W}.
Arguments hc_Do {W}.
Arguments hc_Transport {W}.

(** Whether [Close] lets go of the idle connections of a client: not those of the
    transport the whole process shares. *)
Definition releases_idle {W} (c : option (http_client W)) : bool := match c with Some c => hc_Transport c | None => false end.

(** [strings.TrimPrefix(path, "/")] and the first of the texts that is not empty. *)
Definition secret_name (path : string) : string := TrimPrefix path "/".
Fixpoint first_text (vals : list string) : string :=
  match vals with [] => "" | v :: vals => if bool_decide (v = "") then first_text vals else v end.

(** A request, and a value read out of its answer. *)
Definition ask {W} (Do : core_Request -> W -> W * res core_Response) (r : core_Request) (failed : error -> error)
    (read : core_Response -> res Value) (w : W) : W * res Value :=
  let '(w, got) := Do r w in (w, match got with Err e => Err (failed e) | Ok resp => read resp end).

(** A provider that asks over HTTP: what a resolve does, with the state it leaves, and
    [Close]; and its promise about a provider that is closed. *)
Class HttpProvider (W P : Type) := {
  hp_resolve : Ref -> P -> W -> W * res Value * P;
  hp_close : P -> P;
  hp_closed : P -> bool;
  hp_close_closes p : hp_closed (hp_close p) = true;
  hp_closed_refuses p ref w : hp_closed p = true ->
    let '(w', got, p') := hp_resolve ref p w in w' = w /\ is_ok got = false /\ hp_closed p' = true;
}.

(** Calls of a provider, in the order they take its mutex. *)
Inductive http_call := CallResolve (ref : Ref) | CallClose.

Section calls.
Context {W P : Type} `{H : HttpProvider W P}.

Definition http_step (st : W * P * list (res Value)) (c : http_call) : W * P * list (res Value) :=
  let '(w, p, out) := st in
  match c with
  | CallResolve ref => let '(w, got, p) := hp_resolve ref p w in (w, p, (out ++ [got])%list)
  | CallClose => (w, hp_close p, out)
  end.

Lemma closed_stays w p out calls : hp_closed p = true ->
  let '(w', p', out') := foldl http_step (w, p, out) calls in
  w' = w /\ hp_closed p' = true /\ exists more, out' = (out ++ more)%list /\ Forall (fun r => is_ok r = false) more.
Proof.
  revert w p out. induction calls as [|c calls IH]; intros w p out Hc; simpl.
  { split_and!; [done..|]. exists []. by rewrite app_nil_r. }
  destruct c as [ref|]; simpl.
  - pose proof (hp_closed_refuses p ref w Hc) as Hr. destruct (hp_resolve ref p w) as [[w1 got] p1].
    destruct Hr as (-> & Hno & Hc1). specialize (IH w p1 (out ++ [got])%list Hc1).
    destruct (foldl http_step _ calls) as [[w' p'] out']. destruct IH as (-> & Hc' & more & -> & Hm).
    split_and!; [done..|]. exists (got :: more). split; [by rewrite <- app_assoc|by constructor].
  - apply IH, hp_close_closes.
Qed.

(** A closed provider is closed for good: whatever is called after a [Close], nothing is
    asked of any backend, and every resolve fails. *)
Theorem http_closed_for_good w p before after :
  let '(w1, p1, out1) := foldl http_step (w, p, []) (before ++ [CallClose]) in
  let '(w2, _, out2) := foldl http_step (w, p, []) (before ++ CallClose :: after) in
  w2 = w1 /\ exists more, out2 = (out1 ++ more)%list /\ Forall (fun r => is_ok r = false) more.
Proof.
  rewrite !foldl_app. destruct (foldl http_step (w, p, []) before) as [[w0 p0] out0]. simpl.
  pose proof (closed_stays w0 (hp_close p0) out0 after (hp_close_closes p0)) as Hs.
  destruct (foldl http_step _ after) as [[w2 p2] out2]. destruct Hs as (-> & _ & Hm). done.
Qed.
End calls.

(** * https *)

Module Https.
(** [type Endpoint struct]; the query and the headers are copied by [New]. *)
Record Endpoint (W : Type) := MkEndpoint {
  ed_Name : string;
  ed_BaseURL : string;
  ed_Auth : option (sent -> W -> W * res sent);
  ed_Query : Values;
  ed_Header : list (string * string);
  ed_Client : option (http_client W);
  ed_MaxBody : Z;
  ed_Sensitive : bool;
  ed_AllowInsecure : bool;
}.
Arguments MkEndpoint {W}.
Arguments ed_Name {W}.
Arguments ed_BaseURL {W}.
Arguments ed_Auth {W}.
Arguments ed_Query {W}.
Arguments ed_Header {W}.
Arguments ed_Client {W}.
Arguments ed_MaxBody {W}.
Arguments ed_Sensitive {W}.
Arguments ed_AllowInsecure {W}.

(** [type endpoint struct], with the client of its revalidator. *)
Record endpoint (W : Type) := MkBuilt {
  ep_query : Values;
  ep_header : list (string * string);
  ep_sensitive : bool;
  ep_core : core_Client W;
  ep_reval : Revalidator;
  ep_client : option (http_client W);
}.
Arguments MkBuilt {W}.
Arguments ep_query {W}.
Arguments ep_header {W}.
Arguments ep_sensitive {W}.
Arguments ep_core {W}.
Arguments ep_reval {W}.
Arguments ep_client {W}.

(** [type Provider struct]. *)
Record Provider (W : Type) := MkProvider { hs_endpoints : gmap string (endpoint W); hs_closed : bool }.
Arguments MkProvider {W}.
Arguments hs_endpoints {W}.
Arguments hs_closed {W}.

Definition invalid (msg : string) : error := EWrap ("https: " ++ msg) [ESentinel ErrInvalid].

Section https.
Context {W : Type} `{J : JSON}.
Context (url_Parse : string -> option URL) (url_Scheme : string -> option string) (default_client : sent -> W -> W * res received).
Context (request_ok : sent -> bool).
Implicit Types p : Provider W.

(** One turn of the loop of [New]. *)
Definition new_endpoint (out : gmap string (endpoint W)) (e : Endpoint W) : res (gmap string (endpoint W)) :=
  if bool_decide (ed_Name e = "") then Err (invalid "Endpoint.Name is required")
  else if has_byte "/" (ed_Name e) || has_byte "?" (ed_Name e) || has_byte "#" (ed_Name e) then
    Err (invalid "Endpoint.Name must not contain '/', '?' or '#'")
  else if bool_decide (is_Some (out !! ed_Name e)) then Err (invalid "duplicate Endpoint.Name")
  else if bool_decide (ed_BaseURL e = "") then Err (invalid "BaseURL is required")
  else
    match url_Scheme (ed_BaseURL e) with
    | None => Err (invalid "BaseURL is not a URL")
    | Some sch =>
        if bool_decide (sch = "http") && negb (ed_AllowInsecure e) then Err (invalid "BaseURL is http://")
        else if negb (bool_decide (sch ∈ ["https"; "http"])) then Err (invalid "BaseURL scheme is not http or https")
        else
          match core_New url_Parse default_client
                  (MkCoreConfig (ed_BaseURL e) (hc_Do <$> ed_Client e) (ed_Auth e) (ed_MaxBody e) "mamori-https" None) with
          | Err err => Err (EWrap "https: endpoint" [err])
          | Ok c => Ok (<[ed_Name e := MkBuilt (ed_Query e) (ed_Header e) (ed_Sensitive e) c (NewRevalidator 0) (ed_Client e)]> out)
          end
    end.
Fixpoint new_endpoints (out : gmap string (endpoint W)) (es : list (Endpoint W)) : res (gmap string (endpoint W)) :=
  match es with
  | [] => Ok out
  | e :: es => match new_endpoint out e with Err err => Err err | Ok out => new_endpoints out es end
  end.

(** [func New(endpoints ...Endpoint) ( *Provider, error)]. *)
Definition New (endpoints : list (Endpoint W)) : res (Provider W) :=
  match endpoints with
  | [] => Err (invalid "at least one Endpoint is required")
  | _ => (fun out => MkProvider out false) <$> new_endpoints ∅ endpoints
  end.

(** [func splitEndpoint(refPath string) (name, path string)]. *)
Definition splitEndpoint (refPath : string) : string * string :=
  let trimmed := TrimPrefix refPath "/" in default (trimmed, "") (Cut trimmed "/").

(** The request of an endpoint for a path. *)
Definition endpoint_request (ep : endpoint W) (path : string) : core_Request :=
  MkCoreRequest "" path (ep_query ep) (ep_header ep) "" "" "".

(** [func (p *Provider) Resolve(ctx, ref)]. *)
Definition Resolve (ref : Ref) p (w : W) : W * res Value * Provider W :=
  if hs_closed p then (w, Err (EWrap "https: provider is closed" [ESentinel ErrUnavailable]), p)
  else
    let '(name, path) := splitEndpoint (ref_Path ref) in
    match hs_endpoints p !! name with
    | None => (w, Err (invalid "no endpoint of that name is registered"), p)
    | Some ep =>
        let '(w, got, rv) := rv_Get (core_Do request_ok (ep_core ep)) (ep_reval ep) (ref_Raw ref) (endpoint_request ep path) w in
        let p := MkProvider (<[name := MkBuilt (ep_query ep) (ep_header ep) (ep_sensitive ep) (ep_core ep) rv (ep_client ep)]>
                   (hs_endpoints p)) (hs_closed p) in
        (w, match got with
            | Err err => Err (EWrap "https: endpoint" [err])
            | Ok resp =>
                match SelectKey (re_Body resp) (ref_Key ref) with
                | Err err => Err (EWrap "https: endpoint" [err])
                | Ok body => Ok (MkValue body (Version (Some resp) (re_Body resp)) (ep_sensitive ep) 0 ∅)
                end
            end, p)
    end.

(** [func (p *Provider) Close() error], and the endpoints whose idle connections it lets go. *)
Definition Close p : Provider W := MkProvider (hs_endpoints p) true.
Definition closed_idle p : gset string := dom (filter (fun kv => releases_idle (ep_client kv.2) = true) (hs_endpoints p)).

#[export, program] Instance provider : HttpProvider W (Provider W) :=
  {| hp_resolve := Resolve; hp_close := Close; hp_closed := hs_closed |}.
Next Obligation. done. Qed.
Next Obligation. intros p ref w Hc. unfold Resolve. by rewrite Hc. Qed.

(** ** Currency *)

(** The backends behind the endpoints: what each holds at a request path, told honestly
    by its validators; and the path a raw ref spells. *)
Context (content : string -> W -> string -> string) (path_of : string -> string).

Definition target (ep : endpoint W) (raw : string) : core_Request := endpoint_request ep (path_of raw).

(** A ref as [ParseRef] makes it: its raw text determines its path. *)
Definition coherent (ref : Ref) : Prop := (splitEndpoint (ref_Path ref)).2 = path_of (ref_Raw ref).

(** The states a provider can be driven to, by its refs and by time. *)
Inductive driven (p0 : Provider W) : W -> Provider W -> Prop :=
  | driven_start w : driven p0 w p0
  | driven_wait w w' p : driven p0 w p -> driven p0 w' p
  | driven_close w p : driven p0 w p -> driven p0 w (Close p)
  | driven_resolve w p ref w' got p' : driven p0 w p -> coherent ref -> Resolve ref p w = (w', got, p') -> driven p0 w' p'.

(** Every endpoint is one that was built, with a cache its own polls have filled. *)
Definition fresh (p0 : Provider W) (w : W) p : Prop :=
  forall name ep, hs_endpoints p !! name = Some ep -> exists ep0, hs_endpoints p0 !! name = Some ep0 /\
    ep_query ep = ep_query ep0 /\ ep_header ep = ep_header ep0 /\ ep_sensitive ep = ep_sensitive ep0 /\ ep_core ep = ep_core ep0 /\
    polled (core_Do request_ok (ep_core ep0)) (target ep0) 0 w (ep_reval ep).

Lemma driven_fresh p0 w p : (forall name ep, hs_endpoints p0 !! name = Some ep -> ep_reval ep = NewRevalidator 0) ->
  driven p0 w p -> fresh p0 w p.
Proof.
  intros H0 Hd. induction Hd as [w|w w' p Hd IH|w p Hd IH|w p ref w' got p' Hd IH Hc Hr].
  - intros name ep Hep. exists ep. split_and!; try done. rewrite (H0 _ _ Hep). constructor.
  - intros name ep Hep. destruct (IH name ep Hep) as (ep0 & ? & ? & ? & ? & ? & Hp). exists ep0. split_and!; try done. by econstructor.
  - exact IH.
  - unfold Resolve in Hr. destruct (hs_closed p); [by simplify_eq|]. unfold coherent in Hc.
    assert (Hw : fresh p0 w' p).
    { intros name ep Hep. destruct (IH name ep Hep) as (ep0 & ? & ? & ? & ? & ? & Hp). exists ep0. split_and!; try done. by econstructor. }
    destruct (splitEndpoint (ref_Path ref)) as [name path]. simpl in Hc. subst path.
    destruct (hs_endpoints p !! name) as [ep|] eqn:Hep; [|by simplify_eq].
    destruct (rv_Get _ _ _ _ w) as [[w1 got1] rv] eqn:Hg. simplify_eq/=.
    intros name' ep' Hep'. simpl in Hep'. destruct (decide (name' = name)) as [->|Hne].
    + rewrite lookup_insert_eq in Hep'. simplify_eq/=. destruct (IH name ep Hep) as (ep0 & E0 & E1 & E2 & E3 & E4 & Hp).
      exists ep0. split_and!; try done. rewrite E4 in Hg. unfold endpoint_request in Hg. rewrite E1, E2 in Hg. by econstructor.
    + rewrite lookup_insert_ne in Hep' by done. by apply Hw.
Qed.

Lemma new_endpoint_fresh out e out' : (forall name ep, out !! name = Some ep -> ep_reval ep = NewRevalidator 0) ->
  new_endpoint out e = Ok out' -> forall name ep, out' !! name = Some ep -> ep_reval ep = NewRevalidator 0.
Proof.
  intros H0. unfold new_endpoint. repeat (case_match; try done). intros [= <-] name ep.
  rewrite lookup_insert_Some. intros [[_ <-]|[_ Hep]]; [done|by eapply H0].
Qed.

Lemma New_fresh es p : New es = Ok p -> forall name ep, hs_endpoints p !! name = Some ep -> ep_reval ep = NewRevalidator 0.
Proof.
  unfold New. destruct es as [|e es]; [done|]. generalize (e :: es) as l. clear e es. intros l.
  assert (G : forall out, (forall name ep, out !! name = Some ep -> ep_reval ep = NewRevalidator 0) ->
    forall out', new_endpoints out l = Ok out' -> forall name ep, out' !! name = Some ep -> ep_reval ep = NewRevalidator 0).
  { induction l as [|e l IH]; intros out H0 out'; simpl; [by intros [= <-]|].
    destruct (new_endpoint out e) as [out1|] eqn:E; [|done]. apply IH. by eapply new_endpoint_fresh. }
  destruct (new_endpoints ∅ l) as [out|] eqn:E; [|done]. intros [= <-]. simpl. eapply G; [|done]. intros name ep. by rewrite lookup_empty.
Qed.

(** What a poll of the https provider returns is current: after any polls of any refs,
    a resolve that succeeds gives the part its ref asks for of what the backend of its
    endpoint holds at that moment, although a 304 is paid for most of them; and it is
    sensitive exactly when its endpoint says so. *)
Theorem https_value_is_current es p0 w p ref w' v p' : New es = Ok p0 ->
  (forall name ep, hs_endpoints p0 !! name = Some ep -> honest (core_Do request_ok (ep_core ep)) (target ep) (content name)) ->
  driven p0 w p -> coherent ref -> Resolve ref p w = (w', Ok v, p') ->
  let name := (splitEndpoint (ref_Path ref)).1 in
  exists ep, hs_endpoints p0 !! name = Some ep /\
    SelectKey (content name w' (ref_Raw ref)) (ref_Key ref) = Ok (val_Bytes v) /\ val_Sensitive v = ep_sensitive ep.
Proof.
  intros Hn Hh Hd Hc Hr. pose proof (driven_fresh p0 w p (New_fresh _ _ Hn) Hd) as Hf.
  unfold Resolve in Hr. destruct (hs_closed p); [done|]. unfold coherent in Hc.
  destruct (splitEndpoint (ref_Path ref)) as [name path]. simpl in Hc |- *. subst path.
  destruct (hs_endpoints p !! name) as [ep|] eqn:Hep; [|done].
  destruct (Hf name ep Hep) as (ep0 & E0 & E1 & E2 & E3 & E4 & Hp). exists ep0. split; [done|].
  destruct (rv_Get _ _ _ _ w) as [[w1 got] rv] eqn:Hg. unfold endpoint_request in Hg. rewrite E1, E2, E4 in Hg.
  destruct (Revalidator_transparent (core_Do request_ok (ep_core ep0)) (target ep0) (content name) 0 w (ep_reval ep) (ref_Raw ref) w1 got rv
    (Hh name ep0 E0) Hp Hg) as [Hgot _].
  destruct got as [resp|]; [|done]. destruct (SelectKey (re_Body resp) (ref_Key ref)) as [body|] eqn:Es; [|done].
  simplify_eq/=. by rewrite <- Hgot.
Qed.

(** A ref is never sent to an endpoint that was not declared, and the mistake is not
    hidden behind a default. *)
Lemma undeclared_endpoint_is_invalid p ref w : hs_closed p = false -> hs_endpoints p !! (splitEndpoint (ref_Path ref)).1 = None ->
  exists err, Resolve ref p w = (w, Err err, p) /\ ErrorKind (Some err) = KindInvalid.
Proof.
  intros Hc Hn. unfold Resolve. rewrite Hc. destruct (splitEndpoint (ref_Path ref)) as [name path]. simpl in Hn. rewrite Hn.
  by eexists.
Qed.
End https.
End Https.

(** * Doppler *)

Module Doppler.
Definition defaultBaseURL : string := "https://api.doppler.com".
Definition secretPath : string := "/v3/configs/config/secret".
Definition errBodyLimit : nat := 4096.

(** [type Provider struct]. *)
Record Provider (W : Type) := MkProvider {
  dp_token : string;
  dp_baseURL : string;
  dp_httpClient : option (http_client W);
  dp_closed : bool;
}.
Arguments MkProvider {W}.
Arguments dp_token {W}.
Arguments dp_baseURL {W}.
Arguments dp_httpClient {W}.
Arguments dp_closed {W}.

(** [type Option func( *Provider)]. *)
Inductive Option_ (W : Type) := WithToken (token : string) | WithBaseURL (u : string) | WithHTTPClient (c : option (http_client W)).
Arguments WithToken {W}.
Arguments WithBaseURL {W}.
Arguments WithHTTPClient {W}.

(** [type secretResponse struct]. *)
Record secretResponse := MkSecretResponse { sr_raw : string; sr_computed : string }.

Section doppler.
Context {W : Type} (default_http : http_client W).
Context (url_Parse : string -> option URL) (default_client : sent -> W -> W * res received) (request_ok : sent -> bool).
(** [json.Unmarshal] into [secretResponse]. *)
Context (Unmarshal_secret : string -> res secretResponse) (DOPPLER_TOKEN : string).
Implicit Types p : Provider W.

Definition apply_option p (o : Option_ W) : Provider W :=
  match o with
  | WithToken t => MkProvider t (dp_baseURL p) (dp_httpClient p) (dp_closed p)
  | WithBaseURL u => if bool_decide (u = "") then p else MkProvider (dp_token p) (TrimRightSlash u) (dp_httpClient p) (dp_closed p)
  | WithHTTPClient (Some c) => MkProvider (dp_token p) (dp_baseURL p) (Some c) (dp_closed p)
  | WithHTTPClient None => p
  end.

(** [func New(opts ...Option) *Provider]; [default_http] is the client with its timeout
    of thirty seconds. *)
Definition New (opts : list (Option_ W)) : Provider W := foldl apply_option (MkProvider "" defaultBaseURL (Some default_http) false) opts.

(** [func (p *Provider) resolveToken() string]. *)
Definition resolveToken p : string := if bool_decide (dp_token p = "") then DOPPLER_TOKEN else dp_token p.

(** [strings.Trim(s, "/")], and [func parsePath(path string)]. *)
Definition parsePath (path : string) : res (string * string) :=
  match Split (TrimRightSlash (drop_slashes path)) "/" with
  | [project; config] =>
      if bool_decide (project = "") || bool_decide (config = "") then Err (EOpaque "mamori/doppler: path must be <project>/<config>")
      else Ok (project, config)
  | _ => Err (EOpaque "mamori/doppler: path must be <project>/<config>")
  end.

(** [func errorDetail(status int, body []byte) string]. *)
Definition errorDetail (status : Z) (body : string) : string :=
  if status =? 404 then "" else TrimSpace (str_take errBodyLimit body).

(** [func (p *Provider) clientFor(token string)]. *)
Definition clientFor p (token : string) : res (core_Client W) :=
  res_wrap (fun e => EWrap "mamori/doppler: building the API client" [e])
    (core_New url_Parse default_client
       (MkCoreConfig (dp_baseURL p) (hc_Do <$> dp_httpClient p) (Some (Bearer token)) 0 "" (Some errorDetail))).

(** What [Resolve] makes of an error of the client, and of an answer. *)
Definition failed (err : error) : error :=
  if errors_Is err ErrNotFound then EWrap "mamori/doppler: secret not found" [ESentinel ErrNotFound]
  else EWrap "mamori/doppler: fetching secret" [err].
Definition read_secret (project config name : string) (resp : core_Response) : res Value :=
  match Unmarshal_secret (re_Body resp) with
  | Err err => Err (EWrap "mamori/doppler: decoding secret" [err])
  | Ok sr =>
      let val := if bool_decide (sr_computed sr = "") then sr_raw sr else sr_computed sr in
      Ok (MkValue val (VersionHash val) true 0 {["project" := project; "config" := config; "name" := name]})
  end.

(** [func (p *Provider) Resolve(ctx, ref)]. *)
Definition Resolve (ref : Ref) p (w : W) : W * res Value :=
  if dp_closed p then (w, Err (EWrap "mamori/doppler: provider is closed" [ESentinel ErrUnavailable]))
  else
    match parsePath (ref_Path ref) with
    | Err err => (w, Err err)
    | Ok (project, config) =>
        let name := ref_Key ref in
        if bool_decide (name = "") then (w, Err (EOpaque "mamori/doppler: ref requires a #SECRET_NAME fragment"))
        else if bool_decide (resolveToken p = "") then (w, Err (EOpaque "mamori/doppler: no token"))
        else
          match clientFor p (resolveToken p) with
          | Err err => (w, Err err)
          | Ok client =>
              ask (core_Do request_ok client)
                (MkCoreRequest "" secretPath {["project" := [project]; "config" := [config]; "name" := [name]]}
                   [("Accept", "application/json")] "" "" "") failed (read_secret project config name) w
          end
    end.

(** [func (p *Provider) Close() error]. *)
Definition Close p : Provider W := MkProvider (dp_token p) (dp_baseURL p) (dp_httpClient p) true.

#[export, program] Instance provider : HttpProvider W (Provider W) :=
  {| hp_resolve ref p w := (Resolve ref p w, p); hp_close := Close; hp_closed := dp_closed |}.
Next Obligation. done. Qed.
Next Obligation. intros p ref w Hc. simpl. unfold Resolve. by rewrite Hc. Qed.

(** A ref that could never be resolved is reported without a kind: the classification
    says unknown, which is retried, where the other providers say invalid. *)
Lemma malformed_path_is_unknown : exists err, parsePath "project" = Err err /\ ErrorKind (Some err) = KindUnknown.
Proof. eexists. split; [by vm_compute|by vm_compute]. Qed.
End doppler.
End Doppler.

(** The check of the scheme of a base URL that three providers make: a plaintext one has
    to be allowed. *)
Definition check_scheme (url_Scheme : string -> option string) (what : string) (raw : string) (allowInsecure : bool) : option error :=
  match url_Scheme raw with
  | None => Some (EWrap (what ++ " is not a URL") [ESentinel ErrInvalid])
  | Some sch =>
      if bool_decide (sch = "https") then None
      else if bool_decide (sch = "http") then
        if negb allowInsecure then Some (EWrap (what ++ " is http://") [ESentinel ErrInvalid]) else None
      else Some (EWrap (what ++ " scheme is not http or https") [ESentinel ErrInvalid])
  end.

(** * Supabase *)

Module Supabase.
Definition restPrefix : string := "/rest/v1".
Definition defaultSchema : string := "public".
Definition defaultView : string := "decrypted_secrets".
Definition nameColumn : string := "name".
Definition secretColumn : string := "decrypted_secret".
Definition versionColumn : string := "updated_at".
Definition userAgent : string := "mamori-supabase".

(** [type Provider struct]; the service key is a function of no state here. *)
Record Provider (W : Type) := MkProvider {
  sp_projectURL : string;
  sp_serviceKey : option string;
  sp_schema : string;
  sp_view : string;
  sp_allowInsecure : bool;
  sp_httpClient : option (http_client W);
  sp_client : option (core_Client W);
  sp_closed : bool;
}.
Arguments MkProvider {W}.
Arguments sp_projectURL {W}.
Arguments sp_serviceKey {W}.
Arguments sp_schema {W}.
Arguments sp_view {W}.
Arguments sp_allowInsecure {W}.
Arguments sp_httpClient {W}.
Arguments sp_client {W}.
Arguments sp_closed {W}.

(** [type settings struct], and the environment the provider reads. *)
Record settings := MkSettings { st_schema : string; st_view : string }.
Record environment := MkEnvironment { ev_url : string; ev_key : string; ev_schema : string; ev_view : string }.

(** [type Option func( *Provider)]. *)
Inductive Option_ (W : Type) :=
  | WithProjectURL (u : string) | WithServiceKey (key : string) | WithSchema (name : string) | WithView (name : string)
  | WithAllowInsecure | WithHTTPClient (c : option (http_client W)).
Arguments WithProjectURL {W}.
Arguments WithServiceKey {W}.
Arguments WithSchema {W}.
Arguments WithView {W}.
Arguments WithAllowInsecure {W}.
Arguments WithHTTPClient {W}.

(** [type secretRow struct]. *)
Record secretRow := MkRow { row_Name : string; row_DecryptedSecret : option string; row_UpdatedAt : string }.

Definition invalid (msg : string) : error := EWrap ("mamori/supabase: " ++ msg) [ESentinel ErrInvalid].

(** ** Filters *)

Definition dquote : ascii := byte_of 34.
Definition is_special (c : ascii) : bool := existsb (ascii_eqb c) [","; "."; ":"; "("; ")"; dquote; backslash; " "]%char.
Fixpoint has_special (s : string) : bool := match s with EmptyString => false | String c s => is_special c || has_special s end.

(** The replacer of the two bytes that are escaped. *)
Fixpoint escape (s : string) : string :=
  match s with
  | EmptyString => ""
  | String c s => if ascii_eqb c backslash || ascii_eqb c dquote then String backslash (String c (escape s)) else String c (escape s)
  end.

(** [func filterValue(name string) string]. *)
Definition filterValue (name : string) : string := if negb (has_special name) then name else String dquote (escape name ++ String dquote "").

(** [func versionOf(updatedAt string, value []byte) string]. *)
Definition versionOf (updatedAt value : string) : string := if bool_decide (updatedAt = "") then VersionHash value else updatedAt.

Section supabase.
Context {W : Type} `{J : JSON}.
Context (url_Parse : string -> option URL) (url_Scheme : string -> option string) (default_client : sent -> W -> W * res received).
Context (request_ok : sent -> bool).
(** [json.Unmarshal] into the rows, and into the message and the code of an error. *)
Context (Unmarshal_rows : string -> option (list secretRow)) (Unmarshal_detail : string -> option (string * string)).
Context (env : environment).
Implicit Types p : Provider W.

Definition apply_option p (o : Option_ W) : Provider W :=
  match o with
  | WithProjectURL u =>
      if bool_decide (u = "") then p
      else MkProvider (TrimRightSlash u) (sp_serviceKey p) (sp_schema p) (sp_view p) (sp_allowInsecure p) (sp_httpClient p) (sp_client p) (sp_closed p)
  | WithServiceKey k =>
      if bool_decide (k = "") then p
      else MkProvider (sp_projectURL p) (Some k) (sp_schema p) (sp_view p) (sp_allowInsecure p) (sp_httpClient p) (sp_client p) (sp_closed p)
  | WithSchema n => MkProvider (sp_projectURL p) (sp_serviceKey p) n (sp_view p) (sp_allowInsecure p) (sp_httpClient p) (sp_client p) (sp_closed p)
  | WithView n => MkProvider (sp_projectURL p) (sp_serviceKey p) (sp_schema p) n (sp_allowInsecure p) (sp_httpClient p) (sp_client p) (sp_closed p)
  | WithAllowInsecure => MkProvider (sp_projectURL p) (sp_serviceKey p) (sp_schema p) (sp_view p) true (sp_httpClient p) (sp_client p) (sp_closed p)
  | WithHTTPClient (Some c) =>
      MkProvider (sp_projectURL p) (sp_serviceKey p) (sp_schema p) (sp_view p) (sp_allowInsecure p) (Some c) (sp_client p) (sp_closed p)
  | WithHTTPClient None => p
  end.

(** [func New(opts ...Option) *Provider]. *)
Definition New (opts : list (Option_ W)) : Provider W := foldl apply_option (MkProvider "" None "" "" false None None false) opts.

(** [func secretNameOf(ref)]. *)
Definition secretNameOf (ref : Ref) : res string :=
  if bool_decide (secret_name (ref_Path ref) = "") then Err (invalid "ref requires a secret name") else Ok (secret_name (ref_Path ref)).

(** [func (p *Provider) settingsFor(ref)]. *)
Definition settingsFor p (ref : Ref) : res settings :=
  let view := first_text [Ref_Opt ref "view"; sp_view p; ev_view env; defaultView] in
  if has_byte "/" view || has_byte backslash view then Err (invalid "relation name contains a slash")
  else Ok (MkSettings (first_text [Ref_Opt ref "schema"; sp_schema p; ev_schema env; defaultSchema]) view).

(** [func apiKeyAuth(key func() string) httpcore.Authenticator]. *)
Definition apiKeyAuth (key : string) : sent -> W -> W * res sent :=
  AuthenticatorFunc (fun req => set_header "Authorization" ("Bearer " ++ key) (set_header "apikey" key req)).

(** [func errorDetail(_ int, body []byte) string]. *)
Definition errorDetail (_ : Z) (body : string) : string :=
  match Unmarshal_detail body with
  | None => ""
  | Some (message, code) =>
      if bool_decide (message = "") then code else if bool_decide (code = "") then message else message ++ " (" ++ code ++ ")"
  end.

(** What [clientFor] builds when there is no client yet. *)
Definition build_client p : res (core_Client W) :=
  let base := first_text [sp_projectURL p; TrimRightSlash (ev_url env)] in
  if bool_decide (base = "") then Err (invalid "no project URL")
  else
    match check_scheme url_Scheme "mamori/supabase: project URL" base (sp_allowInsecure p) with
    | Some err => Err err
    | None =>
        match (match sp_serviceKey p with Some k => Some k | None => if bool_decide (ev_key env = "") then None else Some (ev_key env) end) with
        | None => Err (invalid "no service-role key")
        | Some key =>
            res_wrap (fun e => EWrap "mamori/supabase: building the API client" [e])
              (core_New url_Parse default_client
                 (MkCoreConfig (base ++ restPrefix) (hc_Do <$> sp_httpClient p) (Some (apiKeyAuth key)) 0 userAgent (Some errorDetail)))
        end
    end.
Definition set_client p (c : core_Client W) : Provider W :=
  MkProvider (sp_projectURL p) (sp_serviceKey p) (sp_schema p) (sp_view p) (sp_allowInsecure p) (sp_httpClient p) (Some c) (sp_closed p).

(** [func (p *Provider) clientFor() ( *httpcore.Client, error)]. *)
Definition clientFor p : Provider W * res (core_Client W) :=
  if sp_closed p then (p, Err (EWrap "mamori/supabase: provider is closed" [ESentinel ErrUnavailable]))
  else
    match sp_client p with
    | Some c => (p, Ok c)
    | None => match build_client p with Err err => (p, Err err) | Ok c => (set_client p c, Ok c) end
    end.

(** The request of a secret, and what is read of its answer. *)
Definition secret_request (s : settings) (name : string) : core_Request :=
  MkCoreRequest "" ("/" ++ st_view s)
    {[nameColumn := ["eq." ++ filterValue name]; "select" := [Join [nameColumn; secretColumn; versionColumn] ","]]}
    [("Accept-Profile", st_schema s)] "" "" "".
Definition read_rows (ref : Ref) (resp : core_Response) : res Value :=
  match Unmarshal_rows (re_Body resp) with
  | None => Err (invalid "response is not a JSON array")
  | Some [] => Err (EWrap "mamori/supabase: secret not found" [ESentinel ErrNotFound])
  | Some [row] =>
      match row_DecryptedSecret row with
      | None => Err (invalid "row carried no decrypted_secret column")
      | Some value =>
          match SelectKey value (ref_Key ref) with
          | Err err => Err (EWrap "mamori/supabase: secret" [err])
          | Ok body => Ok (MkValue body (versionOf (row_UpdatedAt row) value) true 0 ∅)
          end
      end
  | Some _ => Err (invalid "secret matched several rows")
  end.

(** [func (p *Provider) Resolve(ctx, ref)]. *)
Definition Resolve (ref : Ref) p (w : W) : W * res Value * Provider W :=
  match secretNameOf ref with
  | Err err => (w, Err err, p)
  | Ok name =>
      match settingsFor p ref with
      | Err err => (w, Err err, p)
      | Ok s =>
          match clientFor p with
          | (p, Err err) => (w, Err err, p)
          | (p, Ok client) =>
              (ask (core_Do request_ok client) (secret_request s name) (fun err => EWrap "mamori/supabase: reading secret" [err]) (read_rows ref) w, p)
          end
      end
  end.

(** [func (p *Provider) Close() error]. *)
Definition Close p : Provider W :=
  MkProvider (sp_projectURL p) (sp_serviceKey p) (sp_schema p) (sp_view p) (sp_allowInsecure p) (sp_httpClient p) (sp_client p) true.

#[export, program] Instance provider : HttpProvider W (Provider W) :=
  {| hp_resolve := Resolve; hp_close := Close; hp_closed := sp_closed |}.
Next Obligation. done. Qed.
Next Obligation.
  intros p ref w Hc. unfold Resolve, clientFor. rewrite Hc. destruct (secretNameOf ref); [|done]. by destruct (settingsFor p ref).
Qed.
End supabase.

(** ** What a filter asks for *)

(** The reading of a filter value: a quoted one up to its closing quote, a backslash
    standing for the byte after it. *)
Fixpoint unescape (s : string) : string :=
  match s with
  | EmptyString => ""
  | String c t =>
      if ascii_eqb c backslash then match t with String d t => String d (unescape t) | EmptyString => "" end
      else if ascii_eqb c dquote then ""
      else String c (unescape t)
  end.
Definition read_filter (s : string) : string :=
  match s with String c t => if ascii_eqb c dquote then unescape t else s | EmptyString => "" end.

(** A name is asked for as it is: whatever bytes it has, the filter that is sent reads
    back as that name, so that no name can widen the filter or ask for another secret. *)
Theorem filterValue_roundtrip name : read_filter (filterValue name) = name.
Proof.
  assert (Hbd : ascii_eqb dquote backslash = false) by done.
  unfold filterValue. destruct (has_special name) eqn:Hs; cbn [negb].
  - unfold read_filter. rewrite ascii_eqb_refl. clear Hs. induction name as [|c s IH].
    { change (unescape (String dquote "") = ""). cbn [unescape]. by rewrite Hbd, ascii_eqb_refl. }
    cbn [escape]. destruct (ascii_eqb c backslash) eqn:Eb; cbn [orb].
    + rewrite !str_app_cons. cbn [unescape]. rewrite ascii_eqb_refl. by rewrite IH.
    + destruct (ascii_eqb c dquote) eqn:Ed; rewrite !str_app_cons; cbn [unescape].
      * rewrite ascii_eqb_refl. by rewrite IH.
      * rewrite Eb, Ed. by rewrite IH.
  - destruct name as [|c s]; [done|]. simpl in *. apply orb_false_iff in Hs as [Hc _]. unfold is_special in Hc. simpl in Hc.
    destruct (ascii_eqb c dquote); [|done]. by rewrite !orb_true_r in Hc.
Qed.
End Supabase.

(** * HCP Vault Secrets *)

Module HcpVS.
Definition defaultBaseURL : string := "https://api.cloud.hashicorp.com".
Definition defaultTokenURL : string := "https://auth.idp.hashicorp.com/oauth2/token".
Definition tokenAudience : string := "https://api.hashicorp.cloud".
Definition apiVersion : string := "2023-11-28".
Definition userAgent : string := "mamori-hcp-vault-secrets".

(** [type Provider struct]. *)
Record Provider (W : Type) := MkProvider {
  vp_clientID : string;
  vp_clientSecret : option string;
  vp_organizationID : string;
  vp_projectID : string;
  vp_appName : string;
  vp_baseURL : string;
  vp_tokenURL : string;
  vp_allowInsecure : bool;
  vp_httpClient : option (http_client W);
  vp_client : option (core_Client W);
  vp_closed : bool;
}.
Arguments MkProvider {W}.
Arguments vp_clientID {W}.
Arguments vp_clientSecret {W}.
Arguments vp_organizationID {W}.
Arguments vp_projectID {W}.
Arguments vp_appName {W}.
Arguments vp_baseURL {W}.
Arguments vp_tokenURL {W}.
Arguments vp_allowInsecure {W}.
Arguments vp_httpClient {W}.
Arguments vp_client {W}.
Arguments vp_closed {W}.

(** [type settings struct], and the environment the provider reads. *)
Record settings := MkSettings { hs_org : string; hs_project : string; hs_app : string }.
Record environment := MkEnvironment { he_id : string; he_secret : string; he_org : string; he_project : string; he_app : string }.

(** [type secretEnvelope struct]: the secret, and its static version and value. *)
Record secret_object := MkSecretObject { so_Type : string; so_Static : option (Z * string) }.

(** [type Option func( *Provider)]. *)
Inductive Option_ (W : Type) :=
  | WithClientID (id : string) | WithClientSecret (secret : string) | WithOrganizationID (id : string) | WithProjectID (id : string)
  | WithAppName (name : string) | WithBaseURL (u : string) | WithTokenURL (u : string) | WithAllowInsecure
  | WithHTTPClient (c : option (http_client W)).
Arguments WithClientID {W}.
Arguments WithClientSecret {W}.
Arguments WithOrganizationID {W}.
Arguments WithProjectID {W}.
Arguments WithAppName {W}.
Arguments WithBaseURL {W}.
Arguments WithTokenURL {W}.
Arguments WithAllowInsecure {W}.
Arguments WithHTTPClient {W}.

Definition invalid (msg : string) : error := EWrap ("mamori/hcp-vs: " ++ msg) [ESentinel ErrInvalid].

(** [func secretPath(s settings, name string) string]. *)
Definition secretPath (s : settings) (name : string) : string :=
  "/secrets/" ++ apiVersion ++ "/organizations/" ++ PathEscape (hs_org s) ++ "/projects/" ++ PathEscape (hs_project s) ++
  "/apps/" ++ PathEscape (hs_app s) ++ "/secrets/" ++ name ++ ":open".

(** [func versionOf(version int64, value []byte) string]. *)
Definition versionOf (version : Z) (value : string) : string := if 0 <? version then FormatInt version else VersionHash value.

Section hcp.
Context {W : Type} `{J : JSON}.
Context (net_parse : string -> net_URL + string) (url_Scheme : string -> option string) (default_client : sent -> W -> W * res received).
Context (request_ok : sent -> bool).
(** [json.Unmarshal] into [secretEnvelope] and into the message of an error; and the
    [Apply] of the token grant, whose callers and cache are [TokenCache]: the cached
    token is part of the world. *)
Context (Unmarshal_envelope : string -> option (option secret_object)) (Unmarshal_message : string -> option string).
Context (grant : oauth2_fixed W -> sent -> W -> W * res sent).
Context (env : environment).
Implicit Types p : Provider W.

Definition apply_option p (o : Option_ W) : Provider W :=
  let '(MkProvider id sec org proj app base tok ins hc cl cd) := p in
  match o with
  | WithClientID x => if bool_decide (x = "") then p else MkProvider x sec org proj app base tok ins hc cl cd
  | WithClientSecret x => if bool_decide (x = "") then p else MkProvider id (Some x) org proj app base tok ins hc cl cd
  | WithOrganizationID x => MkProvider id sec x proj app base tok ins hc cl cd
  | WithProjectID x => MkProvider id sec org x app base tok ins hc cl cd
  | WithAppName x => MkProvider id sec org proj x base tok ins hc cl cd
  | WithBaseURL u => if bool_decide (u = "") then p else MkProvider id sec org proj app (TrimRightSlash u) tok ins hc cl cd
  | WithTokenURL u => if bool_decide (u = "") then p else MkProvider id sec org proj app base u ins hc cl cd
  | WithAllowInsecure => MkProvider id sec org proj app base tok true hc cl cd
  | WithHTTPClient (Some c) => MkProvider id sec org proj app base tok ins (Some c) cl cd
  | WithHTTPClient None => p
  end.

(** [func New(opts ...Option) *Provider]. *)
Definition New (opts : list (Option_ W)) : Provider W :=
  foldl apply_option (MkProvider "" None "" "" "" defaultBaseURL defaultTokenURL false None None false) opts.

(** [func secretNameOf(ref)]. *)
Definition secretNameOf (ref : Ref) : res string :=
  if bool_decide (secret_name (ref_Path ref) = "") then Err (invalid "ref requires a secret name") else Ok (secret_name (ref_Path ref)).

(** [func (p *Provider) settingsFor(ref)]. *)
Definition settingsFor p (ref : Ref) : res settings :=
  let s := MkSettings (first_text [Ref_Opt ref "org"; vp_organizationID p; he_org env])
             (first_text [Ref_Opt ref "project"; vp_projectID p; he_project env])
             (first_text [Ref_Opt ref "app"; vp_appName p; he_app env]) in
  if bool_decide (hs_org s = "") then Err (invalid "no organization id")
  else if bool_decide (hs_project s = "") then Err (invalid "no project id")
  else if bool_decide (hs_app s = "") then Err (invalid "no application name")
  else Ok s.

(** [func errorMessage(_ int, body []byte) string]. *)
Definition errorMessage (_ : Z) (body : string) : string := default "" (Unmarshal_message body).

(** What [clientFor] builds when there is no client yet. *)
Definition build_client p : res (core_Client W) :=
  let base := default_to defaultBaseURL (vp_baseURL p) in
  match check_scheme url_Scheme "mamori/hcp-vs: base URL" base (vp_allowInsecure p) with
  | Some err => Err err
  | None =>
      let clientID := first_text [vp_clientID p; he_id env] in
      if bool_decide (clientID = "") then Err (invalid "no client id")
      else
        match (match vp_clientSecret p with Some s => Some s | None => if bool_decide (he_secret env = "") then None else Some (he_secret env) end) with
        | None => Err (invalid "no client secret")
        | Some secret =>
            match OAuth2ClientCredentials net_parse default_client
                    (MkOAuth2Config (default_to defaultTokenURL (vp_tokenURL p)) clientID secret [] tokenAudience (hc_Do <$> vp_httpClient p) 0
                       (vp_allowInsecure p) None) with
            | Err err => Err (EWrap "mamori/hcp-vs: building the token exchange" [err])
            | Ok auth =>
                res_wrap (fun e => EWrap "mamori/hcp-vs: building the API client" [e])
                  (core_New (core_parse net_parse) default_client
                     (MkCoreConfig base (hc_Do <$> vp_httpClient p) (Some (grant auth)) 0 userAgent (Some errorMessage)))
            end
        end
  end.
Definition set_client p (c : core_Client W) : Provider W :=
  MkProvider (vp_clientID p) (vp_clientSecret p) (vp_organizationID p) (vp_projectID p) (vp_appName p) (vp_baseURL p) (vp_tokenURL p)
    (vp_allowInsecure p) (vp_httpClient p) (Some c) (vp_closed p).

(** [func (p *Provider) clientFor() ( *httpcore.Client, error)]. *)
Definition clientFor p : Provider W * res (core_Client W) :=
  if vp_closed p then (p, Err (EWrap "mamori/hcp-vs: provider is closed" [ESentinel ErrUnavailable]))
  else
    match vp_client p with
    | Some c => (p, Ok c)
    | None => match build_client p with Err err => (p, Err err) | Ok c => (set_client p c, Ok c) end
    end.

(** What is read of the answer. *)
Definition read_secret (ref : Ref) (resp : core_Response) : res Value :=
  match Unmarshal_envelope (re_Body resp) with
  | None => Err (invalid "response is not JSON")
  | Some None => Err (invalid "response carried no secret object")
  | Some (Some so) =>
      match so_Static so with
      | None => Err (invalid "secret has no static_version")
      | Some (version, value) =>
          match SelectKey value (ref_Key ref) with
          | Err err => Err (EWrap "mamori/hcp-vs: secret" [err])
          | Ok body => Ok (MkValue body (versionOf version value) true 0 ∅)
          end
      end
  end.

(** [func (p *Provider) Resolve(ctx, ref)]. *)
Definition Resolve (ref : Ref) p (w : W) : W * res Value * Provider W :=
  match secretNameOf ref with
  | Err err => (w, Err err, p)
  | Ok name =>
      match settingsFor p ref with
      | Err err => (w, Err err, p)
      | Ok s =>
          match clientFor p with
          | (p, Err err) => (w, Err err, p)
          | (p, Ok client) =>
              (ask (core_Do request_ok client) (MkCoreRequest "" (secretPath s name) ∅ [] "" "" "")
                 (fun err => EWrap "mamori/hcp-vs: reading secret" [err]) (read_secret ref) w, p)
          end
      end
  end.

(** [func (p *Provider) Close() error]. *)
Definition Close p : Provider W :=
  MkProvider (vp_clientID p) (vp_clientSecret p) (vp_organizationID p) (vp_projectID p) (vp_appName p) (vp_baseURL p) (vp_tokenURL p)
    (vp_allowInsecure p) (vp_httpClient p) (vp_client p) true.

#[export, program] Instance provider : HttpProvider W (Provider W) :=
  {| hp_resolve := Resolve; hp_close := Close; hp_closed := vp_closed |}.
Next Obligation. done. Qed.
Next Obligation.
  intros p ref w Hc. unfold Resolve, clientFor. rewrite Hc. destruct (secretNameOf ref); [|done]. by destruct (settingsFor p ref).
Qed.
End hcp.
End HcpVS.

(** * PostHog *)

Module PostHog.
Definition DefaultHost : string := "https://us.i.posthog.com".
Definition DefaultDistinctID : string := "mamori".
Definition flagsPath : string := "/flags".
Definition flagsVersion : string := "2".
Definition quotaLimitedFlags : string := "feature_flags".

(** [type flagResult struct]: a raw payload is empty where the answer has none. *)
Record flagResult := MkFlag { fl_Enabled : bool; fl_Variant : string; fl_Payload : string }.

(** [type flagsEnvelope struct]. *)
Record flagsEnvelope := MkFlags { fe_Flags : gmap string flagResult; fe_ErrorsWhileComputingFlags : bool; fe_QuotaLimited : list string }.

(** [type flagsRequest struct]; the properties are values of encoding/json. *)
Record flagsRequest (A : Type) := MkFlagsRequest {
  fq_APIKey : string;
  fq_DistinctID : string;
  fq_Groups : gmap string string;
  fq_PersonProperties : gmap string A;
  fq_GroupProperties : gmap string (gmap string A);
}.
Arguments MkFlagsRequest {A}.

(** [type Provider struct]. *)
Record Provider (W A : Type) := MkProvider {
  pp_apiKey : string;
  pp_host : string;
  pp_distinctID : string;
  pp_groups : gmap string string;
  pp_personProperties : gmap string A;
  pp_groupProperties : gmap string (gmap string A);
  pp_httpClient : option (http_client W);
  pp_maxBody : Z;
  pp_cli : option (core_Client W);
  pp_closed : bool;
}.
Arguments MkProvider {W A}.
Arguments pp_apiKey {W A}.
Arguments pp_host {W A}.
Arguments pp_distinctID {W A}.
Arguments pp_groups {W A}.
Arguments pp_personProperties {W A}.
Arguments pp_groupProperties {W A}.
Arguments pp_httpClient {W A}.
Arguments pp_maxBody {W A}.
Arguments pp_cli {W A}.
Arguments pp_closed {W A}.

(** [type Option func( *Provider)]; the maps are copied. *)
Inductive Option_ (W A : Type) :=
  | WithProjectAPIKey (key : string) | WithHost (host : string) | WithDistinctID (id : string) | WithGroups (groups : gmap string string)
  | WithPersonProperties (props : gmap string A) | WithGroupProperties (props : gmap string (gmap string A))
  | WithHTTPClient (c : option (http_client W)) | WithMaxResponseBytes (n : Z).
Arguments WithProjectAPIKey {W A}.
Arguments WithHost {W A}.
Arguments WithDistinctID {W A}.
Arguments WithGroups {W A}.
Arguments WithPersonProperties {W A}.
Arguments WithGroupProperties {W A}.
Arguments WithHTTPClient {W A}.
Arguments WithMaxResponseBytes {W A}.

(** The environment the provider reads. *)
Record environment := MkEnvironment { pe_host : string; pe_key : string; pe_id : string }.

Definition failed (msg : string) (s : sentinel) : error := EWrap ("mamori/posthog: " ++ msg) [ESentinel s].

Section posthog.
Context {W A : Type} `{J : JSON}.
Context (url_Parse : string -> option URL) (default_client : sent -> W -> W * res received) (request_ok : sent -> bool).
Context (Marshal_request : flagsRequest A -> res string) (Unmarshal_flags : string -> option flagsEnvelope).
Context (env : environment).
Implicit Types p : Provider W A.

Definition apply_option p (o : Option_ W A) : Provider W A :=
  let '(MkProvider k h d g pp gp hc mb cl cd) := p in
  match o with
  | WithProjectAPIKey x => MkProvider x h d g pp gp hc mb cl cd
  | WithHost x => MkProvider k x d g pp gp hc mb cl cd
  | WithDistinctID x => if bool_decide (x = "") then p else MkProvider k h x g pp gp hc mb cl cd
  | WithGroups x => MkProvider k h d x pp gp hc mb cl cd
  | WithPersonProperties x => MkProvider k h d g x gp hc mb cl cd
  | WithGroupProperties x => MkProvider k h d g pp x hc mb cl cd
  | WithHTTPClient x => MkProvider k h d g pp gp x mb cl cd
  | WithMaxResponseBytes n => MkProvider k h d g pp gp hc n cl cd
  end.

(** [func New(opts ...Option) *Provider]. *)
Definition New (opts : list (Option_ W A)) : Provider W A := foldl apply_option (MkProvider "" "" "" ∅ ∅ ∅ None 0 None false) opts.

(** [func (p *Provider) client() ( *httpcore.Client, error)]. *)
Definition client p : Provider W A * res (core_Client W) :=
  if pp_closed p then (p, Err (failed "provider is closed" ErrUnavailable))
  else
    match pp_cli p with
    | Some c => (p, Ok c)
    | None =>
        match core_New url_Parse default_client
                (MkCoreConfig (first_text [pp_host p; pe_host env; DefaultHost]) (hc_Do <$> pp_httpClient p) None (pp_maxBody p) "" None) with
        | Err err => (p, Err (EWrap "mamori/posthog: building the HTTP client" [err]))
        | Ok c =>
            (MkProvider (pp_apiKey p) (pp_host p) (pp_distinctID p) (pp_groups p) (pp_personProperties p) (pp_groupProperties p)
               (pp_httpClient p) (pp_maxBody p) (Some c) (pp_closed p), Ok c)
        end
    end.

(** [func (p *Provider) projectAPIKey() (string, error)] and [subject]. *)
Definition projectAPIKey p : res string :=
  let key := first_text [pp_apiKey p; pe_key env] in
  if bool_decide (key = "") then Err (failed "no project API key" ErrInvalid) else Ok key.
Definition distinct_subject p : string := first_text [pp_distinctID p; pe_id env; DefaultDistinctID].

(** [func payloadBytes(raw json.RawMessage) []byte]. *)
Definition payloadBytes (raw : string) : string :=
  if bool_decide (raw = "") || bool_decide (raw = "null") then ""
  else match Unmarshal_string raw with Some s => s | None => raw end.

(** [func facet(f flagResult, fragment string) ([]byte, string, error)]. *)
Definition append_bool (b : bool) : string := if b then "true" else "false".
Definition facet (f : flagResult) (fragment : string) : res (string * string) :=
  if bool_decide (fragment = "") then
    if bool_decide (fl_Variant f = "") then Ok (append_bool (fl_Enabled f), "enabled") else Ok (fl_Variant f, "variant")
  else if bool_decide (fragment = "enabled") then Ok (append_bool (fl_Enabled f), "enabled")
  else if bool_decide (fragment = "variant") then Ok (fl_Variant f, "variant")
  else if bool_decide (fragment = "payload") then Ok (payloadBytes (fl_Payload f), "payload")
  else Err (EWrap "unsupported fragment" [ESentinel ErrInvalid]).

(** What [Resolve] makes of an evaluation. *)
Definition read_flag (ref : Ref) (e : flagsEnvelope) : res Value :=
  if bool_decide (quotaLimitedFlags ∈ fe_QuotaLimited e) then Err (failed "flag evaluation is paused for this project" ErrRateLimited)
  else
    match fe_Flags e !! ref_Path ref with
    | None =>
        if fe_ErrorsWhileComputingFlags e then Err (failed "flag was not computed" ErrUnavailable) else Err (failed "flag not found" ErrNotFound)
    | Some flag =>
        match facet flag (ref_Key ref) with
        | Err err => Err (EWrap "mamori/posthog: flag" [err])
        | Ok (b, kind) => Ok (MkValue b (VersionHash b) false 0 {["flag" := ref_Path ref; "kind" := kind]})
        end
    end.

(** [func (p *Provider) evaluate(ctx) ( *flagsEnvelope, error)], and what reads its answer. *)
Definition evaluate (read : flagsEnvelope -> res Value) p (w : W) : W * res Value * Provider W A :=
  match projectAPIKey p with
  | Err err => (w, Err err, p)
  | Ok apiKey =>
      match client p with
      | (p, Err err) => (w, Err err, p)
      | (p, Ok cli) =>
          match Marshal_request (MkFlagsRequest apiKey (distinct_subject p) (pp_groups p) (pp_personProperties p) (pp_groupProperties p)) with
          | Err _ => (w, Err (failed "encoding the flag evaluation request" ErrInvalid), p)
          | Ok body =>
              (ask (core_Do request_ok cli)
                 (MkCoreRequest "POST" flagsPath {["v" := [flagsVersion]]} [("Content-Type", "application/json")] body "" "")
                 (fun err => EWrap "mamori/posthog: evaluating flags" [err])
                 (fun resp => match Unmarshal_flags (re_Body resp) with
                              | None => Err (failed "the flag evaluation response was not valid JSON" ErrUnavailable)
                              | Some e => read e
                              end) w, p)
          end
      end
  end.

(** [func (p *Provider) Resolve(ctx, ref)], under a context that is not done. *)
Definition Resolve (ref : Ref) p (w : W) : W * res Value * Provider W A :=
  if bool_decide (ref_Path ref = "") then (w, Err (failed "ref has no flag key" ErrInvalid), p)
  else if negb (bool_decide (ref_Key ref ∈ [""; "enabled"; "variant"; "payload"])) then (w, Err (failed "ref has unsupported fragment" ErrInvalid), p)
  else evaluate (read_flag ref) p w.

(** [func (p *Provider) Close() error]. *)
Definition Close p : Provider W A :=
  MkProvider (pp_apiKey p) (pp_host p) (pp_distinctID p) (pp_groups p) (pp_personProperties p) (pp_groupProperties p)
    (pp_httpClient p) (pp_maxBody p) (pp_cli p) true.

#[export, program] Instance provider : HttpProvider W (Provider W A) :=
  {| hp_resolve := Resolve; hp_close := Close; hp_closed := pp_closed |}.
Next Obligation. done. Qed.
Next Obligation.
  intros p ref w Hc. unfold Resolve, evaluate, client. rewrite Hc. case_bool_decide; [done|]. destruct (negb _); [done|].
  by destruct (projectAPIKey p).
Qed.

(** A flag takes the default of its field only when the service said that there is no
    such flag: an evaluation that is incomplete, paused or not understood is reported
    as a failure that passes. *)
Theorem flag_absence_is_certain ref e err : read_flag ref e = Err err -> ref_Key ref ∈ [""; "enabled"; "variant"; "payload"] ->
  (ErrorKind (Some err) = KindNotFound <->
   fe_Flags e !! ref_Path ref = None /\ fe_ErrorsWhileComputingFlags e = false /\ quotaLimitedFlags ∉ fe_QuotaLimited e) /\
  (ErrorKind (Some err) <> KindNotFound -> ErrorKind (Some err) = KindRateLimited \/ ErrorKind (Some err) = KindUnavailable).
Proof.
  intros Hr Hk. unfold read_flag in Hr. case_bool_decide as Hq.
  { injection Hr as <-. split; [split; [done|by intros (_ & _ & [])]|by left]. }
  destruct (fe_Flags e !! ref_Path ref) as [flag|].
  - destruct (facet flag (ref_Key ref)) as [[b kind]|err'] eqn:Ef; [done|]. unfold facet in Ef.
    rewrite !elem_of_cons in Hk. repeat (case_bool_decide; try done).
    exfalso. destruct Hk as [E|[E|[E|[E|E]]]]; try congruence. by apply not_elem_of_nil in E.
  - destruct (fe_ErrorsWhileComputingFlags e); injection Hr as <-.
    + split; [split; [done|by intros (_ & ? & _)]|by right].
    + split; [by split|done].
Qed.
End posthog.
End PostHog.
