(* ===== verification/Bulk.v ===== *)
(** Providers over the HTTP core that answer a batch with one request per document
    (src/providers: heroku, vercel-gc, cloudflare-kv): a theory of such batches, and its
    instances. *)

From S2P Require Import Prelude Errors GoStrings Ref Provider Decode GoNumbers Base64 Pointer GoPath Client SSE HttpCore HttpAuth Backends Polled.
Open Scope string_scope.
Open Scope Z_scope.

(** * Batches by document *)

Section grouped.
Context {W K D : Type}.
(** The document a group of refs is read from, and the value of one of them. *)
Context (fetch : K -> W -> W * res D) (extract : K -> D -> Ref -> res Value).
(** Whether a document that is not there is an answer, or fails the batch. *)
Context (skips : bool).

(** The refs of one group, against its document: those without a value are left out. *)
Fixpoint fill (k : K) (d : D) (refs : list Ref) (out : gmap string Value) : res (gmap string Value) :=
  match refs with
  | [] => Ok out
  | r :: refs =>
      match extract k d r with
      | Ok v => fill k d refs (<[ref_Raw r := v]> out)
      | Err e => if errors_Is e ErrNotFound then fill k d refs out else Err e
      end
  end.

(** The loop over the groups, in the order they come. *)
Fixpoint batch_groups (gs : list (K * list Ref)) (out : gmap string Value) (w : W) : W * res (gmap string Value) :=
  match gs with
  | [] => (w, Ok out)
  | (k, refs) :: gs =>
      let '(w, got) := fetch k w in
      match got with
      | Err e => if skips && errors_Is e ErrNotFound then batch_groups gs out w else (w, Err e)
      | Ok d => match fill k d refs out with Err e => (w, Err e) | Ok out => batch_groups gs out w end
      end
  end.

(** One ref alone. *)
Definition single (k : K) (r : Ref) (w : W) : W * res Value :=
  let '(w, got) := fetch k w in (w, match got with Err e => Err e | Ok d => extract k d r end).

(** What every fetch keeps, a batch keeps. *)
Lemma batch_groups_keeps (inv : W -> Prop) gs out w : (forall k w, inv w -> inv (fetch k w).1) -> inv w -> inv (batch_groups gs out w).1.
Proof.
  intros Hf. revert out w. induction gs as [|[k refs] gs IH]; intros out w Hw; simpl; [done|].
  specialize (Hf k w Hw). destruct (fetch k w) as [w1 [d|e]]; simpl in Hf.
  - destruct (fill k d refs out); [by apply IH|done].
  - destruct (skips && _); [by apply IH|done].
Qed.

(** ** What a batch returns *)

(** The documents of a backend that holds still, as the worlds in which it is asked
    ([good]) see it. *)
Context (good : W -> Prop) (doc : K -> res D).
Hypothesis Hgood : forall k w, good w -> good (fetch k w).1.
Hypothesis Hstable : forall k w, good w -> (fetch k w).2 = doc k.

Definition value_of (k : K) (r : Ref) : res Value := match doc k with Err e => Err e | Ok d => extract k d r end.

Lemma single_value k r w : good w -> (single k r w).2 = value_of k r.
Proof using Hstable. intros Hw. unfold single, value_of. pose proof (Hstable k w Hw) as Hk. destruct (fetch k w) as [w' got]. simpl in *. by subst. Qed.

(** The answer so far holds what the refs seen so far come to, and nothing else. *)
Definition answers (seen : list (K * Ref)) (out : gmap string Value) : Prop :=
  (forall k r, (k, r) ∈ seen -> match value_of k r with Ok v => out !! ref_Raw r = Some v | Err e => errors_Is e ErrNotFound = true end) /\
  (forall t v, out !! t = Some v -> exists k r, (k, r) ∈ seen /\ ref_Raw r = t /\ value_of k r = Ok v).

(** Refs with the same text ask for the same thing. *)
Definition told_apart (l : list (K * Ref)) : Prop :=
  forall k r k' r', (k, r) ∈ l -> (k', r') ∈ l -> ref_Raw r = ref_Raw r' -> value_of k r = value_of k' r'.

Lemma answers_add seen out k r : answers seen out -> told_apart (seen ++ [(k, r)]) ->
  match value_of k r with
  | Ok v => answers (seen ++ [(k, r)]) (<[ref_Raw r := v]> out)
  | Err e => errors_Is e ErrNotFound = true -> answers (seen ++ [(k, r)]) out
  end.
Proof.
  intros [H1 H2] Hc. destruct (value_of k r) as [v|e] eqn:Ev.
  - split.
    + intros k' r' [Hin|Hin%list_elem_of_singleton]%elem_of_app.
      * specialize (H1 k' r' Hin). destruct (decide (ref_Raw r' = ref_Raw r)) as [E|E].
        -- rewrite (Hc k' r' k r), Ev, E by set_solver. by rewrite lookup_insert_eq.
        -- by rewrite lookup_insert_ne by done.
      * simplify_eq. rewrite Ev. by rewrite lookup_insert_eq.
    + intros t v'. rewrite lookup_insert_Some. intros [[<- <-]|[_ Ht]].
      * exists k, r. set_solver.
      * destruct (H2 t v' Ht) as (k' & r' & ? & ? & ?). exists k', r'. set_solver.
  - intros He. split.
    + intros k' r' [Hin|Hin%list_elem_of_singleton]%elem_of_app; [by apply H1|]. simplify_eq. by rewrite Ev.
    + intros t v' Ht. destruct (H2 t v' Ht) as (k' & r' & ? & ? & ?). exists k', r'. set_solver.
Qed.

Lemma fill_answers k d refs seen out out' : doc k = Ok d -> answers seen out -> told_apart (seen ++ map (pair k) refs) ->
  fill k d refs out = Ok out' -> answers (seen ++ map (pair k) refs) out'.
Proof.
  intros Hd. revert seen out. induction refs as [|r refs IH]; intros seen out Ha Hc; simpl.
  { intros [= <-]. by rewrite app_nil_r. }
  assert (Ev : value_of k r = extract k d r) by (unfold value_of; by rewrite Hd).
  simpl in Hc. rewrite cons_middle, app_assoc in Hc |- *.
  pose proof (answers_add seen out k r Ha) as Hadd. rewrite Ev in Hadd.
  assert (Hc1 : told_apart (seen ++ [(k, r)])) by (intros ????; intros; apply Hc; set_solver).
  destruct (extract k d r) as [v|e].
  - apply IH; [by apply Hadd|done].
  - destruct (errors_Is e ErrNotFound); [|done]. apply IH; [by apply Hadd|done].
Qed.

Lemma missing_answers k e refs seen out : doc k = Err e -> errors_Is e ErrNotFound = true -> answers seen out ->
  answers (seen ++ map (pair k) refs) out.
Proof.
  intros Hd He [H1 H2]. assert (Hv : forall r, value_of k r = Err e) by (intros r; unfold value_of; by rewrite Hd). split.
  - intros k' r' [Hin|Hin]%elem_of_app; [by apply H1|]. apply list_elem_of_fmap in Hin as (r & [= -> ->] & _). by rewrite Hv.
  - intros t v Ht. destruct (H2 t v Ht) as (k' & r' & ? & ? & ?). exists k', r'. set_solver.
Qed.

Definition members (gs : list (K * list Ref)) : list (K * Ref) := flat_map (fun g => map (pair g.1) g.2) gs.

Lemma batch_answers gs seen out w : good w -> answers seen out -> told_apart (seen ++ members gs) ->
  match (batch_groups gs out w).2 with Ok out' => answers (seen ++ members gs) out' | Err _ => True end.
Proof using Hgood Hstable.
  revert seen out w. induction gs as [|[k refs] gs IH]; intros seen out w Hw Ha Hc; simpl.
  { by rewrite app_nil_r. }
  cbn [members flat_map fst snd] in Hc |- *. fold (members gs) in *. rewrite app_assoc in Hc |- *.
  assert (Hc1 : told_apart (seen ++ map (pair k) refs)) by (intros ????; intros; apply Hc; set_solver).
  pose proof (Hstable k w Hw) as Hk. pose proof (Hgood k w Hw) as Hw1. destruct (fetch k w) as [w1 got]. simpl in Hk, Hw1. subst got.
  destruct (doc k) as [d|e] eqn:Ed.
  - destruct (fill k d refs out) as [out1|] eqn:Ef; [|done]. apply IH; [done| |done]. by eapply fill_answers.
  - destruct (skips && errors_Is e ErrNotFound) eqn:Es; [|done]. apply andb_true_iff in Es as [_ Es]. apply IH; [done| |done]. by eapply missing_answers.
Qed.

(** A batch agrees with its refs one by one: over backends that hold still, when it
    succeeds its answer has under the text of each ref exactly what resolving that ref
    alone returns, leaves out those that resolve to not-found, and holds nothing else -
    in whatever order its documents are fetched. *)
Lemma document_batch_is_pointwise gs w : good w -> told_apart (members gs) ->
  match (batch_groups gs ∅ w).2 with
  | Err _ => True
  | Ok out =>
      (forall k r, (k, r) ∈ members gs -> forall w', good w' ->
         match (single k r w').2 with Ok v => out !! ref_Raw r = Some v | Err e => errors_Is e ErrNotFound = true /\ out !! ref_Raw r = None end) /\
      (forall t, is_Some (out !! t) -> exists k r, (k, r) ∈ members gs /\ ref_Raw r = t)
  end.
Proof using Hgood Hstable.
  intros Hw Hc. pose proof (batch_answers gs [] ∅ w Hw) as Hb. destruct (batch_groups gs ∅ w).2 as [out|]; [|done].
  destruct (Hb ltac:(split; [set_solver|intros t v; by rewrite lookup_empty]) Hc) as [H1 H2]. split.
  - intros k r Hin w' Hw'. rewrite single_value by done. specialize (H1 k r Hin). destruct (value_of k r) as [v|e] eqn:Ev; [done|]. split; [done|].
    destruct (out !! ref_Raw r) as [v|] eqn:Eo; [|done]. destruct (H2 _ _ Eo) as (k' & r' & Hin' & Er & Ev').
    rewrite (Hc k r k' r') in Ev by done. congruence.
  - intros t [v Ht]. destruct (H2 t v Ht) as (k & r & ? & ? & _). by exists k, r.
Qed.

(** And it fails only where one of its refs fails, with that failure. *)
Lemma batch_fails_as_one gs w e : good w -> (batch_groups gs ∅ w).2 = Err e ->
  (forall k refs, (k, refs) ∈ gs -> refs <> []) ->
  exists k r, (k, r) ∈ members gs /\ value_of k r = Err e.
Proof using Hgood Hstable.
  generalize (∅ : gmap string Value) as out. revert w. induction gs as [|[k refs] gs IH]; intros w out Hw; simpl; [done|].
  pose proof (Hstable k w Hw) as Hk. pose proof (Hgood k w Hw) as Hw1. destruct (fetch k w) as [w1 got]. simpl in Hk, Hw1. subst got. intros Hb Hne.
  cbn [members flat_map fst snd]. fold (members gs).
  assert (Hrest : forall out, (batch_groups gs out w1).2 = Err e -> exists k0 r, (k0, r) ∈ (map (pair k) refs ++ members gs)%list /\ value_of k0 r = Err e).
  { intros out1 H. destruct (IH w1 out1 Hw1 H) as (k' & r' & Hin & Hv); [intros; eapply Hne; by right|]. exists k', r'. set_solver. }
  destruct (doc k) as [d|e'] eqn:Ed.
  - destruct (fill k d refs out) as [out1|e1] eqn:Ef; [by eapply Hrest|]. simpl in Hb. injection Hb as ->.
    clear -Ef Ed. assert (H : exists r, r ∈ refs /\ extract k d r = Err e).
    { revert out Ef. induction refs as [|r refs IH]; intros out; simpl; [done|]. destruct (extract k d r) as [v|e2] eqn:Ee.
      - intros H. destruct (IH _ H) as (r' & ? & ?). exists r'. set_solver.
      - destruct (errors_Is e2 ErrNotFound); [|intros [= ->]; exists r; set_solver].
        intros H. destruct (IH _ H) as (r' & ? & ?). exists r'. set_solver. }
    destruct H as (r & Hr & He). exists k, r. split; [|unfold value_of; by rewrite Ed]. apply elem_of_app. left. by apply list_elem_of_fmap_2.
  - destruct (skips && errors_Is e' ErrNotFound); [by eapply Hrest|]. simpl in Hb. injection Hb as ->.
    destruct refs as [|r refs]; [by destruct (Hne k [] ltac:(by left))|]. exists k, r. split; [by left|]. unfold value_of. by rewrite Ed.
Qed.
End grouped.

(** A ref added to the group of its document, groups in the order they were first seen. *)
Fixpoint add_member {K} `{EqDecision K} (k : K) (r : Ref) (gs : list (K * list Ref)) : list (K * list Ref) :=
  match gs with
  | [] => [(k, [r])]
  | (k', rs) :: gs => if bool_decide (k' = k) then (k', (rs ++ [r])%list) :: gs else (k', rs) :: add_member k r gs
  end.

(** The first loop of a batch: every ref is grouped, or the batch fails. *)
Fixpoint group_refs {K} `{EqDecision K} (group : Ref -> res K) (refs : list Ref) (gs : list (K * list Ref)) : res (list (K * list Ref)) :=
  match refs with
  | [] => Ok gs
  | r :: refs => match group r with Err e => Err e | Ok k => group_refs group refs (add_member k r gs) end
  end.

Lemma add_member_members {K} `{EqDecision K} (k : K) r gs : members (add_member k r gs) ≡ₚ members gs ++ [(k, r)].
Proof.
  induction gs as [|[k' rs] gs IH]; simpl; [done|]. case_bool_decide as E.
  - subst. cbn [members flat_map fst snd]. fold (members gs). rewrite map_app. simpl. rewrite <- !app_assoc. f_equiv. by rewrite Permutation_app_comm.
  - cbn [members flat_map fst snd]. fold (members gs) (members (add_member k r gs)). by rewrite IH, app_assoc.
Qed.

Lemma group_refs_members {K} `{EqDecision K} (group : Ref -> res K) refs gs gs' : group_refs group refs gs = Ok gs' ->
  exists ks, Forall2 (fun r k => group r = Ok k) refs ks /\ members gs' ≡ₚ members gs ++ zip ks refs.
Proof.
  revert gs. induction refs as [|r refs IH]; intros gs; simpl.
  { intros [= <-]. exists []. split; [constructor|by rewrite app_nil_r]. }
  destruct (group r) as [k|] eqn:Ek; [|done]. intros H1. destruct (IH _ H1) as (ks & Hks & Hp). exists (k :: ks). split; [by constructor|].
  rewrite Hp, add_member_members. simpl. by rewrite <- app_assoc.
Qed.

Section grouping.
Context {W K D : Type} `{EqDecision K}.
Context (fetch : K -> W -> W * res D) (extract : K -> D -> Ref -> res Value) (skips : bool).
Context (good : W -> Prop) (doc : K -> res D).
Hypothesis Hgood : forall k w, good w -> good (fetch k w).1.
Hypothesis Hstable : forall k w, good w -> (fetch k w).2 = doc k.

(** The refs a grouping holds are the refs of the batch, each in its group. *)
Lemma grouped_refs (group : Ref -> res K) refs gs : group_refs group refs [] = Ok gs ->
  forall k r, (k, r) ∈ members gs <-> r ∈ refs /\ group r = Ok k.
Proof.
  intros Hg. destruct (group_refs_members _ _ _ _ Hg) as (ks & Hks & Hp). simpl in Hp. intros k r. rewrite Hp. clear -Hks.
  induction Hks as [|r0 k0 refs ks H0 Hks IH]; simpl; [split; [by intros ?%elem_of_nil|intros [?%elem_of_nil _]; done]|].
  rewrite !elem_of_cons, IH. split; [intros [[= -> ->]|?]; naive_solver|]. intros [[->|?] ?]; [left; congruence|by right].
Qed.

(** A batch by document agrees with its refs one by one, whatever the order of its
    groups: Go leaves the order of a map open. *)
Lemma grouped_is_pointwise (group : Ref -> res K) refs gs gs' w : good w ->
  group_refs group refs [] = Ok gs -> gs' ≡ₚ gs ->
  (forall r r' k k', r ∈ refs -> r' ∈ refs -> ref_Raw r = ref_Raw r' -> group r = Ok k -> group r' = Ok k' ->
     value_of extract doc k r = value_of extract doc k' r') ->
  match (batch_groups fetch extract skips gs' ∅ w).2 with
  | Err _ => True
  | Ok out =>
      forall r k w', r ∈ refs -> group r = Ok k -> good w' ->
      match (single fetch extract k r w').2 with Ok v => out !! ref_Raw r = Some v | Err e => errors_Is e ErrNotFound = true /\ out !! ref_Raw r = None end
  end.
Proof using Hgood Hstable.
  intros Hw Hg Hp Hraw. pose proof (grouped_refs _ _ _ Hg) as Hin.
  assert (Hin' : forall k r, (k, r) ∈ members gs' <-> r ∈ refs /\ group r = Ok k).
  { intros k r. rewrite <- Hin. unfold members. by rewrite Hp. }
  pose proof (document_batch_is_pointwise fetch extract skips good doc Hgood Hstable gs' w Hw) as Hb.
  destruct (batch_groups fetch extract skips gs' ∅ w).2 as [out|]; [|done]. intros r k w' Hr Hk Hw'.
  apply Hb; [|by apply Hin'|done]. intros k1 r1 k2 r2 [R1 K1]%Hin' [R2 K2]%Hin' He. eauto.
Qed.
End grouping.

Lemma group_refs_all {K} `{EqDecision K} (group : Ref -> res K) refs gs r : group_refs group refs [] = Ok gs -> r ∈ refs ->
  exists k, group r = Ok k.
Proof.
  intros Eg Hr. destruct (group_refs_members _ _ _ _ Eg) as (ks & Hks & _). apply list_elem_of_lookup in Hr as [i Hi].
  destruct (Forall2_lookup_l _ _ _ _ _ Hks Hi) as (k & _ & Hk). by exists k.
Qed.

(** * Heroku *)

Module Heroku.
Definition defaultBaseURL : string := "https://api.heroku.com".
Definition appsPath : string := "/apps/".
Definition configVarsSuffix : string := "/config-vars".
Definition acceptVersion : string := "application/vnd.heroku+json; version=3".
Definition userAgent : string := "mamori-heroku".

(** [type Provider struct]. *)
Record Provider (W : Type) := MkProvider {
  kp_apiKey : option string;
  kp_app : string;
  kp_baseURL : string;
  kp_allowInsecure : bool;
  kp_httpClient : option (http_client W);
  kp_client : option (core_Client W);
  kp_closed : bool;
}.
Arguments MkProvider {W}.
Arguments kp_apiKey {W}.
Arguments kp_app {W}.
Arguments kp_baseURL {W}.
Arguments kp_allowInsecure {W}.
Arguments kp_httpClient {W}.
Arguments kp_client {W}.
Arguments kp_closed {W}.

(** [type target struct], and the environment the provider reads. *)
Record target := MkTarget { tg_app : string; tg_name : string }.
Record environment := MkEnvironment { ke_key : string; ke_app : string; ke_appName : string }.

(** [type Option func( *Provider)]. *)
Inductive Option_ (W : Type) :=
  | WithAPIKey (token : string) | WithApp (app : string) | WithBaseURL (u : string) | WithAllowInsecure
  | WithHTTPClient (c : option (http_client W)).
Arguments WithAPIKey {W}.
Arguments WithApp {W}.
Arguments WithBaseURL {W}.
Arguments WithAllowInsecure {W}.
Arguments WithHTTPClient {W}.

Definition invalid (msg : string) : error := EWrap ("mamori/heroku: " ++ msg) [ESentinel ErrInvalid].

Section heroku.
Context {W : Type} `{J : JSON}.
Context (url_Parse : string -> option URL) (url_Scheme : string -> option string) (default_client : sent -> W -> W * res received).
Context (request_ok : sent -> bool).
(** [json.Unmarshal] into [configVars], nil for a null document, and into the id of an
    error. *)
Context (Unmarshal_vars : string -> option (option (gmap string (option string)))) (Unmarshal_id : string -> option string).
Context (env : environment).
Implicit Types p : Provider W.

Definition apply_option p (o : Option_ W) : Provider W :=
  let '(MkProvider key app base ins hc cl cd) := p in
  match o with
  | WithAPIKey x => if bool_decide (x = "") then p else MkProvider (Some x) app base ins hc cl cd
  | WithApp x => MkProvider key x base ins hc cl cd
  | WithBaseURL u => if bool_decide (u = "") then p else MkProvider key app (TrimRightSlash u) ins hc cl cd
  | WithAllowInsecure => MkProvider key app base true hc cl cd
  | WithHTTPClient (Some c) => MkProvider key app base ins (Some c) cl cd
  | WithHTTPClient None => p
  end.

(** [func New(opts ...Option) *Provider]. *)
Definition New (opts : list (Option_ W)) : Provider W := foldl apply_option (MkProvider None "" defaultBaseURL false None None false) opts.

(** [func (p *Provider) targetFor(ref)]. *)
Definition targetFor p (ref : Ref) : res target :=
  let path := TrimPrefix (ref_Path ref) "/" in
  if bool_decide (path = "") then Err (invalid "ref requires a config var name")
  else
    match (match Split path "/" with [name] => Some ("", name) | [app; name] => Some (app, name) | _ => None end) with
    | None => Err (invalid "ref has too many path segments")
    | Some (app, name) =>
        if bool_decide (name = "") then Err (invalid "ref requires a config var name after the app")
        else
          let app := first_text [app; kp_app p; ke_app env; ke_appName env] in
          if bool_decide (app = "") then Err (invalid "ref names no app") else Ok (MkTarget app name)
    end.

(** [func errorID(_ int, body []byte) string]. *)
Definition errorID (_ : Z) (body : string) : string := default "" (Unmarshal_id body).

Definition set_client p (c : core_Client W) : Provider W :=
  MkProvider (kp_apiKey p) (kp_app p) (kp_baseURL p) (kp_allowInsecure p) (kp_httpClient p) (Some c) (kp_closed p).

(** [func (p *Provider) clientFor() ( *httpcore.Client, error)]. *)
Definition build_client p : res (core_Client W) :=
  let base := default_to defaultBaseURL (kp_baseURL p) in
  match check_scheme url_Scheme "mamori/heroku: base URL" base (kp_allowInsecure p) with
  | Some err => Err err
  | None =>
      match (match kp_apiKey p with Some k => Some k | None => if bool_decide (ke_key env = "") then None else Some (ke_key env) end) with
      | None => Err (invalid "no API token")
      | Some token =>
          res_wrap (fun e => EWrap "mamori/heroku: building the API client" [e])
            (core_New url_Parse default_client
               (MkCoreConfig base (hc_Do <$> kp_httpClient p) (Some (Bearer token)) 0 userAgent (Some errorID)))
      end
  end.
Definition clientFor p : Provider W * res (core_Client W) :=
  if kp_closed p then (p, Err (EWrap "mamori/heroku: provider is closed" [ESentinel ErrUnavailable]))
  else
    match kp_client p with
    | Some c => (p, Ok c)
    | None => match build_client p with Err err => (p, Err err) | Ok c => (set_client p c, Ok c) end
    end.

(** [func (p *Provider) fetch(ctx, app) (configVars, error)], with the provider as a part
    of the world it changes. *)
Definition fetch (app : string) (pw : Provider W * W) : Provider W * W * res (gmap string (option string)) :=
  let '(p, w) := pw in
  match clientFor p with
  | (p, Err err) => (p, w, Err err)
  | (p, Ok client) =>
      let '(w, got) := core_Do request_ok client
        (MkCoreRequest "" (appsPath ++ PathEscape app ++ configVarsSuffix) ∅ [("Accept", acceptVersion)] "" "" "") w in
      (p, w, match got with
             | Err err => Err (EWrap "mamori/heroku: reading config vars" [err])
             | Ok resp =>
                 match Unmarshal_vars (re_Body resp) with
                 | None => Err (invalid "config vars are not a JSON object")
                 | Some None => Err (invalid "config vars decoded to null")
                 | Some (Some doc) => Ok doc
                 end
             end)
  end.

(** [func valueFor(doc configVars, t target, ref)]. *)
Definition valueFor (doc : gmap string (option string)) (t : target) (ref : Ref) : res Value :=
  match doc !! tg_name t with
  | Some (Some value) =>
      match SelectKey value (ref_Key ref) with
      | Err err => Err (EWrap "mamori/heroku: config var" [err])
      | Ok body => Ok (MkValue body (VersionHash value) true 0 {["app" := tg_app t]})
      end
  | _ => Err (EWrap "mamori/heroku: app has no config var" [ESentinel ErrNotFound])
  end.

(** The value of a ref in the document of its app, its target as its provider has it. *)
Definition extract p (app : string) (doc : gmap string (option string)) (ref : Ref) : res Value :=
  match targetFor p ref with Err err => Err err | Ok t => valueFor doc t ref end.

(** [func (p *Provider) Resolve(ctx, ref)]. *)
Definition Resolve (ref : Ref) (pw : Provider W * W) : Provider W * W * res Value :=
  match targetFor pw.1 ref with
  | Err err => (pw, Err err)
  | Ok t => single fetch (extract pw.1) (tg_app t) ref pw
  end.

(** [func (p *Provider) ResolveBatch(ctx, refs)]. *)
Definition ResolveBatch (refs : list Ref) (pw : Provider W * W) : Provider W * W * res (gmap string Value) :=
  match group_refs (fun r => tg_app <$> targetFor pw.1 r) refs [] with
  | Err err => (pw, Err err)
  | Ok groups => batch_groups fetch (extract pw.1) true groups ∅ pw
  end.

(** [func (p *Provider) Close() error]. *)
Definition Close p : Provider W :=
  MkProvider (kp_apiKey p) (kp_app p) (kp_baseURL p) (kp_allowInsecure p) (kp_httpClient p) (kp_client p) true.

#[export, program] Instance provider : HttpProvider W (Provider W) :=
  {| hp_resolve ref p w := let '(p, w, got) := Resolve ref (p, w) in (w, got, p); hp_close := Close; hp_closed := kp_closed |}.
Next Obligation. done. Qed.
Next Obligation.
  intros p ref w Hc. unfold Resolve. cbn [fst]. destruct (targetFor p ref) as [t|]; [|done]. unfold single, fetch, clientFor. by rewrite Hc.
Qed.

(** ** Batches *)

(** The provider of a batch, before and after it has its client. *)
Definition same_provider p (pw : Provider W * W) : Prop := pw.1 = p \/ pw.1 = (clientFor p).1.

Lemma clientFor_idempotent p : clientFor (clientFor p).1 = clientFor p.
Proof.
  unfold clientFor. destruct (kp_closed p) eqn:Hc; [by cbn; rewrite Hc|]. destruct (kp_client p) as [c|] eqn:Hk; [by cbn; rewrite Hc, Hk|].
  destruct (build_client p) as [c|e] eqn:Hb; cbn; [by rewrite Hc|by rewrite Hc, Hk, Hb].
Qed.

Lemma fetch_same p app pw : same_provider p pw -> same_provider p (fetch app pw).1 /\ (fetch app pw).2 = (fetch app (p, pw.2)).2.
Proof.
  destruct pw as [q w]. unfold same_provider. intros Hq. cbn in Hq.
  assert (Hc : clientFor q = clientFor p) by (destruct Hq as [->| ->]; [done|apply clientFor_idempotent]).
  unfold fetch. cbn [snd]. rewrite Hc. destruct (clientFor p) as [p1 [c|e]]; cbn; [|auto].
  destruct (core_Do request_ok c _ w) as [w1 got]. cbn. auto.
Qed.

(** One document of an app answers all of its refs: over a platform whose documents
    hold still, a batch that succeeds says of each ref what a resolve of it says. *)
Theorem heroku_batch_is_pointwise p w refs doc :
  (forall app w', (fetch app (p, w')).2 = doc app) ->
  (forall r r', r ∈ refs -> r' ∈ refs -> ref_Raw r = ref_Raw r' -> r = r') ->
  match (ResolveBatch refs (p, w)).2 with
  | Err _ => True
  | Ok out =>
      forall r w', r ∈ refs ->
      match (Resolve r (p, w')).2 with Ok v => out !! ref_Raw r = Some v | Err e => errors_Is e ErrNotFound = true /\ out !! ref_Raw r = None end
  end.
Proof.
  intros Hst Hraw. unfold ResolveBatch. cbn [fst]. destruct (group_refs _ refs []) as [gs|] eqn:Eg; [|done].
  pose proof (grouped_is_pointwise fetch (extract p) true (same_provider p) doc
    (fun app pw H => proj1 (fetch_same p app pw H)) (fun app pw H => eq_trans (proj2 (fetch_same p app pw H)) (Hst app pw.2))
    _ refs gs gs (p, w) (or_introl eq_refl) Eg (reflexivity gs)) as Hb.
  destruct (batch_groups fetch (extract p) true gs ∅ (p, w)).2 as [out|]; [|done]. intros r w' Hr.
  assert (Ht : exists t, targetFor p r = Ok t).
  { destruct (group_refs_all _ _ _ r Eg Hr) as [k Hk]. destruct (targetFor p r) as [t|]; [by exists t|done]. }
  destruct Ht as [t Ht]. unfold Resolve. cbn [fst]. rewrite Ht. apply Hb; [|done|by rewrite Ht|by left].
  intros r1 r2 k1 k2 H1 H2 He K1 K2. assert (r1 = r2) as <- by auto. congruence.
Qed.
End heroku.
End Heroku.
