(* ===== verification/Stores.v ===== *)
(** Providers of key-value stores that answer batches in bulk (src/providers:
    cloudflare-kv, in chunks of keys; vercel-gc, with the items of a store held under
    its digest). *)

From S2P Require Import Prelude Errors GoStrings Ref Provider Decode GoNumbers Base64 Pointer GoPath Client SSE HttpCore HttpAuth Backends Polled Bulk.
Open Scope string_scope.
Open Scope Z_scope.

(** * Keys in chunks *)

(** The keys of a group, each once, in the order they were first seen. *)
Fixpoint first_seen (seen keys : list string) : list string :=
  match keys with
  | [] => []
  | k :: keys => if bool_decide (k ∈ seen) then first_seen seen keys else k :: first_seen (k :: seen) keys
  end.

(** A list cut into pieces of [n], as a loop that advances by [n] cuts it. *)
Fixpoint chunks_from {A} (fuel n : nat) (l : list A) : list (list A) :=
  match fuel, l with
  | S fuel, _ :: _ => take n l :: chunks_from fuel n (drop n l)
  | _, _ => []
  end.
Definition chunks {A} (n : nat) (l : list A) : list (list A) := chunks_from (length l) n l.

Lemma first_seen_elem seen keys k : k ∈ first_seen seen keys <-> k ∈ keys /\ k ∉ seen.
Proof.
  revert seen. induction keys as [|k' keys IH]; intros seen; simpl; [set_solver|].
  case_bool_decide; rewrite ?elem_of_cons, ?IH; [set_solver|]. destruct (decide (k = k')); set_solver.
Qed.

Lemma chunks_from_concat {A} fuel n (l : list A) : (0 < n)%nat -> (length l <= fuel)%nat -> concat (chunks_from fuel n l) = l.
Proof.
  intros Hn. revert l. induction fuel as [|fuel IH]; intros [|x l] Hl; simpl in Hl |- *; [done|lia|done|].
  rewrite IH; [apply (take_drop n (x :: l))|]. rewrite length_drop. simpl. lia.
Qed.

(** No key is dropped at the ceiling, and no request is over it. *)
Lemma chunks_concat {A} n (l : list A) : (0 < n)%nat -> concat (chunks n l) = l.
Proof. intros Hn. by apply chunks_from_concat. Qed.

Lemma chunks_bounded {A} n (l c : list A) : c ∈ chunks n l -> (length c <= n)%nat.
Proof.
  unfold chunks. generalize (length l) as fuel. intros fuel. revert l. induction fuel as [|fuel IH]; intros [|x l]; simpl; [set_solver..|].
  intros [->|Hc]%elem_of_cons; [rewrite length_take; lia|by eapply IH].
Qed.

(** * Workers KV *)

Module CloudflareKV.
Definition defaultBaseURL : string := "https://api.cloudflare.com/client/v4".
Definition bulkMaxKeys : nat := 100.
Definition errBodyLimit : nat := 4096.
Definition maxBodyBytes : Z := 26214400.

(** [type Provider struct]. *)
Record Provider (W : Type) := MkProvider {
  cf_apiToken : string;
  cf_accountID : string;
  cf_namespaceID : string;
  cf_baseURL : string;
  cf_httpClient : option (http_client W);
  cf_closed : bool;
}.
Arguments MkProvider {W}.
Arguments cf_apiToken {W}.
Arguments cf_accountID {W}.
Arguments cf_namespaceID {W}.
Arguments cf_baseURL {W}.
Arguments cf_httpClient {W}.
Arguments cf_closed {W}.

(** [type settings struct], and the environment the provider reads. *)
Record settings := MkSettings { cs_token : string; cs_account : string; cs_namespace : string }.
Record environment := MkEnvironment { ce_token : string; ce_account : string; ce_namespace : string }.
#[export] Instance settings_eq_dec : EqDecision settings.
Proof. solve_decision. Defined.

(** [type Option func( *Provider)]. *)
Inductive Option_ (W : Type) :=
  | WithAPIToken (token : string) | WithAccountID (id : string) | WithNamespaceID (id : string) | WithBaseURL (u : string)
  | WithHTTPClient (c : option (http_client W)).
Arguments WithAPIToken {W}.
Arguments WithAccountID {W}.
Arguments WithNamespaceID {W}.
Arguments WithBaseURL {W}.
Arguments WithHTTPClient {W}.

(** [type bulkGetResponseBody struct]. *)
Record bulkGetResponseBody := MkBulk { bg_Success : bool; bg_Values : gmap string string; bg_Errors : list string }.

Section cloudflare.
Context {W : Type} `{J : JSON}.
Context (url_Parse : string -> option URL) (default_client : sent -> W -> W * res received) (default_http : http_client W).
Context (request_ok : sent -> bool).
(** [json.Marshal] of the keys of a bulk request, and [json.Unmarshal] of its answer. *)
Context (Marshal_keys : list string -> string) (Unmarshal_bulk : string -> res bulkGetResponseBody).
Context (env : environment).
(** The order in which the namespaces of a batch are ranged over. *)
Context (order : list (settings * list Ref) -> list (settings * list Ref)).
Implicit Types p : Provider W.

Definition apply_option p (o : Option_ W) : Provider W :=
  let '(MkProvider token account ns base hc cd) := p in
  match o with
  | WithAPIToken x => MkProvider x account ns base hc cd
  | WithAccountID x => MkProvider token x ns base hc cd
  | WithNamespaceID x => MkProvider token account x base hc cd
  | WithBaseURL u => if bool_decide (u = "") then p else MkProvider token account ns (TrimRightSlash u) hc cd
  | WithHTTPClient (Some c) => MkProvider token account ns base (Some c) cd
  | WithHTTPClient None => p
  end.

(** [func New(opts ...Option) *Provider]. *)
Definition New (opts : list (Option_ W)) : Provider W := foldl apply_option (MkProvider "" "" "" defaultBaseURL (Some default_http) false) opts.

(** [func keyOf(ref)]: the whole path is the key. *)
Definition keyOf (ref : Ref) : res string :=
  if bool_decide (ref_Path ref = "") then Err (EOpaque "mamori/cloudflare-kv: ref requires a key") else Ok (ref_Path ref).

(** [func (p *Provider) settingsFor(ref)]. *)
Definition settingsFor p (ref : Ref) : res settings :=
  let s := MkSettings (first_text [cf_apiToken p; ce_token env]) (first_text [cf_accountID p; ce_account env])
             (first_text [Ref_Opt ref "namespace"; cf_namespaceID p; ce_namespace env]) in
  if bool_decide (cs_token s = "") then Err (EOpaque "mamori/cloudflare-kv: no API token")
  else if bool_decide (cs_account s = "") then Err (EOpaque "mamori/cloudflare-kv: no account id")
  else if bool_decide (cs_namespace s = "") then Err (EOpaque "mamori/cloudflare-kv: no namespace id")
  else Ok s.

(** [func errorDetail(_ int, body []byte) string]. *)
Definition errorDetail (_ : Z) (body : string) : string := TrimSpace (str_take errBodyLimit body).

(** [func namespacePath(s settings) string]. *)
Definition namespacePath (s : settings) : string :=
  "/accounts/" ++ PathEscape (cs_account s) ++ "/storage/kv/namespaces/" ++ PathEscape (cs_namespace s).

(** [func (p *Provider) clientFor(s settings)]: its hook over the paths of errors is
    left out, the errors of the model carry none. *)
Definition clientFor p (s : settings) : res (core_Client W) :=
  if cf_closed p then Err (EWrap "mamori/cloudflare-kv: provider is closed" [ESentinel ErrUnavailable])
  else
    res_wrap (fun e => EWrap "mamori/cloudflare-kv: building the API client" [e])
      (core_New url_Parse default_client
         (MkCoreConfig (cf_baseURL p) (hc_Do <$> cf_httpClient p) (Some (Bearer (cs_token s))) maxBodyBytes "" (Some errorDetail))).

(** [func (p *Provider) get(ctx, s, key)]. *)
Definition get p (s : settings) (key : string) (w : W) : W * res string :=
  match clientFor p s with
  | Err err => (w, Err err)
  | Ok client =>
      let '(w, got) := core_Do request_ok client (MkCoreRequest "" (namespacePath s ++ "/values/" ++ PathEscape key) ∅ [] "" "" "") w in
      (w, match got with
          | Err err =>
              if errors_Is err ErrNotFound then Err (EWrap "mamori/cloudflare-kv: key not found" [ESentinel ErrNotFound])
              else Err (EWrap "mamori/cloudflare-kv: reading key" [err])
          | Ok resp => Ok (re_Body resp)
          end)
  end.

(** [func (p *Provider) bulkGet(ctx, s, keys)]. *)
Definition bulkGet p (s : settings) (keys : list string) (w : W) : W * res (gmap string string) :=
  match clientFor p s with
  | Err err => (w, Err err)
  | Ok client =>
      let '(w, got) := core_Do request_ok client
        (MkCoreRequest "POST" (namespacePath s ++ "/bulk/get") ∅ [("Content-Type", "application/json")] (Marshal_keys keys) "" "") w in
      (w, match got with
          | Err err =>
              if errors_Is err ErrNotFound then Err (EWrap "mamori/cloudflare-kv: namespace not found" [ESentinel ErrNotFound])
              else Err (EWrap "mamori/cloudflare-kv: bulk get" [err])
          | Ok resp =>
              match Unmarshal_bulk (re_Body resp) with
              | Err err => Err (EWrap "mamori/cloudflare-kv: decoding bulk response" [ESentinel ErrInvalid; err])
              | Ok body =>
                  if negb (bg_Success body) then
                    Err (EWrap ("mamori/cloudflare-kv: " ++ match bg_Errors body with msg :: _ => msg | [] => "bulk get reported failure" end)
                           [ESentinel ErrInvalid])
                  else Ok (bg_Values body)
              end
          end)
  end.

(** [func valueFor(b []byte, ref, namespace string)]. *)
Definition valueFor (b : string) (ref : Ref) (namespace : string) : res Value :=
  match (if bool_decide (ref_Key ref = "") then Ok b else SelectKey b (ref_Key ref)) with
  | Err err => Err err
  | Ok b => Ok (MkValue b (VersionHash b) false 0 {["namespace" := namespace]})
  end.

(** [func (p *Provider) Resolve(ctx, ref)]. *)
Definition Resolve (ref : Ref) p (w : W) : W * res Value :=
  match settingsFor p ref with
  | Err err => (w, Err err)
  | Ok s =>
      match keyOf ref with
      | Err err => (w, Err err)
      | Ok key =>
          let '(w, got) := get p s key w in
          (w, match got with Err err => Err err | Ok b => valueFor b ref (cs_namespace s) end)
      end
  end.

(** The namespace a ref is grouped under. Those of one provider have one token and one
    account, so that grouping by settings is grouping by namespace. *)
Definition group p (ref : Ref) : res settings :=
  match settingsFor p ref with
  | Err err => Err err
  | Ok s => match keyOf ref with Err err => Err err | Ok _ => Ok s end
  end.

(** A namespace group, its keys cut into requests: the refs of a request are those of
    its keys, key by key. *)
Definition keyed (key : string) (refs : list Ref) : list Ref := filter (fun r => ref_Path r = key) refs.
Definition requests (g : settings * list Ref) : list (settings * list string * list Ref) :=
  map (fun chunk => (g.1, chunk, flat_map (fun key => keyed key g.2) chunk)) (chunks bulkMaxKeys (first_seen [] (map ref_Path g.2))).

(** The values of one request, and what one of its refs finds there. *)
Definition fetch p (k : settings * list string) (w : W) : W * res (gmap string string) := bulkGet p k.1 k.2 w.
Definition extract (k : settings * list string) (values : gmap string string) (ref : Ref) : res Value :=
  match values !! ref_Path ref with
  | None => Err (ESentinel ErrNotFound)
  | Some b => valueFor b ref (cs_namespace k.1)
  end.

(** [func (p *Provider) ResolveBatch(ctx, refs)]. *)
Definition ResolveBatch (refs : list Ref) p (w : W) : W * res (gmap string Value) :=
  match group_refs (group p) refs [] with
  | Err err => (w, Err err)
  | Ok groups => batch_groups (fetch p) extract true (flat_map requests (order groups)) ∅ w
  end.

(** [func (p *Provider) Close() error]. *)
Definition Close p : Provider W := MkProvider (cf_apiToken p) (cf_accountID p) (cf_namespaceID p) (cf_baseURL p) (cf_httpClient p) true.

Lemma closed_batch_asks_nothing refs p w : cf_closed p = true -> (ResolveBatch refs p w).1 = w.
Proof.
  intros Hc. unfold ResolveBatch. destruct (group_refs _ _ _) as [gs|]; [|done]. destruct (flat_map requests (order gs)) as [|[k rs] l]; [done|].
  simpl. unfold fetch, bulkGet, clientFor. by rewrite Hc.
Qed.

#[export, program] Instance provider : HttpProvider W (Provider W) :=
  {| hp_resolve ref p w := (Resolve ref p w, p); hp_close := Close; hp_closed := cf_closed |}.
Next Obligation. done. Qed.
Next Obligation.
  intros p ref w Hc. simpl. unfold Resolve, get, clientFor. rewrite Hc. destruct (settingsFor p ref); [|done]. by destruct (keyOf ref).
Qed.

(** ** Batches *)

Lemma requests_members g s chunk r : (s, chunk, r) ∈ members (requests g) ->
  s = g.1 /\ r ∈ g.2 /\ ref_Path r ∈ chunk /\ chunk ∈ chunks bulkMaxKeys (first_seen [] (map ref_Path g.2)).
Proof.
  unfold members, requests. intros H. apply list_elem_of_In in H. apply in_flat_map in H as (x & Hx & H).
  apply in_map_iff in Hx as (c & <- & Hc). cbn in H. apply in_map_iff in H as (r' & [= <- <- <-] & Hr).
  apply in_flat_map in Hr as (key & Hkey & Hr). apply list_elem_of_In in Hr. unfold keyed in Hr. apply list_elem_of_filter in Hr as [<- Hr].
  split_and!; [done|done|by apply list_elem_of_In|by apply list_elem_of_In].
Qed.

(** Every ref of a group is in a request: none is lost at the ceiling. *)
Lemma requests_complete g r : r ∈ g.2 -> exists chunk, (g.1, chunk, r) ∈ members (requests g) /\ ref_Path r ∈ chunk.
Proof.
  intros Hr. assert (Hk : ref_Path r ∈ concat (chunks bulkMaxKeys (first_seen [] (map ref_Path g.2)))).
  { rewrite chunks_concat by (unfold bulkMaxKeys; lia). apply first_seen_elem. split; [by apply list_elem_of_fmap_2|set_solver]. }
  apply list_elem_of_In, in_concat in Hk as (chunk & Hc & Hk). exists chunk. split; [|by apply list_elem_of_In].
  apply list_elem_of_In. unfold members, requests. apply in_flat_map. exists (g.1, chunk, flat_map (fun key => keyed key g.2) chunk).
  split; [by apply (in_map (fun chunk => (g.1, chunk, flat_map (fun key => keyed key g.2) chunk)))|]. cbn. apply in_map, in_flat_map.
  exists (ref_Path r). split; [done|]. apply list_elem_of_In. unfold keyed. by apply list_elem_of_filter.
Qed.

Lemma request_of gs k r : (k, r) ∈ members (flat_map requests gs) ->
  (k.1, r) ∈ members gs /\ ref_Path r ∈ k.2.
Proof.
  destruct k as [s chunk]. intros H. apply list_elem_of_In in H. unfold members in H. apply in_flat_map in H as (q & Hq & H).
  apply in_flat_map in Hq as (g & Hg & Hq).
  destruct (requests_members g s chunk r) as (-> & Hr & Hk & _). { apply list_elem_of_In, in_flat_map. by exists q. }
  split; [|done]. apply list_elem_of_In, in_flat_map. exists g. split; [done|]. by apply in_map, list_elem_of_In.
Qed.

Lemma requested gs s r : (s, r) ∈ members gs -> exists chunk, (s, chunk, r) ∈ members (flat_map requests gs).
Proof.
  intros H. apply list_elem_of_In in H. unfold members in H. apply in_flat_map in H as (g & Hg & H). apply in_map_iff in H as (r' & [= <- ->] & Hr).
  destruct (requests_complete g r) as (chunk & Hc & _); [by apply list_elem_of_In|]. exists chunk.
  apply list_elem_of_In in Hc. apply list_elem_of_In. unfold members in *. apply in_flat_map in Hc as (q & Hq & Hc). apply in_flat_map.
  exists q. split; [|done]. apply in_flat_map. by exists g.
Qed.

(** A namespace that is there is a table, and one that is not is an absence, for both
    endpoints: the bulk one answers with the keys it has of those it is asked for. *)
Context (table : settings -> option (gmap string string)).
Definition bulk_answer (s : settings) (keys : list string) : res (gmap string string) :=
  match table s with
  | None => Err (EWrap "mamori/cloudflare-kv: namespace not found" [ESentinel ErrNotFound])
  | Some t => Ok (filter (fun kv => kv.1 ∈ keys) t)
  end.
Definition get_answer (s : settings) (key : string) : res string :=
  match table s ≫= lookup key with
  | None => Err (EWrap "mamori/cloudflare-kv: key not found" [ESentinel ErrNotFound])
  | Some b => Ok b
  end.
Definition table_value (s : settings) (r : Ref) : res Value :=
  match get_answer s (ref_Path r) with Err e => Err e | Ok b => valueFor b r (cs_namespace s) end.

Lemma value_of_request s chunk r : ref_Path r ∈ chunk ->
  match value_of extract (fun k => bulk_answer k.1 k.2) (s, chunk) r, table_value s r with
  | Ok v, Ok v' => v = v'
  | Err e, Err e' => e = e' \/ errors_Is e ErrNotFound = true /\ errors_Is e' ErrNotFound = true
  | _, _ => False
  end.
Proof.
  intros Hk. unfold value_of, table_value, get_answer, bulk_answer, extract. cbn [fst snd]. destruct (table s) as [t|]; simpl; [|auto].
  destruct (t !! ref_Path r) as [b|] eqn:Et.
  - rewrite (proj2 (map_lookup_filter_Some _ _ _ _)) by done. destruct (valueFor b r _); auto.
  - rewrite (proj2 (map_lookup_filter_None _ _ _)) by auto. auto.
Qed.

Lemma table_absence s r r' chunk chunk' : ref_Path r ∈ chunk -> ref_Path r' ∈ chunk' -> r = r' ->
  value_of extract (fun k => bulk_answer k.1 k.2) (s, chunk) r = value_of extract (fun k => bulk_answer k.1 k.2) (s, chunk') r'.
Proof.
  intros H1 H2 <-. unfold value_of, bulk_answer, extract. cbn [fst snd]. destruct (table s) as [t|]; [|done].
  destruct (t !! ref_Path r) as [b|] eqn:Et.
  - by rewrite !(proj2 (map_lookup_filter_Some _ _ _ _)) by done.
  - by rewrite !(proj2 (map_lookup_filter_None _ _ _)) by auto.
Qed.

(** A batch in chunks says of each ref what its own read says, however many keys a
    namespace has: none is dropped at the ceiling of a request, absent keys and absent
    namespaces are left to their defaults, and one of them takes no other ref with it. *)
Theorem cloudflare_batch_is_pointwise p w refs : (forall gs, order gs ≡ₚ gs) ->
  (forall s keys w', (bulkGet p s keys w').2 = bulk_answer s keys) -> (forall s key w', (get p s key w').2 = get_answer s key) ->
  (forall r r', r ∈ refs -> r' ∈ refs -> ref_Raw r = ref_Raw r' -> r = r') ->
  match (ResolveBatch refs p w).2 with
  | Err _ => True
  | Ok out =>
      forall r w', r ∈ refs ->
      match (Resolve r p w').2 with Ok v => out !! ref_Raw r = Some v | Err e => errors_Is e ErrNotFound = true /\ out !! ref_Raw r = None end
  end.
Proof.
  intros Horder Hbulk Hget Hraw. unfold ResolveBatch. destruct (group_refs _ refs []) as [gs|] eqn:Eg; [|done].
  pose proof (grouped_refs _ _ _ Eg) as Hin.
  assert (Hin' : forall s r, (s, r) ∈ members (order gs) <-> r ∈ refs /\ group p r = Ok s) by (intros; rewrite <- Hin; unfold members; by rewrite Horder).
  pose proof (document_batch_is_pointwise (fetch p) extract true (fun _ => True) (fun k => bulk_answer k.1 k.2) ltac:(done)
    (fun k w' _ => Hbulk k.1 k.2 w') (flat_map requests (order gs)) w I) as Hb.
  destruct (batch_groups _ _ _ _ _ w).2 as [out|]; [|done]. destruct Hb as [Hb _].
  { intros [s c] r [s' c'] r' [M P]%request_of [M' P']%request_of He. apply Hin' in M as [R G], M' as [R' G']. cbn [fst snd] in *.
    assert (r = r') as <- by auto. assert (s = s') as <- by congruence. by apply table_absence. }
  intros r w' Hr. destruct (group_refs_all _ _ _ r Eg Hr) as [s Hg].
  destruct (requested (order gs) s r) as [chunk Hm]; [by apply Hin'|].
  pose proof (proj2 (request_of _ _ _ Hm)) as Hk. specialize (Hb (s, chunk) r Hm w I).
  rewrite (single_value _ _ (fun _ => True) _ (fun k w' _ => Hbulk k.1 k.2 w') _ _ _ I) in Hb.
  pose proof (value_of_request s chunk r Hk) as Hv.
  assert (Hres : (Resolve r p w').2 = table_value s r).
  { unfold group in Hg. unfold Resolve, table_value. destruct (settingsFor p r) as [s1|]; [|done]. unfold keyOf in *.
    case_bool_decide; [done|]. injection Hg as ->. pose proof (Hget s (ref_Path r) w') as H1. destruct (get p s (ref_Path r) w') as [w2 got].
    cbn in H1 |- *. by rewrite H1. }
  rewrite Hres. destruct (value_of _ _ _ r) as [v|e], (table_value s r) as [v'|e']; try done; [by subst|]. destruct Hb as [He Ho], Hv as [->|[_ Hv]]; auto.
Qed.
End cloudflare.
End CloudflareKV.

(** * Global Config *)

Module VercelGC.
Definition defaultHost : string := "https://global-config.vercel.com".
Definition errBodyLimit : nat := 4096.

(** [type connection struct], and [type snapshot struct]: the items of a store, under
    the digest that was read before them. *)
Record connection_ := MkConnection { cn_host : string; cn_storeID : string; cn_token : string }.
Record snapshot := MkSnapshot { sn_digest : string; sn_items : gmap string string }.

(** [type Provider struct]. *)
Record Provider (W : Type) := MkProvider {
  vp_connStr : string;
  vp_storeID : string;
  vp_token : string;
  vp_baseURL : string;
  vp_httpClient : option (http_client W);
  vp_snapshots : gmap string snapshot;
  vp_closed : bool;
}.
Arguments MkProvider {W}.
Arguments vp_connStr {W}.
Arguments vp_storeID {W}.
Arguments vp_token {W}.
Arguments vp_baseURL {W}.
Arguments vp_httpClient {W}.
Arguments vp_snapshots {W}.
Arguments vp_closed {W}.

(** [type Option func( *Provider)]. *)
Inductive Option_ (W : Type) :=
  | WithConnectionString (s : string) | WithStoreID (id : string) | WithToken (t : string) | WithBaseURL (u : string)
  | WithHTTPClient (c : option (http_client W)).
Arguments WithConnectionString {W}.
Arguments WithStoreID {W}.
Arguments WithToken {W}.
Arguments WithBaseURL {W}.
Arguments WithHTTPClient {W}.

(** What [url.Parse] says of a connection string. *)
Record conn_URL := MkConnURL { cu_Scheme : string; cu_Host : string; cu_Path : string; cu_token : string }.

Section vercel.
Context {W : Type} `{J : JSON}.
Context (url_Parse : string -> option URL) (default_client : sent -> W -> W * res received) (default_http : http_client W).
Context (request_ok : sent -> bool) (parse_conn : string -> res conn_URL).
(** [json.Unmarshal] into a text, empty for null, and into a digest and items, and
    [json.Compact]. *)
Context (Unmarshal_text Unmarshal_digest : string -> option string) (Unmarshal_items : string -> res (gmap string string)).
Context (Compact : string -> res string).
(** The environment: GLOBAL_CONFIG and EDGE_CONFIG. *)
Context (GLOBAL_CONFIG EDGE_CONFIG : string).
(** The order in which the stores of a batch are ranged over. *)
Context (order : list (string * list Ref) -> list (string * list Ref)).
Implicit Types p : Provider W.

Definition apply_option p (o : Option_ W) : Provider W :=
  let '(MkProvider conn store token base hc snaps cd) := p in
  match o with
  | WithConnectionString x => MkProvider x store token base hc snaps cd
  | WithStoreID x => MkProvider conn x token base hc snaps cd
  | WithToken x => MkProvider conn store x base hc snaps cd
  | WithBaseURL u => if bool_decide (u = "") then p else MkProvider conn store token (TrimRightSlash u) hc snaps cd
  | WithHTTPClient (Some c) => MkProvider conn store token base (Some c) snaps cd
  | WithHTTPClient None => p
  end.

(** [func New(opts ...Option) *Provider]. *)
Definition New (opts : list (Option_ W)) : Provider W := foldl apply_option (MkProvider "" "" "" "" (Some default_http) ∅ false) opts.

(** [func parseConnectionString(s string)]. *)
Definition parseConnectionString (s : string) : res connection_ :=
  if bool_decide (TrimSpace s = "") then Err (EOpaque "mamori/vercel-gc: empty connection string")
  else
    match parse_conn s with
    | Err err => Err (EWrap "mamori/vercel-gc: parsing connection string" [err])
    | Ok u =>
        let storeID := TrimRightSlash (drop_slashes (cu_Path u)) in
        if bool_decide (storeID = "") || has_byte "/" storeID then Err (EOpaque "mamori/vercel-gc: connection string has no store id path segment")
        else if bool_decide (cu_token u = "") then Err (EOpaque "mamori/vercel-gc: connection string has no token query parameter")
        else if bool_decide (cu_Scheme u = "") || bool_decide (cu_Host u = "") then
          Err (EOpaque "mamori/vercel-gc: connection string is not an absolute URL")
        else Ok (MkConnection (cu_Scheme u ++ "://" ++ cu_Host u) storeID (cu_token u))
    end.

(** [func (p *Provider) applyBaseURL(c connection, err error)]. *)
Definition applyBaseURL p (c : res connection_) : res connection_ :=
  match c with
  | Err err => Err err
  | Ok c => Ok (if bool_decide (vp_baseURL p = "") then c else MkConnection (vp_baseURL p) (cn_storeID c) (cn_token c))
  end.

(** [func (p *Provider) connection() (connection, error)]. *)
Definition connection p : res connection_ :=
  if negb (bool_decide (vp_connStr p = "")) then applyBaseURL p (parseConnectionString (vp_connStr p))
  else if negb (bool_decide (vp_storeID p = "")) || negb (bool_decide (vp_token p = "")) then
    applyBaseURL p (Ok (MkConnection defaultHost (vp_storeID p) (vp_token p)))
  else if negb (bool_decide (GLOBAL_CONFIG = "")) then applyBaseURL p (parseConnectionString GLOBAL_CONFIG)
  else if negb (bool_decide (EDGE_CONFIG = "")) then applyBaseURL p (parseConnectionString EDGE_CONFIG)
  else Err (EOpaque "mamori/vercel-gc: no connection configured").

(** [func parsePath(path, defaultStore string)]. *)
Definition parsePath (path defaultStore : string) : res (string * string) :=
  match (match Split (drop_slashes path) "/" with [key] => Some (defaultStore, key) | [store; key] => Some (store, key) | _ => None end) with
  | None => Err (EOpaque "mamori/vercel-gc: a ref takes at most <store-id>/<key>")
  | Some (store, key) =>
      if bool_decide (key = "") then Err (EOpaque "mamori/vercel-gc: path requires a key")
      else if bool_decide (store = "") then Err (EOpaque "mamori/vercel-gc: path names no store and no default store is configured")
      else Ok (store, key)
  end.

(** [func errorDetail(_ int, body []byte) string]. *)
Definition errorDetail (_ : Z) (body : string) : string := TrimSpace (str_take errBodyLimit body).

(** [func (p *Provider) clientFor(c connection)]. *)
Definition clientFor p (c : connection_) : res (core_Client W) :=
  if vp_closed p then Err (EWrap "mamori/vercel-gc: provider is closed" [ESentinel ErrUnavailable])
  else
    res_wrap (fun e => EWrap "mamori/vercel-gc: building the API client" [e])
      (core_New url_Parse default_client
         (MkCoreConfig (cn_host c) (hc_Do <$> vp_httpClient p) (Some (Bearer (cn_token c))) 0 "" (Some errorDetail))).

(** [func (p *Provider) get(ctx, c, store, endpoint)]. *)
Definition get p (c : connection_) (store endpoint : string) (w : W) : W * res string :=
  match clientFor p c with
  | Err err => (w, Err err)
  | Ok client =>
      let '(w, got) := core_Do request_ok client
        (MkCoreRequest "" ("/" ++ PathEscape store ++ "/" ++ endpoint) ∅ [("Accept", "application/json")] "" "" "") w in
      (w, match got with
          | Err err =>
              if errors_Is err ErrNotFound then Err (EWrap "mamori/vercel-gc: store not found" [err])
              else Err (EWrap ("mamori/vercel-gc: " ++ endpoint ++ " of store") [err])
          | Ok resp => Ok (re_Body resp)
          end)
  end.

(** [func parseDigest(body []byte) (string, error)]. *)
Definition parseDigest (body : string) : res string :=
  let trimmed := TrimSpace body in
  let refused := EWrap "mamori/vercel-gc: unrecognized digest response" [ESentinel ErrInvalid] in
  if bool_decide (trimmed = "") then Err refused
  else
    match Unmarshal_text trimmed with
    | Some s => if bool_decide (s = "") then Err refused else Ok s
    | None => match Unmarshal_digest trimmed with Some d => if bool_decide (d = "") then Err refused else Ok d | None => Err refused end
    end.

(** [func (p *Provider) fetchDigest(ctx, c, store)] and [fetchItems]. *)
Definition fetchDigest p (c : connection_) (store : string) (w : W) : W * res string :=
  let '(w, got) := get p c store "digest" w in (w, match got with Err err => Err err | Ok body => parseDigest body end).
Definition fetchItems p (c : connection_) (store : string) (w : W) : W * res (gmap string string) :=
  let '(w, got) := get p c store "items" w in
  (w, match got with
      | Err err => Err err
      | Ok body =>
          match Unmarshal_items body with
          | Err err => Err (EWrap "mamori/vercel-gc: decoding items of store" [ESentinel ErrInvalid; err])
          | Ok items => Ok items
          end
      end).

Definition install p (store : string) (s : snapshot) : Provider W :=
  MkProvider (vp_connStr p) (vp_storeID p) (vp_token p) (vp_baseURL p) (vp_httpClient p) (<[store := s]> (vp_snapshots p)) (vp_closed p).

(** [func (p *Provider) snapshotFor(ctx, c, store, digest)]. *)
Definition snapshotFor p (c : connection_) (store digest : string) (w : W) : Provider W * W * res snapshot :=
  let fetched :=
    let '(w, got) := fetchItems p c store w in
    match got with
    | Err err => (p, w, Err err)
    | Ok items => (install p store (MkSnapshot digest items), w, Ok (MkSnapshot digest items))
    end in
  match vp_snapshots p !! store with
  | Some held => if bool_decide (sn_digest held = digest) then (p, w, Ok held) else fetched
  | None => fetched
  end.

(** [func rawToBytes(raw jsonRaw) ([]byte, error)]. *)
Definition rawToBytes (raw : string) : res string :=
  match TrimSpace raw with
  | EmptyString => Err (EWrap "mamori/vercel-gc: empty value" [ESentinel ErrInvalid])
  | String c t =>
      if ascii_eqb c Supabase.dquote then
        match Unmarshal_string (String c t) with
        | None => Err (EWrap "mamori/vercel-gc: decoding string value" [ESentinel ErrInvalid])
        | Some s => Ok s
        end
      else res_wrap (fun e => EWrap "mamori/vercel-gc: compacting value" [ESentinel ErrInvalid; e]) (Compact (String c t))
  end.

(** [func valueFor(raw jsonRaw, ref, storeID, digest string)]. *)
Definition valueFor (raw : string) (ref : Ref) (storeID digest : string) : res Value :=
  match rawToBytes raw with
  | Err err => Err err
  | Ok b =>
      match (if bool_decide (ref_Key ref = "") then Ok b else SelectKey b (ref_Key ref)) with
      | Err err => Err err
      | Ok b => Ok (MkValue b (VersionHash b) false 0 {["store" := storeID; "digest" := digest]})
      end
  end.

(** The snapshot of a store as it is now: its digest, and the items of that digest. *)
Definition fetch (c : connection_) (store : string) (pw : Provider W * W) : Provider W * W * res snapshot :=
  let '(p, w) := pw in
  let '(w, got) := fetchDigest p c store w in
  match got with Err err => (p, w, Err err) | Ok digest => snapshotFor p c store digest w end.

(** What a ref finds in the snapshot of its store. *)
Definition extract (c : connection_) (store : string) (snap : snapshot) (ref : Ref) : res Value :=
  match parsePath (ref_Path ref) (cn_storeID c) with
  | Err err => Err err
  | Ok (_, key) =>
      match sn_items snap !! key with
      | None => Err (EWrap "mamori/vercel-gc: key not in store" [ESentinel ErrNotFound])
      | Some raw => valueFor raw ref store (sn_digest snap)
      end
  end.

(** [func (p *Provider) Resolve(ctx, ref)]. *)
Definition Resolve (ref : Ref) (pw : Provider W * W) : Provider W * W * res Value :=
  match connection pw.1 with
  | Err err => (pw, Err err)
  | Ok conn =>
      match parsePath (ref_Path ref) (cn_storeID conn) with
      | Err err => (pw, Err err)
      | Ok (store, _) => single (fetch conn) (extract conn) store ref pw
      end
  end.

(** [func (p *Provider) ResolveBatch(ctx, refs)]. *)
Definition ResolveBatch (refs : list Ref) (pw : Provider W * W) : Provider W * W * res (gmap string Value) :=
  match refs with
  | [] => (pw, Ok ∅)
  | _ =>
      match connection pw.1 with
      | Err err => (pw, Err err)
      | Ok conn =>
          match group_refs (fun r => fst <$> parsePath (ref_Path r) (cn_storeID conn)) refs [] with
          | Err err => (pw, Err err)
          | Ok groups => batch_groups (fetch conn) (extract conn) false (order groups) ∅ pw
          end
      end
  end.

(** [func (p *Provider) Close() error]. *)
Definition Close p : Provider W :=
  MkProvider (vp_connStr p) (vp_storeID p) (vp_token p) (vp_baseURL p) (vp_httpClient p) (vp_snapshots p) true.

#[export, program] Instance provider : HttpProvider W (Provider W) :=
  {| hp_resolve ref p w := let '(p, w, got) := Resolve ref (p, w) in (w, got, p); hp_close := Close; hp_closed := vp_closed |}.
Next Obligation. done. Qed.
Next Obligation.
  intros p ref w Hc. unfold Resolve. cbn [fst]. destruct (connection p) as [c|]; [|done]. destruct (parsePath _ _) as [[store key]|]; [|done].
  unfold single, fetch, fetchDigest, get, clientFor. by rewrite Hc.
Qed.

(** ** The value of the store *)

(** A store is edited over time: at the [n]th of its versions it has these items and this
    digest, which is replaced on every edit. *)
Context (version : string -> W -> nat) (content : string -> nat -> gmap string string) (digest_at : string -> nat -> string).
Context (conn : connection_) (hc : option (http_client W)).

Definition later (w w' : W) : Prop := forall store, (version store w <= version store w')%nat.
Definition alike p : Prop := connection p = Ok conn /\ vp_httpClient p = hc.

Hypothesis Hedit : forall store n n', digest_at store n = digest_at store n' -> n = n'.
(** Each endpoint answers with what the store has at some moment of the request. *)
Hypothesis Hdigest : forall p store w, alike p -> let '(w', got) := fetchDigest p conn store w in
  later w w' /\ forall d, got = Ok d -> exists n, (version store w <= n <= version store w')%nat /\ d = digest_at store n.
Hypothesis Hitems : forall p store w, alike p -> let '(w', got) := fetchItems p conn store w in
  later w w' /\ forall items, got = Ok items -> exists n, (version store w <= n <= version store w')%nat /\ items = content store n.

(** A provider in use: made, left alone while time passes, asked, and closed. *)
Inductive driven : Provider W * W -> Prop :=
  | driven_new p w : vp_snapshots p = ∅ -> alike p -> driven (p, w)
  | driven_later p w w' : driven (p, w) -> later w w' -> driven (p, w')
  | driven_resolve pw ref : driven pw -> driven (Resolve ref pw).1
  | driven_batch pw refs : driven pw -> driven (ResolveBatch refs pw).1
  | driven_close p w : driven (p, w) -> driven (Close p, w).

(** The items held for a store are those of a version no older than the digest they are
    held under, and no newer than now. *)
Definition fresh (pw : Provider W * W) : Prop :=
  alike pw.1 /\
  forall store s, vp_snapshots pw.1 !! store = Some s ->
  exists nd ni, (nd <= ni <= version store pw.2)%nat /\ s = MkSnapshot (digest_at store nd) (content store ni).

Lemma fresh_later p w w' : fresh (p, w) -> later w w' -> fresh (p, w').
Proof.
  intros [Ha Hf] Hl. split; [done|]. intros store s Hs. destruct (Hf store s Hs) as (nd & ni & Hn & ->). exists nd, ni. split; [|done].
  specialize (Hl store). simpl in *. lia.
Qed.

Lemma fetch_fresh store pw : fresh pw ->
  let '(p', w', got) := fetch conn store pw in
  fresh (p', w') /\ later pw.2 w' /\
  forall snap, got = Ok snap -> exists nd ni, (version store pw.2 <= nd <= ni)%nat /\ (ni <= version store w')%nat /\
    snap = MkSnapshot (digest_at store nd) (content store ni).
Proof.
  destruct pw as [p w]. intros Hf. pose proof Hf as [Ha Hheld]. cbn [fst snd] in *. unfold fetch.
  pose proof (Hdigest p store w Ha) as Hd. destruct (fetchDigest p conn store w) as [w1 [d|e]]; destruct Hd as [L1 Hd].
  2: { split_and!; [by eapply fresh_later|done|done]. }
  destruct (Hd d eq_refl) as (n & Hn & ->). pose proof (fresh_later _ _ _ Hf L1) as Hf1. unfold snapshotFor.
  pose proof (Hitems p store w1 Ha) as Hi. destruct (fetchItems p conn store w1) as [w2 got]. destruct Hi as [L2 Hi].
  assert (Hnew : let '(p', w', got') := match got with Err err => (p, w2, Err err) | Ok items => (install p store (MkSnapshot (digest_at store n) items), w2, Ok (MkSnapshot (digest_at store n) items)) end in
    fresh (p', w') /\ later w w' /\ forall snap, got' = Ok snap -> exists nd ni, (version store w <= nd <= ni)%nat /\ (ni <= version store w')%nat /\
      snap = MkSnapshot (digest_at store nd) (content store ni)).
  { assert (L : later w w2) by (intros st; specialize (L1 st); specialize (L2 st); lia). destruct got as [items|e].
    - destruct (Hi items eq_refl) as (m & Hm & ->). split_and!; [|done|].
      + split; [done|]. intros st s. cbn. rewrite lookup_insert_Some. intros [[<- <-]|[_ Hs]]; [exists n, m; split; [lia|done]|].
        destruct (proj2 Hf1 st s Hs) as (nd & ni & Hni & ->). exists nd, ni. split; [|done]. specialize (L2 st). simpl in Hni. lia.
      + intros snap [= <-]. exists n, m. split_and!; [lia..|done].
    - split_and!; [by eapply fresh_later|done|done]. }
  destruct (vp_snapshots p !! store) as [held|] eqn:Eh; [|exact Hnew]. case_bool_decide as Edig; [|exact Hnew].
  split_and!; [done|done|]. intros snap [= <-]. destruct (Hheld store held Eh) as (nd & ni & Hni & ->). cbn in Edig. apply Hedit in Edig as ->.
  exists n, ni. split_and!; [lia..|done].
Qed.

Lemma vercel_driven_fresh pw : driven pw -> fresh pw.
Proof.
  assert (Hfetch : forall store pw, fresh pw -> fresh (fetch conn store pw).1).
  { intros store pw0 H. pose proof (fetch_fresh store pw0 H) as H1. destruct (fetch conn store pw0) as [[p1 w1] got]. by destruct H1. }
  induction 1 as [p w Hs Ha|p w w' _ IH Hl|pw ref _ IH|pw refs _ IH|p w _ IH].
  - split; [done|]. intros store s. cbn. by rewrite Hs, lookup_empty.
  - by eapply fresh_later.
  - unfold Resolve. rewrite (proj1 (proj1 IH)). destruct (parsePath _ _) as [[store key]|]; [|done]. unfold single.
    specialize (Hfetch store pw IH). by destruct (fetch conn store pw).
  - unfold ResolveBatch. destruct refs; [done|]. rewrite (proj1 (proj1 IH)). destruct (group_refs _ _ _); [|done]. by apply batch_groups_keeps.
  - destruct IH as [[Hc Hh] Hf]. split; [|done]. split; [|done]. exact Hc.
Qed.

(** A value is never older than the resolve that returns it: whatever the provider holds
    from before, and however the store is edited meanwhile, it is the value its key has at
    a version the store reached during that resolve. *)
Theorem vercel_value_is_current pw ref pw' v : driven pw -> Resolve ref pw = (pw', Ok v) ->
  exists store key raw nd ni, parsePath (ref_Path ref) (cn_storeID conn) = Ok (store, key) /\
    (version store pw.2 <= nd <= ni)%nat /\ (ni <= version store pw'.2)%nat /\
    content store ni !! key = Some raw /\ valueFor raw ref store (digest_at store nd) = Ok v.
Proof.
  intros Hdr. apply vercel_driven_fresh in Hdr as Hf. unfold Resolve. rewrite (proj1 (proj1 Hf)).
  destruct (parsePath _ _) as [[store key]|] eqn:Ep; [|done]. unfold single. pose proof (fetch_fresh store pw Hf) as Hs.
  destruct (fetch conn store pw) as [[p' w'] [snap|e]]; [|done]. intros [= <- Hv]. destruct Hs as (_ & _ & Hs).
  destruct (Hs snap eq_refl) as (nd & ni & Hn & Hn' & ->). unfold extract in Hv. rewrite Ep in Hv. cbn in Hv.
  destruct (content store ni !! key) as [raw|] eqn:Er; [|done]. exists store, key, raw, nd, ni. split_and!; try done; lia.
Qed.
End vercel.
End VercelGC.
