(* ===== verification/UniversalAuth.v ===== *)
(** The Infisical provider (src/providers/infisical): Universal Auth, a login whose token
    is cached for every caller as in [TokenCache], over the HTTP core, and the secrets
    read with it. *)

From S2P Require Import Prelude Errors GoStrings Ref Provider Decode GoNumbers Base64 Pointer GoPath Client SSE HttpCore TokenCache HttpAuth Backends Polled.
Open Scope string_scope.
Open Scope Z_scope.

Module Infisical.
Definition defaultBaseURL : string := "https://app.infisical.com".
Definition loginPath : string := "/api/v1/auth/universal-auth/login".
Definition secretsPath : string := "/api/v4/secrets/".
Definition defaultSecretPath : string := "/".
Definition userAgent : string := "mamori-infisical".
Definition defaultLeeway : Z := 30 * Second.

(** [type Provider struct]. *)
Record Provider (W : Type) := MkProvider {
  ip_clientID : string;
  ip_clientSecret : option string;
  ip_projectID : string;
  ip_environment : string;
  ip_secretPath : string;
  ip_baseURL : string;
  ip_allowInsecure : bool;
  ip_httpClient : option (http_client W);
  ip_client : option (core_Client W);
  ip_closed : bool;
}.
Arguments MkProvider {W}.
Arguments ip_clientID {W}.
Arguments ip_clientSecret {W}.
Arguments ip_projectID {W}.
Arguments ip_environment {W}.
Arguments ip_secretPath {W}.
Arguments ip_baseURL {W}.
Arguments ip_allowInsecure {W}.
Arguments ip_httpClient {W}.
Arguments ip_client {W}.
Arguments ip_closed {W}.

(** [type settings struct], and the environment the provider reads. *)
Record settings := MkSettings { is_project : string; is_environment : string; is_secretPath : string }.
Record environment := MkEnvironment { ie_id : string; ie_secret : string; ie_project : string; ie_environment : string; ie_path : string }.

(** [type Option func( *Provider)]. *)
Inductive Option_ (W : Type) :=
  | WithClientID (id : string) | WithClientSecret (secret : string) | WithProjectID (id : string) | WithEnvironment (slug : string)
  | WithSecretPath (path : string) | WithBaseURL (u : string) | WithAllowInsecure | WithHTTPClient (c : option (http_client W)).
Arguments WithClientID {W}.
Arguments WithClientSecret {W}.
Arguments WithProjectID {W}.
Arguments WithEnvironment {W}.
Arguments WithSecretPath {W}.
Arguments WithBaseURL {W}.
Arguments WithAllowInsecure {W}.
Arguments WithHTTPClient {W}.

(** [type secretEnvelope struct], the object in it: its value and its version. *)
Record secret_object := MkSecretObject { so_SecretValue : string; so_Version : Z }.

(** The part of [universalAuth] that construction fixes, and [universalAuthConfig]. *)
Record universalAuth (W : Type) := MkAuth { ua_client : core_Client W; ua_body : string; ua_clientID : string; ua_leeway : Z }.
Arguments MkAuth {W}.
Arguments ua_client {W}.
Arguments ua_body {W}.
Arguments ua_clientID {W}.
Arguments ua_leeway {W}.

Definition invalid (msg : string) : error := EWrap ("mamori/infisical: " ++ msg) [ESentinel ErrInvalid].

(** [func versionOf(version int64, value []byte) string]. *)
Definition versionOf (version : Z) (value : string) : string := if 0 <? version then FormatInt version else VersionHash value.

Section infisical.
Context {W : Type} `{J : JSON}.
Context (url_Parse : string -> option URL) (url_Scheme : string -> option string) (default_client : sent -> W -> W * res received).
Context (request_ok : sent -> bool).
(** [json.Marshal] of the login request; [json.Unmarshal] into the login response, the
    envelope of a secret and the message of an error. *)
Context (Marshal_login : string -> string -> string) (Unmarshal_login : string -> option (string * Z)).
Context (Unmarshal_envelope : string -> option (option secret_object)) (Unmarshal_message : string -> option string).
Context (env : environment).
(** The world has the clock, and the cache of the authenticator of the provider. *)
Context (now : W -> Z) (auth_state : W -> oauth2Auth string) (set_auth_state : oauth2Auth string -> W -> W).
Implicit Types p : Provider W.

(** * Universal Auth *)

(** [func newUniversalAuth(cfg universalAuthConfig)]. *)
Definition newUniversalAuth (client : option (core_Client W)) (clientID : string) (clientSecret : option string) (leeway : Z) : res (universalAuth W) :=
  match client with
  | None => Err (invalid "a login client is required")
  | Some c =>
      if bool_decide (clientID = "") then Err (invalid "a client id is required")
      else
        match clientSecret with
        | None => Err (invalid "a client secret is required")
        | Some secret => Ok (MkAuth c (Marshal_login clientID secret) clientID (if leeway <=? 0 then defaultLeeway else leeway))
        end
  end.

(** [func (a *universalAuth) login(ctx)]: a lifetime of seconds is a product of 64 bits. *)
Definition read_login (a : universalAuth W) (at_ : Z) (got : res core_Response) : res (string * Z) :=
  match got with
  | Err err => Err (EWrap "mamori/infisical: Universal Auth login failed" [err])
  | Ok resp =>
      match Unmarshal_login (re_Body resp) with
      | None => Err (invalid "Universal Auth login response is not JSON")
      | Some (token, expiresIn) =>
          if bool_decide (token = "") then Err (EWrap "mamori/infisical: Universal Auth login returned no accessToken" [ESentinel ErrUnauthenticated])
          else if 0 <? expiresIn then Ok (token, at_ + wrap_int 64 (expiresIn * Second))
          else Ok (token, at_ + ua_leeway a * 2)
      end
  end.
Definition login (a : universalAuth W) (w : W) : W * res (string * Z) :=
  let '(w, got) := core_Do request_ok (ua_client a) (MkCoreRequest "POST" loginPath ∅ [("Content-Type", "application/json")] (ua_body a) "" "") w in
  (w, read_login a (now w) got).

(** [func (a *universalAuth) tokenFor(ctx)], its callers in the order of their critical
    sections: it is the cache of [TokenCache] with the provider's own error. *)
Definition errLoginCanceled : error :=
  EWrap "mamori/infisical: Universal Auth login" [ESentinel ErrUnavailable; ESentinel CtxCanceled].
Definition tokenFor_step (a : universalAuth W) := token_step (A := string) (ua_leeway a) errLoginCanceled.

(** A caller on its own: the token that is held, or a login and the token it gives. *)
Definition tokenFor (a : universalAuth W) (w : W) : W * res string :=
  match live (ua_leeway a) (now w) (auth_state w) with
  | Some tok => (w, Ok tok)
  | None =>
      let '(w, got) := login a w in
      (match got with Ok (tok, expires) => set_auth_state (MkTokens (Some tok) expires None) w | Err _ => w end, fst <$> got)
  end.

(** [func (a *universalAuth) Apply(ctx, req)]. *)
Definition Apply (a : universalAuth W) (req : sent) (w : W) : W * res sent :=
  let '(w, tok) := tokenFor a w in (w, oauth2_Apply tok req).

(** * The provider *)

Definition apply_option p (o : Option_ W) : Provider W :=
  let '(MkProvider id sec proj en path base ins hc cl cd) := p in
  match o with
  | WithClientID x => if bool_decide (x = "") then p else MkProvider x sec proj en path base ins hc cl cd
  | WithClientSecret x => if bool_decide (x = "") then p else MkProvider id (Some x) proj en path base ins hc cl cd
  | WithProjectID x => MkProvider id sec x en path base ins hc cl cd
  | WithEnvironment x => MkProvider id sec proj x path base ins hc cl cd
  | WithSecretPath x => MkProvider id sec proj en x base ins hc cl cd
  | WithBaseURL u => if bool_decide (u = "") then p else MkProvider id sec proj en path (TrimRightSlash u) ins hc cl cd
  | WithAllowInsecure => MkProvider id sec proj en path base true hc cl cd
  | WithHTTPClient (Some c) => MkProvider id sec proj en path base ins (Some c) cl cd
  | WithHTTPClient None => p
  end.

(** [func New(opts ...Option) *Provider]. *)
Definition New (opts : list (Option_ W)) : Provider W := foldl apply_option (MkProvider "" None "" "" "" defaultBaseURL false None None false) opts.

(** [func secretNameOf(ref)]. *)
Definition secretNameOf (ref : Ref) : res string :=
  if bool_decide (secret_name (ref_Path ref) = "") then Err (invalid "ref requires a secret name") else Ok (secret_name (ref_Path ref)).

(** [func (p *Provider) settingsFor(ref)]: an environment may be absent, a project not. *)
Definition settingsFor p (ref : Ref) : res settings :=
  let s := MkSettings (first_text [Ref_Opt ref "project"; ip_projectID p; ie_project env])
             (first_text [Ref_Opt ref "env"; ip_environment p; ie_environment env])
             (first_text [Ref_Opt ref "path"; ip_secretPath p; ie_path env; defaultSecretPath]) in
  if bool_decide (is_project s = "") then Err (invalid "no project id") else Ok s.

(** [func errorMessage(_ int, body []byte) string]. *)
Definition errorMessage (_ : Z) (body : string) : string := default "" (Unmarshal_message body).

(** What [clientFor] builds when there is no client yet: a client to log in with, the
    authenticator over it, and the client of the secrets. *)
Definition build_client p : res (core_Client W) :=
  let base := default_to defaultBaseURL (ip_baseURL p) in
  match check_scheme url_Scheme "mamori/infisical: base URL" base (ip_allowInsecure p) with
  | Some err => Err err
  | None =>
      let clientID := first_text [ip_clientID p; ie_id env] in
      let secret := match ip_clientSecret p with Some s => Some s | None => if bool_decide (ie_secret env = "") then None else Some (ie_secret env) end in
      if bool_decide (clientID = "") then Err (invalid "no client id")
      else
        match secret with
        | None => Err (invalid "no client secret")
        | Some _ =>
            match core_New url_Parse default_client (MkCoreConfig base (hc_Do <$> ip_httpClient p) None 0 userAgent None) with
            | Err err => Err (EWrap "mamori/infisical: building the login client" [err])
            | Ok loginClient =>
                match newUniversalAuth (Some loginClient) clientID secret 0 with
                | Err err => Err err
                | Ok auth =>
                    res_wrap (fun e => EWrap "mamori/infisical: building the API client" [e])
                      (core_New url_Parse default_client
                         (MkCoreConfig base (hc_Do <$> ip_httpClient p) (Some (Apply auth)) 0 userAgent (Some errorMessage)))
                end
            end
        end
  end.
Definition set_client p (c : core_Client W) : Provider W :=
  MkProvider (ip_clientID p) (ip_clientSecret p) (ip_projectID p) (ip_environment p) (ip_secretPath p) (ip_baseURL p) (ip_allowInsecure p)
    (ip_httpClient p) (Some c) (ip_closed p).

(** [func (p *Provider) clientFor() ( *httpcore.Client, error)]. *)
Definition clientFor p : Provider W * res (core_Client W) :=
  if ip_closed p then (p, Err (EWrap "mamori/infisical: provider is closed" [ESentinel ErrUnavailable]))
  else
    match ip_client p with
    | Some c => (p, Ok c)
    | None => match build_client p with Err err => (p, Err err) | Ok c => (set_client p c, Ok c) end
    end.

(** The request of a secret, and what is read of its answer. *)
Definition secret_request (s : settings) (name : string) : core_Request :=
  let q : Values := {["projectId" := [is_project s]; "secretPath" := [is_secretPath s]]} in
  MkCoreRequest "" (secretsPath ++ PathEscape name)
    (if bool_decide (is_environment s = "") then q else Header_Set q "environment" (is_environment s)) [] "" "" "".
Definition read_secret (ref : Ref) (resp : core_Response) : res Value :=
  match Unmarshal_envelope (re_Body resp) with
  | None => Err (invalid "response is not JSON")
  | Some None => Err (invalid "response carried no secret object")
  | Some (Some so) =>
      match SelectKey (so_SecretValue so) (ref_Key ref) with
      | Err err => Err (EWrap "mamori/infisical: secret" [err])
      | Ok body => Ok (MkValue body (versionOf (so_Version so) (so_SecretValue so)) true 0 ∅)
      end
  end.

(** [func (p *Provider) Resolve(ctx, ref)]. *)
Definition Resolve (ref : Ref) p (w : W) : W * res Value * Provider W :=
  match secretNameOf ref with
  | Err err => (w, Err err, p)
  | Ok name =>
      match settingsFor p ref with
      | Err err => (w, Err err, p)
      | Ok s =>
          match clientFor p with
          | (p, Err err) => (w, Err err, p)
          | (p, Ok client) =>
              (ask (core_Do request_ok client) (secret_request s name) (fun err => EWrap "mamori/infisical: reading secret" [err]) (read_secret ref) w, p)
          end
      end
  end.

(** [func (p *Provider) Close() error]. *)
Definition Close p : Provider W :=
  MkProvider (ip_clientID p) (ip_clientSecret p) (ip_projectID p) (ip_environment p) (ip_secretPath p) (ip_baseURL p) (ip_allowInsecure p)
    (ip_httpClient p) (ip_client p) true.

#[export, program] Instance provider : HttpProvider W (Provider W) :=
  {| hp_resolve := Resolve; hp_close := Close; hp_closed := ip_closed |}.
Next Obligation. done. Qed.
Next Obligation.
  intros p ref w Hc. unfold Resolve, clientFor. rewrite Hc. destruct (secretNameOf ref); [|done]. by destruct (settingsFor p ref).
Qed.

(** * A caller on its own *)

(** What a caller on its own does is a run of the shared cache: it returns what
    [tokenFor] returns, and leaves the cache as [tokenFor] leaves it. *)
Theorem tokenFor_is_a_run (a : universalAuth W) w c :
  (forall st w', auth_state (set_auth_state st w') = st) ->
  oa_inflight (auth_state w) = None -> auth_state (login a w).1 = auth_state w ->
  exists evs st,
    token_run (ua_leeway a) errLoginCanceled (MkTokenState (auth_state w) ∅ ∅ 0) evs = Some (st, [(c, (tokenFor a w).2)]) /\
    tk_auth st = auth_state (tokenFor a w).1 /\ tk_callers st = ∅.
Proof.
  intros Hset Hin Hlogin. unfold tokenFor. destruct (live (ua_leeway a) (now w) (auth_state w)) as [tok|] eqn:Hl.
  { exists [TkCall c (now w)], (MkTokenState (auth_state w) ∅ ∅ 0). simpl. by rewrite Hl. }
  destruct (login a w) as [w1 got]. cbn in Hlogin |- *.
  exists [TkCall c (now w); TkExchanged c got; TkClose c]. cbn. rewrite lookup_empty, Hl, Hin. cbn. rewrite lookup_insert_eq. cbn. rewrite insert_insert_eq, lookup_insert_eq. cbn.
  eexists. split; [done|]. cbn. split; [|by apply delete_insert_id].
  destruct got as [[tok expires]|e]; cbn; [by rewrite Hset|]. rewrite Hlogin. destruct (auth_state w); cbn in *. by subst.
Qed.

(** A lifetime that is past what a duration can hold gives a token that is expired when
    it arrives: every request logs in again. *)
Lemma long_lifetime_is_expired a at_ resp tok : Unmarshal_login (re_Body resp) = Some (tok, 2 ^ 33 + 2 ^ 30) -> tok <> "" ->
  exists expires, read_login a at_ (Ok resp) = Ok (tok, expires) /\ expires < at_.
Proof.
  intros Hu Ht. unfold read_login. rewrite Hu, bool_decide_eq_false_2 by done. eexists. split; [done|].
  assert (wrap_int 64 ((2 ^ 33 + 2 ^ 30) * Second) < 0) by done. lia.
Qed.
End infisical.
End Infisical.
